(* ===== verification/_CoqProject ===== *)
-Q . S2P
Prelude.v
Utf8.v
Identity.v
TargetMemory.v
Sandbox.v
SandboxPolicyTheory.v
SandboxLifecycle.v
Protocol.v
ProtocolTheory.v
Sorting.v
SymbolGraph.v
ElfAnalysis.v
ElfTheory.v
ElfDeclared.v
AddressSpace.v
AddressSpaceTheory.v
ElfLayoutTheory.v
OfflineImage.v
Authorization.v
SessionMachine.v
LivePatchHistory.v
SessionInvariant.v
SessionCommands.v
SessionWorlds.v
SessionTheorems.v
SessionEvidence.v
AuthorizationTheory.v
LivePatchTheory.v
LivePatchTarget.v
HostWire.v
HostWireTheory.v
HostChannelTheory.v
HostHandshakeTheory.v
HostCodec.v
HostCodecTheory.v
HostResponse.v
HostEvidence.v
HostEvidenceTheory.v
HostReading.v
HostSettling.v
HostExchangeTheory.v
HostProvenance.v
HostClient.v
HostClientTheory.v
OfflineHost.v
OfflineHostTheory.v
SoftwareBreakpoint.v
SoftwareBreakpointTheory.v
GdbPacket.v
GdbPacketTheory.v
GdbTransport.v
GdbTransportTheory.v
GdbTarget.v
GdbTargetLaws.v
GdbRegistersTheory.v
GdbServer.v
GdbTextTheory.v
GdbServerTheory.v
GdbClient.v
GdbClientTheory.v
GdbSessionTheory.v
GdbReplyTheory.v
GdbDescriptionTheory.v
CoreDump.v
CoreDumpTheory.v
CoreTargetTheory.v
Msf.v
MsfLayoutTheory.v
MsfTheory.v
Scenarios.v
Witnesses.v
LivePatchWitnesses.v
ComponentWitnesses.v
GdbWitnesses.v
HostWitnesses.v
HostClientWitnesses.v
ImageWitnesses.v
OfflineWitnesses.v
