(* ===== verification/Prelude.v ===== *)
(** * The debugger contract and the byte formats of ReSymbol

    ReSymbol is a reverse-engineering workbench: an analysis core, a desktop
    workbench and command line, a plugin runtime, exporters, and a debugger
    whose backends run as separate host processes.  This development verifies
    the part of the debugger on which its safety claims rest, the value-only
    contract layer of the crate [src/crates/resymbol-debugger]: which sandbox
    policies are acceptable and what their digest binds, who may open which
    target, which commands and events are well formed and current, how one
    debugger session moves from its first command to its close, how commands and
    events travel between controller and debug host and what the controller's
    client believes of what comes back, and what the patches and software
    breakpoints it plans do to the target's memory.  With it go the host that
    serves an image file read-only, and what it is built on: the ELF analysis of
    [src/crates/resymbol-analysis], the symbol graph of [src/crates/resymbol-core]
    and the address space of an image.  It also verifies the remote debugging
    crate [src/crates/resymbol-gdb-remote],
    that is the packets of the GDB remote serial protocol, the server that
    exposes a target with them, the client that drives one, and the target made
    of an ELF core file; and the MSF container of a PDB that the exporters write
    ([src/crates/resymbol-export]).

    ** The program's parts and how they interact

    A controller (the workbench) talks to a debug host (a backend process)
    over a wire protocol.  Both sides keep the same reducer, [SessionMachine],
    and feed it commands, backend observations and evidence.  The reducer
    validates every command against the protocol contract ([protocol.rs]),
    opens a target only on authority issued out of band ([authorization.rs]),
    and drives the lifecycle reducer of a sandboxed target ([sandbox.rs])
    through provisioning, attestation, running, cleanup and closing.  Both
    reducers own no handles and perform no I/O, so their whole behaviour is a
    function of the calls made on them; that function is what is modelled.

    Controller and host exchange frames ([host_wire.rs]): a channel opens with
    a handshake of a hello and its acknowledgement, and then carries commands
    one way and events the other, each a frame with a JSON control message and,
    for memory contents, a raw payload ([host_codec.rs]).  The host answers a
    command with a bounded batch of frames ([host_response.rs]).  The client
    ([host_client.rs]) owns one connection over a frame exchange and at most one
    session on it: it admits a command in its own reducer, sends it, reads the
    batch that comes back, and requires exactly the evidence that the command
    calls for before the reducer moves and a receipt is handed out.  Any
    violation fails the connection and aborts the transport.

    One host is part of the crate itself ([offline_image_host.rs]): it answers in
    process, as the transport of a client, and serves the bytes of one verified
    image.  An analysis ([elf.rs]) turns the bytes of a file into headers, load
    segments, symbols and a graph of name claims about them ([symbols.rs]); the
    address space ([address_space.rs]) lays the segments, or the sections of a PE
    image, out as sorted regions with their file ranges; a read looks its range up
    there and copies the bytes of the snapshot.  The host keeps a session reducer
    of its own and refuses every command that would run or change a target.

    Beside the session, the controller keeps an undo history of the bytes it
    patched into the live target ([live_patch_history.rs]), which moves only on
    the receipts of the session reducer or of a remote host, and a backend
    keeps a planner of software breakpoints ([software_breakpoint.rs]) that
    hands out compare/replace steps and moves on their acknowledgements.  The
    container writer is a leaf: streams in, one file out.

    The remote protocol crate stands beside them.  A target is anything that
    implements the trait [RemoteTarget]; the server reads packets from a
    transport, acknowledges them, performs each request on its target and sends
    the reply; the client sends a request over a transport of its own and waits
    for the reply under one deadline per operation.  Packets, transports,
    targets, server and client meet only in these interfaces, which are the
    classes [Transport], [RemoteTarget] and [Clock] here, and the theorems about
    server and client are proved against them.

    ** Files

    - [Prelude]: results with panics kept apart from errors, the state and
      error monad, machine-width arithmetic, strings as lists of code points
      with their UTF-8 length, path components, byte encodings; the weakest
      precondition calculus [wp], guarded commands, panic freedom, the
      [prefix_inj] combinators for encodings, and the hint databases [rust],
      [nopanic] and [keeps].
    - [Utf8]: UTF-8 as the standard library decodes it.
    - [Identity]: [identity.rs], the identifier newtypes of [sandbox.rs] and
      [BinaryId::from_sha256] of [resymbol-core/src/symbols.rs].
    - [Sandbox]: [sandbox.rs], that is policies and their validation, the
      canonical digest, expected and actual attestations, failure evidence,
      cleanup receipts and the lifecycle reducer [SandboxMachine].
    - [SandboxPolicyTheory], [SandboxLifecycle]: its theorems.
    - [Protocol]: [protocol.rs], that is identifiers, tokens, target requests,
      capabilities, breakpoints, registers, commands, session states, events
      and the event cursor.
    - [ProtocolTheory]: its theorems.
    - [Sorting]: the stable sort and the binary search of the standard library.
    - [SymbolGraph]: [resymbol-core/src/symbols.rs], that is identities, claims
      with their evidence, and the graph that collects them, with its theorem.
    - [ElfAnalysis]: [resymbol-analysis/src/elf.rs] and the ELF types of
      [types.rs]: the reader, the tables, load segments, symbols, the graph of an
      image and the final validation.  [ElfTheory]: what each step yields.
      [ElfDeclared]: the fields of the file that the ELF format prescribes, and
      that the parsed headers are these.
    - [AddressSpace]: [address_space.rs]: ranges, regions, the layouts of ELF and
      PE images and their queries.  [AddressSpaceTheory]: regions, the search, and
      PE layouts.  [ElfLayoutTheory]: ELF layouts, down to the bytes of the file.
    - [OfflineImage]: the snapshot of [offline_image_host.rs] and its reads, with
      their theorem.  [OfflineHost]: the host over it, an instance of
      [HostFrameExchange].  [OfflineHostTheory]: its runs, and a client of it.
    - [Authorization]: [authorization.rs], the lease issuers, launch intents
      and verifiers.
    - [SessionMachine]: [session_machine.rs], every method of the reducer that
      changes it and every validator it exposes.
    - [SessionInvariant], [SessionCommands]: the invariant and its
      preservation by backend observations and by commands.
    - [SessionWorlds]: the runs of a session and the theorems about all of
      them.
    - [SessionTheorems], [SessionEvidence]: theorems about closing, rollback,
      replay, authority, live writes and unsolicited batches.
    - [AuthorizationTheory]: issuance, uniqueness and use of leases.
    - [TargetMemory]: the memory of a target as the patch history and the
      breakpoint planner see it, byte writes and their inverses.
    - [LivePatchHistory]: [live_patch_history.rs], and the command receipt of
      [host_client.rs] that it reads.
    - [LivePatchTheory]: its theorems, alone and together with the session
      reducer.  [LivePatchTarget]: the history next to a target and a host that
      performs its commands.
    - [HostWire]: [host_wire.rs], the frames between controller and host, their
      two decoders, frame sequences and the handshake.  [HostWireTheory]: the
      codec.  [HostChannelTheory]: the incremental header decoder and the
      handshake step by step.  [HostHandshakeTheory]: its runs.
    - [HostCodec], [HostCodecTheory]: [host_codec.rs], commands and events as
      frames.
    - [HostResponse]: [host_response.rs], response batches and their budget.
    - [HostEvidence]: the evidence rules of [host_client.rs], which read a batch
      of responses against a command and the reducer.  [HostEvidenceTheory]: the
      steps of the reducer under these rules.  [HostReading]: the loop that reads
      a batch.  [HostSettling]: the start of a command and what settles it.
      [HostExchangeTheory]: the whole path from a command to its receipt.
      [HostProvenance]: the frames that the events of a receipt come from.
    - [HostClient]: the trait [HostFrameExchange] as a class and every method of
      [DebugHostClient].  [HostClientTheory]: the runs of a client.
    - [SoftwareBreakpoint], [SoftwareBreakpointTheory]:
      [software_breakpoint.rs] and its theorems.
    - [GdbPacket], [GdbPacketTheory]: [resymbol-gdb-remote/src/protocol.rs],
      that is packet encoding, the incremental packet reader and the hex
      helpers, and their theorems.
    - [GdbTransport], [GdbTransportTheory]: [transport.rs], that is the trait as
      the class [Transport], the buffered stream transport and the in-memory
      stream.  [Pipe] states what a reliable channel promises; the stream
      transport over the in-memory stream is an instance.
    - [GdbTarget]: [target.rs] and the registers of [target_description.rs]:
      the trait with its provided methods and the register packets of amd64 and
      of the PlayStation 2 EE.  [GdbTargetLaws]: [LawfulTarget], what the trait's
      types promise of any target.  [GdbRegistersTheory]: the register packets.
    - [GdbServer]: [server.rs], with every request handler.  [GdbTextTheory]: the
      text of requests and replies.  [GdbServerTheory]: the protocol machine and
      the refinement of it by the server.  [GdbReplyTheory]: the sizes of replies.
    - [GdbClient], [GdbClientTheory]: [client.rs] and one exchange of it with a
      peer that answers ([Duplex]).
    - [GdbSessionTheory], [GdbDescriptionTheory]: the client joined to the server
      ([served]), for whole sessions and for the fetch of a target description.
    - [CoreDump], [CoreDumpTheory], [CoreTargetTheory]: [core_dump.rs], that is
      the ELF core parser, memory reads and the read-only target over them.
    - [Msf]: [resymbol-export/src/pdb/msf.rs], the container writer.
      [MsfLayoutTheory]: its planning and block allocator.  [MsfTheory]: the
      bytes it writes and a reader of the format.
    - [Scenarios], [Witnesses], [LivePatchWitnesses], [ComponentWitnesses],
      [GdbWitnesses], [HostWitnesses], [HostClientWitnesses], [ImageWitnesses],
      [OfflineWitnesses]: concrete sessions
      and inputs, and every theorem with hypotheses applied to one of them.

    ** Correspondence

    A Rust function is the definition of the same name (with a prefix where
    two types share a method name: [sm_] for the sandbox reducer,
    [LaunchTarget_validate], [policy_validate] and the like).  [Result] is
    [result], with a third constructor for [expect], [unwrap] and
    [unreachable!]; a [&mut self] method is a computation of [smonad], which
    returns the state reached also when it fails, as Rust does not roll back.
    Records keep their fields under a short prefix, enums are inductive types,
    in a module of their own where two enums share variant names.  Integers
    are [Z] with their width written into each check; [usize] has 64 bits.
    Paths compare by Unix components, which is what the derived equality of
    [PathBuf] does.  An [Arc] identity is an explicit address.

    SHA-256 is a parameter, the class [Sha256]; [Sha256Spec] states its
    documented output format, thirty-two bytes.  No theorem assumes that it
    has no collisions: where a digest is said to bind its input, the other
    case exhibits the two colliding inputs.  The entropy of a lease issuer is
    an argument.  Whether the allocator grants the reservations of the MSF
    writer is a parameter without assumptions, the function [can_reserve].
    The bytes a transport delivers and the time a clock shows are methods of the
    classes [Transport] and [Clock]; the laws a theorem needs of them are [Pipe]
    (what was sent arrives, in order, and then the channel ends), [Duplex] (what the
    peer has sent in answer to the bytes written so far arrives, in order) and
    [Punctual] (the deadline does not pass), and [description_fetch_bounded] needs
    none.  The XML reader that
    the client runs on a fetched description is an argument without assumptions.
    The JSON library is the class [Json], a writer and a reader; [carries] states
    of one document that it is read back as it was written, and the codec
    theorems and [offline_reads_exact] need it; [typed_documents] states that the
    reader builds commands through the constructors of their types, which only the
    theorems about the offline host need.  The texts that errors print are the
    class [Display], without assumptions.  A debug host is whatever implements the class
    [HostFrameExchange]; the theorems about the client hold for any answers of
    it, late, duplicated, out of order or hostile, and ask only that its methods
    return as long as it keeps an invariant of its own choice ([quiet_transport]);
    the offline host is shown to do so ([offline_host_quiet]).
    The target memory and the host that writes it are not code of the modelled
    files: the theorems that mention them state what the host does with a plan
    as a step relation ([patch_step], [debuggee_step]).

    ** What the theorems show

    - Sandbox policy: validation accepts exactly the declarative contract
      ([policy_validate_spec]) and the digest binds every field of the policy
      and the target binary ([policy_digest_binds]).
    - Sandbox lifecycle: a valid policy yields a reducer, each call is a
      guarded assignment, attestation is exact, nothing runs unattested and
      nothing closes without complete cleanup evidence
      ([valid_policy_admits_machine], [sandbox_exec_guarded],
      [validate_exact_spec], [sandbox_runs_only_attested],
      [sandbox_closes_only_clean]).
    - Protocol: the acceptance conditions of reports, breakpoints, cursors and
      event envelopes, the inverse translations of image addresses, and that a
      command is good for one state generation of a history whose tokens never
      repeat.
    - Session: in every reachable world the invariant holds
      ([session_worlds_coherent]) and every call refines the wire contract
      without panicking ([session_call_refines]); sandboxed code runs only
      attested, sessions open only on authority and close only on evidence,
      commands are not replayed, rejected commands roll back, live writes
      resolve once and by their own receipt, batches of observations are
      atomic, and closed is final.
    - Authorization: issuance is total and unique up to collisions, an issued
      launch opens, and a spent lease stays spent.
    - Live patches: the history stays well formed and bounded, moves on exact
      evidence only, and undoing it restores the target
      ([patch_history_sound], [commit_needs_exact_evidence],
      [undo_restores_memory], [frozen_history_final]); the receipts of the
      session reducer move it as they should ([write_receipts_reach_history]).
    - Host channel: frames and commands are read back as they were sent and
      nothing else is accepted ([frame_codec_exact], [command_codec_exact]), the
      incremental header decoder is the one-shot decoder however the bytes are
      cut ([header_decoder_exact]), a channel opens only for the hello it
      acknowledges and opens for honest endpoints ([handshake_authentic],
      [handshake_completes]), and no sequence of responses exceeds its budget
      ([response_budget_kept]).
    - Host client: in every run, against any host, no method panics and the
      client's invariant holds ([client_runs_sound]); a receipt is handed out
      only for the evidence the command calls for, all of it bound to this
      command and this session ([submit_receipt_exact]); a client is connected
      only on the acknowledgement of its own hello ([connect_authentic]); a
      closed session can always be released ([closed_session_released]); and a
      client that ended calls its transport no more ([ended_client_inert]).
    - Images: the analysis of any bytes as ELF returns, and what it accepts is laid
      out exactly as the program headers in the file say ([elf_analysis_exact]); a PE layout
      tiles the image and gives every byte the offset that headers and sections
      declare ([pe_layout_exact]); a read returns exactly the bytes of the image
      ([image_read_exact]); and a symbol graph stays valid ([symbol_graph_sound]).
    - Offline host: in every run it never panics, never runs anything and never
      opens anything but its image ([offline_host_never_executes]); and what its
      client is told it read is what the image holds ([offline_reads_exact]).
    - Software breakpoints: the planner never panics and keeps its table,
      believes exactly the report of the pending plan, and its cleanup evidence
      always restores the target ([breakpoint_machine_sound],
      [acknowledgement_exact], [cleanup_restores_target]).
    - Packets: what is encoded is read back, nothing but complete frames is
      accepted, body decoding is the token grammar, the hex helpers lose
      nothing ([stream_roundtrip], [reader_accepts_only_frames],
      [decode_body_grammar], [hex_exact]).
    - Remote debugging: the byte-level server refines a machine on protocol
      events ([server_refines_protocol]) and survives any bytes
      ([server_survives_any_bytes]); a session of client and server is driving
      the target directly, within the client's limits ([remote_session_transparent]); a target description
      arrives as it was sent and no stub keeps the client fetching one
      ([description_transfer_exact], [description_fetch_bounded]); register
      packets lose only what they do not carry ([amd64_packet_exact],
      [ps2_packet_exact]).
    - Core files: parsing never panics and yields exactly the segments of the
      file, reads return exactly the captured bytes, and a client debugging a
      core remotely sees exactly these ([core_parse_sound], [core_read_exact],
      [core_debugged_remotely]).
    - MSF containers: what is written is read back, and exactly what fits is
      written ([msf_roundtrip], [msf_accepts_exactly]).
    - Five limits of the code: a lease does not bind the text of its paths
      ([lease_ignores_path_spelling]); a sandboxed launch closed before
      its creation outcome is known can never be closed
      ([abandoned_never_closes]); a live write retried after a proved
      rejection freezes the patch history although it succeeds
      ([retry_after_rejection_freezes]); a core read longer than any buffer
      panics instead of failing ([core_read_huge]); and one symbol with a
      blank name makes an ELF image unanalyzable ([blank_name_rejected]).

    ** Runs, bounds and fuel

    A world is the reducer and the checkpoints it has minted.  [reachable]
    allows any calls in any order, with any arguments the Rust types allow
    ([admissible]): policies and bindings built by their validating
    constructors, checkpoints this reducer minted or checkpoints of another
    instance, and batches of stopped and exited states, to which the host
    client restricts the unsolicited observations.  The recursion is
    structural except for the loops that follow.  Two [while] loops of the MSF
    writer take fuel: three tests to step over a pair of reserved blocks, and
    eight to visit the eight intervals of a file.  The note walk of a core takes
    one round per byte of the file and the read loop one per segment and one
    more.  Running out of fuel is a panic of the model, so the panic freedom in
    [msf_accepts_exactly], [core_parse_sound] and [core_read_exact] shows that it
    is enough.  The loops of server and client that wait for bytes take fuel as
    an argument, as they end only when the channel does; the theorems ask for
    more fuel than there are bytes to receive.  The chunk loop of a description
    takes a number of rounds, and [description_fetch_bounded] shows that one more
    than the configured limit is always enough.  The binary search takes one round
    per element, and [partition_point_spec] shows that it ends at the partition
    point.  The only bounds are those of the code (64 leases per registry, 256 patches,
    1024 breakpoints, 32768 blocks, 64-bit generations and counters, 128-bit
    lease counters), and exhausting them is an error path the theorems cover.

    ** What is not modelled

    Serde encodings, [Debug] output and accessors of the modelled files; the
    synthetic host of the test feature in [host_client.rs]; the reservation of
    vectors, but for those of the MSF writer and of a core read; the reading of an
    offline image from its path and the checks of its identity that go with it;
    the PE and Mach-O analyses and everything else of the analysis crate, so that
    the address space of a PE image starts from an analysis that was validated;
    the protection heuristics, the provider probe and the native transports of the
    debugger crate; sockets, serial lines, the ptrace target and the XML texts of
    the remote protocol crate; the
    exporters other than the container writer; the native debug hosts, and
    every other crate.  The first
    are mechanical, the others are I/O, process control or components of their
    own.  That a lease, checkpoint or ticket cannot be cloned is a property of
    the Rust types; the theorems about worlds do not rely on it for
    checkpoints, which may be presented again here. *)

From Stdlib Require Export ZArith Lia.
From stdpp Require Export base decidable list strings gmap numbers tactics.

#[global] Open Scope Z_scope.

(** ** Fallible computations

    A Rust function that returns [Result<A, E>] has three observable ends: it
    returns [Ok], it returns [Err], or it panics ([expect], [unwrap],
    [unreachable!]).  The panic is kept apart from the error type so that
    panic freedom is a statement and not a modelling assumption. *)

Inductive result (A E : Type) : Type :=
  | Ok (a : A)
  | Err (e : E)
  | Panic (msg : string).
Arguments Ok {A E} a.
Arguments Err {A E} e.
Arguments Panic {A E} msg.

Definition result_bind {A B E} (r : result A E) (k : A → result B E) : result B E :=
  match r with
  | Ok a => k a
  | Err e => Err e
  | Panic p => Panic p
  end.

(** The conversion that Rust's [?] applies through [From], and [map_err]. *)
Definition map_err {A E F} (f : E → F) (r : result A E) : result A F :=
  match r with
  | Ok a => Ok a
  | Err e => Err (f e)
  | Panic p => Panic p
  end.

Definition ok_or {A E} (o : option A) (e : E) : result A E :=
  match o with Some a => Ok a | None => Err e end.

(** [Result::expect] and [Option::expect]. *)
Definition expect {A E F} (r : result A E) (msg : string) : result A F :=
  match r with
  | Ok a => Ok a
  | Err _ => Panic msg
  | Panic p => Panic p
  end.

Definition expect_some {A E} (o : option A) (msg : string) : result A E :=
  match o with Some a => Ok a | None => Panic msg end.

Definition is_ok {A E} (r : result A E) : bool :=
  match r with Ok _ => true | _ => false end.

(** An early [return Err(e)] guarded by a condition. *)
Definition fail_if {E} (b : bool) (e : E) : result unit E :=
  if b then Err e else Ok tt.

(** ** Methods on [&mut self]

    The receiver is passed explicitly and survives an error return, exactly
    as the fields a Rust method wrote before its [?] stay written. *)

Definition smonad (S E A : Type) : Type := S → result A E * S.

Definition sret {S E A} (a : A) : smonad S E A := λ s, (Ok a, s).
Definition serr {S E A} (e : E) : smonad S E A := λ s, (Err e, s).
Definition slift {S E A} (r : result A E) : smonad S E A := λ s, (r, s).
Definition sget {S E A} (f : S → A) : smonad S E A := λ s, (Ok (f s), s).
Definition supd {S E} (f : S → S) : smonad S E unit := λ s, (Ok tt, f s).
Definition sread {S E A} (f : S → result A E) : smonad S E A := λ s, (f s, s).

Definition sbind {S E A B} (c : smonad S E A) (k : A → smonad S E B) : smonad S E B :=
  λ s, match c s with
       | (Ok a, s') => k a s'
       | (Err e, s') => (Err e, s')
       | (Panic p, s') => (Panic p, s')
       end.

(** [map_err] after a method. *)
Definition smap_err {S E F A} (f : E → F) (c : smonad S E A) : smonad S F A :=
  λ s, (map_err f (c s).1, (c s).2).

Declare Scope rust_scope.
Delimit Scope rust_scope with rust.
Notation "'let?' x ':=' c 'in' k" := (result_bind c (λ x, k))
  (at level 10, x name, c at level 100, k at level 200,
   format "'[v' let?  x  :=  '[' c ']'  in '/' k ']'") : rust_scope.
Notation "'do?' c 'in' k" := (result_bind c (λ _, k))
  (at level 10, c at level 100, k at level 200,
   format "'[v' do?  '[' c ']'  in '/' k ']'") : rust_scope.
Notation "'let!' x ':=' c 'in' k" := (sbind c (λ x, k))
  (at level 10, x name, c at level 100, k at level 200,
   format "'[v' let!  x  :=  '[' c ']'  in '/' k ']'") : rust_scope.
Notation "'do!' c 'in' k" := (sbind c (λ _, k))
  (at level 10, c at level 100, k at level 200,
   format "'[v' do!  '[' c ']'  in '/' k ']'") : rust_scope.
#[global] Open Scope rust_scope.

(** ** Machine integers *)

Definition u8_max : Z := 2 ^ 8 - 1.
Definition u16_max : Z := 2 ^ 16 - 1.
Definition u32_max : Z := 2 ^ 32 - 1.
Definition u64_max : Z := 2 ^ 64 - 1.
Definition u128_max : Z := 2 ^ 128 - 1.

(** [usize] on a 64-bit host; [u32] and [usize] then convert to [u64] and back
    without failing. *)
Definition usize_max : Z := u64_max.

(** [isize::MAX], the most bytes an allocation holds. *)
Definition isize_max : Z := 2 ^ 63 - 1.

Definition in_u64 (n : Z) : Prop := 0 ≤ n ≤ u64_max.
Definition in_u32 (n : Z) : Prop := 0 ≤ n ≤ u32_max.

(** [checked_add] and [checked_sub] of an unsigned type with maximum [top]. *)
Definition checked_add (top a b : Z) : option Z :=
  if a + b <=? top then Some (a + b) else None.
Definition checked_sub (a b : Z) : option Z :=
  if b <=? a then Some (a - b) else None.
Definition checked_mul (top a b : Z) : option Z :=
  if a * b <=? top then Some (a * b) else None.

(** [a + b] and [a - b] on [usize], which panic on overflow. *)
Definition plain_add {E} (a b : Z) : result Z E :=
  if a + b <=? usize_max then Ok (a + b) else Panic "attempt to add with overflow".
Definition plain_sub {E} (a b : Z) : result Z E :=
  if b <=? a then Ok (a - b) else Panic "attempt to subtract with overflow".

(** [to_le_bytes] of an [n]-byte integer. *)
Fixpoint le_bytes (n : nat) (v : Z) : list Z :=
  match n with
  | O => []
  | S n' => v mod 256 :: le_bytes n' (v / 256)
  end.

Definition be_bytes (n : nat) (v : Z) : list Z := reverse (le_bytes n v).

(** [from_le_bytes]. *)
Definition from_le_bytes (bytes : list Z) : Z := foldr (λ b v, b + 256 * v) 0 bytes.

(** The length of a slice or of a [String], as the [usize] the code compares. *)
Definition zlen {A} (l : list A) : Z := Z.of_nat (length l).

(** [l[start..end]], which panics out of range, [l.get(start..end)] and [l[i]]. *)
Definition index_range {A E} (start end_ : Z) (l : list A) : result (list A) E :=
  if (start <=? end_) && (end_ <=? zlen l)
  then Ok (take (Z.to_nat (end_ - start)) (drop (Z.to_nat start) l))
  else Panic "range end index out of range for slice".

Definition slice_get {A} (start end_ : Z) (l : list A) : option (list A) :=
  if (start <=? end_) && (end_ <=? zlen l)
  then Some (take (Z.to_nat (end_ - start)) (drop (Z.to_nat start) l))
  else None.

Definition index_at {A E} (i : Z) (l : list A) : result A E :=
  expect_some (l !! Z.to_nat i) "index out of bounds".

(** ** Strings

    A Rust [String] is a sequence of Unicode scalar values; its [len] and its
    [bytes] are those of the UTF-8 encoding. *)

Definition str (s : string) : list Z :=
  Z.of_N ∘ Ascii.N_of_ascii <$> String.list_ascii_of_string s.

Definition utf8_char (c : Z) : list Z :=
  if c <? 128 then [c]
  else if c <? 2048 then [192 + c / 64; 128 + c mod 64]
  else if c <? 65536 then [224 + c / 4096; 128 + (c / 64) mod 64; 128 + c mod 64]
  else [240 + c / 262144; 128 + (c / 4096) mod 64; 128 + (c / 64) mod 64; 128 + c mod 64].

Definition utf8_encode (s : list Z) : list Z := s ≫= utf8_char.
Definition str_len (s : list Z) : Z := zlen (utf8_encode s).
Definition bytes_all (p : Z → bool) (s : list Z) : bool := forallb p (utf8_encode s).

Definition in_range (lo hi c : Z) : bool := (lo <=? c) && (c <=? hi).

(** [char::is_control]: the Unicode category Cc. *)
Definition is_control (c : Z) : bool := in_range 0 31 c || in_range 127 159 c.

(** [char::is_whitespace]: the Unicode property White_Space. *)
Definition is_whitespace (c : Z) : bool :=
  in_range 9 13 c || (c =? 32) || (c =? 133) || (c =? 160) || (c =? 5760)
  || in_range 8192 8202 c || (c =? 8232) || (c =? 8233) || (c =? 8239)
  || (c =? 8287) || (c =? 12288).

(** [s.trim().is_empty()]. *)
Definition trim_is_empty (s : list Z) : bool := forallb is_whitespace s.

Definition is_ascii_digit (b : Z) : bool := in_range 48 57 b.
Definition is_ascii_upper (b : Z) : bool := in_range 65 90 b.
Definition is_ascii_lower (b : Z) : bool := in_range 97 122 b.
Definition is_ascii_alphanumeric (b : Z) : bool :=
  is_ascii_digit b || is_ascii_upper b || is_ascii_lower b.
(** [matches!(byte, b'0'..=b'9' | b'a'..=b'f')]. *)
Definition is_lower_hex (b : Z) : bool := in_range 48 57 b || in_range 97 102 b.

Definition to_ascii_lowercase (s : list Z) : list Z :=
  (λ c, if is_ascii_upper c then c + 32 else c) <$> s.

(** The two lowercase hexadecimal digits of a byte. *)
Definition lower_hex_digit (n : Z) : Z := if n <? 10 then 48 + n else 87 + n.
Definition lower_hex (bs : list Z) : list Z :=
  bs ≫= λ b, [lower_hex_digit (b / 16); lower_hex_digit (b mod 16)].

Definition is_byte (b : Z) : Prop := 0 ≤ b ≤ 255.

(** [format!] with [{}] and [{:x}]: the digits of an unsigned number of at most
    [digits] digits, without leading zeros. *)
Fixpoint format_radix (radix : Z) (digits : nat) (n : Z) : list Z :=
  match digits with
  | O => []
  | S digits' =>
      (if n <? radix then [] else format_radix radix digits' (n / radix))
      ++ [lower_hex_digit (n mod radix)]
  end.

Definition format_x (n : Z) : list Z := format_radix 16 16 n.
Definition format_d (n : Z) : list Z := format_radix 10 20 n.

(** ** Paths

    [PathBuf] holds the bytes of an operating-system string.  Its derived
    equality is that of [Path], which compares components and not bytes;
    the Unix form of [Path::components] is modelled. *)

Inductive path_component : Type :=
  | RootDir
  | CurDir
  | ParentDir
  | Normal (name : list Z).

#[global] Instance path_component_eq_dec : EqDecision path_component.
Proof. solve_decision. Defined.

Fixpoint split_on (sep : Z) (seg l : list Z) : list (list Z) :=
  match l with
  | [] => [reverse seg]
  | c :: l' => if c =? sep then reverse seg :: split_on sep [] l' else split_on sep (c :: seg) l'
  end.

Definition component_of (seg : list Z) : list path_component :=
  if bool_decide (seg = []) then []
  else if bool_decide (seg = [46]) then []
  else if bool_decide (seg = [46; 46]) then [ParentDir]
  else [Normal seg].

Definition path_components (p : list Z) : list path_component :=
  match p with
  | 47 :: _ => RootDir :: (split_on 47 [] p ≫= component_of)
  | _ =>
      match split_on 47 [] p with
      | seg :: rest =>
          (if bool_decide (seg = [46]) then [CurDir] else component_of seg)
          ++ (rest ≫= component_of)
      | [] => []
      end
  end.

(** [PartialEq for PathBuf]. *)
Definition path_eqb (p q : list Z) : bool :=
  bool_decide (path_components p = path_components q).

Definition path_equiv (p q : list Z) : Prop := path_components p = path_components q.

Definition option_eqb {A} (f : A → A → bool) (x y : option A) : bool :=
  match x, y with
  | Some a, Some b => f a b
  | None, None => true
  | _, _ => false
  end.

(** ** Generic lemmas *)

Section result_lemmas.
Context {A B E F : Type}.

Lemma result_bind_ok (r : result A E) (k : A → result B E) b :
  result_bind r k = Ok b ↔ ∃ a, r = Ok a ∧ k a = Ok b.
Proof. destruct r; simpl; naive_solver. Qed.

Lemma map_err_ok (f : E → F) (r : result A E) a : map_err f r = Ok a ↔ r = Ok a.
Proof. destruct r; simpl; naive_solver. Qed.

Lemma map_err_panic (f : E → F) (r : result A E) p : map_err f r = Panic p ↔ r = Panic p.
Proof. destruct r; simpl; naive_solver. Qed.

Lemma ok_or_ok (o : option A) (e : E) a : ok_or o e = Ok a ↔ o = Some a.
Proof. destruct o; simpl; naive_solver. Qed.

Lemma fail_if_ok b (e : E) u : fail_if b e = Ok u ↔ b = false.
Proof. destruct b, u; simpl; naive_solver. Qed.
End result_lemmas.

Lemma ok_tt {E} (u : unit) : @Ok unit E tt = Ok u ↔ True.
Proof. by destruct u. Qed.

Create HintDb rust.
Create Rewrite HintDb rust.
#[export] Hint Rewrite @result_bind_ok @map_err_ok @ok_or_ok @fail_if_ok @ok_tt : rust.

(** Reduces a goal that a validation returns [Ok] to the checks it makes. *)
Ltac rust_ok :=
  autorewrite with rust;
  lazymatch goal with
  | |- ∃ _ : unit, _ => exists tt; rust_ok
  | |- _ ∧ _ => split; rust_ok
  | |- _ => try done
  end.

(** Inverts a hypothesis that a validation returned [Ok]: the checks it made
    become facts in the context. *)
Ltac rust_inv H :=
  autorewrite with rust in H;
  lazymatch type of H with
  | ∃ _, _ => let x := fresh in destruct H as [x H]; rust_inv H
  | _ ∧ _ =>
      let H' := fresh in
      destruct H as [H' H]; rust_inv H'; try rust_inv H
  | _ => simplify_eq/=
  end.

(** Takes one step of a computation that succeeded. *)
Ltac unbind H x Hx := apply result_bind_ok in H as (x & Hx & H).

Lemma checked_add_some top a b n :
  checked_add top a b = Some n ↔ n = a + b ∧ a + b ≤ top.
Proof.
  unfold checked_add. destruct (Z.leb_spec (a + b) top); naive_solver lia.
Qed.

Lemma checked_add_none top a b : checked_add top a b = None ↔ top < a + b.
Proof.
  unfold checked_add. destruct (Z.leb_spec (a + b) top); naive_solver lia.
Qed.

Lemma checked_mul_some top a b n : checked_mul top a b = Some n ↔ n = a * b ∧ a * b ≤ top.
Proof. unfold checked_mul. destruct (Z.leb_spec (a * b) top); naive_solver lia. Qed.

Lemma checked_sub_some a b n : checked_sub a b = Some n ↔ n = a - b ∧ b ≤ a.
Proof. unfold checked_sub. destruct (Z.leb_spec b a); naive_solver lia. Qed.

#[export] Hint Rewrite checked_add_some checked_add_none checked_sub_some : rust.

(** Boolean guards as propositions. *)
Lemma bool_decide_is_true P `{!Decision P} : bool_decide P = true ↔ P.
Proof. by rewrite bool_decide_eq_true. Qed.

Lemma bool_decide_is_false P `{!Decision P} : bool_decide P = false ↔ ¬ P.
Proof. by rewrite bool_decide_eq_false. Qed.

Lemma in_range_spec lo hi c : in_range lo hi c = true ↔ lo ≤ c ≤ hi.
Proof. unfold in_range. rewrite andb_true_iff, !Z.leb_le. done. Qed.

Lemma andb_is_false a b : a && b = false ↔ ¬ (a = true ∧ b = true).
Proof. destruct a, b; naive_solver. Qed.

#[export] Hint Rewrite bool_decide_is_true bool_decide_is_false in_range_spec andb_is_false
  negb_false_iff negb_true_iff orb_false_iff orb_true_iff andb_true_iff
  Z.eqb_eq Z.leb_le Z.ltb_lt Z.ltb_ge Z.eqb_neq : rust.

(** ** Panic freedom of a pure check *)

Definition no_panic {A E} (r : result A E) : Prop := ∀ p, r ≠ Panic p.

Section no_panic.
Context {A B E F : Type}.

Lemma no_panic_ok (a : A) : no_panic (@Ok A E a).
Proof. done. Qed.
Lemma no_panic_err (e : E) : no_panic (@Err A E e).
Proof. done. Qed.
Lemma no_panic_fail_if b (e : E) : no_panic (fail_if b e).
Proof. by destruct b. Qed.
Lemma no_panic_ok_or (o : option A) (e : E) : no_panic (ok_or o e).
Proof. by destruct o. Qed.
Lemma no_panic_map_err (f : E → F) (r : result A E) : no_panic r → no_panic (map_err f r).
Proof. unfold no_panic. destruct r; naive_solver. Qed.
Lemma no_panic_bind (r : result A E) (k : A → result B E) :
  no_panic r → (∀ a, r = Ok a → no_panic (k a)) → no_panic (result_bind r k).
Proof. unfold no_panic. destruct r; naive_solver. Qed.
End no_panic.

Create HintDb nopanic.
#[export] Hint Resolve no_panic_ok no_panic_err no_panic_fail_if no_panic_ok_or
  no_panic_map_err : nopanic.

(** Proves that a check made of guards, matches and already known checks does
    not panic. *)
Ltac no_panic :=
  repeat first
    [ progress intros
    | progress cbv zeta
    | solve [auto with nopanic]
    | apply no_panic_map_err
    | apply no_panic_bind
    | match goal with |- no_panic (match ?x with _ => _ end) => destruct x end ].

(** ** Postconditions of a pure check *)

(** A file that fits in memory. *)
Definition file_ok (bytes : list Z) : Prop := Forall is_byte bytes ∧ zlen bytes ≤ isize_max.

(** [r] does not panic, and what it returns satisfies [P]. *)
Definition yields_ok {A E} (r : result A E) (P : A → Prop) : Prop :=
  match r with Ok a => P a | Err _ => True | Panic _ => False end.

Lemma yields_ok_bind {A B E} (r : result A E) (k : A → result B E) P Q :
  yields_ok r P → (∀ a, P a → yields_ok (k a) Q) → yields_ok (result_bind r k) Q.
Proof. destruct r; simpl; auto. Qed.

(** One step of a checked computation. *)
Tactic Notation "via" tactic3(tac) "as" simple_intropattern(x) simple_intropattern(h) :=
  eapply yields_ok_bind; [tac|cbv beta; intros x h].

Lemma yields_ok_mono {A E} (r : result A E) (P Q : A → Prop) :
  yields_ok r P → (∀ a, P a → Q a) → yields_ok r Q.
Proof. destruct r; simpl; auto. Qed.

Lemma yields_ok_or {A E} (o : option A) (e : E) : yields_ok (ok_or o e) (λ a, o = Some a).
Proof. by destruct o. Qed.

Lemma yields_ok_fail_if {E} b (e : E) : yields_ok (fail_if b e) (λ _, b = false).
Proof. by destruct b. Qed.

Lemma yields_ok_add {E} a b : a + b ≤ usize_max → yields_ok (@plain_add E a b) (λ n, n = a + b).
Proof. intros Hab. unfold plain_add. by rewrite (proj2 (Z.leb_le _ _)). Qed.

Lemma yields_ok_elim {A E} (r : result A E) (P : A → Prop) a : yields_ok r P → r = Ok a → P a.
Proof. by intros Hr ->. Qed.

Lemma yields_ok_no_panic {A E} (r : result A E) (P : A → Prop) : yields_ok r P → no_panic r.
Proof. intros Hr p ->. exact Hr. Qed.

Lemma yields_ok_intro {A E} (r : result A E) (P : A → Prop) :
  no_panic r → (∀ a, r = Ok a → P a) → yields_ok r P.
Proof. intros Hn HP. destruct r; simpl; auto. by eapply Hn. Qed.

Lemma index_range_slice {E} start end_ bytes :
  0 ≤ start ≤ end_ → end_ ≤ zlen bytes → Forall is_byte bytes →
  yields_ok (@index_range Z E start end_ bytes) (λ s, zlen s = end_ - start ∧ Forall is_byte s).
Proof.
  intros Hs He Hb. unfold index_range. rewrite !(proj2 (Z.leb_le _ _)) by lia. simpl. split.
  - unfold zlen in *. rewrite length_take, length_drop. lia.
  - by apply Forall_take, Forall_drop.
Qed.

(** ** Weakest preconditions for [&mut self] methods

    [wp c Q QE s] says that [c] started in [s] does not panic, ends in [Q]
    when it returns [Ok] and in [QE] when it returns [Err]. *)

Definition wp {S E A} (c : smonad S E A) (Q : A → S → Prop) (QE : E → S → Prop)
    (s : S) : Prop :=
  match c s with
  | (Ok a, s') => Q a s'
  | (Err e, s') => QE e s'
  | (Panic _, _) => False
  end.

Section wp_rules.
Context {S E A B : Type}.
Implicit Types (s : S) (QE : E → S → Prop).

Lemma wp_bind (c : smonad S E A) (k : A → smonad S E B) Q QE s :
  wp c (λ a s', wp (k a) Q QE s') QE s → wp (sbind c k) Q QE s.
Proof. unfold wp, sbind. by destruct (c s) as [[] ?]. Qed.

Lemma wp_mono (c : smonad S E A) (Q Q' : A → S → Prop) QE QE' s :
  wp c Q QE s →
  (∀ a s', Q a s' → Q' a s') → (∀ e s', QE e s' → QE' e s') →
  wp c Q' QE' s.
Proof. unfold wp. destruct (c s) as [[] ?]; naive_solver. Qed.

Lemma wp_ret (a : A) Q QE s : Q a s → wp (sret a) Q QE s.
Proof. done. Qed.

Lemma wp_err (e : E) (Q : A → S → Prop) QE s : QE e s → wp (serr e) Q QE s.
Proof. done. Qed.

Lemma wp_get (f : S → A) Q QE s : Q (f s) s → wp (sget f) Q QE s.
Proof. done. Qed.

Lemma wp_upd (f : S → S) (Q : unit → S → Prop) QE s : Q tt (f s) → wp (supd f) Q QE s.
Proof. done. Qed.

Lemma wp_read (f : S → result A E) Q QE s :
  (∀ a, f s = Ok a → Q a s) → (∀ e, f s = Err e → QE e s) → (∀ p, f s ≠ Panic p) →
  wp (sread f) Q QE s.
Proof. unfold wp, sread. destruct (f s) eqn:Hf; naive_solver. Qed.

Lemma wp_lift (r : result A E) Q QE s :
  (∀ a, r = Ok a → Q a s) → (∀ e, r = Err e → QE e s) → (∀ p, r ≠ Panic p) →
  wp (slift r) Q QE s.
Proof. apply (wp_read (λ _, r)). Qed.

Lemma wp_guard (g : S → bool) (e : S → E) (Q : unit → S → Prop) QE s :
  (g s = false → Q tt s) → (g s = true → QE (e s) s) →
  wp (sread (λ m, fail_if (g m) (e m))) Q QE s.
Proof. unfold wp, sread, fail_if. destruct (g s); auto. Qed.

Lemma wp_lift_guard (b : bool) (e : E) (Q : unit → S → Prop) QE s :
  (b = false → Q tt s) → (b = true → QE e s) → wp (slift (fail_if b e)) Q QE s.
Proof. apply (wp_guard (λ _, b) (λ _, e)). Qed.

Lemma wp_check (f : S → result unit E) (Q : unit → S → Prop) QE s :
  no_panic (f s) →
  (f s = Ok tt → Q tt s) → (∀ e, f s = Err e → f s ≠ Ok tt → QE e s) →
  wp (sread f) Q QE s.
Proof. unfold wp, sread, no_panic. destruct (f s) as [[]| |] eqn:Hf; naive_solver. Qed.

Lemma wp_ok_or (f : S → option A) (e : E) Q QE s :
  (∀ a, f s = Some a → Q a s) → (f s = None → QE e s) →
  wp (sread (λ m, ok_or (f m) e)) Q QE s.
Proof. unfold wp, sread, ok_or. destruct (f s) eqn:Hf; naive_solver. Qed.

(** From a proved [wp] back to the run of the method. *)
Lemma wp_elim_ok (c : smonad S E A) Q QE s a s' :
  wp c Q QE s → c s = (Ok a, s') → Q a s'.
Proof. unfold wp. intros H Hrun. by rewrite Hrun in H. Qed.

Lemma wp_elim_err (c : smonad S E A) Q QE s e s' :
  wp c Q QE s → c s = (Err e, s') → QE e s'.
Proof. unfold wp. intros H Hrun. by rewrite Hrun in H. Qed.

Lemma wp_no_panic (c : smonad S E A) Q QE s p : wp c Q QE s → (c s).1 ≠ Panic p.
Proof. unfold wp. destruct (c s) as [[] ?]; naive_solver. Qed.

Lemma wp_intro (c : smonad S E A) (Q : A → S → Prop) QE s :
  (∀ a s', c s = (Ok a, s') → Q a s') →
  (∀ e s', c s = (Err e, s') → QE e s') →
  (∀ p s', c s ≠ (Panic p, s')) →
  wp c Q QE s.
Proof. unfold wp. destruct (c s) as [[] ?]; naive_solver. Qed.
End wp_rules.

Lemma wp_map_err {S E F A} (f : E → F) (c : smonad S E A) Q QE s :
  wp c Q (λ e, QE (f e)) s → wp (smap_err f c) Q QE s.
Proof. unfold wp, smap_err. by destruct (c s) as [[] ?]. Qed.

(** One step of symbolic execution of a method. *)
Ltac wp_step :=
  lazymatch goal with
  | |- wp (sbind _ _) _ _ _ => apply wp_bind
  | |- wp (smap_err _ _) _ _ _ => apply wp_map_err
  | |- wp (sret _) _ _ _ => apply wp_ret
  | |- wp (serr _) _ _ _ => apply wp_err
  | |- wp (supd _) _ _ _ => apply wp_upd
  | |- wp (sget _) _ _ _ => apply wp_get
  | |- wp (sread (λ _, fail_if _ _)) _ _ _ => apply wp_guard; intros
  | |- wp (slift (fail_if _ _)) _ _ _ => apply wp_lift_guard; intros
  | |- wp (sread (λ _, ok_or _ _)) _ _ _ => apply wp_ok_or; intros
  | |- @wp _ _ unit (sread _) _ _ _ => apply wp_check; [no_panic|intros|intros]
  | |- wp (sread _) _ _ _ => apply wp_read; intros
  | |- wp (slift _) _ _ _ => apply wp_lift; intros
  end; autorewrite with rust in *.

Lemma wp_lift_check {S E} (r : result unit E) (Q : unit → S → Prop) QE (s : S) :
  no_panic r → (r = Ok tt → Q tt s) → (∀ e, QE e s) → wp (slift r) Q QE s.
Proof. intros Hn H1 H2. unfold wp, slift. destruct r as [[]| |]; [auto..|]. by edestruct Hn. Qed.

(** [guarded c G f]: the method [c] succeeds exactly in the states where [G]
    holds and then has the effect [f]; in every other state it reports an error
    and leaves the receiver as it was.  It never panics. *)
Definition guarded {S E A} (c : smonad S E A) (G : S → Prop) (f : S → S) : Prop :=
  ∀ s, wp c (λ _ s', G s ∧ s' = f s) (λ _ s', ¬ G s ∧ s' = s) s.

Lemma guarded_state {S E A} (c : smonad S E A) G f s :
  guarded c G f → (G s ∧ (c s).2 = f s) ∨ (¬ G s ∧ (c s).2 = s).
Proof. intros H. specialize (H s). unfold wp in H. destruct (c s) as [[] ?]; naive_solver. Qed.

Lemma guarded_ok {S E A} (c : smonad S E A) G f s a s' :
  guarded c G f → c s = (Ok a, s') → G s ∧ s' = f s.
Proof. intros H Hr. specialize (H s). unfold wp in H. by rewrite Hr in H. Qed.

(** ** Fields a method does not touch *)

Definition keeps {S E A B} (f : S → B) (c : smonad S E A) : Prop := ∀ s, f (c s).2 = f s.

Section keeps_rules.
Context {S E A B C : Type} (f : S → C).

Lemma keeps_bind (c : smonad S E A) (k : A → smonad S E B) :
  keeps f c → (∀ a, keeps f (k a)) → keeps f (sbind c k).
Proof.
  intros Hc Hk s. specialize (Hc s). unfold sbind. destruct (c s) as [[a|e|p] s']; [|done..].
  simpl in Hc. rewrite <-Hc. apply Hk.
Qed.
Lemma keeps_upd (u : S → S) : (∀ s, f (u s) = f s) → keeps f (@supd S E u).
Proof. intros Hu s. apply Hu. Qed.
Lemma keeps_ret (a : A) : keeps f (@sret S E A a).
Proof. done. Qed.
Lemma keeps_err (e : E) : keeps f (@serr S E A e).
Proof. done. Qed.
Lemma keeps_get (g : S → A) : keeps f (@sget S E A g).
Proof. done. Qed.
Lemma keeps_read (g : S → result A E) : keeps f (sread g).
Proof. done. Qed.
Lemma keeps_lift (r : result A E) : keeps f (@slift S E A r).
Proof. done. Qed.
End keeps_rules.

Lemma wp_keeps {S E A B} (f : S → B) (c : smonad S E A) Q QE s :
  keeps f c → wp c Q QE s →
  wp c (λ a s', Q a s' ∧ f s' = f s) (λ e s', QE e s' ∧ f s' = f s) s.
Proof. unfold keeps, wp. intros Hk. specialize (Hk s). by destruct (c s) as [[] ?]. Qed.

(** A proved [wp] also knows the run it speaks of. *)
Lemma wp_eq {S E A} (c : smonad S E A) Q QE s :
  wp c Q QE s → wp c (λ a s', Q a s' ∧ c s = (Ok a, s')) QE s.
Proof. unfold wp. by destruct (c s) as [[] ?]. Qed.

Create HintDb keeps.

Ltac keeps :=
  repeat first
    [ apply keeps_bind; [|intros]
    | apply keeps_ret | apply keeps_err | apply keeps_get | apply keeps_read | apply keeps_lift
    | apply keeps_upd; solve [intros; simpl; auto]
    | solve [auto with keeps]
    | match goal with |- keeps _ (match ?x with _ => _ end) => destruct x end ].

(** ** Lengths *)

Lemma zlen_nonneg {A} (l : list A) : 0 ≤ zlen l.
Proof. unfold zlen. lia. Qed.

Lemma zlen_cons {A} (x : A) l : zlen (x :: l) = zlen l + 1.
Proof. unfold zlen. rewrite length_cons. lia. Qed.

Lemma zlen_app {A} (x y : list A) : zlen (x ++ y) = zlen x + zlen y.
Proof. unfold zlen. rewrite length_app. lia. Qed.

Lemma zlen_replicate {A} n (x : A) : 0 ≤ n → zlen (replicate (Z.to_nat n) x) = n.
Proof. intros. unfold zlen. rewrite length_replicate. lia. Qed.

(** ** Little-endian encodings *)

Lemma length_le_bytes n v : length (le_bytes n v) = n.
Proof. revert v. induction n; intros; simpl; [done|]. by rewrite IHn. Qed.

Lemma le_bytes_inj n a b :
  0 ≤ a < 256 ^ Z.of_nat n → 0 ≤ b < 256 ^ Z.of_nat n →
  le_bytes n a = le_bytes n b → a = b.
Proof.
  revert a b. induction n as [|n IH]; intros a b Ha Hb Heq; [simpl in *; lia|].
  rewrite Nat2Z.inj_succ, Z.pow_succ_r in Ha, Hb by lia.
  simpl in Heq. injection Heq as Hm Hd.
  assert (a / 256 = b / 256) as Hq.
  { apply IH; [| |done]; (split; [apply Z.div_pos; lia|apply Z.div_lt_upper_bound; lia]). }
  rewrite (Z.div_mod a 256), (Z.div_mod b 256) by lia. by rewrite Hq, Hm.
Qed.

Lemma from_le_bytes_le (k : nat) v :
  0 ≤ v < 256 ^ Z.of_nat k → from_le_bytes (le_bytes k v) = v.
Proof.
  unfold from_le_bytes. revert v. induction k as [|k IH]; intros v Hv; [simpl in *; lia|].
  rewrite Nat2Z.inj_succ, Z.pow_succ_r in Hv by lia.
  change (le_bytes (S k) v) with (v mod 256 :: le_bytes k (v / 256)). cbn [foldr].
  pose proof (Z.div_mod v 256). rewrite IH; [lia|].
  split; [apply Z.div_pos; lia|apply Z.div_lt_upper_bound; lia].
Qed.

Lemma le_bytes_from_le bytes :
  Forall is_byte bytes → le_bytes (length bytes) (from_le_bytes bytes) = bytes.
Proof.
  induction 1 as [|b bytes Hb _ IH]; [done|]. unfold is_byte in Hb.
  change (from_le_bytes (b :: bytes)) with (b + 256 * from_le_bytes bytes).
  cbn [length le_bytes]. f_equal.
  - rewrite Z.mul_comm, Z_mod_plus_full. apply Z.mod_small. lia.
  - rewrite Z.mul_comm, Z_div_plus_full, Z.div_small by lia. by rewrite Z.add_0_l.
Qed.

Lemma from_le_bytes_bound bytes :
  Forall is_byte bytes → 0 ≤ from_le_bytes bytes < 256 ^ zlen bytes.
Proof.
  unfold zlen. induction 1 as [|b bytes Hb _ IH]; [done|]. unfold is_byte in Hb.
  change (from_le_bytes (b :: bytes)) with (b + 256 * from_le_bytes bytes).
  rewrite length_cons, Nat2Z.inj_succ, Z.pow_succ_r by lia. lia.
Qed.

Lemma zlen_singleton {A} (x : A) : zlen [x] = 1.
Proof. done. Qed.

Lemma zlen_le_bytes k v : zlen (le_bytes k v) = Z.of_nat k.
Proof. unfold zlen. by rewrite length_le_bytes. Qed.

(** ** Prefix-injective encoders

    [prefix_inj P enc]: the encoding of a value that satisfies [P] can be cut
    off the front of a byte string in only one way.  The property composes
    along a sequence of fields, which is how a canonical serialisation is
    shown injective. *)

Definition prefix_inj {A} (P : A → Prop) (enc : A → list Z) : Prop :=
  ∀ x y r s, P x → P y → enc x ++ r = enc y ++ s → x = y ∧ r = s.

Lemma prefix_inj_fixed {A} (P : A → Prop) (enc : A → list Z) (n : nat) :
  (∀ x, P x → length (enc x) = n) →
  (∀ x y, P x → P y → enc x = enc y → x = y) →
  prefix_inj P enc.
Proof.
  intros Hlen Hinj x y r s Hx Hy Heq.
  apply app_inj_1 in Heq as [Heq ->]; [|by rewrite !Hlen].
  split; [by apply Hinj|done].
Qed.

Lemma prefix_inj_le_bytes n :
  prefix_inj (λ v, 0 ≤ v < 256 ^ Z.of_nat n) (le_bytes n).
Proof.
  apply prefix_inj_fixed with n; [intros; apply length_le_bytes|].
  intros x y Hx Hy. by apply le_bytes_inj.
Qed.

(** A length-prefixed byte string. *)
Definition counted (bs : list Z) : list Z := le_bytes 4 (zlen bs) ++ bs.

Lemma prefix_inj_counted : prefix_inj (λ bs, zlen bs ≤ u32_max) counted.
Proof.
  unfold counted. intros x y r s Hx Hy Heq. rewrite <-!app_assoc in Heq.
  apply prefix_inj_le_bytes in Heq as [Hlen Heq].
  - unfold zlen in Hlen. apply app_inj_1 in Heq; [done|lia].
  - unfold u32_max, zlen in *. change (256 ^ Z.of_nat 4) with (2 ^ 32). lia.
  - unfold u32_max, zlen in *. change (256 ^ Z.of_nat 4) with (2 ^ 32). lia.
Qed.

Lemma forallb_Forall {A} (p : A → bool) l : forallb p l = true ↔ Forall (λ x, p x = true) l.
Proof. by rewrite forallb_forall, List.Forall_forall. Qed.

(** ** ASCII strings *)

Lemma utf8_char_ascii c : 0 ≤ c < 128 → utf8_char c = [c].
Proof. intros. unfold utf8_char. by destruct (Z.ltb_spec c 128); [|lia]. Qed.

Lemma utf8_encode_cons c s : utf8_encode (c :: s) = utf8_char c ++ utf8_encode s.
Proof. done. Qed.

(** A string all of whose bytes pass an ASCII-only test is its own encoding. *)
Lemma bytes_all_ascii (p : Z → bool) s :
  (∀ b, p b = true → 0 ≤ b < 128) →
  bytes_all p s = true → utf8_encode s = s ∧ Forall (λ b, p b = true) s.
Proof.
  intros Hp. unfold bytes_all. induction s as [|c s IH]; [done|].
  rewrite utf8_encode_cons, forallb_app, andb_true_iff.
  intros [Hc Hs]. destruct (IH Hs) as [IH1 IH2].
  assert (utf8_char c = [c] ∧ p c = true) as [Hu Hpc].
  { revert Hc. unfold utf8_char. destruct (Z.ltb_spec c 128) as [|Hge].
    - simpl. rewrite andb_true_r. done.
    - intros Hc. exfalso.
      assert (∃ b l, (if c <? 2048 then [192 + c / 64; 128 + c mod 64]
        else if c <? 65536 then [224 + c / 4096; 128 + (c / 64) mod 64; 128 + c mod 64]
        else [240 + c / 262144; 128 + (c / 4096) mod 64; 128 + (c / 64) mod 64; 128 + c mod 64])
        = b :: l ∧ 128 ≤ b) as (b & l & Heq & Hb).
      { repeat case_match; eexists _, _; (split; [done|]);
          match goal with |- context[c / ?k] => pose proof (Z.div_pos c k) end; lia. }
      rewrite Heq in Hc. simpl in Hc. apply andb_true_iff in Hc as [Hc _].
      apply Hp in Hc. lia. }
  rewrite Hu, IH1. split; [done|]. by constructor.
Qed.

Lemma lower_hex_digit_inj n m : 0 ≤ n ≤ 15 → 0 ≤ m ≤ 15 → lower_hex_digit n = lower_hex_digit m → n = m.
Proof. unfold lower_hex_digit. destruct (Z.ltb_spec n 10), (Z.ltb_spec m 10); lia. Qed.

Lemma lower_hex_inj x y :
  Forall is_byte x → Forall is_byte y → lower_hex x = lower_hex y → x = y.
Proof.
  intros Hx. revert y. induction Hx as [|a x Ha Hx IH]; intros y Hy Heq.
  - by destruct y.
  - destruct Hy as [|b y Hb Hy]; [done|]. unfold is_byte in *. simpl in Heq.
    injection Heq as H1 H2 H3. f_equal; [|by apply IH].
    pose proof (Z.mod_pos_bound a 16). pose proof (Z.mod_pos_bound b 16).
    pose proof (Z.div_mod a 16). pose proof (Z.div_mod b 16).
    apply lower_hex_digit_inj in H1; [|lia|lia]. apply lower_hex_digit_inj in H2; lia.
Qed.
