(* ===== verification/Utf8.v ===== *)
(** UTF-8, as [String::from_utf8] and [str::from_utf8] read it: the well-formed
    byte sequences, the scalar values they denote, and that decoding inverts the
    encoding of [Prelude] in both directions. *)

From S2P Require Import Prelude.
Open Scope Z_scope.

Definition is_continuation (b : Z) : bool := in_range 128 191 b.

(** The second byte of a three-byte and of a four-byte sequence, whose range
    depends on the first: it excludes overlong forms, surrogates and values
    above the last plane. *)
Definition second_of_three (a b : Z) : bool :=
  in_range (if a =? 224 then 160 else 128) (if a =? 237 then 159 else 191) b.
Definition second_of_four (a b : Z) : bool :=
  in_range (if a =? 240 then 144 else 128) (if a =? 244 then 143 else 191) b.

Fixpoint valid_utf8 (bytes : list Z) : bool :=
  match bytes with
  | [] => true
  | a :: rest1 =>
      if in_range 0 127 a then valid_utf8 rest1
      else match rest1 with
      | [] => false
      | b :: rest2 =>
          if in_range 194 223 a then is_continuation b && valid_utf8 rest2
          else match rest2 with
          | [] => false
          | c :: rest3 =>
              if in_range 224 239 a then
                second_of_three a b && is_continuation c && valid_utf8 rest3
              else match rest3 with
              | [] => false
              | d :: rest4 =>
                  in_range 240 244 a && second_of_four a b
                  && is_continuation c && is_continuation d && valid_utf8 rest4
              end
          end
      end
  end.

(** The scalar values of a byte sequence, if it is well formed. *)
Fixpoint from_utf8 (bytes : list Z) : option (list Z) :=
  match bytes with
  | [] => Some []
  | a :: rest1 =>
      if in_range 0 127 a then cons a <$> from_utf8 rest1
      else match rest1 with
      | [] => None
      | b :: rest2 =>
          if in_range 194 223 a then
            if is_continuation b
            then cons (64 * (a - 192) + (b - 128)) <$> from_utf8 rest2
            else None
          else match rest2 with
          | [] => None
          | c :: rest3 =>
              if in_range 224 239 a then
                if second_of_three a b && is_continuation c
                then cons (4096 * (a - 224) + 64 * (b - 128) + (c - 128)) <$> from_utf8 rest3
                else None
              else match rest3 with
              | [] => None
              | d :: rest4 =>
                  if in_range 240 244 a && second_of_four a b
                     && is_continuation c && is_continuation d
                  then cons (262144 * (a - 240) + 4096 * (b - 128) + 64 * (c - 128) + (d - 128))
                         <$> from_utf8 rest4
                  else None
              end
          end
      end
  end.

(** The Unicode scalar values, which are what a [char] holds. *)
Definition is_char (c : Z) : Prop := 0 ≤ c ≤ 55295 ∨ 57344 ≤ c ≤ 1114111.

Lemma in_range_false lo hi b : in_range lo hi b = false ↔ ¬ lo ≤ b ≤ hi.
Proof. rewrite <-not_true_iff_false. by rewrite in_range_spec. Qed.

Lemma second_of_three_true a b :
  second_of_three a b = true
  ↔ 128 ≤ b ≤ 191 ∧ (a = 224 → 160 ≤ b) ∧ (a = 237 → b ≤ 159).
Proof.
  unfold second_of_three. rewrite in_range_spec.
  destruct (Z.eqb_spec a 224), (Z.eqb_spec a 237); lia.
Qed.

Lemma second_of_four_true a b :
  second_of_four a b = true
  ↔ 128 ≤ b ≤ 191 ∧ (a = 240 → 144 ≤ b) ∧ (a = 244 → b ≤ 143).
Proof.
  unfold second_of_four. rewrite in_range_spec.
  destruct (Z.eqb_spec a 240), (Z.eqb_spec a 244); lia.
Qed.

(** Decides the range tests of a decoder from linear facts on the bytes. *)
Ltac ranges :=
  unfold is_continuation;
  repeat first
    [ rewrite (proj2 (in_range_spec _ _ _)) by lia
    | rewrite (proj2 (in_range_false _ _ _)) by lia
    | rewrite (proj2 (second_of_three_true _ _)) by lia
    | rewrite (proj2 (second_of_four_true _ _)) by lia ]; cbn [andb].

Lemma shorter_ind {A} (P : list A → Prop) :
  (∀ l, (∀ l', (length l' < length l)%nat → P l') → P l) → ∀ l, P l.
Proof.
  intros Hstep l. apply (Nat.measure_induction _ (@length A)). exact Hstep.
Qed.

(** Splits one byte off, in the order in which the decoder looks at them. *)
Ltac next_byte rest b tail := destruct rest as [|b tail]; cbv beta iota; [try done|].

Lemma valid_utf8_decodes bytes : valid_utf8 bytes = true ↔ is_Some (from_utf8 bytes).
Proof.
  induction bytes as [bytes IH] using shorter_ind.
  assert (∀ (x : bool) c rest, (length rest < length bytes)%nat →
            x && valid_utf8 rest = true
            ↔ is_Some (if x then cons c <$> from_utf8 rest else None)) as Hrest.
  { intros [] c rest Hlen; cbn [andb]; [by rewrite fmap_is_Some, IH|].
    split; [done|by intros [? [=]]]. }
  assert (false = true ↔ is_Some (@None (list Z))) as Hnone by (split; [done|by intros [? [=]]]).
  destruct bytes as [|a rest1]; [done|]. cbn [valid_utf8 from_utf8].
  destruct (in_range 0 127 a); [apply (Hrest true); cbn; lia|].
  next_byte rest1 b rest2. destruct (in_range 194 223 a); [apply Hrest; cbn; lia|].
  next_byte rest2 c rest3. destruct (in_range 224 239 a); [apply Hrest; cbn; lia|].
  next_byte rest3 d rest4. apply Hrest; cbn; lia.
Qed.

(** Decoding one encoded character and then the rest. *)
Lemma from_utf8_char c rest :
  is_char c → from_utf8 (utf8_char c ++ rest) = cons c <$> from_utf8 rest.
Proof.
  intros Hc. unfold is_char in Hc. unfold utf8_char.
  assert (c / 4096 = c / 64 / 64) as -> by (by rewrite Z.div_div by lia).
  assert (c / 262144 = c / 64 / 64 / 64) as -> by (by rewrite !Z.div_div by lia).
  pose proof (Z.div_mod c 64 ltac:(lia)) as H1. pose proof (Z.mod_pos_bound c 64 ltac:(lia)).
  set (q := c / 64) in *. set (r := c mod 64) in *. clearbody q r.
  pose proof (Z.div_mod q 64 ltac:(lia)) as H2. pose proof (Z.mod_pos_bound q 64 ltac:(lia)).
  set (q2 := q / 64) in *. set (r2 := q mod 64) in *. clearbody q2 r2.
  pose proof (Z.div_mod q2 64 ltac:(lia)) as H3. pose proof (Z.mod_pos_bound q2 64 ltac:(lia)).
  set (q3 := q2 / 64) in *. set (r3 := q2 mod 64) in *. clearbody q3 r3.
  destruct (Z.ltb_spec c 128); [|destruct (Z.ltb_spec c 2048); [|destruct (Z.ltb_spec c 65536)]];
    cbn [app from_utf8]; ranges; repeat f_equal; lia.
Qed.

Theorem from_utf8_encode s : Forall is_char s → from_utf8 (utf8_encode s) = Some s.
Proof.
  induction 1 as [|c s Hc _ IH]; [done|].
  rewrite utf8_encode_cons, from_utf8_char by done. by rewrite IH.
Qed.

(** The bytes of one character, recognised: its digits in base 64. *)
Lemma digit_64 v q r : v = 64 * q + r → 0 ≤ r < 64 → v / 64 = q ∧ v mod 64 = r.
Proof.
  intros -> Hr. split; [symmetry; by apply (Z.div_unique _ _ _ r); [left|]|].
  symmetry. by apply (Z.mod_unique _ _ q); [left|].
Qed.

Lemma utf8_char_2 a b v :
  194 ≤ a ≤ 223 → 128 ≤ b ≤ 191 → v = 64 * (a - 192) + (b - 128) →
  is_char v ∧ utf8_char v = [a; b].
Proof.
  intros Ha Hb Hv. destruct (digit_64 v (a - 192) (b - 128)) as [Hq Hr]; [lia..|].
  unfold is_char, utf8_char. rewrite Hq, Hr. split; [lia|].
  rewrite (proj2 (Z.ltb_ge _ _)), (proj2 (Z.ltb_lt _ 2048)) by lia. repeat f_equal; lia.
Qed.

Lemma utf8_char_3 a b c v :
  224 ≤ a ≤ 239 → second_of_three a b = true → 128 ≤ c ≤ 191 →
  v = 4096 * (a - 224) + 64 * (b - 128) + (c - 128) → is_char v ∧ utf8_char v = [a; b; c].
Proof.
  intros Ha Hb%second_of_three_true Hc Hv. destruct Hb as (? & ? & ?).
  destruct (digit_64 v (64 * (a - 224) + (b - 128)) (c - 128)) as [Hq Hr]; [lia..|].
  destruct (digit_64 (v / 64) (a - 224) (b - 128)) as [Hq2 Hr2]; [lia..|].
  unfold is_char, utf8_char. rewrite Hr, Hr2.
  rewrite Z.div_div in Hq2 by lia. change (64 * 64) with 4096 in Hq2. rewrite Hq2.
  split; [lia|].
  rewrite !(proj2 (Z.ltb_ge _ _)), (proj2 (Z.ltb_lt _ 65536)) by lia. repeat f_equal; lia.
Qed.

Lemma utf8_char_4 a b c d v :
  240 ≤ a ≤ 244 → second_of_four a b = true → 128 ≤ c ≤ 191 → 128 ≤ d ≤ 191 →
  v = 262144 * (a - 240) + 4096 * (b - 128) + 64 * (c - 128) + (d - 128) →
  is_char v ∧ utf8_char v = [a; b; c; d].
Proof.
  intros Ha Hb%second_of_four_true Hc Hd Hv. destruct Hb as (? & ? & ?).
  destruct (digit_64 v (4096 * (a - 240) + 64 * (b - 128) + (c - 128)) (d - 128)) as [Hq Hr];
    [lia..|].
  destruct (digit_64 (v / 64) (64 * (a - 240) + (b - 128)) (c - 128)) as [Hq2 Hr2]; [lia..|].
  destruct (digit_64 (v / 64 / 64) (a - 240) (b - 128)) as [Hq3 Hr3]; [lia..|].
  rewrite (Z.div_div v 64 64) in Hq3, Hr3 by lia. change (64 * 64) with 4096 in *.
  rewrite (Z.div_div v 4096 64) in Hq3 by lia. change (4096 * 64) with 262144 in *.
  unfold is_char, utf8_char. rewrite Hr, Hr2, Hq3, Hr3.
  split; [lia|]. rewrite !(proj2 (Z.ltb_ge _ _)) by lia. repeat f_equal; lia.
Qed.

Theorem from_utf8_sound bytes s :
  from_utf8 bytes = Some s → Forall is_char s ∧ utf8_encode s = bytes.
Proof.
  revert s. induction bytes as [bytes IH] using shorter_ind. intros s.
  assert (∀ (x : bool) c rest,
            (length rest < length bytes)%nat → (x = true → is_char c ∧ utf8_char c ++ rest = bytes) →
            (if x then cons c <$> from_utf8 rest else None) = Some s →
            Forall is_char s ∧ utf8_encode s = bytes) as Hstep.
  { intros [] c rest Hlen Hc; [|done]. destruct (Hc eq_refl) as [Hchar <-].
    intros (s' & Hs & ->)%fmap_Some. destruct (IH rest Hlen s' Hs) as [? <-].
    split; [by constructor|done]. }
  destruct bytes as [|a rest1]; [by intros [= <-]|]. cbn [from_utf8].
  destruct (in_range 0 127 a) eqn:Ha.
  { apply in_range_spec in Ha. apply (Hstep true); [cbn; lia|]. intros _.
    rewrite utf8_char_ascii by lia. split; [unfold is_char; lia|done]. }
  next_byte rest1 b rest2. destruct (in_range 194 223 a) eqn:Ha2.
  { apply in_range_spec in Ha2. apply Hstep; [cbn; lia|]. intros Hb%in_range_spec.
    destruct (utf8_char_2 a b _ Ha2 Hb eq_refl) as [? ->]. done. }
  next_byte rest2 c rest3. destruct (in_range 224 239 a) eqn:Ha3.
  { apply in_range_spec in Ha3. apply Hstep; [cbn; lia|].
    intros [Hb Hc%in_range_spec]%andb_true_iff.
    destruct (utf8_char_3 a b c _ Ha3 Hb Hc eq_refl) as [? ->]. done. }
  next_byte rest3 d rest4. apply Hstep; [cbn; lia|].
  intros [[[Ha4%in_range_spec Hb]%andb_true_iff Hc%in_range_spec]%andb_true_iff
          Hd%in_range_spec]%andb_true_iff.
  destruct (utf8_char_4 a b c d _ Ha4 Hb Hc Hd eq_refl) as [? ->]. done.
Qed.
