(* ===== verification/Identity.v ===== *)
(** Identities shared by the debugger components.

    Models [resymbol-debugger/src/identity.rs], the bounded identifier and
    hexadecimal newtypes of [sandbox.rs], [BinaryId::from_sha256] of
    [resymbol-core], and the two process-identity types of [protocol.rs] that
    the sandbox and authorization contracts mention.

    A Rust newtype over an integer or a string is its carrier here; its [new]
    is a definition that returns the accepted carrier, and the [valid_*]
    predicates name what an accepted value satisfies. *)

From S2P Require Import Prelude.
Open Scope Z_scope.

(** ** Numeric identities *)

Inductive SessionIdError : Type := SessionIdError_.

Definition SessionId_new (value : Z) : result Z SessionIdError :=
  if value =? 0 then Err SessionIdError_ else Ok value.

(** ** 256-bit hexadecimal identities *)

Definition SECURITY_NONCE_HEX_BYTES : Z := 64.

Inductive SecurityNonceError : Type := SecurityNonceError_.

(** [HostRiskLeaseId::new], [SandboxOwnershipLeaseId::new] and
    [ProvisioningEpoch::new], the three instances of one macro. *)
Definition security_nonce_new (value : list Z) : result (list Z) SecurityNonceError :=
  if negb (str_len value =? SECURITY_NONCE_HEX_BYTES) || negb (bytes_all is_lower_hex value)
  then Err SecurityNonceError_
  else Ok value.

Inductive LowercaseHexError : Type := LowercaseHexError_.

(** [SealedImageDigest::new] and [AuthenticatedChannelNonce::new]. *)
Definition lowercase_hex_value_new (value : list Z) : result (list Z) LowercaseHexError :=
  if negb (str_len value =? 64) || negb (bytes_all is_lower_hex value)
  then Err LowercaseHexError_
  else Ok value.

Inductive PolicyDigestError : Type := PolicyDigestError_.

Definition PolicyDigest_new (value : list Z) : result (list Z) PolicyDigestError :=
  if negb (str_len value =? 64) || negb (bytes_all is_lower_hex value)
  then Err PolicyDigestError_
  else Ok value.

(** [BinaryId::from_sha256]: hexadecimal digits of either case, folded to
    lower case. *)
Inductive InvalidBinaryId : Type := InvalidBinaryId_ (value : list Z).

Definition is_ascii_hexdigit (b : Z) : bool :=
  in_range 48 57 b || in_range 97 102 b || in_range 65 70 b.

Definition BinaryId_from_sha256 (value : list Z) : result (list Z) InvalidBinaryId :=
  if negb (str_len value =? 64) || negb (bytes_all is_ascii_hexdigit value)
  then Err (InvalidBinaryId_ value)
  else Ok (to_ascii_lowercase value).

(** ** Bounded identifiers *)

Inductive BoundedValueError : Type :=
  | Empty (field : string)
  | TooLong (field : string) (maximum : Z)
  | InvalidCharacter (field : string).

Definition identifier_byte (b : Z) : bool :=
  is_ascii_alphanumeric b
  || (b =? 45) || (b =? 95) || (b =? 46) || (b =? 58) || (b =? 43).

Definition validate_identifier (value : list Z) (field : string) (maximum : Z)
    : result unit BoundedValueError :=
  if bool_decide (value = []) then Err (Empty field)
  else if maximum <? str_len value then Err (TooLong field maximum)
  else if negb (bytes_all identifier_byte value) then Err (InvalidCharacter field)
  else Ok tt.

(** The [new] of the [bounded_identifier!] types. *)
Definition bounded_identifier_new (field : string) (maximum : Z) (value : list Z)
    : result (list Z) BoundedValueError :=
  do? validate_identifier value field maximum in Ok value.

Definition MAX_PROVIDER_ID_BYTES : Z := 96.
Definition MAX_ACK_ID_BYTES : Z := 128.
Definition MAX_BUILD_ID_BYTES : Z := 128.
Definition MAX_RECEIPT_ID_BYTES : Z := 128.
Definition MAX_VM_ID_BYTES : Z := 128.
Definition MAX_DIAGNOSTIC_BYTES : Z := 512.

Definition DiagnosticText_new (value : list Z) : result (list Z) BoundedValueError :=
  if bool_decide (value = []) then Err (Empty "diagnostic")
  else if MAX_DIAGNOSTIC_BYTES <? str_len value
  then Err (TooLong "diagnostic" MAX_DIAGNOSTIC_BYTES)
  else if existsb is_control value then Err (InvalidCharacter "diagnostic")
  else Ok value.

(** ** Process identity *)

Inductive AttachMode : Type := Debug | ObserveReadOnly | Snapshot.

#[global] Instance AttachMode_eq_dec : EqDecision AttachMode.
Proof. solve_decision. Defined.

Record ProcessIdentity : Type := mkProcessIdentity {
  process_id : Z;
  start_key : Z;
  process_binary_id : list Z
}.

#[global] Instance ProcessIdentity_eq_dec : EqDecision ProcessIdentity.
Proof. solve_decision. Defined.

(** ** What an accepted identity satisfies *)

(** A 64-digit lowercase hexadecimal string: [BinaryId], [PolicyDigest], the
    sealed-image digest, the channel nonce and the security nonces. *)
Definition valid_hex64 (s : list Z) : Prop :=
  length s = 64%nat ∧ Forall (λ b, is_lower_hex b = true) s.

Definition valid_identifier (maximum : Z) (s : list Z) : Prop :=
  s ≠ [] ∧ zlen s ≤ maximum ∧ Forall (λ b, identifier_byte b = true) s.

Lemma is_lower_hex_ascii b : is_lower_hex b = true → 0 ≤ b < 128.
Proof. unfold is_lower_hex. rewrite orb_true_iff, !in_range_spec. lia. Qed.

Lemma identifier_byte_ascii b : identifier_byte b = true → 0 ≤ b < 128.
Proof.
  unfold identifier_byte, is_ascii_alphanumeric, is_ascii_digit, is_ascii_upper, is_ascii_lower.
  rewrite !orb_true_iff, !in_range_spec, !Z.eqb_eq. lia.
Qed.

Lemma utf8_encode_ascii s : Forall (λ b, 0 ≤ b < 128) s → utf8_encode s = s.
Proof.
  induction 1 as [|c s Hc Hs IH]; [done|].
  by rewrite utf8_encode_cons, utf8_char_ascii, IH.
Qed.

Lemma valid_hex64_utf8 s : valid_hex64 s → utf8_encode s = s.
Proof.
  intros [_ Hs]. apply utf8_encode_ascii.
  by eapply Forall_impl; [apply is_lower_hex_ascii|].
Qed.

Lemma valid_identifier_utf8 n s : valid_identifier n s → utf8_encode s = s.
Proof.
  intros (_ & _ & Hs). apply utf8_encode_ascii.
  by eapply Forall_impl; [apply identifier_byte_ascii|].
Qed.

(** The byte-level test of the hexadecimal newtypes, stated on the string. *)
Lemma hex64_test s :
  negb (str_len s =? 64) || negb (bytes_all is_lower_hex s) = false ↔ valid_hex64 s.
Proof.
  rewrite orb_false_iff, !negb_false_iff, Z.eqb_eq. unfold str_len, zlen. split.
  - intros [Hlen Hall]. apply bytes_all_ascii in Hall as [Henc Hall]; [|apply is_lower_hex_ascii].
    rewrite Henc in Hlen. split; [lia|done].
  - intros Hv. pose proof (valid_hex64_utf8 s Hv) as Henc. destruct Hv as [Hlen Hall].
    unfold bytes_all. rewrite Henc, Hlen. split; [done|]. by apply forallb_Forall.
Qed.

Lemma PolicyDigest_new_ok v d : PolicyDigest_new v = Ok d ↔ d = v ∧ valid_hex64 v.
Proof.
  unfold PolicyDigest_new. rewrite <-hex64_test. destruct (_ || _); naive_solver.
Qed.

Lemma security_nonce_new_ok v n : security_nonce_new v = Ok n ↔ n = v ∧ valid_hex64 v.
Proof.
  unfold security_nonce_new. rewrite <-hex64_test. unfold SECURITY_NONCE_HEX_BYTES.
  destruct (_ || _); naive_solver.
Qed.

Lemma lowercase_hex_value_new_ok v n : lowercase_hex_value_new v = Ok n ↔ n = v ∧ valid_hex64 v.
Proof.
  unfold lowercase_hex_value_new. rewrite <-hex64_test. destruct (_ || _); naive_solver.
Qed.

Lemma bounded_identifier_new_ok field n v w :
  bounded_identifier_new field n v = Ok w ↔ w = v ∧ valid_identifier n v.
Proof.
  unfold bounded_identifier_new, validate_identifier, valid_identifier.
  case_bool_decide as Hne; [naive_solver|].
  destruct (Z.ltb_spec n (str_len v)) as [Hlt|Hle].
  { split; [naive_solver|]. intros (-> & _ & Hlen & Hall). exfalso.
    rewrite <-(valid_identifier_utf8 n v) in Hlen by done. unfold str_len in Hlt. lia. }
  destruct (bytes_all identifier_byte v) eqn:Hall; simpl.
  - apply bytes_all_ascii in Hall as [Henc Hall]; [|apply identifier_byte_ascii].
    unfold str_len in Hle. rewrite Henc in Hle. naive_solver.
  - split; [naive_solver|]. intros (-> & Hv). exfalso.
    pose proof (valid_identifier_utf8 n v Hv) as Henc. destruct Hv as (_ & _ & Hv).
    unfold bytes_all in Hall. rewrite Henc in Hall.
    apply not_true_iff_false in Hall. by apply Hall, forallb_Forall.
Qed.

Lemma lower_hex_digit_lower n : 0 ≤ n ≤ 15 → is_lower_hex (lower_hex_digit n) = true.
Proof.
  intros. unfold lower_hex_digit, is_lower_hex. rewrite orb_true_iff, !in_range_spec.
  destruct (Z.ltb_spec n 10); lia.
Qed.

(** The lowercase hexadecimal text of 32 bytes is an accepted identity. *)
Lemma lower_hex_valid bs :
  length bs = 32%nat → Forall is_byte bs → valid_hex64 (lower_hex bs).
Proof.
  intros Hlen Hb. split.
  - assert (∀ l, length (lower_hex l) = (2 * length l)%nat) as H.
    { unfold lower_hex. induction l; csimpl; lia. }
    by rewrite H, Hlen.
  - clear Hlen. unfold lower_hex. induction Hb as [|b bs Hb _ IH]; csimpl; [done|].
    unfold is_byte in Hb. repeat constructor; try done; apply lower_hex_digit_lower.
    + split; [apply Z.div_pos; lia|]. apply Z.lt_succ_r, Z.div_lt_upper_bound; lia.
    + pose proof (Z.mod_pos_bound b 16). lia.
Qed.

#[export] Hint Resolve valid_hex64_utf8 valid_identifier_utf8 : rust.
#[export] Hint Rewrite PolicyDigest_new_ok security_nonce_new_ok lowercase_hex_value_new_ok
  bounded_identifier_new_ok : rust.
