(* ===== verification/TargetMemory.v ===== *)
(** The memory of a debugged target, as the theorems about live patches and
    software breakpoints see it: a byte for every address, and writes of byte
    strings.  No code is modelled here. *)

From S2P Require Import Prelude.
Open Scope Z_scope.

(** Target memory, and a write of some bytes at an address. *)
Definition memory : Type := Z → Z.

Definition write_bytes (a : Z) (bs : list Z) (m : memory) : memory :=
  λ x, if a <=? x then default (m x) (bs !! Z.to_nat (x - a)) else m x.

Definition read_bytes (a : Z) (n : nat) (m : memory) : list Z :=
  (λ i, m (a + Z.of_nat i)) <$> seq 0 n.

Definition same_memory (m m' : memory) : Prop := ∀ x, m x = m' x.

#[global] Instance same_memory_equivalence : Equivalence same_memory.
Proof. split; [by intros m x|by intros m m' Hm x|by intros m1 m2 m3 H1 H2 x; rewrite H1]. Qed.

#[global] Instance write_bytes_proper a bs :
  Proper (same_memory ==> same_memory) (write_bytes a bs).
Proof. intros m m' Hm x. unfold write_bytes. by rewrite Hm. Qed.

#[global] Instance read_bytes_proper a n : Proper (same_memory ==> eq) (read_bytes a n).
Proof. intros m m' Hm. apply list_fmap_ext. intros _ i _. apply Hm. Qed.

(** Writing over a write of the same length. *)
Lemma write_write a bs cs m :
  length bs = length cs → same_memory (write_bytes a bs (write_bytes a cs m)) (write_bytes a bs m).
Proof.
  intros Hl x. unfold write_bytes. destruct (a <=? x); [|done].
  destruct (bs !! Z.to_nat (x - a)) eqn:Hb; [done|]. simpl.
  rewrite lookup_ge_None in Hb. by rewrite lookup_ge_None_2 by lia.
Qed.

(** Writing what is there already. *)
Lemma write_read a m n : same_memory (write_bytes a (read_bytes a n m) m) m.
Proof.
  intros x. unfold write_bytes, read_bytes. destruct (Z.leb_spec a x); [|done].
  rewrite list_lookup_fmap. destruct (seq 0 n !! Z.to_nat (x - a)) as [i|] eqn:Hi; [|done].
  apply lookup_seq in Hi as [-> _]. simpl. f_equal. lia.
Qed.

(** One byte written. *)
Lemma write_byte a b m x : write_bytes a [b] m x = if x =? a then b else m x.
Proof.
  unfold write_bytes. destruct (Z.leb_spec a x), (Z.eqb_spec x a) as [->|]; try lia.
  - by rewrite Z.sub_diag.
  - destruct (Z.to_nat (x - a)) as [|k] eqn:Hk; [lia|done].
Qed.
