(* ===== verification/Sandbox.v ===== *)
(** Sandbox policy, canonical policy digest, attestation, failure evidence,
    cleanup receipts and the sandbox lifecycle reducer.

    Models [resymbol-debugger/src/sandbox.rs].  SHA-256 comes from the [sha2]
    package and is a parameter (class [Sha256]); the hasher state of
    [CanonicalPolicyDigest] is the byte string absorbed so far, as successive
    [update] calls hash the concatenation of their arguments.  A [BTreeSet] of
    guarantees is a [gset], iterated in the declaration order of the enum. *)

From S2P Require Import Prelude Identity.
Open Scope Z_scope.

(** ** SHA-256 *)

Class Sha256 := sha256 : list Z → list Z.

(** The documented output format: thirty-two bytes. *)
Class Sha256Spec `{Sha256} : Prop := sha256_output :
  ∀ m, length (sha256 m) = 32%nat ∧ Forall is_byte (sha256 m).

(** ** Policy vocabulary *)

Inductive IsolationBoundary : Type := UserMode | Hypervisor.

Inductive SandboxGuarantee : Type :=
  | FileSystemRedirection
  | RegistryRedirection
  | DisposableFileSystem
  | DisposableRegistry
  | RollbackOnClose
  | NetworkDisabled
  | IsolatedNetworkSimulation
  | ResourceLimits
  | ChildProcessControl
  | ProcessMitigations
  | JobAssignmentAtCreation
  | HypervisorBoundary.

#[global] Instance IsolationBoundary_eq_dec : EqDecision IsolationBoundary.
Proof. solve_decision. Defined.
#[global] Instance SandboxGuarantee_eq_dec : EqDecision SandboxGuarantee.
Proof. solve_decision. Defined.

(** Every guarantee, in the order the derived [Ord] sorts them. *)
Definition all_guarantees : list SandboxGuarantee :=
  [FileSystemRedirection; RegistryRedirection; DisposableFileSystem; DisposableRegistry;
   RollbackOnClose; NetworkDisabled; IsolatedNetworkSimulation; ResourceLimits;
   ChildProcessControl; ProcessMitigations; JobAssignmentAtCreation; HypervisorBoundary].

(** The tag byte of [CanonicalPolicyDigest::guarantee]. *)
Definition guarantee_tag (g : SandboxGuarantee) : Z :=
  match g with
  | FileSystemRedirection => 1
  | RegistryRedirection => 2
  | DisposableFileSystem => 3
  | DisposableRegistry => 4
  | RollbackOnClose => 5
  | NetworkDisabled => 6
  | IsolatedNetworkSimulation => 7
  | ResourceLimits => 8
  | ChildProcessControl => 9
  | ProcessMitigations => 10
  | JobAssignmentAtCreation => 11
  | HypervisorBoundary => 12
  end.

Definition guarantee_of_tag (n : Z) : SandboxGuarantee :=
  match n with
  | 1 => FileSystemRedirection
  | 2 => RegistryRedirection
  | 3 => DisposableFileSystem
  | 4 => DisposableRegistry
  | 5 => RollbackOnClose
  | 6 => NetworkDisabled
  | 7 => IsolatedNetworkSimulation
  | 8 => ResourceLimits
  | 9 => ChildProcessControl
  | 10 => ProcessMitigations
  | 11 => JobAssignmentAtCreation
  | _ => HypervisorBoundary
  end.

#[global] Instance SandboxGuarantee_countable : Countable SandboxGuarantee.
Proof. by apply (inj_countable' guarantee_tag guarantee_of_tag); intros []. Defined.

(** Iteration over a [BTreeSet<SandboxGuarantee>]. *)
Definition guarantee_elems (s : gset SandboxGuarantee) : list SandboxGuarantee :=
  base.filter (λ g, g ∈ s) all_guarantees.

Inductive SandboxNetworkMode : Type := Disabled | IsolatedSimulation.
Inductive ProcessMitigationProfile : Type := StrictV1 | CompatibilityV1.
Inductive ChildProcessProfile : Type := Deny | SameSandboxOnly.
Inductive DynamicCodeProfile : Type := Prohibit | MicrosoftSignedOnly | AllowDynamicCode.
Inductive Win32kProfile : Type := Disable | AllowWin32k.

#[global] Instance SandboxNetworkMode_eq_dec : EqDecision SandboxNetworkMode.
Proof. solve_decision. Defined.
#[global] Instance ProcessMitigationProfile_eq_dec : EqDecision ProcessMitigationProfile.
Proof. solve_decision. Defined.
#[global] Instance ChildProcessProfile_eq_dec : EqDecision ChildProcessProfile.
Proof. solve_decision. Defined.
#[global] Instance DynamicCodeProfile_eq_dec : EqDecision DynamicCodeProfile.
Proof. solve_decision. Defined.
#[global] Instance Win32kProfile_eq_dec : EqDecision Win32kProfile.
Proof. solve_decision. Defined.

Record SandboxProviderDescriptor : Type := mkSandboxProviderDescriptor {
  sd_id : list Z;
  sd_boundary : IsolationBoundary;
  sd_guarantees : gset SandboxGuarantee;
  sd_build_identity : list Z
}.

Inductive SandboxProviderSelection : Type :=
  | LocalAppContainer
  | WindowsSandbox
  | HyperV
  | Registered (descriptor : SandboxProviderDescriptor).

Record VmIsolationIdentity : Type := mkVmIsolationIdentity {
  vm_sealed_image_id : list Z;
  vm_sealed_image_digest : list Z;
  vm_differencing_disk_id : list Z;
  vm_channel_nonce : list Z;
  vm_channel_protocol_version : Z;
  vm_guest_agent_build : list Z
}.

Record SandboxResourceLimits : Type := mkSandboxResourceLimits {
  rl_memory_bytes : Z;
  rl_disk_bytes : Z;
  rl_active_process_limit : Z;
  rl_cpu_rate_basis_points : Z;
  rl_wall_clock_millis : Z
}.

Record SandboxPolicyApprovalId : Type := mkSandboxPolicyApprovalId {
  approval_session_id : Z;
  approval_nonce : list Z
}.

Record SandboxPolicy : Type := mkSandboxPolicy {
  sp_session_id : Z;
  sp_policy_approval : SandboxPolicyApprovalId;
  sp_provider : SandboxProviderSelection;
  sp_required_boundary : IsolationBoundary;
  sp_required_guarantees : gset SandboxGuarantee;
  sp_network : SandboxNetworkMode;
  sp_resources : SandboxResourceLimits;
  sp_process_mitigations : ProcessMitigationProfile;
  sp_child_processes : ChildProcessProfile;
  sp_dynamic_code : DynamicCodeProfile;
  sp_win32k : Win32kProfile;
  sp_rollback_on_close : bool;
  sp_vm_identity : option VmIsolationIdentity
}.

#[global] Instance SandboxProviderDescriptor_eq_dec : EqDecision SandboxProviderDescriptor.
Proof. solve_decision. Defined.
#[global] Instance SandboxProviderSelection_eq_dec : EqDecision SandboxProviderSelection.
Proof. solve_decision. Defined.
#[global] Instance VmIsolationIdentity_eq_dec : EqDecision VmIsolationIdentity.
Proof. solve_decision. Defined.
#[global] Instance SandboxResourceLimits_eq_dec : EqDecision SandboxResourceLimits.
Proof. solve_decision. Defined.
#[global] Instance SandboxPolicyApprovalId_eq_dec : EqDecision SandboxPolicyApprovalId.
Proof. solve_decision. Defined.
#[global] Instance SandboxPolicy_eq_dec : EqDecision SandboxPolicy.
Proof. solve_decision. Defined.

(** ** Policy validation *)

Inductive ResourceLimitError : Type := Memory | Disk | ProcessCount | CpuRate | WallClock.

Inductive PolicyValidationError : Type :=
  | Resource (e : ResourceLimitError)
  | RollbackRequired
  | ApprovalSessionMismatch
  | ProviderBoundaryMismatch
  | LocalSimulationUnsupported
  | StrictProfileConflict
  | MissingGuarantee (g : SandboxGuarantee)
  | ConflictingNetworkGuarantees
  | ImpossibleBoundaryGuarantee
  | ReservedProviderId
  | EmptyProviderGuarantees
  | MissingVmIdentity
  | UnexpectedVmIdentity
  | InvalidVmChannelVersion
  | UnsupportedGuarantee (g : SandboxGuarantee).

Definition MIB : Z := 1024 * 1024.
Definition GIB : Z := 1024 * MIB.

Definition resource_limits_validate (r : SandboxResourceLimits) : result unit ResourceLimitError :=
  do? fail_if (negb (in_range (32 * MIB) (128 * GIB) (rl_memory_bytes r))) Memory in
  do? fail_if (negb (in_range (16 * MIB) (512 * GIB) (rl_disk_bytes r))) Disk in
  do? fail_if (negb (in_range 1 128 (rl_active_process_limit r))) ProcessCount in
  do? fail_if (negb (in_range 1 10000 (rl_cpu_rate_basis_points r))) CpuRate in
  do? fail_if (negb (in_range 1000 86400000 (rl_wall_clock_millis r))) WallClock in
  Ok tt.

Definition is_reserved_provider_id (id : list Z) : bool :=
  let lower := to_ascii_lowercase id in
  bool_decide (lower = str "local-appcontainer")
  || bool_decide (lower = str "windows-sandbox")
  || bool_decide (lower = str "hyper-v").

Definition descriptor_validate (d : SandboxProviderDescriptor)
    : result unit PolicyValidationError :=
  do? fail_if (bool_decide (sd_guarantees d = ∅)) EmptyProviderGuarantees in
  do? fail_if (is_reserved_provider_id (sd_id d)) ReservedProviderId in
  Ok tt.

Definition vm_identity_validate (v : VmIsolationIdentity) : result unit PolicyValidationError :=
  fail_if (vm_channel_protocol_version v =? 0) InvalidVmChannelVersion.

Definition provider_boundary (p : SandboxProviderSelection) : IsolationBoundary :=
  match p with
  | LocalAppContainer => UserMode
  | WindowsSandbox | HyperV => Hypervisor
  | Registered d => sd_boundary d
  end.

Definition provider_supports (p : SandboxProviderSelection) (g : SandboxGuarantee) : bool :=
  match p with
  | LocalAppContainer =>
      match g with
      | FileSystemRedirection | RegistryRedirection | RollbackOnClose | NetworkDisabled
      | ResourceLimits | ChildProcessControl | ProcessMitigations
      | JobAssignmentAtCreation => true
      | _ => false
      end
  | WindowsSandbox | HyperV =>
      match g with
      | FileSystemRedirection | RegistryRedirection => false
      | _ => true
      end
  | Registered d => bool_decide (g ∈ sd_guarantees d)
  end.

Definition require_guarantee (gs : gset SandboxGuarantee) (g : SandboxGuarantee)
    : result unit PolicyValidationError :=
  if bool_decide (g ∈ gs) then Ok tt else Err (MissingGuarantee g).

Fixpoint require_guarantees (gs : gset SandboxGuarantee) (l : list SandboxGuarantee)
    : result unit PolicyValidationError :=
  match l with
  | [] => Ok tt
  | g :: l' => do? require_guarantee gs g in require_guarantees gs l'
  end.

(** The closing loop of [SandboxPolicy::validate]. *)
Fixpoint check_supported (p : SandboxProviderSelection) (l : list SandboxGuarantee)
    : result unit PolicyValidationError :=
  match l with
  | [] => Ok tt
  | g :: l' =>
      if provider_supports p g then check_supported p l' else Err (UnsupportedGuarantee g)
  end.

Definition network_guarantee (n : SandboxNetworkMode) : SandboxGuarantee :=
  match n with Disabled => NetworkDisabled | IsolatedSimulation => IsolatedNetworkSimulation end.

Definition conflicting_network (n : SandboxNetworkMode) : SandboxGuarantee :=
  match n with Disabled => IsolatedNetworkSimulation | IsolatedSimulation => NetworkDisabled end.

(** The four conditional blocks of [SandboxPolicy::validate]. *)
Definition policy_check_provider (p : SandboxPolicy) : result unit PolicyValidationError :=
  match sp_provider p with
  | Registered d => descriptor_validate d
  | _ => Ok tt
  end.

Definition policy_check_common (p : SandboxPolicy) : result unit PolicyValidationError :=
  require_guarantees (sp_required_guarantees p)
    [RollbackOnClose; ResourceLimits; ChildProcessControl; ProcessMitigations;
     JobAssignmentAtCreation].

Definition policy_check_boundary (p : SandboxPolicy) : result unit PolicyValidationError :=
  let gs := sp_required_guarantees p in
  match sp_required_boundary p with
  | UserMode =>
      do? require_guarantee gs FileSystemRedirection in
      do? require_guarantee gs RegistryRedirection in
      fail_if (bool_decide (HypervisorBoundary ∈ gs)) ImpossibleBoundaryGuarantee
  | Hypervisor =>
      require_guarantees gs [DisposableFileSystem; DisposableRegistry; HypervisorBoundary]
  end.

Definition policy_check_vm (p : SandboxPolicy) : result unit PolicyValidationError :=
  match sp_required_boundary p, sp_vm_identity p with
  | UserMode, None => Ok tt
  | UserMode, Some _ => Err UnexpectedVmIdentity
  | Hypervisor, Some v => vm_identity_validate v
  | Hypervisor, None => Err MissingVmIdentity
  end.

Definition policy_validate (p : SandboxPolicy) : result unit PolicyValidationError :=
  let gs := sp_required_guarantees p in
  do? map_err Resource (resource_limits_validate (sp_resources p)) in
  do? fail_if (negb (sp_rollback_on_close p)) RollbackRequired in
  do? fail_if (negb (approval_session_id (sp_policy_approval p) =? sp_session_id p))
        ApprovalSessionMismatch in
  do? policy_check_provider p in
  do? fail_if (negb (bool_decide (provider_boundary (sp_provider p) = sp_required_boundary p)))
        ProviderBoundaryMismatch in
  do? fail_if (bool_decide (sp_provider p = LocalAppContainer)
               && bool_decide (sp_network p = IsolatedSimulation))
        LocalSimulationUnsupported in
  do? fail_if (bool_decide (sp_process_mitigations p = StrictV1)
               && (negb (bool_decide (sp_dynamic_code p = Prohibit))
                   || negb (bool_decide (sp_win32k p = Disable))))
        StrictProfileConflict in
  do? policy_check_common p in
  do? require_guarantee gs (network_guarantee (sp_network p)) in
  do? fail_if (bool_decide (conflicting_network (sp_network p) ∈ gs))
        ConflictingNetworkGuarantees in
  do? policy_check_boundary p in
  do? policy_check_vm p in
  check_supported (sp_provider p) (guarantee_elems gs).

(** ** Canonical policy digest *)

Definition SANDBOX_POLICY_DIGEST_VERSION : Z := 1.

(** A method of [CanonicalPolicyDigest]: the receiver is the absorbed bytes. *)
Abbreviation hashing := (smonad (list Z) PolicyValidationError unit).

Definition cd_update (bs : list Z) : hashing := supd (λ h, h ++ bs).
Definition cd_u8 (v : Z) : hashing := cd_update [v].
Definition cd_u16 (v : Z) : hashing := cd_update (le_bytes 2 v).
Definition cd_u32 (v : Z) : hashing := cd_update (le_bytes 4 v).
Definition cd_u64 (v : Z) : hashing := cd_update (le_bytes 8 v).
Definition cd_boolean (v : bool) : hashing := cd_u8 (if v then 1 else 0).

(** [u32::try_from(len).expect(..)]. *)
Definition u32_len (n : Z) (msg : string) : smonad (list Z) PolicyValidationError Z :=
  slift (expect_some (if n <=? u32_max then Some n else None) msg).

Definition cd_bytes (v : list Z) : hashing :=
  let! n := u32_len (zlen v) "bounded canonical field fits u32" in
  do! cd_u32 n in cd_update v.

Definition cd_text (v : list Z) : hashing := cd_bytes (utf8_encode v).

Definition cd_boundary (b : IsolationBoundary) : hashing :=
  cd_u8 (match b with UserMode => 1 | Hypervisor => 2 end).
Definition cd_network (n : SandboxNetworkMode) : hashing :=
  cd_u8 (match n with Disabled => 1 | IsolatedSimulation => 2 end).
Definition cd_mitigations (m : ProcessMitigationProfile) : hashing :=
  cd_u8 (match m with StrictV1 => 1 | CompatibilityV1 => 2 end).
Definition cd_children (c : ChildProcessProfile) : hashing :=
  cd_u8 (match c with Deny => 1 | SameSandboxOnly => 2 end).
Definition cd_dynamic_code (d : DynamicCodeProfile) : hashing :=
  cd_u8 (match d with Prohibit => 1 | MicrosoftSignedOnly => 2 | AllowDynamicCode => 3 end).
Definition cd_win32k (w : Win32kProfile) : hashing :=
  cd_u8 (match w with Disable => 1 | AllowWin32k => 2 end).
Definition cd_guarantee (g : SandboxGuarantee) : hashing := cd_u8 (guarantee_tag g).

Fixpoint cd_each_guarantee (l : list SandboxGuarantee) : hashing :=
  match l with
  | [] => sret tt
  | g :: l' => do! cd_guarantee g in cd_each_guarantee l'
  end.

Definition cd_guarantees (gs : gset SandboxGuarantee) : hashing :=
  let! n := u32_len (zlen (guarantee_elems gs)) "bounded guarantee count fits u32" in
  do! cd_u32 n in cd_each_guarantee (guarantee_elems gs).

Definition cd_provider (p : SandboxProviderSelection) : hashing :=
  match p with
  | LocalAppContainer => cd_u8 1
  | WindowsSandbox => cd_u8 2
  | HyperV => cd_u8 3
  | Registered d =>
      do! cd_u8 4 in
      do! cd_text (sd_id d) in
      do! cd_boundary (sd_boundary d) in
      do! cd_guarantees (sd_guarantees d) in
      cd_text (sd_build_identity d)
  end.

Definition cd_vm_identity (o : option VmIsolationIdentity) : hashing :=
  match o with
  | Some v =>
      do! cd_boolean true in
      do! cd_text (vm_sealed_image_id v) in
      do! cd_text (vm_sealed_image_digest v) in
      do! cd_text (vm_differencing_disk_id v) in
      do! cd_text (vm_channel_nonce v) in
      do! cd_u16 (vm_channel_protocol_version v) in
      cd_text (vm_guest_agent_build v)
  | None => cd_boolean false
  end.

(** The field sequence that [SandboxPolicy::digest] feeds to the hasher. *)
Definition cd_policy (p : SandboxPolicy) (binary_id : list Z) : hashing :=
  do! cd_text (str "resymbol-sandbox-policy") in
  do! cd_u16 SANDBOX_POLICY_DIGEST_VERSION in
  do! cd_text binary_id in
  do! cd_u64 (sp_session_id p) in
  do! cd_text (approval_nonce (sp_policy_approval p)) in
  do! cd_provider (sp_provider p) in
  do! cd_boundary (sp_required_boundary p) in
  do! cd_guarantees (sp_required_guarantees p) in
  do! cd_network (sp_network p) in
  do! cd_u64 (rl_memory_bytes (sp_resources p)) in
  do! cd_u64 (rl_disk_bytes (sp_resources p)) in
  do! cd_u32 (rl_active_process_limit (sp_resources p)) in
  do! cd_u16 (rl_cpu_rate_basis_points (sp_resources p)) in
  do! cd_u64 (rl_wall_clock_millis (sp_resources p)) in
  do! cd_mitigations (sp_process_mitigations p) in
  do! cd_children (sp_child_processes p) in
  do! cd_dynamic_code (sp_dynamic_code p) in
  do! cd_win32k (sp_win32k p) in
  do! cd_boolean (sp_rollback_on_close p) in
  cd_vm_identity (sp_vm_identity p).

Section digest.
Context `{Sha256}.

Definition cd_finish (h : list Z) : result (list Z) PolicyValidationError :=
  expect (PolicyDigest_new (lower_hex (sha256 h))) "SHA-256 is lowercase hexadecimal".

Definition policy_digest (p : SandboxPolicy) (binary_id : list Z)
    : result (list Z) PolicyValidationError :=
  do? policy_validate p in
  match cd_policy p binary_id [] with
  | (Ok _, h) => cd_finish h
  | (Err e, _) => Err e
  | (Panic m, _) => Panic m
  end.
End digest.

(** ** Attestation *)

Record ExpectedSandboxAttestation : Type := mkExpectedSandboxAttestation {
  ex_binary_id : list Z;
  ex_session_id : Z;
  ex_provisioning_epoch : list Z;
  ex_policy_digest : list Z;
  ex_provider : SandboxProviderSelection;
  ex_boundary : IsolationBoundary;
  ex_guarantees : gset SandboxGuarantee;
  ex_job_assigned_at_creation : bool;
  ex_helper_build : list Z;
  ex_vm_identity : option VmIsolationIdentity
}.

Record SandboxAttestation : Type := mkSandboxAttestation {
  at_binary_id : list Z;
  at_process : ProcessIdentity;
  at_session_id : Z;
  at_provisioning_epoch : list Z;
  at_policy_digest : list Z;
  at_provider : SandboxProviderSelection;
  at_boundary : IsolationBoundary;
  at_guarantees : gset SandboxGuarantee;
  at_job_assigned_at_creation : bool;
  at_helper_build : list Z;
  at_vm_identity : option VmIsolationIdentity
}.

#[global] Instance ExpectedSandboxAttestation_eq_dec : EqDecision ExpectedSandboxAttestation.
Proof. solve_decision. Defined.
#[global] Instance SandboxAttestation_eq_dec : EqDecision SandboxAttestation.
Proof. solve_decision. Defined.

Module AttestationMismatch.
Inductive attestation_mismatch : Type :=
  | BinaryIdentity
  | ProcessIdentity
  | Session
  | ProvisioningEpoch
  | PolicyDigest
  | Provider
  | Boundary
  | Guarantees
  | JobAssignment
  | HelperBuild
  | VmIdentity.
End AttestationMismatch.
Abbreviation AttestationMismatch := AttestationMismatch.attestation_mismatch.

Definition from_policy `{Sha256} (binary_id : list Z) (policy : SandboxPolicy)
    (helper_build provisioning_epoch : list Z)
    : result ExpectedSandboxAttestation PolicyValidationError :=
  let? d := policy_digest policy binary_id in
  Ok {| ex_binary_id := binary_id;
        ex_session_id := sp_session_id policy;
        ex_provisioning_epoch := provisioning_epoch;
        ex_policy_digest := d;
        ex_provider := sp_provider policy;
        ex_boundary := sp_required_boundary policy;
        ex_guarantees := sp_required_guarantees policy;
        ex_job_assigned_at_creation := true;
        ex_helper_build := helper_build;
        ex_vm_identity := sp_vm_identity policy |}.

Definition validate_exact (ex : ExpectedSandboxAttestation) (actual : SandboxAttestation)
    (created_process : ProcessIdentity) : result unit AttestationMismatch :=
  do? fail_if (negb (bool_decide (ex_binary_id ex = at_binary_id actual)))
        AttestationMismatch.BinaryIdentity in
  do? fail_if (negb (bool_decide (at_process actual = created_process))
               || negb (bool_decide (process_binary_id (at_process actual) = at_binary_id actual)))
        AttestationMismatch.ProcessIdentity in
  do? fail_if (negb (bool_decide (ex_session_id ex = at_session_id actual)))
        AttestationMismatch.Session in
  do? fail_if (negb (bool_decide (ex_provisioning_epoch ex = at_provisioning_epoch actual)))
        AttestationMismatch.ProvisioningEpoch in
  do? fail_if (negb (bool_decide (ex_policy_digest ex = at_policy_digest actual)))
        AttestationMismatch.PolicyDigest in
  do? fail_if (negb (bool_decide (ex_provider ex = at_provider actual)))
        AttestationMismatch.Provider in
  do? fail_if (negb (bool_decide (ex_boundary ex = at_boundary actual)))
        AttestationMismatch.Boundary in
  do? fail_if (negb (bool_decide (ex_guarantees ex = at_guarantees actual)))
        AttestationMismatch.Guarantees in
  do? fail_if (negb (bool_decide
                 (ex_job_assigned_at_creation ex = at_job_assigned_at_creation actual)))
        AttestationMismatch.JobAssignment in
  do? fail_if (negb (bool_decide (ex_helper_build ex = at_helper_build actual)))
        AttestationMismatch.HelperBuild in
  do? fail_if (negb (bool_decide (ex_vm_identity ex = at_vm_identity actual)))
        AttestationMismatch.VmIdentity in
  Ok tt.

(** ** Failure evidence *)

Module SandboxFailureStage.
Inductive failure_stage : Type :=
  | Policy | Discovery | Provisioning | Attestation | Launch | Runtime | Cleanup.
#[global] Instance failure_stage_eq_dec : EqDecision failure_stage.
Proof. solve_decision. Defined.
End SandboxFailureStage.
Abbreviation SandboxFailureStage := SandboxFailureStage.failure_stage.

Module SandboxFailureKind.
Inductive failure_kind : Type :=
  | InvalidPolicy
  | ProviderUnavailable
  | AttestationRejected
  | LaunchDenied
  | ResourceLimitReached
  | HelperFailure
  | CleanupIncomplete
  | ProtocolViolation.
#[global] Instance failure_kind_eq_dec : EqDecision failure_kind.
Proof. solve_decision. Defined.
End SandboxFailureKind.
Abbreviation SandboxFailureKind := SandboxFailureKind.failure_kind.

Inductive SandboxTargetCreationOutcome : Type :=
  | NotCreated
  | Created (process : ProcessIdentity).

#[global] Instance SandboxTargetCreationOutcome_eq_dec :
  EqDecision SandboxTargetCreationOutcome.
Proof. solve_decision. Defined.

Definition outcome_process (o : SandboxTargetCreationOutcome) : option ProcessIdentity :=
  match o with NotCreated => None | Created p => Some p end.

Inductive SandboxFailureContext : Type :=
  | LaunchContext (binary_id helper_build : list Z)
      (target_creation : SandboxTargetCreationOutcome)
  | InheritedAttachContext (process : ProcessIdentity) (mode : AttachMode).

#[global] Instance SandboxFailureContext_eq_dec : EqDecision SandboxFailureContext.
Proof. solve_decision. Defined.

Record SandboxFailure : Type := mkSandboxFailure {
  sf_session_id : Z;
  sf_provisioning_epoch : list Z;
  sf_policy_digest : list Z;
  sf_provider : SandboxProviderSelection;
  sf_context : SandboxFailureContext;
  sf_stage : SandboxFailureStage;
  sf_kind : SandboxFailureKind;
  sf_retryable : bool;
  sf_detail : list Z
}.

#[global] Instance SandboxFailure_eq_dec : EqDecision SandboxFailure.
Proof. solve_decision. Defined.

Module SandboxFailureValidationError.
Inductive failure_validation_error : Type :=
  | StageKind (stage : SandboxFailureStage) (kind : SandboxFailureKind)
  | Session
  | ProvisioningEpoch
  | PolicyDigest
  | Provider
  | ContextKind
  | BinaryIdentity
  | HelperBuild
  | TargetCreationOutcome
  | ProcessIdentity
  | AttachMode.
End SandboxFailureValidationError.
Abbreviation SandboxFailureValidationError :=
  SandboxFailureValidationError.failure_validation_error.
Module SFV := SandboxFailureValidationError.

(** The stage/kind table of [SandboxFailure::validate_stage_kind]. *)
Definition stage_kind_compatible (s : SandboxFailureStage) (k : SandboxFailureKind) : bool :=
  match s with
  | SandboxFailureStage.Policy =>
      match k with
      | SandboxFailureKind.InvalidPolicy | SandboxFailureKind.ProtocolViolation => true
      | _ => false
      end
  | SandboxFailureStage.Discovery =>
      match k with
      | SandboxFailureKind.ProviderUnavailable | SandboxFailureKind.HelperFailure
      | SandboxFailureKind.ProtocolViolation => true
      | _ => false
      end
  | SandboxFailureStage.Provisioning =>
      match k with
      | SandboxFailureKind.ProviderUnavailable | SandboxFailureKind.ResourceLimitReached
      | SandboxFailureKind.HelperFailure | SandboxFailureKind.ProtocolViolation => true
      | _ => false
      end
  | SandboxFailureStage.Attestation =>
      match k with
      | SandboxFailureKind.AttestationRejected | SandboxFailureKind.HelperFailure
      | SandboxFailureKind.ProtocolViolation => true
      | _ => false
      end
  | SandboxFailureStage.Launch =>
      match k with
      | SandboxFailureKind.LaunchDenied | SandboxFailureKind.ResourceLimitReached
      | SandboxFailureKind.HelperFailure | SandboxFailureKind.ProtocolViolation => true
      | _ => false
      end
  | SandboxFailureStage.Runtime =>
      match k with
      | SandboxFailureKind.ResourceLimitReached | SandboxFailureKind.HelperFailure
      | SandboxFailureKind.ProtocolViolation => true
      | _ => false
      end
  | SandboxFailureStage.Cleanup =>
      match k with SandboxFailureKind.CleanupIncomplete => true | _ => false end
  end.

Definition validate_stage_kind (f : SandboxFailure) : result unit SandboxFailureValidationError :=
  if stage_kind_compatible (sf_stage f) (sf_kind f) then Ok tt
  else Err (SFV.StageKind (sf_stage f) (sf_kind f)).

Definition validate_against_expected (f : SandboxFailure) (ex : ExpectedSandboxAttestation)
    (retained : option SandboxTargetCreationOutcome)
    : result unit SandboxFailureValidationError :=
  do? validate_stage_kind f in
  do? fail_if (negb (bool_decide (sf_session_id f = ex_session_id ex))) SFV.Session in
  do? fail_if (negb (bool_decide (sf_provisioning_epoch f = ex_provisioning_epoch ex)))
        SFV.ProvisioningEpoch in
  do? fail_if (negb (bool_decide (sf_policy_digest f = ex_policy_digest ex))) SFV.PolicyDigest in
  do? fail_if (negb (bool_decide (sf_provider f = ex_provider ex))) SFV.Provider in
  match sf_context f with
  | LaunchContext binary_id helper_build target_creation =>
      if bool_decide (binary_id = ex_binary_id ex)
         && bool_decide (helper_build = ex_helper_build ex)
      then
        match retained with
        | Some r =>
            if bool_decide (target_creation = r) then Ok tt else Err SFV.TargetCreationOutcome
        | None => Err SFV.TargetCreationOutcome
        end
      else if negb (bool_decide (binary_id = ex_binary_id ex)) then Err SFV.BinaryIdentity
      else Err SFV.HelperBuild
  | InheritedAttachContext _ _ => Err SFV.ContextKind
  end.

Definition validate_against_inherited (f : SandboxFailure) (session_id : Z)
    (provisioning_epoch policy_digest : list Z) (provider : SandboxProviderSelection)
    (process : ProcessIdentity) (mode : AttachMode)
    : result unit SandboxFailureValidationError :=
  do? validate_stage_kind f in
  do? fail_if (negb (bool_decide (sf_session_id f = session_id))) SFV.Session in
  do? fail_if (negb (bool_decide (sf_provisioning_epoch f = provisioning_epoch)))
        SFV.ProvisioningEpoch in
  do? fail_if (negb (bool_decide (sf_policy_digest f = policy_digest))) SFV.PolicyDigest in
  do? fail_if (negb (bool_decide (sf_provider f = provider))) SFV.Provider in
  match sf_context f with
  | InheritedAttachContext actual actual_mode =>
      if bool_decide (actual = process) && bool_decide (actual_mode = mode) then Ok tt
      else if negb (bool_decide (actual = process)) then Err SFV.ProcessIdentity
      else Err SFV.AttachMode
  | LaunchContext _ _ _ => Err SFV.ContextKind
  end.

(** ** Cleanup receipts *)

Inductive CleanupOutcome : Type := Complete | Incomplete.
#[global] Instance CleanupOutcome_eq_dec : EqDecision CleanupOutcome.
Proof. solve_decision. Defined.

Module CleanupResidualKind.
Inductive residual_kind : Type :=
  | Process | FileSystem | Registry | Network | Handles | AppContainerProfile
  | DifferencingDisk | ControlChannel | Provider.
#[global] Instance residual_kind_eq_dec : EqDecision residual_kind.
Proof. solve_decision. Defined.
End CleanupResidualKind.

Record CleanupResidual : Type := mkCleanupResidual {
  cr_kind : CleanupResidualKind.residual_kind;
  cr_detail : list Z
}.
#[global] Instance CleanupResidual_eq_dec : EqDecision CleanupResidual.
Proof. solve_decision. Defined.

Record SandboxCleanupReceipt : Type := mkSandboxCleanupReceipt {
  rc_receipt_id : list Z;
  rc_session_id : Z;
  rc_provisioning_epoch : list Z;
  rc_provider : SandboxProviderSelection;
  rc_policy_digest : list Z;
  rc_process : option ProcessIdentity;
  rc_outcome : CleanupOutcome;
  rc_process_tree_terminated_and_reaped : bool;
  rc_handles_closed : bool;
  rc_file_system_rolled_back : bool;
  rc_registry_rolled_back : bool;
  rc_network_torn_down : bool;
  rc_owned_paths_deleted : bool;
  rc_appcontainer_profile_deleted : option bool;
  rc_differencing_disk_discarded : option bool;
  rc_control_channel_closed : option bool;
  rc_terminated_processes : Z;
  rc_residuals : list CleanupResidual
}.
#[global] Instance SandboxCleanupReceipt_eq_dec : EqDecision SandboxCleanupReceipt.
Proof. solve_decision. Defined.

Definition MAX_CLEANUP_RESIDUALS : Z := 32.

Inductive CleanupReceiptError : Type :=
  | BindingMismatch | TooManyResiduals | FalseComplete | MissingResidual.

Definition receipt_common_clean (r : SandboxCleanupReceipt) : bool :=
  rc_process_tree_terminated_and_reaped r && rc_handles_closed r
  && rc_file_system_rolled_back r && rc_registry_rolled_back r
  && rc_network_torn_down r && rc_owned_paths_deleted r.

Definition receipt_provider_clean (r : SandboxCleanupReceipt) (b : IsolationBoundary) : bool :=
  match b with
  | UserMode =>
      bool_decide (rc_appcontainer_profile_deleted r = Some true)
      && bool_decide (rc_differencing_disk_discarded r = None)
      && bool_decide (rc_control_channel_closed r = None)
  | Hypervisor =>
      bool_decide (rc_appcontainer_profile_deleted r = None)
      && bool_decide (rc_differencing_disk_discarded r = Some true)
      && bool_decide (rc_control_channel_closed r = Some true)
  end.

Definition validate_for_boundary (r : SandboxCleanupReceipt) (b : IsolationBoundary)
    : result unit CleanupReceiptError :=
  do? fail_if (MAX_CLEANUP_RESIDUALS <? zlen (rc_residuals r)) TooManyResiduals in
  let all_clean := receipt_common_clean r && receipt_provider_clean r b in
  match rc_outcome r with
  | Complete =>
      if negb all_clean || negb (bool_decide (rc_residuals r = [])) then Err FalseComplete
      else Ok tt
  | Incomplete =>
      if bool_decide (rc_residuals r = []) then Err MissingResidual else Ok tt
  end.

Definition receipt_validate_against (r : SandboxCleanupReceipt)
    (ex : ExpectedSandboxAttestation) (created_process : option ProcessIdentity)
    : result unit CleanupReceiptError :=
  do? fail_if (negb (bool_decide (rc_session_id r = ex_session_id ex))
               || negb (bool_decide (rc_provisioning_epoch r = ex_provisioning_epoch ex))
               || negb (bool_decide (rc_provider r = ex_provider ex))
               || negb (bool_decide (rc_policy_digest r = ex_policy_digest ex))
               || negb (bool_decide (rc_process r = created_process))) BindingMismatch in
  validate_for_boundary r (ex_boundary ex).

Record SandboxCleanupAttemptFailure : Type := mkSandboxCleanupAttemptFailure {
  caf_failure : SandboxFailure;
  caf_receipt : SandboxCleanupReceipt
}.
#[global] Instance SandboxCleanupAttemptFailure_eq_dec :
  EqDecision SandboxCleanupAttemptFailure.
Proof. solve_decision. Defined.

Inductive CleanupAttemptFailureError : Type :=
  | WrongStage
  | WrongKind
  | FailureReceiptMismatch
  | ReceiptNotIncomplete
  | Receipt (e : CleanupReceiptError).

Definition attempt_context_matches (c : SandboxFailureContext) (p : option ProcessIdentity)
    : bool :=
  match c, p with
  | LaunchContext _ _ NotCreated, None => true
  | LaunchContext binary_id _ (Created process), Some receipt_process =>
      bool_decide (process = receipt_process)
      && bool_decide (process_binary_id process = binary_id)
  | InheritedAttachContext process _, Some receipt_process =>
      bool_decide (process = receipt_process)
  | _, _ => false
  end.

Definition cleanup_attempt_validate (a : SandboxCleanupAttemptFailure)
    : result unit CleanupAttemptFailureError :=
  let f := caf_failure a in
  let r := caf_receipt a in
  do? fail_if (negb (bool_decide (sf_stage f = SandboxFailureStage.Cleanup))) WrongStage in
  do? fail_if (negb (bool_decide (sf_kind f = SandboxFailureKind.CleanupIncomplete))) WrongKind in
  do? fail_if (negb (bool_decide (sf_session_id f = rc_session_id r))
               || negb (bool_decide (sf_provisioning_epoch f = rc_provisioning_epoch r))
               || negb (bool_decide (sf_policy_digest f = rc_policy_digest r))
               || negb (bool_decide (sf_provider f = rc_provider r))) FailureReceiptMismatch in
  do? fail_if (negb (attempt_context_matches (sf_context f) (rc_process r)))
        FailureReceiptMismatch in
  do? fail_if (negb (bool_decide (rc_outcome r = Incomplete))) ReceiptNotIncomplete in
  map_err Receipt (validate_for_boundary r (provider_boundary (rc_provider r))).

(** ** Lifecycle events and the lifecycle reducer *)

Module SandboxLifecycleState.
Inductive lifecycle_state : Type :=
  | Requested
  | Provisioning
  | TargetCreatedSuspended
  | AttestationAccepted
  | Running
  | Cleanup
  | Closed
  | Failed.
#[global] Instance lifecycle_state_eq_dec : EqDecision lifecycle_state.
Proof. solve_decision. Defined.
End SandboxLifecycleState.
Abbreviation SandboxLifecycleState := SandboxLifecycleState.lifecycle_state.
Module SLS := SandboxLifecycleState.

Module ProviderUnavailableReason.
Inductive unavailable_reason : Type :=
  | NotInstalled | FeatureDisabled | AdministrativePolicy | UnsupportedPolicy
  | ResourceUnavailable | VersionMismatch | BackendOffline.
#[global] Instance unavailable_reason_eq_dec : EqDecision unavailable_reason.
Proof. solve_decision. Defined.
End ProviderUnavailableReason.

Record ProviderUnavailable : Type := mkProviderUnavailable {
  pu_session_id : Z;
  pu_provider : SandboxProviderSelection;
  pu_reason : ProviderUnavailableReason.unavailable_reason;
  pu_retryable : bool;
  pu_detail : list Z
}.
#[global] Instance ProviderUnavailable_eq_dec : EqDecision ProviderUnavailable.
Proof. solve_decision. Defined.

Module SandboxLifecycleEvent.
Inductive lifecycle_event : Type :=
  | State (session_id : Z) (state : SandboxLifecycleState)
  | Attested (a : SandboxAttestation)
  | ProviderUnavailable (u : ProviderUnavailable)
  | Failed (f : SandboxFailure)
  | CleanupAttemptFailed (a : SandboxCleanupAttemptFailure)
  | Closed (r : SandboxCleanupReceipt).
#[global] Instance lifecycle_event_eq_dec : EqDecision lifecycle_event.
Proof. solve_decision. Defined.
End SandboxLifecycleEvent.
Abbreviation SandboxLifecycleEvent := SandboxLifecycleEvent.lifecycle_event.

Record SandboxMachine : Type := mkSandboxMachine {
  sm_expected : ExpectedSandboxAttestation;
  sm_state : SandboxLifecycleState;
  sm_target_creation : option SandboxTargetCreationOutcome;
  sm_accepted_attestation : option SandboxAttestation
}.
#[global] Instance SandboxMachine_eq_dec : EqDecision SandboxMachine.
Proof. solve_decision. Defined.

Definition sm_set_state (s : SandboxLifecycleState) (m : SandboxMachine) : SandboxMachine :=
  mkSandboxMachine (sm_expected m) s (sm_target_creation m) (sm_accepted_attestation m).
Definition sm_set_target_creation (t : option SandboxTargetCreationOutcome)
    (m : SandboxMachine) : SandboxMachine :=
  mkSandboxMachine (sm_expected m) (sm_state m) t (sm_accepted_attestation m).
Definition sm_set_accepted (a : option SandboxAttestation) (m : SandboxMachine)
    : SandboxMachine :=
  mkSandboxMachine (sm_expected m) (sm_state m) (sm_target_creation m) a.

Module SandboxMachineError.
Inductive sandbox_machine_error : Type :=
  | InvalidExpectedAttestation
  | CreatedProcessIdentityMismatch
  | CreatedProcessIdentityMissing
  | TargetCreationOutcomeMissing
  | TargetCreationOutcomeMismatch
  | AttestationNotAccepted
  | InvalidTransition (from : SandboxLifecycleState) (action : string)
  | Attestation (e : AttestationMismatch)
  | Cleanup (e : CleanupReceiptError)
  | CleanupIncomplete.
End SandboxMachineError.
Abbreviation SandboxMachineError := SandboxMachineError.sandbox_machine_error.
Module SME := SandboxMachineError.

Definition SandboxMachine_new (ex : ExpectedSandboxAttestation)
    : result SandboxMachine SandboxMachineError :=
  let vm_shape_valid :=
    match ex_boundary ex with
    | UserMode => bool_decide (ex_vm_identity ex = None)
    | Hypervisor =>
        match ex_vm_identity ex with
        | Some v => is_ok (vm_identity_validate v)
        | None => false
        end
    end in
  let provider_valid :=
    match ex_provider ex with
    | Registered d => is_ok (descriptor_validate d)
    | _ => true
    end
    && forallb (provider_supports (ex_provider ex)) (guarantee_elems (ex_guarantees ex)) in
  if negb (ex_job_assigned_at_creation ex)
     || negb (bool_decide (JobAssignmentAtCreation ∈ ex_guarantees ex))
     || negb (bool_decide (provider_boundary (ex_provider ex) = ex_boundary ex))
     || negb provider_valid
     || negb vm_shape_valid
  then Err SME.InvalidExpectedAttestation
  else Ok (mkSandboxMachine ex SLS.Requested None None).

Abbreviation sandbox_op A := (smonad SandboxMachine SandboxMachineError A).

Definition sm_require_state (action : string) (allowed : list SandboxLifecycleState)
    : sandbox_op unit :=
  sread (λ m, if bool_decide (sm_state m ∈ allowed) then Ok tt
              else Err (SME.InvalidTransition (sm_state m) action)).

Definition sm_transition (action : string) (allowed : list SandboxLifecycleState)
    (next : SandboxLifecycleState) : sandbox_op SandboxLifecycleState :=
  do! sm_require_state action allowed in
  do! supd (sm_set_state next) in
  sget sm_state.

Definition created_process (m : SandboxMachine) : option ProcessIdentity :=
  match sm_target_creation m with
  | Some (Created process) => Some process
  | Some NotCreated | None => None
  end.

Definition failure_target_creation (m : SandboxMachine)
    : result SandboxTargetCreationOutcome SandboxMachineError :=
  ok_or (sm_target_creation m) SME.TargetCreationOutcomeMissing.

Definition retain_failure_target_creation (outcome : SandboxTargetCreationOutcome)
    : sandbox_op unit :=
  λ m, match sm_target_creation m, outcome with
       | None, NotCreated => (Ok tt, sm_set_target_creation (Some NotCreated) m)
       | Some retained, claimed =>
           if bool_decide (retained = claimed) then (Ok tt, m)
           else (Err SME.TargetCreationOutcomeMismatch, m)
       | _, _ => (Err SME.TargetCreationOutcomeMismatch, m)
       end.

Definition record_target_not_created : sandbox_op unit :=
  do! sm_require_state "record target not created" [SLS.Provisioning] in
  retain_failure_target_creation NotCreated.

Definition begin_provisioning : sandbox_op SandboxLifecycleState :=
  sm_transition "begin provisioning" [SLS.Requested] SLS.Provisioning.

Definition sm_target_created_suspended (process : ProcessIdentity)
    : sandbox_op SandboxLifecycleState :=
  do! sread (λ m, fail_if (negb (bool_decide (sm_target_creation m = None)))
                    SME.TargetCreationOutcomeMismatch) in
  do! sread (λ m, fail_if (negb (bool_decide
                             (process_binary_id process = ex_binary_id (sm_expected m))))
                    SME.CreatedProcessIdentityMismatch) in
  let! state := sm_transition "record suspended target" [SLS.Provisioning]
                  SLS.TargetCreatedSuspended in
  do! supd (sm_set_target_creation (Some (Created process))) in
  sret state.

Definition accept_attestation (actual : SandboxAttestation)
    : sandbox_op SandboxLifecycleState :=
  do! sm_require_state "accept attestation" [SLS.TargetCreatedSuspended] in
  let! p := sread (λ m, ok_or (created_process m) SME.CreatedProcessIdentityMissing) in
  do! sread (λ m, map_err SME.Attestation (validate_exact (sm_expected m) actual p)) in
  do! supd (sm_set_accepted (Some actual)) in
  do! supd (sm_set_state SLS.AttestationAccepted) in
  sget sm_state.

Definition sm_mark_running : sandbox_op SandboxLifecycleState :=
  do! sread (λ m, fail_if (bool_decide (sm_accepted_attestation m = None))
                    SME.AttestationNotAccepted) in
  sm_transition "mark target running" [SLS.AttestationAccepted; SLS.Running] SLS.Running.

Definition sm_mark_failed : sandbox_op SandboxLifecycleState :=
  do! sread (λ m, fail_if (bool_decide (sm_state m = SLS.Closed))
                    (SME.InvalidTransition (sm_state m) "mark failed")) in
  do! sread (λ m, fail_if (bool_decide (sm_target_creation m = None))
                    SME.TargetCreationOutcomeMissing) in
  do! supd (sm_set_state SLS.Failed) in
  sget sm_state.

Definition begin_cleanup : sandbox_op SandboxLifecycleState :=
  λ m, if bool_decide (sm_state m = SLS.Cleanup) then (Ok (sm_state m), m)
       else if bool_decide (sm_state m = SLS.Closed)
       then (Err (SME.InvalidTransition (sm_state m) "begin cleanup"), m)
       else let m' := sm_set_state SLS.Cleanup m in (Ok (sm_state m'), m').

Definition sm_validate_cleanup_receipt (receipt : SandboxCleanupReceipt) (m : SandboxMachine)
    : result unit SandboxMachineError :=
  let? t := ok_or (sm_target_creation m) SME.TargetCreationOutcomeMissing in
  map_err SME.Cleanup (receipt_validate_against receipt (sm_expected m) (outcome_process t)).

Definition sm_close (receipt : SandboxCleanupReceipt) : sandbox_op SandboxLifecycleState :=
  do! sm_require_state "close" [SLS.Cleanup] in
  do! sread (sm_validate_cleanup_receipt receipt) in
  do! slift (fail_if (negb (bool_decide (rc_outcome receipt = Complete)))
               SME.CleanupIncomplete) in
  do! supd (sm_set_state SLS.Closed) in
  sget sm_state.
