(* ===== verification/SandboxPolicyTheory.v ===== *)
(** Theorems about sandbox policies: what an accepted policy guarantees, and
    that its canonical encoding, hence its digest, determines it.  The
    definitions are those of [Sandbox.v]. *)

From S2P Require Import Prelude Identity Sandbox.
Open Scope Z_scope.

(** ** Policies *)

(** Guarantees every policy must require, given its network mode and
    boundary. *)
Definition mandatory_guarantees (p : SandboxPolicy) : list SandboxGuarantee :=
  [RollbackOnClose; ResourceLimits; ChildProcessControl; ProcessMitigations;
   JobAssignmentAtCreation; network_guarantee (sp_network p)]
  ++ match sp_required_boundary p with
     | UserMode => [FileSystemRedirection; RegistryRedirection]
     | Hypervisor => [DisposableFileSystem; DisposableRegistry; HypervisorBoundary]
     end.

Record valid_limits (r : SandboxResourceLimits) : Prop := {
  vl_memory : 32 * MIB ≤ rl_memory_bytes r ≤ 128 * GIB;
  vl_disk : 16 * MIB ≤ rl_disk_bytes r ≤ 512 * GIB;
  vl_processes : 1 ≤ rl_active_process_limit r ≤ 128;
  vl_cpu : 1 ≤ rl_cpu_rate_basis_points r ≤ 10000;
  vl_wall : 1000 ≤ rl_wall_clock_millis r ≤ 86400000
}.

Definition valid_descriptor (d : SandboxProviderDescriptor) : Prop :=
  sd_guarantees d ≠ ∅ ∧ is_reserved_provider_id (sd_id d) = false.

(** The declarative contract of an acceptable policy. *)
Record valid_policy (p : SandboxPolicy) : Prop := {
  vp_limits : valid_limits (sp_resources p);
  vp_rollback : sp_rollback_on_close p = true;
  vp_approval : approval_session_id (sp_policy_approval p) = sp_session_id p;
  vp_descriptor : ∀ d, sp_provider p = Registered d → valid_descriptor d;
  vp_boundary : provider_boundary (sp_provider p) = sp_required_boundary p;
  vp_local_network : ¬ (sp_provider p = LocalAppContainer ∧ sp_network p = IsolatedSimulation);
  vp_strict : sp_process_mitigations p = StrictV1 →
    sp_dynamic_code p = Prohibit ∧ sp_win32k p = Disable;
  vp_mandatory : ∀ g, g ∈ mandatory_guarantees p → g ∈ sp_required_guarantees p;
  vp_network_excl : conflicting_network (sp_network p) ∉ sp_required_guarantees p;
  vp_user_mode : sp_required_boundary p = UserMode →
    (HypervisorBoundary ∉ sp_required_guarantees p) ∧ sp_vm_identity p = None;
  vp_hypervisor : sp_required_boundary p = Hypervisor →
    ∃ v, sp_vm_identity p = Some v ∧ vm_channel_protocol_version v ≠ 0;
  vp_supported : ∀ g, g ∈ sp_required_guarantees p → provider_supports (sp_provider p) g = true
}.

Lemma all_guarantees_complete g : g ∈ all_guarantees.
Proof. destruct g; set_solver. Qed.

Lemma guarantee_elems_spec s g : g ∈ guarantee_elems s ↔ g ∈ s.
Proof.
  unfold guarantee_elems. rewrite list_elem_of_filter.
  pose proof (all_guarantees_complete g). naive_solver.
Qed.

Lemma require_guarantee_ok gs g u : require_guarantee gs g = Ok u ↔ g ∈ gs.
Proof. unfold require_guarantee. destruct u. case_bool_decide; naive_solver. Qed.

Lemma require_guarantees_ok gs l u :
  require_guarantees gs l = Ok u ↔ Forall (λ g, g ∈ gs) l.
Proof.
  induction l as [|g l IH]; simpl; [destruct u; naive_solver|].
  rewrite result_bind_ok, Forall_cons_iff. setoid_rewrite require_guarantee_ok.
  setoid_rewrite IH. naive_solver.
Qed.

Lemma check_supported_ok p l u :
  check_supported p l = Ok u ↔ ∀ g, g ∈ l → provider_supports p g = true.
Proof.
  induction l as [|g l IH]; simpl.
  - destruct u. setoid_rewrite elem_of_nil. naive_solver.
  - setoid_rewrite elem_of_cons. destruct (provider_supports p g) eqn:Hg.
    + rewrite IH. split; [by intros H x [->|Hx]; auto|by intros H x Hx; apply H; right].
    + split; [done|]. intros H. specialize (H g (or_introl eq_refl)). congruence.
Qed.

Lemma resource_limits_validate_ok r u : resource_limits_validate r = Ok u ↔ valid_limits r.
Proof.
  unfold resource_limits_validate. destruct u. split.
  - intros H. rust_inv H. by constructor.
  - intros []; rust_ok; lia.
Qed.

Lemma descriptor_validate_ok d u : descriptor_validate d = Ok u ↔ valid_descriptor d.
Proof.
  unfold descriptor_validate, valid_descriptor. destruct u.
  case_bool_decide; simpl; destruct (is_reserved_provider_id _); naive_solver.
Qed.

Lemma vm_identity_validate_ok v u :
  vm_identity_validate v = Ok u ↔ vm_channel_protocol_version v ≠ 0.
Proof. unfold vm_identity_validate. autorewrite with rust. done. Qed.

#[export] Hint Rewrite require_guarantee_ok require_guarantees_ok check_supported_ok
  resource_limits_validate_ok descriptor_validate_ok vm_identity_validate_ok : rust.

Lemma policy_check_provider_ok p u :
  policy_check_provider p = Ok u ↔ ∀ d, sp_provider p = Registered d → valid_descriptor d.
Proof.
  unfold policy_check_provider. destruct u, (sp_provider p); autorewrite with rust; naive_solver.
Qed.

Lemma policy_check_common_ok p u :
  policy_check_common p = Ok u ↔
  ∀ g, g ∈ [RollbackOnClose; ResourceLimits; ChildProcessControl; ProcessMitigations;
            JobAssignmentAtCreation] → g ∈ sp_required_guarantees p.
Proof. unfold policy_check_common. rewrite require_guarantees_ok. apply list.Forall_forall. Qed.

Lemma policy_check_boundary_ok p u :
  policy_check_boundary p = Ok u ↔
  match sp_required_boundary p with
  | UserMode =>
      FileSystemRedirection ∈ sp_required_guarantees p
      ∧ RegistryRedirection ∈ sp_required_guarantees p
      ∧ HypervisorBoundary ∉ sp_required_guarantees p
  | Hypervisor =>
      DisposableFileSystem ∈ sp_required_guarantees p
      ∧ DisposableRegistry ∈ sp_required_guarantees p
      ∧ HypervisorBoundary ∈ sp_required_guarantees p
  end.
Proof.
  unfold policy_check_boundary. destruct u, (sp_required_boundary p).
  - split; [intros H; rust_inv H; done|intros (?&?&?); rust_ok].
  - rewrite require_guarantees_ok, !Forall_cons_iff. naive_solver.
Qed.

Lemma policy_check_vm_ok p u :
  policy_check_vm p = Ok u ↔
  match sp_required_boundary p with
  | UserMode => sp_vm_identity p = None
  | Hypervisor => ∃ v, sp_vm_identity p = Some v ∧ vm_channel_protocol_version v ≠ 0
  end.
Proof.
  unfold policy_check_vm.
  destruct u, (sp_required_boundary p), (sp_vm_identity p); autorewrite with rust; naive_solver.
Qed.

#[export] Hint Rewrite policy_check_provider_ok policy_check_common_ok policy_check_boundary_ok
  policy_check_vm_ok : rust.

Lemma policy_validate_ok p : policy_validate p = Ok tt ↔ valid_policy p.
Proof.
  unfold policy_validate. split.
  - intros H. rust_inv H. constructor; try done.
    + destruct (sp_dynamic_code p), (sp_win32k p); naive_solver.
    + unfold mandatory_guarantees. intros g. destruct (sp_required_boundary p); set_solver.
    + intros Hb. rewrite Hb in *. naive_solver.
    + intros Hb. by rewrite Hb in *.
    + intros g. rewrite <-guarantee_elems_spec. auto.
  - intros [? ? ? ? ? ? Hstrict Hmand ? Hu Hh Hsup]. rust_ok.
    + naive_solver.
    + intros g Hg. apply Hmand. unfold mandatory_guarantees. set_solver.
    + apply Hmand. unfold mandatory_guarantees. set_solver.
    + unfold mandatory_guarantees in Hmand. destruct (sp_required_boundary p); set_solver.
    + destruct (sp_required_boundary p); naive_solver.
    + intros g. rewrite guarantee_elems_spec. auto.
Qed.

(** A sandbox policy passes validation exactly when it satisfies the
    declarative contract: limits in range, mandatory rollback, the approval of
    this very session, a provider of the required boundary that supplies every
    required guarantee, every mandatory guarantee required and no conflicting
    one, and a VM identity exactly when the boundary is a hypervisor. *)
Theorem policy_validate_spec p : policy_validate p = Ok tt ↔ valid_policy p.
Proof. apply policy_validate_ok. Qed.

(** ** The canonical encoding

    The values Rust's types admit: every identifier newtype was accepted by
    its constructor and every integer fits its width. *)

Definition typed_provider (p : SandboxProviderSelection) : Prop :=
  match p with
  | Registered d =>
      valid_identifier MAX_PROVIDER_ID_BYTES (sd_id d)
      ∧ valid_identifier MAX_BUILD_ID_BYTES (sd_build_identity d)
  | _ => True
  end.

Definition typed_vm (o : option VmIsolationIdentity) : Prop :=
  match o with
  | Some v =>
      valid_identifier MAX_VM_ID_BYTES (vm_sealed_image_id v)
      ∧ valid_hex64 (vm_sealed_image_digest v)
      ∧ valid_identifier MAX_VM_ID_BYTES (vm_differencing_disk_id v)
      ∧ valid_hex64 (vm_channel_nonce v)
      ∧ 0 ≤ vm_channel_protocol_version v ≤ u16_max
      ∧ valid_identifier MAX_BUILD_ID_BYTES (vm_guest_agent_build v)
  | None => True
  end.

Record typed_policy (p : SandboxPolicy) : Prop := {
  tp_session : 0 ≤ sp_session_id p ≤ u64_max;
  tp_nonce : valid_identifier MAX_ACK_ID_BYTES (approval_nonce (sp_policy_approval p));
  tp_provider : typed_provider (sp_provider p);
  tp_vm : typed_vm (sp_vm_identity p)
}.

(** The bytes of each field, in the order they are hashed. *)
Definition enc_boundary (b : IsolationBoundary) : list Z :=
  [match b with UserMode => 1 | Hypervisor => 2 end].
Definition enc_network (n : SandboxNetworkMode) : list Z :=
  [match n with Disabled => 1 | IsolatedSimulation => 2 end].
Definition enc_mitigations (m : ProcessMitigationProfile) : list Z :=
  [match m with StrictV1 => 1 | CompatibilityV1 => 2 end].
Definition enc_children (c : ChildProcessProfile) : list Z :=
  [match c with Deny => 1 | SameSandboxOnly => 2 end].
Definition enc_dynamic_code (d : DynamicCodeProfile) : list Z :=
  [match d with Prohibit => 1 | MicrosoftSignedOnly => 2 | AllowDynamicCode => 3 end].
Definition enc_win32k (w : Win32kProfile) : list Z :=
  [match w with Disable => 1 | AllowWin32k => 2 end].
Definition enc_bool (b : bool) : list Z := [if b then 1 else 0].
Definition enc_text (s : list Z) : list Z := counted (utf8_encode s).
Definition enc_guarantees (gs : gset SandboxGuarantee) : list Z :=
  le_bytes 4 (zlen (guarantee_elems gs)) ++ (guarantee_tag <$> guarantee_elems gs).
Definition enc_provider (p : SandboxProviderSelection) : list Z :=
  match p with
  | LocalAppContainer => [1]
  | WindowsSandbox => [2]
  | HyperV => [3]
  | Registered d =>
      [4] ++ enc_text (sd_id d) ++ enc_boundary (sd_boundary d)
      ++ enc_guarantees (sd_guarantees d) ++ enc_text (sd_build_identity d)
  end.
Definition enc_vm (o : option VmIsolationIdentity) : list Z :=
  match o with
  | Some v =>
      enc_bool true ++ enc_text (vm_sealed_image_id v) ++ enc_text (vm_sealed_image_digest v)
      ++ enc_text (vm_differencing_disk_id v) ++ enc_text (vm_channel_nonce v)
      ++ le_bytes 2 (vm_channel_protocol_version v) ++ enc_text (vm_guest_agent_build v)
  | None => enc_bool false
  end.

Definition policy_encoding (p : SandboxPolicy) (binary_id : list Z) : list Z :=
  enc_text (str "resymbol-sandbox-policy")
  ++ le_bytes 2 SANDBOX_POLICY_DIGEST_VERSION
  ++ enc_text binary_id
  ++ le_bytes 8 (sp_session_id p)
  ++ enc_text (approval_nonce (sp_policy_approval p))
  ++ enc_provider (sp_provider p)
  ++ enc_boundary (sp_required_boundary p)
  ++ enc_guarantees (sp_required_guarantees p)
  ++ enc_network (sp_network p)
  ++ le_bytes 8 (rl_memory_bytes (sp_resources p))
  ++ le_bytes 8 (rl_disk_bytes (sp_resources p))
  ++ le_bytes 4 (rl_active_process_limit (sp_resources p))
  ++ le_bytes 2 (rl_cpu_rate_basis_points (sp_resources p))
  ++ le_bytes 8 (rl_wall_clock_millis (sp_resources p))
  ++ enc_mitigations (sp_process_mitigations p)
  ++ enc_children (sp_child_processes p)
  ++ enc_dynamic_code (sp_dynamic_code p)
  ++ enc_win32k (sp_win32k p)
  ++ enc_bool (sp_rollback_on_close p)
  ++ enc_vm (sp_vm_identity p).

(** [absorbs c bs]: running [c] appends exactly [bs] to the absorbed bytes. *)
Definition absorbs (c : hashing) (bs : list Z) : Prop := ∀ h, c h = (Ok tt, h ++ bs).

Lemma absorbs_bind c k bs cs : absorbs c bs → absorbs k cs → absorbs (do! c in k) (bs ++ cs).
Proof. intros Hc Hk h. unfold sbind. by rewrite Hc, Hk, app_assoc. Qed.

Lemma absorbs_update bs : absorbs (cd_update bs) bs.
Proof. done. Qed.

Lemma absorbs_u32_len n msg k bs :
  n ≤ u32_max → absorbs (k n) bs → absorbs (let! m := u32_len n msg in k m) bs.
Proof.
  intros Hn Hk h. unfold sbind, u32_len, slift. simpl.
  destruct (Z.leb_spec n u32_max); [|lia]. apply Hk.
Qed.

Lemma absorbs_text s : str_len s ≤ u32_max → absorbs (cd_text s) (enc_text s).
Proof. intros Hs. by apply absorbs_u32_len, absorbs_bind. Qed.

Lemma absorbs_guarantees gs : absorbs (cd_guarantees gs) (enc_guarantees gs).
Proof.
  apply absorbs_u32_len.
  - unfold zlen, u32_max.
    pose proof (length_filter (λ g, g ∈ gs) all_guarantees) as Hlen.
    unfold guarantee_elems. simpl in Hlen. lia.
  - apply absorbs_bind; [done|].
    induction (guarantee_elems gs) as [|g l IH]; [intros h; by rewrite app_nil_r|].
    apply (absorbs_bind _ _ [guarantee_tag g]); done.
Qed.

Lemma valid_identifier_len n s : n ≤ u32_max → valid_identifier n s → str_len s ≤ u32_max.
Proof.
  intros Hn Hs. unfold str_len. rewrite (valid_identifier_utf8 n) by done.
  destruct Hs as (_ & Hlen & _). lia.
Qed.

Lemma valid_hex64_len s : valid_hex64 s → str_len s ≤ u32_max.
Proof.
  intros Hs. unfold str_len, zlen. rewrite valid_hex64_utf8 by done.
  destruct Hs as [-> _]. done.
Qed.

Ltac text_len :=
  first [by apply valid_hex64_len
        |eapply valid_identifier_len; [|eassumption]; vm_compute; congruence
        |vm_compute; congruence].

(** Runs a sequence of hashing calls against the encoding of its fields. *)
Ltac emit_field :=
  first [apply absorbs_guarantees | apply absorbs_update | apply absorbs_text; text_len].
Ltac emit_fields := repeat (apply absorbs_bind; [emit_field|]); try emit_field.

Lemma absorbs_provider p : typed_provider p → absorbs (cd_provider p) (enc_provider p).
Proof.
  destruct p as [| | |d]; intros Hp; try apply absorbs_update.
  destruct Hp. unfold cd_provider, enc_provider. emit_fields.
Qed.

Lemma absorbs_vm o : typed_vm o → absorbs (cd_vm_identity o) (enc_vm o).
Proof.
  destruct o as [v|]; [|intros; apply absorbs_update].
  intros (?&?&?&?&?&?). unfold cd_vm_identity, enc_vm. emit_fields.
Qed.

(** On well-typed values the hashed byte string is the field-by-field
    encoding; no length conversion panics. *)
Lemma cd_policy_emits p b :
  typed_policy p → valid_hex64 b → absorbs (cd_policy p b) (policy_encoding p b).
Proof.
  intros [Hs Hn Hp Hv] Hb. unfold cd_policy, policy_encoding. emit_fields.
  apply absorbs_bind; [by apply absorbs_provider|]. emit_fields. by apply absorbs_vm.
Qed.

(** *** Injectivity *)

(** The one-byte fields. *)
Ltac inj_byte := apply prefix_inj_fixed with 1%nat; [done|by intros [] []].

Lemma prefix_inj_boundary : prefix_inj (λ _, True) enc_boundary.
Proof. inj_byte. Qed.
Lemma prefix_inj_network : prefix_inj (λ _, True) enc_network.
Proof. inj_byte. Qed.
Lemma prefix_inj_mitigations : prefix_inj (λ _, True) enc_mitigations.
Proof. inj_byte. Qed.
Lemma prefix_inj_children : prefix_inj (λ _, True) enc_children.
Proof. inj_byte. Qed.
Lemma prefix_inj_dynamic_code : prefix_inj (λ _, True) enc_dynamic_code.
Proof. inj_byte. Qed.
Lemma prefix_inj_win32k : prefix_inj (λ _, True) enc_win32k.
Proof. inj_byte. Qed.
Lemma prefix_inj_bool : prefix_inj (λ _, True) enc_bool.
Proof. inj_byte. Qed.

Definition text_ok (s : list Z) : Prop := utf8_encode s = s ∧ str_len s ≤ u32_max.

Lemma valid_hex64_text s : valid_hex64 s → text_ok s.
Proof. intros H. split; [by apply valid_hex64_utf8|by apply valid_hex64_len]. Qed.

Lemma valid_identifier_text n s : n ≤ u32_max → valid_identifier n s → text_ok s.
Proof.
  intros Hn H. split; [by eapply valid_identifier_utf8|by eapply valid_identifier_len].
Qed.

Ltac solve_text :=
  first [by apply valid_hex64_text
        |eapply valid_identifier_text; [|eassumption]; vm_compute; congruence
        |split; vm_compute; congruence].

Lemma prefix_inj_text :
  prefix_inj text_ok enc_text.
Proof.
  intros x y r s [Hx Hx'] [Hy Hy'] Heq. unfold enc_text, str_len in *.
  apply prefix_inj_counted in Heq as [Heq ->]; [|done|done].
  rewrite Hx, Hy in Heq. done.
Qed.

Lemma guarantee_elems_inj s t : guarantee_elems s = guarantee_elems t → s = t.
Proof. intros Heq. apply set_eq. intros g. by rewrite <-!guarantee_elems_spec, Heq. Qed.

#[local] Instance guarantee_tag_inj : Inj (=) (=) guarantee_tag.
Proof. intros [] []; naive_solver. Qed.

Lemma prefix_inj_guarantees : prefix_inj (λ _, True) enc_guarantees.
Proof.
  intros x y r s _ _ Heq. unfold enc_guarantees in Heq. rewrite <-!app_assoc in Heq.
  apply prefix_inj_le_bytes in Heq as [Hlen Heq].
  - apply app_inj_1 in Heq as [Heq ->];
      [|rewrite !length_fmap; unfold zlen in Hlen; lia].
    apply (list_fmap_eq_inj _ _) in Heq. split; [by apply guarantee_elems_inj|done].
  - split; [unfold zlen; lia|]. pose proof (length_filter (λ g, g ∈ x) all_guarantees) as Hf.
    unfold guarantee_elems, zlen. simpl in Hf. lia.
  - split; [unfold zlen; lia|]. pose proof (length_filter (λ g, g ∈ y) all_guarantees) as Hf.
    unfold guarantee_elems, zlen. simpl in Hf. lia.
Qed.

(** Cuts one field off both sides of an equation between encodings. *)
Ltac cut_with lem H side := apply lem in H as [? H]; [|side|side].
Ltac cut_width :=
  unfold SANDBOX_POLICY_DIGEST_VERSION, u16_max, u64_max, GIB, MIB in *; simpl; lia.
Ltac cut_field H :=
  first
    [ cut_with prefix_inj_text H solve_text
    | cut_with prefix_inj_guarantees H done
    | cut_with prefix_inj_le_bytes H cut_width
    | cut_with prefix_inj_boundary H done
    | cut_with prefix_inj_network H done
    | cut_with prefix_inj_mitigations H done
    | cut_with prefix_inj_children H done
    | cut_with prefix_inj_dynamic_code H done
    | cut_with prefix_inj_win32k H done
    | cut_with prefix_inj_bool H done
    ].

Lemma prefix_inj_provider : prefix_inj typed_provider enc_provider.
Proof.
  intros x y r s Hx Hy Heq.
  destruct x as [| | |[i b g h]], y as [| | |[i' b' g' h']]; try discriminate Heq;
    try (simpl in Heq; injection Heq as ->; done).
  destruct Hx, Hy. unfold enc_provider in Heq. rewrite <-!app_assoc in Heq.
  apply app_inj_1 in Heq as [_ Heq]; [|done].
  cbn [sd_id sd_boundary sd_guarantees sd_build_identity] in *.
  repeat cut_field Heq. by subst.
Qed.

Lemma prefix_inj_vm : prefix_inj typed_vm enc_vm.
Proof.
  intros x y r s Hx Hy Heq.
  destruct x as [[a1 a2 a3 a4 a5 a6]|], y as [[b1 b2 b3 b4 b5 b6]|]; try discriminate Heq;
    [|simpl in Heq; by injection Heq as ->].
  destruct Hx as (?&?&?&?&?&?), Hy as (?&?&?&?&?&?). unfold enc_vm in Heq.
  rewrite <-!app_assoc in Heq.
  cbn [vm_sealed_image_id vm_sealed_image_digest vm_differencing_disk_id vm_channel_nonce
       vm_channel_protocol_version vm_guest_agent_build] in *.
  repeat cut_field Heq. by subst.
Qed.

(** The canonical byte string determines the policy and the target. *)
Lemma policy_encoding_inj p q b c :
  typed_policy p → typed_policy q → valid_policy p → valid_policy q →
  valid_hex64 b → valid_hex64 c →
  policy_encoding p b = policy_encoding q c → p = q ∧ b = c.
Proof.
  intros [] [] [[] ? Hap] [[] ? Haq] Hb Hc Heq.
  apply (f_equal (λ l, l ++ [])) in Heq. unfold policy_encoding in Heq.
  rewrite <-!app_assoc in Heq.
  do 5 cut_field Heq. cut_with prefix_inj_provider Heq done. do 13 cut_field Heq.
  cut_with prefix_inj_vm Heq done.
  destruct p as [? [] ? ? ? ? []], q as [? [] ? ? ? ? []]; simpl in *. by simplify_eq.
Qed.

Section digest.
Context `{Sha256Spec}.

(** On a well-typed accepted policy the digest is the hexadecimal SHA-256 of
    the canonical encoding; neither of its [expect] calls can panic. *)
Lemma policy_digest_run p b :
  typed_policy p → valid_hex64 b → valid_policy p →
  policy_digest p b = Ok (lower_hex (sha256 (policy_encoding p b))).
Proof.
  intros Ht Hb Hv. unfold policy_digest.
  rewrite (proj2 (policy_validate_ok p) Hv). simpl.
  rewrite (cd_policy_emits p b Ht Hb). simpl. unfold cd_finish.
  destruct (sha256_output (policy_encoding p b)) as [Hl Hby].
  by rewrite (proj2 (PolicyDigest_new_ok _ _) (conj eq_refl (lower_hex_valid _ Hl Hby))).
Qed.

Lemma policy_digest_valid p b d : policy_digest p b = Ok d → valid_policy p.
Proof.
  unfold policy_digest. intros Hd. apply result_bind_ok in Hd as ([] & Hd & _).
  by apply policy_validate_ok.
Qed.

(** C36: the policy digest binds the policy and the exact target.  Two
    well-typed policies for two binaries that are issued the same digest are
    the same policy for the same binary, or else the two byte strings their
    digests hashed are themselves a SHA-256 collision: no field is left out of
    the hashed bytes and no two fields can trade bytes. *)
Theorem policy_digest_binds p q b c d :
  typed_policy p → typed_policy q → valid_hex64 b → valid_hex64 c →
  policy_digest p b = Ok d → policy_digest q c = Ok d →
  (p = q ∧ b = c)
  ∨ ((cd_policy p b []).2 ≠ (cd_policy q c []).2
     ∧ sha256 (cd_policy p b []).2 = sha256 (cd_policy q c []).2).
Proof.
  intros Htp Htq Hb Hc Hp Hq.
  pose proof (policy_digest_valid _ _ _ Hp) as Hvp.
  pose proof (policy_digest_valid _ _ _ Hq) as Hvq.
  rewrite policy_digest_run in Hp, Hq by done. rewrite <-Hp in Hq. injection Hq as Hhex.
  apply lower_hex_inj in Hhex; [|apply sha256_output..].
  destruct (decide (policy_encoding q c = policy_encoding p b)) as [Heq|Hne].
  - left. symmetry in Heq. by apply policy_encoding_inj.
  - right. rewrite (cd_policy_emits p b), (cd_policy_emits q c) by done. done.
Qed.
End digest.
