(* ===== verification/SandboxLifecycle.v ===== *)
(** Theorems about the sandbox lifecycle reducer of [Sandbox.v]: a validated
    policy always yields a reducer, every call is a guarded transition, no
    target runs without its one exact attestation, and a reducer closes only
    on a complete cleanup receipt. *)

From S2P Require Import Prelude Identity Sandbox SandboxPolicyTheory.
Open Scope Z_scope.

(** ** The lifecycle reducer *)

Lemma forallb_elems f s :
  forallb f (guarantee_elems s) = true ↔ ∀ g, g ∈ s → f g = true.
Proof.
  rewrite forallb_Forall, list.Forall_forall. by setoid_rewrite guarantee_elems_spec.
Qed.

Lemma is_ok_unit {E} (r : result unit E) : is_ok r = true ↔ r = Ok tt.
Proof. destruct r as [[]| |]; naive_solver. Qed.

#[export] Hint Rewrite forallb_elems @is_ok_unit : rust.

(** A validated policy always yields a usable lifecycle reducer: the
    expected attestation built from it passes the reducer's own consistency
    check, so opening a sandboxed launch never fails there. *)
Theorem valid_policy_admits_machine `{Sha256} p b h e ex :
  from_policy b p h e = Ok ex →
  SandboxMachine_new ex = Ok (mkSandboxMachine ex SLS.Requested None None).
Proof.
  unfold from_policy. intros Hex. apply result_bind_ok in Hex as (d & Hd & Hex). simplify_eq.
  unfold policy_digest in Hd. apply result_bind_ok in Hd as ([] & Hd & _).
  apply policy_validate_ok in Hd as [? ? ? Hdesc Hb ? ? Hm ? Hu Hh Hs].
  unfold SandboxMachine_new. simpl.
  destruct (_ || _) eqn:Hc; [exfalso|done]. apply not_false_iff_true in Hc. apply Hc. clear Hc.
  rust_ok.
  - apply Hm. unfold mandatory_guarantees. set_solver.
  - destruct (sp_provider p); [done..|]. autorewrite with rust. by apply Hdesc.
  - destruct (sp_required_boundary p); [autorewrite with rust; naive_solver|].
    destruct (Hh eq_refl) as (v & -> & ?). by autorewrite with rust.
Qed.

(** The one attestation that an expectation admits for a created process. *)
Definition attestation_for (ex : ExpectedSandboxAttestation) (p : ProcessIdentity)
    : SandboxAttestation :=
  {| at_binary_id := ex_binary_id ex;
     at_process := p;
     at_session_id := ex_session_id ex;
     at_provisioning_epoch := ex_provisioning_epoch ex;
     at_policy_digest := ex_policy_digest ex;
     at_provider := ex_provider ex;
     at_boundary := ex_boundary ex;
     at_guarantees := ex_guarantees ex;
     at_job_assigned_at_creation := ex_job_assigned_at_creation ex;
     at_helper_build := ex_helper_build ex;
     at_vm_identity := ex_vm_identity ex |}.

Lemma validate_exact_ok ex a p u :
  validate_exact ex a p = Ok u ↔
  process_binary_id p = ex_binary_id ex ∧ a = attestation_for ex p.
Proof.
  unfold validate_exact. destruct u. split.
  - intros H. rust_inv H. destruct a, ex; simpl in *; by simplify_eq.
  - intros [Hp ->]. rust_ok.
Qed.

(** Attestation matching is exact on every field: an attestation is
    accepted for a created process exactly when the process runs the expected
    binary and the attestation is the single one the expectation admits. *)
Theorem validate_exact_spec ex a p :
  validate_exact ex a p = Ok tt ↔
  process_binary_id p = ex_binary_id ex ∧ a = attestation_for ex p.
Proof. apply validate_exact_ok. Qed.

(** Calls a session makes on the reducer, each of which may fail. *)
Inductive sandbox_call : Type :=
  | CallBeginProvisioning
  | CallTargetCreated (p : ProcessIdentity)
  | CallAcceptAttestation (a : SandboxAttestation)
  | CallMarkRunning
  | CallMarkFailed
  | CallBeginCleanup
  | CallClose (r : SandboxCleanupReceipt)
  | CallRecordNotCreated
  | CallRetainFailure (o : SandboxTargetCreationOutcome).

Definition sandbox_exec (c : sandbox_call) : sandbox_op unit :=
  match c with
  | CallBeginProvisioning => do! begin_provisioning in sret tt
  | CallTargetCreated p => do! sm_target_created_suspended p in sret tt
  | CallAcceptAttestation a => do! accept_attestation a in sret tt
  | CallMarkRunning => do! sm_mark_running in sret tt
  | CallMarkFailed => do! sm_mark_failed in sret tt
  | CallBeginCleanup => do! begin_cleanup in sret tt
  | CallClose r => do! sm_close r in sret tt
  | CallRecordNotCreated => record_target_not_created
  | CallRetainFailure o => retain_failure_target_creation o
  end.

(** The machine after a sequence of calls, failed calls included. *)
Definition sandbox_calls (m : SandboxMachine) (l : list sandbox_call) : SandboxMachine :=
  foldl (λ m c, (sandbox_exec c m).2) m l.

(** What holds of the reducer between calls. *)
Record sandbox_inv (ex : ExpectedSandboxAttestation) (m : SandboxMachine) : Prop := {
  si_expected : sm_expected m = ex;
  si_accepted : ∀ a, sm_accepted_attestation m = Some a →
    ∃ p, sm_target_creation m = Some (Created p) ∧ a = attestation_for ex p;
  si_created : ∀ p, sm_target_creation m = Some (Created p) →
    process_binary_id p = ex_binary_id ex ∧ sm_state m ≠ SLS.Requested
    ∧ sm_state m ≠ SLS.Provisioning;
  si_suspended : sm_state m = SLS.TargetCreatedSuspended → is_Some (created_process m);
  si_running : sm_state m = SLS.AttestationAccepted ∨ sm_state m = SLS.Running →
    is_Some (sm_accepted_attestation m)
}.

(** When a call succeeds and what it then does: the specification of the
    reducer as guarded transitions. *)
Definition call_guard (c : sandbox_call) (m : SandboxMachine) : Prop :=
  match c with
  | CallBeginProvisioning => sm_state m = SLS.Requested
  | CallTargetCreated p =>
      sm_state m = SLS.Provisioning ∧ sm_target_creation m = None
      ∧ process_binary_id p = ex_binary_id (sm_expected m)
  | CallAcceptAttestation a =>
      sm_state m = SLS.TargetCreatedSuspended
      ∧ ∃ p, sm_target_creation m = Some (Created p)
             ∧ process_binary_id p = ex_binary_id (sm_expected m)
             ∧ a = attestation_for (sm_expected m) p
  | CallMarkRunning =>
      (sm_state m = SLS.AttestationAccepted ∨ sm_state m = SLS.Running)
      ∧ sm_accepted_attestation m ≠ None
  | CallMarkFailed => sm_state m ≠ SLS.Closed ∧ sm_target_creation m ≠ None
  | CallBeginCleanup => sm_state m ≠ SLS.Closed
  | CallClose r =>
      sm_state m = SLS.Cleanup ∧ rc_outcome r = Complete
      ∧ ∃ o, sm_target_creation m = Some o
             ∧ receipt_validate_against r (sm_expected m) (outcome_process o) = Ok tt
  | CallRecordNotCreated =>
      sm_state m = SLS.Provisioning
      ∧ (sm_target_creation m = None ∨ sm_target_creation m = Some NotCreated)
  | CallRetainFailure o =>
      (sm_target_creation m = None ∧ o = NotCreated) ∨ sm_target_creation m = Some o
  end.

Definition call_effect (c : sandbox_call) (m : SandboxMachine) : SandboxMachine :=
  match c with
  | CallBeginProvisioning => sm_set_state SLS.Provisioning m
  | CallTargetCreated p =>
      sm_set_target_creation (Some (Created p)) (sm_set_state SLS.TargetCreatedSuspended m)
  | CallAcceptAttestation a =>
      sm_set_state SLS.AttestationAccepted (sm_set_accepted (Some a) m)
  | CallMarkRunning => sm_set_state SLS.Running m
  | CallMarkFailed => sm_set_state SLS.Failed m
  | CallBeginCleanup => sm_set_state SLS.Cleanup m
  | CallClose _ => sm_set_state SLS.Closed m
  | CallRecordNotCreated => sm_set_target_creation (Some NotCreated) m
  | CallRetainFailure o => sm_set_target_creation (Some o) m
  end.

Lemma sm_set_state_id m : sm_set_state (sm_state m) m = m.
Proof. by destruct m. Qed.

Lemma sm_set_target_creation_id m : sm_set_target_creation (sm_target_creation m) m = m.
Proof. by destruct m. Qed.

Lemma wp_sm_require_state action allowed Q QE m :
  (sm_state m ∈ allowed → Q tt m) →
  (sm_state m ∉ allowed → QE (SME.InvalidTransition (sm_state m) action) m) →
  wp (sm_require_state action allowed) Q QE m.
Proof. intros H1 H2. unfold wp, sm_require_state, sread. case_bool_decide; auto. Qed.

Lemma created_process_some m p :
  created_process m = Some p ↔ sm_target_creation m = Some (Created p).
Proof. unfold created_process. destruct (sm_target_creation m) as [[]|]; naive_solver. Qed.

Lemma created_process_none m :
  created_process m = None ↔ ∀ p, sm_target_creation m ≠ Some (Created p).
Proof. unfold created_process. destruct (sm_target_creation m) as [[]|]; naive_solver. Qed.

#[export] Hint Rewrite created_process_some created_process_none validate_exact_ok : rust.

Ltac sandbox_wp :=
  repeat first [apply wp_sm_require_state; intros | wp_step].

Lemma validate_for_boundary_no_panic r b : no_panic (validate_for_boundary r b).
Proof. unfold validate_for_boundary. no_panic. Qed.

Lemma receipt_validate_no_panic r ex p : no_panic (receipt_validate_against r ex p).
Proof. unfold receipt_validate_against. no_panic. Qed.

#[export] Hint Resolve validate_for_boundary_no_panic receipt_validate_no_panic : nopanic.

Lemma sm_validate_cleanup_receipt_ok r m u :
  sm_validate_cleanup_receipt r m = Ok u ↔
  ∃ o, sm_target_creation m = Some o
       ∧ receipt_validate_against r (sm_expected m) (outcome_process o) = Ok tt.
Proof.
  unfold sm_validate_cleanup_receipt. destruct u. rewrite result_bind_ok.
  setoid_rewrite ok_or_ok. by setoid_rewrite map_err_ok.
Qed.

Lemma sm_validate_cleanup_receipt_no_panic r m : no_panic (sm_validate_cleanup_receipt r m).
Proof. unfold sm_validate_cleanup_receipt. no_panic. Qed.

#[export] Hint Rewrite sm_validate_cleanup_receipt_ok : rust.
#[export] Hint Resolve sm_validate_cleanup_receipt_no_panic : nopanic.

Ltac sandbox_done := first [set_solver | split; [naive_solver|done]].

Lemma sandbox_call_guarded c : guarded (sandbox_exec c) (call_guard c) (call_effect c).
Proof.
  intros m. destruct c; simpl.
  - unfold begin_provisioning, sm_transition. sandbox_wp; sandbox_done.
  - unfold sm_target_created_suspended, sm_transition. sandbox_wp; sandbox_done.
  - unfold accept_attestation. sandbox_wp; sandbox_done.
  - unfold sm_mark_running, sm_transition. sandbox_wp; sandbox_done.
  - unfold sm_mark_failed. sandbox_wp; sandbox_done.
  - unfold begin_cleanup. unfold wp, sbind. repeat case_bool_decide; simpl.
    + split; [congruence|]. destruct m; unfold sm_set_state; simpl in *; congruence.
    + split; [congruence|done].
    + done.
  - unfold sm_close. sandbox_wp; sandbox_done.
  - unfold record_target_not_created, retain_failure_target_creation. sandbox_wp; [|sandbox_done].
    unfold wp. destruct (sm_target_creation m) as [o|] eqn:Ho; [case_bool_decide|]; simplify_eq;
      rewrite <-?Ho, ?sm_set_target_creation_id; set_solver.
  - unfold wp, retain_failure_target_creation.
    destruct (sm_target_creation m) as [t|] eqn:Ht; [case_bool_decide|destruct o]; simplify_eq;
      rewrite <-?Ht, ?sm_set_target_creation_id; naive_solver.
Qed.

(** Every call on the sandbox lifecycle reducer is a guarded transition:
    it succeeds exactly when its guard holds, then has exactly the stated
    effect, and otherwise reports an error and changes nothing.  No call
    panics. *)
Theorem sandbox_exec_guarded c : guarded (sandbox_exec c) (call_guard c) (call_effect c).
Proof. apply sandbox_call_guarded. Qed.

Lemma sandbox_exec_inv ex c m :
  sandbox_inv ex m → sandbox_inv ex (sandbox_exec c m).2.
Proof.
  intros Hm. destruct (guarded_state _ _ _ m (sandbox_call_guarded c)) as [[Hg ->]|[_ ->]];
    [|done].
  destruct m as [e s t a], Hm as [H1 H2 H3 H4 H5], c; unfold created_process in *; simpl in *;
    destruct_and?; simplify_eq; split; unfold created_process; simpl; try naive_solver.
Qed.

Lemma sandbox_new_inv ex : sandbox_inv ex (mkSandboxMachine ex SLS.Requested None None).
Proof. split; naive_solver. Qed.

Lemma sandbox_calls_inv ex l m : sandbox_inv ex m → sandbox_inv ex (sandbox_calls m l).
Proof.
  revert m. induction l as [|c l IH]; intros m Hm; simpl; [done|].
  apply IH. by apply sandbox_exec_inv.
Qed.

(** No sandboxed target runs unattested.  Whatever calls are made on a
    fresh reducer, in whatever order and with whatever outcomes, if it reports
    the target running (or merely accepted) then a suspended process of the
    expected binary was recorded and the accepted attestation is the single
    one the expectation admits for that process. *)
Theorem sandbox_runs_only_attested ex m l :
  SandboxMachine_new ex = Ok m →
  sm_state (sandbox_calls m l) = SLS.Running
  ∨ sm_state (sandbox_calls m l) = SLS.AttestationAccepted →
  ∃ p, created_process (sandbox_calls m l) = Some p
       ∧ process_binary_id p = ex_binary_id ex
       ∧ sm_accepted_attestation (sandbox_calls m l) = Some (attestation_for ex p).
Proof.
  intros Hnew Hst. assert (m = mkSandboxMachine ex SLS.Requested None None) as ->.
  { unfold SandboxMachine_new in Hnew. by case_match; simplify_eq. }
  destruct (sandbox_calls_inv ex l _ (sandbox_new_inv ex)) as [_ Hacc Hcr _ Hrun].
  destruct Hrun as [a Ha]; [tauto|]. destruct (Hacc a Ha) as (p & Hp & ->).
  exists p. rewrite created_process_some. split; [done|]. split; [by apply Hcr|done].
Qed.

(** ** Cleanup receipts *)

(** What a receipt that claims completion must prove for a boundary. *)
Definition fully_clean (r : SandboxCleanupReceipt) (b : IsolationBoundary) : Prop :=
  rc_process_tree_terminated_and_reaped r = true ∧ rc_handles_closed r = true
  ∧ rc_file_system_rolled_back r = true ∧ rc_registry_rolled_back r = true
  ∧ rc_network_torn_down r = true ∧ rc_owned_paths_deleted r = true
  ∧ rc_residuals r = []
  ∧ match b with
    | UserMode =>
        rc_appcontainer_profile_deleted r = Some true
        ∧ rc_differencing_disk_discarded r = None ∧ rc_control_channel_closed r = None
    | Hypervisor =>
        rc_appcontainer_profile_deleted r = None
        ∧ rc_differencing_disk_discarded r = Some true
        ∧ rc_control_channel_closed r = Some true
    end.

Lemma validate_for_boundary_complete r b :
  rc_outcome r = Complete → validate_for_boundary r b = Ok tt → fully_clean r b.
Proof.
  unfold validate_for_boundary. intros Ho H. rust_inv H. rewrite Ho in H.
  case_match eqn:Hc; [done|]. autorewrite with rust in Hc. destruct Hc as [Hc Hres].
  unfold receipt_common_clean, receipt_provider_clean in Hc. unfold fully_clean.
  destruct b; autorewrite with rust in Hc; tauto.
Qed.

Lemma validate_for_boundary_incomplete r b :
  rc_outcome r = Incomplete → validate_for_boundary r b = Ok tt →
  rc_residuals r ≠ [] ∧ zlen (rc_residuals r) ≤ MAX_CLEANUP_RESIDUALS.
Proof.
  unfold validate_for_boundary. intros Ho H. rust_inv H. rewrite Ho in H.
  by case_bool_decide.
Qed.

(** A receipt is bound to one provisioning instance. *)
Definition receipt_bound (r : SandboxCleanupReceipt) (ex : ExpectedSandboxAttestation)
    (p : option ProcessIdentity) : Prop :=
  rc_session_id r = ex_session_id ex ∧ rc_provisioning_epoch r = ex_provisioning_epoch ex
  ∧ rc_provider r = ex_provider ex ∧ rc_policy_digest r = ex_policy_digest ex
  ∧ rc_process r = p.

Lemma receipt_validate_against_ok r ex p u :
  receipt_validate_against r ex p = Ok u ↔
  receipt_bound r ex p ∧ validate_for_boundary r (ex_boundary ex) = Ok tt.
Proof.
  unfold receipt_validate_against, receipt_bound. destruct u. split.
  - intros H. rust_inv H. naive_solver.
  - intros ((?&?&?&?&?)&?). rust_ok.
Qed.

(** A lifecycle reducer becomes closed only through a [close] call whose
    receipt is bound to this session, provisioning epoch, provider, policy
    digest and created process, claims completion, and proves every rollback
    step of its boundary with no residual. *)
Theorem sandbox_closes_only_clean c m :
  sm_state m ≠ SLS.Closed → sm_state (sandbox_exec c m).2 = SLS.Closed →
  ∃ r o, c = CallClose r ∧ sm_state m = SLS.Cleanup ∧ sm_target_creation m = Some o
         ∧ receipt_bound r (sm_expected m) (outcome_process o)
         ∧ fully_clean r (ex_boundary (sm_expected m)).
Proof.
  intros Hne. destruct (guarded_state _ _ _ m (sandbox_call_guarded c)) as [[Hg ->]|[_ ->]];
    [|done].
  destruct c; simpl; try done; intros _.
  destruct Hg as (Hs & Ho & o & Hto & Hval). apply receipt_validate_against_ok in Hval as [Hb Hv].
  exists r, o. split_and!; try done. by apply validate_for_boundary_complete.
Qed.
