(* ===== verification/Protocol.v ===== *)
(** Backend-neutral debugger commands, state tokens and correlated events.

    Models [resymbol-debugger/src/protocol.rs]: the identifier newtypes, the
    live image binding, target requests, capability reports, register
    payloads, breakpoint specifications, commands and their envelopes, session
    states with their successor relation, events and their envelopes, and the
    event sequence cursor.

    [usize] has 64 bits.  [PathBuf] values compare by components (see
    [Prelude.path_eqb]); the derived [PartialEq] of every type that holds a
    path is written out as a boolean function, the other types have decidable
    Leibniz equality. *)

From S2P Require Import Prelude Identity Sandbox.
Open Scope Z_scope.

(** ** Limits *)

Definition PROTOCOL_MAJOR : Z := 1.
Definition PROTOCOL_MINOR : Z := 7.
Definition MAX_LAUNCH_ARGUMENTS : Z := 128.
Definition MAX_LAUNCH_ARGUMENT_BYTES : Z := 256 * 1024.
Definition MAX_MEMORY_READ_BYTES : Z := 1024 * 1024.
Definition MAX_MEMORY_WRITE_BYTES : Z := 64 * 1024.
Definition MAX_REASON_BYTES : Z := 1024.
Definition MAX_CAPABILITY_STATUSES : Z := 64.
Definition MAX_REGISTERS : Z := 256.
Definition MAX_REGISTER_NAME_BYTES : Z := 32.

(** ** Enumerations mentioned by the error type *)

Module SessionStateKind.
Inductive session_state_kind : Type :=
  | Idle | Opening | AwaitingAttestation | AttestationAccepted | Offline | Dump | Snapshot
  | Observing | Stopped | Running | Pausing | Closing | Detached | Exited | Failed | Closed.
#[global] Instance session_state_kind_eq_dec : EqDecision session_state_kind.
Proof. solve_decision. Defined.
End SessionStateKind.
Abbreviation SessionStateKind := SessionStateKind.session_state_kind.
Module SSK := SessionStateKind.

Inductive DebugCapability : Type :=
  | OfflineAnalysis | DumpRead | SnapshotRead | ObserveProcess | LiveMemoryRead
  | LiveMemoryWrite | ExecutionControl | StepInto | StepOver | StepOut | RegisterRead
  | RegisterWriteCapability | SoftwareBreakpoints | HardwareBreakpoints | SandboxedLaunch
  | HostLaunch | HostAttach.
#[global] Instance DebugCapability_eq_dec : EqDecision DebugCapability.
Proof. solve_decision. Defined.

(** [DebugCapability::ALL]. *)
Definition DebugCapability_ALL : list DebugCapability :=
  [OfflineAnalysis; DumpRead; SnapshotRead; ObserveProcess; LiveMemoryRead; LiveMemoryWrite;
   ExecutionControl; StepInto; StepOver; StepOut; RegisterRead; RegisterWriteCapability;
   SoftwareBreakpoints; HardwareBreakpoints; SandboxedLaunch; HostLaunch; HostAttach].

Inductive MemoryWriteStage : Type :=
  | ChangeProtection | ProtectionRace | RevalidateExpectedBytes | WriteReplacement
  | FlushReplacement | RestoreProtection | VerifyReplacement | ValidateFinalBinding.
#[global] Instance MemoryWriteStage_eq_dec : EqDecision MemoryWriteStage.
Proof. solve_decision. Defined.

Inductive MemoryWriteRecovery : Type :=
  | NoWriteAttempted (protection_restored : bool)
  | Restored
  | Indeterminate (bytes_restored instruction_cache_flushed protection_restored : bool).
#[global] Instance MemoryWriteRecovery_eq_dec : EqDecision MemoryWriteRecovery.
Proof. solve_decision. Defined.

Module ProtocolValidationError.
Inductive protocol_error : Type :=
  | CleanupAttemptFailure (e : CleanupAttemptFailureError)
  | SandboxFailure (e : SandboxFailureValidationError)
  | ZeroIdentifier (kind : string)
  | UnsupportedProtocolVersion (major minor : Z)
  | StateGenerationOverflow
  | UnexpectedStateGeneration (expected actual : Z)
  | InvalidSessionStateTransition (from to : SessionStateKind)
  | EmptyPath
  | TooManyLaunchArguments (actual maximum : Z)
  | LaunchArgumentsTooLarge (actual maximum : Z)
  | NulLaunchArgument
  | LaunchMustStopBeforeEntry
  | TooManyCapabilityStatuses (actual maximum : Z)
  | DuplicateCapability (capability : DebugCapability)
  | MissingCapability (capability : DebugCapability)
  | InvalidReason
  | EmptyMemoryRead
  | MemoryReadTooLarge (actual maximum : Z)
  | EmptyMemoryWrite
  | MemoryWriteLengthMismatch (expected replacement : Z)
  | MemoryWriteTooLarge (actual maximum : Z)
  | AddressOverflow (address size : Z)
  | MemoryWriteConflict
  | MemoryWriteFailureRecoveryMismatch (stage : MemoryWriteStage)
      (recovery : MemoryWriteRecovery)
  | NotMemoryWriteCommand
  | InvalidRegisterName
  | TooManyRegisters (actual maximum : Z)
  | DuplicateRegisterName (name : list Z)
  | InvalidHardwareBreakpointSize (size : Z)
  | InvalidExecuteBreakpointSize (size : Z)
  | UnalignedHardwareBreakpoint (address size : Z)
  | UnexpectedSessionContext
  | MissingSessionContext
  | MissingStateToken
  | StaleSession
  | StaleStateToken
  | StaleExecutionToken
  | CommandNotAllowedInState
  | InvalidMemoryReadResult
  | MismatchedCommandCorrelation
  | UnexpectedEventSequence (expected actual : Z)
  | EventSequenceOverflow.
End ProtocolValidationError.
Abbreviation ProtocolValidationError := ProtocolValidationError.protocol_error.
Module PVE := ProtocolValidationError.

(** ** Identifiers and tokens *)

(** The [new] of the [nonzero_id!] types. *)
Definition nonzero_id_new (kind : string) (value : Z) : result Z ProtocolValidationError :=
  if negb (value =? 0) then Ok value else Err (PVE.ZeroIdentifier kind).

Definition StateGeneration_new : Z → result Z ProtocolValidationError :=
  nonzero_id_new "state generation".
Definition StopId_new : Z → result Z ProtocolValidationError := nonzero_id_new "stop".
Definition RunId_new : Z → result Z ProtocolValidationError := nonzero_id_new "run".

Definition checked_next (generation : Z) : result Z ProtocolValidationError :=
  let? next := ok_or (checked_add u64_max generation 1) PVE.StateGenerationOverflow in
  StateGeneration_new next.

Record ProtocolVersion : Type := mkProtocolVersion { pv_major : Z; pv_minor : Z }.
#[global] Instance ProtocolVersion_eq_dec : EqDecision ProtocolVersion.
Proof. solve_decision. Defined.

Definition ProtocolVersion_current : ProtocolVersion :=
  mkProtocolVersion PROTOCOL_MAJOR PROTOCOL_MINOR.

Definition version_validate (v : ProtocolVersion) : result unit ProtocolValidationError :=
  if bool_decide (v = ProtocolVersion_current) then Ok tt
  else Err (PVE.UnsupportedProtocolVersion (pv_major v) (pv_minor v)).

Record StateToken : Type := mkStateToken { st_session_id : Z; st_generation : Z }.
Record StopToken : Type := mkStopToken { stop_state : StateToken; stop_id : Z }.
Record RunToken : Type := mkRunToken { run_state : StateToken; run_id : Z }.
#[global] Instance StateToken_eq_dec : EqDecision StateToken.
Proof. solve_decision. Defined.
#[global] Instance StopToken_eq_dec : EqDecision StopToken.
Proof. solve_decision. Defined.
#[global] Instance RunToken_eq_dec : EqDecision RunToken.
Proof. solve_decision. Defined.

(** [MemoryAddress::validate_span]; the address is its [u64]. *)
Definition validate_span (address size : Z) : result unit ProtocolValidationError :=
  let? size' := ok_or (if size <=? u64_max then Some size else None)
                  (PVE.AddressOverflow address u64_max) in
  let? _end := ok_or (checked_add u64_max address size')
                 (PVE.AddressOverflow address size') in
  Ok tt.

(** ** Live image binding *)

Record LiveTargetBinding : Type := mkLiveTargetBinding {
  lb_process : ProcessIdentity;
  lb_main_module_binary_id : list Z;
  lb_actual_image_base : Z;
  lb_size_of_image : Z
}.
#[global] Instance LiveTargetBinding_eq_dec : EqDecision LiveTargetBinding.
Proof. solve_decision. Defined.

Inductive LiveTargetBindingError : Type :=
  | MainModuleIdentityMismatch
  | ZeroImageBase
  | EmptyImage
  | ImageAddressOverflow (base size_of_image : Z)
  | EmptySpan
  | RvaOutOfImage (rva size_of_image : Z)
  | RvaSpanOverflow (rva size : Z)
  | SpanOutOfImage (rva size size_of_image : Z)
  | AddressBeforeImage (address base : Z)
  | AddressOutOfImage (address base size_of_image : Z)
  | AddressSpanOverflow (address size : Z)
  | AddressSpanOutOfImage (address size image_end : Z).

Definition LiveTargetBinding_new (process : ProcessIdentity) (main_module_binary_id : list Z)
    (actual_image_base size_of_image : Z) : result LiveTargetBinding LiveTargetBindingError :=
  do? fail_if (negb (bool_decide (process_binary_id process = main_module_binary_id)))
        MainModuleIdentityMismatch in
  do? fail_if (actual_image_base =? 0) ZeroImageBase in
  do? fail_if (size_of_image =? 0) EmptyImage in
  let? _end := ok_or (checked_add u64_max actual_image_base size_of_image)
                 (ImageAddressOverflow actual_image_base size_of_image) in
  Ok (mkLiveTargetBinding process main_module_binary_id actual_image_base size_of_image).

Definition image_end (b : LiveTargetBinding) : result Z LiveTargetBindingError :=
  expect_some (checked_add u64_max (lb_actual_image_base b) (lb_size_of_image b))
    "LiveTargetBinding construction validates its image range".

Definition address_for_rva_span (b : LiveTargetBinding) (rva size : Z)
    : result Z LiveTargetBindingError :=
  do? fail_if (size =? 0) EmptySpan in
  do? fail_if (lb_size_of_image b <=? rva) (RvaOutOfImage rva (lb_size_of_image b)) in
  let? span_end := ok_or (checked_add u64_max rva size) (RvaSpanOverflow rva size) in
  do? fail_if (lb_size_of_image b <? span_end)
        (SpanOutOfImage rva size (lb_size_of_image b)) in
  ok_or (checked_add u64_max (lb_actual_image_base b) rva)
    (ImageAddressOverflow (lb_actual_image_base b) (lb_size_of_image b)).

Definition address_for_rva (b : LiveTargetBinding) (rva : Z) : result Z LiveTargetBindingError :=
  address_for_rva_span b rva 1.

Definition rva_for_address_span (b : LiveTargetBinding) (address size : Z)
    : result Z LiveTargetBindingError :=
  do? fail_if (size =? 0) EmptySpan in
  let base := lb_actual_image_base b in
  let? rva := ok_or (checked_sub address base) (AddressBeforeImage address base) in
  do? fail_if (lb_size_of_image b <=? rva)
        (AddressOutOfImage address base (lb_size_of_image b)) in
  let? span_end := ok_or (checked_add u64_max address size) (AddressSpanOverflow address size) in
  let? iend := image_end b in
  do? fail_if (iend <? span_end) (AddressSpanOutOfImage address size iend) in
  Ok rva.

Definition rva_for_address (b : LiveTargetBinding) (address : Z)
    : result Z LiveTargetBindingError :=
  rva_for_address_span b address 1.

(** ** Target requests *)

Inductive LaunchEnvironment : Type :=
  | Sandboxed (policy : SandboxPolicy)
  | HostEnvironment (risk_lease : list Z).
#[global] Instance LaunchEnvironment_eq_dec : EqDecision LaunchEnvironment.
Proof. solve_decision. Defined.

Record LaunchTarget : Type := mkLaunchTarget {
  lt_binary_id : list Z;
  lt_executable : list Z;
  lt_arguments : list (list Z);
  lt_working_directory : option (list Z);
  lt_environment : LaunchEnvironment;
  lt_stop_before_entry : bool
}.

Inductive AttachScope : Type :=
  | HostScope (process : ProcessIdentity) (risk_lease : list Z)
  | OwnedSandbox (process : ProcessIdentity) (ownership_lease : list Z).
#[global] Instance AttachScope_eq_dec : EqDecision AttachScope.
Proof. solve_decision. Defined.

Record AttachTarget : Type := mkAttachTarget {
  att_scope : AttachScope;
  att_mode : AttachMode
}.
#[global] Instance AttachTarget_eq_dec : EqDecision AttachTarget.
Proof. solve_decision. Defined.

Record DumpTarget : Type := mkDumpTarget { dump_path : list Z }.
Record OfflineTarget : Type := mkOfflineTarget { offline_path : list Z }.

Module DebugTargetRequest.
Inductive debug_target_request : Type :=
  | Launch (t : LaunchTarget)
  | Attach (t : AttachTarget)
  | Dump (t : DumpTarget)
  | Offline (t : OfflineTarget).
End DebugTargetRequest.
Abbreviation DebugTargetRequest := DebugTargetRequest.debug_target_request.
Module DTR := DebugTargetRequest.

(** Derived equality of the types that hold a [PathBuf]. *)
Definition LaunchTarget_eqb (a b : LaunchTarget) : bool :=
  bool_decide (lt_binary_id a = lt_binary_id b)
  && path_eqb (lt_executable a) (lt_executable b)
  && bool_decide (lt_arguments a = lt_arguments b)
  && option_eqb path_eqb (lt_working_directory a) (lt_working_directory b)
  && bool_decide (lt_environment a = lt_environment b)
  && bool_decide (lt_stop_before_entry a = lt_stop_before_entry b).

Definition DebugTargetRequest_eqb (a b : DebugTargetRequest) : bool :=
  match a, b with
  | DTR.Launch x, DTR.Launch y => LaunchTarget_eqb x y
  | DTR.Attach x, DTR.Attach y => bool_decide (x = y)
  | DTR.Dump x, DTR.Dump y => path_eqb (dump_path x) (dump_path y)
  | DTR.Offline x, DTR.Offline y => path_eqb (offline_path x) (offline_path y)
  | _, _ => false
  end.

Definition validate_path (path : list Z) : result unit ProtocolValidationError :=
  if bool_decide (path = []) then Err PVE.EmptyPath else Ok tt.

(** The argument loop of [LaunchTarget::validate]: a NUL ends it with an
    error, otherwise the byte total is carried on. *)
Fixpoint launch_argument_bytes (bytes : Z) (args : list (list Z))
    : result Z ProtocolValidationError :=
  match args with
  | [] => Ok bytes
  | argument :: rest =>
      do? fail_if (bool_decide (0 ∈ argument)) PVE.NulLaunchArgument in
      let? bytes' := ok_or (checked_add usize_max bytes (str_len argument))
                       (PVE.LaunchArgumentsTooLarge usize_max MAX_LAUNCH_ARGUMENT_BYTES) in
      launch_argument_bytes bytes' rest
  end.

Definition LaunchTarget_validate (t : LaunchTarget) : result unit ProtocolValidationError :=
  do? validate_path (lt_executable t) in
  do? fail_if (match lt_working_directory t with
               | Some path => bool_decide (path = [])
               | None => false
               end) PVE.EmptyPath in
  do? fail_if (MAX_LAUNCH_ARGUMENTS <? zlen (lt_arguments t))
        (PVE.TooManyLaunchArguments (zlen (lt_arguments t)) MAX_LAUNCH_ARGUMENTS) in
  let? bytes := launch_argument_bytes 0 (lt_arguments t) in
  do? fail_if (MAX_LAUNCH_ARGUMENT_BYTES <? bytes)
        (PVE.LaunchArgumentsTooLarge bytes MAX_LAUNCH_ARGUMENT_BYTES) in
  do? fail_if (negb (lt_stop_before_entry t)) PVE.LaunchMustStopBeforeEntry in
  Ok tt.

Definition target_validate (t : DebugTargetRequest) : result unit ProtocolValidationError :=
  match t with
  | DTR.Launch l => LaunchTarget_validate l
  | DTR.Attach _ => Ok tt
  | DTR.Dump d => validate_path (dump_path d)
  | DTR.Offline o => validate_path (offline_path o)
  end.

(** ** Capability reports *)

Inductive CapabilityUnavailableCode : Type :=
  | UnsupportedPlatform | ProviderUnavailableCode | PolicyConflict | TargetModeReadOnly
  | TargetArchitectureUnsupported | InsufficientAuthority | BackendUnavailable.

Inductive CapabilityAvailability : Type :=
  | Available
  | Unavailable (code : CapabilityUnavailableCode) (reason : list Z).

Record CapabilityStatus : Type := mkCapabilityStatus {
  cs_capability : DebugCapability;
  cs_availability : CapabilityAvailability
}.

(** [CapabilityReport] is its list of statuses. *)
Record CapabilityReport : Type := mkCapabilityReport { report_statuses : list CapabilityStatus }.

Definition validate_reason (reason : list Z) : result unit ProtocolValidationError :=
  if bool_decide (reason = []) || (MAX_REASON_BYTES <? str_len reason)
     || existsb is_control reason
  then Err PVE.InvalidReason
  else Ok tt.

Definition availability_validate (a : CapabilityAvailability)
    : result unit ProtocolValidationError :=
  match a with
  | Unavailable _ reason => validate_reason reason
  | Available => Ok tt
  end.

(** The first loop of [CapabilityReport::validate]; [seen] is the
    [BTreeSet] it fills. *)
Fixpoint report_scan (seen : list DebugCapability) (statuses : list CapabilityStatus)
    : result (list DebugCapability) ProtocolValidationError :=
  match statuses with
  | [] => Ok seen
  | status :: rest =>
      do? availability_validate (cs_availability status) in
      do? fail_if (bool_decide (cs_capability status ∈ seen))
            (PVE.DuplicateCapability (cs_capability status)) in
      report_scan (cs_capability status :: seen) rest
  end.

Fixpoint report_missing (seen all : list DebugCapability) : result unit ProtocolValidationError :=
  match all with
  | [] => Ok tt
  | c :: rest =>
      do? fail_if (negb (bool_decide (c ∈ seen))) (PVE.MissingCapability c) in
      report_missing seen rest
  end.

Definition report_validate (r : CapabilityReport) : result unit ProtocolValidationError :=
  do? fail_if (MAX_CAPABILITY_STATUSES <? zlen (report_statuses r))
        (PVE.TooManyCapabilityStatuses (zlen (report_statuses r)) MAX_CAPABILITY_STATUSES) in
  let? seen := report_scan [] (report_statuses r) in
  report_missing seen DebugCapability_ALL.

(** ** Breakpoints *)

Inductive HardwareAccess : Type := Execute | Write | ReadWrite.
#[global] Instance HardwareAccess_eq_dec : EqDecision HardwareAccess.
Proof. solve_decision. Defined.

Inductive BreakpointKind : Type :=
  | Software
  | Hardware (access : HardwareAccess) (size : Z).
#[global] Instance BreakpointKind_eq_dec : EqDecision BreakpointKind.
Proof. solve_decision. Defined.

Inductive BreakpointScope : Type :=
  | ProcessScope
  | ThreadScope (thread_id : Z).
#[global] Instance BreakpointScope_eq_dec : EqDecision BreakpointScope.
Proof. solve_decision. Defined.

Record BreakpointSpec : Type := mkBreakpointSpec {
  bp_id : Z;
  bp_address : Z;
  bp_kind : BreakpointKind;
  bp_scope : BreakpointScope
}.
#[global] Instance BreakpointSpec_eq_dec : EqDecision BreakpointSpec.
Proof. solve_decision. Defined.

Inductive BreakpointPersistence : Type := Persistent | Temporary.
#[global] Instance BreakpointPersistence_eq_dec : EqDecision BreakpointPersistence.
Proof. solve_decision. Defined.

Definition breakpoint_validate (b : BreakpointSpec) : result unit ProtocolValidationError :=
  match bp_kind b with
  | Software => validate_span (bp_address b) 1
  | Hardware access size =>
      do? fail_if (negb ((size =? 1) || (size =? 2) || (size =? 4) || (size =? 8)))
            (PVE.InvalidHardwareBreakpointSize size) in
      do? fail_if (bool_decide (access = Execute) && negb (size =? 1))
            (PVE.InvalidExecuteBreakpointSize size) in
      do? fail_if (negb (bool_decide (access = Execute)) && negb (bp_address b mod size =? 0))
            (PVE.UnalignedHardwareBreakpoint (bp_address b) size) in
      validate_span (bp_address b) size
  end.

(** ** View, execution and live tokens *)

Module ReadViewToken.
Inductive read_view_token : Type :=
  | Offline (state : StateToken)
  | Dump (state : StateToken)
  | Snapshot (state : StateToken) (snapshot_id : Z)
  | Observing (state : StateToken)
  | Stopped (stop : StopToken).
#[global] Instance read_view_token_eq_dec : EqDecision read_view_token.
Proof. solve_decision. Defined.
End ReadViewToken.
Abbreviation ReadViewToken := ReadViewToken.read_view_token.

Definition view_state (v : ReadViewToken) : StateToken :=
  match v with
  | ReadViewToken.Offline s | ReadViewToken.Dump s | ReadViewToken.Snapshot s _
  | ReadViewToken.Observing s => s
  | ReadViewToken.Stopped stop => stop_state stop
  end.

Module ExecutionToken.
Inductive execution_token : Type :=
  | Stopped (stop : StopToken)
  | Running (run : RunToken).
#[global] Instance execution_token_eq_dec : EqDecision execution_token.
Proof. solve_decision. Defined.
End ExecutionToken.
Abbreviation ExecutionToken := ExecutionToken.execution_token.

Definition execution_state (e : ExecutionToken) : StateToken :=
  match e with
  | ExecutionToken.Stopped stop => stop_state stop
  | ExecutionToken.Running run => run_state run
  end.

Module LiveToken.
Inductive live_token : Type :=
  | Stopped (stop : StopToken)
  | Running (run : RunToken)
  | Observing (state : StateToken).
#[global] Instance live_token_eq_dec : EqDecision live_token.
Proof. solve_decision. Defined.
End LiveToken.
Abbreviation LiveToken := LiveToken.live_token.

Definition live_state (l : LiveToken) : StateToken :=
  match l with
  | LiveToken.Stopped stop => stop_state stop
  | LiveToken.Running run => run_state run
  | LiveToken.Observing state => state
  end.

Inductive StepKind : Type := Into | Over | Out.
#[global] Instance StepKind_eq_dec : EqDecision StepKind.
Proof. solve_decision. Defined.

(** ** Registers *)

Inductive RegisterArch : Type :=
  | X86 | X86_64 | Aarch64 | Arm | Mips32 | Mips64 | Riscv32 | Riscv64 | PowerPc32 | PowerPc64.
#[global] Instance RegisterArch_eq_dec : EqDecision RegisterArch.
Proof. solve_decision. Defined.

Definition RegisterName_new (value : list Z) : result (list Z) ProtocolValidationError :=
  if bool_decide (value = []) || (MAX_REGISTER_NAME_BYTES <? str_len value)
     || negb (bytes_all (λ b, is_ascii_alphanumeric b || (b =? 95) || (b =? 46)) value)
  then Err PVE.InvalidRegisterName
  else Ok value.

Record RegisterValue : Type := mkRegisterValue { rv_name : list Z; rv_value : Z }.
#[global] Instance RegisterValue_eq_dec : EqDecision RegisterValue.
Proof. solve_decision. Defined.

Fixpoint register_scan (seen : list (list Z)) (registers : list RegisterValue)
    : result unit ProtocolValidationError :=
  match registers with
  | [] => Ok tt
  | r :: rest =>
      do? fail_if (bool_decide (rv_name r ∈ seen)) (PVE.DuplicateRegisterName (rv_name r)) in
      register_scan (rv_name r :: seen) rest
  end.

Definition validate_register_list (registers : list RegisterValue)
    : result unit ProtocolValidationError :=
  do? fail_if (MAX_REGISTERS <? zlen registers)
        (PVE.TooManyRegisters (zlen registers) MAX_REGISTERS) in
  register_scan [] registers.

(** [RegisterSet] and [RegisterWrite] have the same fields and validation. *)
Record RegisterSet : Type := mkRegisterSet {
  rs_arch : RegisterArch;
  rs_registers : list RegisterValue
}.
#[global] Instance RegisterSet_eq_dec : EqDecision RegisterSet.
Proof. solve_decision. Defined.
Record RegisterWrite : Type := mkRegisterWrite {
  rw_arch : RegisterArch;
  rw_registers : list RegisterValue
}.
#[global] Instance RegisterWrite_eq_dec : EqDecision RegisterWrite.
Proof. solve_decision. Defined.

Definition register_set_validate (r : RegisterSet) : result unit ProtocolValidationError :=
  validate_register_list (rs_registers r).
Definition register_write_validate (r : RegisterWrite) : result unit ProtocolValidationError :=
  validate_register_list (rw_registers r).

(** ** Session states *)

Module StopReason.
Inductive stop_reason : Type :=
  | Initial
  | UserPause
  | Breakpoint (breakpoint_id : Z)
  | SingleStep
  | Exception (code : Z) (first_chance : bool) (address : Z).
#[global] Instance stop_reason_eq_dec : EqDecision stop_reason.
Proof. solve_decision. Defined.
End StopReason.
Abbreviation StopReason := StopReason.stop_reason.

Module SessionState.
Inductive session_state : Type :=
  | Idle (token : StateToken)
  | Opening (token : StateToken) (target : DebugTargetRequest)
  | AwaitingAttestation (token : StateToken) (process : ProcessIdentity)
  | AttestationAccepted (token : StateToken)
  | Offline (token : StateToken)
  | Dump (token : StateToken)
  | Snapshot (token : StateToken) (snapshot_id : Z)
  | Observing (token : StateToken) (process_id : Z)
  | Stopped (token : StopToken) (reason : StopReason) (thread_id : Z)
  | Running (token : RunToken)
  | Pausing (token : StateToken)
  | Closing (token : StateToken)
  | Detached (token : StateToken)
  | Exited (token : StateToken) (exit_code : Z)
  | Failed (token : StateToken) (message : list Z)
  | Closed (token : StateToken).
End SessionState.
Abbreviation SessionState := SessionState.session_state.
Module SS := SessionState.

Definition state_token (s : SessionState) : StateToken :=
  match s with
  | SS.Idle token | SS.Opening token _ | SS.AwaitingAttestation token _
  | SS.AttestationAccepted token | SS.Offline token | SS.Dump token | SS.Snapshot token _
  | SS.Observing token _ | SS.Pausing token | SS.Closing token | SS.Detached token
  | SS.Exited token _ | SS.Failed token _ | SS.Closed token => token
  | SS.Stopped token _ _ => stop_state token
  | SS.Running token => run_state token
  end.

Definition state_kind (s : SessionState) : SessionStateKind :=
  match s with
  | SS.Idle _ => SSK.Idle
  | SS.Opening _ _ => SSK.Opening
  | SS.AwaitingAttestation _ _ => SSK.AwaitingAttestation
  | SS.AttestationAccepted _ => SSK.AttestationAccepted
  | SS.Offline _ => SSK.Offline
  | SS.Dump _ => SSK.Dump
  | SS.Snapshot _ _ => SSK.Snapshot
  | SS.Observing _ _ => SSK.Observing
  | SS.Stopped _ _ _ => SSK.Stopped
  | SS.Running _ => SSK.Running
  | SS.Pausing _ => SSK.Pausing
  | SS.Closing _ => SSK.Closing
  | SS.Detached _ => SSK.Detached
  | SS.Exited _ _ => SSK.Exited
  | SS.Failed _ _ => SSK.Failed
  | SS.Closed _ => SSK.Closed
  end.

(** The derived [PartialEq]: only [Opening] holds paths. *)
Definition SessionState_eqb (a b : SessionState) : bool :=
  bool_decide (state_token a = state_token b)
  && match a, b with
     | SS.Opening _ t, SS.Opening _ t' => DebugTargetRequest_eqb t t'
     | SS.AwaitingAttestation _ p, SS.AwaitingAttestation _ p' => bool_decide (p = p')
     | SS.Snapshot _ i, SS.Snapshot _ i' => bool_decide (i = i')
     | SS.Observing _ p, SS.Observing _ p' => bool_decide (p = p')
     | SS.Stopped t r th, SS.Stopped t' r' th' =>
         bool_decide (t = t') && bool_decide (r = r') && bool_decide (th = th')
     | SS.Running t, SS.Running t' => bool_decide (t = t')
     | SS.Exited _ c, SS.Exited _ c' => bool_decide (c = c')
     | SS.Failed _ m, SS.Failed _ m' => bool_decide (m = m')
     | _, _ => bool_decide (state_kind a = state_kind b)
     end.

(** The [match from] of [SessionState::validate_successor]. *)
Definition successor_kinds (from : SessionStateKind) : list SessionStateKind :=
  match from with
  | SSK.Idle => [SSK.Opening; SSK.Closing; SSK.Failed]
  | SSK.Opening => [SSK.AwaitingAttestation; SSK.Offline; SSK.Dump; SSK.Observing; SSK.Stopped;
                    SSK.Closing; SSK.Failed]
  | SSK.AwaitingAttestation => [SSK.AttestationAccepted; SSK.Closing; SSK.Failed]
  | SSK.AttestationAccepted => [SSK.Stopped; SSK.Exited; SSK.Closing; SSK.Failed]
  | SSK.Offline | SSK.Dump | SSK.Snapshot => [SSK.Closing; SSK.Failed]
  | SSK.Observing => [SSK.Detached; SSK.Closing; SSK.Failed]
  | SSK.Stopped => [SSK.Stopped; SSK.Running; SSK.Detached; SSK.Exited; SSK.Closing; SSK.Failed]
  | SSK.Running => [SSK.Stopped; SSK.Pausing; SSK.Detached; SSK.Exited; SSK.Closing; SSK.Failed]
  | SSK.Pausing => [SSK.Stopped; SSK.Exited; SSK.Closing; SSK.Failed]
  | SSK.Detached | SSK.Exited => [SSK.Closing; SSK.Failed]
  | SSK.Failed => [SSK.Failed; SSK.Closing]
  | SSK.Closing => [SSK.Closed; SSK.Failed]
  | SSK.Closed => []
  end.

Definition validate_successor (s next : SessionState) : result unit ProtocolValidationError :=
  let current_token := state_token s in
  let next_token := state_token next in
  do? fail_if (negb (st_session_id next_token =? st_session_id current_token))
        PVE.StaleSession in
  let? expected_generation := ok_or (checked_add u64_max (st_generation current_token) 1)
                                PVE.StateGenerationOverflow in
  do? fail_if (negb (st_generation next_token =? expected_generation))
        (PVE.UnexpectedStateGeneration expected_generation (st_generation next_token)) in
  if bool_decide (state_kind next ∈ successor_kinds (state_kind s)) then Ok tt
  else Err (PVE.InvalidSessionStateTransition (state_kind s) (state_kind next)).

Definition matches_read_view (s : SessionState) (view : ReadViewToken) : bool :=
  match view, s with
  | ReadViewToken.Offline state, SS.Offline token
  | ReadViewToken.Dump state, SS.Dump token
  | ReadViewToken.Observing state, SS.Observing token _ => bool_decide (state = token)
  | ReadViewToken.Snapshot state id, SS.Snapshot token actual =>
      bool_decide (state = token) && (id =? actual)
  | ReadViewToken.Stopped stop, SS.Stopped token _ _ => bool_decide (stop = token)
  | _, _ => false
  end.

Definition matches_live (s : SessionState) (live : LiveToken) : bool :=
  match live, s with
  | LiveToken.Stopped stop, SS.Stopped token _ _ => bool_decide (stop = token)
  | LiveToken.Running run, SS.Running token => bool_decide (run = token)
  | LiveToken.Observing state, SS.Observing token _ => bool_decide (state = token)
  | _, _ => false
  end.

Definition matches_execution (s : SessionState) (execution : ExecutionToken) : bool :=
  match execution, s with
  | ExecutionToken.Stopped stop, SS.Stopped token _ _ => bool_decide (stop = token)
  | ExecutionToken.Running run, SS.Running token => bool_decide (run = token)
  | _, _ => false
  end.

(** ** Commands *)

Module DebugCommand.
Inductive debug_command : Type :=
  | ProbeCapabilities
  | Open (target : DebugTargetRequest)
  | Continue (stop : StopToken)
  | Pause (run : RunToken)
  | Step (stop : StopToken) (thread_id : Z) (kind : StepKind)
  | ReadMemory (view : ReadViewToken) (address size : Z)
  | WriteMemory (stop : StopToken) (address : Z) (expected replacement : list Z)
  | ReadRegisters (view : ReadViewToken) (thread_id : Z)
  | WriteRegisters (stop : StopToken) (thread_id : Z) (registers : RegisterWrite)
  | SetBreakpoint (stop : StopToken) (breakpoint : BreakpointSpec)
      (persistence : BreakpointPersistence)
  | RemoveBreakpoint (stop : StopToken) (breakpoint_id : Z)
  | CaptureSnapshot (live : LiveToken)
  | Detach (live : LiveToken)
  | Terminate (execution : ExecutionToken)
  | Close (state : StateToken).
End DebugCommand.
Abbreviation DebugCommand := DebugCommand.debug_command.
Module DC := DebugCommand.

Definition validate_memory_write (address : Z) (expected replacement : list Z)
    : result unit ProtocolValidationError :=
  do? fail_if (bool_decide (expected = [])) PVE.EmptyMemoryWrite in
  do? fail_if (negb (zlen expected =? zlen replacement))
        (PVE.MemoryWriteLengthMismatch (zlen expected) (zlen replacement)) in
  do? fail_if (MAX_MEMORY_WRITE_BYTES <? zlen expected)
        (PVE.MemoryWriteTooLarge (zlen expected) MAX_MEMORY_WRITE_BYTES) in
  validate_span address (zlen expected).

Definition command_validate (c : DebugCommand) : result unit ProtocolValidationError :=
  match c with
  | DC.Open target => target_validate target
  | DC.ReadMemory _ address size =>
      do? fail_if (size =? 0) PVE.EmptyMemoryRead in
      do? fail_if (MAX_MEMORY_READ_BYTES <? size)
            (PVE.MemoryReadTooLarge size MAX_MEMORY_READ_BYTES) in
      validate_span address size
  | DC.WriteMemory _ address expected replacement =>
      validate_memory_write address expected replacement
  | DC.WriteRegisters _ _ registers => register_write_validate registers
  | DC.SetBreakpoint _ breakpoint _ => breakpoint_validate breakpoint
  | DC.ProbeCapabilities | DC.Continue _ | DC.Pause _ | DC.Step _ _ _ | DC.ReadRegisters _ _
  | DC.RemoveBreakpoint _ _ | DC.CaptureSnapshot _ | DC.Detach _ | DC.Terminate _
  | DC.Close _ => Ok tt
  end.

Definition command_state_context (c : DebugCommand) : option StateToken :=
  match c with
  | DC.ProbeCapabilities | DC.Open _ => None
  | DC.Continue stop | DC.Step stop _ _ | DC.WriteMemory stop _ _ _
  | DC.WriteRegisters stop _ _ | DC.SetBreakpoint stop _ _ | DC.RemoveBreakpoint stop _ =>
      Some (stop_state stop)
  | DC.Pause run => Some (run_state run)
  | DC.ReadMemory view _ _ | DC.ReadRegisters view _ => Some (view_state view)
  | DC.CaptureSnapshot live | DC.Detach live => Some (live_state live)
  | DC.Terminate execution => Some (execution_state execution)
  | DC.Close state => Some state
  end.

Definition verify_observed_memory (c : DebugCommand) (observed : list Z)
    : result unit ProtocolValidationError :=
  match c with
  | DC.WriteMemory _ _ expected _ =>
      if bool_decide (observed = expected) then Ok tt else Err PVE.MemoryWriteConflict
  | _ => Err PVE.NotMemoryWriteCommand
  end.

Record CommandEnvelope : Type := mkCommandEnvelope {
  ce_version : ProtocolVersion;
  ce_command_id : Z;
  ce_session_id : option Z;
  ce_expected_state : option StateToken;
  ce_command : DebugCommand
}.

Definition is_probe (c : DebugCommand) : bool :=
  match c with DC.ProbeCapabilities => true | _ => false end.
Definition is_close (c : DebugCommand) : bool :=
  match c with DC.Close _ => true | _ => false end.

Definition envelope_validate (e : CommandEnvelope) : result unit ProtocolValidationError :=
  do? version_validate (ce_version e) in
  do? command_validate (ce_command e) in
  if is_probe (ce_command e) then
    fail_if (negb (bool_decide (ce_session_id e = None))
             || negb (bool_decide (ce_expected_state e = None)))
      PVE.UnexpectedSessionContext
  else
    let? session_id := ok_or (ce_session_id e) PVE.MissingSessionContext in
    let? expected := ok_or (ce_expected_state e) PVE.MissingStateToken in
    do? fail_if (negb (st_session_id expected =? session_id)) PVE.StaleSession in
    match command_state_context (ce_command e) with
    | Some command_state =>
        fail_if (negb (bool_decide (command_state = expected))) PVE.StaleStateToken
    | None => Ok tt
    end.

(** The [allowed] match of [CommandEnvelope::validate_against]. *)
Definition command_allowed (c : DebugCommand) (s : SessionState) : bool :=
  match c, s with
  | DC.Open _, SS.Idle _ => true
  | DC.Continue stop, SS.Stopped token _ _
  | DC.Step stop _ _, SS.Stopped token _ _
  | DC.WriteMemory stop _ _ _, SS.Stopped token _ _
  | DC.WriteRegisters stop _ _, SS.Stopped token _ _
  | DC.SetBreakpoint stop _ _, SS.Stopped token _ _
  | DC.RemoveBreakpoint stop _, SS.Stopped token _ _ => bool_decide (stop = token)
  | DC.Pause run, SS.Running token => bool_decide (run = token)
  | DC.ReadMemory view _ _, _ | DC.ReadRegisters view _, _ => matches_read_view s view
  | DC.CaptureSnapshot live, _ | DC.Detach live, _ => matches_live s live
  | DC.Terminate execution, _ => matches_execution s execution
  | DC.Close _, SS.Closed _ => false
  | DC.Close _, _ => true
  | _, _ => false
  end.

Definition validate_against (e : CommandEnvelope) (s : SessionState)
    : result unit ProtocolValidationError :=
  do? envelope_validate e in
  if is_probe (ce_command e) then Ok tt
  else
    let actual := state_token s in
    do? fail_if (negb (bool_decide (ce_session_id e = Some (st_session_id actual))))
          PVE.StaleSession in
    do? fail_if (negb (bool_decide (ce_expected_state e = Some actual))) PVE.StaleStateToken in
    if command_allowed (ce_command e) s then Ok tt
    else if is_close (ce_command e) then Err PVE.CommandNotAllowedInState
    else if negb (bool_decide (command_state_context (ce_command e) = None))
    then Err PVE.StaleExecutionToken
    else Err PVE.CommandNotAllowedInState.

(** ** Memory write failures *)

Definition is_rollback_safe (r : MemoryWriteRecovery) : bool :=
  match r with
  | NoWriteAttempted true | Restored => true
  | _ => false
  end.

Record MemoryWriteFailure : Type := mkMemoryWriteFailure {
  mwf_stop : StopToken;
  mwf_address : Z;
  mwf_size : Z;
  mwf_stage : MemoryWriteStage;
  mwf_recovery : MemoryWriteRecovery;
  mwf_detail : list Z
}.
#[global] Instance MemoryWriteFailure_eq_dec : EqDecision MemoryWriteFailure.
Proof. solve_decision. Defined.

Definition before_write (s : MemoryWriteStage) : bool :=
  match s with
  | ChangeProtection | ProtectionRace | RevalidateExpectedBytes => true
  | _ => false
  end.

Definition recovery_canonical (s : MemoryWriteStage) (r : MemoryWriteRecovery) : bool :=
  match r with
  | NoWriteAttempted _ => before_write s
  | Restored => negb (before_write s)
  | Indeterminate bytes flushed protection =>
      negb (before_write s || (bytes && flushed && protection))
  end.

(** [usize::try_from(u32)] never fails on the 64-bit targets. *)
Definition write_failure_validate (f : MemoryWriteFailure)
    : result unit ProtocolValidationError :=
  do? fail_if (mwf_size f =? 0) PVE.EmptyMemoryWrite in
  do? fail_if (MAX_MEMORY_WRITE_BYTES <? mwf_size f)
        (PVE.MemoryWriteTooLarge (mwf_size f) MAX_MEMORY_WRITE_BYTES) in
  do? validate_span (mwf_address f) (mwf_size f) in
  do? validate_reason (mwf_detail f) in
  if recovery_canonical (mwf_stage f) (mwf_recovery f) then Ok tt
  else Err (PVE.MemoryWriteFailureRecoveryMismatch (mwf_stage f) (mwf_recovery f)).

(** ** Events *)

Module BreakpointChange.
Inductive breakpoint_change : Type :=
  | Set_ (persistence : BreakpointPersistence)
  | Removed.
#[global] Instance breakpoint_change_eq_dec : EqDecision breakpoint_change.
Proof. solve_decision. Defined.
End BreakpointChange.
Abbreviation BreakpointChange := BreakpointChange.breakpoint_change.

Module CommandOutcome.
Inductive command_outcome : Type :=
  | Succeeded
  | Rejected (code message : list Z).
#[global] Instance command_outcome_eq_dec : EqDecision command_outcome.
Proof. solve_decision. Defined.
End CommandOutcome.
Abbreviation CommandOutcome := CommandOutcome.command_outcome.

Definition outcome_validate (o : CommandOutcome) : result unit ProtocolValidationError :=
  match o with
  | CommandOutcome.Rejected code message =>
      do? validate_reason code in
      do? validate_reason message in
      Ok tt
  | CommandOutcome.Succeeded => Ok tt
  end.

Module DebugEvent.
Inductive debug_event : Type :=
  | Capabilities (report : CapabilityReport)
  | StateChanged (state : SessionState)
  | LiveTargetBound (state : StateToken) (binding : LiveTargetBinding)
  | MemoryRead (view : ReadViewToken) (address : Z) (bytes : list Z)
  | MemoryWritten (stop : StopToken) (address : Z) (before after : list Z)
  | RegistersRead (view : ReadViewToken) (thread_id : Z) (registers : RegisterSet)
  | RegistersWritten (stop : StopToken) (thread_id : Z) (before after : RegisterSet)
  | MemoryWriteFailed (failure : MemoryWriteFailure)
  | BreakpointChanged (stop : StopToken) (breakpoint : BreakpointSpec)
      (change : BreakpointChange)
  | SandboxAttested (attestation : SandboxAttestation)
  | SandboxLifecycle (lifecycle : SandboxLifecycleEvent)
  | CommandResult (command_id : Z) (outcome : CommandOutcome)
  | Warning (code message : list Z).
End DebugEvent.
Abbreviation DebugEvent := DebugEvent.debug_event.
Module DE := DebugEvent.

Definition event_validate (e : DebugEvent) : result unit ProtocolValidationError :=
  match e with
  | DE.Capabilities report => report_validate report
  | DE.LiveTargetBound _ _ => Ok tt
  | DE.StateChanged (SS.Failed _ message) => validate_reason message
  | DE.SandboxLifecycle (SandboxLifecycleEvent.Failed failure) =>
      map_err PVE.SandboxFailure (validate_stage_kind failure)
  | DE.SandboxLifecycle (SandboxLifecycleEvent.CleanupAttemptFailed attempt) =>
      map_err PVE.CleanupAttemptFailure (cleanup_attempt_validate attempt)
  | DE.StateChanged _ | DE.SandboxAttested _ | DE.SandboxLifecycle _ => Ok tt
  | DE.MemoryRead _ address bytes =>
      do? fail_if (bool_decide (bytes = []) || (MAX_MEMORY_READ_BYTES <? zlen bytes))
            PVE.InvalidMemoryReadResult in
      validate_span address (zlen bytes)
  | DE.MemoryWritten _ address before after => validate_memory_write address before after
  | DE.RegistersRead _ _ registers => register_set_validate registers
  | DE.RegistersWritten _ _ before after =>
      do? register_set_validate before in
      register_set_validate after
  | DE.MemoryWriteFailed failure => write_failure_validate failure
  | DE.BreakpointChanged _ breakpoint _ => breakpoint_validate breakpoint
  | DE.CommandResult _ outcome => outcome_validate outcome
  | DE.Warning code message =>
      do? validate_reason code in
      validate_reason message
  end.

Definition event_state_context (e : DebugEvent) : option StateToken :=
  match e with
  | DE.StateChanged state => Some (state_token state)
  | DE.LiveTargetBound state _ => Some state
  | DE.MemoryRead view _ _ | DE.RegistersRead view _ _ => Some (view_state view)
  | DE.MemoryWritten stop _ _ _ | DE.RegistersWritten stop _ _ _
  | DE.BreakpointChanged stop _ _ => Some (stop_state stop)
  | DE.MemoryWriteFailed failure => Some (stop_state (mwf_stop failure))
  | DE.SandboxAttested _ | DE.SandboxLifecycle _ => None
  | DE.Capabilities _ | DE.CommandResult _ _ | DE.Warning _ _ => None
  end.

Record EventEnvelope : Type := mkEventEnvelope {
  ee_version : ProtocolVersion;
  ee_sequence : Z;
  ee_session_id : option Z;
  ee_state : option StateToken;
  ee_caused_by : option Z;
  ee_event : DebugEvent
}.

Definition is_sandbox_event (e : DebugEvent) : bool :=
  match e with DE.SandboxAttested _ | DE.SandboxLifecycle _ => true | _ => false end.

(** The inner session of a sandbox event; any other event is the
    [unreachable!] arm. *)
Definition sandbox_event_session (e : DebugEvent) : result Z ProtocolValidationError :=
  match e with
  | DE.SandboxAttested attestation => Ok (at_session_id attestation)
  | DE.SandboxLifecycle lifecycle =>
      match lifecycle with
      | SandboxLifecycleEvent.State session_id _ => Ok session_id
      | SandboxLifecycleEvent.Attested attestation => Ok (at_session_id attestation)
      | SandboxLifecycleEvent.ProviderUnavailable unavailable => Ok (pu_session_id unavailable)
      | SandboxLifecycleEvent.Failed failure => Ok (sf_session_id failure)
      | SandboxLifecycleEvent.CleanupAttemptFailed attempt =>
          Ok (sf_session_id (caf_failure attempt))
      | SandboxLifecycleEvent.Closed receipt => Ok (rc_session_id receipt)
      end
  | _ => Panic "sandbox event was matched above"
  end.

Definition event_envelope_validate (e : EventEnvelope) : result unit ProtocolValidationError :=
  do? version_validate (ee_version e) in
  do? event_validate (ee_event e) in
  do? match ee_event e with
      | DE.CommandResult command_id _ =>
          fail_if (negb (bool_decide (ee_caused_by e = Some command_id)))
            PVE.MismatchedCommandCorrelation
      | _ => Ok tt
      end in
  do? match event_state_context (ee_event e) with
      | Some event_state =>
          do? fail_if (negb (bool_decide (ee_session_id e = Some (st_session_id event_state))))
                PVE.StaleSession in
          fail_if (negb (bool_decide (ee_state e = Some event_state))) PVE.StaleStateToken
      | None => Ok tt
      end in
  let sandbox_event := is_sandbox_event (ee_event e) in
  do? fail_if (sandbox_event && (bool_decide (ee_session_id e = None)
                                 || bool_decide (ee_state e = None)))
        PVE.MissingSessionContext in
  if sandbox_event then
    let? outer_session := expect_some (ee_session_id e)
                            "sandbox context presence was checked above" in
    let? outer_state := expect_some (ee_state e)
                          "sandbox context presence was checked above" in
    do? fail_if (negb (st_session_id outer_state =? outer_session)) PVE.StaleStateToken in
    let? inner_session := sandbox_event_session (ee_event e) in
    fail_if (negb (inner_session =? outer_session)) PVE.StaleSession
  else Ok tt.

(** [EventSequenceCursor]: the last observed sequence number. *)
Definition EventSequenceCursor : Type := option Z.

Definition cursor_observe (sequence : Z)
    : smonad EventSequenceCursor ProtocolValidationError unit :=
  let! expected :=
    sread (λ last, match last with
                   | Some last => ok_or (checked_add u64_max last 1) PVE.EventSequenceOverflow
                   | None => Ok 1
                   end) in
  do! slift (fail_if (negb (sequence =? expected))
               (PVE.UnexpectedEventSequence expected sequence)) in
  supd (λ _, Some sequence).
