(* ===== verification/ProtocolTheory.v ===== *)
(** Theorems about the protocol contracts of [Protocol.v]: what every
    validator accepts, that none panics, that image addresses and relative
    addresses translate back and forth, that a command is good for one state
    generation only, and that an event cursor accepts exactly the contiguous
    sequences. *)

From S2P Require Import Prelude Identity Sandbox SandboxLifecycle Protocol.
Open Scope Z_scope.

(** ** Spans and text *)

Lemma checked_add_run top a b : a + b ≤ top → checked_add top a b = Some (a + b).
Proof. unfold checked_add. intros H. by rewrite (proj2 (Z.leb_le _ _) H). Qed.

Lemma checked_sub_run a b : b ≤ a → checked_sub a b = Some (a - b).
Proof. unfold checked_sub. intros H. by rewrite (proj2 (Z.leb_le _ _) H). Qed.

Lemma validate_span_ok a n u :
  validate_span a n = Ok u ↔ n ≤ u64_max ∧ a + n ≤ u64_max.
Proof.
  unfold validate_span. destruct u. split.
  - intros H. rust_inv H. case_match eqn:Hn; [|done]. simplify_eq.
    autorewrite with rust in *. lia.
  - intros [H1 H2]. rewrite (proj2 (Z.leb_le _ _) H1). simpl. by rewrite checked_add_run.
Qed.

Definition valid_reason (r : list Z) : Prop :=
  r ≠ [] ∧ str_len r ≤ MAX_REASON_BYTES ∧ Forall (λ c, is_control c = false) r.

Lemma existsb_false {A} (f : A → bool) l :
  existsb f l = false ↔ Forall (λ c, f c = false) l.
Proof.
  induction l as [|x l IH]; simpl; [by split|].
  rewrite orb_false_iff, IH. split; [intros []; by constructor|by inversion 1].
Qed.

#[export] Hint Rewrite validate_span_ok @existsb_false : rust.

Lemma validate_reason_ok r u : validate_reason r = Ok u ↔ valid_reason r.
Proof.
  unfold validate_reason, valid_reason. destruct u.
  destruct (_ || _) eqn:Hc; split; try done.
  - intros (H1 & H2 & H3). apply not_false_iff_true in Hc. destruct Hc.
    autorewrite with rust. tauto.
  - intros _. autorewrite with rust in Hc. tauto.
Qed.

#[export] Hint Rewrite validate_reason_ok : rust.

(** ** Live image binding *)

Record valid_binding (b : LiveTargetBinding) : Prop := {
  vb_identity : process_binary_id (lb_process b) = lb_main_module_binary_id b;
  vb_base : 1 ≤ lb_actual_image_base b;
  vb_size : 1 ≤ lb_size_of_image b;
  vb_end : lb_actual_image_base b + lb_size_of_image b ≤ u64_max
}.

Lemma binding_new_ok p i base size b :
  0 ≤ base → 0 ≤ size →
  LiveTargetBinding_new p i base size = Ok b ↔
  b = mkLiveTargetBinding p i base size ∧ valid_binding b.
Proof.
  intros Hb Hs. unfold LiveTargetBinding_new. split.
  - intros H. rust_inv H. simplify_eq. split; [done|]. split; simpl; try done; lia.
  - intros [-> [H1 H2 H3 H4]]. simpl in *. rust_ok; try lia.
    rewrite checked_add_run by lia. eexists. by split.
Qed.

Lemma image_end_run b :
  valid_binding b → image_end b = Ok (lb_actual_image_base b + lb_size_of_image b).
Proof. intros [_ _ _ H]. unfold image_end. by rewrite checked_add_run. Qed.

Lemma address_for_rva_span_ok b rva size a :
  valid_binding b → 0 ≤ rva → 0 ≤ size →
  address_for_rva_span b rva size = Ok a ↔
  a = lb_actual_image_base b + rva ∧ 1 ≤ size ∧ rva + size ≤ lb_size_of_image b.
Proof.
  intros [_ Hb Hs He] Hr Hz. unfold address_for_rva_span. split.
  - intros H. rust_inv H. lia.
  - intros (-> & H1 & H2). rust_ok; try lia. exists (rva + size).
    rewrite !checked_add_run by lia. split; [done|]. rust_ok; lia.
Qed.

Lemma rva_for_address_span_ok b a size rva :
  valid_binding b → 0 ≤ a → 0 ≤ size →
  rva_for_address_span b a size = Ok rva ↔
  a = lb_actual_image_base b + rva ∧ 0 ≤ rva ∧ 1 ≤ size
  ∧ rva + size ≤ lb_size_of_image b.
Proof.
  intros Hv Ha Hz. pose proof (image_end_run b Hv) as Hi. destruct Hv as [_ Hb Hs He].
  unfold rva_for_address_span. rewrite Hi. split.
  - intros H. rust_inv H. simplify_eq. lia.
  - intros (-> & H0 & H1 & H2). rust_ok; try lia.
    rewrite checked_sub_run by lia. eexists. split; [done|].
    replace (lb_actual_image_base b + rva - lb_actual_image_base b) with rva by lia.
    rust_ok; try lia. rewrite checked_add_run by lia. eexists. split; [done|]. simpl.
    rust_ok; lia.
Qed.

(** For every binding the constructor admits, translating a nonempty span
    from a relative to an absolute address and back are inverse partial
    functions: either direction accepts a span exactly when the other takes it
    back, and both accept exactly the spans that lie inside the image. *)
Theorem image_address_roundtrip p i base sz b rva a n :
  in_u64 base → in_u64 sz → in_u64 rva → in_u64 a → in_u64 n →
  LiveTargetBinding_new p i base sz = Ok b →
  (address_for_rva_span b rva n = Ok a ↔ rva_for_address_span b a n = Ok rva)
  ∧ (address_for_rva_span b rva n = Ok a ↔
     a = base + rva ∧ 1 ≤ n ∧ rva + n ≤ sz).
Proof.
  unfold in_u64. intros ????? Hnew. apply binding_new_ok in Hnew as [-> Hv]; [|lia|lia].
  rewrite address_for_rva_span_ok, rva_for_address_span_ok by (done || lia). simpl. lia.
Qed.

(** ** Capability reports *)

Definition valid_availability (a : CapabilityAvailability) : Prop :=
  match a with Available => True | Unavailable _ r => valid_reason r end.

Lemma availability_validate_ok a u : availability_validate a = Ok u ↔ valid_availability a.
Proof. destruct a, u; simpl; [done|]. apply validate_reason_ok. Qed.

#[export] Hint Rewrite availability_validate_ok : rust.

Lemma report_scan_ok seen l r :
  report_scan seen l = Ok r ↔
  r = reverse (cs_capability <$> l) ++ seen
  ∧ Forall (λ s, valid_availability (cs_availability s)) l
  ∧ NoDup (cs_capability <$> l) ∧ (∀ c, c ∈ cs_capability <$> l → c ∉ seen).
Proof.
  revert seen. induction l as [|s l IH]; intros seen; simpl.
  - split; [intros [= ->]|intros (-> & _)]; [|done].
    split_and!; [done|constructor|constructor|set_solver].
  - rewrite reverse_cons, <-app_assoc. simpl. split.
    + intros H. rust_inv H. apply IH in H as (-> & HF & HN & Hd).
      split_and!; [done|by constructor|constructor; set_solver|set_solver].
    + intros (-> & HF & HN & Hd). inversion_clear HF. inversion_clear HN.
      rust_ok; [set_solver|]. apply IH. split_and!; [done..|set_solver].
Qed.

Lemma report_missing_ok seen l u : report_missing seen l = Ok u ↔ l ⊆ seen.
Proof.
  destruct u. induction l as [|c l IH]; simpl; [set_solver|]. split.
  - intros H. rust_inv H. apply IH in H. set_solver.
  - intros H. rust_ok; [set_solver|]. apply IH. set_solver.
Qed.

Lemma DebugCapability_ALL_complete c : c ∈ DebugCapability_ALL.
Proof. destruct c; unfold DebugCapability_ALL; set_solver. Qed.

Lemma DebugCapability_ALL_NoDup : NoDup DebugCapability_ALL.
Proof. by apply (bool_decide_unpack _). Qed.

(** A capability report is accepted exactly when it lists every capability
    once, in any order, and gives a valid reason for each unavailable one.
    The size limit of the report is then never the binding constraint. *)
Theorem report_validate_spec r :
  report_validate r = Ok tt ↔
  (cs_capability <$> report_statuses r) ≡ₚ DebugCapability_ALL
  ∧ Forall (λ s, valid_availability (cs_availability s)) (report_statuses r).
Proof.
  unfold report_validate. split.
  - intros H. apply result_bind_ok in H as (? & _ & H).
    apply result_bind_ok in H as (seen & Hs & H).
    apply report_scan_ok in Hs as (-> & HF & HN & _). apply report_missing_ok in H.
    split; [|done].
    apply NoDup_Permutation; [done|apply DebugCapability_ALL_NoDup|].
    intros c. split; [intros; apply DebugCapability_ALL_complete|].
    intros Hc%H. by rewrite app_nil_r, elem_of_reverse in Hc.
  - intros [HP HF]. assert (zlen (report_statuses r) = 17) as Hl.
    { unfold zlen. rewrite <-(length_fmap cs_capability), HP. done. }
    rust_ok; [unfold MAX_CAPABILITY_STATUSES; lia|]. eexists. split.
    + apply report_scan_ok. split_and!; [done|done| |set_solver].
      rewrite HP. apply DebugCapability_ALL_NoDup.
    + apply report_missing_ok. rewrite app_nil_r. intros c _.
      rewrite elem_of_reverse, HP. apply DebugCapability_ALL_complete.
Qed.

(** ** Registers, breakpoints and memory writes *)

Lemma register_scan_ok seen l u :
  register_scan seen l = Ok u ↔
  NoDup (rv_name <$> l) ∧ (∀ n, n ∈ rv_name <$> l → n ∉ seen).
Proof.
  destruct u. revert seen. induction l as [|r l IH]; intros seen; simpl.
  - split; [|done]. intros _. split; [constructor|set_solver].
  - split.
    + intros H. rust_inv H. apply IH in H as [HN Hd].
      split; [constructor; set_solver|set_solver].
    + intros [HN Hd]. inversion_clear HN. rust_ok; [set_solver|].
      apply IH. split; [done|set_solver].
Qed.

Lemma validate_register_list_ok l u :
  validate_register_list l = Ok u ↔ NoDup (rv_name <$> l) ∧ zlen l ≤ MAX_REGISTERS.
Proof.
  unfold validate_register_list. destruct u. split.
  - intros H. rust_inv H. apply register_scan_ok in H. naive_solver.
  - intros [HN Hl]. rust_ok. apply register_scan_ok. split; [done|set_solver].
Qed.

Definition valid_breakpoint (b : BreakpointSpec) : Prop :=
  match bp_kind b with
  | Software => bp_address b + 1 ≤ u64_max
  | Hardware Execute size => size = 1 ∧ bp_address b + 1 ≤ u64_max
  | Hardware _ size =>
      (size = 1 ∨ size = 2 ∨ size = 4 ∨ size = 8) ∧ bp_address b mod size = 0
      ∧ bp_address b + size ≤ u64_max
  end.

Lemma breakpoint_validate_ok b u : breakpoint_validate b = Ok u ↔ valid_breakpoint b.
Proof.
  unfold breakpoint_validate, valid_breakpoint. destruct u.
  assert (8 ≤ u64_max) as Hmax by done.
  destruct (bp_kind b) as [|[] size]; [autorewrite with rust; lia|..]; split;
    try (intros H; rust_inv H; lia); intros; rust_ok; lia.
Qed.

Definition valid_memory_write (a : Z) (expected replacement : list Z) : Prop :=
  1 ≤ zlen expected ≤ MAX_MEMORY_WRITE_BYTES ∧ zlen expected = zlen replacement
  ∧ a + zlen expected ≤ u64_max.

Lemma zlen_pos {A} (l : list A) : l ≠ [] ↔ 1 ≤ zlen l.
Proof. unfold zlen. destruct l; simpl; split; try done; lia. Qed.

Lemma validate_memory_write_ok a x y u :
  validate_memory_write a x y = Ok u ↔ valid_memory_write a x y.
Proof.
  unfold validate_memory_write, valid_memory_write. destruct u.
  assert (MAX_MEMORY_WRITE_BYTES ≤ u64_max) as Hmax by done. split.
  - intros H. rust_inv H. rewrite zlen_pos in *. lia.
  - intros (? & ? & ?). rust_ok; rewrite ?zlen_pos; lia.
Qed.

#[export] Hint Rewrite validate_register_list_ok breakpoint_validate_ok
  validate_memory_write_ok : rust.

(** A breakpoint is accepted exactly when its span fits the address space
    and, for a hardware breakpoint, an execution breakpoint is one byte long
    and a data breakpoint is 1, 2, 4 or 8 bytes long and naturally aligned. *)
Theorem breakpoint_validate_spec b : breakpoint_validate b = Ok tt ↔ valid_breakpoint b.
Proof. apply breakpoint_validate_ok. Qed.

(** ** Launch targets *)

Definition total_bytes (args : list (list Z)) : Z := foldr (λ a n, str_len a + n) 0 args.

Lemma str_len_nonneg s : 0 ≤ str_len s.
Proof. unfold str_len, zlen. lia. Qed.

Lemma total_bytes_nonneg args : 0 ≤ total_bytes args.
Proof. induction args as [|a l IH]; simpl; [done|]. pose proof (str_len_nonneg a). lia. Qed.

Lemma launch_argument_bytes_ok n args r :
  n ≤ usize_max →
  launch_argument_bytes n args = Ok r ↔
  Forall (λ a, 0 ∉ a) args ∧ r = n + total_bytes args ∧ r ≤ usize_max.
Proof.
  revert n. induction args as [|a l IH]; intros n Hn; simpl.
  - split; [intros [= <-]|intros (_ & -> & _); f_equal; lia].
    split; [constructor|]. split; lia.
  - pose proof (total_bytes_nonneg l) as Hl. split.
    + intros H. rust_inv H. apply IH in H as (HF & -> & ?); [|lia].
      split; [by constructor|]. split; lia.
    + intros (HF & -> & ?). inversion_clear HF. rust_ok.
      exists (n + str_len a). rewrite checked_add_run by lia. split; [done|].
      apply IH; [lia|]. split; [done|]. split; lia.
Qed.

Record valid_launch (t : LaunchTarget) : Prop := {
  vl_executable : lt_executable t ≠ [];
  vl_directory : lt_working_directory t ≠ Some [];
  vl_count : zlen (lt_arguments t) ≤ MAX_LAUNCH_ARGUMENTS;
  vl_bytes : total_bytes (lt_arguments t) ≤ MAX_LAUNCH_ARGUMENT_BYTES;
  vl_nul : Forall (λ a, 0 ∉ a) (lt_arguments t);
  vl_stop : lt_stop_before_entry t = true
}.

Lemma validate_path_ok p u : validate_path p = Ok u ↔ p ≠ [].
Proof. unfold validate_path. destruct u. by case_bool_decide. Qed.

Lemma empty_directory_false (d : option (list Z)) :
  match d with Some path => bool_decide (path = []) | None => false end = false
  ↔ d ≠ Some [].
Proof. destruct d; [rewrite bool_decide_eq_false|]; naive_solver. Qed.

#[export] Hint Rewrite validate_path_ok empty_directory_false : rust.

Lemma LaunchTarget_validate_ok t u : LaunchTarget_validate t = Ok u ↔ valid_launch t.
Proof.
  unfold LaunchTarget_validate. destruct u.
  assert (MAX_LAUNCH_ARGUMENT_BYTES ≤ usize_max) as Hmax by done. split.
  - intros H. rust_inv H.
    apply launch_argument_bytes_ok in H7 as (? & -> & ?); [|done]. by split.
  - intros [? ? ? ? ? ?]. rust_ok. exists (total_bytes (lt_arguments t)).
    split; [apply launch_argument_bytes_ok; [done|split; [done|lia]]|]. rust_ok.
Qed.

Definition valid_target (t : DebugTargetRequest) : Prop :=
  match t with
  | DTR.Launch l => valid_launch l
  | DTR.Attach _ => True
  | DTR.Dump d => dump_path d ≠ []
  | DTR.Offline o => offline_path o ≠ []
  end.

Lemma target_validate_ok t u : target_validate t = Ok u ↔ valid_target t.
Proof.
  destruct t, u; simpl; [apply LaunchTarget_validate_ok|done|apply validate_path_ok..].
Qed.

Definition valid_command (c : DebugCommand) : Prop :=
  match c with
  | DC.Open t => valid_target t
  | DC.ReadMemory _ a n => 1 ≤ n ≤ MAX_MEMORY_READ_BYTES ∧ a + n ≤ u64_max
  | DC.WriteMemory _ a x y => valid_memory_write a x y
  | DC.WriteRegisters _ _ r =>
      NoDup (rv_name <$> rw_registers r) ∧ zlen (rw_registers r) ≤ MAX_REGISTERS
  | DC.SetBreakpoint _ b _ => valid_breakpoint b
  | _ => True
  end.

Lemma command_validate_ok c u :
  (∀ v a n, c = DC.ReadMemory v a n → 0 ≤ n) →
  command_validate c = Ok u ↔ valid_command c.
Proof.
  intros Hn. assert (MAX_MEMORY_READ_BYTES ≤ u64_max) as Hmax by done.
  destruct c, u; simpl; unfold register_write_validate; autorewrite with rust; try done.
  - apply target_validate_ok.
  - specialize (Hn _ _ _ eq_refl). split.
    + intros Hv. rust_inv Hv. lia.
    + intros [? ?]. rust_ok; lia.
Qed.

(** ** No validator panics *)

Lemma launch_argument_bytes_no_panic n l : no_panic (launch_argument_bytes n l).
Proof. revert n. induction l; intros n; simpl; no_panic. Qed.
#[export] Hint Resolve launch_argument_bytes_no_panic : nopanic.

Lemma register_scan_no_panic seen l : no_panic (register_scan seen l).
Proof. revert seen. induction l; intros seen; simpl; no_panic. Qed.
Lemma report_scan_no_panic seen l : no_panic (report_scan seen l).
Proof.
  revert seen. induction l; intros seen; simpl; unfold availability_validate, validate_reason;
    no_panic.
Qed.
Lemma report_missing_no_panic seen l : no_panic (report_missing seen l).
Proof. induction l; simpl; no_panic. Qed.
Lemma validate_span_no_panic a n : no_panic (validate_span a n).
Proof. unfold validate_span. no_panic. Qed.
Lemma validate_reason_no_panic r : no_panic (validate_reason r).
Proof. unfold validate_reason. no_panic. Qed.
Lemma version_validate_no_panic v : no_panic (version_validate v).
Proof. unfold version_validate. no_panic. Qed.
#[export] Hint Resolve register_scan_no_panic report_scan_no_panic report_missing_no_panic
  validate_span_no_panic validate_reason_no_panic version_validate_no_panic : nopanic.

Lemma breakpoint_validate_no_panic b : no_panic (breakpoint_validate b).
Proof. unfold breakpoint_validate. no_panic. Qed.
Lemma validate_register_list_no_panic l : no_panic (validate_register_list l).
Proof. unfold validate_register_list. no_panic. Qed.
Lemma validate_memory_write_no_panic a x y : no_panic (validate_memory_write a x y).
Proof. unfold validate_memory_write. no_panic. Qed.
Lemma target_validate_no_panic t : no_panic (target_validate t).
Proof. unfold target_validate, LaunchTarget_validate, validate_path. no_panic. Qed.
#[export] Hint Resolve breakpoint_validate_no_panic validate_register_list_no_panic
  validate_memory_write_no_panic target_validate_no_panic : nopanic.

Lemma command_validate_no_panic c : no_panic (command_validate c).
Proof. unfold command_validate, register_write_validate. no_panic. Qed.
#[export] Hint Resolve command_validate_no_panic : nopanic.

Lemma envelope_validate_no_panic e : no_panic (envelope_validate e).
Proof. unfold envelope_validate. no_panic. Qed.
#[export] Hint Resolve envelope_validate_no_panic : nopanic.

Lemma validate_against_no_panic e s : no_panic (validate_against e s).
Proof. unfold validate_against. no_panic. Qed.
#[export] Hint Resolve validate_against_no_panic : nopanic.

(** ** Session states and commands *)

Lemma validate_successor_ok s next u :
  validate_successor s next = Ok u ↔
  st_session_id (state_token next) = st_session_id (state_token s)
  ∧ st_generation (state_token next) = st_generation (state_token s) + 1
  ∧ st_generation (state_token s) + 1 ≤ u64_max
  ∧ state_kind next ∈ successor_kinds (state_kind s).
Proof.
  unfold validate_successor. destruct u. split.
  - intros H. rust_inv H. destruct_and?; simplify_eq.
    case_bool_decide; [|done]. do 3 (split; [done|]). done.
  - intros (H1 & H2 & H3 & H4). rust_ok.
    exists (st_generation (state_token s) + 1). split; [by autorewrite with rust|].
    rust_ok. by rewrite bool_decide_true.
Qed.

Lemma validate_against_ok e s :
  is_probe (ce_command e) = false →
  validate_against e s = Ok tt ↔
  envelope_validate e = Ok tt ∧ ce_session_id e = Some (st_session_id (state_token s))
  ∧ ce_expected_state e = Some (state_token s) ∧ command_allowed (ce_command e) s = true.
Proof.
  intros Hp. unfold validate_against. rewrite Hp. split.
  - intros H. rust_inv H. destruct H0. split; [done|]. split; [done|]. split; [done|].
    destruct (command_allowed _ _); [done|]. by repeat case_match.
  - intros (-> & H1 & H2 & H3). rust_ok. by rewrite H3.
Qed.

(** The tokens a command carries name the state it is accepted in. *)
Lemma allowed_context c s tok :
  command_allowed c s = true → (∀ st, c ≠ DC.Close st) →
  command_state_context c = Some tok → tok = state_token s.
Proof.
  intros Hc Hn Htok. destruct c; simpl in *; try done; simplify_eq.
  all: try (destruct view); try (destruct live); try (destruct execution);
    destruct s; simpl in *; try done; autorewrite with rust in Hc; naive_solver.
Qed.

(** A command is good for one state generation only.  An envelope the
    reducer accepted in one state is refused as stale in every state a
    validated transition leads to, whatever the two states are. *)
Theorem command_single_generation e s s' :
  is_probe (ce_command e) = false →
  validate_against e s = Ok tt → validate_successor s s' = Ok tt →
  validate_against e s' = Err PVE.StaleStateToken.
Proof.
  intros Hp Hv Hs. apply validate_against_ok in Hv as (He & Hsid & Htok & _); [|done].
  apply validate_successor_ok in Hs as (H1 & H2 & _ & _).
  unfold validate_against. rewrite He, Hp, Hsid, Htok, H1. simpl.
  rewrite bool_decide_true by done. simpl. rewrite bool_decide_false; [done|].
  intros [= Heq]. rewrite Heq in H2. lia.
Qed.

(** Histories of a session: each state is a validated successor of the one
    before. *)
Fixpoint state_chain (s : SessionState) (l : list SessionState) : Prop :=
  match l with
  | [] => True
  | s' :: l' => validate_successor s s' = Ok tt ∧ state_chain s' l'
  end.

Lemma state_chain_generation s l s' :
  state_chain s l → s' ∈ l →
  st_generation (state_token s) < st_generation (state_token s').
Proof.
  revert s. induction l as [|t l IH]; intros s; [set_solver|]. simpl.
  intros [Hv Hc] Hin. apply validate_successor_ok in Hv as (_ & Hg & _).
  apply elem_of_cons in Hin as [->|Hin]; [lia|]. specialize (IH t Hc Hin). lia.
Qed.

Lemma state_chain_NoDup s l : state_chain s l → NoDup (state_token <$> s :: l).
Proof.
  revert s. induction l as [|t l IH]; intros s Hc; [apply NoDup_singleton|].
  rewrite fmap_cons. constructor; [|apply IH, Hc].
  intros (s' & Heq & Hin)%list_elem_of_fmap.
  pose proof (state_chain_generation _ _ _ Hc Hin). rewrite Heq in *. lia.
Qed.

Lemma successor_of_closing s s' :
  validate_successor s s' = Ok tt → state_kind s' = SSK.Closed → state_kind s = SSK.Closing.
Proof.
  intros Hv Hk. apply validate_successor_ok in Hv as (_ & _ & _ & Hin). rewrite Hk in Hin.
  destruct (state_kind s); simpl in Hin; set_solver.
Qed.

Lemma closed_no_successor s s' :
  state_kind s = SSK.Closed → validate_successor s s' ≠ Ok tt.
Proof.
  intros Hk Hv. apply validate_successor_ok in Hv as (_ & _ & _ & Hin). rewrite Hk in Hin.
  set_solver.
Qed.

(** In a history of validated transitions no state token occurs twice,
    a session closes only out of closing, and nothing follows closed. *)
Theorem state_history_sound s l l1 l2 s' :
  state_chain s l → l = l1 ++ s' :: l2 →
  NoDup (state_token <$> s :: l)
  ∧ (state_kind s' = SSK.Closed →
     l2 = [] ∧ ∃ p, (s :: l1) !! length l1 = Some p ∧ state_kind p = SSK.Closing).
Proof.
  intros Hc ->. split; [by apply state_chain_NoDup|]. intros Hk. revert s Hc.
  induction l1 as [|t l1 IH]; intros s Hc; simpl in *.
  - destruct Hc as [Hv Hc]. split.
    + destruct l2 as [|u l2]; [done|]. destruct Hc as [Hu _].
      by apply closed_no_successor in Hu.
    + exists s. split; [done|]. by eapply successor_of_closing.
  - destruct Hc as [_ Hc]. apply (IH t Hc).
Qed.

(** ** Events *)

(** Observing a whole batch, stopping at the first refusal. *)
Fixpoint cursor_observe_all (l : list Z)
    : smonad EventSequenceCursor ProtocolValidationError unit :=
  match l with
  | [] => sret tt
  | n :: l' => do! cursor_observe n in cursor_observe_all l'
  end.

Definition cursor_next (c : EventSequenceCursor) : Z :=
  match c with Some last => last + 1 | None => 1 end.

Lemma cursor_observe_guarded n :
  guarded (cursor_observe n) (λ c, n = cursor_next c ∧ n ≤ u64_max) (λ _, Some n).
Proof.
  intros c. unfold wp, cursor_observe, sbind, sread, slift, supd, cursor_next, fail_if.
  destruct c as [last|]; simpl.
  - unfold checked_add. destruct (Z.leb_spec (last + 1) u64_max); simpl; [|split; [lia|done]].
    destruct (Z.eqb_spec n (last + 1)); simpl; (split; [lia|done]).
  - destruct (Z.eqb_spec n 1); simpl; (split; [|done]); [by subst|lia].
Qed.

Lemma cursor_observe_all_ok l n c' :
  0 ≤ n ≤ u64_max →
  cursor_observe_all l (if n =? 0 then None else Some n) = (Ok tt, c') ↔
  l = seqZ (n + 1) (zlen l) ∧ n + zlen l ≤ u64_max
  ∧ c' = (if n + zlen l =? 0 then None else Some (n + zlen l)).
Proof.
  revert n. induction l as [|k l IH]; intros n Hn.
  - unfold zlen. simpl. rewrite Z.add_0_r, seqZ_nil by done.
    split; [intros [= <-]; split; [done|]; split; [lia|done]|by intros (_ & _ & ->)].
  - assert (cursor_next (if n =? 0 then None else Some n) = n + 1) as Hnext.
    { destruct (Z.eqb_spec n 0); simpl; lia. }
    assert (zlen (k :: l) = zlen l + 1) as Hlen by (unfold zlen; simpl; lia).
    rewrite Hlen, (seqZ_cons (n + 1)) by (unfold zlen; lia).
    replace (Z.pred (zlen l + 1)) with (zlen l) by lia.
    replace (Z.succ (n + 1)) with (n + 1 + 1) by lia.
    pose proof (cursor_observe_guarded k (if n =? 0 then None else Some n)) as Hg.
    simpl. unfold sbind, wp in *. rewrite Hnext in Hg.
    destruct (cursor_observe k _) as [[[]|e|p] c''].
    + destruct Hg as [[-> Hk] ->]. specialize (IH (n + 1)).
      replace (n + 1 =? 0) with false in IH by lia. rewrite IH by lia.
      replace (n + 1 + zlen l) with (n + (zlen l + 1)) by lia.
      split; [intros (Hl & ? & ->)|intros (Heq & ? & ->)].
      * by rewrite <-Hl.
      * injection Heq as Heq. done.
    + destruct Hg as [Hg _]. split; [done|]. intros (Heq & ? & _). exfalso. apply Hg.
      injection Heq as -> _. unfold zlen in *. lia.
    + done.
Qed.

(** An event cursor accepts a batch exactly when its sequence numbers are
    1, 2, 3, ... without gap, repetition or reordering, and then stands at the
    last one. *)
Theorem cursor_accepts_contiguous l c :
  cursor_observe_all l None = (Ok tt, c) ↔
  l = seqZ 1 (zlen l) ∧ zlen l ≤ u64_max
  ∧ c = (if zlen l =? 0 then None else Some (zlen l)).
Proof. apply (cursor_observe_all_ok l 0). done. Qed.

Lemma event_validate_no_panic e : no_panic (event_validate e).
Proof.
  unfold event_validate, report_validate, register_set_validate, write_failure_validate,
    outcome_validate, validate_stage_kind, cleanup_attempt_validate, attempt_context_matches.
  no_panic.
Qed.
#[export] Hint Resolve event_validate_no_panic : nopanic.

(** What an accepted event envelope says about its outer context. *)
Record attributed (e : EventEnvelope) : Prop := {
  ev_state : ∀ tok, event_state_context (ee_event e) = Some tok →
    ee_state e = Some tok ∧ ee_session_id e = Some (st_session_id tok);
  ev_sandbox : is_sandbox_event (ee_event e) = true →
    ∃ sid tok, ee_session_id e = Some sid ∧ ee_state e = Some tok ∧ st_session_id tok = sid
               ∧ sandbox_event_session (ee_event e) = Ok sid;
  ev_result : ∀ id o, ee_event e = DE.CommandResult id o → ee_caused_by e = Some id
}.

Lemma sandbox_event_session_total e :
  is_sandbox_event e = true → ∃ sid, sandbox_event_session e = Ok sid.
Proof. destruct e; try done; intros _; simpl; [|destruct lifecycle]; eauto. Qed.

(** Event validation never reaches its [expect] and [unreachable!] arms,
    and an accepted envelope is attributed: a state-carrying event names the
    session and state of its envelope, a sandbox event belongs to the session
    of its envelope, and a command result to the command that caused it. *)
Theorem event_envelope_attributed e :
  no_panic (event_envelope_validate e)
  ∧ (event_envelope_validate e = Ok tt → attributed e).
Proof.
  unfold event_envelope_validate.
  destruct (is_sandbox_event (ee_event e)) eqn:Hs; simpl; split.
  - no_panic; try (apply fail_if_ok in H3; apply orb_false_iff in H3 as [Ha Hb];
      rewrite bool_decide_eq_false in Ha, Hb).
    + by destruct (ee_session_id e).
    + by destruct (ee_state e).
    + destruct (sandbox_event_session_total _ Hs) as [sid ->]. apply no_panic_ok.
  - intros H. rust_inv H.
    destruct (ee_session_id e) as [sid|] eqn:Hsid, (ee_state e) as [tok|] eqn:Htok; try tauto.
    simplify_eq/=. split; [by destruct (ee_event e)| |by destruct (ee_event e)].
    intros _. by eexists _, _.
  - no_panic.
  - intros H. rust_inv H. split; [|by rewrite Hs|].
    + intros tok Htok. rewrite Htok in *. by rust_inv H7.
    + intros id o He. rewrite He in *. by rust_inv H5.
Qed.
