(* ===== verification/Sorting.v ===== *)
(** Sorting and searching of slices as the standard library does them: the stable
    sort of [sort_by_key] and the binary search of [partition_point], with what
    each of them computes. *)

From Stdlib Require Import Sorted.
From S2P Require Import Prelude.
Open Scope Z_scope.

(** ** [sort_by_key] *)

Section sort.
Context {A : Type} (leb : A → A → bool).

(** After the elements that are not greater: equal keys keep their order. *)
Fixpoint insert_stable (x : A) (l : list A) : list A :=
  match l with
  | [] => [x]
  | y :: l' => if leb y x then y :: insert_stable x l' else x :: l
  end.

Definition sort_stable (l : list A) : list A := foldl (λ sorted x, insert_stable x sorted) [] l.

Abbreviation ordered := (StronglySorted (λ x y, leb x y = true)).

Lemma insert_stable_perm x l : insert_stable x l ≡ₚ x :: l.
Proof.
  induction l as [|y l IH]; [done|]. simpl. destruct (leb y x); [|done].
  rewrite IH. apply Permutation_swap.
Qed.

Lemma sort_stable_perm l : sort_stable l ≡ₚ l.
Proof.
  unfold sort_stable. induction l as [|x l IH] using rev_ind; [done|].
  rewrite foldl_app. simpl. rewrite insert_stable_perm, IH. by rewrite Permutation_app_comm.
Qed.

Context (leb_total : ∀ x y, leb x y = false → leb y x = true).
Context (leb_trans : ∀ x y z, leb x y = true → leb y z = true → leb x z = true).

Lemma insert_stable_ordered x l : ordered l → ordered (insert_stable x l).
Proof.
  induction 1 as [|y l Hl IH Hy]; simpl; [by repeat constructor|].
  destruct (leb y x) eqn:Hyx.
  - constructor; [done|]. rewrite insert_stable_perm. by constructor.
  - constructor; [by constructor|]. apply leb_total in Hyx. constructor; [done|].
    eapply List.Forall_impl; [|exact Hy]. eauto.
Qed.

Lemma sort_stable_ordered l : ordered (sort_stable l).
Proof.
  unfold sort_stable. induction l as [|x l IH] using rev_ind; [constructor|].
  rewrite foldl_app. by apply insert_stable_ordered.
Qed.

(** Sorting what is sorted changes nothing. *)
Lemma insert_stable_last x l : Forall (λ y, leb y x = true) l → insert_stable x l = l ++ [x].
Proof. induction 1 as [|y l Hy _ IH]; [done|]. simpl. by rewrite Hy, IH. Qed.

Lemma sort_stable_id l : ordered l → sort_stable l = l.
Proof.
  unfold sort_stable. induction l as [|x l IH] using rev_ind; [done|]. intros Hs.
  rewrite foldl_app. simpl. assert (ordered l ∧ Forall (λ y, leb y x = true) l) as [Hl Hx].
  { clear IH. induction l as [|y l IH]; [by repeat constructor|]. simpl in Hs.
    apply StronglySorted_inv in Hs as [Hs Hy]. apply Forall_app in Hy as [Hy Hyx].
    destruct (IH Hs). rewrite Forall_singleton in Hyx. split; by constructor. }
  rewrite IH by done. by apply insert_stable_last.
Qed.
End sort.

(** ** [partition_point] *)

Section search.
Context {A : Type} (p : A → bool).

(** The loop of [binary_search_by]: [base] moves up while the element in the
    middle satisfies the predicate. *)
Fixpoint search_loop (fuel : nat) (l : list A) (base size : nat) : nat :=
  match fuel with
  | O => base
  | S fuel =>
      if (size <=? 1)%nat then base
      else
        let half := (size / 2)%nat in
        let mid := (base + half)%nat in
        search_loop fuel l (if default false (p <$> l !! mid) then mid else base) (size - half)
  end.

Definition partition_point (l : list A) : nat :=
  let base := search_loop (length l) l 0 (length l) in
  if default false (p <$> l !! base) then S base else base.

(** A list is partitioned at [n] when exactly its first [n] elements satisfy the
    predicate. *)
Definition partitioned_at (l : list A) (n : nat) : Prop :=
  (n ≤ length l)%nat ∧ ∀ i x, l !! i = Some x → (p x = true ↔ (i < n)%nat).

Lemma partitioned_test l n i :
  partitioned_at l n → default false (p <$> l !! i) = bool_decide (i < n)%nat.
Proof.
  intros [Hn Hp]. destruct (l !! i) as [x|] eqn:Hi; simpl.
  - specialize (Hp i x Hi). case_bool_decide; [by apply Hp|].
    destruct (p x); [|done]. tauto.
  - apply lookup_ge_None in Hi. symmetry. apply bool_decide_eq_false. lia.
Qed.

Lemma search_loop_spec l n fuel base size :
  partitioned_at l n → (size ≤ S fuel)%nat → (1 ≤ size)%nat → (base = 0 ∨ base < n)%nat →
  (n ≤ base + size)%nat →
  let base' := search_loop fuel l base size in (base' = 0 ∨ base' < n)%nat ∧ (n ≤ base' + 1)%nat.
Proof.
  intros Hp. revert base size. induction fuel as [|fuel IH]; intros base size Hf H1 Hb Hn.
  { split; [done|simpl; lia]. }
  cbn [search_loop]. cbv zeta.
  destruct (Nat.leb_spec size 1); [split; [done|lia]|].
  pose proof (Nat.div_mod_eq size 2). pose proof (Nat.mod_upper_bound size 2 ltac:(lia)).
  rewrite (partitioned_test _ _ _ Hp). apply IH; [lia|lia|..]; case_bool_decide; lia.
Qed.

Lemma partition_point_spec l n : partitioned_at l n → partition_point l = n.
Proof.
  intros Hp. unfold partition_point. destruct (decide (l = [])) as [->|Hl].
  { simpl. destruct Hp as [Hn _]. simpl in Hn. lia. }
  assert (1 ≤ length l)%nat by (destruct l; [done|simpl; lia]).
  destruct (search_loop_spec l n (length l) 0 (length l) Hp) as [H1 H2]; [lia..|by left| |].
  { apply Hp. }
  rewrite (partitioned_test _ _ _ Hp). case_bool_decide; lia.
Qed.
End search.
