(* ===== verification/SymbolGraph.v ===== *)
(** Symbol claims and their graph, [resymbol-core/src/symbols.rs]: binary
    identities, claims with their evidence and provenance, their validation, and
    the graph that collects them; and that every graph built by its operations
    validates.

    A confidence is an IEEE double in the format of the standard library's
    [spec_float]. *)

From Stdlib Require Import SpecFloat.
From S2P Require Import Prelude Identity Sandbox.
Open Scope Z_scope.

(** ** Errors *)

Inductive StringEncoding : Type := AsciiText | Utf16LeText.
#[global] Instance StringEncoding_eq_dec : EqDecision StringEncoding.
Proof. solve_decision. Defined.

Module ClaimValidationError.
Inductive claim_error : Type :=
  | InvalidConfidence (value : spec_float)
  | InvalidBinaryId (value : list Z)
  | InvalidEvidenceKind (value : list Z)
  | InvalidStringLiteral (encoding : StringEncoding)
  | EmptyField (field : string)
  | ZeroSize
  | ZeroInstructionSize
  | AddressOverflow
  | MissingEvidence
  | InvalidEvidenceArtifact.
End ClaimValidationError.
Abbreviation ClaimValidationError := ClaimValidationError.claim_error.
Module CVE := ClaimValidationError.

Abbreviation claim_result A := (result A ClaimValidationError).

Definition require_nonempty (field : string) (value : list Z) : claim_result unit :=
  fail_if (trim_is_empty value) (CVE.EmptyField field).

(** ** Confidence *)

Definition f64_zero : spec_float := S754_zero false.
Definition f64_one : spec_float := S754_finite false 4503599627370496 (-52).

(** [value.is_finite() && (0.0..=1.0).contains(&value)]. *)
Definition Confidence_new (value : spec_float) : claim_result spec_float :=
  let finite := match value with S754_infinity _ | S754_nan => false | _ => true end in
  if finite && SFleb f64_zero value && SFleb value f64_one then Ok value
  else Err (CVE.InvalidConfidence value).

(** ** Binaries *)

(** [BinaryId::digest]. *)
Definition BinaryId_digest `{Sha256} (bytes : list Z) : list Z := lower_hex (sha256 bytes).

Inductive BinaryFormat : Type :=
  | PeFormat | ElfFormat | MachOFormat | WasmFormat | OtherFormat (name : list Z).
#[global] Instance BinaryFormat_eq_dec : EqDecision BinaryFormat.
Proof. solve_decision. Defined.

Record BinaryIdentity : Type := mkBinaryIdentity {
  bi_id : list Z;
  bi_size : Z;
  bi_format : BinaryFormat;
  bi_architecture : list Z;
  bi_image_base : Z
}.
#[global] Instance BinaryIdentity_eq_dec : EqDecision BinaryIdentity.
Proof. solve_decision. Defined.

Definition identity_validate (b : BinaryIdentity) : claim_result unit :=
  fail_if (trim_is_empty (bi_architecture b)) (CVE.EmptyField "binary.architecture").

(** ** Claims *)

Inductive SymbolSubject : Type :=
  | FunctionSubject (binary : list Z) (rva : Z) (size : option Z)
  | GlobalSubject (binary : list Z) (rva : Z) (size : option Z)
  | TypeSubject (binary : list Z) (key : list Z).
#[global] Instance SymbolSubject_eq_dec : EqDecision SymbolSubject.
Proof. solve_decision. Defined.

Definition subject_binary (s : SymbolSubject) : list Z :=
  match s with
  | FunctionSubject binary _ _ | GlobalSubject binary _ _ | TypeSubject binary _ => binary
  end.

Definition subject_validate (s : SymbolSubject) : claim_result unit :=
  match s with
  | FunctionSubject _ rva size | GlobalSubject _ rva size =>
      match size with
      | Some size =>
          do? fail_if (size =? 0) CVE.ZeroSize in
          fail_if (bool_decide (checked_add u64_max rva size = None)) CVE.AddressOverflow
      | None => Ok tt
      end
  | TypeSubject _ key => fail_if (trim_is_empty key) (CVE.EmptyField "subject.key")
  end.

Inductive ControlFlowTarget : Type :=
  | FunctionTarget (rva : Z)
  | ImportIatTarget (iat_rva : Z)
  | FunctionPointerTarget (slot_rva rva : Z).
#[global] Instance ControlFlowTarget_eq_dec : EqDecision ControlFlowTarget.
Proof. solve_decision. Defined.

Definition target_rva (t : ControlFlowTarget) : Z :=
  match t with
  | FunctionTarget rva | FunctionPointerTarget _ rva => rva
  | ImportIatTarget iat_rva => iat_rva
  end.

Definition target_is_function (t : ControlFlowTarget) : bool :=
  match t with FunctionTarget _ | FunctionPointerTarget _ _ => true | _ => false end.

Definition target_is_function_at (t : ControlFlowTarget) (rva : Z) : bool :=
  match t with
  | FunctionTarget target_rva | FunctionPointerTarget _ target_rva => target_rva =? rva
  | ImportIatTarget _ => false
  end.

Definition control_flow_validate (t : ControlFlowTarget) : claim_result unit :=
  match t with
  | FunctionTarget _ | ImportIatTarget _ | FunctionPointerTarget _ _ => Ok tt
  end.

Module SymbolAssertion.
Inductive symbol_assertion : Type :=
  | Name (name : list Z)
  | FunctionPrototype (declaration : list Z)
  | FunctionBoundary (size : Z)
  | FunctionEntry
  | DirectCall (call_site_rva : Z) (target : ControlFlowTarget)
  | ThunkTarget (target : ControlFlowTarget)
  | StringLiteral (encoding : StringEncoding) (value : list Z)
  | DataReference (instruction_rva instruction_size target_rva : Z)
  | TypeDefinition (declaration : list Z)
  | ClassMembership (class_name : list Z)
  | Comment (text : list Z).
#[global] Instance symbol_assertion_eq_dec : EqDecision symbol_assertion.
Proof. solve_decision. Defined.
End SymbolAssertion.
Abbreviation SymbolAssertion := SymbolAssertion.symbol_assertion.
Module SA := SymbolAssertion.

Definition assertion_validate (a : SymbolAssertion) : claim_result unit :=
  match a with
  | SA.Name name => require_nonempty "assertion.name" name
  | SA.FunctionPrototype declaration => require_nonempty "assertion.declaration" declaration
  | SA.TypeDefinition declaration => require_nonempty "assertion.declaration" declaration
  | SA.ClassMembership class_name => require_nonempty "assertion.class_name" class_name
  | SA.Comment text => require_nonempty "assertion.text" text
  | SA.StringLiteral encoding value =>
      do? fail_if (trim_is_empty value) (CVE.EmptyField "assertion.value") in
      let valid :=
        match encoding with
        | AsciiText => bytes_all (in_range 0x20 0x7e) value
        | Utf16LeText => negb (existsb is_control value)
        end in
      fail_if (negb valid) (CVE.InvalidStringLiteral encoding)
  | SA.FunctionBoundary size => fail_if (size =? 0) CVE.ZeroSize
  | SA.FunctionEntry => Ok tt
  | SA.DirectCall _ target | SA.ThunkTarget target => control_flow_validate target
  | SA.DataReference _ instruction_size _ =>
      fail_if (instruction_size =? 0) CVE.ZeroInstructionSize
  end.

Definition EvidenceKind_new (value : list Z) : claim_result (list Z) :=
  let valid :=
    in_range 2 128 (str_len value)
    && bytes_all (λ byte, is_ascii_lower byte || is_ascii_digit byte
                          || bool_decide (byte ∈ str ".-_")) value in
  if valid then Ok value else Err (CVE.InvalidEvidenceKind value).

Definition METADATA : list Z := str "metadata".

Record Evidence : Type := mkEvidence {
  ev_kind : list Z;
  ev_summary : list Z;
  ev_confidence : option spec_float;
  ev_artifacts : gmap (list Z) (list Z)
}.

Definition evidence_validate (e : Evidence) : claim_result unit :=
  do? fail_if (trim_is_empty (ev_summary e)) (CVE.EmptyField "evidence.summary") in
  fail_if (existsb (λ kv, trim_is_empty kv.1 || trim_is_empty kv.2) (map_to_list (ev_artifacts e)))
    CVE.InvalidEvidenceArtifact.

Definition Evidence_new (kind summary : list Z) : claim_result Evidence :=
  let evidence := mkEvidence kind summary None ∅ in
  do? evidence_validate evidence in
  Ok evidence.

Module ClaimProducer.
Inductive claim_producer : Type :=
  | Core (component version : list Z)
  | Plugin (id version : list Z)
  | User (reviewer : option (list Z)).
#[global] Instance claim_producer_eq_dec : EqDecision claim_producer.
Proof. solve_decision. Defined.
End ClaimProducer.
Abbreviation ClaimProducer := ClaimProducer.claim_producer.

Record ClaimProvenance : Type := mkProvenance {
  pv_producer : ClaimProducer;
  pv_method : list Z;
  pv_run_id : option (list Z)
}.
#[global] Instance ClaimProvenance_eq_dec : EqDecision ClaimProvenance.
Proof. solve_decision. Defined.

Definition provenance_validate (p : ClaimProvenance) : claim_result unit :=
  do? fail_if (trim_is_empty (pv_method p)) (CVE.EmptyField "provenance.method") in
  do? match pv_producer p with
      | ClaimProducer.Core component version =>
          do? require_nonempty "provenance.producer.component" component in
          require_nonempty "provenance.producer.version" version
      | ClaimProducer.Plugin _ version => require_nonempty "provenance.producer.version" version
      | ClaimProducer.User _ => Ok tt
      end in
  fail_if (match pv_run_id p with Some run_id => trim_is_empty run_id | None => false end)
    (CVE.EmptyField "provenance.run_id").

Record SymbolClaim : Type := mkClaim {
  cl_subject : SymbolSubject;
  cl_assertion : SymbolAssertion;
  cl_confidence : spec_float;
  cl_evidence : list Evidence;
  cl_provenance : ClaimProvenance
}.

Fixpoint each {A E} (f : A → result unit E) (l : list A) : result unit E :=
  match l with
  | [] => Ok tt
  | x :: l => do? f x in each f l
  end.

Definition claim_validate (c : SymbolClaim) : claim_result unit :=
  do? subject_validate (cl_subject c) in
  do? assertion_validate (cl_assertion c) in
  do? provenance_validate (cl_provenance c) in
  do? fail_if (bool_decide (cl_evidence c = [])) CVE.MissingEvidence in
  each evidence_validate (cl_evidence c).

Definition SymbolClaim_new (subject : SymbolSubject) (assertion : SymbolAssertion)
    (confidence : spec_float) (evidence : list Evidence) (provenance : ClaimProvenance)
    : claim_result SymbolClaim :=
  let claim := mkClaim subject assertion confidence evidence provenance in
  do? claim_validate claim in
  Ok claim.

(** ** The graph *)

Module GraphValidationError.
Inductive graph_error : Type :=
  | InvalidClaim (e : ClaimValidationError)
  | UnknownBinary (binary : list Z)
  | MismatchedBinaryKey (key identity : list Z).
End GraphValidationError.
Abbreviation GraphValidationError := GraphValidationError.graph_error.
Module GVE := GraphValidationError.

Record SymbolGraph : Type := mkGraph {
  sg_binaries : gmap (list Z) BinaryIdentity;
  sg_claims : list SymbolClaim
}.

Definition graph_default : SymbolGraph := mkGraph ∅ [].

Definition insert_binary (binary : BinaryIdentity)
    : smonad SymbolGraph ClaimValidationError (option BinaryIdentity) :=
  do! slift (identity_validate binary) in
  let! previous := sget (λ g, sg_binaries g !! bi_id binary) in
  do! supd (λ g, mkGraph (<[bi_id binary := binary]> (sg_binaries g)) (sg_claims g)) in
  sret previous.

Definition submit_claim (claim : SymbolClaim) : smonad SymbolGraph GraphValidationError unit :=
  do! slift (map_err GVE.InvalidClaim (claim_validate claim)) in
  do! sread (λ g, fail_if (bool_decide (sg_binaries g !! subject_binary (cl_subject claim) = None))
                    (GVE.UnknownBinary (subject_binary (cl_subject claim)))) in
  supd (λ g, mkGraph (sg_binaries g) (sg_claims g ++ [claim])).

Definition graph_validate_binary (kv : list Z * BinaryIdentity) : result unit GraphValidationError :=
  do? map_err GVE.InvalidClaim (identity_validate kv.2) in
  fail_if (negb (bool_decide (kv.1 = bi_id kv.2))) (GVE.MismatchedBinaryKey kv.1 (bi_id kv.2)).

Definition graph_validate_claim (g : SymbolGraph) (claim : SymbolClaim)
    : result unit GraphValidationError :=
  do? map_err GVE.InvalidClaim (claim_validate claim) in
  fail_if (bool_decide (sg_binaries g !! subject_binary (cl_subject claim) = None))
    (GVE.UnknownBinary (subject_binary (cl_subject claim))).

Definition graph_validate (g : SymbolGraph) : result unit GraphValidationError :=
  do? each graph_validate_binary (map_to_list (sg_binaries g)) in
  each (graph_validate_claim g) (sg_claims g).

(** The derived equality, which compares confidences as doubles. *)
Definition evidence_eqb (x y : Evidence) : bool :=
  bool_decide (ev_kind x = ev_kind y) && bool_decide (ev_summary x = ev_summary y)
  && option_eqb SFeqb (ev_confidence x) (ev_confidence y)
  && bool_decide (ev_artifacts x = ev_artifacts y).

Fixpoint list_eqb {A} (eqb : A → A → bool) (x y : list A) : bool :=
  match x, y with
  | [], [] => true
  | a :: x, b :: y => eqb a b && list_eqb eqb x y
  | _, _ => false
  end.

Definition claim_eqb (x y : SymbolClaim) : bool :=
  bool_decide (cl_subject x = cl_subject y) && bool_decide (cl_assertion x = cl_assertion y)
  && SFeqb (cl_confidence x) (cl_confidence y)
  && list_eqb evidence_eqb (cl_evidence x) (cl_evidence y)
  && bool_decide (cl_provenance x = cl_provenance y).

Definition graph_eqb (x y : SymbolGraph) : bool :=
  bool_decide (sg_binaries x = sg_binaries y) && list_eqb claim_eqb (sg_claims x) (sg_claims y).

(** ** Graphs validate *)

Lemma each_ok {A E} (f : A → result unit E) l :
  each f l = Ok tt ↔ Forall (λ x, f x = Ok tt) l.
Proof.
  induction l as [|x l IH]; simpl; [by split|]. rewrite list.Forall_cons, <-IH.
  destruct (f x) as [[]|e|p]; simpl; split; try tauto; try done; by intros [Hx _].
Qed.

Lemma no_panic_each {A E} (f : A → result unit E) l :
  (∀ x, no_panic (f x)) → no_panic (each f l).
Proof. intros Hf. induction l as [|x l IH]; simpl; [done|]. by apply no_panic_bind. Qed.

Lemma no_panic_evidence e : no_panic (evidence_validate e).
Proof. unfold evidence_validate. no_panic. Qed.

Lemma no_panic_claim c : no_panic (claim_validate c).
Proof.
  unfold claim_validate, subject_validate, assertion_validate, provenance_validate,
    control_flow_validate, require_nonempty.
  repeat (apply no_panic_bind; [no_panic|intros]). apply no_panic_each, no_panic_evidence.
Qed.
#[export] Hint Resolve no_panic_claim no_panic_evidence : nopanic.

(** What an operation does to a graph. *)
Inductive graph_step : SymbolGraph → SymbolGraph → Prop :=
  | step_binary g b : graph_step g (insert_binary b g).2
  | step_claim g c : graph_step g (submit_claim c g).2.

Definition graph_reachable : SymbolGraph → Prop := rtc graph_step graph_default.

Definition binary_known (g : SymbolGraph) (c : SymbolClaim) : Prop :=
  is_Some (sg_binaries g !! subject_binary (cl_subject c)).

Record graph_ok (g : SymbolGraph) : Prop := {
  go_binaries : ∀ key b, sg_binaries g !! key = Some b → identity_validate b = Ok tt ∧ key = bi_id b;
  go_claims : Forall (λ c, claim_validate c = Ok tt ∧ binary_known g c) (sg_claims g)
}.

Lemma graph_ok_validates g : graph_ok g → graph_validate g = Ok tt.
Proof.
  intros [Hb Hc]. unfold graph_validate. apply result_bind_ok. exists tt. split; apply each_ok.
  - apply list.Forall_forall. intros [k b] Hk%elem_of_map_to_list.
    destruct (Hb k b Hk) as [Hv ->]. unfold graph_validate_binary. simpl. rewrite Hv. simpl.
    by rewrite bool_decide_true.
  - eapply List.Forall_impl; [|exact Hc]. intros c [Hv Hk]. unfold graph_validate_claim.
    rewrite Hv. simpl. rewrite bool_decide_false; [done|]. destruct Hk as [b Hk].
    unfold binary_known in *. by rewrite Hk.
Qed.

Lemma insert_binary_ok b g : graph_ok g → graph_ok (insert_binary b g).2.
Proof.
  intros Hg. unfold insert_binary, sbind, slift, sget, supd, sret.
  destruct (identity_validate b) as [[]|e|p] eqn:Hv; simpl; [|done..]. destruct Hg as [Hb Hc]. split; simpl.
  - intros key b'. destruct (decide (key = bi_id b)) as [->|Hne].
    + rewrite lookup_insert_eq. by intros [= <-].
    + rewrite lookup_insert_ne by done. apply Hb.
  - eapply List.Forall_impl; [|exact Hc]. intros c [Hcv [x Hk]]. split; [done|].
    unfold binary_known. simpl. destruct (decide (subject_binary (cl_subject c) = bi_id b)) as [->|Hne].
    + rewrite lookup_insert_eq. eauto.
    + rewrite lookup_insert_ne by done. eauto.
Qed.

Lemma submit_claim_ok c g : graph_ok g → graph_ok (submit_claim c g).2.
Proof.
  intros Hg. unfold submit_claim, sbind, slift, sread, supd.
  destruct (claim_validate c) as [[]|e|p] eqn:Hv; simpl; [|done..].
  destruct (sg_binaries g !! _) as [b|] eqn:Hk; simpl; [|done]. destruct Hg as [Hb Hc].
  split; simpl; [done|]. apply Forall_app. split; [done|]. constructor; [|done].
  split; [done|]. unfold binary_known. simpl. rewrite Hk. eauto.
Qed.

Lemma graph_reachable_ok g : graph_reachable g → graph_ok g.
Proof.
  apply (rtc_ind_r (R := graph_step) graph_ok graph_default).
  - split; cbn; [|by constructor]. intros key b Hk. by rewrite lookup_empty in Hk.
  - intros x y _ [g' b|g' c] Hok; [by apply insert_binary_ok|by apply submit_claim_ok].
Qed.

(** A claim is accepted exactly when it is valid and about a registered binary. *)
Lemma submit_claim_cases c g :
  submit_claim c g = (Ok tt, mkGraph (sg_binaries g) (sg_claims g ++ [c]))
  ∧ claim_validate c = Ok tt ∧ binary_known g c
  ∨ (∃ e, submit_claim c g = (Err e, g)) ∧ ¬ (claim_validate c = Ok tt ∧ binary_known g c).
Proof.
  pose proof (no_panic_claim c) as Hn. unfold submit_claim, sbind, slift, sread, supd, binary_known.
  destruct (claim_validate c) as [[]|e|p]; cbn [map_err]; [| |by edestruct Hn].
  - destruct (sg_binaries g !! _) as [b|] eqn:Hk; cbn; [left; eauto|right].
    split; [eauto|]. by intros [_ [? ?]].
  - right. split; [eauto|]. by intros [? _].
Qed.

(** C40: symbol graphs: whatever binaries are registered and whatever claims are submitted, in
    whatever order, the graph passes its own validation, every binary under its own
    digest; a claim is accepted exactly when it is valid and about a registered binary, is
    then the last claim of the graph, and changes nothing otherwise. *)
Theorem symbol_graph_sound g :
  graph_reachable g →
  graph_validate g = Ok tt
  ∧ (∀ key b, sg_binaries g !! key = Some b → key = bi_id b ∧ identity_validate b = Ok tt)
  ∧ ∀ c, no_panic (submit_claim c g).1
      ∧ (is_ok (submit_claim c g).1 = true ↔ claim_validate c = Ok tt ∧ binary_known g c)
      ∧ (submit_claim c g).2
        = if is_ok (submit_claim c g).1 then mkGraph (sg_binaries g) (sg_claims g ++ [c]) else g.
Proof.
  intros Hg%graph_reachable_ok. split; [by apply graph_ok_validates|]. split.
  - intros key b Hk. by destruct (go_binaries _ Hg _ _ Hk).
  - intros c. destruct (submit_claim_cases c g) as [(-> & Hv & Hb)|[[e ->] Hn]]; by cbn.
Qed.

(** ** Equality *)

Lemma list_eqb_refl {A} (eqb : A → A → bool) l :
  Forall (λ x, eqb x x = true) l → list_eqb eqb l l = true.
Proof. induction 1 as [|x l Hx _ IH]; [done|]. simpl. by rewrite Hx, IH. Qed.
