(* ===== verification/ElfAnalysis.v ===== *)
(** The ELF container analysis, [resymbol-analysis/src/elf.rs] and the ELF types of
    [types.rs]: the bounded parser of headers, tables and symbols, the load
    segments and extent of the image, the symbol graph, and the validation of an
    analysis. *)

From Stdlib Require Import SpecFloat.
From S2P Require Import Prelude Utf8 Identity Sandbox Sorting SymbolGraph.
Open Scope Z_scope.

(** ** Errors *)

Module AnalysisError.
Inductive analysis_error : Type :=
  | UnsupportedBinaryFormat (magic : list Z)
  | InvalidElfSignature
  | UnsupportedElfClass (class : Z)
  | UnsupportedElfDataEncoding (data : Z)
  | UnsupportedElfVersion (version : Z) (context : string)
  | UnsupportedElfType (elf_type : Z)
  | InvalidDosSignature (found : list Z)
  | InvalidPeSignature (offset : Z)
  | PeHeaderOffsetLimit (offset limit : Z)
  | UnsupportedMachine (machine expected : Z)
  | UnsupportedOptionalHeader (magic expected : Z)
  | OptionalHeaderTooSmall (actual minimum : Z)
  | LimitExceeded (kind : string) (count limit : Z)
  | Truncated (context : string) (offset needed available : Z)
  | ArithmeticOverflow (what : string)
  | IntegerConversion (what : string)
  | InvalidField (field : string) (reason : list Z)
  | UnmappedRva (context : string) (rva size : Z)
  | UnterminatedString (context : string) (rva limit : Z)
  | InvalidUtf8 (context : string) (rva : Z)
  | MissingTerminator (context : string)
  | OverlappingSections (first second : Z) (space : string)
  | InvalidMachOMagic (magic : list Z)
  | InvalidMachOSlice (index : Z)
  | Claim (e : ClaimValidationError)
  | Graph (e : GraphValidationError).
End AnalysisError.
Abbreviation AnalysisError := AnalysisError.analysis_error.
Module AE := AnalysisError.

Abbreviation elf_result A := (result A AnalysisError).

(** [{:#x}]. *)
Definition hash_x (n : Z) : list Z := str "0x" ++ format_x n.

(** ** Vocabulary *)

Definition MAX_ELF_PROGRAM_HEADERS : Z := 1024.
Definition MAX_ELF_SECTION_HEADERS : Z := 4096.
Definition MAX_ELF_SYMBOLS : Z := 262144.
Definition ELF_TYPE_EXECUTABLE : Z := 2.
Definition ELF_TYPE_DYNAMIC : Z := 3.
Definition ELF_PROGRAM_TYPE_LOAD : Z := 1.
Definition ELF_SECTION_TYPE_SYMTAB : Z := 2.
Definition ELF_SECTION_TYPE_NOBITS : Z := 8.
Definition ELF_SECTION_TYPE_DYNSYM : Z := 11.
Definition ELF_SYMBOL_TYPE_OBJECT : Z := 1.
Definition ELF_SYMBOL_TYPE_FUNC : Z := 2.
Definition ELF_SECTION_FLAG_ALLOC : Z := 2.
Definition ELF_SECTION_INDEX_EXTENDED : Z := 0xffff.
Definition ELF_CURRENT_VERSION : Z := 1.

Inductive ElfClass : Type := Elf32 | Elf64.
#[global] Instance ElfClass_eq_dec : EqDecision ElfClass.
Proof. solve_decision. Defined.

Definition ElfClass_from_ident (value : Z) : option ElfClass :=
  if value =? 1 then Some Elf32 else if value =? 2 then Some Elf64 else None.

Definition class_is_64 (c : ElfClass) : bool := match c with Elf64 => true | Elf32 => false end.
Definition class_header_size (c : ElfClass) : Z := match c with Elf32 => 52 | Elf64 => 64 end.
Definition class_program_header_size (c : ElfClass) : Z :=
  match c with Elf32 => 32 | Elf64 => 56 end.
Definition class_section_header_size (c : ElfClass) : Z :=
  match c with Elf32 => 40 | Elf64 => 64 end.
Definition class_symbol_size (c : ElfClass) : Z := match c with Elf32 => 16 | Elf64 => 24 end.
Definition class_address_space_end (c : ElfClass) : option Z :=
  match c with Elf32 => Some (2 ^ 32) | Elf64 => None end.

Inductive ElfEndian : Type := ElfLittle | ElfBig.
#[global] Instance ElfEndian_eq_dec : EqDecision ElfEndian.
Proof. solve_decision. Defined.

Definition ElfEndian_from_ident (value : Z) : option ElfEndian :=
  if value =? 1 then Some ElfLittle else if value =? 2 then Some ElfBig else None.

Definition endian_suffix (e : ElfEndian) : list Z :=
  match e with ElfLittle => str "le" | ElfBig => str "be" end.

Inductive ElfMachine : Type :=
  | X86 | X86_64 | Arm | Aarch64 | Mips | Mips64 | Riscv | PowerPc | PowerPc64
  | OtherMachine (value : Z).

Definition ElfMachine_from_raw (machine : Z) (class : ElfClass) : ElfMachine :=
  if machine =? 3 then X86
  else if machine =? 8 then (if class_is_64 class then Mips64 else Mips)
  else if machine =? 20 then PowerPc
  else if machine =? 21 then PowerPc64
  else if machine =? 40 then Arm
  else if machine =? 62 then X86_64
  else if machine =? 183 then Aarch64
  else if machine =? 243 then Riscv
  else OtherMachine machine.

(** [{:#06x}] of a sixteen-bit value. *)
Definition hash_06x (n : Z) : list Z :=
  let digits := format_x n in
  str "0x" ++ replicate (4 - length digits) 48 ++ digits.

Definition elf_architecture (class : ElfClass) (machine : ElfMachine) (endian : ElfEndian)
    : list Z :=
  let class_token := if class_is_64 class then str "elf64" else str "elf32" in
  let '(arch_token, with_endian) :=
    match machine with
    | X86 => (str "x86", true)
    | X86_64 => (str "x86-64", false)
    | Arm => (str "arm", true)
    | Aarch64 => (str "aarch64", false)
    | Mips | Mips64 => (str "em-mips", true)
    | Riscv => (str "riscv", true)
    | PowerPc => (str "ppc", true)
    | PowerPc64 => (str "ppc64", true)
    | OtherMachine value => (str "em-" ++ hash_06x value, true)
    end in
  if with_endian : bool then class_token ++ str "-" ++ arch_token ++ str "-" ++ endian_suffix endian
  else class_token ++ str "-" ++ arch_token.

Record ElfProgramHeader : Type := mkElfProgramHeader {
  eph_table_index : Z;
  eph_segment_type : Z;
  eph_file_offset : Z;
  eph_virtual_address : Z;
  eph_physical_address : Z;
  eph_file_size : Z;
  eph_memory_size : Z;
  eph_flags : Z;
  eph_alignment : Z
}.

Record ElfSectionHeader : Type := mkElfSectionHeader {
  esh_table_index : Z;
  esh_name_offset : Z;
  esh_section_type : Z;
  esh_flags : Z;
  esh_virtual_address : Z;
  esh_file_offset : Z;
  esh_size : Z;
  esh_link : Z;
  esh_info : Z;
  esh_address_alignment : Z;
  esh_entry_size : Z
}.

Record ElfLoadSegment : Type := mkElfLoadSegment {
  ls_program_header_index : Z;
  ls_file_offset : Z;
  ls_file_size : Z;
  ls_virtual_address : Z;
  ls_memory_size : Z;
  ls_flags : Z;
  ls_alignment : Z
}.
#[global] Instance ElfLoadSegment_eq_dec : EqDecision ElfLoadSegment.
Proof. solve_decision. Defined.

Definition segment_readable (s : ElfLoadSegment) : bool := negb (Z.land (ls_flags s) 4 =? 0).
Definition segment_writable (s : ElfLoadSegment) : bool := negb (Z.land (ls_flags s) 2 =? 0).
Definition segment_executable (s : ElfLoadSegment) : bool := negb (Z.land (ls_flags s) 1 =? 0).

Record ElfSymbol : Type := mkElfSymbol {
  es_table_index : Z;
  es_name : list Z;
  es_value : Z;
  es_size : Z;
  es_info : Z;
  es_other : Z;
  es_section_index : Z
}.

Record ElfAnalysis : Type := mkElfAnalysis {
  elf_identity : BinaryIdentity;
  elf_class : ElfClass;
  elf_endian : ElfEndian;
  elf_os_abi : Z;
  elf_abi_version : Z;
  elf_type : Z;
  elf_machine : Z;
  elf_version : Z;
  elf_entry_va : Z;
  elf_entry_rva : Z;
  elf_flags : Z;
  elf_header_size : Z;
  elf_program_header_offset : Z;
  elf_program_header_entry_size : Z;
  elf_program_headers : list ElfProgramHeader;
  elf_section_header_offset : Z;
  elf_section_header_entry_size : Z;
  elf_section_name_table_index : Z;
  elf_section_headers : list ElfSectionHeader;
  elf_load_segments : list ElfLoadSegment;
  elf_image_size : Z;
  elf_symbols : list ElfSymbol;
  elf_symbol_scan_truncated : bool;
  elf_symbol_graph : SymbolGraph
}.

(** ** Checks *)

Definition invalid {A} (field : string) (reason : list Z) : elf_result A :=
  Err (AE.InvalidField field reason).

(** A guard that ends in [invalid]. *)
Definition invalid_if (b : bool) (field : string) (reason : list Z) : elf_result unit :=
  if b then invalid field reason else Ok tt.

Definition elf_try_from (top n : Z) (what : string) : elf_result Z :=
  if n <=? top then Ok n else Err (AE.IntegerConversion what).

Definition usize_to_u64 (value : Z) (context : string) : elf_result Z :=
  elf_try_from u64_max value context.

Definition elf_enforce_count (kind : string) (count limit : Z) : elf_result unit :=
  if limit <? count then Err (AE.LimitExceeded kind count limit) else Ok tt.

Definition narrow_alignment (value : Z) (field : string) : elf_result Z :=
  if value <=? u32_max then Ok value
  else invalid field (str "alignment beyond the 32-bit range is unsupported").

Definition narrow_section_flags (value : Z) : elf_result Z :=
  if value <=? u32_max then Ok value
  else invalid "ELF section flags"
         (str "processor-specific flags beyond the 32-bit range are unsupported").

Definition elf_table_entry_offset (offset index entry_size : Z) : elf_result Z :=
  let? relative := ok_or (checked_mul u64_max index entry_size)
                     (AE.ArithmeticOverflow "ELF table entry offset") in
  let? absolute := ok_or (checked_add u64_max offset relative)
                     (AE.ArithmeticOverflow "ELF table entry offset") in
  elf_try_from usize_max absolute "ELF table offset".

Definition elf_file_range (offset size file_size : Z) (field : string) : elf_result unit :=
  do? invalid_if (file_size <? offset) field
        (str "offset " ++ hash_x offset ++ str " exceeds file size " ++ hash_x file_size) in
  if size =? 0 then Ok tt
  else
    let? end_ := ok_or (checked_add u64_max offset size) (AE.ArithmeticOverflow "ELF file range") in
    invalid_if (file_size <? end_) field
      (str "range " ++ hash_x offset ++ str ".." ++ hash_x end_ ++ str " exceeds file size "
       ++ hash_x file_size).

Definition validate_table_model (offset count entry_size file_size : Z) (field : string)
    : elf_result unit :=
  let? count := usize_to_u64 count "ELF table count" in
  let? bytes := ok_or (checked_mul u64_max count entry_size)
                  (AE.ArithmeticOverflow "ELF table byte size") in
  elf_file_range offset bytes file_size field.

(** [is_power_of_two] of an unsigned integer. *)
Definition is_power_of_two (n : Z) : bool := (0 <? n) && (Z.land n (n - 1) =? 0).

Definition validate_segment_alignment (header : ElfProgramHeader) : elf_result unit :=
  let alignment := eph_alignment header in
  do? invalid_if ((1 <? alignment) && negb (is_power_of_two alignment)) "ELF segment alignment"
        (str "program header " ++ format_d (eph_table_index header)
         ++ str " uses non-power-of-two alignment " ++ hash_x alignment) in
  if 1 <? alignment
  then invalid_if (negb (eph_virtual_address header mod alignment
                         =? eph_file_offset header mod alignment)) "ELF segment alignment"
         (str "program header " ++ format_d (eph_table_index header)
          ++ str " has incongruent virtual and file offsets for alignment " ++ hash_x alignment)
  else Ok tt.

Definition validate_section_header (header : ElfSectionHeader) (file_size : Z) (class : ElfClass)
    : elf_result unit :=
  do? invalid_if ((1 <? esh_address_alignment header)
                  && negb (is_power_of_two (esh_address_alignment header))) "ELF section alignment"
        (str "section header " ++ format_d (esh_table_index header)
         ++ str " uses non-power-of-two alignment " ++ hash_x (esh_address_alignment header)) in
  do? (if negb (esh_section_type header =? ELF_SECTION_TYPE_NOBITS)
       then elf_file_range (esh_file_offset header) (esh_size header) file_size "ELF section data"
       else Ok tt) in
  if negb (Z.land (esh_flags header) ELF_SECTION_FLAG_ALLOC =? 0) && negb (esh_size header =? 0)
  then
    let? virtual_end := ok_or (checked_add u64_max (esh_virtual_address header) (esh_size header))
                          (AE.ArithmeticOverflow "ELF allocated section virtual range") in
    match class_address_space_end class with
    | Some ceiling =>
        invalid_if (ceiling <? virtual_end) "ELF allocated section virtual range"
          (str "section header " ++ format_d (esh_table_index header)
           ++ str " extends past the ELF32 address space")
    | None => Ok tt
    end
  else Ok tt.

Definition validate_section_header_zero (headers : list ElfSectionHeader) : elf_result unit :=
  match headers with
  | [] => Ok tt
  | header :: _ =>
      invalid_if
        (negb (esh_name_offset header =? 0) || negb (esh_section_type header =? 0)
         || negb (esh_flags header =? 0) || negb (esh_virtual_address header =? 0)
         || negb (esh_file_offset header =? 0) || negb (esh_size header =? 0)
         || negb (esh_link header =? 0) || negb (esh_info header =? 0)
         || negb (esh_address_alignment header =? 0) || negb (esh_entry_size header =? 0))
        "ELF section header zero"
        (str "extended numbering is unsupported, so the reserved record must be all zero")
  end.

(** ** The image *)

(** The body of the loop of [derive_load_segments], with the segment it pushes. *)
Definition derive_load_segment (file_size : Z) (class : ElfClass) (header : ElfProgramHeader)
    : elf_result (option ElfLoadSegment) :=
  do? elf_file_range (eph_file_offset header) (eph_file_size header) file_size
        "ELF program segment" in
  do? validate_segment_alignment header in
  if negb (eph_segment_type header =? ELF_PROGRAM_TYPE_LOAD) then Ok None
  else
    do? invalid_if (eph_memory_size header <? eph_file_size header) "ELF PT_LOAD sizes"
          (str "program header " ++ format_d (eph_table_index header) ++ str " has file size "
           ++ hash_x (eph_file_size header) ++ str " larger than memory size "
           ++ hash_x (eph_memory_size header)) in
    if eph_memory_size header =? 0 then Ok None
    else
      let? virtual_end := ok_or (checked_add u64_max (eph_virtual_address header)
                                   (eph_memory_size header))
                            (AE.ArithmeticOverflow "ELF PT_LOAD virtual range") in
      do? match class_address_space_end class with
          | Some ceiling =>
              invalid_if (ceiling <? virtual_end) "ELF PT_LOAD virtual range"
                (str "program header " ++ format_d (eph_table_index header)
                 ++ str " extends past the ELF32 address space")
          | None => Ok tt
          end in
      Ok (Some (mkElfLoadSegment (eph_table_index header) (eph_file_offset header)
                  (eph_file_size header) (eph_virtual_address header) (eph_memory_size header)
                  (eph_flags header) (eph_alignment header))).

Fixpoint collect_load_segments (file_size : Z) (class : ElfClass) (headers : list ElfProgramHeader)
    : elf_result (list ElfLoadSegment) :=
  match headers with
  | [] => Ok []
  | header :: headers =>
      let? segment := derive_load_segment file_size class header in
      let? segments := collect_load_segments file_size class headers in
      Ok (option_list segment ++ segments)
  end.

(** The order of [sort_by_key] on the address and then the table index. *)
Definition segment_leb (x y : ElfLoadSegment) : bool :=
  (ls_virtual_address x <? ls_virtual_address y)
  || ((ls_virtual_address x =? ls_virtual_address y)
      && (ls_program_header_index x <=? ls_program_header_index y)).

(** The loop over [windows(2)]. *)
Fixpoint check_overlaps (segments : list ElfLoadSegment) : elf_result unit :=
  match segments with
  | first :: ((second :: _) as rest) =>
      let? first_end := ok_or (checked_add u64_max (ls_virtual_address first) (ls_memory_size first))
                          (AE.ArithmeticOverflow "ELF PT_LOAD virtual range") in
      do? invalid_if (ls_virtual_address second <? first_end) "ELF PT_LOAD segments"
            (str "program headers " ++ format_d (ls_program_header_index first) ++ str " and "
             ++ format_d (ls_program_header_index second)
             ++ str " have overlapping virtual ranges") in
      check_overlaps rest
  | _ => Ok tt
  end.

Definition derive_load_segments (headers : list ElfProgramHeader) (file_size : Z) (class : ElfClass)
    : elf_result (list ElfLoadSegment) :=
  let? segments := collect_load_segments file_size class headers in
  let segments := sort_stable segment_leb segments in
  do? invalid_if (bool_decide (segments = [])) "ELF PT_LOAD segments"
        (str "at least one non-empty mapping is required") in
  do? check_overlaps segments in
  Ok segments.

Fixpoint extent_end (current : Z) (segments : list ElfLoadSegment) : elf_result Z :=
  match segments with
  | [] => Ok current
  | segment :: segments =>
      let? end_ := ok_or (checked_add u64_max (ls_virtual_address segment) (ls_memory_size segment))
                     (AE.ArithmeticOverflow "ELF image extent") in
      extent_end (Z.max current end_) segments
  end.

Definition image_extent (segments : list ElfLoadSegment) : elf_result (Z * Z) :=
  let? first := ok_or (head segments)
                  (AE.InvalidField "ELF PT_LOAD segments"
                     (str "at least one non-empty mapping is required")) in
  let image_base := ls_virtual_address first in
  let? image_end := extent_end image_base segments in
  let? image_size := ok_or (checked_sub image_end image_base)
                       (AE.ArithmeticOverflow "ELF image size") in
  do? invalid_if (image_size =? 0) "ELF image size" (str "the mapped image must not be empty") in
  Ok (image_base, image_size).

Definition holds_entry (entry_va : Z) (segment : ElfLoadSegment) : bool :=
  let start := ls_virtual_address segment in
  segment_executable segment && (start <=? entry_va)
  && match checked_add u64_max start (ls_file_size segment) with
     | Some end_ => entry_va <? end_
     | None => false
     end.

Definition entry_rva (elf_type entry_va image_base : Z) (segments : list ElfLoadSegment)
    : elf_result Z :=
  match find (holds_entry entry_va) segments with
  | None =>
      if elf_type =? ELF_TYPE_DYNAMIC then Ok 0
      else invalid "ELF entry address"
             (str "the entry must lie in file-backed bytes of an executable PT_LOAD segment")
  | Some _ =>
      ok_or (checked_sub entry_va image_base)
        (AE.InvalidField "ELF entry address" (str "the entry lies below the image base"))
  end.

(** ** The symbol graph *)

Definition rva_in_load_segment (rva image_base : Z) (segments : list ElfLoadSegment) : bool :=
  existsb (λ segment,
    match checked_sub (ls_virtual_address segment) image_base with
    | None => false
    | Some start =>
        match checked_add u64_max start (ls_memory_size segment) with
        | None => false
        | Some end_ => (start <=? rva) && (rva <? end_)
        end
    end) segments.

(** The double nearest to 0.95. *)
Definition NAME_CONFIDENCE : spec_float := S754_finite false 8556839292003942 (-53).

(** [CARGO_PKG_VERSION] of the workspace. *)
Definition PACKAGE_VERSION : list Z := str "0.1.0-alpha.1".

Definition elf_provenance : ClaimProvenance :=
  mkProvenance (ClaimProducer.Core (str "resymbol-analysis") PACKAGE_VERSION)
    (str "elf-symbol-table") None.

(** The claim about a function or global at an address of the image. *)
Definition symbol_name_claim (identity : BinaryIdentity) (name_confidence : spec_float)
    (metadata_kind : list Z) (symbol : ElfSymbol) (is_function : bool) (rva : Z)
    : elf_result SymbolClaim :=
  let? evidence := map_err AE.Claim
                     (Evidence_new metadata_kind (str "exact name from an ELF symbol table")) in
  let artifacts :=
    <[str "symbol_kind" := if is_function then str "function" else str "global"]>
    (<[str "table_index" := format_d (es_table_index symbol)]>
     (<[str "symbol_rva" := hash_x rva]>
      (<[str "symbol_value" := hash_x (es_value symbol)]> (ev_artifacts evidence)))) in
  let evidence := mkEvidence (ev_kind evidence) (ev_summary evidence) (Some name_confidence)
                    artifacts in
  let subject := if is_function then FunctionSubject (bi_id identity) rva None
                 else GlobalSubject (bi_id identity) rva None in
  map_err AE.Claim
    (SymbolClaim_new subject (SA.Name (es_name symbol)) name_confidence [evidence] elf_provenance).

(** The body of the loop over the symbols. *)
Definition add_symbol (identity : BinaryIdentity) (segments : list ElfLoadSegment)
    (name_confidence : spec_float) (metadata_kind : list Z) (symbol : ElfSymbol)
    : smonad SymbolGraph AnalysisError unit :=
  let symbol_type := Z.land (es_info symbol) 0x0f in
  let is_function := symbol_type =? ELF_SYMBOL_TYPE_FUNC in
  let is_global := symbol_type =? ELF_SYMBOL_TYPE_OBJECT in
  if (negb is_function && negb is_global) || bool_decide (es_name symbol = []) then sret tt
  else
    match checked_sub (es_value symbol) (bi_image_base identity) with
    | None => sret tt
    | Some rva =>
        if negb (rva_in_load_segment rva (bi_image_base identity) segments) then sret tt
        else
          let! claim := slift (symbol_name_claim identity name_confidence metadata_kind symbol
                                 is_function rva) in
          smap_err AE.Graph (submit_claim claim)
    end.

Fixpoint add_symbols (identity : BinaryIdentity) (segments : list ElfLoadSegment)
    (name_confidence : spec_float) (metadata_kind : list Z) (symbols : list ElfSymbol)
    : smonad SymbolGraph AnalysisError unit :=
  match symbols with
  | [] => sret tt
  | symbol :: symbols =>
      do! add_symbol identity segments name_confidence metadata_kind symbol in
      add_symbols identity segments name_confidence metadata_kind symbols
  end.

Definition build_symbol_graph (identity : BinaryIdentity) (symbols : list ElfSymbol)
    (segments : list ElfLoadSegment) : elf_result SymbolGraph :=
  let build :=
    do! smap_err AE.Claim (insert_binary identity) in
    let! name_confidence := slift (map_err AE.Claim (Confidence_new NAME_CONFIDENCE)) in
    let! metadata_kind := slift (map_err AE.Claim (EvidenceKind_new METADATA)) in
    add_symbols identity segments name_confidence metadata_kind symbols in
  let '(built, graph) := build graph_default in
  do? built in
  Ok graph.

(** ** Validation of an analysis *)

Definition validate_symbols (symbols : list ElfSymbol) : elf_result unit :=
  do? (if MAX_ELF_SYMBOLS <? zlen symbols
       then
         let? count := usize_to_u64 (zlen symbols) "ELF symbol count" in
         let? limit := usize_to_u64 MAX_ELF_SYMBOLS "ELF symbol cap" in
         Err (AE.LimitExceeded "ELF symbol" count limit)
       else Ok tt) in
  each (λ symbol, invalid_if (bool_decide (es_name symbol = [])) "ELF symbol name"
                    (str "recovered symbols must be named")) symbols.

Definition validate_section_table_model (a : ElfAnalysis) : elf_result unit :=
  let canonical_entry_size := class_section_header_size (elf_class a) in
  let count := zlen (elf_section_headers a) in
  if count =? 0
  then invalid_if (negb (elf_section_header_offset a =? 0)
                   || negb (elf_section_name_table_index a =? 0)
                   || (negb (elf_section_header_entry_size a =? 0)
                       && negb (elf_section_header_entry_size a =? canonical_entry_size)))
         "ELF section-header table" (str "the absent table has inconsistent header metadata")
  else
    let? section_count := usize_to_u64 count "ELF section-header count" in
    do? elf_enforce_count "ELF section header" section_count MAX_ELF_SECTION_HEADERS in
    do? invalid_if (negb (elf_section_header_entry_size a =? canonical_entry_size))
          "ELF section-header entry size" (str "expected the canonical section-header size") in
    do? invalid_if (elf_section_header_offset a <? elf_header_size a) "ELF section-header offset"
          (str "the table overlaps the ELF header") in
    do? invalid_if ((elf_section_name_table_index a =? ELF_SECTION_INDEX_EXTENDED)
                    || (negb (elf_section_name_table_index a =? 0)
                        && (count <=? elf_section_name_table_index a)))
          "ELF section-name table index" (str "the index lies outside the section-header table") in
    do? validate_table_model (elf_section_header_offset a) count (elf_section_header_entry_size a)
          (bi_size (elf_identity a)) "ELF section-header table" in
    validate_section_header_zero (elf_section_headers a).

(** [iter().enumerate()]. *)
Definition enumerate {A} (l : list A) : list (Z * A) := imap (λ i x, (Z.of_nat i, x)) l.

Definition validate_program_header_model (a : ElfAnalysis) (entry : Z * ElfProgramHeader)
    : elf_result unit :=
  let '(index, header) := entry in
  do? invalid_if (negb (eph_table_index header =? index)) "ELF program-header index"
        (str "records must retain contiguous source-table order") in
  do? elf_file_range (eph_file_offset header) (eph_file_size header) (bi_size (elf_identity a))
        "ELF program segment" in
  validate_segment_alignment header.

Definition validate_section_header_model (a : ElfAnalysis) (entry : Z * ElfSectionHeader)
    : elf_result unit :=
  let '(index, header) := entry in
  do? invalid_if (negb (esh_table_index header =? index)) "ELF section-header index"
        (str "records must retain contiguous source-table order") in
  validate_section_header header (bi_size (elf_identity a)) (elf_class a).

(** The fields of the file header. *)
Definition validate_header_model (a : ElfAnalysis) : elf_result unit :=
  do? map_err AE.Claim (identity_validate (elf_identity a)) in
  do? invalid_if (negb (bool_decide (bi_format (elf_identity a) = ElfFormat)))
        "ELF identity format" (str "expected the ELF format marker") in
  let machine_kind := ElfMachine_from_raw (elf_machine a) (elf_class a) in
  let expected_architecture := elf_architecture (elf_class a) machine_kind (elf_endian a) in
  do? invalid_if (negb (bool_decide (bi_architecture (elf_identity a) = expected_architecture)))
        "ELF identity architecture" (str "expected `" ++ expected_architecture ++ str "`") in
  do? invalid_if (bi_size (elf_identity a) <? class_header_size (elf_class a))
        "ELF identity size" (str "the file is smaller than one ELF header") in
  do? fail_if (negb (elf_type a =? ELF_TYPE_EXECUTABLE) && negb (elf_type a =? ELF_TYPE_DYNAMIC))
        (AE.UnsupportedElfType (elf_type a)) in
  do? fail_if (negb (elf_version a =? ELF_CURRENT_VERSION))
        (AE.UnsupportedElfVersion (elf_version a) "header") in
  do? invalid_if (negb (elf_header_size a =? class_header_size (elf_class a))) "ELF header size"
        (str "expected the canonical header size") in
  do? invalid_if (negb (elf_program_header_entry_size a =? class_program_header_size (elf_class a)))
        "ELF program-header entry size" (str "expected the canonical program-header size") in
  do? invalid_if (bool_decide (elf_program_headers a = [])) "ELF program headers"
        (str "at least one record is required") in
  let? count := usize_to_u64 (zlen (elf_program_headers a)) "ELF program-header count" in
  do? elf_enforce_count "ELF program header" count MAX_ELF_PROGRAM_HEADERS in
  do? validate_table_model (elf_program_header_offset a) (zlen (elf_program_headers a))
        (elf_program_header_entry_size a) (bi_size (elf_identity a)) "ELF program-header table" in
  invalid_if (elf_program_header_offset a <? elf_header_size a) "ELF program-header offset"
    (str "the table overlaps the ELF header").

(** What is derived from the tables. *)
Definition validate_derived_model (a : ElfAnalysis) : elf_result unit :=
  let? expected_load_segments := derive_load_segments (elf_program_headers a)
                                   (bi_size (elf_identity a)) (elf_class a) in
  do? invalid_if (negb (bool_decide (elf_load_segments a = expected_load_segments)))
        "ELF load segments"
        (str "the sparse mapping does not match the ordered PT_LOAD records") in
  let? extent := image_extent (elf_load_segments a) in
  let '(image_base, image_size) := extent in
  do? invalid_if (negb (bi_image_base (elf_identity a) =? image_base)) "ELF image base"
        (str "the identity base is not the lowest non-empty PT_LOAD address") in
  do? invalid_if (negb (elf_image_size a =? image_size)) "ELF image size"
        (str "the image extent does not match the sparse PT_LOAD mapping") in
  let? expected_entry_rva := entry_rva (elf_type a) (elf_entry_va a) image_base
                               (elf_load_segments a) in
  do? invalid_if (negb (elf_entry_rva a =? expected_entry_rva)) "ELF entry RVA"
        (str "the RVA does not match the entry VA and image base") in
  do? validate_symbols (elf_symbols a) in
  let? expected_graph := build_symbol_graph (elf_identity a) (elf_symbols a)
                           (elf_load_segments a) in
  invalid_if (negb (graph_eqb (elf_symbol_graph a) expected_graph)) "ELF symbol graph"
    (str "the graph must be reproducible from the exact identity and stored symbols").

Definition validate_elf_analysis (a : ElfAnalysis) : elf_result unit :=
  do? validate_header_model a in
  do? validate_section_table_model a in
  do? each (validate_program_header_model a) (enumerate (elf_program_headers a)) in
  do? each (validate_section_header_model a) (enumerate (elf_section_headers a)) in
  validate_derived_model a.

(** ** The reader *)

Record ElfReader : Type := mkElfReader {
  er_bytes : list Z;
  er_class : ElfClass;
  er_endian : ElfEndian
}.

Definition elf_len_u64 (r : ElfReader) : elf_result Z :=
  usize_to_u64 (zlen (er_bytes r)) "ELF input size".

Definition elf_require (r : ElfReader) (offset needed : Z) (context : string) : elf_result unit :=
  let? end_ := ok_or (checked_add usize_max offset needed)
                 (AE.ArithmeticOverflow "ELF read range") in
  fail_if (zlen (er_bytes r) <? end_)
    (AE.Truncated context offset needed (Z.max 0 (zlen (er_bytes r) - offset))).

Definition elf_bytes (r : ElfReader) (offset size : Z) (context : string) : elf_result (list Z) :=
  do? elf_require r offset size context in
  let? end_ := plain_add offset size in
  index_range offset end_ (er_bytes r).

Definition elf_u8 (r : ElfReader) (offset : Z) (context : string) : elf_result Z :=
  do? elf_require r offset 1 context in
  index_at offset (er_bytes r).

(** [from_le_bytes] or [from_be_bytes]. *)
Definition elf_decode_uint (endian : ElfEndian) (bytes : list Z) : Z :=
  match endian with
  | ElfLittle => from_le_bytes bytes
  | ElfBig => from_le_bytes (reverse bytes)
  end.

Definition elf_u16 (r : ElfReader) (offset : Z) (context : string) : elf_result Z :=
  let? bytes := elf_bytes r offset 2 context in
  Ok (elf_decode_uint (er_endian r) bytes).

Definition elf_u32 (r : ElfReader) (offset : Z) (context : string) : elf_result Z :=
  let? bytes := elf_bytes r offset 4 context in
  Ok (elf_decode_uint (er_endian r) bytes).

Definition elf_u64 (r : ElfReader) (offset : Z) (context : string) : elf_result Z :=
  let? bytes := elf_bytes r offset 8 context in
  Ok (elf_decode_uint (er_endian r) bytes).

Definition elf_addr (r : ElfReader) (offset : Z) (context : string) : elf_result Z :=
  if class_is_64 (er_class r) then elf_u64 r offset context else elf_u32 r offset context.

Definition elf_table (r : ElfReader) (offset count entry_size : Z) (context : string)
    : elf_result unit :=
  let? bytes := ok_or (checked_mul u64_max count entry_size)
                  (AE.ArithmeticOverflow "ELF table byte size") in
  let? offset := elf_try_from usize_max offset "ELF table offset" in
  let? bytes := elf_try_from usize_max bytes "ELF table byte size" in
  elf_require r offset bytes context.

(** [reader.u32(entry_offset + delta)], whose sum panics on overflow. *)
Definition elf_u8_at (r : ElfReader) (offset delta : Z) (context : string) : elf_result Z :=
  let? at_ := plain_add offset delta in elf_u8 r at_ context.
Definition elf_u16_at (r : ElfReader) (offset delta : Z) (context : string) : elf_result Z :=
  let? at_ := plain_add offset delta in elf_u16 r at_ context.
Definition elf_u32_at (r : ElfReader) (offset delta : Z) (context : string) : elf_result Z :=
  let? at_ := plain_add offset delta in elf_u32 r at_ context.
Definition elf_u64_at (r : ElfReader) (offset delta : Z) (context : string) : elf_result Z :=
  let? at_ := plain_add offset delta in elf_u64 r at_ context.

(** ** Parsing *)

Definition validate_section_table_header (r : ElfReader)
    (offset count entry_size name_table_index : Z) : elf_result unit :=
  let class := er_class r in
  let canonical_entry_size := class_section_header_size class in
  if count =? 0
  then
    do? invalid_if (negb (offset =? 0)) "ELF section-header count"
          (str "extended section numbering is not supported") in
    do? invalid_if (negb (entry_size =? 0) && negb (entry_size =? canonical_entry_size))
          "ELF section-header entry size"
          (str "an absent table must use zero or the canonical entry size") in
    invalid_if (negb (name_table_index =? 0)) "ELF section-name table index"
      (str "an absent section table cannot name a string table")
  else
    do? elf_enforce_count "ELF section header" count MAX_ELF_SECTION_HEADERS in
    do? invalid_if (negb (entry_size =? canonical_entry_size)) "ELF section-header entry size"
          (str "expected " ++ format_d canonical_entry_size ++ str " bytes for this class, found "
           ++ format_d entry_size) in
    do? invalid_if (offset =? 0) "ELF section-header offset"
          (str "a non-empty table must have a nonzero file offset") in
    do? invalid_if (offset <? class_header_size class) "ELF section-header offset"
          (str "the table overlaps the ELF header") in
    do? invalid_if (name_table_index =? ELF_SECTION_INDEX_EXTENDED) "ELF section-name table index"
          (str "extended section indexes are not supported") in
    do? invalid_if (negb (name_table_index =? 0) && (count <=? name_table_index))
          "ELF section-name table index" (str "the index lies outside the section-header table") in
    elf_table r offset count entry_size "ELF section-header table".

Definition parse_program_header (r : ElfReader) (offset entry_size table_index : Z)
    : elf_result ElfProgramHeader :=
  let? entry_offset := elf_table_entry_offset offset table_index entry_size in
  if class_is_64 (er_class r)
  then
    let? segment_type := elf_u32 r entry_offset "ELF program type" in
    let? flags := elf_u32_at r entry_offset 4 "ELF segment flags" in
    let? file_offset := elf_u64_at r entry_offset 8 "ELF segment file offset" in
    let? virtual_address := elf_u64_at r entry_offset 16 "ELF segment virtual address" in
    let? physical_address := elf_u64_at r entry_offset 24 "ELF segment physical address" in
    let? file_size := elf_u64_at r entry_offset 32 "ELF segment file size" in
    let? memory_size := elf_u64_at r entry_offset 40 "ELF segment memory size" in
    let? wide_alignment := elf_u64_at r entry_offset 48 "ELF segment alignment" in
    let? alignment := narrow_alignment wide_alignment "ELF segment alignment" in
    Ok (mkElfProgramHeader table_index segment_type file_offset virtual_address physical_address
          file_size memory_size flags alignment)
  else
    let? segment_type := elf_u32 r entry_offset "ELF program type" in
    let? file_offset := elf_u32_at r entry_offset 4 "ELF segment file offset" in
    let? virtual_address := elf_u32_at r entry_offset 8 "ELF segment virtual address" in
    let? physical_address := elf_u32_at r entry_offset 12 "ELF segment physical address" in
    let? file_size := elf_u32_at r entry_offset 16 "ELF segment file size" in
    let? memory_size := elf_u32_at r entry_offset 20 "ELF segment memory size" in
    let? flags := elf_u32_at r entry_offset 24 "ELF segment flags" in
    let? alignment := elf_u32_at r entry_offset 28 "ELF segment alignment" in
    Ok (mkElfProgramHeader table_index segment_type file_offset virtual_address physical_address
          file_size memory_size flags alignment).

(** The records of a table from an index on: [for table_index in 0..count]. *)
Fixpoint parse_table {A} (parse : Z → elf_result A) (index : Z) (remaining : nat)
    : elf_result (list A) :=
  match remaining with
  | O => Ok []
  | S remaining =>
      let? header := parse index in
      let? headers := parse_table parse (index + 1) remaining in
      Ok (header :: headers)
  end.

Definition parse_program_headers (r : ElfReader) (offset count entry_size : Z)
    : elf_result (list ElfProgramHeader) :=
  parse_table (parse_program_header r offset entry_size) 0 (Z.to_nat count).

Definition parse_section_header (r : ElfReader) (offset entry_size table_index : Z)
    : elf_result ElfSectionHeader :=
  let? entry_offset := elf_table_entry_offset offset table_index entry_size in
  let? header :=
    if class_is_64 (er_class r)
    then
      let? name_offset := elf_u32 r entry_offset "ELF section-name offset" in
      let? section_type := elf_u32_at r entry_offset 4 "ELF section type" in
      let? wide_flags := elf_u64_at r entry_offset 8 "ELF section flags" in
      let? flags := narrow_section_flags wide_flags in
      let? virtual_address := elf_u64_at r entry_offset 16 "ELF section virtual address" in
      let? file_offset := elf_u64_at r entry_offset 24 "ELF section file offset" in
      let? size := elf_u64_at r entry_offset 32 "ELF section size" in
      let? link := elf_u32_at r entry_offset 40 "ELF section link" in
      let? info := elf_u32_at r entry_offset 44 "ELF section info" in
      let? address_alignment := elf_u64_at r entry_offset 48 "ELF section alignment" in
      let? entry_size := elf_u64_at r entry_offset 56 "ELF section entry size" in
      Ok (mkElfSectionHeader table_index name_offset section_type flags virtual_address file_offset
            size link info address_alignment entry_size)
    else
      let? name_offset := elf_u32 r entry_offset "ELF section-name offset" in
      let? section_type := elf_u32_at r entry_offset 4 "ELF section type" in
      let? flags := elf_u32_at r entry_offset 8 "ELF section flags" in
      let? virtual_address := elf_u32_at r entry_offset 12 "ELF section virtual address" in
      let? file_offset := elf_u32_at r entry_offset 16 "ELF section file offset" in
      let? size := elf_u32_at r entry_offset 20 "ELF section size" in
      let? link := elf_u32_at r entry_offset 24 "ELF section link" in
      let? info := elf_u32_at r entry_offset 28 "ELF section info" in
      let? address_alignment := elf_u32_at r entry_offset 32 "ELF section alignment" in
      let? entry_size := elf_u32_at r entry_offset 36 "ELF section entry size" in
      Ok (mkElfSectionHeader table_index name_offset section_type flags virtual_address file_offset
            size link info address_alignment entry_size) in
  let? file_size := elf_len_u64 r in
  do? validate_section_header header file_size (er_class r) in
  Ok header.

Definition parse_section_headers (r : ElfReader) (offset count entry_size : Z)
    : elf_result (list ElfSectionHeader) :=
  parse_table (parse_section_header r offset entry_size) 0 (Z.to_nat count).

Definition resolve_symbol_name (strtab : list Z) (name_offset : Z) : option (list Z) :=
  if zlen strtab <? name_offset then None
  else
    let tail := drop (Z.to_nat name_offset) strtab in
    match list_find (λ byte, byte = 0) tail with
    | None => None
    | Some (end_, _) => from_utf8 (take end_ tail)
    end.

(** One symbol record; [None] when its name does not resolve or is empty. *)
Definition parse_symbol (r : ElfReader) (section : ElfSectionHeader) (strtab : list Z) (index : Z)
    : elf_result (option ElfSymbol) :=
  let? table_index := elf_try_from u32_max index "ELF symbol index" in
  let? record_relative := ok_or (checked_mul u64_max index (esh_entry_size section))
                            (AE.ArithmeticOverflow "ELF symbol record offset") in
  let? record_offset := ok_or (checked_add u64_max (esh_file_offset section) record_relative)
                          (AE.ArithmeticOverflow "ELF symbol record offset") in
  let? record_offset := elf_try_from usize_max record_offset "ELF symbol record offset" in
  let? fields :=
    if class_is_64 (er_class r)
    then
      let? name_offset := elf_u32 r record_offset "ELF symbol name" in
      let? value := elf_u64_at r record_offset 8 "ELF symbol value" in
      let? size := elf_u64_at r record_offset 16 "ELF symbol size" in
      let? info := elf_u8_at r record_offset 4 "ELF symbol info" in
      let? other := elf_u8_at r record_offset 5 "ELF symbol other" in
      let? section_index := elf_u16_at r record_offset 6 "ELF symbol section index" in
      Ok (name_offset, λ name, mkElfSymbol table_index name value size info other section_index)
    else
      let? name_offset := elf_u32 r record_offset "ELF symbol name" in
      let? value := elf_u32_at r record_offset 4 "ELF symbol value" in
      let? size := elf_u32_at r record_offset 8 "ELF symbol size" in
      let? info := elf_u8_at r record_offset 12 "ELF symbol info" in
      let? other := elf_u8_at r record_offset 13 "ELF symbol other" in
      let? section_index := elf_u16_at r record_offset 14 "ELF symbol section index" in
      Ok (name_offset, λ name, mkElfSymbol table_index name value size info other section_index) in
  let '(name_offset, symbol) := fields in
  match resolve_symbol_name strtab name_offset with
  | None => Ok None
  | Some name => if bool_decide (name = []) then Ok None else Ok (Some (symbol name))
  end.

(** The symbols of one table, with the cap that ends the scan. *)
Fixpoint parse_symbol_table (r : ElfReader) (section : ElfSectionHeader) (strtab : list Z)
    (index : Z) (remaining : nat) (symbols : list ElfSymbol) : elf_result (list ElfSymbol * bool) :=
  match remaining with
  | O => Ok (symbols, false)
  | S remaining =>
      if MAX_ELF_SYMBOLS <=? zlen symbols then Ok (symbols, true)
      else
        let? symbol := parse_symbol r section strtab index in
        parse_symbol_table r section strtab (index + 1) remaining (symbols ++ option_list symbol)
  end.

(** The string table of a symbol table; [None] when the table is passed over. *)
Definition symbol_strings (r : ElfReader) (headers : list ElfSectionHeader)
    (section : ElfSectionHeader) : elf_result (option (list Z)) :=
  if negb (esh_section_type section =? ELF_SECTION_TYPE_SYMTAB)
     && negb (esh_section_type section =? ELF_SECTION_TYPE_DYNSYM) then Ok None
  else if negb (esh_entry_size section =? class_symbol_size (er_class r))
          || (esh_entry_size section =? 0) then Ok None
  else
    match headers !! Z.to_nat (esh_link section) with
    | None => Ok None
    | Some strtab =>
        if esh_section_type strtab =? ELF_SECTION_TYPE_NOBITS then Ok None
        else
          let? strtab_offset := elf_try_from usize_max (esh_file_offset strtab)
                                  "ELF string-table offset" in
          let? strtab_size := elf_try_from usize_max (esh_size strtab) "ELF string-table size" in
          match elf_bytes r strtab_offset strtab_size "ELF string table" with
          | Ok bytes => Ok (Some bytes)
          | Err _ => Ok None
          | Panic p => Panic p
          end
    end.

(** The loop over the sections, with the symbols found so far. *)
Fixpoint parse_symbols_from (r : ElfReader) (headers sections : list ElfSectionHeader)
    (symbols : list ElfSymbol) : elf_result (list ElfSymbol * bool) :=
  match sections with
  | [] => Ok (symbols, false)
  | section :: sections =>
      let? strtab := symbol_strings r headers section in
      match strtab with
      | None => parse_symbols_from r headers sections symbols
      | Some strtab =>
          let count := esh_size section / esh_entry_size section in
          let? scanned := parse_symbol_table r section strtab 0 (Z.to_nat count) symbols in
          if scanned.2 : bool then Ok scanned
          else parse_symbols_from r headers sections scanned.1
      end
  end.

Definition parse_symbols (r : ElfReader) (headers : list ElfSectionHeader)
    : elf_result (list ElfSymbol * bool) :=
  parse_symbols_from r headers headers [].

(** ** The analysis *)

(** The identity bytes: the class and the byte order. *)
Definition check_elf_identity (bytes : list Z) : elf_result (ElfClass * ElfEndian) :=
  do? fail_if (zlen bytes <? 16) (AE.Truncated "ELF identity" 0 16 (zlen bytes)) in
  do? fail_if (negb (bool_decide (take 4 bytes = 127 :: str "ELF"))) AE.InvalidElfSignature in
  let? class_byte := index_at 4 bytes in
  let? class := ok_or (ElfClass_from_ident class_byte) (AE.UnsupportedElfClass class_byte) in
  let? data_byte := index_at 5 bytes in
  let? endian := ok_or (ElfEndian_from_ident data_byte)
                   (AE.UnsupportedElfDataEncoding data_byte) in
  let? ident_version := index_at 6 bytes in
  do? fail_if (negb (ident_version =? ELF_CURRENT_VERSION))
        (AE.UnsupportedElfVersion ident_version "identity") in
  Ok (class, endian).

(** The fields of the file header that the analysis keeps, and the two counts. *)
Record ElfFileHeader : Type := mkElfFileHeader {
  efh_os_abi : Z;
  efh_abi_version : Z;
  efh_type : Z;
  efh_machine : Z;
  efh_version : Z;
  efh_entry_va : Z;
  efh_program_offset : Z;
  efh_section_offset : Z;
  efh_elf_flags : Z;
  efh_size : Z;
  efh_program_entry_size : Z;
  efh_program_count : Z;
  efh_section_entry_size : Z;
  efh_section_count : Z;
  efh_section_name_index : Z
}.

Definition read_elf_header (r : ElfReader) : elf_result ElfFileHeader :=
  let class := er_class r in
  do? elf_require r 0 (class_header_size class) "ELF header" in
  let? padding := elf_bytes r 9 7 "ELF identity padding" in
  do? invalid_if (existsb (λ byte, negb (byte =? 0)) padding) "ELF identity padding"
        (str "reserved bytes must be zero") in
  let? os_abi := elf_u8 r 7 "ELF OS ABI" in
  let? abi_version := elf_u8 r 8 "ELF ABI version" in
  let? type_ := elf_u16 r 16 "ELF type" in
  do? fail_if (negb (type_ =? ELF_TYPE_EXECUTABLE) && negb (type_ =? ELF_TYPE_DYNAMIC))
        (AE.UnsupportedElfType type_) in
  let? machine := elf_u16 r 18 "ELF machine" in
  let? version := elf_u32 r 20 "ELF version" in
  do? fail_if (negb (version =? ELF_CURRENT_VERSION))
        (AE.UnsupportedElfVersion version "header") in
  let? entry_va := elf_addr r 24 "ELF entry address" in
  let? program_offset := if class_is_64 class then elf_u64 r 32 "ELF program-header offset"
                         else elf_u32 r 28 "ELF program-header offset" in
  let? section_offset := if class_is_64 class then elf_u64 r 40 "ELF section-header offset"
                         else elf_u32 r 32 "ELF section-header offset" in
  let? flags := if class_is_64 class then elf_u32 r 48 "ELF flags" else elf_u32 r 36 "ELF flags" in
  let ehsize_off := if class_is_64 class then 52 else 40 in
  let? size := elf_u16 r ehsize_off "ELF header size" in
  do? invalid_if (negb (size =? class_header_size class)) "ELF header size"
        (str "expected " ++ format_d (class_header_size class)
         ++ str " bytes for this class, found " ++ format_d size) in
  let? program_entry_size := elf_u16 r (ehsize_off + 2) "ELF program-header entry size" in
  let? program_count := elf_u16 r (ehsize_off + 4) "ELF program-header count" in
  let? section_entry_size := elf_u16 r (ehsize_off + 6) "ELF section-header entry size" in
  let? section_count := elf_u16 r (ehsize_off + 8) "ELF section-header count" in
  let? section_name_index := elf_u16 r (ehsize_off + 10) "ELF section-name table index" in
  Ok (mkElfFileHeader os_abi abi_version type_ machine version entry_va program_offset
        section_offset flags size program_entry_size program_count section_entry_size
        section_count section_name_index).

(** The extent of the two tables. *)
Definition check_elf_tables (r : ElfReader) (h : ElfFileHeader) : elf_result unit :=
  let class := er_class r in
  do? invalid_if (efh_program_count h =? 0) "ELF program-header count"
        (str "an executable image must contain at least one program header") in
  do? elf_enforce_count "ELF program header" (efh_program_count h) MAX_ELF_PROGRAM_HEADERS in
  do? invalid_if (negb (efh_program_entry_size h =? class_program_header_size class))
        "ELF program-header entry size"
        (str "expected " ++ format_d (class_program_header_size class)
         ++ str " bytes for this class, found " ++ format_d (efh_program_entry_size h)) in
  do? invalid_if (efh_program_offset h <? efh_size h) "ELF program-header offset"
        (str "the table overlaps the ELF header") in
  do? elf_table r (efh_program_offset h) (efh_program_count h) (efh_program_entry_size h)
        "ELF program-header table" in
  validate_section_table_header r (efh_section_offset h) (efh_section_count h)
    (efh_section_entry_size h) (efh_section_name_index h).

(** Everything up to the final validation. *)
Definition parse_elf `{Sha256} (bytes : list Z) : elf_result ElfAnalysis :=
  let? ident := check_elf_identity bytes in
  let '(class, endian) := ident in
  let r := mkElfReader bytes class endian in
  let? h := read_elf_header r in
  do? check_elf_tables r h in
  let? program_headers := parse_program_headers r (efh_program_offset h) (efh_program_count h)
                            (efh_program_entry_size h) in
  let? section_headers := parse_section_headers r (efh_section_offset h) (efh_section_count h)
                            (efh_section_entry_size h) in
  do? validate_section_header_zero section_headers in
  let? input_size := elf_try_from u64_max (zlen bytes) "ELF input size" in
  let? load_segments := derive_load_segments program_headers input_size class in
  let? extent := image_extent load_segments in
  let '(image_base, image_size) := extent in
  let? entry := entry_rva (efh_type h) (efh_entry_va h) image_base load_segments in
  let? parsed := parse_symbols r section_headers in
  let '(symbols, symbol_scan_truncated) := parsed in
  let machine_kind := ElfMachine_from_raw (efh_machine h) class in
  let identity := mkBinaryIdentity (BinaryId_digest bytes) input_size ElfFormat
                    (elf_architecture class machine_kind endian) image_base in
  let? symbol_graph := build_symbol_graph identity symbols load_segments in
  Ok (mkElfAnalysis identity class endian (efh_os_abi h) (efh_abi_version h) (efh_type h)
        (efh_machine h) (efh_version h) (efh_entry_va h) entry (efh_elf_flags h) (efh_size h)
        (efh_program_offset h) (efh_program_entry_size h) program_headers (efh_section_offset h)
        (efh_section_entry_size h) (efh_section_name_index h) section_headers load_segments
        image_size symbols symbol_scan_truncated symbol_graph).

Definition analyze_elf `{Sha256} (bytes : list Z) : elf_result ElfAnalysis :=
  let? analysis := parse_elf bytes in
  do? validate_elf_analysis analysis in
  Ok analysis.
