(* ===== verification/ElfTheory.v ===== *)
(** Theorems about the ELF analysis: the parser answers for any bytes, and what it
    returns always passes the validation of an analysis. *)

From Stdlib Require Import Sorted SpecFloat.
From S2P Require Import Prelude Utf8 Identity Sandbox Sorting SymbolGraph ElfAnalysis.
Open Scope Z_scope.

(** ** Checks that do not panic *)

Lemma no_panic_invalid_if b field reason : no_panic (invalid_if b field reason).
Proof. by destruct b. Qed.
Lemma no_panic_try_from top n what : no_panic (elf_try_from top n what).
Proof. unfold elf_try_from. by case_match. Qed.
Lemma no_panic_count kind count limit : no_panic (elf_enforce_count kind count limit).
Proof. unfold elf_enforce_count. by case_match. Qed.
#[export] Hint Resolve no_panic_invalid_if no_panic_try_from no_panic_count : nopanic.

Lemma no_panic_file_range offset size file_size field :
  no_panic (elf_file_range offset size file_size field).
Proof. unfold elf_file_range. no_panic. Qed.
Lemma no_panic_segment_alignment h : no_panic (validate_segment_alignment h).
Proof. unfold validate_segment_alignment. no_panic. Qed.
#[export] Hint Resolve no_panic_file_range no_panic_segment_alignment : nopanic.

Lemma no_panic_section_header h size class : no_panic (validate_section_header h size class).
Proof. unfold validate_section_header. no_panic. Qed.
Lemma no_panic_section_zero headers : no_panic (validate_section_header_zero headers).
Proof. unfold validate_section_header_zero. no_panic. Qed.
Lemma no_panic_derive size class h : no_panic (derive_load_segment size class h).
Proof. unfold derive_load_segment, invalid. no_panic. Qed.
Lemma no_panic_overlaps segments : no_panic (check_overlaps segments).
Proof. induction segments as [|x [|y l] IH]; simpl; [done..|]. no_panic. Qed.
#[export] Hint Resolve no_panic_section_header no_panic_section_zero no_panic_derive
  no_panic_overlaps : nopanic.

Lemma no_panic_collect size class headers : no_panic (collect_load_segments size class headers).
Proof. induction headers as [|h l IH]; simpl; no_panic. Qed.
#[export] Hint Resolve no_panic_collect : nopanic.

Lemma no_panic_segments headers size class : no_panic (derive_load_segments headers size class).
Proof. unfold derive_load_segments. no_panic. Qed.
Lemma no_panic_extent segments : no_panic (image_extent segments).
Proof.
  unfold image_extent. assert (∀ l n, no_panic (extent_end n l)) as He.
  { induction l as [|x l IH]; intros n; simpl; no_panic. }
  no_panic.
Qed.
Lemma no_panic_entry ty va base segments : no_panic (entry_rva ty va base segments).
Proof. unfold entry_rva, invalid. no_panic. Qed.
#[export] Hint Resolve no_panic_segments no_panic_extent no_panic_entry : nopanic.

(** ** The reader *)

Lemma yields_invalid_if b field reason : yields_ok (invalid_if b field reason) (λ _, b = false).
Proof. by destruct b. Qed.

Lemma yields_try_from top n what : yields_ok (elf_try_from top n what) (λ m, m = n ∧ n ≤ top).
Proof. unfold elf_try_from. by destruct (Z.leb_spec n top). Qed.

Lemma yields_count kind count limit :
  yields_ok (elf_enforce_count kind count limit) (λ _, count ≤ limit).
Proof. unfold elf_enforce_count. by destruct (Z.ltb_spec limit count). Qed.

Lemma elf_uint_bound endian bytes n :
  Forall is_byte bytes → zlen bytes = n → 0 ≤ elf_decode_uint endian bytes < 256 ^ n.
Proof.
  intros Hb <-. destruct endian; simpl; [by apply from_le_bytes_bound|].
  replace (zlen bytes) with (zlen (reverse bytes)) by (unfold zlen; by rewrite length_reverse).
  by apply from_le_bytes_bound, Forall_reverse.
Qed.

Section reader.
Context (r : ElfReader) (Hfile : file_ok (er_bytes r)).

Lemma yields_require offset needed context :
  yields_ok (elf_require r offset needed context) (λ _, offset + needed ≤ zlen (er_bytes r)).
Proof.
  unfold elf_require. via (apply yields_ok_or) as e [-> _]%checked_add_some.
  eapply yields_ok_mono; [apply yields_ok_fail_if|]. intros _ H%Z.ltb_ge. exact H.
Qed.

Lemma yields_bytes offset size context :
  0 ≤ offset → 0 ≤ size →
  yields_ok (elf_bytes r offset size context)
    (λ s, zlen s = size ∧ Forall is_byte s ∧ offset + size ≤ zlen (er_bytes r)).
Proof.
  intros Ho Hs. destruct Hfile as [Hb Hm]. unfold elf_bytes.
  via (apply yields_require) as u Hle.
  via (apply yields_ok_add; unfold usize_max, u64_max, isize_max in *; lia) as e ->.
  eapply yields_ok_mono; [apply index_range_slice; [lia..|done]|]. intros s [Hz Hf].
  split; [lia|]. by split.
Qed.

(** An unsigned field at an offset. *)
Abbreviation field_at offset n := (λ v, 0 ≤ v < 256 ^ n ∧ offset + n ≤ zlen (er_bytes r)).

Lemma yields_elf_u16 offset context :
  0 ≤ offset → yields_ok (elf_u16 r offset context) (field_at offset 2).
Proof.
  intros Ho. unfold elf_u16. via (apply yields_bytes; lia) as s (Hz & Hs & Hle).
  split; [by apply elf_uint_bound|done].
Qed.

Lemma yields_elf_u32 offset context :
  0 ≤ offset → yields_ok (elf_u32 r offset context) (field_at offset 4).
Proof.
  intros Ho. unfold elf_u32. via (apply yields_bytes; lia) as s (Hz & Hs & Hle).
  split; [by apply elf_uint_bound|done].
Qed.

Lemma yields_elf_u64 offset context :
  0 ≤ offset → yields_ok (elf_u64 r offset context) (field_at offset 8).
Proof.
  intros Ho. unfold elf_u64. via (apply yields_bytes; lia) as s (Hz & Hs & Hle).
  split; [by apply elf_uint_bound|done].
Qed.

Lemma yields_elf_u8 offset context :
  0 ≤ offset → yields_ok (elf_u8 r offset context) (field_at offset 1).
Proof.
  intros Ho. destruct Hfile as [Hb _]. unfold elf_u8. via (apply yields_require) as u Hle.
  unfold index_at, expect_some. destruct (er_bytes r !! Z.to_nat offset) as [b|] eqn:Hl.
  - simpl. rewrite Forall_lookup in Hb. apply Hb in Hl. unfold is_byte in Hl. lia.
  - apply lookup_ge_None in Hl. unfold zlen in Hle. simpl. lia.
Qed.

(** The fields of a record whose first bytes have been read. *)
Definition in_file (offset : Z) : Prop := 0 ≤ offset ≤ isize_max.

Lemma yields_at {A} (f : Z → elf_result A) offset delta (P : A → Prop) :
  in_file offset → 0 ≤ delta ≤ 64 → yields_ok (f (offset + delta)) P →
  yields_ok (let? at_ := plain_add offset delta in f at_) P.
Proof.
  intros Ho Hd Hf. via (apply yields_ok_add) as e ->; [|done].
  unfold in_file, usize_max, u64_max, isize_max in *. lia.
Qed.

Lemma yields_u8_at offset delta context :
  in_file offset → 0 ≤ delta ≤ 64 →
  yields_ok (elf_u8_at r offset delta context) (λ v, 0 ≤ v < 256 ^ 1).
Proof.
  intros Ho Hd. apply yields_at; [done..|]. eapply yields_ok_mono; [apply yields_elf_u8; destruct Ho; lia|].
  by intros v [? _].
Qed.
Lemma yields_u16_at offset delta context :
  in_file offset → 0 ≤ delta ≤ 64 →
  yields_ok (elf_u16_at r offset delta context) (λ v, 0 ≤ v < 256 ^ 2).
Proof.
  intros Ho Hd. apply yields_at; [done..|]. eapply yields_ok_mono; [apply yields_elf_u16; destruct Ho; lia|].
  by intros v [? _].
Qed.
Lemma yields_u32_at offset delta context :
  in_file offset → 0 ≤ delta ≤ 64 →
  yields_ok (elf_u32_at r offset delta context) (λ v, 0 ≤ v < 256 ^ 4).
Proof.
  intros Ho Hd. apply yields_at; [done..|]. eapply yields_ok_mono; [apply yields_elf_u32; destruct Ho; lia|].
  by intros v [? _].
Qed.
Lemma yields_u64_at offset delta context :
  in_file offset → 0 ≤ delta ≤ 64 →
  yields_ok (elf_u64_at r offset delta context) (λ v, 0 ≤ v < 256 ^ 8).
Proof.
  intros Ho Hd. apply yields_at; [done..|]. eapply yields_ok_mono; [apply yields_elf_u64; destruct Ho; lia|].
  by intros v [? _].
Qed.

Lemma yields_entry_offset offset index entry_size :
  yields_ok (elf_table_entry_offset offset index entry_size) (λ n, n = offset + index * entry_size).
Proof.
  unfold elf_table_entry_offset. via (apply yields_ok_or) as a [-> _]%checked_mul_some.
  via (apply yields_ok_or) as b [-> _]%checked_add_some.
  eapply yields_ok_mono; [apply yields_try_from|]. by intros n [-> _].
Qed.

Lemma yields_table offset count entry_size context :
  yields_ok (elf_table r offset count entry_size context)
    (λ _, offset + count * entry_size ≤ zlen (er_bytes r)).
Proof.
  unfold elf_table. via (apply yields_ok_or) as b [-> _]%checked_mul_some.
  via (apply yields_try_from) as o [-> _]. via (apply yields_try_from) as b [-> _].
  apply yields_require.
Qed.
End reader.


(** Reads one field of a record. *)
Ltac next_field x Hx :=
  eapply yields_ok_bind;
  [first [ apply yields_u64_at | apply yields_u32_at | apply yields_u16_at | apply yields_u8_at ];
   [assumption|assumption|lia]
  |cbv beta; intros x Hx].

(** ** The tables *)

Record program_header_typed (h : ElfProgramHeader) : Prop := {
  pht_offset : in_u64 (eph_file_offset h);
  pht_address : in_u64 (eph_virtual_address h);
  pht_file_size : in_u64 (eph_file_size h);
  pht_memory_size : in_u64 (eph_memory_size h);
  pht_alignment : in_u32 (eph_alignment h)
}.

Record section_header_typed (h : ElfSectionHeader) : Prop := {
  sht_offset : in_u64 (esh_file_offset h);
  sht_size : in_u64 (esh_size h);
  sht_entry_size : in_u64 (esh_entry_size h)
}.

Lemma in_u64_8 v : 0 ≤ v < 256 ^ 8 → in_u64 v.
Proof. unfold in_u64, u64_max. lia. Qed.
Lemma in_u64_4 v : 0 ≤ v < 256 ^ 4 → in_u64 v.
Proof. unfold in_u64, u64_max. lia. Qed.
Lemma in_u32_4 v : 0 ≤ v < 256 ^ 4 → in_u32 v.
Proof. unfold in_u32, u32_max. lia. Qed.

Create HintDb elf.
#[export] Hint Resolve in_u64_8 in_u64_4 in_u32_4 : elf.

Section tables.
Context (r : ElfReader) (Hfile : file_ok (er_bytes r)).

Lemma entry_in_file offset n : 0 ≤ offset → 0 ≤ n → offset + n ≤ zlen (er_bytes r) → in_file offset.
Proof. intros Ho Hn Hle. destruct Hfile as [_ Hm]. unfold in_file. lia. Qed.

Lemma yields_program_header offset entry_size index :
  0 ≤ offset → 0 ≤ index → 0 ≤ entry_size →
  yields_ok (parse_program_header r offset entry_size index)
    (λ h, program_header_typed h ∧ eph_table_index h = index).
Proof.
  intros Ho Hi He. unfold parse_program_header. via (apply yields_entry_offset) as at_ Hat.
  assert (0 ≤ at_) as H0 by nia. clear Hat. destruct (class_is_64 (er_class r)).
  - via (apply yields_elf_u32; [done|lia]) as ty [_ Hle].
    assert (in_file at_) as Hin by (eapply entry_in_file; [lia| |exact Hle]; lia).
    next_field flags Hfl. next_field off Hoff. next_field va Hva. next_field pa Hpa.
    next_field fs Hfs. next_field ms Hms. next_field wa Hwa.
    unfold narrow_alignment. destruct (Z.leb_spec wa u32_max) as [Hw|]; [|done]. simpl.
    split; [|done]. split; cbn; auto with elf. unfold in_u32. lia.
  - via (apply yields_elf_u32; [done|lia]) as ty [_ Hle].
    assert (in_file at_) as Hin by (eapply entry_in_file; [lia| |exact Hle]; lia).
    next_field off Hoff. next_field va Hva. next_field pa Hpa.
    next_field fs Hfs. next_field ms Hms. next_field flags Hfl. next_field wa Hwa. simpl.
    split; [|done]. split; cbn; auto with elf.
Qed.

Lemma yields_section_header offset entry_size index :
  0 ≤ offset → 0 ≤ index → 0 ≤ entry_size →
  yields_ok (parse_section_header r offset entry_size index)
    (λ h, section_header_typed h ∧ esh_table_index h = index
          ∧ validate_section_header h (zlen (er_bytes r)) (er_class r) = Ok tt).
Proof.
  intros Ho Hi He. unfold parse_section_header. via (apply yields_entry_offset) as at_ Hat.
  assert (0 ≤ at_) as H0 by nia. clear Hat.
  eapply (yields_ok_bind _ _ (λ h, section_header_typed h ∧ esh_table_index h = index)).
  - destruct (class_is_64 (er_class r)).
    + via (apply yields_elf_u32; [done|lia]) as nm [_ Hle].
      assert (in_file at_) as Hin by (eapply entry_in_file; [lia| |exact Hle]; lia).
      next_field ty Hty. next_field wf Hwf. unfold narrow_section_flags.
      destruct (wf <=? u32_max); [|done]. cbn [result_bind].
      next_field va Hva. next_field off Hoff. next_field sz Hsz. next_field lk Hlk.
      next_field inf Hinf. next_field al Hal. next_field es Hes. simpl.
      split; [|done]. split; cbn; auto with elf.
    + via (apply yields_elf_u32; [done|lia]) as nm [_ Hle].
      assert (in_file at_) as Hin by (eapply entry_in_file; [lia| |exact Hle]; lia).
      next_field ty Hty. next_field fl Hfl. next_field va Hva. next_field off Hoff.
      next_field sz Hsz. next_field lk Hlk. next_field inf Hinf. next_field al Hal.
      next_field es Hes. simpl. split; [|done]. split; cbn; auto with elf.
  - intros h [Ht Hx]. unfold elf_len_u64, usize_to_u64. via (apply yields_try_from) as n [-> _].
    eapply (yields_ok_bind _ _ (λ _, validate_section_header h (zlen (er_bytes r)) (er_class r) = Ok tt));
      [|done].
    apply yields_ok_intro; [apply no_panic_section_header|by intros []].
Qed.
End tables.

(** A table has as many records as its count, in order. *)
Lemma yields_parse_table {A} (parse : Z → elf_result A) (P : Z → A → Prop) index n :
  (∀ i, index ≤ i → yields_ok (parse i) (P i)) →
  yields_ok (parse_table parse index n)
    (λ l, length l = n ∧ ∀ k x, l !! k = Some x → P (index + Z.of_nat k) x).
Proof.
  revert index. induction n as [|n IH]; intros index Hp; simpl; [done|].
  via (apply Hp; lia) as h Hh. via (apply IH; intros i Hi; apply Hp; lia) as l [Hl Hk]. simpl.
  split; [lia|]. intros [|k] x Hx; simpl in Hx.
  - injection Hx as <-. by replace (index + Z.of_nat 0) with index by lia.
  - replace (index + Z.of_nat (S k)) with (index + 1 + Z.of_nat k) by lia. by apply Hk.
Qed.

(** ** Symbols *)

Definition named (s : ElfSymbol) : Prop := es_name s ≠ [].

Section symbols.
Context (r : ElfReader) (Hfile : file_ok (er_bytes r)).

Lemma yields_symbol section strtab index :
  section_header_typed section → 0 ≤ index →
  yields_ok (parse_symbol r section strtab index) (λ o, ∀ s, o = Some s → named s).
Proof.
  intros [Ho _ He] Hi. unfold parse_symbol, in_u64 in *. via (apply yields_try_from) as ti [-> _].
  via (apply yields_ok_or) as rel [-> _]%checked_mul_some.
  via (apply yields_ok_or) as off [-> _]%checked_add_some.
  via (apply yields_try_from) as at_ [-> _].
  set (at_ := esh_file_offset section + index * esh_entry_size section).
  assert (0 ≤ at_) as H0 by (unfold at_; nia). clearbody at_.
  eapply (yields_ok_bind _ _ (λ f, ∀ name, es_name (f.2 name) = name)).
  - destruct (class_is_64 (er_class r)).
    + via (apply yields_elf_u32; [done|lia]) as nm [_ Hle].
      assert (in_file at_) as Hin by (eapply entry_in_file; [done|lia| |exact Hle]; lia).
      next_field va Hva. next_field sz Hsz. next_field inf Hinf. next_field oth Hoth.
      next_field si Hsi. done.
    + via (apply yields_elf_u32; [done|lia]) as nm [_ Hle].
      assert (in_file at_) as Hin by (eapply entry_in_file; [done|lia| |exact Hle]; lia).
      next_field va Hva. next_field sz Hsz. next_field inf Hinf. next_field oth Hoth.
      next_field si Hsi. done.
  - intros [nm symbol] Hname. simpl in Hname. destruct (resolve_symbol_name strtab nm) as [name|]; [|done].
    case_bool_decide as Hne; [done|]. intros s [= <-]. unfold named. by rewrite Hname.
Qed.

Definition within_cap (symbols : list ElfSymbol) : Prop :=
  zlen symbols ≤ MAX_ELF_SYMBOLS ∧ Forall named symbols.

Lemma yields_symbol_table section strtab index n symbols :
  section_header_typed section → 0 ≤ index → within_cap symbols →
  yields_ok (parse_symbol_table r section strtab index n symbols) (λ p, within_cap p.1).
Proof.
  intros Ht. revert index symbols. induction n as [|n IH]; intros index symbols Hi Hs; simpl; [done|].
  destruct (Z.leb_spec MAX_ELF_SYMBOLS (zlen symbols)) as [Hge|Hlt]; [done|].
  via (by apply yields_symbol) as o Ho. apply IH; [lia|]. destruct Hs as [Hz Hn].
  destruct o as [s|]; simpl; [|by rewrite app_nil_r]. split; [rewrite zlen_app, zlen_singleton; lia|].
  apply Forall_app. split; [done|]. constructor; [by apply Ho|done].
Qed.

Lemma yields_symbol_strings headers section :
  Forall section_header_typed headers →
  yields_ok (symbol_strings r headers section) (λ _, True).
Proof.
  intros Hh. unfold symbol_strings. case_match; [done|]. case_match; [done|].
  destruct (headers !! _) as [strtab|] eqn:Hl; [|done]. case_match; [done|].
  rewrite Forall_lookup in Hh. destruct (Hh _ _ Hl) as [Ho Hs _]. unfold in_u64 in *.
  via (apply yields_try_from) as o [-> _]. via (apply yields_try_from) as z [-> _].
  pose proof (yields_bytes r Hfile (esh_file_offset strtab) (esh_size strtab) "ELF string table"
    ltac:(lia) ltac:(lia)) as Hb. by destruct (elf_bytes _ _ _ _).
Qed.

Lemma yields_symbols_from headers sections symbols :
  Forall section_header_typed headers → Forall section_header_typed sections → within_cap symbols →
  yields_ok (parse_symbols_from r headers sections symbols) (λ p, within_cap p.1).
Proof.
  intros Hh Hs. revert symbols. induction Hs as [|section sections Ht _ IH]; intros symbols Hc; simpl; [done|].
  via (by apply yields_symbol_strings) as o _. destruct o as [strtab|]; [|by apply IH].
  via (apply yields_symbol_table; [done|lia|done]) as p Hp. destruct p as [l []]; simpl in *; [done|].
  by apply IH.
Qed.

Lemma yields_symbols headers :
  Forall section_header_typed headers →
  yields_ok (parse_symbols r headers) (λ p, within_cap p.1).
Proof. intros Hh. apply yields_symbols_from; [done..|]. split; [|done]. by vm_compute. Qed.
End symbols.

(** ** The graph *)

Definition self_equal (c : SymbolClaim) : Prop := claim_eqb c c = true.

Lemma graph_self_equal g : Forall self_equal (sg_claims g) → graph_eqb g g = true.
Proof.
  intros Hc. unfold graph_eqb. rewrite bool_decide_true by done. by apply list_eqb_refl.
Qed.

Lemma yields_name_claim identity kind symbol is_function rva :
  yields_ok (symbol_name_claim identity NAME_CONFIDENCE kind symbol is_function rva) self_equal.
Proof.
  unfold symbol_name_claim. eapply (yields_ok_bind _ _ (λ _, True)).
  { apply yields_ok_intro; [|done]. apply no_panic_map_err. unfold Evidence_new, evidence_validate. no_panic. }
  intros ev _. apply yields_ok_intro.
  - apply no_panic_map_err. unfold SymbolClaim_new. no_panic.
  - intros c Hc%map_err_ok. unfold SymbolClaim_new in Hc. unbind Hc u Hu. injection Hc as <-.
    unfold self_equal, claim_eqb. cbn [cl_subject cl_assertion cl_confidence cl_evidence cl_provenance].
    rewrite !bool_decide_true by done. simpl. unfold evidence_eqb. simpl.
    by rewrite !bool_decide_true by done.
Qed.

Lemma wp_add_symbols identity segments kind symbols g :
  Forall self_equal (sg_claims g) →
  wp (add_symbols identity segments NAME_CONFIDENCE kind symbols)
    (λ _ g', Forall self_equal (sg_claims g')) (λ _ _, True) g.
Proof.
  revert g. induction symbols as [|s l IH]; intros g Hg; simpl; [by wp_step|].
  apply wp_bind.
  apply (wp_mono _ (λ _ g', Forall self_equal (sg_claims g')) _ (λ _ _, True));
    [|by intros [] g'; apply IH|done].
  unfold add_symbol. case_match; [by wp_step|]. destruct (checked_sub _ _) as [rva|]; [|by wp_step].
  case_match; [by wp_step|].
  pose proof (yields_name_claim identity kind s (Z.land (es_info s) 15 =? ELF_SYMBOL_TYPE_FUNC) rva) as Hy.
  apply wp_bind, wp_lift; [|done|by apply (yields_ok_no_panic _ _ Hy)].
  intros c Hc. pose proof (yields_ok_elim _ _ _ Hy Hc) as Hself. unfold submit_claim.
  wp_step. wp_step. apply wp_lift_check; [no_panic| |done]. intros _. do 2 wp_step; [|done]. wp_step.
  cbn. apply Forall_app. split; [done|]. by constructor.
Qed.

Lemma yields_graph identity symbols segments :
  yields_ok (build_symbol_graph identity symbols segments) (λ g, graph_eqb g g = true).
Proof.
  unfold build_symbol_graph.
  match goal with |- yields_ok (let '(_, _) := ?c graph_default in _) _ => set (build := c) end.
  assert (wp build (λ _ g, Forall self_equal (sg_claims g)) (λ _ _, True) graph_default) as Hw.
  { unfold build, insert_binary. wp_step. wp_step. wp_step.
    apply wp_lift_check; [unfold identity_validate; no_panic| |done].
    intros _. do 5 wp_step. apply wp_bind, wp_lift; [|done|done].
    intros c [= <-]. apply wp_bind, wp_lift; [|done|done]. intros kind _.
    by apply wp_add_symbols. }
  unfold wp in Hw. destruct (build graph_default) as [[[]|e|p] g]; simpl; [|done|done].
  by apply graph_self_equal.
Qed.

(** ** The header *)

Record header_ok (r : ElfReader) (h : ElfFileHeader) : Prop := {
  ho_room : class_header_size (er_class r) ≤ zlen (er_bytes r);
  ho_type : negb (efh_type h =? ELF_TYPE_EXECUTABLE) && negb (efh_type h =? ELF_TYPE_DYNAMIC) = false;
  ho_version : efh_version h = ELF_CURRENT_VERSION;
  ho_size : efh_size h = class_header_size (er_class r);
  ho_program_offset : in_u64 (efh_program_offset h);
  ho_section_offset : in_u64 (efh_section_offset h);
  ho_program_count : 0 ≤ efh_program_count h;
  ho_program_entry : 0 ≤ efh_program_entry_size h;
  ho_section_count : 0 ≤ efh_section_count h;
  ho_section_entry : 0 ≤ efh_section_entry_size h
}.

Lemma yields_header r : file_ok (er_bytes r) → yields_ok (read_elf_header r) (header_ok r).
Proof.
  intros Hf. unfold read_elf_header. via (apply yields_require) as u Hroom.
  via (apply yields_bytes; [done|lia..]) as pad _. via (apply yields_invalid_if) as u1 _.
  via (apply yields_elf_u8; [done|lia]) as abi _. via (apply yields_elf_u8; [done|lia]) as abiv _.
  via (apply yields_elf_u16; [done|lia]) as ty _. via (apply yields_ok_fail_if) as u2 Hty.
  via (apply yields_elf_u16; [done|lia]) as mach _. via (apply yields_elf_u32; [done|lia]) as ver _.
  via (apply yields_ok_fail_if) as u3 Hver. apply negb_false_iff, Z.eqb_eq in Hver.
  eapply (yields_ok_bind _ _ (λ _, True)).
  { unfold elf_addr. case_match; (eapply yields_ok_mono; [|done]); [apply yields_elf_u64|apply yields_elf_u32]; done. }
  intros entry _. eapply (yields_ok_bind _ _ in_u64).
  { case_match; (eapply yields_ok_mono; [first [apply yields_elf_u64|apply yields_elf_u32]; done|]);
      intros v [? _]; auto with elf. }
  intros po Hpo. eapply (yields_ok_bind _ _ in_u64).
  { case_match; (eapply yields_ok_mono; [first [apply yields_elf_u64|apply yields_elf_u32]; done|]);
      intros v [? _]; auto with elf. }
  intros so Hso. eapply (yields_ok_bind _ _ (λ _, True)).
  { case_match; (eapply yields_ok_mono; [apply yields_elf_u32; done|done]). }
  intros fl _. set (o := if class_is_64 (er_class r) then 52 else 40).
  assert (0 ≤ o) as Ho by (unfold o; case_match; lia). clearbody o.
  via (apply yields_elf_u16; done) as sz _. via (apply yields_invalid_if) as u4 Hsz.
  apply negb_false_iff, Z.eqb_eq in Hsz.
  do 5 (via (apply yields_elf_u16; [done|lia]) as ? [[? _] _]). simpl. by split.
Qed.

(** What is known of the section table before its records are read. *)
Definition section_table_ok (r : ElfReader) (offset count entry_size name_index : Z) : Prop :=
  (count = 0 ∧ offset = 0 ∧ name_index = 0
   ∧ (entry_size = 0 ∨ entry_size = class_section_header_size (er_class r)))
  ∨ (count ≠ 0 ∧ count ≤ MAX_ELF_SECTION_HEADERS
     ∧ entry_size = class_section_header_size (er_class r)
     ∧ class_header_size (er_class r) ≤ offset ∧ name_index ≠ ELF_SECTION_INDEX_EXTENDED
     ∧ (name_index = 0 ∨ name_index < count)
     ∧ offset + count * entry_size ≤ zlen (er_bytes r)).

Lemma yields_section_table r offset count entry_size name_index :
  yields_ok (validate_section_table_header r offset count entry_size name_index)
    (λ _, section_table_ok r offset count entry_size name_index).
Proof.
  unfold validate_section_table_header. destruct (Z.eqb_spec count 0) as [Hc|Hc].
  - via (apply yields_invalid_if) as u1 H1%negb_false_iff%Z.eqb_eq.
    via (apply yields_invalid_if) as u2 H2.
    eapply yields_ok_mono; [apply yields_invalid_if|]. intros _ H3%negb_false_iff%Z.eqb_eq. left.
    split; [done|]. split; [done|]. split; [done|].
    apply andb_false_iff in H2 as [H2|H2]; apply negb_false_iff, Z.eqb_eq in H2; auto.
  - via (apply yields_count) as u1 H1. via (apply yields_invalid_if) as u2 H2%negb_false_iff%Z.eqb_eq.
    via (apply yields_invalid_if) as u3 H3%Z.eqb_neq. via (apply yields_invalid_if) as u4 H4%Z.ltb_ge.
    via (apply yields_invalid_if) as u5 H5%Z.eqb_neq. via (apply yields_invalid_if) as u6 H6.
    eapply yields_ok_mono; [apply yields_table|]. intros u7 H7. right.
    do 5 (split; [done|]). split; [|done].
    apply andb_false_iff in H6 as [H6|H6]; [left; by apply negb_false_iff, Z.eqb_eq in H6|right].
    by apply Z.leb_gt in H6.
Qed.

Record tables_ok (r : ElfReader) (h : ElfFileHeader) : Prop := {
  to_count : 0 < efh_program_count h ≤ MAX_ELF_PROGRAM_HEADERS;
  to_entry : efh_program_entry_size h = class_program_header_size (er_class r);
  to_offset : efh_size h ≤ efh_program_offset h;
  to_room : efh_program_offset h + efh_program_count h * efh_program_entry_size h ≤ zlen (er_bytes r);
  to_sections : section_table_ok r (efh_section_offset h) (efh_section_count h)
                  (efh_section_entry_size h) (efh_section_name_index h)
}.

Lemma yields_tables r h : header_ok r h → yields_ok (check_elf_tables r h) (λ _, tables_ok r h).
Proof.
  intros Hh. unfold check_elf_tables. via (apply yields_invalid_if) as u1 H1%Z.eqb_neq.
  via (apply yields_count) as u2 H2. via (apply yields_invalid_if) as u3 H3%negb_false_iff%Z.eqb_eq.
  via (apply yields_invalid_if) as u4 H4%Z.ltb_ge. via (apply yields_table) as u5 H5.
  eapply yields_ok_mono; [apply yields_section_table|]. intros u6 H6.
  pose proof (ho_program_count _ _ Hh). split; [lia|done..].
Qed.

(** ** What is parsed validates *)

Lemma yields_eq {A E} (c : result A E) : no_panic c → yields_ok c (λ a, c = Ok a).
Proof. intros Hn. by apply yields_ok_intro. Qed.

Lemma architecture_visible class machine endian :
  trim_is_empty (elf_architecture class machine endian) = false.
Proof. by destruct class, machine, endian. Qed.

Lemma invalid_if_ok b field reason : b = false → invalid_if b field reason = Ok tt.
Proof. by intros ->. Qed.

Lemma file_range_ok offset size file_size field :
  0 ≤ size → offset + size ≤ file_size → file_size ≤ u64_max →
  elf_file_range offset size file_size field = Ok tt.
Proof.
  intros Hs Hle Hm. unfold elf_file_range. rewrite invalid_if_ok by (apply Z.ltb_ge; lia). simpl.
  destruct (size =? 0); [done|].
  assert (checked_add u64_max offset size = Some (offset + size)) as ->
    by (apply checked_add_some; lia).
  simpl. apply invalid_if_ok, Z.ltb_ge. lia.
Qed.

Lemma table_model_ok offset count entry_size file_size field :
  0 ≤ count → 0 ≤ entry_size ≤ 64 → count ≤ 2 ^ 32 → offset + count * entry_size ≤ file_size →
  file_size ≤ u64_max → validate_table_model offset count entry_size file_size field = Ok tt.
Proof.
  intros Hc He Hm Hle Hf. unfold validate_table_model, usize_to_u64, elf_try_from. unfold u64_max in *.
  rewrite (proj2 (Z.leb_le count _)) by lia. cbn [result_bind].
  assert (checked_mul (2 ^ 64 - 1) count entry_size = Some (count * entry_size)) as ->
    by (apply checked_mul_some; nia).
  simpl. apply file_range_ok; unfold u64_max; nia.
Qed.

Lemma collected_headers size class headers segments :
  collect_load_segments size class headers = Ok segments →
  Forall (λ h, elf_file_range (eph_file_offset h) (eph_file_size h) size "ELF program segment" = Ok tt
               ∧ validate_segment_alignment h = Ok tt) headers.
Proof.
  revert segments. induction headers as [|h l IH]; intros segments Hc; simpl in Hc; [done|].
  unbind Hc seg Hseg. unbind Hc segs Hsegs. constructor; [|by eapply IH].
  unfold derive_load_segment in Hseg. unbind Hseg u1 H1. unbind Hseg u2 H2. by destruct u1, u2.
Qed.

Lemma each_enumerated {A} (f : Z * A → elf_result unit) l :
  (∀ k x, l !! k = Some x → f (Z.of_nat k, x) = Ok tt) → each f (enumerate l) = Ok tt.
Proof.
  intros Hf. apply each_ok, Forall_lookup. intros k [i x] Hk. unfold enumerate in Hk.
  rewrite list_lookup_imap in Hk. destruct (l !! k) as [y|] eqn:Hy; [|done]. simpl in Hk.
  injection Hk as <- <-. by apply Hf.
Qed.

Lemma symbols_validate symbols : within_cap symbols → validate_symbols symbols = Ok tt.
Proof.
  intros [Hz Hn]. unfold validate_symbols. rewrite (proj2 (Z.ltb_ge _ _)) by lia. simpl.
  apply each_ok. eapply List.Forall_impl; [|exact Hn]. intros s Hs.
  apply invalid_if_ok. by rewrite bool_decide_false.
Qed.

(** The analysis takes its header fields from the file header. *)
Record agrees (r : ElfReader) (h : ElfFileHeader) (a : ElfAnalysis) : Prop := {
  ag_class : elf_class a = er_class r;
  ag_size : bi_size (elf_identity a) = zlen (er_bytes r);
  ag_format : bi_format (elf_identity a) = ElfFormat;
  ag_architecture : bi_architecture (elf_identity a)
    = elf_architecture (elf_class a) (ElfMachine_from_raw (elf_machine a) (elf_class a)) (elf_endian a);
  ag_type : elf_type a = efh_type h;
  ag_version : elf_version a = efh_version h;
  ag_header_size : elf_header_size a = efh_size h;
  ag_program_offset : elf_program_header_offset a = efh_program_offset h;
  ag_program_entry : elf_program_header_entry_size a = efh_program_entry_size h;
  ag_program_count : zlen (elf_program_headers a) = efh_program_count h;
  ag_section_offset : elf_section_header_offset a = efh_section_offset h;
  ag_section_entry : elf_section_header_entry_size a = efh_section_entry_size h;
  ag_section_name : elf_section_name_table_index a = efh_section_name_index h;
  ag_section_count : zlen (elf_section_headers a) = efh_section_count h
}.

Section agreement.
Context (r : ElfReader) (h : ElfFileHeader) (a : ElfAnalysis).
Context (Hfile : file_ok (er_bytes r)) (Hh : header_ok r h) (Ht : tables_ok r h) (Ha : agrees r h a).

Lemma header_validates : validate_header_model a = Ok tt.
Proof.
  destruct Hfile as [_ Hmax], Hh, Ht, Ha. unfold isize_max in Hmax. unfold validate_header_model.
  assert (0 < class_program_header_size (er_class r) ≤ 64) by (destruct (er_class r); simpl; lia).
  assert (elf_program_headers a ≠ []) by (intros H0; rewrite H0 in ag_program_count0; unfold zlen in *; simpl in *; lia).
  unfold identity_validate. rewrite ag_architecture0, architecture_visible.
  unfold usize_to_u64, elf_try_from, elf_enforce_count, MAX_ELF_PROGRAM_HEADERS, u64_max in *.
  rewrite (proj2 (Z.leb_le (zlen _) _)) by lia. simpl.
  rewrite (proj2 (Z.ltb_ge _ (zlen _))) by lia.
  rewrite table_model_ok by (unfold u64_max; lia || congruence).
  rewrite !invalid_if_ok; rewrite ?bool_decide_true, ?bool_decide_false by done; try done.
  - cbn [result_bind]. rewrite ag_type0, ho_type0. cbn [fail_if result_bind].
    by rewrite ag_version0, ho_version0.
  - apply Z.ltb_ge. lia.
  - rewrite ag_program_entry0, to_entry0, ag_class0. by rewrite Z.eqb_refl.
  - rewrite ag_header_size0, ho_size0, ag_class0. by rewrite Z.eqb_refl.
  - apply Z.ltb_ge. by rewrite ag_size0, ag_class0.
Qed.

Lemma section_table_validates :
  validate_section_header_zero (elf_section_headers a) = Ok tt →
  validate_section_table_model a = Ok tt.
Proof.
  intros Hz. destruct Hfile as [_ Hmax], Ha. destruct Ht as [_ _ _ _ Hsec].
  unfold validate_section_table_model, isize_max in *.
  rewrite ag_section_offset0, ag_section_entry0, ag_section_name0, ag_section_count0, ag_class0.
  destruct Hsec as [(Hc & Ho & Hn & He)|(Hc & Hcap & He & Ho & Hx & Hn & Hroom)].
  - rewrite Hc, Ho, Hn. simpl. apply invalid_if_ok. simpl. destruct He as [->| ->]; [done|].
    by rewrite Z.eqb_refl, andb_false_r.
  - rewrite (proj2 (Z.eqb_neq _ _)) by done. pose proof (ho_section_count _ _ Hh).
    assert (0 < class_section_header_size (er_class r) ≤ 64) by (destruct (er_class r); simpl; lia).
    unfold usize_to_u64, elf_try_from, elf_enforce_count, MAX_ELF_SECTION_HEADERS, u64_max in *.
    rewrite (proj2 (Z.leb_le (efh_section_count h) _)) by lia. cbn [result_bind].
    rewrite (proj2 (Z.ltb_ge _ (efh_section_count h))) by lia. cbn [result_bind].
    rewrite (table_model_ok _ _ (efh_section_entry_size h)) by (unfold u64_max; lia).
    rewrite !invalid_if_ok; [by rewrite Hz|..].
    + rewrite (proj2 (Z.eqb_neq _ _)) by done. simpl. apply andb_false_iff.
      destruct Hn as [->|Hn]; [by left|right]. apply Z.leb_gt. lia.
    + apply Z.ltb_ge. rewrite ag_header_size0, (ho_size _ _ Hh). lia.
    + by rewrite He, Z.eqb_refl.
Qed.
End agreement.

Lemma derived_validates a :
  derive_load_segments (elf_program_headers a) (bi_size (elf_identity a)) (elf_class a)
    = Ok (elf_load_segments a) →
  image_extent (elf_load_segments a) = Ok (bi_image_base (elf_identity a), elf_image_size a) →
  entry_rva (elf_type a) (elf_entry_va a) (bi_image_base (elf_identity a)) (elf_load_segments a)
    = Ok (elf_entry_rva a) →
  within_cap (elf_symbols a) →
  build_symbol_graph (elf_identity a) (elf_symbols a) (elf_load_segments a)
    = Ok (elf_symbol_graph a) →
  graph_eqb (elf_symbol_graph a) (elf_symbol_graph a) = true →
  validate_derived_model a = Ok tt.
Proof.
  intros Hd He Hr Hs Hb Hg. unfold validate_derived_model. rewrite Hd. cbn [result_bind].
  rewrite He. cbn [result_bind]. rewrite Hr. cbn [result_bind]. rewrite (symbols_validate _ Hs), Hb.
  cbn [result_bind]. rewrite Hg. rewrite bool_decide_true by done. by rewrite !Z.eqb_refl.
Qed.

Lemma derived_headers headers size class segments :
  derive_load_segments headers size class = Ok segments →
  Forall (λ h, elf_file_range (eph_file_offset h) (eph_file_size h) size "ELF program segment" = Ok tt
               ∧ validate_segment_alignment h = Ok tt) headers.
Proof.
  unfold derive_load_segments. intros H. unbind H segs Hs. by eapply collected_headers.
Qed.

Lemma yields_identity bytes : yields_ok (check_elf_identity bytes) (λ _, True).
Proof.
  unfold check_elf_identity. via (apply yields_ok_fail_if) as u1 H1%Z.ltb_ge.
  via (apply yields_ok_fail_if) as u2 _.
  assert (∀ i, 0 ≤ i < 16 → yields_ok (@index_at Z AnalysisError i bytes) (λ _, True)) as Hi.
  { intros i Hi. unfold index_at, expect_some. destruct (bytes !! Z.to_nat i) as [b|] eqn:Hl; [done|].
    apply lookup_ge_None in Hl. unfold zlen in H1. lia. }
  via (apply Hi; lia) as c _. via (apply yields_ok_or) as class _.
  via (apply Hi; lia) as d _. via (apply yields_ok_or) as endian _.
  via (apply Hi; lia) as v _. via (apply yields_ok_fail_if) as u3 _. done.
Qed.

Record analysis_of `{Sha256} (bytes : list Z) (a : ElfAnalysis) : Prop := {
  ao_valid : validate_elf_analysis a = Ok tt;
  ao_headers : Forall program_header_typed (elf_program_headers a);
  ao_size : bi_size (elf_identity a) = zlen bytes;
  ao_id : bi_id (elf_identity a) = BinaryId_digest bytes
}.

Lemma yields_program_headers r h :
  file_ok (er_bytes r) → header_ok r h →
  yields_ok (parse_program_headers r (efh_program_offset h) (efh_program_count h) (efh_program_entry_size h))
    (λ l, zlen l = efh_program_count h ∧ Forall program_header_typed l
          ∧ ∀ k x, l !! k = Some x → eph_table_index x = Z.of_nat k).
Proof.
  intros Hf [_ _ _ _ [Ho _] _ Hc He _ _]. unfold parse_program_headers. eapply yields_ok_mono.
  { apply (yields_parse_table _ (λ i x, program_header_typed x ∧ eph_table_index x = i)).
    intros i Hi. by apply yields_program_header. }
  intros l [Hl Hk]. split; [unfold zlen; lia|]. split.
  - apply Forall_lookup. intros k x Hx. by apply Hk in Hx as [? _].
  - intros k x Hx. by apply Hk in Hx as [_ ->].
Qed.

Lemma yields_section_headers r h :
  file_ok (er_bytes r) → header_ok r h →
  yields_ok (parse_section_headers r (efh_section_offset h) (efh_section_count h) (efh_section_entry_size h))
    (λ l, zlen l = efh_section_count h ∧ Forall section_header_typed l
          ∧ ∀ k x, l !! k = Some x → esh_table_index x = Z.of_nat k
              ∧ validate_section_header x (zlen (er_bytes r)) (er_class r) = Ok tt).
Proof.
  intros Hf [_ _ _ _ _ [Ho _] _ _ Hc He]. unfold parse_section_headers. eapply yields_ok_mono.
  { apply (yields_parse_table _ (λ i x, section_header_typed x ∧ esh_table_index x = i
      ∧ validate_section_header x (zlen (er_bytes r)) (er_class r) = Ok tt)).
    intros i Hi. by apply yields_section_header. }
  intros l [Hl Hk]. split; [unfold zlen; lia|]. split.
  - apply Forall_lookup. intros k x Hx. by apply Hk in Hx as [? _].
  - intros k x Hx. by apply Hk in Hx as (_ & -> & ?).
Qed.

Lemma yields_parse_elf `{Sha256} bytes : file_ok bytes → yields_ok (parse_elf bytes) (analysis_of bytes).
Proof.
  intros Hf. unfold parse_elf. via (apply yields_identity) as ident _.
  destruct ident as [class endian]. set (r := mkElfReader bytes class endian).
  via (by apply yields_header) as h Hh. via (by apply yields_tables) as u1 Ht.
  via (by apply yields_program_headers) as phs (Hpc & Hpt & Hpi).
  via (by apply yields_section_headers) as shs (Hsc & Hst & Hsi).
  via (apply yields_eq, no_panic_section_zero) as u2 Hzero. destruct u2.
  via (apply yields_try_from) as size [-> _].
  via (apply yields_eq, no_panic_segments) as segs Hsegs.
  via (apply yields_eq, no_panic_extent) as ext Hext. destruct ext as [base isize].
  via (apply yields_eq, no_panic_entry) as entry Hentry.
  via (by apply yields_symbols) as parsed Hsym. destruct parsed as [syms trunc].
  set (identity := mkBinaryIdentity _ _ _ _ _).
  pose proof (yields_graph identity syms segs) as Hy.
  destruct (build_symbol_graph identity syms segs) as [graph|e|p] eqn:Hgraph; [|done|done].
  cbn [result_bind yields_ok] in *. match goal with |- analysis_of _ ?x => set (a := x) end.
  assert (agrees r h a) as Hag by by split.
  split; [|done..]. unfold validate_elf_analysis.
  rewrite (header_validates r h a Hf Hh Ht Hag), (section_table_validates r h a Hf Hh Ht Hag Hzero).
  cbn [result_bind]. rewrite each_enumerated.
  2: { intros k x Hx. unfold validate_program_header_model. rewrite (Hpi k x Hx), Z.eqb_refl.
       apply derived_headers in Hsegs. rewrite Forall_lookup in Hsegs.
       destruct (Hsegs k x Hx) as [H1 H2]. cbn. by rewrite H1. }
  cbn [result_bind]. rewrite each_enumerated.
  2: { intros k x Hx. destruct (Hsi k x Hx) as [Hi Hv]. unfold validate_section_header_model.
       by rewrite Hi, Z.eqb_refl. }
  by apply derived_validates.
Qed.

(** A function symbol whose name is only white space: the scan keeps it, as its name
    is not empty, and the claim about it is then rejected as empty.  One such symbol
    makes the whole image unacceptable. *)
Lemma blank_name_rejected identity symbols segments s rva :
  s ∈ symbols → es_name s ≠ [] → trim_is_empty (es_name s) = true →
  Z.land (es_info s) 15 = ELF_SYMBOL_TYPE_FUNC →
  checked_sub (es_value s) (bi_image_base identity) = Some rva →
  rva_in_load_segment rva (bi_image_base identity) segments = true →
  ∀ g, build_symbol_graph identity symbols segments ≠ Ok g.
Proof.
  intros Hin Hne Hblank Hfunc Hrva Hseg g.
  assert (∀ g0 u g1, add_symbols identity segments NAME_CONFIDENCE METADATA symbols g0 ≠ (Ok u, g1)) as Hadd.
  { induction symbols as [|x l IH]; [by apply elem_of_nil in Hin|]. intros g0 u g1 Ha.
    cbn [add_symbols] in Ha. unfold sbind at 1 in Ha.
    destruct (add_symbol identity segments NAME_CONFIDENCE METADATA x g0) as [[[]|e|p] g2] eqn:Hx; [|done..].
    apply elem_of_cons in Hin as [->|Hin]; [|by eapply IH].
    unfold add_symbol in Hx. rewrite Hfunc, (bool_decide_false _ Hne), Hrva, Hseg in Hx. cbn in Hx.
    unfold sbind, slift in Hx. unfold symbol_name_claim, SymbolClaim_new, claim_validate in Hx. cbn in Hx.
    unfold require_nonempty in Hx. by rewrite Hblank in Hx. }
  assert (Confidence_new NAME_CONFIDENCE = Ok NAME_CONFIDENCE) as Hc by by vm_compute.
  assert (EvidenceKind_new METADATA = Ok METADATA) as Hk by by vm_compute.
  unfold build_symbol_graph, insert_binary. rewrite Hc, Hk. intros Hg.
  unfold sbind, smap_err, slift, sget, supd, sret in Hg.
  destruct (identity_validate identity) as [[]|e|p]; [|done..]. cbn [map_err] in Hg.
  destruct (add_symbols _ _ _ _ _ _) as [[u|e|p] g1] eqn:Hb; [|done..]. by eapply Hadd.
Qed.
