(* ===== verification/ElfDeclared.v ===== *)
(** The program headers that an ELF file declares, stated from the layout of the format
    and the bytes of the file alone, and that the parser of [ElfAnalysis.v] reads
    exactly these. *)

From S2P Require Import Prelude Identity Sandbox Sorting SymbolGraph ElfAnalysis.
Open Scope Z_scope.

(** ** The format *)

(** The unsigned integer in the [n] bytes at [offset], most significant byte first when
    [big]. *)
Definition uint_at (big : bool) (bytes : list Z) (offset : Z) (n : nat) : Z :=
  let field := take n (drop (Z.to_nat offset) bytes) in
  foldl (λ v b, 256 * v + b) 0 (if big then field else reverse field).

(** The width of addresses and offsets, and where the fields are: in the file header
    the place, the entry size and the number of program headers, and in a program
    header its segment. *)
Record elf_format : Type := mkElfFormat {
  word : nat;
  e_phoff : Z;
  e_phentsize : Z;
  e_phnum : Z;
  p_offset : Z;
  p_vaddr : Z;
  p_filesz : Z;
  p_memsz : Z
}.

Definition format_32 : elf_format := mkElfFormat 4 28 42 44 4 8 16 20.
Definition format_64 : elf_format := mkElfFormat 8 32 54 56 8 16 32 40.

(** The class and the byte order are in the identity bytes. *)
Definition format_of (bytes : list Z) : elf_format :=
  if bool_decide (bytes !! 4%nat = Some 2) then format_64 else format_32.
Definition big_endian (bytes : list Z) : bool := bool_decide (bytes !! 5%nat = Some 2).

Section declared.
Context (bytes : list Z).

Definition file_field (offset : Z) (n : nat) : Z := uint_at (big_endian bytes) bytes offset n.
Definition header_count : Z := file_field (e_phnum (format_of bytes)) 2.

(** Where program header [i] is, its type, and its fields of the width of an address. *)
Definition header_start (i : Z) : Z :=
  file_field (e_phoff (format_of bytes)) (word (format_of bytes))
  + i * file_field (e_phentsize (format_of bytes)) 2.
Definition declared_type (i : Z) : Z := file_field (header_start i) 4.
Definition declared (field : elf_format → Z) (i : Z) : Z :=
  file_field (header_start i + field (format_of bytes)) (word (format_of bytes)).

(** The program headers of the loadable segments. *)
Definition loadable (i : Z) : Prop := 0 ≤ i < header_count ∧ declared_type i = 1.

(** The file offset that the file declares for a virtual address. *)
Definition declares (va off : Z) : Prop :=
  ∃ i, loadable i ∧ declared p_vaddr i ≤ va < declared p_vaddr i + declared p_filesz i
       ∧ off = declared p_offset i + (va - declared p_vaddr i).

(** The lowest address of a segment that is not empty in memory. *)
Definition lowest_address (base : Z) : Prop :=
  (∃ i, loadable i ∧ declared p_memsz i ≠ 0 ∧ declared p_vaddr i = base)
  ∧ ∀ i, loadable i → declared p_memsz i ≠ 0 → base ≤ declared p_vaddr i.
End declared.

(** ** The reader *)

Lemma fold_reverse l : foldl (λ v b, 256 * v + b) 0 (reverse l) = from_le_bytes l.
Proof.
  induction l as [|b l IH]; [done|]. rewrite reverse_cons, foldl_app, IH. simpl. lia.
Qed.

Lemma plain_add_ok {E} a b n : @plain_add E a b = Ok n → n = a + b.
Proof. unfold plain_add, expect_some, checked_add. by destruct (_ <=? _); simpl; intros [= <-]. Qed.

(** The byte order of the reader. *)
Definition reads_big (r : ElfReader) : bool := bool_decide (er_endian r = ElfBig).

Lemma decode_uint_at r offset (n : nat) :
  elf_decode_uint (er_endian r) (take n (drop (Z.to_nat offset) (er_bytes r)))
  = uint_at (reads_big r) (er_bytes r) offset n.
Proof.
  unfold uint_at, reads_big, elf_decode_uint. destruct (er_endian r); simpl.
  - by rewrite fold_reverse.
  - by rewrite <-fold_reverse, reverse_involutive.
Qed.

Lemma elf_bytes_at r offset (n : nat) context s :
  elf_bytes r offset (Z.of_nat n) context = Ok s → s = take n (drop (Z.to_nat offset) (er_bytes r)).
Proof.
  unfold elf_bytes. intros Hs. unbind Hs u Hu. unbind Hs e He. apply plain_add_ok in He as ->.
  unfold index_range in Hs. destruct (_ && _); [|done]. injection Hs as <-.
  by replace (Z.to_nat (offset + Z.of_nat n - offset)) with n by lia.
Qed.

Lemma elf_u16_value r offset context v :
  elf_u16 r offset context = Ok v → v = uint_at (reads_big r) (er_bytes r) offset 2.
Proof.
  unfold elf_u16. intros Hv. unbind Hv s Hs. apply (elf_bytes_at r offset 2) in Hs as ->.
  injection Hv as <-. apply decode_uint_at.
Qed.
Lemma elf_u32_value r offset context v :
  elf_u32 r offset context = Ok v → v = uint_at (reads_big r) (er_bytes r) offset 4.
Proof.
  unfold elf_u32. intros Hv. unbind Hv s Hs. apply (elf_bytes_at r offset 4) in Hs as ->.
  injection Hv as <-. apply decode_uint_at.
Qed.
Lemma elf_u64_value r offset context v :
  elf_u64 r offset context = Ok v → v = uint_at (reads_big r) (er_bytes r) offset 8.
Proof.
  unfold elf_u64. intros Hv. unbind Hv s Hs. apply (elf_bytes_at r offset 8) in Hs as ->.
  injection Hv as <-. apply decode_uint_at.
Qed.

Lemma elf_u32_at_value r offset delta context v :
  elf_u32_at r offset delta context = Ok v → v = uint_at (reads_big r) (er_bytes r) (offset + delta) 4.
Proof.
  unfold elf_u32_at. intros Hv. unbind Hv e He. apply plain_add_ok in He as ->. by eapply elf_u32_value.
Qed.
Lemma elf_u64_at_value r offset delta context v :
  elf_u64_at r offset delta context = Ok v → v = uint_at (reads_big r) (er_bytes r) (offset + delta) 8.
Proof.
  unfold elf_u64_at. intros Hv. unbind Hv e He. apply plain_add_ok in He as ->. by eapply elf_u64_value.
Qed.

(** ** The parser *)

Definition format_for (class : ElfClass) : elf_format :=
  match class with Elf32 => format_32 | Elf64 => format_64 end.

Lemma identity_read bytes class endian :
  check_elf_identity bytes = Ok (class, endian) →
  format_of bytes = format_for class ∧ big_endian bytes = bool_decide (endian = ElfBig).
Proof.
  unfold check_elf_identity, format_of, big_endian. intros Hc. unbind Hc u1 H1. unbind Hc u2 H2.
  unbind Hc c H3. unbind Hc cl H4. unbind Hc d H5. unbind Hc en H6. unbind Hc v H7. unbind Hc u8 H8.
  injection Hc as -> ->. unfold index_at, expect_some in H3, H5.
  destruct (bytes !! Z.to_nat 4) as [b4|] eqn:E4; [|done]. injection H3 as ->.
  destruct (bytes !! Z.to_nat 5) as [b5|] eqn:E5; [|done]. injection H5 as ->.
  change (Z.to_nat 4) with 4%nat in E4. change (Z.to_nat 5) with 5%nat in E5. rewrite E4, E5.
  apply ok_or_ok in H4, H6. unfold ElfClass_from_ident, ElfEndian_from_ident in H4, H6. split.
  - destruct (Z.eqb_spec c 1) as [->|]; [by injection H4 as <-|].
    destruct (Z.eqb_spec c 2) as [->|]; by simplify_eq.
  - destruct (Z.eqb_spec d 1) as [->|]; [by injection H6 as <-|].
    destruct (Z.eqb_spec d 2) as [->|]; by simplify_eq.
Qed.

(** Passes over the next step of a parser, keeping the value of a field that it reads. *)
Ltac next_read H :=
  let v := fresh "v" in let K := fresh "K" in
  unbind H v K;
  first [ apply elf_u16_value in K | apply elf_u32_value in K | apply elf_u64_value in K
        | apply elf_u32_at_value in K | apply elf_u64_at_value in K | clear K ].

Section parsed.
Context (r : ElfReader).
Let at_ := uint_at (reads_big r) (er_bytes r).
Let f := format_for (er_class r).

Lemma header_read h :
  read_elf_header r = Ok h →
  efh_program_offset h = at_ (e_phoff f) (word f) ∧ efh_program_entry_size h = at_ (e_phentsize f) 2
  ∧ efh_program_count h = at_ (e_phnum f) 2.
Proof.
  unfold read_elf_header, f, at_. destruct (er_class r); cbn [class_is_64 class_header_size];
    intros Hr; repeat next_read Hr; injection Hr as <-; cbn; by split_and!.
Qed.

Lemma program_header_read offset entry_size index h :
  parse_program_header r offset entry_size index = Ok h →
  let start := offset + index * entry_size in
  eph_segment_type h = at_ start 4 ∧ eph_file_offset h = at_ (start + p_offset f) (word f)
  ∧ eph_virtual_address h = at_ (start + p_vaddr f) (word f)
  ∧ eph_file_size h = at_ (start + p_filesz f) (word f)
  ∧ eph_memory_size h = at_ (start + p_memsz f) (word f).
Proof.
  unfold parse_program_header, f, at_. intros Hp. unbind Hp start Hs.
  assert (start = offset + index * entry_size) as ->.
  { unfold elf_table_entry_offset in Hs. unbind Hs a Ha. apply ok_or_ok, checked_mul_some in Ha as [-> _].
    unbind Hs b Hb. apply ok_or_ok, checked_add_some in Hb as [-> _].
    unfold elf_try_from in Hs. destruct (_ <=? _); by simplify_eq. }
  destruct (er_class r); cbn [class_is_64] in Hp; repeat next_read Hp; try (unbind Hp al Hal; unfold narrow_alignment in Hal);
    injection Hp as <-; cbn; by split_and!.
Qed.
End parsed.

(** Record [k] of a table that was parsed. *)
Lemma parse_table_lookup {A} (parse : Z → elf_result A) index n l :
  parse_table parse index n = Ok l →
  length l = n ∧ ∀ k x, l !! k = Some x → parse (index + Z.of_nat k) = Ok x.
Proof.
  revert index l. induction n as [|n IH]; intros index l Hp; simpl in Hp; [by injection Hp as <-|].
  unbind Hp h Hh. unbind Hp t Ht. injection Hp as <-. apply IH in Ht as [Hl Hk]. simpl. split; [lia|].
  intros [|k] x Hx; simpl in Hx.
  - injection Hx as <-. by rewrite Z.add_0_r.
  - apply Hk in Hx. by replace (index + Z.of_nat (S k)) with (index + 1 + Z.of_nat k) by lia.
Qed.

(** Header [h] is number [i] of the file. *)
Record declared_as (bytes : list Z) (i : Z) (h : ElfProgramHeader) : Prop := {
  da_type : eph_segment_type h = declared_type bytes i;
  da_offset : eph_file_offset h = declared bytes p_offset i;
  da_address : eph_virtual_address h = declared bytes p_vaddr i;
  da_file_size : eph_file_size h = declared bytes p_filesz i;
  da_memory_size : eph_memory_size h = declared bytes p_memsz i
}.

Lemma parsed_headers `{Sha256} bytes a :
  parse_elf bytes = Ok a →
  length (elf_program_headers a) = Z.to_nat (header_count bytes)
  ∧ ∀ k h, elf_program_headers a !! k = Some h → declared_as bytes (Z.of_nat k) h.
Proof.
  unfold parse_elf. intros Hp. unbind Hp ident Hi. destruct ident as [class endian].
  set (r := mkElfReader bytes class endian) in Hp.
  unbind Hp h Hh. unbind Hp u1 H1. unbind Hp phs Hphs.
  assert (elf_program_headers a = phs) as ->.
  { do 4 (let u := fresh in let K := fresh in unbind Hp u K). unbind Hp ext Hext. destruct ext.
    unbind Hp entry Hentry. unbind Hp parsed Hparsed. destruct parsed. unbind Hp graph Hgraph.
    by injection Hp as <-. }
  clear Hp H1. apply identity_read in Hi as [Hf Hb]. apply header_read in Hh as (Ho & He & Hc).
  assert (∀ offset n, uint_at (reads_big r) (er_bytes r) offset n = file_field bytes offset n) as Hat.
  { intros offset n. unfold file_field. by rewrite Hb. }
  change (er_class r) with class in *. rewrite <-Hf in *. rewrite !Hat in *.
  unfold parse_program_headers in Hphs. apply parse_table_lookup in Hphs as [Hl Hk].
  split; [by rewrite Hl, Hc|]. intros k x Hx. apply Hk, program_header_read in Hx.
  change (er_class r) with class in Hx. rewrite <-Hf, !Hat, Ho, He in Hx. cbn in Hx.
  destruct Hx as (? & ? & ? & ? & ?). by split.
Qed.

(** The headers of the analysis are those of the file. *)
Lemma declared_header `{Sha256} bytes a (P : ElfProgramHeader → Prop) (Q : Z → Prop) :
  parse_elf bytes = Ok a → (∀ i h, declared_as bytes i h → P h ↔ Q i) →
  (∃ h, h ∈ elf_program_headers a ∧ P h) ↔ ∃ i, 0 ≤ i < header_count bytes ∧ Q i.
Proof.
  intros Ha HPQ. destruct (parsed_headers bytes a Ha) as [Hl Hk]. split.
  - intros (h & [k Hlk]%list_elem_of_lookup & HP). exists (Z.of_nat k).
    apply lookup_lt_Some in Hlk as Hlt. split; [lia|]. by eapply HPQ; [apply Hk|].
  - intros (i & Hi & HQ).
    destruct (lookup_lt_is_Some_2 (elf_program_headers a) (Z.to_nat i)) as [h Hh]; [lia|].
    exists h. split; [by eapply list_elem_of_lookup_2|]. apply Hk in Hh. rewrite Z2Nat.id in Hh by lia.
    by eapply HPQ.
Qed.
