(* ===== verification/AddressSpace.v ===== *)
(** The static address space of an image,
    [resymbol-debugger/src/address_space.rs]: the regions of a PE image as the
    loader rounds them and the load segments of an ELF image, and the translation
    of image addresses to file offsets.

    The PE analysis is a record of the fields that the address space reads
    ([resymbol-analysis/src/types.rs]), and its constructor is the one for an
    analysis that has been validated. *)

From S2P Require Import Prelude Identity Sandbox Sorting SymbolGraph ElfAnalysis.
Open Scope Z_scope.

(** ** What the PE analysis provides *)

Record PeSection : Type := mkPeSection {
  ps_name : list Z;
  ps_raw_name : list Z;
  ps_virtual_address : Z;
  ps_virtual_size : Z;
  ps_raw_data_offset : Z;
  ps_raw_data_size : Z;
  ps_characteristics : Z
}.

Definition section_loaded_size (s : PeSection) : Z :=
  if ps_virtual_size s =? 0 then ps_raw_data_size s else ps_virtual_size s.

Definition section_file_backed_size (s : PeSection) : Z :=
  let loaded_size := section_loaded_size s in
  if ps_raw_data_size s <? loaded_size then ps_raw_data_size s else loaded_size.

Record PeAnalysis : Type := mkPeAnalysis {
  pe_identity : BinaryIdentity;
  pe_entry_point_rva : Z;
  pe_size_of_image : Z;
  pe_size_of_headers : Z;
  pe_section_alignment : Z;
  pe_file_alignment : Z;
  pe_sections : list PeSection
}.

(** ** Ranges and regions *)

Definition IMAGE_SCN_MEM_EXECUTE : Z := 0x20000000.
Definition IMAGE_SCN_MEM_READ : Z := 0x40000000.
Definition IMAGE_SCN_MEM_WRITE : Z := 0x80000000.
Definition X64_PAGE_SIZE : Z := 0x1000.
Definition MIN_STANDARD_FILE_ALIGNMENT : Z := 0x200.
Definition MAX_FILE_ALIGNMENT : Z := 0x10000.

Module StaticAddressSpaceError.
Inductive address_space_error : Type :=
  | InvalidAnalysis (e : AnalysisError)
  | UnsupportedFormat
  | EmptyRegion (start : Z)
  | AddressOverflow (start size : Z)
  | PreferredImageOverflow (base image_size : Z)
  | InvalidAlignment (field : string) (value : Z) (requirement : string)
  | AlignmentOverflow (field : string) (value alignment : Z)
  | MisalignedImageValue (field : string) (value alignment : Z)
  | MisalignedSectionValue (index : Z) (field : string) (value alignment : Z)
  | SubPageSectionOffsetMismatch (index virtual_address raw_data_offset : Z)
  | OverlappingRegion (start cursor : Z)
  | RegionOutsideImage (start end_ image_size : Z)
  | SectionIndexOverflow (index : Z)
  | SegmentBelowImageBase (program_header_index virtual_address image_base : Z)
  | FileBackingOverflow (offset size : Z)
  | FileBackingOutsideBinary (offset size binary_size : Z).
End StaticAddressSpaceError.
Abbreviation StaticAddressSpaceError := StaticAddressSpaceError.address_space_error.
Module SAE := StaticAddressSpaceError.

Abbreviation layout_result A := (result A StaticAddressSpaceError).

(** Built by [checked] only, so that [end] does not overflow. *)
Record AddressRange : Type := mkAddressRange { range_start : Z; range_size : Z }.

Definition AddressRange_checked (start size : Z) : layout_result AddressRange :=
  do? fail_if (size =? 0) (SAE.EmptyRegion start) in
  let? _ := ok_or (checked_add u64_max start size) (SAE.AddressOverflow start size) in
  Ok (mkAddressRange start size).

Definition range_end (r : AddressRange) : Z := range_start r + range_size r.

Definition range_contains (r : AddressRange) (address : Z) : bool :=
  (range_start r <=? address) && (address <? range_start r + range_size r).

Record MemoryAccess : Type := mkMemoryAccess {
  ma_readable : bool; ma_writable : bool; ma_executable : bool
}.

Definition is_rwx (a : MemoryAccess) : bool := ma_readable a && ma_writable a && ma_executable a.

Record FileBacking : Type := mkFileBacking { fb_offset : Z; fb_size : Z }.

Inductive StaticImageLayout : Type :=
  | PeLayout (section_alignment file_alignment : Z)
  | ElfLayout.

Definition pe_alignments (l : StaticImageLayout) : option (Z * Z) :=
  match l with
  | PeLayout section_alignment file_alignment => Some (section_alignment, file_alignment)
  | ElfLayout => None
  end.

Module StaticRegionKind.
Inductive region_kind : Type :=
  | Headers
  | Section_ (table_index : Z) (name : list Z) (characteristics loaded_size : Z)
  | LoadSegment (program_header_index flags alignment loaded_size : Z)
  | ImageGap.
End StaticRegionKind.
Abbreviation StaticRegionKind := StaticRegionKind.region_kind.
Module SRK := StaticRegionKind.

Record StaticRegion : Type := mkStaticRegion {
  sr_range : AddressRange;
  sr_kind : StaticRegionKind;
  sr_access : MemoryAccess;
  sr_file_backing : option FileBacking
}.

Definition region_file_offset_at (r : StaticRegion) (address : Z) : option Z :=
  match sr_file_backing r with
  | None => None
  | Some backing =>
      if negb (range_contains (sr_range r) address) then None
      else
        let delta := address - range_start (sr_range r) in
        if delta <? fb_size backing then Some (fb_offset backing + delta) else None
  end.

Definition backing_size (r : StaticRegion) : Z :=
  match sr_file_backing r with Some backing => fb_size backing | None => 0 end.

Definition zero_fill_size (r : StaticRegion) : Z :=
  match sr_kind r with
  | SRK.Section_ _ _ _ loaded_size | SRK.LoadSegment _ _ _ loaded_size =>
      Z.max 0 (loaded_size - backing_size r)
  | SRK.Headers | SRK.ImageGap => 0
  end.

Definition mapped_padding_size (r : StaticRegion) : Z :=
  match sr_kind r with
  | SRK.Headers => Z.max 0 (range_size (sr_range r) - backing_size r)
  | SRK.Section_ _ _ _ loaded_size | SRK.LoadSegment _ _ _ loaded_size =>
      Z.max 0 (range_size (sr_range r) - loaded_size)
  | SRK.ImageGap => 0
  end.

Record StaticAddressSpace : Type := mkStaticAddressSpace {
  as_binary_id : list Z;
  as_preferred_image_base : Z;
  as_image_size : Z;
  as_layout : StaticImageLayout;
  as_entry_point : option Z;
  as_regions : list StaticRegion
}.

(** ** ELF images *)

(** One round of the loop over the load segments, for the end of the previous one. *)
Definition elf_region (a : ElfAnalysis) (cursor : Z) (segment : ElfLoadSegment)
    : layout_result StaticRegion :=
  let image_size := elf_image_size a in
  let image_base := bi_image_base (elf_identity a) in
  let virtual_address := ls_virtual_address segment in
  let? start := ok_or (checked_sub virtual_address image_base)
                  (SAE.SegmentBelowImageBase (ls_program_header_index segment) virtual_address
                     image_base) in
  let size := ls_memory_size segment in
  let? range := AddressRange_checked start size in
  let end_ := range_end range in
  do? fail_if (start <? cursor) (SAE.OverlappingRegion start cursor) in
  do? fail_if (image_size <? end_) (SAE.RegionOutsideImage start end_ image_size) in
  let initialized_size := ls_file_size segment in
  let file_offset := ls_file_offset segment in
  let? file_end := ok_or (checked_add u64_max file_offset initialized_size)
                     (SAE.FileBackingOverflow file_offset initialized_size) in
  do? fail_if (bi_size (elf_identity a) <? file_end)
        (SAE.FileBackingOutsideBinary file_offset initialized_size (bi_size (elf_identity a))) in
  let file_backing :=
    if negb (initialized_size =? 0) then Some (mkFileBacking file_offset initialized_size)
    else None in
  Ok (mkStaticRegion range
        (SRK.LoadSegment (ls_program_header_index segment) (ls_flags segment)
           (ls_alignment segment) size)
        (mkMemoryAccess (segment_readable segment) (segment_writable segment)
           (segment_executable segment))
        file_backing).

Fixpoint elf_regions (a : ElfAnalysis) (cursor : Z) (segments : list ElfLoadSegment)
    : layout_result (list StaticRegion) :=
  match segments with
  | [] => Ok []
  | segment :: segments =>
      let? region := elf_region a cursor segment in
      let? regions := elf_regions a (range_end (sr_range region)) segments in
      Ok (region :: regions)
  end.

Definition from_elf (a : ElfAnalysis) : layout_result StaticAddressSpace :=
  do? map_err SAE.InvalidAnalysis (validate_elf_analysis a) in
  let image_size := elf_image_size a in
  let image_base := bi_image_base (elf_identity a) in
  let? _ := ok_or (checked_add u64_max image_base image_size)
              (SAE.PreferredImageOverflow image_base image_size) in
  let? regions := elf_regions a 0 (elf_load_segments a) in
  Ok (mkStaticAddressSpace (bi_id (elf_identity a)) image_base image_size ElfLayout
        (Some (elf_entry_rva a)) regions).

(** ** PE images *)

(** [value % alignment] on unsigned integers. *)
Definition rem_plain {E} (value alignment : Z) : result Z E :=
  if alignment =? 0 then Panic "attempt to calculate the remainder with a divisor of zero"
  else Ok (value mod alignment).

Definition checked_align_up (value alignment : Z) (field : string) : layout_result Z :=
  let? remainder := rem_plain value alignment in
  if remainder =? 0 then Ok value
  else ok_or (checked_add u64_max value (alignment - remainder))
         (SAE.AlignmentOverflow field value alignment).

Definition require_aligned (field : string) (value alignment : Z) : layout_result unit :=
  let? remainder := rem_plain value alignment in
  fail_if (negb (remainder =? 0)) (SAE.MisalignedImageValue field value alignment).

Definition require_section_aligned (index : Z) (field : string) (value alignment : Z)
    : layout_result unit :=
  let? remainder := rem_plain value alignment in
  fail_if (negb (remainder =? 0)) (SAE.MisalignedSectionValue index field value alignment).

Definition image_gap (start size : Z) : layout_result StaticRegion :=
  let? range := AddressRange_checked start size in
  Ok (mkStaticRegion range SRK.ImageGap (mkMemoryAccess false false false) None).

(** The body of the loop of [validate_image_alignment] over the section table. *)
Definition validate_section_alignment (a : PeAnalysis) (entry : Z * PeSection)
    : layout_result unit :=
  let '(index, section) := entry in
  let section_alignment := pe_section_alignment a in
  let file_alignment := pe_file_alignment a in
  do? (if negb (section_loaded_size section =? 0)
       then require_section_aligned index "VirtualAddress" (ps_virtual_address section)
              section_alignment
       else Ok tt) in
  if ps_raw_data_size section =? 0 then Ok tt
  else
    do? require_section_aligned index "SizeOfRawData" (ps_raw_data_size section) file_alignment in
    do? require_section_aligned index "PointerToRawData" (ps_raw_data_offset section)
          file_alignment in
    fail_if ((section_alignment <? X64_PAGE_SIZE)
             && negb (ps_raw_data_offset section =? ps_virtual_address section))
      (SAE.SubPageSectionOffsetMismatch index (ps_virtual_address section)
         (ps_raw_data_offset section)).

Definition validate_image_alignment (a : PeAnalysis) : layout_result unit :=
  let section_alignment := pe_section_alignment a in
  let file_alignment := pe_file_alignment a in
  do? fail_if (negb (is_power_of_two section_alignment))
        (SAE.InvalidAlignment "SectionAlignment" section_alignment "must be a power of two") in
  do? fail_if (negb (is_power_of_two file_alignment))
        (SAE.InvalidAlignment "FileAlignment" file_alignment "must be a power of two") in
  do? fail_if (section_alignment <? file_alignment)
        (SAE.InvalidAlignment "SectionAlignment" section_alignment
           "must be greater than or equal to FileAlignment") in
  do? fail_if (negb ((MIN_STANDARD_FILE_ALIGNMENT <=? file_alignment)
                     && (file_alignment <=? MAX_FILE_ALIGNMENT)))
        (SAE.InvalidAlignment "FileAlignment" file_alignment "must be between 512 and 65536") in
  do? fail_if ((section_alignment <? X64_PAGE_SIZE) && negb (file_alignment =? section_alignment))
        (SAE.InvalidAlignment "FileAlignment" file_alignment
           "must equal SectionAlignment for sub-page images") in
  do? require_aligned "SizeOfImage" (pe_size_of_image a) section_alignment in
  do? require_aligned "SizeOfHeaders" (pe_size_of_headers a) file_alignment in
  each (validate_section_alignment a) (enumerate (pe_sections a)).

Definition section_region (start size loaded_size table_index : Z) (section : PeSection)
    : layout_result StaticRegion :=
  let initialized_size := section_file_backed_size section in
  let file_backing :=
    if negb (initialized_size =? 0)
    then Some (mkFileBacking (ps_raw_data_offset section) initialized_size)
    else None in
  let? range := AddressRange_checked start size in
  let declares bit := negb (Z.land (ps_characteristics section) bit =? 0) in
  Ok (mkStaticRegion range
        (SRK.Section_ table_index (ps_name section) (ps_characteristics section) loaded_size)
        (mkMemoryAccess (declares IMAGE_SCN_MEM_READ) (declares IMAGE_SCN_MEM_WRITE)
           (declares IMAGE_SCN_MEM_EXECUTE))
        file_backing).

(** One round of the loop over the sections: the regions it pushes and the cursor. *)
Definition pe_region (a : PeAnalysis) (cursor : Z) (entry : Z * PeSection)
    : layout_result (list StaticRegion * Z) :=
  let image_size := pe_size_of_image a in
  let '(table_index, section) := entry in
  let start := ps_virtual_address section in
  let loaded_size := section_loaded_size section in
  if loaded_size =? 0 then Ok ([], cursor)
  else
    let? size := checked_align_up loaded_size (pe_section_alignment a) "section mapped size" in
    let? end_ := ok_or (checked_add u64_max start size) (SAE.AddressOverflow start size) in
    do? fail_if (start <? cursor) (SAE.OverlappingRegion start cursor) in
    do? fail_if (image_size <? end_) (SAE.RegionOutsideImage start end_ image_size) in
    let? gap := if cursor <? start
                then let? gap := image_gap cursor (start - cursor) in Ok [gap]
                else Ok [] in
    do? fail_if (u32_max <? table_index) (SAE.SectionIndexOverflow table_index) in
    let? region := section_region start size loaded_size table_index section in
    Ok (gap ++ [region], end_).

Fixpoint pe_regions (a : PeAnalysis) (cursor : Z) (sections : list (Z * PeSection))
    : layout_result (list StaticRegion * Z) :=
  match sections with
  | [] => Ok ([], cursor)
  | entry :: sections =>
      let? pushed := pe_region a cursor entry in
      let? rest := pe_regions a pushed.2 sections in
      Ok (pushed.1 ++ rest.1, rest.2)
  end.

Definition by_virtual_address (x y : Z * PeSection) : bool :=
  ps_virtual_address x.2 <=? ps_virtual_address y.2.

Definition from_validated_pe (a : PeAnalysis) : layout_result StaticAddressSpace :=
  do? validate_image_alignment a in
  let image_size := pe_size_of_image a in
  let image_base := bi_image_base (pe_identity a) in
  let? _ := ok_or (checked_add u64_max image_base image_size)
              (SAE.PreferredImageOverflow image_base image_size) in
  let header_size := pe_size_of_headers a in
  let? header_mapped_size := checked_align_up header_size (pe_section_alignment a)
                               "SizeOfHeaders" in
  do? fail_if (image_size <? header_mapped_size)
        (SAE.RegionOutsideImage 0 header_mapped_size image_size) in
  let? header_range := AddressRange_checked 0 header_mapped_size in
  let headers := mkStaticRegion header_range SRK.Headers (mkMemoryAccess true false false)
                   (Some (mkFileBacking 0 header_size)) in
  let sections := sort_stable by_virtual_address (enumerate (pe_sections a)) in
  let? pushed := pe_regions a header_mapped_size sections in
  let '(regions, cursor) := pushed in
  let? tail := if cursor <? image_size
               then let? gap := image_gap cursor (image_size - cursor) in Ok [gap]
               else Ok [] in
  let entry_point :=
    if negb (pe_entry_point_rva a =? 0) then Some (pe_entry_point_rva a) else None in
  Ok (mkStaticAddressSpace (bi_id (pe_identity a)) image_base image_size
        (PeLayout (pe_section_alignment a) (pe_file_alignment a)) entry_point
        ((headers :: regions) ++ tail)).

(** ** Lookups *)

Definition region_at (space : StaticAddressSpace) (address : Z) : option StaticRegion :=
  let index := partition_point (λ region, range_end (sr_range region) <=? address)
                 (as_regions space) in
  match as_regions space !! index with
  | Some region => if range_contains (sr_range region) address then Some region else None
  | None => None
  end.

Definition preferred_virtual_address (space : StaticAddressSpace) (address : Z) : option Z :=
  if address <? as_image_size space
  then checked_add u64_max (as_preferred_image_base space) address
  else None.

Definition relative_address (space : StaticAddressSpace) (virtual_address : Z) : option Z :=
  match checked_sub virtual_address (as_preferred_image_base space) with
  | Some rva => if rva <? as_image_size space then Some rva else None
  | None => None
  end.

Definition file_offset_at (space : StaticAddressSpace) (address : Z) : option Z :=
  match region_at space address with
  | Some region => region_file_offset_at region address
  | None => None
  end.
