(* ===== verification/AddressSpaceTheory.v ===== *)
(** Theorems about the static address space: the regions of an image lie in order
    and do not overlap, the search finds the region of an address, and addresses
    are translated to exactly the file offsets that the image format declares. *)

From S2P Require Import Prelude Sorting SymbolGraph ElfAnalysis AddressSpace.
Open Scope Z_scope.

(** ** Regions in order *)

Record static_region_ok (r : StaticRegion) : Prop := {
  rok_start : 0 ≤ range_start (sr_range r);
  rok_size : 0 < range_size (sr_range r);
  rok_end : range_end (sr_range r) ≤ u64_max;
  rok_backing : ∀ b, sr_file_backing r = Some b →
    0 ≤ fb_offset b ∧ 0 < fb_size b ≤ range_size (sr_range r) ∧ fb_offset b + fb_size b ≤ u64_max;
  rok_gap : sr_kind r = SRK.ImageGap → sr_file_backing r = None
}.

(** Well-formed regions between two addresses, in order and with gaps. *)
Fixpoint spread (start : Z) (regions : list StaticRegion) (stop : Z) : Prop :=
  match regions with
  | [] => start ≤ stop
  | r :: regions =>
      start ≤ range_start (sr_range r) ∧ static_region_ok r ∧ spread (range_end (sr_range r)) regions stop
  end.

(** The same without gaps. *)
Fixpoint tiles (start : Z) (regions : list StaticRegion) (stop : Z) : Prop :=
  match regions with
  | [] => start = stop
  | r :: regions =>
      start = range_start (sr_range r) ∧ static_region_ok r ∧ tiles (range_end (sr_range r)) regions stop
  end.

Lemma tiles_spread start regions stop : tiles start regions stop → spread start regions stop.
Proof.
  revert start. induction regions as [|r rs IH]; intros start; simpl; [lia|].
  intros (-> & Hr & Ht). split; [lia|]. split; [done|]. by apply IH.
Qed.

Lemma tiles_app start xs mid ys stop : tiles start xs mid → tiles mid ys stop → tiles start (xs ++ ys) stop.
Proof.
  revert start. induction xs as [|r rs IH]; intros start; simpl; [by intros ->|].
  intros (-> & Hr & Ht) Hy. split; [done|]. split; [done|]. by apply IH.
Qed.

Lemma spread_in start regions stop r :
  spread start regions stop → r ∈ regions →
  static_region_ok r ∧ start ≤ range_start (sr_range r) ∧ range_end (sr_range r) ≤ stop.
Proof.
  revert start. induction regions as [|x rs IH]; intros start; simpl; [by intros _ ?%elem_of_nil|].
  intros (Hs & Hx & Hrs) [->|Hr]%elem_of_cons.
  - split; [done|]. split; [done|]. clear -Hrs.
    remember (range_end (sr_range x)) as e eqn:He. clear He. revert e Hrs.
    induction rs as [|y rs IH]; intros e; simpl; [done|]. intros (Hy & Hok & Hrs).
    apply IH in Hrs. unfold range_end in Hrs. destruct Hok. lia.
  - destruct (IH _ Hrs Hr) as (Hok & Hb & He). split; [done|]. split; [|done].
    destruct Hx. unfold range_end in *. lia.
Qed.

Lemma tiles_covered start regions stop a :
  tiles start regions stop → start ≤ a < stop →
  ∃ r, r ∈ regions ∧ range_contains (sr_range r) a = true.
Proof.
  revert start. induction regions as [|r rs IH]; intros start; simpl; [lia|].
  intros (-> & Hr & Ht) Ha. destruct (Z.ltb_spec a (range_end (sr_range r))) as [Hlt|Hge].
  - exists r. split; [by left|]. unfold range_contains, range_end in *.
    by rewrite (proj2 (Z.leb_le _ _)), (proj2 (Z.ltb_lt _ _)) by lia.
  - destruct (IH _ Ht) as (x & Hx & Hc); [lia|]. exists x. split; [by right|done].
Qed.

(** ** The search *)

Abbreviation below a := (λ region, range_end (sr_range region) <=? a).

Lemma spread_partitioned start regions stop a :
  spread start regions stop → ∃ n, partitioned_at (below a) regions n.
Proof.
  revert start. induction regions as [|r rs IH]; intros start Hs.
  { exists 0%nat. by split. }
  simpl in Hs. destruct Hs as (_ & Hr & Hs). destruct (Z.leb_spec (range_end (sr_range r)) a) as [Hle|Hlt].
  - destruct (IH _ Hs) as (n & Hn & Hp). exists (S n). split; [simpl; lia|]. intros [|i] x Hx.
    + injection Hx as ->. rewrite Z.leb_le. lia.
    + rewrite (Hp i x Hx). lia.
  - exists 0%nat. split; [lia|]. intros i x Hx%list_elem_of_lookup_2. rewrite Z.leb_le.
    split; [|lia]. intros Hle. apply elem_of_cons in Hx as [->|Hx]; [lia|].
    destruct (spread_in _ _ _ _ Hs Hx) as ([] & ? & _). unfold range_end in *. lia.
Qed.

(** A later region starts behind an earlier one. *)
Lemma spread_lookup start regions stop i j x y :
  spread start regions stop → regions !! i = Some x → regions !! j = Some y → (i < j)%nat →
  range_end (sr_range x) ≤ range_start (sr_range y).
Proof.
  revert start i j. induction regions as [|r rs IH]; intros start i j; [by rewrite lookup_nil|].
  intros (_ & Hr & Hs) Hi Hj Hij. destruct j as [|j]; [lia|]. destruct i as [|i]; simpl in Hi, Hj.
  - injection Hi as <-. apply list_elem_of_lookup_2 in Hj.
    by destruct (spread_in _ _ _ _ Hs Hj) as (_ & ? & _).
  - apply (IH _ i j Hs Hi Hj). lia.
Qed.

Section space.
Context (space : StaticAddressSpace).
Context (Hspread : spread 0 (as_regions space) (as_image_size space)).

Lemma region_at_iff a r :
  region_at space a = Some r ↔ r ∈ as_regions space ∧ range_contains (sr_range r) a = true.
Proof.
  destruct (spread_partitioned _ _ _ a Hspread) as (n & Hn).
  unfold region_at. rewrite (partition_point_spec _ _ _ Hn). destruct Hn as [Hlen Hp]. split.
  - destruct (_ !! n) as [x|] eqn:Hx; [|done]. destruct (range_contains _ a) eqn:Hc; [|done].
    intros [= <-]. split; [by eapply list_elem_of_lookup_2|done].
  - intros [[i Hi]%list_elem_of_lookup_1 Hc]. pose proof Hc as Hin. unfold range_contains in Hin.
    apply andb_true_iff in Hin as [Hge%Z.leb_le Hlt%Z.ltb_lt].
    assert (n ≤ i)%nat as Hni.
    { destruct (decide (n ≤ i)%nat); [done|]. apply (Hp i r) in Hi as [_ Hb].
      specialize (Hb ltac:(lia)). apply Z.leb_le in Hb. unfold range_end in Hb. lia. }
    destruct (decide (n = i)) as [->|Hne]; [by rewrite Hi, Hc|].
    destruct (lookup_lt_is_Some_2 (as_regions space) n) as [x Hx].
    { apply lookup_lt_Some in Hi. lia. }
    pose proof (spread_lookup _ _ _ n i x r Hspread Hx Hi ltac:(lia)) as Hle.
    assert ((range_end (sr_range x) <=? a) = true) as Hb by (apply Z.leb_le; lia).
    apply (Hp n x Hx) in Hb. lia.
Qed.

(** ** File offsets *)

(** The file offset that a list of regions gives an address. *)
Definition maps (regions : list StaticRegion) (a off : Z) : Prop :=
  ∃ r b, r ∈ regions ∧ sr_file_backing r = Some b ∧ 0 ≤ a - range_start (sr_range r) < fb_size b
         ∧ off = fb_offset b + (a - range_start (sr_range r)).

Lemma region_offset_iff r a off :
  static_region_ok r → range_contains (sr_range r) a = true →
  region_file_offset_at r a = Some off ↔ maps [r] a off.
Proof.
  intros Hr Hc. unfold region_file_offset_at. rewrite Hc. simpl.
  unfold range_contains in Hc. apply andb_true_iff in Hc as [Hge%Z.leb_le Hlt%Z.ltb_lt]. split.
  - destruct (sr_file_backing r) as [b|] eqn:Hb; [|done].
    destruct (Z.ltb_spec (a - range_start (sr_range r)) (fb_size b)); [|done]. intros [= <-].
    exists r, b. split; [by left|]. split; [done|lia].
  - intros (x & b & Hx & Hb & Hd & ->). apply list_elem_of_singleton in Hx as ->. rewrite Hb.
    by rewrite (proj2 (Z.ltb_lt _ _)) by lia.
Qed.

Lemma file_offset_iff a off : file_offset_at space a = Some off ↔ maps (as_regions space) a off.
Proof.
  unfold file_offset_at. split.
  - destruct (region_at space a) as [r|] eqn:Hr; [|done]. apply region_at_iff in Hr as [Hin Hc].
    destruct (spread_in _ _ _ _ Hspread Hin) as (Hok & _).
    intros (x & b & Hx & Hrest)%region_offset_iff; [|done..].
    apply list_elem_of_singleton in Hx as ->. by exists r, b.
  - intros (r & b & Hin & Hb & Hd & ->).
    destruct (spread_in _ _ _ _ Hspread Hin) as (Hok & _).
    assert (range_contains (sr_range r) a = true) as Hc.
    { destruct (rok_backing _ Hok b Hb) as (_ & Hz & _). unfold range_contains.
      by rewrite (proj2 (Z.leb_le _ _)), (proj2 (Z.ltb_lt _ _)) by lia. }
    assert (region_at space a = Some r) as -> by by apply region_at_iff.
    apply region_offset_iff; [done..|]. exists r, b. split; [by left|done].
Qed.
End space.

(** ** PE images *)

Record section_typed (s : PeSection) : Prop := {
  pst_virtual_address : in_u32 (ps_virtual_address s);
  pst_virtual_size : in_u32 (ps_virtual_size s);
  pst_raw_offset : in_u32 (ps_raw_data_offset s);
  pst_raw_size : in_u32 (ps_raw_data_size s)
}.

Record pe_typed (a : PeAnalysis) : Prop := {
  pt_image : in_u32 (pe_size_of_image a);
  pt_headers : in_u32 (pe_size_of_headers a);
  pt_section_alignment : in_u32 (pe_section_alignment a);
  pt_file_alignment : in_u32 (pe_file_alignment a);
  pt_sections : Forall section_typed (pe_sections a)
}.

Lemma yields_range start size :
  0 ≤ start → 0 ≤ size →
  yields_ok (AddressRange_checked start size)
    (λ r, r = mkAddressRange start size ∧ 0 < size ∧ start + size ≤ u64_max).
Proof.
  intros Hs Hz. unfold AddressRange_checked.
  via (apply yields_ok_fail_if) as u Hne%Z.eqb_neq.
  via (apply yields_ok_or) as e [_ He]%checked_add_some. split; [done|lia].
Qed.

Lemma yields_align_up value alignment field :
  0 ≤ value → 0 < alignment →
  yields_ok (checked_align_up value alignment field)
    (λ n, value ≤ n < value + alignment ∧ n mod alignment = 0).
Proof.
  intros Hv Ha. unfold checked_align_up, rem_plain.
  destruct (Z.eqb_spec alignment 0) as [|_]; [lia|]. cbn [result_bind].
  pose proof (Z.mod_pos_bound value alignment Ha).
  destruct (Z.eqb_spec (value mod alignment) 0) as [H0|H0].
  { cbn [yields_ok]. split; [lia|done]. }
  eapply yields_ok_mono; [apply yields_ok_or|]. intros m [-> _]%checked_add_some. split; [lia|].
  rewrite (Z.div_mod value alignment) at 1 by lia.
  replace (alignment * (value / alignment) + value mod alignment + (alignment - value mod alignment))
    with ((value / alignment + 1) * alignment) by ring.
  apply Z.mod_mul. lia.
Qed.

Lemma maps_app xs ys a off : maps (xs ++ ys) a off ↔ maps xs a off ∨ maps ys a off.
Proof.
  unfold maps. split.
  - intros (r & b & [Hr|Hr]%elem_of_app & Hrest); [left|right]; by exists r, b.
  - intros [(r & b & Hr & Hrest)|(r & b & Hr & Hrest)]; exists r, b; (split; [|done]);
      apply elem_of_app; auto.
Qed.

Lemma maps_cons r rs a off : maps (r :: rs) a off ↔ maps [r] a off ∨ maps rs a off.
Proof. apply (maps_app [r] rs). Qed.

Lemma maps_nil a off : ¬ maps [] a off.
Proof. by intros (r & b & ?%elem_of_nil & _). Qed.

(** The gap before a region, if there is one. *)
Lemma yields_gap start stop :
  0 ≤ start →
  yields_ok (if start <? stop then let? gap := image_gap start (stop - start) in Ok [gap]
             else Ok [])
    (λ gaps, start ≤ stop → tiles start gaps stop ∧ ∀ a off, ¬ maps gaps a off).
Proof.
  intros Hs. destruct (Z.ltb_spec start stop) as [Hlt|Hge].
  - unfold image_gap. eapply (yields_ok_bind _ _ (λ g, sr_file_backing g = None ∧
      sr_range g = mkAddressRange start (stop - start) ∧ stop ≤ u64_max)).
    { via (apply yields_range; lia) as r (-> & _ & Hr). simpl. repeat split. lia. }
    intros g (Hb & Hr & Hm) _. split.
    + split; [by rewrite Hr|]. unfold range_end. rewrite Hr. simpl. split; [|lia].
      split; unfold range_end; rewrite ?Hr; simpl; [lia..| |done]. intros b. by rewrite Hb.
    + intros a off (r & b & Hx & Hy & _). apply list_elem_of_singleton in Hx as ->. congruence.
  - intros Hle. simpl. split; [lia|]. apply maps_nil.
Qed.

(** The file offset that a section declares for an address. *)
Definition section_maps (s : PeSection) (a off : Z) : Prop :=
  0 ≤ a - ps_virtual_address s < section_file_backed_size s
  ∧ off = ps_raw_data_offset s + (a - ps_virtual_address s).

(** The region of the section with a table index. *)
Definition region_of_section (alignment : Z) (entry : Z * PeSection) (r : StaticRegion) : Prop :=
  let s := entry.2 in
  range_start (sr_range r) = ps_virtual_address s
  ∧ section_loaded_size s ≤ range_size (sr_range r) < section_loaded_size s + alignment
  ∧ range_size (sr_range r) mod alignment = 0
  ∧ sr_kind r = SRK.Section_ entry.1 (ps_name s) (ps_characteristics s) (section_loaded_size s)
  ∧ sr_access r = mkMemoryAccess (Z.testbit (ps_characteristics s) 30)
                    (Z.testbit (ps_characteristics s) 31) (Z.testbit (ps_characteristics s) 29).

Lemma land_bit n k : 0 ≤ k → negb (Z.land n (2 ^ k) =? 0) = Z.testbit n k.
Proof.
  intros Hk. destruct (Z.testbit n k) eqn:Hb.
  - destruct (Z.eqb_spec (Z.land n (2 ^ k)) 0) as [H|]; [|done].
    assert (Z.testbit (Z.land n (2 ^ k)) k = false) as Hf by by rewrite H, Z.bits_0.
    rewrite Z.land_spec, Hb, Z.pow2_bits_true in Hf by done. done.
  - replace (Z.land n (2 ^ k)) with 0; [done|]. apply Z.bits_inj'. intros m Hm.
    rewrite Z.bits_0, Z.land_spec. destruct (decide (m = k)) as [->|Hne]; [by rewrite Hb|].
    rewrite (Z.pow2_bits_false k m) by lia. by rewrite andb_false_r.
Qed.

Lemma yields_section start size loaded_size index s :
  section_typed s → start = ps_virtual_address s → section_file_backed_size s ≤ size →
  yields_ok (section_region start size loaded_size index s)
    (λ r, static_region_ok r ∧ sr_range r = mkAddressRange start size
          ∧ sr_kind r = SRK.Section_ index (ps_name s) (ps_characteristics s) loaded_size
          ∧ sr_access r = mkMemoryAccess (Z.testbit (ps_characteristics s) 30)
                    (Z.testbit (ps_characteristics s) 31) (Z.testbit (ps_characteristics s) 29)
          ∧ ∀ a off, maps [r] a off ↔ section_maps s a off).
Proof.
  intros [Hva Hvs Hro Hrs] -> Hsz. unfold in_u32, u32_max in *.
  assert (0 ≤ section_file_backed_size s ≤ ps_raw_data_size s) as Hb.
  { unfold section_file_backed_size, section_loaded_size. repeat case_match; lia. }
  unfold section_region. via (apply yields_range; lia) as r (-> & Hp & Hm). rewrite <-!land_bit by lia.
  cbn -[Z.land section_file_backed_size]. unfold u64_max in *.
  split; [split; cbn -[section_file_backed_size]|split; [done|split; [done|split; [done|]]]].
  - lia. - lia. - done.
  - destruct (Z.eqb_spec (section_file_backed_size s) 0); [done|]. intros b [= <-]. cbn -[section_file_backed_size]. unfold u64_max. lia.
  - done.
  - intros a off. unfold section_maps. split.
    + intros (r & b & Hx & Hy & Hd). apply list_elem_of_singleton in Hx as ->. cbn -[section_file_backed_size] in *.
      destruct (Z.eqb_spec (section_file_backed_size s) 0); [done|]. injection Hy as <-. exact Hd.
    + intros [Hd Ho]. eexists _, (mkFileBacking (ps_raw_data_offset s) (section_file_backed_size s)).
      split; [by left|]. cbn -[section_file_backed_size]. destruct (Z.eqb_spec (section_file_backed_size s) 0); [lia|]. done.
Qed.

Lemma unloaded_maps_nothing s a off :
  section_loaded_size s = 0 → section_typed s → ¬ section_maps s a off.
Proof.
  intros Hz [_ _ _ Hrs] [Hd _]. unfold in_u32 in Hrs. unfold section_file_backed_size in Hd.
  rewrite Hz in Hd. case_match; lia.
Qed.

Section pe.
Context (a : PeAnalysis) (Ha : pe_typed a) (Halign : 0 < pe_section_alignment a).

Lemma yields_pe_region cursor entry :
  0 ≤ cursor ≤ pe_size_of_image a → section_typed entry.2 →
  yields_ok (pe_region a cursor entry)
    (λ p, tiles cursor p.1 p.2 ∧ cursor ≤ p.2 ≤ pe_size_of_image a
          ∧ (∀ x off, maps p.1 x off ↔ section_maps entry.2 x off)
          ∧ (section_loaded_size entry.2 ≠ 0 →
             ∃ r, r ∈ p.1 ∧ region_of_section (pe_section_alignment a) entry r)).
Proof.
  destruct entry as [index s]. simpl. intros Hc Hs. unfold pe_region.
  assert (0 ≤ section_loaded_size s) as Hl.
  { destruct Hs. unfold in_u32 in *. unfold section_loaded_size. case_match; lia. }
  destruct (Z.eqb_spec (section_loaded_size s) 0) as [Hz|Hz].
  { simpl. split; [done|]. split; [lia|]. split; [|done]. intros x off.
    pose proof (maps_nil x off). pose proof (unloaded_maps_nothing s x off Hz Hs). tauto. }
  via (apply yields_align_up; lia) as size [Hsize Hmod].
  via (apply yields_ok_or) as end_ [-> Hend]%checked_add_some.
  via (apply yields_ok_fail_if) as u1 Hge%Z.ltb_ge.
  via (apply yields_ok_fail_if) as u2 Hle%Z.ltb_ge.
  via (apply yields_gap; lia) as gaps Hg. destruct (Hg Hge) as [Hgt Hgm]. clear Hg.
  via (apply yields_ok_fail_if) as u3 Hi.
  via (apply yields_section; [done..|]) as r (Hr & Hrange & Hk & Hacc & Hm).
  { unfold section_file_backed_size. case_match; lia. }
  cbn [yields_ok fst snd]. split; [|split; [lia|split]].
  - apply (tiles_app _ _ (ps_virtual_address s)); [done|]. unfold range_end. simpl.
    unfold range_end. by rewrite Hrange.
  - intros x off. rewrite maps_app, (Hm x off). pose proof (Hgm x off). tauto.
  - intros _. exists r. split; [apply elem_of_app; right; by left|].
    unfold region_of_section. rewrite Hrange. simpl. auto with lia.
Qed.

Lemma yields_pe_regions cursor entries :
  0 ≤ cursor ≤ pe_size_of_image a → Forall (λ e, section_typed e.2) entries →
  yields_ok (pe_regions a cursor entries)
    (λ p, tiles cursor p.1 p.2 ∧ cursor ≤ p.2 ≤ pe_size_of_image a
          ∧ (∀ x off, maps p.1 x off ↔ ∃ e, e ∈ entries ∧ section_maps e.2 x off)
          ∧ ∀ e, e ∈ entries → section_loaded_size e.2 ≠ 0 →
            ∃ r, r ∈ p.1 ∧ region_of_section (pe_section_alignment a) e r).
Proof.
  revert cursor. induction entries as [|e es IH]; intros cursor Hc Ht; simpl.
  { split; [done|]. split; [lia|]. split; [|by intros e ?%elem_of_nil]. intros x off.
    split; [by intros ?%maps_nil|by intros (e & ?%elem_of_nil & _)]. }
  apply Forall_cons_1 in Ht as [He Hes].
  via (apply yields_pe_region; done) as p1 (Ht1 & Hc1 & Hm1 & Hr1).
  via (apply IH; [lia|done]) as p2 (Ht2 & Hc2 & Hm2 & Hr2). cbn [yields_ok fst snd].
  split; [by eapply tiles_app|]. split; [lia|]. split.
  - intros x off. rewrite maps_app, Hm1, Hm2. split.
    + intros [Hsm|(e' & ? & Hsm)]; [exists e|exists e']; (split; [|done]); by constructor.
    + intros (e' & [->|?]%elem_of_cons & Hsm); [by left|right; by exists e'].
  - intros e' [->|Hin]%elem_of_cons Hl.
    + destruct (Hr1 Hl) as (r & Hr & Hof). exists r. split; [|done]. apply elem_of_app. by left.
    + destruct (Hr2 _ Hin Hl) as (r & Hr & Hof). exists r. split; [|done]. apply elem_of_app. by right.
Qed.
End pe.

Lemma yields_alignment a :
  pe_typed a → yields_ok (validate_image_alignment a) (λ _, 0 < pe_section_alignment a).
Proof.
  intros [_ _ _ _ _]. unfold validate_image_alignment.
  assert (∀ n, negb (is_power_of_two n) = false → 0 < n) as Hpow.
  { intros n. unfold is_power_of_two. destruct (Z.ltb_spec 0 n); [done|]. by intros. }
  via (apply yields_ok_fail_if) as u1 Hs%Hpow. via (apply yields_ok_fail_if) as u2 Hf%Hpow.
  do 3 (via (apply yields_ok_fail_if) as ? ?).
  assert (∀ field v n, 0 < n → no_panic (require_aligned field v n)) as Hnp.
  { intros field v n Hn. unfold require_aligned, rem_plain.
    destruct (Z.eqb_spec n 0); [lia|]. apply no_panic_fail_if. }
  assert (∀ i field v n, 0 < n → no_panic (require_section_aligned i field v n)) as Hnps.
  { intros i field v n Hn. unfold require_section_aligned, rem_plain.
    destruct (Z.eqb_spec n 0); [lia|]. apply no_panic_fail_if. }
  do 2 (eapply (yields_ok_bind _ _ (λ _, True)); [by apply yields_ok_intro; [by apply Hnp|]|intros ? _]).
  apply yields_ok_intro; [|done]. induction (enumerate _) as [|[i s] l IH]; [apply no_panic_ok|].
  simpl. apply no_panic_bind; [|done]. unfold validate_section_alignment.
  apply no_panic_bind; [case_match; auto with nopanic|]. intros _ _.
  case_match; [auto with nopanic|]. do 2 (apply no_panic_bind; [by apply Hnps|intros _ _]).
  auto with nopanic.
Qed.

(** What the layout of a PE image is: the regions tile the image, every loaded section
    has its region, and the file offsets are those of the headers and sections. *)
Record pe_laid_out (a : PeAnalysis) (space : StaticAddressSpace) : Prop := {
  pl_size : as_image_size space = pe_size_of_image a;
  pl_tiles : tiles 0 (as_regions space) (pe_size_of_image a);
  pl_sections : ∀ i s, pe_sections a !! i = Some s → section_loaded_size s ≠ 0 →
    ∃ r, r ∈ as_regions space ∧ region_of_section (pe_section_alignment a) (Z.of_nat i, s) r;
  pl_maps : ∀ x off, maps (as_regions space) x off ↔
    (0 ≤ x < pe_size_of_headers a ∧ off = x) ∨ ∃ s, s ∈ pe_sections a ∧ section_maps s x off
}.

Lemma enumerate_in {A} (l : list A) i x : (i, x) ∈ enumerate l ↔ ∃ k, i = Z.of_nat k ∧ l !! k = Some x.
Proof.
  unfold enumerate. rewrite elem_of_lookup_imap. split.
  - intros (k & y & [= -> ->] & Hk). eauto.
  - intros (k & -> & Hk). eauto.
Qed.

Lemma yields_pe a :
  pe_typed a → yields_ok (from_validated_pe a) (pe_laid_out a).
Proof.
  intros Ha. unfold from_validated_pe. via (by apply yields_alignment) as u0 Halign.
  via (apply yields_ok_or) as u1 _. destruct (pt_headers _ Ha) as [Hh0 Hh1].
  via (apply yields_align_up; lia) as mapped [Hmap Hmod].
  via (apply yields_ok_fail_if) as u2 Hle%Z.ltb_ge.
  via (apply yields_range; lia) as range (-> & Hpos & Hmax).
  assert (0 < pe_size_of_headers a) as Hhp.
  { destruct (decide (pe_size_of_headers a = 0)) as [Hz|]; [|lia]. rewrite Hz in Hmap.
    rewrite Z.mod_small in Hmod by lia. lia. }
  set (entries := sort_stable by_virtual_address (enumerate (pe_sections a))).
  assert (∀ i s, (i, s) ∈ entries ↔ ∃ k, i = Z.of_nat k ∧ pe_sections a !! k = Some s) as Hin.
  { intros i s. unfold entries. rewrite sort_stable_perm. apply enumerate_in. }
  via (apply yields_pe_regions; [done|lia|]) as p (Ht & Hc & Hm & Hr).
  { apply list.Forall_forall. intros [i s] (k & _ & Hk)%Hin. simpl. apply list_elem_of_lookup_2 in Hk.
    pose proof (pt_sections _ Ha) as Hts. rewrite list.Forall_forall in Hts. by apply Hts. }
  destruct p as [regions cursor]. cbn [fst snd] in *.
  via (apply yields_gap; lia) as gaps Hg. destruct Hg as [Hgt Hgm]; [lia|].
  cbn [yields_ok]. split; cbn [as_image_size as_regions]; [done|..].
  - split; [done|]. unfold range_end. cbn. split; [|by eapply tiles_app].
    split; cbn; [lia|lia|done| |done]. intros b [= <-]. cbn. unfold u64_max, u32_max in *. lia.
  - intros i s Hi Hl. destruct (Hr (Z.of_nat i, s)) as (r & Hrin & Hof); [by apply Hin; eauto|done|].
    exists r. split; [|done]. apply elem_of_app. left. by right.
  - intros x off. rewrite maps_app, maps_cons, Hm. pose proof (Hgm x off) as Hno. split.
    + intros [[Hhd|([i s] & (k & _ & Hk)%Hin & Hsm)]|?]; [left|right|done].
      * destruct Hhd as (r & b & ->%list_elem_of_singleton & [= <-] & Hd & ->). cbn in *. lia.
      * exists s. split; [by eapply list_elem_of_lookup_2|done].
    + intros [[Hx ->]|(s & [k Hk]%list_elem_of_lookup_1 & Hsm)]; left; [left|right].
      * eexists _, _. split; [by left|]. split; [done|]. cbn. lia.
      * exists (Z.of_nat k, s). split; [apply Hin; eauto|done].
Qed.

(** C18: PE images: for an analysis with fields of their widths the layout answers without
    a panic.  The regions of the layout it returns tile the image from its first
    address to its last, so that every address lies in exactly one region and the
    search finds it; every section that is loaded has its region, at its address, of
    its size rounded up to the alignment and with its declared access; and the file
    offsets are exactly those that the headers and the sections declare. *)
Theorem pe_layout_exact a :
  pe_typed a →
  no_panic (from_validated_pe a)
  ∧ ∀ space, from_validated_pe a = Ok space →
      tiles 0 (as_regions space) (pe_size_of_image a)
      ∧ (∀ x, 0 ≤ x < pe_size_of_image a →
           ∃ r, region_at space x = Some r ∧ range_contains (sr_range r) x = true
                ∧ ∀ r', r' ∈ as_regions space → range_contains (sr_range r') x = true → r' = r)
      ∧ (∀ i s, pe_sections a !! i = Some s → section_loaded_size s ≠ 0 →
           ∃ r, r ∈ as_regions space
                ∧ region_of_section (pe_section_alignment a) (Z.of_nat i, s) r)
      ∧ ∀ x off, file_offset_at space x = Some off ↔
          (0 ≤ x < pe_size_of_headers a ∧ off = x) ∨ ∃ s, s ∈ pe_sections a ∧ section_maps s x off.
Proof.
  intros Ha. pose proof (yields_pe a Ha) as Hy. split; [by eapply yields_ok_no_panic|].
  intros space Hs. rewrite Hs in Hy. destruct Hy as [Hsize Ht Hsec Hm].
  assert (spread 0 (as_regions space) (as_image_size space)) as Hsp
    by (rewrite Hsize; by apply tiles_spread).
  split; [done|]. split; [|split; [done|]].
  - intros x Hx. destruct (tiles_covered _ _ _ x Ht Hx) as (r & Hr & Hc). exists r.
    assert (region_at space x = Some r) as Hat by by apply region_at_iff.
    split; [done|]. split; [done|]. intros r' Hr' Hc'.
    assert (region_at space x = Some r') as Hat' by by apply region_at_iff. congruence.
  - intros x off. rewrite file_offset_iff by done. apply Hm.
Qed.
