(* ===== verification/ElfLayoutTheory.v ===== *)
(** Theorems about the layout of an ELF image: an analysis that validates always has
    an address space, whose file offsets are those of the loadable program
    headers. *)

From Stdlib Require Import Sorted.
From S2P Require Import Prelude Identity Sandbox Sorting SymbolGraph ElfAnalysis ElfTheory ElfDeclared.
From S2P Require Import AddressSpace AddressSpaceTheory.
Open Scope Z_scope.

(** ** Load segments *)

Record segment_ok (file_size : Z) (s : ElfLoadSegment) : Prop := {
  so_offset : 0 ≤ ls_file_offset s;
  so_file : 0 ≤ ls_file_size s ≤ ls_memory_size s;
  so_memory : 0 < ls_memory_size s;
  so_address : 0 ≤ ls_virtual_address s;
  so_end : ls_virtual_address s + ls_memory_size s ≤ u64_max;
  so_room : ls_file_offset s + ls_file_size s ≤ file_size
}.

(** The file offset that a segment gives a virtual address. *)
Definition segment_maps (s : ElfLoadSegment) (va off : Z) : Prop :=
  0 ≤ va - ls_virtual_address s < ls_file_size s
  ∧ off = ls_file_offset s + (va - ls_virtual_address s).

(** The file offset that a loadable program header gives a virtual address. *)
Definition header_maps (h : ElfProgramHeader) (va off : Z) : Prop :=
  eph_segment_type h = ELF_PROGRAM_TYPE_LOAD
  ∧ 0 ≤ va - eph_virtual_address h < eph_file_size h
  ∧ off = eph_file_offset h + (va - eph_virtual_address h).

Lemma file_range_inv offset size file_size field :
  elf_file_range offset size file_size field = Ok tt → offset + size ≤ file_size.
Proof.
  unfold elf_file_range, invalid_if. destruct (Z.ltb_spec file_size offset); [done|]. simpl.
  destruct (Z.eqb_spec size 0) as [->|]; [lia|]. intros H0. unbind H0 e He.
  apply ok_or_ok, checked_add_some in He as [-> _].
  destruct (Z.ltb_spec file_size (offset + size)); [done|lia].
Qed.

(** The header of a segment that is not empty in memory, at an address. *)
Definition header_loads (va : Z) (h : ElfProgramHeader) : Prop :=
  eph_segment_type h = ELF_PROGRAM_TYPE_LOAD ∧ eph_memory_size h ≠ 0 ∧ eph_virtual_address h = va.

(** What one program header contributes. *)
Lemma derive_one size class h o :
  program_header_typed h → derive_load_segment size class h = Ok o →
  Forall (segment_ok size) (option_list o)
  ∧ (∀ va off, (∃ s, s ∈ option_list o ∧ segment_maps s va off) ↔ header_maps h va off)
  ∧ ∀ va, (∃ s, s ∈ option_list o ∧ ls_virtual_address s = va) ↔ header_loads va h.
Proof.
  intros [Ho Ha Hf Hm _] Hd. unfold in_u64 in *. unfold derive_load_segment in Hd.
  assert (∀ P : ElfLoadSegment → Prop, (∃ s, s ∈ [] ∧ P s) ↔ False) as Hnil
    by (intros P; split; [by intros (s & ?%elem_of_nil & _)|done]).
  unbind Hd u1 H1. destruct u1. apply file_range_inv in H1. unbind Hd u2 H2.
  destruct (Z.eqb_spec (eph_segment_type h) ELF_PROGRAM_TYPE_LOAD) as [Ht|Ht]; simpl in Hd.
  2: { injection Hd as <-. split; [constructor|]. unfold header_maps, header_loads.
       split; intros; rewrite Hnil; tauto. }
  unbind Hd u3 H3. unfold invalid_if in H3.
  destruct (Z.ltb_spec (eph_memory_size h) (eph_file_size h)); [done|].
  destruct (Z.eqb_spec (eph_memory_size h) 0) as [Hz|Hz].
  { injection Hd as <-. split; [constructor|]. unfold header_maps, header_loads.
    split; intros; rewrite Hnil; [lia|tauto]. }
  unbind Hd e He. apply ok_or_ok, checked_add_some in He as [-> He]. unbind Hd u4 H4. injection Hd as <-.
  assert (∀ (P : ElfLoadSegment → Prop) s, (∃ t, t ∈ [s] ∧ P t) ↔ P s) as Hone.
  { intros P s. split; [by intros (t & ->%list_elem_of_singleton & ?)|]. intros. exists s. split; [by left|done]. }
  split; [constructor; [split; cbn; lia|constructor]|]. unfold header_maps, header_loads.
  split; intros; simpl; rewrite Hone; unfold segment_maps; cbn; tauto.
Qed.

Lemma derive_collected size class headers segs :
  Forall program_header_typed headers → collect_load_segments size class headers = Ok segs →
  Forall (segment_ok size) segs
  ∧ (∀ va off, (∃ s, s ∈ segs ∧ segment_maps s va off) ↔ ∃ h, h ∈ headers ∧ header_maps h va off)
  ∧ ∀ va, (∃ s, s ∈ segs ∧ ls_virtual_address s = va) ↔ ∃ h, h ∈ headers ∧ header_loads va h.
Proof.
  assert (∀ {A} (x : A) l (P : A → Prop), (∃ y, y ∈ x :: l ∧ P y) ↔ P x ∨ ∃ y, y ∈ l ∧ P y) as Hcons.
  { intros A x l P. split; [intros (y & [->|Hin]%elem_of_cons & Hy); eauto|].
    intros [Hx|(y & Hin & Hy)]; eexists; (split; [|done]); by constructor. }
  assert (∀ {A} (k l : list A) (P : A → Prop),
    (∃ y, y ∈ k ++ l ∧ P y) ↔ (∃ y, y ∈ k ∧ P y) ∨ ∃ y, y ∈ l ∧ P y) as Happ.
  { intros A k l P. setoid_rewrite elem_of_app. naive_solver. }
  intros Ht. revert segs. induction Ht as [|h l Hh _ IH]; intros segs Hc; simpl in Hc.
  { injection Hc as <-. split; [constructor|].
    split; intros; split; intros (x & ?%elem_of_nil & _); done. }
  unbind Hc o Ho. unbind Hc rest Hr. injection Hc as <-.
  destruct (derive_one _ _ _ _ Hh Ho) as (Hs1 & Hm1 & Ha1). destruct (IH _ Hr) as (Hs2 & Hm2 & Ha2).
  split; [by apply Forall_app|]. split; intros; rewrite Hcons, Happ; [by rewrite Hm1, Hm2|by rewrite Ha1, Ha2].
Qed.

(** Segments in order of their addresses, without overlaps. *)
Fixpoint in_order (start : Z) (segs : list ElfLoadSegment) : Prop :=
  match segs with
  | [] => True
  | s :: segs =>
      start ≤ ls_virtual_address s ∧ in_order (ls_virtual_address s + ls_memory_size s) segs
  end.

Lemma overlaps_checked s segs :
  check_overlaps (s :: segs) = Ok tt → in_order (ls_virtual_address s) (s :: segs).
Proof.
  revert s. induction segs as [|t segs IH]; intros s Hc; [simpl; lia|].
  cbn [check_overlaps] in Hc. unbind Hc e He. apply ok_or_ok, checked_add_some in He as [-> _].
  unbind Hc u Hu. unfold invalid_if in Hu.
  destruct (Z.ltb_spec (ls_virtual_address t) (ls_virtual_address s + ls_memory_size s)); [done|].
  apply IH in Hc as [_ Hc]. simpl. split; [lia|]. split; [lia|done].
Qed.

Lemma extent_bounds n segs e :
  extent_end n segs = Ok e →
  n ≤ e ∧ Forall (λ s, ls_virtual_address s + ls_memory_size s ≤ e) segs ∧ (n ≤ u64_max → e ≤ u64_max).
Proof.
  revert n. induction segs as [|s segs IH]; intros n He; simpl in He.
  { injection He as <-. by split; [|split; [constructor|]]. }
  unbind He m Hm. apply ok_or_ok, checked_add_some in Hm as [-> Hm].
  apply IH in He as (H1 & H2 & H3). split; [lia|]. split; [constructor; [lia|done]|lia].
Qed.

Lemma extent_spec segs base size :
  image_extent segs = Ok (base, size) →
  (∃ s rest, segs = s :: rest ∧ base = ls_virtual_address s)
  ∧ Forall (λ s, ls_virtual_address s + ls_memory_size s ≤ base + size) segs
  ∧ (base ≤ u64_max → base + size ≤ u64_max) ∧ 0 < size.
Proof.
  unfold image_extent. intros He. unbind He s Hs. apply ok_or_ok in Hs.
  destruct segs as [|s' rest]; [done|]. injection Hs as <-. unbind He e Hend.
  apply extent_bounds in Hend as (H1 & H2 & H3). unbind He z Hz.
  apply ok_or_ok, checked_sub_some in Hz as [-> Hz]. unbind He u Hu.
  destruct (Z.eqb_spec (e - ls_virtual_address s') 0); [done|]. injection He as <- <-.
  split; [eauto|]. replace (ls_virtual_address s' + (e - ls_virtual_address s')) with e by lia.
  split; [done|]. split; [done|lia].
Qed.

(** ** Regions *)

Section regions.
Context (a : ElfAnalysis).
Abbreviation base := (bi_image_base (elf_identity a)).
Context (Hbase : 0 ≤ base).

Lemma elf_region_ok cursor s :
  segment_ok (bi_size (elf_identity a)) s → bi_size (elf_identity a) ≤ u64_max →
  cursor + base ≤ ls_virtual_address s → 0 ≤ cursor →
  ls_virtual_address s + ls_memory_size s ≤ base + elf_image_size a →
  ∃ region, elf_region a cursor s = Ok region
    ∧ range_start (sr_range region) = ls_virtual_address s - base
    ∧ range_end (sr_range region) = ls_virtual_address s + ls_memory_size s - base
    ∧ static_region_ok region
    ∧ ∀ x off, maps [region] x off ↔ segment_maps s (x + base) off.
Proof.
  intros [Ho Hf Hm Ha He Hr] Hsize Hc Hc0 Hend. unfold elf_region.
  assert (checked_sub (ls_virtual_address s) base = Some (ls_virtual_address s - base)) as ->
    by (apply checked_sub_some; lia).
  cbn [ok_or result_bind]. unfold AddressRange_checked.
  rewrite (proj2 (Z.eqb_neq (ls_memory_size s) 0)) by lia. cbn [fail_if result_bind].
  assert (checked_add u64_max (ls_virtual_address s - base) (ls_memory_size s)
          = Some (ls_virtual_address s - base + ls_memory_size s)) as ->
    by (apply checked_add_some; lia).
  assert (checked_add u64_max (ls_file_offset s) (ls_file_size s)
          = Some (ls_file_offset s + ls_file_size s)) as -> by (apply checked_add_some; lia).
  cbn [ok_or result_bind]. unfold range_end. cbn [range_start range_size].
  rewrite !(proj2 (Z.ltb_ge _ _)) by lia. cbn [fail_if result_bind].
  eexists. split; [done|]. cbn [sr_range range_start range_size sr_file_backing].
  split; [done|]. split; [lia|]. split.
  - split; unfold range_end; cbn; [lia..| |done]. intros b.
    destruct (Z.eqb_spec (ls_file_size s) 0); [done|]. intros [= <-]. cbn. lia.
  - intros x off. unfold maps, segment_maps. split.
    + intros (r & b & ->%list_elem_of_singleton & Hb & Hx). cbn in *.
      destruct (Z.eqb_spec (ls_file_size s) 0); [done|]. injection Hb as <-. cbn in Hx. lia.
    + intros [Hx ->]. eexists _, (mkFileBacking _ _). split; [by left|]. cbn.
      destruct (Z.eqb_spec (ls_file_size s) 0); [lia|]. split; [done|]. cbn. lia.
Qed.

Lemma elf_regions_ok cursor segs :
  Forall (segment_ok (bi_size (elf_identity a))) segs → bi_size (elf_identity a) ≤ u64_max →
  in_order (cursor + base) segs → 0 ≤ cursor ≤ elf_image_size a →
  Forall (λ s, ls_virtual_address s + ls_memory_size s ≤ base + elf_image_size a) segs →
  ∃ regions, elf_regions a cursor segs = Ok regions
    ∧ spread cursor regions (elf_image_size a)
    ∧ ∀ x off, maps regions x off ↔ ∃ s, s ∈ segs ∧ segment_maps s (x + base) off.
Proof.
  intros Hs Hz. revert cursor. induction Hs as [|s segs Hs _ IH]; intros cursor Ho Hc He.
  { exists []. split; [done|]. split; [simpl; lia|]. intros x off.
    split; [by intros ?%maps_nil|by intros (s & ?%elem_of_nil & _)]. }
  destruct Ho as [Ho1 Ho2]. apply Forall_cons_1 in He as [He1 He2].
  destruct (elf_region_ok cursor s Hs Hz Ho1) as (r & Hr & Hst & Hend & Hok & Hm); [lia..|].
  destruct (IH (range_end (sr_range r))) as (rs & Hrs & Hsp & Hms).
  { by replace (range_end (sr_range r) + base) with (ls_virtual_address s + ls_memory_size s) by lia. }
  { destruct Hs. lia. } { done. }
  exists (r :: rs). cbn [elf_regions]. rewrite Hr. cbn [result_bind]. rewrite Hrs. split; [done|].
  split; [split; [lia|done]|]. intros x off. rewrite maps_cons, Hm, Hms. split.
  - intros [Hx|(t & Ht & Hx)]; [exists s|exists t]; (split; [|done]); by constructor.
  - intros (t & [->|Ht]%elem_of_cons & Hx); [by left|right; by exists t].
Qed.
End regions.

(** ** The address space *)

Lemma derived_spec headers size class segs :
  Forall program_header_typed headers → derive_load_segments headers size class = Ok segs →
  Forall (segment_ok size) segs
  ∧ (∀ s rest, segs = s :: rest → in_order (ls_virtual_address s) segs)
  ∧ (∀ va off, (∃ s, s ∈ segs ∧ segment_maps s va off) ↔ ∃ h, h ∈ headers ∧ header_maps h va off)
  ∧ ∀ va, (∃ s, s ∈ segs ∧ ls_virtual_address s = va) ↔ ∃ h, h ∈ headers ∧ header_loads va h.
Proof.
  intros Ht Hd. unfold derive_load_segments in Hd. unbind Hd raw Hraw. unbind Hd u1 H1.
  unbind Hd u2 H2. injection Hd as <-. destruct u2.
  destruct (derive_collected _ _ _ _ Ht Hraw) as (Hs & Hm & Ha).
  pose proof (sort_stable_perm segment_leb raw) as Hp. split; [by rewrite Hp|]. split.
  - intros s rest Hsr. rewrite Hsr in H2 |- *. by apply overlaps_checked.
  - setoid_rewrite <-Hm. setoid_rewrite <-Ha.
    split; intros; split; intros (s & Hin & Hx); exists s; (split; [|done]);
      first [by rewrite <-Hp|by rewrite Hp].
Qed.

(** In order, the first address is the lowest. *)
Lemma in_order_lowest file_size start segs s :
  Forall (segment_ok file_size) segs → in_order start segs → s ∈ segs → start ≤ ls_virtual_address s.
Proof.
  intros Hf. revert start. induction Hf as [|t l Ht _ IH]; intros start Ho Hin; [by apply elem_of_nil in Hin|].
  destruct Ho as [H1 H2]. apply elem_of_cons in Hin as [->|Hin]; [done|].
  specialize (IH _ H2 Hin). destruct Ht. lia.
Qed.

(** ** The headers of the file *)

Lemma maps_declared `{Sha256} bytes a va off :
  parse_elf bytes = Ok a →
  (∃ h, h ∈ elf_program_headers a ∧ header_maps h va off) ↔ declares bytes va off.
Proof.
  intros Hp. rewrite (declared_header bytes a _ (λ i, declared_type bytes i = 1
    ∧ declared bytes p_vaddr i ≤ va < declared bytes p_vaddr i + declared bytes p_filesz i
    ∧ off = declared bytes p_offset i + (va - declared bytes p_vaddr i)) Hp).
  - unfold declares, loadable. naive_solver.
  - intros i h [H1 H2 H3 H4 _]. unfold header_maps, ELF_PROGRAM_TYPE_LOAD. rewrite H1, H2, H3, H4. lia.
Qed.

(** The base of the image is the lowest address that a header loads. *)
Definition lowest_loaded (headers : list ElfProgramHeader) (base : Z) : Prop :=
  (∃ h, h ∈ headers ∧ header_loads base h)
  ∧ ∀ h, h ∈ headers → ∀ va, header_loads va h → base ≤ va.

Lemma lowest_declared `{Sha256} bytes a base :
  parse_elf bytes = Ok a → lowest_loaded (elf_program_headers a) base → lowest_address bytes base.
Proof.
  intros Hp [Hex Hall].
  assert (∀ va, (∃ h, h ∈ elf_program_headers a ∧ header_loads va h)
    ↔ ∃ i, loadable bytes i ∧ declared bytes p_memsz i ≠ 0 ∧ declared bytes p_vaddr i = va) as Hd.
  { intros va. rewrite (declared_header bytes a _ (λ i, declared_type bytes i = 1
      ∧ declared bytes p_memsz i ≠ 0 ∧ declared bytes p_vaddr i = va) Hp).
    - unfold loadable. naive_solver.
    - intros i h [H1 _ H3 _ H5]. unfold header_loads, ELF_PROGRAM_TYPE_LOAD. by rewrite H1, H3, H5. }
  split; [by apply Hd|]. intros i Hi Hm.
  destruct (proj2 (Hd (declared bytes p_vaddr i))) as (h & Hin & Hl); [eauto|]. by eapply Hall.
Qed.

Lemma valid_elf_lays_out a :
  validate_elf_analysis a = Ok tt → Forall program_header_typed (elf_program_headers a) →
  bi_size (elf_identity a) ≤ u64_max →
  ∃ space, from_elf a = Ok space
    ∧ spread 0 (as_regions space) (as_image_size space)
    ∧ as_binary_id space = bi_id (elf_identity a)
    ∧ lowest_loaded (elf_program_headers a) (as_preferred_image_base space)
    ∧ ∀ x off,
        (maps (as_regions space) x off ↔
         ∃ h, h ∈ elf_program_headers a ∧ header_maps h (x + as_preferred_image_base space) off)
        ∧ (maps (as_regions space) x off → 0 ≤ off < bi_size (elf_identity a)).
Proof.
  intros Hv Ht Hz. unfold from_elf. rewrite Hv. cbn [map_err result_bind].
  unfold validate_elf_analysis in Hv. do 4 (unbind Hv u Hu; clear u Hu).
  unfold validate_derived_model in Hv. unbind Hv segs Hsegs. unbind Hv u1 H1.
  unfold invalid_if in H1. case_bool_decide as Heq; [|done]. rewrite <-Heq in Hsegs.
  unbind Hv ext Hext. destruct ext as [b sz]. unbind Hv u2 H2. unbind Hv u3 H3. clear Hv.
  unfold invalid_if in H2, H3. destruct (Z.eqb_spec (bi_image_base (elf_identity a)) b) as [Hb|]; [|done].
  destruct (Z.eqb_spec (elf_image_size a) sz) as [Hsz|]; [|done]. rewrite <-Hb, <-Hsz in Hext.
  destruct (derived_spec _ _ _ _ Ht Hsegs) as (Hs & Ho & Hm & Ha).
  destruct (extent_spec _ _ _ Hext) as ((s & rest & Hsr & Hbase) & Hends & Hmax & Hpos).
  assert (segment_ok (bi_size (elf_identity a)) s) as [_ _ Hmem Hva Hend _].
  { rewrite Hsr in Hs. by apply Forall_cons_1 in Hs as [? _]. }
  assert (checked_add u64_max (bi_image_base (elf_identity a)) (elf_image_size a)
          = Some (bi_image_base (elf_identity a) + elf_image_size a)) as ->
    by (apply checked_add_some; lia).
  cbn [ok_or result_bind].
  destruct (elf_regions_ok a ltac:(lia) 0 (elf_load_segments a)) as (rs & Hrs & Hsp & Hms); [done..| |lia|done|].
  { rewrite Z.add_0_l, Hbase. by eapply Ho. }
  rewrite Hrs. cbn [result_bind]. eexists. split; [done|]. cbn. split; [done|]. split; [done|].
  split; [split|].
  - apply Ha. exists s. rewrite Hsr. split; [by left|done].
  - intros h Hin va Hl. destruct (proj2 (Ha va) (ex_intro _ h (conj Hin Hl))) as (t & Htin & <-).
    rewrite Hbase. eapply in_order_lowest; [done|by eapply Ho|done].
  - intros x off. rewrite Hms, <-Hm. split; [done|]. intros (t & Hin & [Hx ->]).
    rewrite list.Forall_forall in Hs. destruct (Hs t Hin). lia.
Qed.

(** C17: ELF files.  For any bytes that fit in memory the analysis answers without a
    panic and never rejects in its final validation what it has parsed.  An image that
    it accepts has an address space under the digest of the bytes, based at the lowest
    address of a non-empty loadable segment, whose file offsets are exactly those that
    the program headers in the file declare: read from the bytes of the file at the
    places, of the widths and in the byte order that the ELF format prescribes.  All of
    them are inside the file. *)
Theorem elf_analysis_exact `{Sha256} bytes :
  file_ok bytes →
  no_panic (analyze_elf bytes) ∧ analyze_elf bytes = parse_elf bytes
  ∧ ∀ a, analyze_elf bytes = Ok a →
      ∃ space, from_elf a = Ok space ∧ as_binary_id space = BinaryId_digest bytes
        ∧ lowest_address bytes (as_preferred_image_base space)
        ∧ ∀ x off,
            (file_offset_at space x = Some off
             ↔ declares bytes (x + as_preferred_image_base space) off)
            ∧ (file_offset_at space x = Some off → 0 ≤ off < zlen bytes).
Proof.
  intros Hf. pose proof (yields_parse_elf bytes Hf) as Hy. unfold analyze_elf.
  destruct (parse_elf bytes) as [a|e|p] eqn:Hp; [|by split|done]. destruct Hy as [Hv Ht Hz Hid].
  cbn [result_bind]. rewrite Hv. split; [done|]. split; [done|]. intros a' [= <-].
  destruct (valid_elf_lays_out a Hv Ht) as (space & Hsp & Hspread & Hbid & Hbase & Hm).
  { rewrite Hz. destruct Hf as [_ Hl]. unfold isize_max, u64_max in *. lia. }
  exists space. split; [done|]. split; [by rewrite Hbid|]. split; [by eapply lowest_declared|].
  intros x off. rewrite file_offset_iff, <-Hz by done. destruct (Hm x off) as [Hi Hr]. split; [|done].
  rewrite Hi. by apply maps_declared.
Qed.
