(* ===== verification/OfflineImage.v ===== *)
(** The verified snapshot of an offline image and its reads,
    [resymbol-debugger/src/offline_image_host.rs], and the theorem that a read
    returns exactly the bytes of the image. *)

From S2P Require Import Prelude Identity Sandbox Protocol Sorting SymbolGraph ElfAnalysis.
From S2P Require Import ElfTheory AddressSpace AddressSpaceTheory ElfLayoutTheory.
Open Scope Z_scope.

(** ** The snapshot *)

Definition MAX_OFFLINE_IMAGE_BYTES : Z := 1024 * 1024 * 1024.

Inductive BinaryAnalysis : Type :=
  | PeBinary (analysis : PeAnalysis)
  | ElfBinary (analysis : ElfAnalysis)
  | MachOBinary.

Record VerifiedOfflineImage : Type := mkOfflineImage {
  oi_origin_path : list Z;
  oi_identity : BinaryIdentity;
  oi_bytes : list Z;
  oi_analysis : BinaryAnalysis;
  oi_address_space : StaticAddressSpace
}.

(** [target]. *)
Definition image_target (i : VerifiedOfflineImage) : OfflineTarget :=
  mkOfflineTarget (oi_origin_path i).

Module OfflineImageReadError.
Inductive read_error : Type :=
  | EmptyRead
  | ReadTooLarge (actual maximum : Z)
  | AddressOverflow (start size : Z)
  | OutsideImage (start end_ image_size : Z)
  | CrossesRegion (start end_ region_end : Z)
  | ImageGap (start end_ : Z)
  | ZeroFill (start end_ : Z)
  | LoaderPadding (start end_ : Z)
  | RawBytesOutsideVirtualSize (start end_ : Z)
  | CrossesFileBacking (start end_ backed_end : Z)
  | FileRangeOverflow (offset size : Z)
  | FileRangeNotRepresentable (offset size : Z)
  | FileRangeOutsideSnapshot (offset size snapshot_size : Z).
End OfflineImageReadError.
Abbreviation OfflineImageReadError := OfflineImageReadError.read_error.
Module ORE := OfflineImageReadError.

(** The [Display] of an error. *)
Definition display_range (start end_ : Z) : list Z :=
  str "offline RVA range " ++ hash_x start ++ str ".." ++ hash_x end_.

Definition display_read_error (e : OfflineImageReadError) : list Z :=
  match e with
  | ORE.EmptyRead => str "offline memory reads must contain at least one byte"
  | ORE.ReadTooLarge actual maximum =>
      str "offline memory read size " ++ format_d actual ++ str " exceeds protocol maximum "
      ++ format_d maximum
  | ORE.AddressOverflow start size =>
      str "offline RVA range " ++ hash_x start ++ str "+" ++ hash_x size ++ str " overflows"
  | ORE.OutsideImage start end_ image_size =>
      display_range start end_ ++ str " exceeds image size " ++ hash_x image_size
  | ORE.CrossesRegion start end_ region_end =>
      display_range start end_ ++ str " crosses canonical region end " ++ hash_x region_end
  | ORE.ImageGap start end_ => display_range start end_ ++ str " lies in an image gap"
  | ORE.ZeroFill start end_ => display_range start end_ ++ str " lies in mapped zero-fill"
  | ORE.LoaderPadding start end_ =>
      display_range start end_ ++ str " lies in loader-rounded padding"
  | ORE.RawBytesOutsideVirtualSize start end_ =>
      display_range start end_
      ++ str " corresponds only to raw alignment bytes beyond VirtualSize"
  | ORE.CrossesFileBacking start end_ backed_end =>
      display_range start end_ ++ str " crosses file-backed prefix end " ++ hash_x backed_end
  | ORE.FileRangeOverflow offset size =>
      str "offline file range " ++ hash_x offset ++ str "+" ++ hash_x size ++ str " overflows"
  | ORE.FileRangeNotRepresentable offset size =>
      str "offline file range " ++ hash_x offset ++ str "+" ++ hash_x size
      ++ str " is not representable on this host"
  | ORE.FileRangeOutsideSnapshot offset size snapshot_size =>
      str "offline file range " ++ hash_x offset ++ str "+" ++ hash_x size
      ++ str " exceeds snapshot size " ++ hash_x snapshot_size
  end.

Abbreviation read_result A := (result A OfflineImageReadError).

Definition section_raw_size (i : VerifiedOfflineImage) (table_index : Z) : option Z :=
  match oi_analysis i with
  | PeBinary analysis => ps_raw_data_size <$> pe_sections analysis !! Z.to_nat table_index
  | _ => None
  end.

Definition unbacked_error (i : VerifiedOfflineImage) (region : StaticRegion) (delta start end_ : Z)
    : OfflineImageReadError :=
  match sr_kind region with
  | SRK.Headers => ORE.LoaderPadding start end_
  | SRK.ImageGap => ORE.ImageGap start end_
  | SRK.Section_ table_index _ _ loaded_size =>
      if delta <? loaded_size then ORE.ZeroFill start end_
      else if match section_raw_size i table_index with
              | Some raw_size => delta <? raw_size
              | None => false
              end
      then ORE.RawBytesOutsideVirtualSize start end_
      else ORE.LoaderPadding start end_
  | SRK.LoadSegment _ _ _ loaded_size =>
      if delta <? loaded_size then ORE.ZeroFill start end_ else ORE.LoaderPadding start end_
  end.

(** The part of [read_rva] from the file backing on. *)
Definition read_backing (i : VerifiedOfflineImage) (backing : FileBacking) (delta size : Z)
    : read_result (list Z) :=
  let? file_start := ok_or (checked_add u64_max (fb_offset backing) delta)
                       (ORE.FileRangeOverflow (fb_offset backing) delta) in
  let? file_end := ok_or (checked_add u64_max file_start size)
                     (ORE.FileRangeOverflow file_start size) in
  do? fail_if (usize_max <? file_start) (ORE.FileRangeNotRepresentable file_start size) in
  do? fail_if (usize_max <? file_end) (ORE.FileRangeNotRepresentable file_start size) in
  ok_or (slice_get file_start file_end (oi_bytes i))
    (ORE.FileRangeOutsideSnapshot file_start size (zlen (oi_bytes i))).

Definition read_rva (i : VerifiedOfflineImage) (address size : Z) : read_result (list Z) :=
  do? fail_if (size =? 0) ORE.EmptyRead in
  do? fail_if (MAX_MEMORY_READ_BYTES <? size) (ORE.ReadTooLarge size MAX_MEMORY_READ_BYTES) in
  let start := address in
  let space := oi_address_space i in
  let? end_ := ok_or (checked_add u64_max start size) (ORE.AddressOverflow start size) in
  do? fail_if ((as_image_size space <=? start) || (as_image_size space <? end_))
        (ORE.OutsideImage start end_ (as_image_size space)) in
  let? region := ok_or (region_at space start) (ORE.ImageGap start end_) in
  let region_end := range_end (sr_range region) in
  do? fail_if (region_end <? end_) (ORE.CrossesRegion start end_ region_end) in
  do? fail_if (match sr_kind region with SRK.ImageGap => true | _ => false end)
        (ORE.ImageGap start end_) in
  let? delta := plain_sub start (range_start (sr_range region)) in
  match sr_file_backing region with
  | None => Err (unbacked_error i region delta start end_)
  | Some backing =>
      let? backing_end := ok_or (checked_add u64_max delta size) (ORE.AddressOverflow start size) in
      if fb_size backing <=? delta then Err (unbacked_error i region delta start end_)
      else if fb_size backing <? backing_end
      then
        let? backed_end := plain_add (range_start (sr_range region)) (fb_size backing) in
        Err (ORE.CrossesFileBacking start end_ backed_end)
      else read_backing i backing delta size
  end.

(** ** Reads are exact *)

(** The byte of the image at an address: the file byte that the address space gives
    it. *)
Definition image_byte (i : VerifiedOfflineImage) (address : Z) : option Z :=
  match file_offset_at (oi_address_space i) address with
  | Some offset => oi_bytes i !! Z.to_nat offset
  | None => None
  end.

(** The address space of the image is in order. *)
Definition image_ok (i : VerifiedOfflineImage) : Prop :=
  spread 0 (as_regions (oi_address_space i)) (as_image_size (oi_address_space i)).

(** The image of an ELF file that was analyzed. *)
Lemma elf_image_ok `{Sha256} path bytes a space :
  file_ok bytes → analyze_elf bytes = Ok a → from_elf a = Ok space →
  image_ok (mkOfflineImage path (elf_identity a) bytes (ElfBinary a) space).
Proof.
  intros Hf Ha Hs. pose proof (yields_parse_elf bytes Hf) as Hy. unfold analyze_elf in Ha.
  destruct (parse_elf bytes) as [a'|e|p]; [|done..]. cbn [result_bind] in Ha.
  unbind Ha u Hv. injection Ha as ->. destruct Hy as [Hval Ht Hz _].
  destruct (valid_elf_lays_out a Hval Ht) as (space' & Hs' & Hsp & _).
  { rewrite Hz. destruct Hf as [_ Hl]. unfold isize_max, u64_max in *. lia. }
  rewrite Hs in Hs'. injection Hs' as <-. exact Hsp.
Qed.

(** The image of a PE file that was laid out. *)
Lemma pe_image_ok path identity bytes a space :
  pe_typed a → from_validated_pe a = Ok space →
  image_ok (mkOfflineImage path identity bytes (PeBinary a) space).
Proof.
  intros Ha Hs. pose proof (yields_pe a Ha) as Hy. rewrite Hs in Hy. destruct Hy as [Hsize Ht _ _].
  unfold image_ok. cbn. rewrite Hsize. by apply tiles_spread.
Qed.

Definition within_region (i : VerifiedOfflineImage) (address size : Z) : Prop :=
  ∃ r, r ∈ as_regions (oi_address_space i) ∧ range_start (sr_range r) ≤ address
       ∧ address + size ≤ range_end (sr_range r).

Lemma slice_get_spec {A} start end_ (l s : list A) :
  0 ≤ start ≤ end_ →
  slice_get start end_ l = Some s ↔
  zlen s = end_ - start ∧ end_ ≤ zlen l
  ∧ ∀ k, 0 ≤ k < end_ - start → s !! Z.to_nat k = l !! Z.to_nat (start + k).
Proof.
  intros Hs. unfold slice_get. rewrite (proj2 (Z.leb_le _ _)) by lia. cbn [andb].
  destruct (Z.leb_spec end_ (zlen l)) as [Hle|Hgt]; [|split; [done|lia]]. split.
  - intros [= <-]. unfold zlen in *. rewrite length_take, length_drop. split; [lia|]. split; [done|].
    intros k Hk. rewrite lookup_take_lt, lookup_drop by lia. f_equal. lia.
  - intros (Hz & _ & Hk). f_equal. apply list_eq. intros n. destruct (decide (Z.of_nat n < end_ - start)).
    + rewrite lookup_take_lt, lookup_drop by lia.
      specialize (Hk (Z.of_nat n) ltac:(lia)). rewrite Nat2Z.id in Hk. rewrite Hk. f_equal. lia.
    + rewrite !lookup_ge_None_2; [done|unfold zlen in Hz; lia|].
      rewrite length_take. lia.
Qed.

Section reads.
Context (i : VerifiedOfflineImage) (Hi : image_ok i).
Abbreviation space := (oi_address_space i).

(** The offsets of the addresses of a region. *)
Lemma region_offsets r b x :
  r ∈ as_regions space → sr_file_backing r = Some b →
  range_start (sr_range r) ≤ x < range_end (sr_range r) →
  file_offset_at space x
  = if x - range_start (sr_range r) <? fb_size b
    then Some (fb_offset b + (x - range_start (sr_range r))) else None.
Proof.
  intros Hr Hb Hx. assert (range_contains (sr_range r) x = true) as Hc.
  { unfold range_contains, range_end in *. by rewrite (proj2 (Z.leb_le _ _)), (proj2 (Z.ltb_lt _ _)) by lia. }
  assert (region_at space x = Some r) as Hat by by apply region_at_iff.
  unfold file_offset_at. rewrite Hat. unfold region_file_offset_at. by rewrite Hb, Hc.
Qed.

(** A range of backed addresses is read as it lies in the file. *)
Lemma read_backing_spec r b address size bytes :
  r ∈ as_regions space → sr_file_backing r = Some b → 0 < size →
  range_start (sr_range r) ≤ address → address + size ≤ range_end (sr_range r) →
  address - range_start (sr_range r) + size ≤ fb_size b →
  read_backing i b (address - range_start (sr_range r)) size = Ok bytes ↔
  zlen bytes = size ∧ ∀ k, 0 ≤ k < size → image_byte i (address + k) = bytes !! Z.to_nat k.
Proof.
  intros Hr Hb Hz Hs He Hfit. destruct (spread_in _ _ _ _ Hi Hr) as (Hok & _).
  destruct (rok_backing _ Hok b Hb) as (Ho & _ & Hmax).
  set (delta := address - range_start (sr_range r)) in *.
  assert (∀ k, 0 ≤ k < size → image_byte i (address + k) = oi_bytes i !! Z.to_nat (fb_offset b + delta + k)) as Hbyte.
  { intros k Hk. unfold image_byte. rewrite (region_offsets r b) by (done || lia).
    rewrite (proj2 (Z.ltb_lt _ _)) by lia. f_equal. unfold delta. lia. }
  unfold read_backing. unfold usize_max.
  assert (checked_add u64_max (fb_offset b) delta = Some (fb_offset b + delta)) as ->
    by (apply checked_add_some; lia).
  cbn [ok_or result_bind].
  assert (checked_add u64_max (fb_offset b + delta) size = Some (fb_offset b + delta + size)) as ->
    by (apply checked_add_some; lia).
  cbn [ok_or result_bind]. rewrite !(proj2 (Z.ltb_ge _ _)) by lia. cbn [fail_if result_bind].
  rewrite ok_or_ok, slice_get_spec by lia.
  replace (fb_offset b + delta + size - (fb_offset b + delta)) with size by lia. split.
  - intros (Hlen & _ & Hk). split; [done|]. intros k Hr'. by rewrite Hbyte, Hk.
  - intros [Hlen Hk]. split; [done|]. split.
    + specialize (Hk (size - 1) ltac:(lia)). rewrite Hbyte in Hk by lia.
      destruct (lookup_lt_is_Some_2 bytes (Z.to_nat (size - 1))) as [v Hv].
      { unfold zlen in Hlen. lia. }
      rewrite Hv in Hk. apply lookup_lt_Some in Hk. unfold zlen. lia.
    + intros k Hr'. by rewrite <-Hk, Hbyte by lia.
Qed.

(** An address range inside a region whose bytes all exist is inside its backing. *)
Lemma bytes_backed r address size (bytes : list Z) :
  r ∈ as_regions space → 0 < size → range_start (sr_range r) ≤ address →
  address + size ≤ range_end (sr_range r) → zlen bytes = size →
  (∀ k, 0 ≤ k < size → image_byte i (address + k) = bytes !! Z.to_nat k) →
  ∃ b, sr_file_backing r = Some b ∧ address - range_start (sr_range r) + size ≤ fb_size b.
Proof.
  intros Hr Hz Hs He Hlen Hk. specialize (Hk (size - 1) ltac:(lia)).
  destruct (lookup_lt_is_Some_2 bytes (Z.to_nat (size - 1))) as [v Hv]; [unfold zlen in Hlen; lia|].
  rewrite Hv in Hk. unfold image_byte in Hk.
  destruct (file_offset_at space (address + (size - 1))) as [off|] eqn:Hoff; [|done].
  apply (file_offset_iff _ Hi) in Hoff as (r' & b & Hr' & Hb & Hd & _).
  destruct (spread_in _ _ _ _ Hi Hr') as (Hok & _). destruct (rok_backing _ Hok b Hb) as (_ & Hfit & _).
  assert (∀ x, range_start (sr_range x) ≤ address + (size - 1) < range_end (sr_range x) →
    x ∈ as_regions space → region_at space (address + (size - 1)) = Some x) as Hat.
  { intros x Hx Hin. apply (region_at_iff _ Hi). split; [done|]. unfold range_contains, range_end in *.
    by rewrite (proj2 (Z.leb_le _ _)), (proj2 (Z.ltb_lt _ _)) by lia. }
  pose proof (Hat r ltac:(lia) Hr) as H1. pose proof (Hat r' ltac:(unfold range_end; lia) Hr') as H2.
  rewrite H1 in H2. injection H2 as <-. exists b. split; [done|lia].
Qed.

Lemma region_at_bounds x r :
  region_at space x = Some r →
  r ∈ as_regions space ∧ range_start (sr_range r) ≤ x < range_end (sr_range r).
Proof.
  intros [Hin Hc]%(region_at_iff _ Hi). split; [done|]. unfold range_contains, range_end in *.
  apply andb_true_iff in Hc as [?%Z.leb_le ?%Z.ltb_lt]. lia.
Qed.

(** What a successful read returns. *)
Definition image_bytes_at (address size : Z) (bytes : list Z) : Prop :=
  0 < size ≤ MAX_MEMORY_READ_BYTES ∧ within_region i address size ∧ zlen bytes = size
  ∧ ∀ k, 0 ≤ k < size → image_byte i (address + k) = bytes !! Z.to_nat k.

Lemma read_rva_no_panic address size : no_panic (read_rva i address size).
Proof.
  unfold read_rva. repeat (apply no_panic_bind; [solve [auto with nopanic]|intros ? ?]).
  match goal with H : ok_or (region_at _ _) _ = Ok ?x |- _ =>
    apply ok_or_ok, region_at_bounds in H as [Hr Hb]; rename x into r end.
  apply no_panic_bind; [unfold plain_sub; by rewrite (proj2 (Z.leb_le _ _)) by lia|].
  intros delta _. destruct (sr_file_backing r) as [b|] eqn:Hbk; [|no_panic].
  assert (no_panic (@plain_add OfflineImageReadError (range_start (sr_range r)) (fb_size b))) as Hn.
  { destruct (spread_in _ _ _ _ Hi Hr) as (Hok & _). destruct (rok_backing _ Hok b Hbk) as (_ & Hf & _).
    pose proof (rok_end _ Hok) as Hend. unfold plain_add, range_end, usize_max in *.
    by rewrite (proj2 (Z.leb_le _ _)) by lia. }
  unfold read_backing. no_panic.
Qed.

Lemma read_rva_sound address size bytes :
  0 ≤ size → read_rva i address size = Ok bytes → image_bytes_at address size bytes.
Proof.
  intros Hs H. unfold read_rva in H. unbind H u1 H1. apply fail_if_ok, Z.eqb_neq in H1. unbind H u2 H2.
  apply fail_if_ok, Z.ltb_ge in H2. unbind H e He. apply ok_or_ok, checked_add_some in He as [-> He].
  unbind H u3 H3. unbind H r Hr. apply ok_or_ok, region_at_bounds in Hr as [Hr Hin].
  unbind H u4 H4. apply fail_if_ok, Z.ltb_ge in H4. unbind H u5 H5. unfold plain_sub in H.
  rewrite (proj2 (Z.leb_le _ _)) in H by lia. cbn [result_bind] in H.
  destruct (sr_file_backing r) as [b|] eqn:Hb; [|done]. unbind H e Hbe.
  apply ok_or_ok, checked_add_some in Hbe as [-> _].
  destruct (Z.leb_spec (fb_size b) (address - range_start (sr_range r))); [done|].
  destruct (Z.ltb_spec (fb_size b) (address - range_start (sr_range r) + size)); [by unbind H e He2|].
  apply (read_backing_spec r b) in H; [|done || lia..].
  split; [lia|]. split; [|done]. exists r. split; [done|lia].
Qed.

Lemma read_rva_complete address size bytes :
  0 ≤ address → image_bytes_at address size bytes → read_rva i address size = Ok bytes.
Proof.
  intros Ha (Hz & (r & Hr & Hst & Hend) & Hlen & Hk).
  destruct (bytes_backed r address size bytes) as (b & Hb & Hfit); [done || lia..|].
  destruct (spread_in _ _ _ _ Hi Hr) as (Hok & Hr0 & Hr1). pose proof (rok_end _ Hok) as Hmax.
  assert (region_at space address = Some r) as Hat.
  { apply (region_at_iff _ Hi). split; [done|]. unfold range_contains, range_end in *.
    by rewrite (proj2 (Z.leb_le _ _)), (proj2 (Z.ltb_lt _ _)) by lia. }
  assert (match sr_kind r with SRK.ImageGap => true | _ => false end = false) as Hkind.
  { destruct (sr_kind r) eqn:Hkind; try done. apply (rok_gap _ Hok) in Hkind. congruence. }
  unfold read_rva. rewrite (proj2 (Z.eqb_neq _ _)), (proj2 (Z.ltb_ge MAX_MEMORY_READ_BYTES _)) by lia.
  assert (checked_add u64_max address size = Some (address + size)) as -> by (apply checked_add_some; lia).
  cbn [fail_if ok_or result_bind]. rewrite (proj2 (Z.leb_gt _ address)), !(proj2 (Z.ltb_ge _ (address + size))) by lia.
  rewrite Hat. cbn [fail_if ok_or result_bind orb]. rewrite (proj2 (Z.ltb_ge _ _)), Hkind by lia.
  unfold plain_sub. rewrite (proj2 (Z.leb_le _ address)), Hb by lia. cbn [fail_if result_bind].
  assert (checked_add u64_max (address - range_start (sr_range r)) size
          = Some (address - range_start (sr_range r) + size)) as ->
    by (apply checked_add_some; lia).
  cbn [ok_or result_bind]. rewrite (proj2 (Z.leb_gt _ _)), (proj2 (Z.ltb_ge _ _)) by lia.
  apply read_backing_spec; done || lia.
Qed.
End reads.

(** C19: reads of an offline image: a read answers without a panic, and it succeeds exactly
    when it asks for at least one byte and not more than the protocol allows, stays
    inside one region of the image, and every byte of it has a byte of the snapshot;
    the bytes it returns are then these. *)
Theorem image_read_exact i address size :
  image_ok i → 0 ≤ address → 0 ≤ size →
  no_panic (read_rva i address size)
  ∧ ∀ bytes, read_rva i address size = Ok bytes ↔ image_bytes_at i address size bytes.
Proof.
  intros Hi Ha Hs. split; [by apply read_rva_no_panic|]. intros bytes.
  split; [by apply read_rva_sound|by apply read_rva_complete].
Qed.
