(* ===== verification/Authorization.v ===== *)
(** Host-risk and sandbox-ownership leases.

    Models [resymbol-debugger/src/authorization.rs]: the secret-backed lease
    identifier sequence, launch intents, the issuers of move-only leases and
    the verifiers that compare them.  SHA-256 is the parameter of
    [Sandbox.v]; the entropy that [getrandom] fills the secret with is an
    argument of [LeaseIdSequence_new].

    A lease is the record its verifier carries.  That a lease cannot be cloned
    is a property of the Rust type; the session model consumes the argument of
    each registration. *)

From S2P Require Import Prelude Identity Sandbox Protocol.
Open Scope Z_scope.

Definition AUTHORIZATION_ISSUER_SECRET_BYTES : nat := 32.
Definition HOST_RISK_LEASE_DOMAIN : list Z := str "resymbol-host-risk-lease-v1".
Definition SANDBOX_OWNERSHIP_LEASE_DOMAIN : list Z :=
  str "resymbol-sandbox-ownership-lease-v1".

Inductive AuthorizationIssuanceError : Type :=
  | EntropyUnavailable
  | IdentifierSequenceExhausted.

(** ** Lease identifier sequence *)

Record LeaseIdSequence : Type := mkLeaseIdSequence {
  ls_secret : list Z;
  ls_next_counter : Z
}.

(** [entropy] is the outcome of [getrandom::fill] on the secret buffer. *)
Definition LeaseIdSequence_new (entropy : option (list Z))
    : result LeaseIdSequence AuthorizationIssuanceError :=
  let? secret := ok_or entropy EntropyUnavailable in
  Ok (mkLeaseIdSequence secret 0).

(** The bytes one identifier is the digest of. *)
Definition lease_preimage (domain secret : list Z) (counter : Z) : list Z :=
  domain ++ secret ++ be_bytes 16 counter.

Definition lease_issue `{Sha256} (domain : list Z)
    : smonad LeaseIdSequence AuthorizationIssuanceError (list Z) :=
  let! counter := sget ls_next_counter in
  let! next := sread (λ s, ok_or (checked_add u128_max (ls_next_counter s) 1)
                             IdentifierSequenceExhausted) in
  do! supd (λ s, mkLeaseIdSequence (ls_secret s) next) in
  sget (λ s, lower_hex (sha256 (lease_preimage domain (ls_secret s) counter))).

(** ** Launch intents *)

Record HostLaunchIntent : Type := mkHostLaunchIntent {
  hli_binary_id : list Z;
  hli_executable : list Z;
  hli_arguments : list (list Z);
  hli_working_directory : option (list Z);
  hli_stop_before_entry : bool
}.

(** Derived equality: the two paths compare by components. *)
Definition HostLaunchIntent_eqb (a b : HostLaunchIntent) : bool :=
  bool_decide (hli_binary_id a = hli_binary_id b)
  && path_eqb (hli_executable a) (hli_executable b)
  && bool_decide (hli_arguments a = hli_arguments b)
  && option_eqb path_eqb (hli_working_directory a) (hli_working_directory b)
  && bool_decide (hli_stop_before_entry a = hli_stop_before_entry b).

Inductive HostLaunchIntentError : Type := SandboxedTarget.

Definition from_target (target : LaunchTarget)
    : result HostLaunchIntent HostLaunchIntentError :=
  match lt_environment target with
  | HostEnvironment _ =>
      Ok (mkHostLaunchIntent (lt_binary_id target) (lt_executable target)
            (lt_arguments target) (lt_working_directory target)
            (lt_stop_before_entry target))
  | Sandboxed _ => Err SandboxedTarget
  end.

Definition into_target (i : HostLaunchIntent) (risk_lease : list Z) : LaunchTarget :=
  {| lt_binary_id := hli_binary_id i;
     lt_executable := hli_executable i;
     lt_arguments := hli_arguments i;
     lt_working_directory := hli_working_directory i;
     lt_environment := HostEnvironment risk_lease;
     lt_stop_before_entry := hli_stop_before_entry i |}.

(** ** Host-risk leases *)

Module HostRiskOperation.
Inductive host_risk_operation : Type :=
  | Launch (intent : HostLaunchIntent)
  | Attach (process : ProcessIdentity) (mode : AttachMode).
End HostRiskOperation.
Abbreviation HostRiskOperation := HostRiskOperation.host_risk_operation.
Module HRO := HostRiskOperation.

Definition HostRiskOperation_eqb (a b : HostRiskOperation) : bool :=
  match a, b with
  | HRO.Launch i, HRO.Launch j => HostLaunchIntent_eqb i j
  | HRO.Attach p m, HRO.Attach p' m' => bool_decide (p = p') && bool_decide (m = m')
  | _, _ => false
  end.

Record HostRiskVerifier : Type := mkHostRiskVerifier {
  hrv_id : list Z;
  hrv_session_id : Z;
  hrv_provisioning_epoch : list Z;
  hrv_operation : HostRiskOperation
}.

Definition HostRiskVerifier_eqb (a b : HostRiskVerifier) : bool :=
  bool_decide (hrv_id a = hrv_id b)
  && bool_decide (hrv_session_id a = hrv_session_id b)
  && bool_decide (hrv_provisioning_epoch a = hrv_provisioning_epoch b)
  && HostRiskOperation_eqb (hrv_operation a) (hrv_operation b).

Record HostRiskLease : Type := mkHostRiskLease { hrl_verifier : HostRiskVerifier }.

(** [HostRiskLeaseIssuer] is its sequence. *)
Definition host_risk_issue `{Sha256} (session_id : Z) (provisioning_epoch : list Z)
    (operation : HostRiskOperation)
    : smonad LeaseIdSequence AuthorizationIssuanceError (HostRiskLease * HostRiskVerifier) :=
  let! raw := lease_issue HOST_RISK_LEASE_DOMAIN in
  let! id := slift (expect (security_nonce_new raw)
                      "SHA-256 authorization ids are valid lowercase hexadecimal") in
  let verifier := mkHostRiskVerifier id session_id provisioning_epoch operation in
  sret (mkHostRiskLease verifier, verifier).

Definition issue_launch `{Sha256} (session_id : Z) (provisioning_epoch : list Z)
    (intent : HostLaunchIntent)
    : smonad LeaseIdSequence AuthorizationIssuanceError
        (LaunchTarget * HostRiskLease * HostRiskVerifier) :=
  let! issued := host_risk_issue session_id provisioning_epoch (HRO.Launch intent) in
  sret (into_target intent (hrv_id (hrl_verifier issued.1)), issued.1, issued.2).

(** ** Sandbox-ownership leases *)

Record SandboxOwnershipBinding : Type := mkSandboxOwnershipBinding {
  sob_session_id : Z;
  sob_process : ProcessIdentity;
  sob_mode : AttachMode;
  sob_provider : SandboxProviderSelection;
  sob_policy_digest : list Z;
  sob_provisioning_epoch : list Z
}.
#[global] Instance SandboxOwnershipBinding_eq_dec : EqDecision SandboxOwnershipBinding.
Proof. solve_decision. Defined.

Record SandboxOwnershipVerifier : Type := mkSandboxOwnershipVerifier {
  sov_id : list Z;
  sov_binding : SandboxOwnershipBinding
}.
#[global] Instance SandboxOwnershipVerifier_eq_dec : EqDecision SandboxOwnershipVerifier.
Proof. solve_decision. Defined.

Record SandboxOwnershipLease : Type := mkSandboxOwnershipLease {
  sol_id : list Z;
  sol_binding : SandboxOwnershipBinding
}.

Definition ownership_issue `{Sha256} (binding : SandboxOwnershipBinding)
    : smonad LeaseIdSequence AuthorizationIssuanceError
        (SandboxOwnershipLease * SandboxOwnershipVerifier) :=
  let! raw := lease_issue SANDBOX_OWNERSHIP_LEASE_DOMAIN in
  let! id := slift (expect (security_nonce_new raw)
                      "SHA-256 authorization ids are valid lowercase hexadecimal") in
  sret (mkSandboxOwnershipLease id binding, mkSandboxOwnershipVerifier id binding).

Definition ownership_into_verifier (l : SandboxOwnershipLease) : SandboxOwnershipVerifier :=
  mkSandboxOwnershipVerifier (sol_id l) (sol_binding l).
