(* ===== verification/SessionMachine.v ===== *)
(** The debugger-session reducer.

    Models [resymbol-debugger/src/session_machine.rs]: one value that owns the
    session state, the accepted target, the sandbox sub-reducer, the one-use
    authority registries and the identifier watermarks, and every method that
    changes it.

    An [Arc] is an allocation address next to the shared contents, and
    [Arc::ptr_eq] compares addresses; the address a constructor allocates is
    an argument, and freshness is a hypothesis of the theorems that need it.
    A [BTreeMap] of leases is a [gmap].  [&SessionState] results are the state
    value.  The [debug_assert!] of [begin_live_memory_write] is kept as a
    panic. *)

From S2P Require Import Prelude Identity Sandbox Protocol Authorization.
Open Scope Z_scope.

Definition MAX_REGISTERED_AUTHORIZATION_LEASES : Z := 64.

(** ** Errors *)

Module SessionMachineError.
Inductive session_machine_error : Type :=
  | Protocol (e : ProtocolValidationError)
  | Policy (e : PolicyValidationError)
  | Sandbox (e : SandboxMachineError)
  | HostLaunchIntent (e : HostLaunchIntentError)
  | GlobalCommand
  | NonMonotonicCommandId (last received : Z)
  | RemoteCommandPending (command_id : Z)
  | RemoteCommandNotPending
  | RemoteCommandReducerMismatch
  | RemoteCommandCheckpointMismatch (pending presented : Z)
  | RemoteCommandStateChanged
  | LocalLiveMemoryWriteReceiptMismatch
  | InvalidTransition (from : SessionStateKind) (action : string)
  | SessionBindingMismatch
  | DuplicateAuthorizationLease
  | TooManyAuthorizationLeases
  | ProvisioningEpochMismatch
  | HostRiskLeaseUnavailable
  | HostRiskLeaseMismatch
  | SandboxOwnershipLeaseUnavailable
  | SandboxOwnershipLeaseMismatch
  | SandboxNotPending
  | AttestationNotAccepted
  | ExecutionUnavailable
  | LiveMemoryWriteRequiresDebugAttach
  | LiveMemoryWriteTargetMismatch
  | LiveMemoryWriteImageSpan (e : LiveTargetBindingError)
  | SandboxDetachForbidden
  | MissingCleanupReceipt
  | UnexpectedCleanupReceipt
  | InheritedCleanupReceiptMismatch
  | ExpectedIncompleteCleanupReceipt
  | UnexpectedSandboxFailure
  | SandboxFailure (e : SandboxFailureValidationError)
  | ConflictingSandboxOwnership
  | InvalidFailureMessage
  | StopIdOverflow
  | RunIdOverflow.
End SessionMachineError.
Abbreviation SessionMachineError := SessionMachineError.session_machine_error.
Module SE := SessionMachineError.

(** ** State *)

Inductive ExecutionGate : Type :=
  | NotApplicable | HostRiskAccepted | InheritedSandbox | SandboxPending | SandboxAccepted.
#[global] Instance ExecutionGate_eq_dec : EqDecision ExecutionGate.
Proof. solve_decision. Defined.

Record SessionMachine : Type := mkSessionMachine {
  m_reducer_instance : Z;
  m_session_id : Z;
  m_provisioning_epoch : list Z;
  m_helper_build : list Z;
  m_state : SessionState;
  m_target : option DebugTargetRequest;
  m_last_command_id : option Z;
  m_last_stop_id : Z;
  m_last_run_id : Z;
  m_execution_gate : ExecutionGate;
  m_sandbox : option SandboxMachine;
  m_inherited_sandbox : option SandboxOwnershipBinding;
  m_host_risk_leases : gmap (list Z) (option HostRiskVerifier);
  m_sandbox_ownership_leases : gmap (list Z) (option SandboxOwnershipVerifier);
  m_pending_remote_command : option Z
}.

Definition set_state (v : SessionState) (m : SessionMachine) : SessionMachine :=
  {| m_reducer_instance := m_reducer_instance m;
     m_session_id := m_session_id m;
     m_provisioning_epoch := m_provisioning_epoch m;
     m_helper_build := m_helper_build m;
     m_state := v;
     m_target := m_target m;
     m_last_command_id := m_last_command_id m;
     m_last_stop_id := m_last_stop_id m;
     m_last_run_id := m_last_run_id m;
     m_execution_gate := m_execution_gate m;
     m_sandbox := m_sandbox m;
     m_inherited_sandbox := m_inherited_sandbox m;
     m_host_risk_leases := m_host_risk_leases m;
     m_sandbox_ownership_leases := m_sandbox_ownership_leases m;
     m_pending_remote_command := m_pending_remote_command m |}.

Definition set_target (v : option DebugTargetRequest) (m : SessionMachine) : SessionMachine :=
  {| m_reducer_instance := m_reducer_instance m;
     m_session_id := m_session_id m;
     m_provisioning_epoch := m_provisioning_epoch m;
     m_helper_build := m_helper_build m;
     m_state := m_state m;
     m_target := v;
     m_last_command_id := m_last_command_id m;
     m_last_stop_id := m_last_stop_id m;
     m_last_run_id := m_last_run_id m;
     m_execution_gate := m_execution_gate m;
     m_sandbox := m_sandbox m;
     m_inherited_sandbox := m_inherited_sandbox m;
     m_host_risk_leases := m_host_risk_leases m;
     m_sandbox_ownership_leases := m_sandbox_ownership_leases m;
     m_pending_remote_command := m_pending_remote_command m |}.

Definition set_last_command_id (v : option Z) (m : SessionMachine) : SessionMachine :=
  {| m_reducer_instance := m_reducer_instance m;
     m_session_id := m_session_id m;
     m_provisioning_epoch := m_provisioning_epoch m;
     m_helper_build := m_helper_build m;
     m_state := m_state m;
     m_target := m_target m;
     m_last_command_id := v;
     m_last_stop_id := m_last_stop_id m;
     m_last_run_id := m_last_run_id m;
     m_execution_gate := m_execution_gate m;
     m_sandbox := m_sandbox m;
     m_inherited_sandbox := m_inherited_sandbox m;
     m_host_risk_leases := m_host_risk_leases m;
     m_sandbox_ownership_leases := m_sandbox_ownership_leases m;
     m_pending_remote_command := m_pending_remote_command m |}.

Definition set_last_stop_id (v : Z) (m : SessionMachine) : SessionMachine :=
  {| m_reducer_instance := m_reducer_instance m;
     m_session_id := m_session_id m;
     m_provisioning_epoch := m_provisioning_epoch m;
     m_helper_build := m_helper_build m;
     m_state := m_state m;
     m_target := m_target m;
     m_last_command_id := m_last_command_id m;
     m_last_stop_id := v;
     m_last_run_id := m_last_run_id m;
     m_execution_gate := m_execution_gate m;
     m_sandbox := m_sandbox m;
     m_inherited_sandbox := m_inherited_sandbox m;
     m_host_risk_leases := m_host_risk_leases m;
     m_sandbox_ownership_leases := m_sandbox_ownership_leases m;
     m_pending_remote_command := m_pending_remote_command m |}.

Definition set_last_run_id (v : Z) (m : SessionMachine) : SessionMachine :=
  {| m_reducer_instance := m_reducer_instance m;
     m_session_id := m_session_id m;
     m_provisioning_epoch := m_provisioning_epoch m;
     m_helper_build := m_helper_build m;
     m_state := m_state m;
     m_target := m_target m;
     m_last_command_id := m_last_command_id m;
     m_last_stop_id := m_last_stop_id m;
     m_last_run_id := v;
     m_execution_gate := m_execution_gate m;
     m_sandbox := m_sandbox m;
     m_inherited_sandbox := m_inherited_sandbox m;
     m_host_risk_leases := m_host_risk_leases m;
     m_sandbox_ownership_leases := m_sandbox_ownership_leases m;
     m_pending_remote_command := m_pending_remote_command m |}.

Definition set_execution_gate (v : ExecutionGate) (m : SessionMachine) : SessionMachine :=
  {| m_reducer_instance := m_reducer_instance m;
     m_session_id := m_session_id m;
     m_provisioning_epoch := m_provisioning_epoch m;
     m_helper_build := m_helper_build m;
     m_state := m_state m;
     m_target := m_target m;
     m_last_command_id := m_last_command_id m;
     m_last_stop_id := m_last_stop_id m;
     m_last_run_id := m_last_run_id m;
     m_execution_gate := v;
     m_sandbox := m_sandbox m;
     m_inherited_sandbox := m_inherited_sandbox m;
     m_host_risk_leases := m_host_risk_leases m;
     m_sandbox_ownership_leases := m_sandbox_ownership_leases m;
     m_pending_remote_command := m_pending_remote_command m |}.

Definition set_sandbox (v : option SandboxMachine) (m : SessionMachine) : SessionMachine :=
  {| m_reducer_instance := m_reducer_instance m;
     m_session_id := m_session_id m;
     m_provisioning_epoch := m_provisioning_epoch m;
     m_helper_build := m_helper_build m;
     m_state := m_state m;
     m_target := m_target m;
     m_last_command_id := m_last_command_id m;
     m_last_stop_id := m_last_stop_id m;
     m_last_run_id := m_last_run_id m;
     m_execution_gate := m_execution_gate m;
     m_sandbox := v;
     m_inherited_sandbox := m_inherited_sandbox m;
     m_host_risk_leases := m_host_risk_leases m;
     m_sandbox_ownership_leases := m_sandbox_ownership_leases m;
     m_pending_remote_command := m_pending_remote_command m |}.

Definition set_inherited_sandbox (v : option SandboxOwnershipBinding) (m : SessionMachine) : SessionMachine :=
  {| m_reducer_instance := m_reducer_instance m;
     m_session_id := m_session_id m;
     m_provisioning_epoch := m_provisioning_epoch m;
     m_helper_build := m_helper_build m;
     m_state := m_state m;
     m_target := m_target m;
     m_last_command_id := m_last_command_id m;
     m_last_stop_id := m_last_stop_id m;
     m_last_run_id := m_last_run_id m;
     m_execution_gate := m_execution_gate m;
     m_sandbox := m_sandbox m;
     m_inherited_sandbox := v;
     m_host_risk_leases := m_host_risk_leases m;
     m_sandbox_ownership_leases := m_sandbox_ownership_leases m;
     m_pending_remote_command := m_pending_remote_command m |}.

Definition set_host_risk_leases (v : gmap (list Z) (option HostRiskVerifier)) (m : SessionMachine) : SessionMachine :=
  {| m_reducer_instance := m_reducer_instance m;
     m_session_id := m_session_id m;
     m_provisioning_epoch := m_provisioning_epoch m;
     m_helper_build := m_helper_build m;
     m_state := m_state m;
     m_target := m_target m;
     m_last_command_id := m_last_command_id m;
     m_last_stop_id := m_last_stop_id m;
     m_last_run_id := m_last_run_id m;
     m_execution_gate := m_execution_gate m;
     m_sandbox := m_sandbox m;
     m_inherited_sandbox := m_inherited_sandbox m;
     m_host_risk_leases := v;
     m_sandbox_ownership_leases := m_sandbox_ownership_leases m;
     m_pending_remote_command := m_pending_remote_command m |}.

Definition set_sandbox_ownership_leases (v : gmap (list Z) (option SandboxOwnershipVerifier)) (m : SessionMachine) : SessionMachine :=
  {| m_reducer_instance := m_reducer_instance m;
     m_session_id := m_session_id m;
     m_provisioning_epoch := m_provisioning_epoch m;
     m_helper_build := m_helper_build m;
     m_state := m_state m;
     m_target := m_target m;
     m_last_command_id := m_last_command_id m;
     m_last_stop_id := m_last_stop_id m;
     m_last_run_id := m_last_run_id m;
     m_execution_gate := m_execution_gate m;
     m_sandbox := m_sandbox m;
     m_inherited_sandbox := m_inherited_sandbox m;
     m_host_risk_leases := m_host_risk_leases m;
     m_sandbox_ownership_leases := v;
     m_pending_remote_command := m_pending_remote_command m |}.

Definition set_pending_remote_command (v : option Z) (m : SessionMachine) : SessionMachine :=
  {| m_reducer_instance := m_reducer_instance m;
     m_session_id := m_session_id m;
     m_provisioning_epoch := m_provisioning_epoch m;
     m_helper_build := m_helper_build m;
     m_state := m_state m;
     m_target := m_target m;
     m_last_command_id := m_last_command_id m;
     m_last_stop_id := m_last_stop_id m;
     m_last_run_id := m_last_run_id m;
     m_execution_gate := m_execution_gate m;
     m_sandbox := m_sandbox m;
     m_inherited_sandbox := m_inherited_sandbox m;
     m_host_risk_leases := m_host_risk_leases m;
     m_sandbox_ownership_leases := m_sandbox_ownership_leases m;
     m_pending_remote_command := v |}.

(** [Arc<LocalLiveMemoryWriteAllocation>]: the address and the contents. *)
Record LocalLiveMemoryWriteAllocation : Type := mkLocalWrite {
  lw_address_of : Z;
  lw_command_id : Z;
  lw_stop : StopToken;
  lw_binding : LiveTargetBinding;
  lw_address : Z;
  lw_expected : list Z;
  lw_replacement : list Z
}.

Definition ptr_eq (a b : LocalLiveMemoryWriteAllocation) : bool :=
  lw_address_of a =? lw_address_of b.

Record RemoteCommandPostAcceptState : Type := mkPostAccept {
  pa_state : SessionState;
  pa_target : option DebugTargetRequest;
  pa_last_command_id : option Z;
  pa_last_stop_id : Z;
  pa_last_run_id : Z;
  pa_execution_gate : ExecutionGate;
  pa_sandbox : option SandboxMachine;
  pa_inherited_sandbox : option SandboxOwnershipBinding;
  pa_host_risk_leases : gmap (list Z) (option HostRiskVerifier);
  pa_sandbox_ownership_leases : gmap (list Z) (option SandboxOwnershipVerifier)
}.

(** Derived equality of two lease maps with an entry comparison. *)
Definition lease_map_eqb {V} (eqb : V → V → bool) (a b : gmap (list Z) (option V)) : bool :=
  bool_decide (dom a = dom b)
  && bool_decide (map_Forall (λ k v, from_option (option_eqb eqb v) false (b !! k) = true) a).

Definition post_accept_eqb (a b : RemoteCommandPostAcceptState) : bool :=
  SessionState_eqb (pa_state a) (pa_state b)
  && option_eqb DebugTargetRequest_eqb (pa_target a) (pa_target b)
  && bool_decide (pa_last_command_id a = pa_last_command_id b)
  && (pa_last_stop_id a =? pa_last_stop_id b)
  && (pa_last_run_id a =? pa_last_run_id b)
  && bool_decide (pa_execution_gate a = pa_execution_gate b)
  && bool_decide (pa_sandbox a = pa_sandbox b)
  && bool_decide (pa_inherited_sandbox a = pa_inherited_sandbox b)
  && lease_map_eqb HostRiskVerifier_eqb (pa_host_risk_leases a) (pa_host_risk_leases b)
  && bool_decide (pa_sandbox_ownership_leases a = pa_sandbox_ownership_leases b).

Record RemoteCommandCheckpoint : Type := mkCheckpoint {
  cp_reducer_instance : Z;
  cp_local_live_memory_write : option LocalLiveMemoryWriteAllocation;
  cp_command_id : Z;
  cp_state : SessionState;
  cp_target : option DebugTargetRequest;
  cp_execution_gate : ExecutionGate;
  cp_sandbox : option SandboxMachine;
  cp_inherited_sandbox : option SandboxOwnershipBinding;
  cp_post_accept : RemoteCommandPostAcceptState
}.

Record ValidatedLiveMemoryWrite : Type := mkValidatedWrite {
  vw_reducer_instance : Z;
  vw_write : LocalLiveMemoryWriteAllocation
}.

Definition matches_checkpoint (w : ValidatedLiveMemoryWrite) (c : RemoteCommandCheckpoint)
    : bool :=
  (lw_command_id (vw_write w) =? cp_command_id c)
  && (vw_reducer_instance w =? cp_reducer_instance c)
  && match cp_local_live_memory_write c with
     | Some write => ptr_eq write (vw_write w)
     | None => false
     end.

(** [LocalLiveMemoryWriteReceiptIdentity] holds the shared allocation. *)
Record LocalLiveMemoryWriteReceiptIdentity : Type := mkReceiptIdentity {
  ri_write : LocalLiveMemoryWriteAllocation
}.

Inductive ValidatedLocalLivePatchResolution : Type :=
  | Committed (resulting_stop : StopToken)
  | RejectedNoEffect.

Record ValidatedLocalLivePatchReceipt : Type := mkPatchReceipt {
  pr_write : LocalLiveMemoryWriteAllocation;
  pr_resolution : ValidatedLocalLivePatchResolution
}.

Inductive UnsolicitedObservationError : Type :=
  | Reducer (e : SessionMachineError)
  | StateMismatch (expected actual : SessionState).

Abbreviation session_op A := (smonad SessionMachine SessionMachineError A).

(** [instance] is the address of the new [Arc<ReducerInstanceBinding>]. *)
Definition SessionMachine_new (instance session_id : Z) (provisioning_epoch helper_build : list Z)
    : result SessionMachine SessionMachineError :=
  let? generation := expect (StateGeneration_new 1) "initial generation is nonzero" in
  Ok {| m_reducer_instance := instance;
        m_session_id := session_id;
        m_provisioning_epoch := provisioning_epoch;
        m_helper_build := helper_build;
        m_state := SS.Idle (mkStateToken session_id generation);
        m_target := None;
        m_last_command_id := None;
        m_last_stop_id := 0;
        m_last_run_id := 0;
        m_execution_gate := NotApplicable;
        m_sandbox := None;
        m_inherited_sandbox := None;
        m_host_risk_leases := ∅;
        m_sandbox_ownership_leases := ∅;
        m_pending_remote_command := None |}.

(** ** Guards and allocation *)

Definition require_state (action : string) (allowed : list SessionStateKind) : session_op unit :=
  sread (λ m, if bool_decide (state_kind (m_state m) ∈ allowed) then Ok tt
              else Err (SE.InvalidTransition (state_kind (m_state m)) action)).

Definition require_session (actual : Z) : session_op unit :=
  sread (λ m, fail_if (negb (actual =? m_session_id m)) SE.SessionBindingMismatch).

Definition require_open_target (action : string) (predicate : DebugTargetRequest → bool)
    : session_op unit :=
  do! require_state action [SSK.Opening] in
  sread (λ m, match m_target m with
              | Some target =>
                  fail_if (negb (predicate target))
                    (SE.InvalidTransition (state_kind (m_state m)) action)
              | None => Err (SE.InvalidTransition (state_kind (m_state m)) action)
              end).

Definition next_state_token : session_op StateToken :=
  sread (λ m, let? generation := map_err SE.Protocol
                                   (checked_next (st_generation (state_token (m_state m)))) in
              Ok (mkStateToken (m_session_id m) generation)).

Definition transition_to (next : SessionState) : session_op unit :=
  do! sread (λ m, map_err SE.Protocol (validate_successor (m_state m) next)) in
  supd (set_state next).

Definition allocate_stop_token (state : StateToken) : session_op StopToken :=
  let! next := sread (λ m, ok_or (checked_add u64_max (m_last_stop_id m) 1)
                             SE.StopIdOverflow) in
  do! supd (set_last_stop_id next) in
  let! id := sread (λ m, expect (StopId_new (m_last_stop_id m))
                           "checked positive stop identifier is nonzero") in
  sret (mkStopToken state id).

Definition allocate_run_token (state : StateToken) : session_op RunToken :=
  let! next := sread (λ m, ok_or (checked_add u64_max (m_last_run_id m) 1)
                             SE.RunIdOverflow) in
  do! supd (set_last_run_id next) in
  let! id := sread (λ m, expect (RunId_new (m_last_run_id m))
                           "checked positive run identifier is nonzero") in
  sret (mkRunToken state id).

Definition observe_command_id (command_id : Z) : session_op unit :=
  do! sread (λ m, match m_last_command_id m with
                  | Some last =>
                      fail_if (command_id <=? last) (SE.NonMonotonicCommandId last command_id)
                  | None => Ok tt
                  end) in
  supd (set_last_command_id (Some command_id)).

Definition ensure_execution_allowed : session_op unit :=
  sread (λ m, match m_execution_gate m with
              | SandboxPending => Err SE.AttestationNotAccepted
              | NotApplicable => Err SE.ExecutionUnavailable
              | HostRiskAccepted | InheritedSandbox | SandboxAccepted => Ok tt
              end).

Definition require_no_remote_command_pending : session_op unit :=
  sread (λ m, match m_pending_remote_command m with
              | Some command_id => Err (SE.RemoteCommandPending command_id)
              | None => Ok tt
              end).

(** [self.sandbox.as_mut()]: a call on the sandbox reducer when there is one,
    and [none] otherwise. *)
Definition on_sandbox {A} (none : result unit SessionMachineError) (c : sandbox_op A)
    : session_op unit :=
  λ m, match m_sandbox m with
       | Some sb =>
           (let? _r := map_err SE.Sandbox (c sb).1 in Ok tt,
            set_sandbox (Some (c sb).2) m)
       | None => (none, m)
       end.

(** ** Authority registries *)

Definition register_host_risk_verifier (verifier : HostRiskVerifier) : session_op unit :=
  do! require_state "register host-risk lease" [SSK.Idle] in
  do! require_session (hrv_session_id verifier) in
  do! sread (λ m, fail_if (negb (bool_decide
                             (hrv_provisioning_epoch verifier = m_provisioning_epoch m)))
                    SE.ProvisioningEpochMismatch) in
  do! sread (λ m, fail_if (bool_decide (is_Some (m_host_risk_leases m !! hrv_id verifier)))
                    SE.DuplicateAuthorizationLease) in
  do! sread (λ m, fail_if (MAX_REGISTERED_AUTHORIZATION_LEASES
                             <=? Z.of_nat (size (m_host_risk_leases m)))
                    SE.TooManyAuthorizationLeases) in
  supd (λ m, set_host_risk_leases
               (<[hrv_id verifier := Some verifier]> (m_host_risk_leases m)) m).

Definition register_host_risk_lease (lease : HostRiskLease) : session_op unit :=
  register_host_risk_verifier (hrl_verifier lease).

Definition register_sandbox_ownership_verifier (verifier : SandboxOwnershipVerifier)
    : session_op unit :=
  do! require_state "register sandbox-ownership lease" [SSK.Idle] in
  do! require_session (sob_session_id (sov_binding verifier)) in
  do! sread (λ m, fail_if (negb (bool_decide
                    (sob_provisioning_epoch (sov_binding verifier) = m_provisioning_epoch m)))
                    SE.ProvisioningEpochMismatch) in
  do! sread (λ m, fail_if (bool_decide
                             (is_Some (m_sandbox_ownership_leases m !! sov_id verifier)))
                    SE.DuplicateAuthorizationLease) in
  do! sread (λ m, fail_if (MAX_REGISTERED_AUTHORIZATION_LEASES
                             <=? Z.of_nat (size (m_sandbox_ownership_leases m)))
                    SE.TooManyAuthorizationLeases) in
  supd (λ m, set_sandbox_ownership_leases
               (<[sov_id verifier := Some verifier]> (m_sandbox_ownership_leases m)) m).

Definition register_sandbox_ownership_lease (lease : SandboxOwnershipLease) : session_op unit :=
  register_sandbox_ownership_verifier (ownership_into_verifier lease).

(** [get_mut(id).and_then(Option::take)]: the stored value, and the registry
    with the entry emptied. *)
Definition take_lease {V} (id : list Z) (leases : gmap (list Z) (option V))
    : option V * gmap (list Z) (option V) :=
  match leases !! id with
  | Some entry => (entry, <[id := None]> leases)
  | None => (None, leases)
  end.

Definition consume_host_risk_lease (id : list Z) (expected : HostRiskOperation)
    : session_op unit :=
  let! taken := sget (λ m, take_lease id (m_host_risk_leases m)) in
  do! supd (set_host_risk_leases taken.2) in
  let! verifier := slift (ok_or taken.1 SE.HostRiskLeaseUnavailable) in
  sread (λ m, fail_if (negb (hrv_session_id verifier =? m_session_id m)
                       || negb (bool_decide
                                  (hrv_provisioning_epoch verifier = m_provisioning_epoch m))
                       || negb (HostRiskOperation_eqb (hrv_operation verifier) expected))
                SE.HostRiskLeaseMismatch).

Definition consume_sandbox_ownership_lease (id : list Z) (process : ProcessIdentity)
    (mode : AttachMode) : session_op SandboxOwnershipBinding :=
  let! taken := sget (λ m, take_lease id (m_sandbox_ownership_leases m)) in
  do! supd (set_sandbox_ownership_leases taken.2) in
  let! verifier := slift (ok_or taken.1 SE.SandboxOwnershipLeaseUnavailable) in
  let binding := sov_binding verifier in
  do! sread (λ m, fail_if (negb (sob_session_id binding =? m_session_id m)
                           || negb (bool_decide
                                      (sob_provisioning_epoch binding = m_provisioning_epoch m))
                           || negb (bool_decide (sob_process binding = process))
                           || negb (bool_decide (sob_mode binding = mode)))
                    SE.SandboxOwnershipLeaseMismatch) in
  sret binding.

(** ** Commands *)

Section commands.
Context `{Sha256}.

(** The sandbox, gate and inherited binding that the target of an [Open]
    earns; a host or ownership lease is consumed on the way. *)
Definition open_authority (target : DebugTargetRequest)
    : session_op (option SandboxMachine * ExecutionGate * option SandboxOwnershipBinding) :=
  match target with
  | DTR.Launch t =>
      match lt_environment t with
      | Sandboxed policy =>
          do! require_session (sp_session_id policy) in
          let! expected := sread (λ m, map_err SE.Policy
                                    (from_policy (lt_binary_id t) policy (m_helper_build m)
                                       (m_provisioning_epoch m))) in
          let! sandbox := slift (map_err SE.Sandbox (SandboxMachine_new expected)) in
          do! slift (map_err SE.Sandbox (begin_provisioning sandbox).1) in
          sret (Some (begin_provisioning sandbox).2, SandboxPending, None)
      | HostEnvironment risk_lease =>
          let! intent := slift (map_err SE.HostLaunchIntent (from_target t)) in
          do! consume_host_risk_lease risk_lease (HRO.Launch intent) in
          sret (None, HostRiskAccepted, None)
      end
  | DTR.Attach t =>
      match att_scope t with
      | HostScope process risk_lease =>
          do! consume_host_risk_lease risk_lease (HRO.Attach process (att_mode t)) in
          sret (None, HostRiskAccepted, None)
      | OwnedSandbox process ownership_lease =>
          let! binding := consume_sandbox_ownership_lease ownership_lease process (att_mode t) in
          sret (None, InheritedSandbox, Some binding)
      end
  | DTR.Dump _ | DTR.Offline _ => sret (None, NotApplicable, None)
  end.

Definition accept_open (target : DebugTargetRequest) : session_op unit :=
  let! authority := open_authority target in
  let! next := next_state_token in
  do! supd (set_execution_gate authority.1.2) in
  do! supd (set_sandbox authority.1.1) in
  do! supd (set_inherited_sandbox authority.2) in
  do! supd (set_target (Some target)) in
  do! supd (set_host_risk_leases ∅) in
  do! supd (set_sandbox_ownership_leases ∅) in
  transition_to (SS.Opening next target).

Definition refresh_stopped_token : session_op unit :=
  let! state := sget m_state in
  match state with
  | SS.Stopped _ reason thread_id =>
      let! next := next_state_token in
      let! stop := allocate_stop_token next in
      transition_to (SS.Stopped stop reason thread_id)
  | _ => serr (SE.InvalidTransition (state_kind state) "refresh stopped token")
  end.

(** The body of the match in [accept_command_inner]. *)
Definition accept_effect (command : DebugCommand) : session_op unit :=
  match command with
  | DC.ProbeCapabilities => slift (Panic "handled above")
  | DC.Open target => accept_open target
  | DC.Continue _ | DC.Step _ _ _ =>
      do! ensure_execution_allowed in
      let! next := next_state_token in
      let! run := allocate_run_token next in
      do! on_sandbox (Ok tt) sm_mark_running in
      transition_to (SS.Running run)
  | DC.Pause _ =>
      let! next := next_state_token in
      transition_to (SS.Pausing next)
  | DC.WriteMemory _ _ _ _ | DC.WriteRegisters _ _ _ | DC.SetBreakpoint _ _ _
  | DC.RemoveBreakpoint _ _ => refresh_stopped_token
  | DC.ReadMemory _ _ _ | DC.ReadRegisters _ _ | DC.CaptureSnapshot _ => sret tt
  | DC.Detach _ =>
      do! sread (λ m, fail_if (bool_decide (m_execution_gate m ∈
                                 [InheritedSandbox; SandboxPending; SandboxAccepted]))
                        SE.SandboxDetachForbidden) in
      let! next := next_state_token in
      transition_to (SS.Detached next)
  | DC.Terminate _ | DC.Close _ =>
      let! next := next_state_token in
      do! on_sandbox (Ok tt) begin_cleanup in
      transition_to (SS.Closing next)
  end.

Definition accept_command_inner (envelope : CommandEnvelope) : session_op SessionState :=
  do! slift (map_err SE.Protocol (envelope_validate envelope)) in
  do! observe_command_id (ce_command_id envelope) in
  do! slift (fail_if (is_probe (ce_command envelope)) SE.GlobalCommand) in
  do! sread (λ m, map_err SE.Protocol (validate_against envelope (m_state m))) in
  do! accept_effect (ce_command envelope) in
  sget m_state.

Definition accept_command (envelope : CommandEnvelope) : session_op SessionState :=
  do! require_no_remote_command_pending in
  accept_command_inner envelope.

(** ** Remote commands *)

Definition remote_command_post_accept_state (m : SessionMachine)
    : RemoteCommandPostAcceptState :=
  {| pa_state := m_state m;
     pa_target := m_target m;
     pa_last_command_id := m_last_command_id m;
     pa_last_stop_id := m_last_stop_id m;
     pa_last_run_id := m_last_run_id m;
     pa_execution_gate := m_execution_gate m;
     pa_sandbox := m_sandbox m;
     pa_inherited_sandbox := m_inherited_sandbox m;
     pa_host_risk_leases := m_host_risk_leases m;
     pa_sandbox_ownership_leases := m_sandbox_ownership_leases m |}.

Definition begin_remote_command (envelope : CommandEnvelope)
    : session_op RemoteCommandCheckpoint :=
  do! require_no_remote_command_pending in
  let! state := sget m_state in
  let! target := sget m_target in
  let! execution_gate := sget m_execution_gate in
  let! sandbox := sget m_sandbox in
  let! inherited_sandbox := sget m_inherited_sandbox in
  do! accept_command_inner envelope in
  do! supd (set_pending_remote_command (Some (ce_command_id envelope))) in
  sget (λ m, {| cp_reducer_instance := m_reducer_instance m;
                cp_local_live_memory_write := None;
                cp_command_id := ce_command_id envelope;
                cp_state := state;
                cp_target := target;
                cp_execution_gate := execution_gate;
                cp_sandbox := sandbox;
                cp_inherited_sandbox := inherited_sandbox;
                cp_post_accept := remote_command_post_accept_state m |}).

Definition scope_process (s : AttachScope) : ProcessIdentity :=
  match s with HostScope process _ | OwnedSandbox process _ => process end.

(** The [attached_process_matches] match of [begin_live_memory_write]. *)
Definition require_debug_attach (binding : LiveTargetBinding) : session_op unit :=
  sread (λ m, match m_target m with
              | Some (DTR.Attach t) =>
                  if bool_decide (att_mode t = Debug) then
                    fail_if (negb (bool_decide (scope_process (att_scope t)
                                                = lb_process binding)))
                      SE.LiveMemoryWriteTargetMismatch
                  else Err SE.LiveMemoryWriteRequiresDebugAttach
              | _ => Err SE.LiveMemoryWriteRequiresDebugAttach
              end).

Definition set_local_write (w : option LocalLiveMemoryWriteAllocation)
    (c : RemoteCommandCheckpoint) : RemoteCommandCheckpoint :=
  mkCheckpoint (cp_reducer_instance c) w (cp_command_id c) (cp_state c) (cp_target c)
    (cp_execution_gate c) (cp_sandbox c) (cp_inherited_sandbox c) (cp_post_accept c).

(** [fresh] is the address [Arc::new] returns for the write allocation. *)
Definition begin_live_memory_write (fresh : Z) (envelope : CommandEnvelope)
    (binding : LiveTargetBinding)
    : session_op (RemoteCommandCheckpoint * ValidatedLiveMemoryWrite
                  * LocalLiveMemoryWriteReceiptIdentity) :=
  match ce_command envelope with
  | DC.WriteMemory stop address expected replacement =>
      do! slift (map_err SE.Protocol (envelope_validate envelope)) in
      do! require_debug_attach binding in
      do! slift (map_err SE.LiveMemoryWriteImageSpan
                   (rva_for_address_span binding address (zlen expected))) in
      let! checkpoint := begin_remote_command envelope in
      let write := {| lw_address_of := fresh;
                      lw_command_id := ce_command_id envelope;
                      lw_stop := stop;
                      lw_binding := binding;
                      lw_address := address;
                      lw_expected := expected;
                      lw_replacement := replacement |} in
      let checkpoint' := set_local_write (Some write) checkpoint in
      let ticket := mkValidatedWrite (cp_reducer_instance checkpoint') write in
      do! slift (if matches_checkpoint ticket checkpoint' then Ok tt
                 else Panic "assertion failed: ticket.matches_checkpoint(&checkpoint)") in
      sret (checkpoint', ticket, mkReceiptIdentity write)
  | _ => serr (SE.Protocol PVE.NotMemoryWriteCommand)
  end.
End commands.

Definition validate_remote_checkpoint (checkpoint : RemoteCommandCheckpoint) (command_id : Z)
    (m : SessionMachine) : result unit SessionMachineError :=
  do? fail_if (negb (m_reducer_instance m =? cp_reducer_instance checkpoint))
        SE.RemoteCommandReducerMismatch in
  let? pending := ok_or (m_pending_remote_command m) SE.RemoteCommandNotPending in
  fail_if (negb (command_id =? cp_command_id checkpoint)
           || negb (pending =? cp_command_id checkpoint))
    (SE.RemoteCommandCheckpointMismatch pending command_id).

Definition validate_local_live_memory_write_resolution (checkpoint : RemoteCommandCheckpoint)
    (receipt_identity : LocalLiveMemoryWriteReceiptIdentity) (m : SessionMachine)
    : result StopToken SessionMachineError :=
  do? validate_remote_checkpoint checkpoint (lw_command_id (ri_write receipt_identity)) m in
  do? fail_if (negb (post_accept_eqb (remote_command_post_accept_state m)
                       (cp_post_accept checkpoint)))
        SE.RemoteCommandStateChanged in
  let? checkpoint_write := ok_or (cp_local_live_memory_write checkpoint)
                             SE.LocalLiveMemoryWriteReceiptMismatch in
  do? fail_if (negb (ptr_eq checkpoint_write (ri_write receipt_identity)))
        SE.LocalLiveMemoryWriteReceiptMismatch in
  match cp_state checkpoint with
  | SS.Stopped prior_stop _ _ =>
      do? fail_if (negb (bool_decide (prior_stop = lw_stop (ri_write receipt_identity))))
            SE.LocalLiveMemoryWriteReceiptMismatch in
      match m_state m with
      | SS.Stopped resulting_stop _ _ => Ok resulting_stop
      | _ => Err SE.LocalLiveMemoryWriteReceiptMismatch
      end
  | _ => Err SE.LocalLiveMemoryWriteReceiptMismatch
  end.

Definition resolve_live_memory_write_success (checkpoint : RemoteCommandCheckpoint)
    (receipt_identity : LocalLiveMemoryWriteReceiptIdentity)
    : session_op ValidatedLocalLivePatchReceipt :=
  let! resulting_stop := sread (validate_local_live_memory_write_resolution checkpoint
                                  receipt_identity) in
  do! supd (set_pending_remote_command None) in
  sret (mkPatchReceipt (ri_write receipt_identity) (Committed resulting_stop)).

(** The five fields a checkpoint restores. *)
Definition restore_checkpoint (c : RemoteCommandCheckpoint) : session_op unit :=
  do! supd (set_pending_remote_command None) in
  do! supd (set_state (cp_state c)) in
  do! supd (set_target (cp_target c)) in
  do! supd (set_execution_gate (cp_execution_gate c)) in
  do! supd (set_sandbox (cp_sandbox c)) in
  supd (set_inherited_sandbox (cp_inherited_sandbox c)).

Definition resolve_live_memory_write_no_effect (checkpoint : RemoteCommandCheckpoint)
    (receipt_identity : LocalLiveMemoryWriteReceiptIdentity)
    : session_op ValidatedLocalLivePatchReceipt :=
  do! sread (validate_local_live_memory_write_resolution checkpoint receipt_identity) in
  do! slift (fail_if (negb match cp_state checkpoint with
                           | SS.Stopped token _ _ =>
                               bool_decide (token = lw_stop (ri_write receipt_identity))
                           | _ => false
                           end)
               SE.LocalLiveMemoryWriteReceiptMismatch) in
  do! restore_checkpoint checkpoint in
  sret (mkPatchReceipt (ri_write receipt_identity) RejectedNoEffect).

Definition commit_remote_command (checkpoint : RemoteCommandCheckpoint) (command_id : Z)
    : session_op SessionState :=
  do! sread (validate_remote_checkpoint checkpoint command_id) in
  do! supd (set_pending_remote_command None) in
  sget m_state.

Definition reject_remote_command (checkpoint : RemoteCommandCheckpoint) (command_id : Z)
    : session_op SessionState :=
  do! sread (validate_remote_checkpoint checkpoint command_id) in
  do! sread (λ m, fail_if (negb (post_accept_eqb (remote_command_post_accept_state m)
                                   (cp_post_accept checkpoint)))
                    SE.RemoteCommandStateChanged) in
  do! restore_checkpoint checkpoint in
  sget m_state.

(** ** Backend observations *)

Definition target_created_suspended (process : ProcessIdentity) : session_op SessionState :=
  do! require_state "record suspended target" [SSK.Opening] in
  do! sread (λ m, fail_if (negb (bool_decide (m_execution_gate m = SandboxPending)))
                    SE.SandboxNotPending) in
  let! next := next_state_token in
  do! on_sandbox (Err SE.SandboxNotPending) (sm_target_created_suspended process) in
  do! transition_to (SS.AwaitingAttestation next process) in
  sget m_state.

Definition accept_sandbox_attestation (actual : SandboxAttestation) : session_op SessionState :=
  do! require_state "accept sandbox attestation" [SSK.AwaitingAttestation] in
  let! next := next_state_token in
  do! on_sandbox (Err SE.SandboxNotPending) (accept_attestation actual) in
  do! supd (set_execution_gate SandboxAccepted) in
  do! transition_to (SS.AttestationAccepted next) in
  sget m_state.

Definition is_offline_target (t : DebugTargetRequest) : bool :=
  match t with DTR.Offline _ => true | _ => false end.
Definition is_dump_target (t : DebugTargetRequest) : bool :=
  match t with DTR.Dump _ => true | _ => false end.
Definition is_observe_target (t : DebugTargetRequest) : bool :=
  match t with DTR.Attach a => bool_decide (att_mode a = ObserveReadOnly) | _ => false end.
Definition is_debug_target (t : DebugTargetRequest) : bool :=
  match t with
  | DTR.Launch _ => true
  | DTR.Attach a => bool_decide (att_mode a = Debug)
  | _ => false
  end.

Definition complete_open_offline : session_op SessionState :=
  do! require_open_target "complete offline open" is_offline_target in
  let! next := next_state_token in
  do! transition_to (SS.Offline next) in
  sget m_state.

Definition complete_open_dump : session_op SessionState :=
  do! require_open_target "complete dump open" is_dump_target in
  let! next := next_state_token in
  do! transition_to (SS.Dump next) in
  sget m_state.

Definition complete_open_observing (process_id : Z) : session_op SessionState :=
  do! require_open_target "complete observing attach" is_observe_target in
  let! next := next_state_token in
  do! transition_to (SS.Observing next process_id) in
  sget m_state.

Definition mark_stopped (reason : StopReason) (thread_id : Z) : session_op SessionState :=
  do! require_state "mark stopped"
        [SSK.Opening; SSK.AttestationAccepted; SSK.Running; SSK.Pausing] in
  do! sread (λ m, fail_if (bool_decide (m_execution_gate m = SandboxPending))
                    SE.AttestationNotAccepted) in
  let! kind := sget (λ m, state_kind (m_state m)) in
  do! (if bool_decide (kind = SSK.Opening)
       then require_open_target "mark stopped" is_debug_target
       else sret tt) in
  let! next := next_state_token in
  let! stop := allocate_stop_token next in
  do! transition_to (SS.Stopped stop reason thread_id) in
  sget m_state.

Definition mark_exited (exit_code : Z) : session_op SessionState :=
  do! require_state "mark exited"
        [SSK.AttestationAccepted; SSK.Stopped; SSK.Running; SSK.Pausing] in
  let! next := next_state_token in
  do! on_sandbox (Ok tt) begin_cleanup in
  do! transition_to (SS.Exited next exit_code) in
  sget m_state.

Definition mark_failed (message : list Z) : session_op SessionState :=
  do! sread (λ m, fail_if (bool_decide (state_kind (m_state m) = SSK.Closed))
                    (SE.InvalidTransition SSK.Closed "mark failed")) in
  do! slift (fail_if (trim_is_empty message || (MAX_REASON_BYTES <? str_len message)
                      || existsb is_control message)
               SE.InvalidFailureMessage) in
  let! next := next_state_token in
  do! on_sandbox (Ok tt) (do! sm_mark_failed in begin_cleanup) in
  do! transition_to (SS.Failed next message) in
  sget m_state.

(** The [try_for_each] of [apply_unsolicited_observations]. *)
Fixpoint apply_observations (observations : list SessionState)
    : smonad SessionMachine UnsolicitedObservationError unit :=
  match observations with
  | [] => sret tt
  | observed :: rest =>
      let! applied :=
        match observed with
        | SS.Stopped _ reason thread_id => smap_err Reducer (mark_stopped reason thread_id)
        | SS.Exited _ exit_code => smap_err Reducer (mark_exited exit_code)
        | _ => slift (Panic "host client restricts unsolicited observations")
        end in
      do! slift (fail_if (negb (SessionState_eqb applied observed))
                   (StateMismatch applied observed)) in
      apply_observations rest
  end.

Definition apply_unsolicited_observations (observations : list SessionState)
    : smonad SessionMachine UnsolicitedObservationError unit :=
  λ m, match apply_observations observations m with
       | (Err e, m') =>
           (Err e, set_sandbox (m_sandbox m)
                     (set_last_stop_id (m_last_stop_id m) (set_state (m_state m) m')))
       | (r, m') => (r, m')
       end.

(** ** Cleanup and failure evidence *)

Definition validate_inherited_cleanup_binding (binding : SandboxOwnershipBinding)
    (receipt : SandboxCleanupReceipt) : result unit SessionMachineError :=
  do? fail_if (negb (rc_session_id receipt =? sob_session_id binding)
               || negb (bool_decide
                          (rc_provisioning_epoch receipt = sob_provisioning_epoch binding))
               || negb (bool_decide (rc_provider receipt = sob_provider binding))
               || negb (bool_decide (rc_policy_digest receipt = sob_policy_digest binding))
               || negb (bool_decide (rc_process receipt = Some (sob_process binding))))
        SE.InheritedCleanupReceiptMismatch in
  map_err (λ e, SE.Sandbox (SME.Cleanup e))
    (validate_for_boundary receipt (provider_boundary (sob_provider binding))).

Definition validate_inherited_cleanup (binding : SandboxOwnershipBinding)
    (receipt : SandboxCleanupReceipt) : result unit SessionMachineError :=
  do? validate_inherited_cleanup_binding binding receipt in
  fail_if (negb (bool_decide (rc_outcome receipt = Complete)))
    (SE.Sandbox SME.CleanupIncomplete).

Definition complete_close (receipt : option SandboxCleanupReceipt) : session_op SessionState :=
  do! require_state "complete close" [SSK.Closing] in
  let! next := next_state_token in
  let! sandbox := sget m_sandbox in
  let! inherited := sget m_inherited_sandbox in
  do! match sandbox, inherited, receipt with
      | Some _, None, Some receipt =>
          on_sandbox (Err SE.ConflictingSandboxOwnership) (sm_close receipt)
      | None, Some binding, Some receipt => slift (validate_inherited_cleanup binding receipt)
      | Some _, None, None | None, Some _, None => serr SE.MissingCleanupReceipt
      | None, None, Some _ => serr SE.UnexpectedCleanupReceipt
      | None, None, None => sret tt
      | Some _, Some _, _ => serr SE.ConflictingSandboxOwnership
      end in
  do! transition_to (SS.Closed next) in
  sget m_state.

Definition record_sandbox_target_not_created : session_op unit :=
  let! sandbox := sget m_sandbox in
  let! inherited := sget m_inherited_sandbox in
  match sandbox, inherited with
  | Some _, None => on_sandbox (Err SE.UnexpectedSandboxFailure) record_target_not_created
  | None, None => serr SE.UnexpectedSandboxFailure
  | Some _, Some _ => serr SE.ConflictingSandboxOwnership
  | None, Some _ => serr (SE.SandboxFailure SFV.ContextKind)
  end.

Definition bind_sandbox_failure (stage : SandboxFailureStage) (kind : SandboxFailureKind)
    (retryable : bool) (detail : list Z) (m : SessionMachine)
    : result SandboxFailure SessionMachineError :=
  let? failure :=
    match m_sandbox m, m_inherited_sandbox m with
    | Some sandbox, None =>
        let expected := sm_expected sandbox in
        let? created := map_err SE.Sandbox (failure_target_creation sandbox) in
        Ok (mkSandboxFailure (ex_session_id expected) (ex_provisioning_epoch expected)
              (ex_policy_digest expected) (ex_provider expected)
              (LaunchContext (ex_binary_id expected) (ex_helper_build expected) created)
              stage kind retryable detail)
    | None, Some binding =>
        Ok (mkSandboxFailure (sob_session_id binding) (sob_provisioning_epoch binding)
              (sob_policy_digest binding) (sob_provider binding)
              (InheritedAttachContext (sob_process binding) (sob_mode binding))
              stage kind retryable detail)
    | None, None => Err SE.UnexpectedSandboxFailure
    | Some _, Some _ => Err SE.ConflictingSandboxOwnership
    end in
  do? map_err SE.SandboxFailure (validate_stage_kind failure) in
  Ok failure.

Definition validate_sandbox_failure (failure : SandboxFailure) (m : SessionMachine)
    : result unit SessionMachineError :=
  match m_sandbox m, m_inherited_sandbox m with
  | Some sandbox, None =>
      map_err SE.SandboxFailure
        (validate_against_expected failure (sm_expected sandbox) (sm_target_creation sandbox))
  | None, Some binding =>
      map_err SE.SandboxFailure
        (validate_against_inherited failure (sob_session_id binding)
           (sob_provisioning_epoch binding) (sob_policy_digest binding)
           (sob_provider binding) (sob_process binding) (sob_mode binding))
  | None, None => Err SE.UnexpectedSandboxFailure
  | Some _, Some _ => Err SE.ConflictingSandboxOwnership
  end.

Definition retain_sandbox_failure_target_creation (failure : SandboxFailure)
    : session_op unit :=
  do! sread (validate_sandbox_failure failure) in
  match sf_stage failure with
  | SandboxFailureStage.Policy | SandboxFailureStage.Discovery => sret tt
  | _ =>
      let! sandbox := sget m_sandbox in
      let! inherited := sget m_inherited_sandbox in
      match sandbox, inherited, sf_context failure with
      | Some sb, None, LaunchContext _ _ target_creation =>
          do! slift (fail_if (bool_decide (sm_target_creation sb = None))
                       (SE.Sandbox SME.TargetCreationOutcomeMismatch)) in
          on_sandbox (Err SE.UnexpectedSandboxFailure)
            (retain_failure_target_creation target_creation)
      | None, Some _, InheritedAttachContext _ _ => sret tt
      | None, None, _ => serr SE.UnexpectedSandboxFailure
      | Some _, Some _, _ => serr SE.ConflictingSandboxOwnership
      | _, _, _ => serr (SE.SandboxFailure SFV.ContextKind)
      end
  end.

Definition validate_cleanup_receipt_binding (receipt : SandboxCleanupReceipt)
    (m : SessionMachine) : result unit SessionMachineError :=
  match m_sandbox m, m_inherited_sandbox m with
  | Some sandbox, None => map_err SE.Sandbox (sm_validate_cleanup_receipt receipt sandbox)
  | None, Some binding => validate_inherited_cleanup_binding binding receipt
  | None, None => Err SE.UnexpectedCleanupReceipt
  | Some _, Some _ => Err SE.ConflictingSandboxOwnership
  end.

Definition validate_cleanup_receipt (receipt : SandboxCleanupReceipt) (m : SessionMachine)
    : result unit SessionMachineError :=
  do? validate_cleanup_receipt_binding receipt m in
  fail_if (negb (bool_decide (rc_outcome receipt = Complete)))
    (SE.Sandbox SME.CleanupIncomplete).

Definition validate_cleanup_attempt_receipt (receipt : SandboxCleanupReceipt)
    (m : SessionMachine) : result unit SessionMachineError :=
  do? validate_cleanup_receipt_binding receipt m in
  fail_if (negb (bool_decide (rc_outcome receipt = Incomplete)))
    SE.ExpectedIncompleteCleanupReceipt.

Definition requires_cleanup_receipt (m : SessionMachine) : bool :=
  negb (bool_decide (m_sandbox m = None)) || negb (bool_decide (m_inherited_sandbox m = None)).
