(* ===== verification/LivePatchHistory.v ===== *)
(** The undo history of committed live memory writes.

    Models [resymbol-debugger/src/live_patch_history.rs] and the
    [CommandReceipt] record of [host_client.rs] that it reads: a reducer that
    reserves one compare-before-write operation at a time, hands out its
    command once, and pushes or pops an entry only on exact evidence; anything
    else freezes it.

    The [expect] calls and [debug_assert_eq!] checks are panics, and so are the
    overflow of [stored_bytes +=] and the underflow of [stored_bytes -=]. *)

From S2P Require Import Prelude Identity Sandbox Protocol SessionMachine.
Open Scope Z_scope.

Definition MAX_LIVE_PATCH_HISTORY_ENTRIES : Z := 256.
Definition MAX_LIVE_PATCH_HISTORY_STORED_BYTES : Z := 1024 * 1024.
Definition MEMORY_WRITE_FAILURE_REJECTION_CODE : list Z := str "memory-write-failed".

(** [CommandReceipt] of [host_client.rs]. *)
Record CommandReceipt : Type := mkCommandReceipt {
  cre_command_id : Z;
  cre_outcome : CommandOutcome;
  cre_events : list EventEnvelope
}.

(** ** Data *)

Record LivePatchEntry : Type := mkLivePatchEntry {
  le_address : Z;
  le_before : list Z;
  le_after : list Z;
  le_applied_stop : StopToken;
  le_resulting_stop : StopToken;
  le_command_id : Z
}.

Definition entry_stored_bytes (e : LivePatchEntry) : Z := zlen (le_before e) + zlen (le_after e).

Inductive LivePatchOperationKind : Type := ForwardWrite | Undo.
#[global] Instance LivePatchOperationKind_eq_dec : EqDecision LivePatchOperationKind.
Proof. solve_decision. Defined.

Inductive LivePatchOperationPhase : Type := Reserved | Dispatched.
#[global] Instance LivePatchOperationPhase_eq_dec : EqDecision LivePatchOperationPhase.
Proof. solve_decision. Defined.

Record PendingLivePatchOperation : Type := mkPendingLivePatchOperation {
  po_kind : LivePatchOperationKind;
  po_phase : LivePatchOperationPhase;
  po_stop : StopToken;
  po_address : Z;
  po_expected : list Z;
  po_replacement : list Z
}.

Definition po_set_phase (phase : LivePatchOperationPhase) (p : PendingLivePatchOperation)
    : PendingLivePatchOperation :=
  mkPendingLivePatchOperation (po_kind p) phase (po_stop p) (po_address p) (po_expected p)
    (po_replacement p).

Definition po_command (p : PendingLivePatchOperation) : DebugCommand :=
  DC.WriteMemory (po_stop p) (po_address p) (po_expected p) (po_replacement p).

Definition reserved_history_bytes (p : PendingLivePatchOperation) : Z :=
  match po_kind p with
  | ForwardWrite => zlen (po_expected p) + zlen (po_replacement p)
  | Undo => 0
  end.

Module LivePatchReceiptMismatch.
Inductive receipt_mismatch : Type :=
  | NonMonotonicCommandId (previous actual : Z)
  | SessionDrift
  | TargetDrift
  | EmptyReceipt
  | EventCorrelation
  | EventSession
  | CommandResultCount
  | CommandResultMismatch
  | CommandResultNotLast
  | DuplicateWriteEvidence
  | DuplicateFailureEvidence
  | WriteEvidenceMismatch
  | FailureEvidenceMismatch
  | StateEvidenceMismatch
  | ContradictoryWriteEvidence
  | MissingSuccessEvidence
  | FailureReportedAsSuccess
  | UnexpectedSuccessEffect
  | ReservedFailureCodeWithoutEvidence
  | RejectionProducedEffect
  | SafeFailureProducedStateChange
  | IndeterminateStateEvidenceMismatch.
End LivePatchReceiptMismatch.
Abbreviation LivePatchReceiptMismatch := LivePatchReceiptMismatch.receipt_mismatch.
Module LPM := LivePatchReceiptMismatch.

Inductive LivePatchFreezeCause : Type :=
  | TransportOutcomeUnknown
  | IndeterminateWrite (failure : MemoryWriteFailure)
  | ReceiptMismatch (mismatch : LivePatchReceiptMismatch).

Record LivePatchFreezeEvidence : Type := mkLivePatchFreezeEvidence {
  fe_pending : PendingLivePatchOperation;
  fe_receipt_command_id : option Z;
  fe_cause : LivePatchFreezeCause
}.

Module LivePatchResolution.
Inductive patch_resolution : Type :=
  | ForwardCommitted (entry : LivePatchEntry)
  | UndoCommitted (entry : LivePatchEntry)
  | RejectedNoEffect
  | Frozen.
End LivePatchResolution.
Abbreviation LivePatchResolution := LivePatchResolution.patch_resolution.
Module LPR := LivePatchResolution.

Module LivePatchHistoryError.
Inductive patch_history_error : Type :=
  | InspectionOnly
  | OperationPending
  | NoPendingOperation
  | OperationAlreadyDispatched
  | OperationNotDispatched
  | CannotCancelDispatched
  | DuplicateReceipt (command_id : Z)
  | OutOfOrderReceipt (last received : Z)
  | NothingToUndo
  | SessionDrift
  | TargetDrift
  | StopSessionDrift
  | NonMonotonicStopToken
  | EmptyPatch
  | LengthMismatch (before after : Z)
  | UnchangedPatch
  | PatchTooLarge (actual maximum : Z)
  | InvalidImageSpan (e : LiveTargetBindingError)
  | EntryLimit (maximum : Z)
  | ByteLimit (actual maximum : Z).
End LivePatchHistoryError.
Abbreviation LivePatchHistoryError := LivePatchHistoryError.patch_history_error.
Module LPE := LivePatchHistoryError.

Record LivePatchHistory : Type := mkLivePatchHistory {
  lh_session_id : Z;
  lh_binding : LiveTargetBinding;
  lh_entries : list LivePatchEntry;
  lh_stored_bytes : Z;
  lh_last_stop : option StopToken;
  lh_last_receipt_command_id : option Z;
  lh_pending : option PendingLivePatchOperation;
  lh_freeze_evidence : option LivePatchFreezeEvidence
}.

Definition lh_set_entries (v : list LivePatchEntry) (h : LivePatchHistory) : LivePatchHistory :=
  mkLivePatchHistory (lh_session_id h) (lh_binding h) v (lh_stored_bytes h) (lh_last_stop h)
    (lh_last_receipt_command_id h) (lh_pending h) (lh_freeze_evidence h).
Definition lh_set_stored_bytes (v : Z) (h : LivePatchHistory) : LivePatchHistory :=
  mkLivePatchHistory (lh_session_id h) (lh_binding h) (lh_entries h) v (lh_last_stop h)
    (lh_last_receipt_command_id h) (lh_pending h) (lh_freeze_evidence h).
Definition lh_set_last_stop (v : option StopToken) (h : LivePatchHistory) : LivePatchHistory :=
  mkLivePatchHistory (lh_session_id h) (lh_binding h) (lh_entries h) (lh_stored_bytes h) v
    (lh_last_receipt_command_id h) (lh_pending h) (lh_freeze_evidence h).
Definition lh_set_last_receipt (v : option Z) (h : LivePatchHistory) : LivePatchHistory :=
  mkLivePatchHistory (lh_session_id h) (lh_binding h) (lh_entries h) (lh_stored_bytes h)
    (lh_last_stop h) v (lh_pending h) (lh_freeze_evidence h).
Definition lh_set_pending (v : option PendingLivePatchOperation) (h : LivePatchHistory)
    : LivePatchHistory :=
  mkLivePatchHistory (lh_session_id h) (lh_binding h) (lh_entries h) (lh_stored_bytes h)
    (lh_last_stop h) (lh_last_receipt_command_id h) v (lh_freeze_evidence h).
Definition lh_set_freeze (v : option LivePatchFreezeEvidence) (h : LivePatchHistory)
    : LivePatchHistory :=
  mkLivePatchHistory (lh_session_id h) (lh_binding h) (lh_entries h) (lh_stored_bytes h)
    (lh_last_stop h) (lh_last_receipt_command_id h) (lh_pending h) v.

Definition LivePatchHistory_new (session_id : Z) (binding : LiveTargetBinding)
    : LivePatchHistory :=
  mkLivePatchHistory session_id binding [] 0 None None None None.

Abbreviation history_op A := (smonad LivePatchHistory LivePatchHistoryError A).

Definition reserved_bytes (h : LivePatchHistory) : Z :=
  let pending := match lh_pending h with
                 | Some p => Some p
                 | None => fe_pending <$> lh_freeze_evidence h
                 end in
  lh_stored_bytes h + from_option reserved_history_bytes 0 pending.

(** ** Guards *)

Definition require_not_frozen : history_op unit :=
  sread (λ h, fail_if (bool_decide (is_Some (lh_freeze_evidence h))) LPE.InspectionOnly).

(** Whether [stop] follows [previous]: both counters equal or both greater. *)
Definition coherent_stop (stop previous : StopToken) : bool :=
  match st_generation (stop_state stop) ?= st_generation (stop_state previous),
        stop_id stop ?= stop_id previous with
  | Eq, Eq | Gt, Gt => true
  | _, _ => false
  end.

Definition require_ready_context (session_id : Z) (binding : LiveTargetBinding)
    (stop : StopToken) : history_op unit :=
  do! require_not_frozen in
  do! sread (λ h, fail_if (bool_decide (is_Some (lh_pending h))) LPE.OperationPending) in
  do! sread (λ h, fail_if (negb (session_id =? lh_session_id h)) LPE.SessionDrift) in
  do! sread (λ h, fail_if (negb (bool_decide (binding = lh_binding h))) LPE.TargetDrift) in
  do! sread (λ h, fail_if (negb (st_session_id (stop_state stop) =? lh_session_id h))
                    LPE.StopSessionDrift) in
  sread (λ h, match lh_last_stop h with
              | Some previous => fail_if (negb (coherent_stop stop previous))
                                   LPE.NonMonotonicStopToken
              | None => Ok tt
              end).

Definition require_dispatched_pending : history_op unit :=
  do! require_not_frozen in
  sread (λ h, match lh_pending h with
              | None => Err LPE.NoPendingOperation
              | Some pending =>
                  fail_if (bool_decide (po_phase pending = Reserved)) LPE.OperationNotDispatched
              end).

Definition validate_patch_bytes (before after : list Z) : result unit LivePatchHistoryError :=
  do? fail_if (bool_decide (before = [])) LPE.EmptyPatch in
  do? fail_if (negb (zlen before =? zlen after))
        (LPE.LengthMismatch (zlen before) (zlen after)) in
  do? fail_if (bool_decide (before = after)) LPE.UnchangedPatch in
  fail_if (MAX_MEMORY_WRITE_BYTES <? zlen before)
    (LPE.PatchTooLarge (zlen before) MAX_MEMORY_WRITE_BYTES).

Definition is_exact_successor_stop (prior resulting : StopToken) : bool :=
  (st_session_id (stop_state resulting) =? st_session_id (stop_state prior))
  && bool_decide (checked_add u64_max (st_generation (stop_state prior)) 1
                  = Some (st_generation (stop_state resulting)))
  && bool_decide (checked_add u64_max (stop_id prior) 1 = Some (stop_id resulting)).

(** A [usize] length always fits [u64]. *)
Definition validate_image_span (address size : Z) (h : LivePatchHistory)
    : result unit LivePatchHistoryError :=
  let? _rva := map_err LPE.InvalidImageSpan
                 (rva_for_address_span (lh_binding h) address size) in
  Ok tt.

(** ** Reservation and dispatch *)

Definition begin_forward_write (session_id : Z) (binding : LiveTargetBinding) (stop : StopToken)
    (address : Z) (before after : list Z) : history_op unit :=
  do! require_ready_context session_id binding stop in
  do! slift (validate_patch_bytes before after) in
  do! sread (validate_image_span address (zlen before)) in
  do! sread (λ h, fail_if (MAX_LIVE_PATCH_HISTORY_ENTRIES <=? zlen (lh_entries h))
                    (LPE.EntryLimit MAX_LIVE_PATCH_HISTORY_ENTRIES)) in
  let added := zlen before + zlen after in
  let! prospective := sread (λ h, ok_or (checked_add usize_max (lh_stored_bytes h) added)
                                    (LPE.ByteLimit usize_max
                                       MAX_LIVE_PATCH_HISTORY_STORED_BYTES)) in
  do! slift (fail_if (MAX_LIVE_PATCH_HISTORY_STORED_BYTES <? prospective)
               (LPE.ByteLimit prospective MAX_LIVE_PATCH_HISTORY_STORED_BYTES)) in
  do! supd (lh_set_last_stop (Some stop)) in
  supd (lh_set_pending (Some (mkPendingLivePatchOperation ForwardWrite Reserved stop address
                                before after))).

Definition begin_undo (session_id : Z) (binding : LiveTargetBinding) (current_stop : StopToken)
    : history_op unit :=
  do! require_ready_context session_id binding current_stop in
  let! entry := sread (λ h, ok_or (list.last (lh_entries h)) LPE.NothingToUndo) in
  do! sread (validate_image_span (le_address entry) (zlen (le_after entry))) in
  do! supd (lh_set_last_stop (Some current_stop)) in
  supd (lh_set_pending (Some (mkPendingLivePatchOperation Undo Reserved current_stop
                                (le_address entry) (le_after entry) (le_before entry)))).

Definition mark_for_dispatch : history_op DebugCommand :=
  do! require_not_frozen in
  let! pending := sread (λ h, ok_or (lh_pending h) LPE.NoPendingOperation) in
  do! slift (fail_if (bool_decide (po_phase pending = Dispatched))
               LPE.OperationAlreadyDispatched) in
  do! supd (lh_set_pending (Some (po_set_phase Dispatched pending))) in
  sret (po_command pending).

Definition cancel_before_dispatch : history_op unit :=
  do! require_not_frozen in
  let! pending := sread (λ h, ok_or (lh_pending h) LPE.NoPendingOperation) in
  do! slift (fail_if (bool_decide (po_phase pending = Dispatched)) LPE.CannotCancelDispatched) in
  supd (lh_set_pending None).

(** ** Resolution *)

(** [self.pending.take().expect(...)]. *)
Definition take_pending (msg : string) : history_op PendingLivePatchOperation :=
  let! pending := sread (λ h, expect_some (lh_pending h) msg) in
  do! supd (lh_set_pending None) in
  sret pending.

Definition freeze (receipt_command_id : option Z) (cause : LivePatchFreezeCause)
    : history_op LivePatchResolution :=
  let! pending := take_pending "pending checked before freeze" in
  do! supd (lh_set_freeze (Some (mkLivePatchFreezeEvidence pending receipt_command_id cause))) in
  sret LPR.Frozen.

Definition freeze_mismatch (command_id : Z) (mismatch : LivePatchReceiptMismatch)
    : history_op LivePatchResolution :=
  freeze (Some command_id) (ReceiptMismatch mismatch).

Definition clear_safe_rejection (command_id : Z) : history_op unit :=
  do! supd (lh_set_last_receipt (Some command_id)) in
  let! pending := take_pending "pending checked before rejection" in
  supd (lh_set_last_stop (Some (po_stop pending))).

Definition assert_eq {A} `{EqDecision A} (a b : A) : history_op unit :=
  slift (if bool_decide (a = b) then Ok tt else Panic "assertion failed: left == right").

Definition commit_success (command_id : Z) (resulting_stop : StopToken)
    : history_op LivePatchResolution :=
  let! pending := take_pending "pending checked before commit" in
  do! supd (lh_set_last_receipt (Some command_id)) in
  do! supd (lh_set_last_stop (Some resulting_stop)) in
  match po_kind pending with
  | ForwardWrite =>
      let entry := {| le_address := po_address pending;
                      le_before := po_expected pending;
                      le_after := po_replacement pending;
                      le_applied_stop := po_stop pending;
                      le_resulting_stop := resulting_stop;
                      le_command_id := command_id |} in
      let! stored := sread (λ h, expect_some (checked_add usize_max (lh_stored_bytes h)
                                                (entry_stored_bytes entry))
                                   "attempt to add with overflow") in
      do! supd (lh_set_stored_bytes stored) in
      do! supd (λ h, lh_set_entries (lh_entries h ++ [entry]) h) in
      sret (LPR.ForwardCommitted entry)
  | Undo =>
      let! entry := sread (λ h, expect_some (list.last (lh_entries h))
                                  "undo reservation requires a history entry") in
      do! supd (λ h, lh_set_entries (removelast (lh_entries h)) h) in
      do! assert_eq (le_address entry) (po_address pending) in
      do! assert_eq (le_after entry) (po_expected pending) in
      do! assert_eq (le_before entry) (po_replacement pending) in
      let! stored := sread (λ h, expect_some (checked_sub (lh_stored_bytes h)
                                                (entry_stored_bytes entry))
                                   "attempt to subtract with overflow") in
      do! supd (lh_set_stored_bytes stored) in
      sret (LPR.UndoCommitted entry)
  end.

(** What a receipt means when nothing is pending. *)
Definition no_pending_error (last : option Z) (command_id : Z) : LivePatchHistoryError :=
  match last with
  | Some last =>
      if command_id =? last then LPE.DuplicateReceipt command_id
      else if command_id <? last then LPE.OutOfOrderReceipt last command_id
      else LPE.NoPendingOperation
  | None => LPE.NoPendingOperation
  end.

Definition stale_receipt (last : option Z) (command_id : Z) : option LivePatchReceiptMismatch :=
  match last with
  | Some previous =>
      if command_id <=? previous then Some (LPM.NonMonotonicCommandId previous command_id)
      else None
  | None => None
  end.

(** The dispatched operation a receipt for [command_id] resolves. *)
Definition dispatched_for (command_id : Z) : history_op PendingLivePatchOperation :=
  do! require_not_frozen in
  let! pending := sread (λ h, ok_or (lh_pending h)
                                (no_pending_error (lh_last_receipt_command_id h) command_id)) in
  do! slift (fail_if (negb (bool_decide (po_phase pending = Dispatched)))
               LPE.OperationNotDispatched) in
  sret pending.

(** ** Receipt inspection *)

(** The locals of [ReceiptScan::inspect]; all but the two counters of command
    results are the fields of [ReceiptScan]. *)
Record ReceiptScan : Type := mkReceiptScan {
  rs_memory_written : bool;
  rs_failure : option MemoryWriteFailure;
  rs_states : list SessionState;
  rs_state_changes : Z;
  rs_command_result_state : option StateToken;
  rs_unexpected_effect : bool;
  rs_command_results : Z;
  rs_result_index : option Z
}.

Definition ReceiptScan_empty : ReceiptScan := mkReceiptScan false None [] 0 None false 0 None.

(** One turn of the loop over the events. *)
Definition scan_event (session_id : Z) (pending : PendingLivePatchOperation)
    (receipt : CommandReceipt) (index : Z) (envelope : EventEnvelope) (s : ReceiptScan)
    : result ReceiptScan LivePatchReceiptMismatch :=
  do? fail_if (negb (bool_decide (ee_caused_by envelope = Some (cre_command_id receipt))))
        LPM.EventCorrelation in
  do? fail_if (negb (bool_decide (ee_session_id envelope = Some session_id)))
        LPM.EventSession in
  let 'mkReceiptScan written failure states changes result_state unexpected results at_index := s
  in
  match ee_event envelope with
  | DE.CommandResult command_id outcome =>
      do? fail_if (negb (command_id =? cre_command_id receipt)
                   || negb (bool_decide (outcome = cre_outcome receipt)))
            LPM.CommandResultMismatch in
      Ok (mkReceiptScan written failure states changes (ee_state envelope) unexpected
            (results + 1) (Some index))
  | DE.MemoryWritten stop address before after =>
      do? fail_if written LPM.DuplicateWriteEvidence in
      do? fail_if (negb (bool_decide (stop = po_stop pending))
                   || negb (address =? po_address pending)
                   || negb (bool_decide (before = po_expected pending))
                   || negb (bool_decide (after = po_replacement pending))
                   || negb (bool_decide (ee_state envelope
                                         = Some (stop_state (po_stop pending)))))
            LPM.WriteEvidenceMismatch in
      Ok (mkReceiptScan true failure states changes result_state unexpected results at_index)
  | DE.MemoryWriteFailed actual =>
      do? fail_if (bool_decide (is_Some failure)) LPM.DuplicateFailureEvidence in
      do? fail_if (negb (bool_decide (mwf_stop actual = po_stop pending))
                   || negb (mwf_address actual =? po_address pending)
                   || negb (mwf_size actual =? zlen (po_expected pending))
                   || negb (bool_decide (ee_state envelope
                                         = Some (stop_state (po_stop pending))))
                   || negb (is_ok (write_failure_validate actual)))
            LPM.FailureEvidenceMismatch in
      Ok (mkReceiptScan written (Some actual) states changes result_state unexpected results
            at_index)
  | DE.StateChanged state =>
      do? fail_if (negb (bool_decide (ee_state envelope = Some (state_token state))))
            LPM.StateEvidenceMismatch in
      Ok (mkReceiptScan written failure (states ++ [state]) (changes + 1) result_state unexpected
            results at_index)
  | DE.Warning _ _ => Ok s
  | DE.Capabilities _ | DE.LiveTargetBound _ _ | DE.MemoryRead _ _ _ | DE.RegistersRead _ _ _
  | DE.RegistersWritten _ _ _ _ | DE.BreakpointChanged _ _ _ | DE.SandboxAttested _
  | DE.SandboxLifecycle _ =>
      Ok (mkReceiptScan written failure states changes result_state true results at_index)
  end.

Fixpoint scan_events (session_id : Z) (pending : PendingLivePatchOperation)
    (receipt : CommandReceipt) (index : Z) (events : list EventEnvelope) (s : ReceiptScan)
    : result ReceiptScan LivePatchReceiptMismatch :=
  match events with
  | [] => Ok s
  | envelope :: events' =>
      let? s' := scan_event session_id pending receipt index envelope s in
      scan_events session_id pending receipt (index + 1) events' s'
  end.

Definition scan_inspect (session_id : Z) (pending : PendingLivePatchOperation)
    (receipt : CommandReceipt) : result ReceiptScan LivePatchReceiptMismatch :=
  do? fail_if (bool_decide (cre_events receipt = [])) LPM.EmptyReceipt in
  let? s := scan_events session_id pending receipt 0 (cre_events receipt) ReceiptScan_empty in
  do? fail_if (negb (rs_command_results s =? 1)) LPM.CommandResultCount in
  do? fail_if (negb (bool_decide (rs_result_index s = Some (zlen (cre_events receipt) - 1))))
        LPM.CommandResultNotLast in
  Ok s.

Definition indeterminate_state_evidence_matches (s : ReceiptScan)
    (pending : PendingLivePatchOperation) (failure : MemoryWriteFailure) : bool :=
  match rs_states s with
  | [SS.Stopped refreshed _ _; SS.Failed token message] =>
      is_exact_successor_stop (po_stop pending) refreshed
      && (st_session_id token =? st_session_id (stop_state (po_stop pending)))
      && bool_decide (checked_add u64_max (st_generation (stop_state refreshed)) 1
                      = Some (st_generation token))
      && bool_decide (rs_command_result_state s = Some token)
      && bool_decide (message = mwf_detail failure)
  | _ => false
  end.

Definition success_stop (s : ReceiptScan) (pending : PendingLivePatchOperation)
    : option StopToken :=
  match rs_states s with
  | [SS.Stopped token _ _] =>
      if is_exact_successor_stop (po_stop pending) token
         && bool_decide (rs_command_result_state s = Some (stop_state token))
      then Some token else None
  | _ => None
  end.

(** The state changes a rejection without effect may report: none, and a
    result at the state the operation was issued for. *)
Definition unchanged_state (s : ReceiptScan) (pending : PendingLivePatchOperation) : bool :=
  (rs_state_changes s =? 0)
  && bool_decide (rs_command_result_state s = Some (stop_state (po_stop pending))).

Definition resolve_success (command_id : Z) (s : ReceiptScan)
    (pending : PendingLivePatchOperation) : history_op LivePatchResolution :=
  if bool_decide (is_Some (rs_failure s))
  then freeze_mismatch command_id LPM.FailureReportedAsSuccess
  else if rs_unexpected_effect s then freeze_mismatch command_id LPM.UnexpectedSuccessEffect
  else if negb (rs_memory_written s)
  then freeze_mismatch command_id LPM.MissingSuccessEvidence
  else match success_stop s pending with
       | Some resulting_stop => commit_success command_id resulting_stop
       | None => freeze_mismatch command_id LPM.UnexpectedSuccessEffect
       end.

Definition resolve_rejection (command_id : Z) (code message : list Z) (s : ReceiptScan)
    (pending : PendingLivePatchOperation) : history_op LivePatchResolution :=
  if rs_memory_written s then freeze_mismatch command_id LPM.ContradictoryWriteEvidence
  else match rs_failure s with
  | None =>
      if bool_decide (code = MEMORY_WRITE_FAILURE_REJECTION_CODE)
      then freeze_mismatch command_id LPM.ReservedFailureCodeWithoutEvidence
      else if negb (unchanged_state s pending) || rs_unexpected_effect s
      then freeze_mismatch command_id LPM.RejectionProducedEffect
      else do! clear_safe_rejection command_id in sret LPR.RejectedNoEffect
  | Some failure =>
      if negb (bool_decide (code = MEMORY_WRITE_FAILURE_REJECTION_CODE))
         || negb (bool_decide (message = mwf_detail failure))
      then freeze_mismatch command_id LPM.FailureEvidenceMismatch
      else if rs_unexpected_effect s then freeze_mismatch command_id LPM.RejectionProducedEffect
      else if is_rollback_safe (mwf_recovery failure) then
        if negb (unchanged_state s pending)
        then freeze_mismatch command_id LPM.SafeFailureProducedStateChange
        else do! clear_safe_rejection command_id in sret LPR.RejectedNoEffect
      else if indeterminate_state_evidence_matches s pending failure
      then freeze (Some command_id) (IndeterminateWrite failure)
      else freeze_mismatch command_id LPM.IndeterminateStateEvidenceMismatch
  end.

Definition resolve_receipt (session_id : Z) (binding : LiveTargetBinding)
    (receipt : CommandReceipt) : history_op LivePatchResolution :=
  let command_id := cre_command_id receipt in
  let! pending := dispatched_for command_id in
  let! own_session := sget lh_session_id in
  let! own_binding := sget lh_binding in
  let! last := sget lh_last_receipt_command_id in
  if negb (session_id =? own_session) then freeze_mismatch command_id LPM.SessionDrift
  else if negb (bool_decide (binding = own_binding))
  then freeze_mismatch command_id LPM.TargetDrift
  else match stale_receipt last command_id with
  | Some mismatch => freeze_mismatch command_id mismatch
  | None =>
      match scan_inspect own_session pending receipt with
      | Ok scan =>
          match cre_outcome receipt with
          | CommandOutcome.Succeeded => resolve_success command_id scan pending
          | CommandOutcome.Rejected code message =>
              resolve_rejection command_id code message scan pending
          end
      | Err mismatch => freeze_mismatch command_id mismatch
      | Panic msg => slift (Panic msg)
      end
  end.

Definition resolve_local_receipt (receipt : ValidatedLocalLivePatchReceipt)
    : history_op LivePatchResolution :=
  let write := pr_write receipt in
  let command_id := lw_command_id write in
  let! pending := dispatched_for command_id in
  let! own_session := sget lh_session_id in
  let! own_binding := sget lh_binding in
  let! last := sget lh_last_receipt_command_id in
  if negb (st_session_id (stop_state (lw_stop write)) =? own_session)
  then freeze_mismatch command_id LPM.SessionDrift
  else if negb (bool_decide (lw_binding write = own_binding))
  then freeze_mismatch command_id LPM.TargetDrift
  else match stale_receipt last command_id with
  | Some mismatch => freeze_mismatch command_id mismatch
  | None =>
      if negb (bool_decide (po_stop pending = lw_stop write))
         || negb (po_address pending =? lw_address write)
         || negb (bool_decide (po_expected pending = lw_expected write))
         || negb (bool_decide (po_replacement pending = lw_replacement write))
      then freeze_mismatch command_id LPM.WriteEvidenceMismatch
      else match pr_resolution receipt with
      | Committed resulting_stop =>
          if negb (is_exact_successor_stop (po_stop pending) resulting_stop)
          then freeze_mismatch command_id LPM.StateEvidenceMismatch
          else commit_success command_id resulting_stop
      | RejectedNoEffect =>
          do! clear_safe_rejection command_id in sret LPR.RejectedNoEffect
      end
  end.

Definition mark_transport_outcome_unknown : history_op LivePatchResolution :=
  do! require_dispatched_pending in
  freeze None TransportOutcomeUnknown.
