(* ===== verification/SessionInvariant.v ===== *)
(** The invariant of the session reducer of [SessionMachine.v] and its
    preservation by every call.

    A call ends in [step_ok] or [step_err]: either way the invariant holds
    again and the identity and watermark fields only move forward; an error
    leaves everything the session shows of itself untouched, a success either
    keeps it, moves it to a successor the wire contract admits, or restores a
    checkpoint. *)

From S2P Require Import Prelude Identity Sandbox SandboxPolicyTheory SandboxLifecycle Protocol.
From S2P Require Import ProtocolTheory Authorization SessionMachine.
Open Scope Z_scope.

(** ** The invariant *)

(** The five fields a checkpoint can restore. *)
Record Visible : Type := mkVisible {
  v_state : SessionState;
  v_target : option DebugTargetRequest;
  v_gate : ExecutionGate;
  v_sandbox : option SandboxMachine;
  v_inherited : option SandboxOwnershipBinding
}.

Definition visible (m : SessionMachine) : Visible :=
  mkVisible (m_state m) (m_target m) (m_execution_gate m) (m_sandbox m)
    (m_inherited_sandbox m).

Definition cp_visible (c : RemoteCommandCheckpoint) : Visible :=
  mkVisible (cp_state c) (cp_target c) (cp_execution_gate c) (cp_sandbox c)
    (cp_inherited_sandbox c).

(** The sandbox reducer, when there is one, is in one of these states. *)
Definition in_phase (sb : option SandboxMachine) (l : list SandboxLifecycleState) : Prop :=
  match sb with Some s => sm_state s ∈ l | None => True end.

(** Targets that need a host-risk lease. *)
Definition host_target (t : DebugTargetRequest) : Prop :=
  match t with
  | DTR.Launch l => ∃ lease, lt_environment l = HostEnvironment lease
  | DTR.Attach a => ∃ p lease, att_scope a = HostScope p lease
  | _ => False
  end.

Definition gate_allows_execution (g : ExecutionGate) : Prop :=
  g = HostRiskAccepted ∨ g = InheritedSandbox ∨ g = SandboxAccepted.

(** How the visible state, the target and the sandbox go together. *)
Definition phase_ok (v : Visible) : Prop :=
  let sb := v_sandbox v in
  match v_state v with
  | SS.Idle _ => v_target v = None
  | SS.Opening _ t =>
      v_target v = Some t ∧ v_gate v ≠ SandboxAccepted ∧ in_phase sb [SLS.Provisioning]
  | SS.AwaitingAttestation _ p =>
      v_gate v = SandboxPending ∧ in_phase sb [SLS.TargetCreatedSuspended]
      ∧ (sb ≫= created_process) = Some p
  | SS.AttestationAccepted _ =>
      v_gate v = SandboxAccepted ∧ in_phase sb [SLS.AttestationAccepted]
  | SS.Offline _ => ∃ o, v_target v = Some (DTR.Offline o)
  | SS.Dump _ => ∃ d, v_target v = Some (DTR.Dump d)
  | SS.Snapshot _ _ => False
  | SS.Observing _ _ =>
      ∃ a, v_target v = Some (DTR.Attach a) ∧ att_mode a = ObserveReadOnly
  | SS.Stopped _ _ _ =>
      gate_allows_execution (v_gate v)
      ∧ (∃ t, v_target v = Some t ∧ is_debug_target t = true)
      ∧ in_phase sb [SLS.AttestationAccepted; SLS.Running]
  | SS.Running _ | SS.Pausing _ =>
      gate_allows_execution (v_gate v)
      ∧ (∃ t, v_target v = Some t ∧ is_debug_target t = true)
      ∧ in_phase sb [SLS.Running]
  | SS.Closing _ | SS.Failed _ _ => in_phase sb [SLS.Cleanup]
  | SS.Exited _ _ =>
      gate_allows_execution (v_gate v) ∧ in_phase sb [SLS.Cleanup]
  | SS.Detached _ => v_gate v = HostRiskAccepted
  | SS.Closed _ => in_phase sb [SLS.Closed]
  end.

(** Where the authority of the accepted target came from. *)
Definition gate_ok `{Sha256} (sid : Z) (epoch helper : list Z) (v : Visible) : Prop :=
  match v_gate v with
  | NotApplicable =>
      v_sandbox v = None ∧ v_inherited v = None
      ∧ (v_target v = None ∨ (∃ d, v_target v = Some (DTR.Dump d))
         ∨ ∃ o, v_target v = Some (DTR.Offline o))
  | HostRiskAccepted =>
      v_sandbox v = None ∧ v_inherited v = None
      ∧ ∃ t, v_target v = Some t ∧ host_target t
  | InheritedSandbox =>
      v_sandbox v = None
      ∧ ∃ b a lease, v_inherited v = Some b ∧ v_target v = Some (DTR.Attach a)
          ∧ att_scope a = OwnedSandbox (sob_process b) lease ∧ sob_mode b = att_mode a
          ∧ sob_session_id b = sid ∧ sob_provisioning_epoch b = epoch
  | SandboxPending | SandboxAccepted =>
      v_inherited v = None
      ∧ ∃ s t policy ex, v_sandbox v = Some s ∧ v_target v = Some (DTR.Launch t)
          ∧ lt_environment t = Sandboxed policy ∧ sp_session_id policy = sid
          ∧ from_policy (lt_binary_id t) policy helper epoch = Ok ex ∧ sandbox_inv ex s
          ∧ (sm_accepted_attestation s = None ↔ v_gate v = SandboxPending)
  end.

(** The live token is not ahead of the identifier watermarks. *)
Definition token_bounded (stop run : Z) (s : SessionState) : Prop :=
  match s with
  | SS.Stopped t _ _ => 1 ≤ stop_id t ≤ stop
  | SS.Running t => 1 ≤ run_id t ≤ run
  | _ => True
  end.

Record visible_ok `{Sha256} (sid : Z) (epoch helper : list Z) (stop run : Z) (v : Visible)
    : Prop := {
  vo_session : st_session_id (state_token (v_state v)) = sid;
  vo_generation : 1 ≤ st_generation (state_token (v_state v)) ≤ u64_max;
  vo_phase : phase_ok v;
  vo_gate : gate_ok sid epoch helper v;
  vo_token : token_bounded stop run (v_state v)
}.

(** Registered verifiers sit under their own identifier and belong to this
    session and provisioning epoch. *)
Record registries_ok (m : SessionMachine) : Prop := {
  ro_host : ∀ id v, m_host_risk_leases m !! id = Some (Some v) →
    hrv_id v = id ∧ hrv_session_id v = m_session_id m
    ∧ hrv_provisioning_epoch v = m_provisioning_epoch m;
  ro_owned : ∀ id v, m_sandbox_ownership_leases m !! id = Some (Some v) →
    sov_id v = id ∧ sob_session_id (sov_binding v) = m_session_id m
    ∧ sob_provisioning_epoch (sov_binding v) = m_provisioning_epoch m;
  ro_host_size : Z.of_nat (size (m_host_risk_leases m)) ≤ MAX_REGISTERED_AUTHORIZATION_LEASES;
  ro_owned_size :
    Z.of_nat (size (m_sandbox_ownership_leases m)) ≤ MAX_REGISTERED_AUTHORIZATION_LEASES
}.

Record session_inv `{Sha256} (m : SessionMachine) : Prop := {
  inv_visible : visible_ok (m_session_id m) (m_provisioning_epoch m) (m_helper_build m)
                  (m_last_stop_id m) (m_last_run_id m) (visible m);
  inv_stop : 0 ≤ m_last_stop_id m ≤ u64_max;
  inv_run : 0 ≤ m_last_run_id m ≤ u64_max;
  inv_registries : registries_ok m;
  inv_pending : ∀ c, m_pending_remote_command m = Some c → m_last_command_id m = Some c
}.

(** Identity fields are constant and watermarks never move back. *)
Record extends (m m' : SessionMachine) : Prop := {
  ext_instance : m_reducer_instance m' = m_reducer_instance m;
  ext_session : m_session_id m' = m_session_id m;
  ext_epoch : m_provisioning_epoch m' = m_provisioning_epoch m;
  ext_helper : m_helper_build m' = m_helper_build m;
  ext_command : ∀ c, m_last_command_id m = Some c →
    ∃ c', m_last_command_id m' = Some c' ∧ c ≤ c';
  ext_stop : m_last_stop_id m ≤ m_last_stop_id m';
  ext_run : m_last_run_id m ≤ m_last_run_id m'
}.

(** No entry of [b] holds a grant that [a] did not hold. *)
Definition no_new_grants {V} (a b : gmap (list Z) (option V)) : Prop :=
  ∀ id v, b !! id = Some (Some v) → a !! id = Some (Some v).

Record step_err `{Sha256} (m m' : SessionMachine) : Prop := {
  err_inv : session_inv m';
  err_extends : extends m m';
  err_visible : visible m' = visible m;
  err_pending : m_pending_remote_command m' = m_pending_remote_command m;
  err_host : no_new_grants (m_host_risk_leases m) (m_host_risk_leases m');
  err_owned : no_new_grants (m_sandbox_ownership_leases m) (m_sandbox_ownership_leases m')
}.

Record step_ok `{Sha256} (m m' : SessionMachine) : Prop := {
  ok_inv : session_inv m';
  ok_extends : extends m m';
  ok_moves : m_state m' = m_state m ∨ validate_successor (m_state m) (m_state m') = Ok tt
}.

(** ** Rules for the reducer's helpers *)

Lemma extends_refl m : extends m m.
Proof. split; naive_solver lia. Qed.

Lemma extends_trans m1 m2 m3 : extends m1 m2 → extends m2 m3 → extends m1 m3.
Proof.
  intros [] []. split; try congruence; try lia.
  intros c Hc. edestruct ext_command0 as (c' & Hc' & ?); [done|].
  edestruct ext_command1 as (c'' & Hc'' & ?); [done|]. exists c''. split; [done|lia].
Qed.

Lemma wp_require_state action allowed Q QE m :
  (state_kind (m_state m) ∈ allowed → Q tt m) →
  (∀ e, QE e m) →
  wp (require_state action allowed) Q QE m.
Proof. intros H1 H2. unfold wp, require_state, sread. case_bool_decide; auto. Qed.

Lemma wp_require_open_target action f Q QE m :
  (state_kind (m_state m) = SSK.Opening →
   ∀ t, m_target m = Some t → f t = true → Q tt m) →
  (∀ e, QE e m) →
  wp (require_open_target action f) Q QE m.
Proof.
  intros H1 H2. unfold require_open_target. apply wp_bind, wp_require_state; [|done].
  intros Hk. assert (state_kind (m_state m) = SSK.Opening) as Hk' by set_solver.
  unfold wp, sread. destruct (m_target m) as [t|] eqn:Ht; [|done].
  unfold fail_if. destruct (f t) eqn:Hf; simpl; eauto.
Qed.

Lemma wp_next_state_token Q QE m :
  0 ≤ st_generation (state_token (m_state m)) →
  (st_generation (state_token (m_state m)) + 1 ≤ u64_max →
   Q (mkStateToken (m_session_id m) (st_generation (state_token (m_state m)) + 1)) m) →
  (∀ e, QE e m) →
  wp next_state_token Q QE m.
Proof.
  intros H0 H1 H2. unfold wp, next_state_token, sread, checked_next, checked_add.
  destruct (Z.leb_spec (st_generation (state_token (m_state m)) + 1) u64_max); simpl; [|done].
  unfold StateGeneration_new, nonzero_id_new.
  destruct (Z.eqb_spec (st_generation (state_token (m_state m)) + 1) 0); [lia|]. simpl. auto.
Qed.

Lemma wp_transition_to next Q QE m :
  (validate_successor (m_state m) next = Ok tt → Q tt (set_state next m)) →
  (∀ e, validate_successor (m_state m) next ≠ Ok tt → QE e m) →
  wp (transition_to next) Q QE m.
Proof.
  intros H1 H2. unfold wp, transition_to, sbind, sread, supd.
  destruct (validate_successor _ _) as [[]|e|p] eqn:Hv; simpl; auto.
  exfalso. revert Hv. unfold validate_successor.
  unfold fail_if, ok_or. repeat (case_match; simpl; try done).
Qed.

Lemma wp_allocate_stop_token st Q QE m :
  0 ≤ m_last_stop_id m →
  (m_last_stop_id m + 1 ≤ u64_max →
   Q (mkStopToken st (m_last_stop_id m + 1)) (set_last_stop_id (m_last_stop_id m + 1) m)) →
  (∀ e, QE e m) →
  wp (allocate_stop_token st) Q QE m.
Proof.
  intros H0 H1 H2. unfold wp, allocate_stop_token, sbind, sread, supd, sret, checked_add.
  destruct (Z.leb_spec (m_last_stop_id m + 1) u64_max); simpl; [|done].
  unfold StopId_new, nonzero_id_new. simpl.
  destruct (Z.eqb_spec (m_last_stop_id m + 1) 0); [lia|]. simpl. auto.
Qed.

Lemma wp_allocate_run_token st Q QE m :
  0 ≤ m_last_run_id m →
  (m_last_run_id m + 1 ≤ u64_max →
   Q (mkRunToken st (m_last_run_id m + 1)) (set_last_run_id (m_last_run_id m + 1) m)) →
  (∀ e, QE e m) →
  wp (allocate_run_token st) Q QE m.
Proof.
  intros H0 H1 H2. unfold wp, allocate_run_token, sbind, sread, supd, sret, checked_add.
  destruct (Z.leb_spec (m_last_run_id m + 1) u64_max); simpl; [|done].
  unfold RunId_new, nonzero_id_new. simpl.
  destruct (Z.eqb_spec (m_last_run_id m + 1) 0); [lia|]. simpl. auto.
Qed.

Lemma set_sandbox_id m sb : m_sandbox m = sb → set_sandbox sb m = m.
Proof. destruct m; simpl. by intros ->. Qed.

Lemma wp_on_sandbox {A} none (c : sandbox_op A) G f Q QE m :
  guarded c G f →
  (∀ sb, m_sandbox m = Some sb → G sb → Q tt (set_sandbox (Some (f sb)) m)) →
  (∀ sb e, m_sandbox m = Some sb → ¬ G sb → QE e m) →
  (m_sandbox m = None → match none with Ok _ => Q tt m | Err e => QE e m | Panic _ => False end) →
  wp (on_sandbox none c) Q QE m.
Proof.
  intros Hc H1 H2 H3. unfold wp, on_sandbox.
  destruct (m_sandbox m) as [sb|] eqn:Hsb; [|destruct none as [[]| |]; auto].
  specialize (Hc sb). unfold wp in Hc. destruct (c sb) as [[a|e|p] s']; simpl.
  - destruct Hc as [? ->]. auto.
  - destruct Hc as [? ->]. rewrite set_sandbox_id by done. eauto.
  - done.
Qed.

(** The calls the session makes, without the result they discard. *)
Lemma guarded_unbind {S E A} (c : smonad S E A) G f :
  guarded (do! c in sret tt) G f → guarded c G f.
Proof.
  intros H s. specialize (H s). unfold wp, sbind, sret in *.
  by destruct (c s) as [[] ?].
Qed.

Lemma guarded_created p :
  guarded (sm_target_created_suspended p) (call_guard (CallTargetCreated p))
    (call_effect (CallTargetCreated p)).
Proof. apply guarded_unbind, (sandbox_call_guarded (CallTargetCreated p)). Qed.
Lemma guarded_attest a :
  guarded (accept_attestation a) (call_guard (CallAcceptAttestation a))
    (call_effect (CallAcceptAttestation a)).
Proof. apply guarded_unbind, (sandbox_call_guarded (CallAcceptAttestation a)). Qed.
Lemma guarded_running :
  guarded sm_mark_running (call_guard CallMarkRunning) (call_effect CallMarkRunning).
Proof. apply guarded_unbind, (sandbox_call_guarded CallMarkRunning). Qed.
Lemma guarded_cleanup :
  guarded begin_cleanup (call_guard CallBeginCleanup) (call_effect CallBeginCleanup).
Proof. apply guarded_unbind, (sandbox_call_guarded CallBeginCleanup). Qed.
Lemma guarded_close r :
  guarded (sm_close r) (call_guard (CallClose r)) (call_effect (CallClose r)).
Proof. apply guarded_unbind, (sandbox_call_guarded (CallClose r)). Qed.
Lemma guarded_not_created :
  guarded record_target_not_created (call_guard CallRecordNotCreated)
    (call_effect CallRecordNotCreated).
Proof. apply (sandbox_call_guarded CallRecordNotCreated). Qed.
Lemma guarded_retain o :
  guarded (retain_failure_target_creation o) (call_guard (CallRetainFailure o))
    (call_effect (CallRetainFailure o)).
Proof. apply (sandbox_call_guarded (CallRetainFailure o)). Qed.

(** [mark_failed] followed by [begin_cleanup], as the session calls them. *)
Lemma guarded_failed :
  guarded (do! sm_mark_failed in begin_cleanup) (call_guard CallMarkFailed)
    (call_effect CallBeginCleanup).
Proof.
  intros m. apply wp_bind.
  eapply wp_mono; [apply (guarded_unbind _ _ _ (sandbox_call_guarded CallMarkFailed) m)|..].
  - intros ? s' [HG ->]. unfold wp, begin_cleanup. simpl. done.
  - intros ? s' [HG ->]. done.
Qed.

Create HintDb guarded.
#[export] Hint Resolve guarded_created guarded_attest guarded_running guarded_cleanup
  guarded_close guarded_not_created guarded_retain guarded_failed : guarded.

(** ** Framing *)

Section preservation.
Context `{Sha256}.

Definition preserves {E A} (c : smonad SessionMachine E A) : Prop :=
  ∀ m, session_inv m → wp c (λ _ m', step_ok m m') (λ _ m', step_err m m') m.

Lemma step_err_refl m : session_inv m → step_err m m.
Proof. intros Hm. split; [done|apply extends_refl|done|done| |]; by intros ??. Qed.

Lemma step_ok_refl m : session_inv m → step_ok m m.
Proof. intros Hm. split; [done|apply extends_refl|by left]. Qed.

Lemma visible_ok_mono sid ep h stop run stop' run' v :
  visible_ok sid ep h stop run v → stop ≤ stop' → run ≤ run' →
  visible_ok sid ep h stop' run' v.
Proof.
  intros [] ??. split; [done..|]. destruct (v_state v); simpl in *; lia.
Qed.

(** Everything but the visible fields and the two token watermarks. *)
Record same_frame (m m' : SessionMachine) : Prop := {
  sf_instance : m_reducer_instance m' = m_reducer_instance m;
  sf_sid : m_session_id m' = m_session_id m;
  sf_epoch : m_provisioning_epoch m' = m_provisioning_epoch m;
  sf_helper : m_helper_build m' = m_helper_build m;
  sf_command : m_last_command_id m' = m_last_command_id m;
  sf_pending : m_pending_remote_command m' = m_pending_remote_command m;
  sf_host : m_host_risk_leases m' = m_host_risk_leases m;
  sf_owned : m_sandbox_ownership_leases m' = m_sandbox_ownership_leases m;
  sf_stop : m_last_stop_id m ≤ m_last_stop_id m' ≤ u64_max;
  sf_run : m_last_run_id m ≤ m_last_run_id m' ≤ u64_max
}.

Lemma same_frame_extends m m' : same_frame m m' → extends m m'.
Proof.
  intros []. split; try done; try lia. intros c Hc. exists c. split; [congruence|lia].
Qed.

Lemma same_frame_registries m m' : same_frame m m' → registries_ok m → registries_ok m'.
Proof.
  intros [] [R1 R2 R3 R4]. split.
  - intros id v. rewrite sf_host0, sf_sid0, sf_epoch0. apply R1.
  - intros id v. rewrite sf_owned0, sf_sid0, sf_epoch0. apply R2.
  - by rewrite sf_host0.
  - by rewrite sf_owned0.
Qed.

Lemma same_frame_inv m m' :
  session_inv m → same_frame m m' →
  visible_ok (m_session_id m) (m_provisioning_epoch m) (m_helper_build m)
    (m_last_stop_id m') (m_last_run_id m') (visible m') →
  session_inv m'.
Proof.
  intros [Hv Hs Hr Hreg Hp] Hf Hv'. pose proof Hf as [].
  split; [congruence|lia|lia|by eapply same_frame_registries|].
  intros c. rewrite sf_pending0, sf_command0. apply Hp.
Qed.

Lemma step_err_frame m m' :
  session_inv m → same_frame m m' → visible m' = visible m → step_err m m'.
Proof.
  intros Hm Hf Hv. split; [|by apply same_frame_extends|done|apply Hf| |].
  - eapply same_frame_inv; [done..|]. rewrite Hv. destruct Hf.
    eapply visible_ok_mono; [apply Hm|lia|lia].
  - intros ??. by rewrite (sf_host _ _ Hf).
  - intros ??. by rewrite (sf_owned _ _ Hf).
Qed.

Lemma step_ok_move m m' :
  session_inv m → same_frame m m' →
  validate_successor (m_state m) (m_state m') = Ok tt →
  phase_ok (visible m') →
  gate_ok (m_session_id m) (m_provisioning_epoch m) (m_helper_build m) (visible m') →
  token_bounded (m_last_stop_id m') (m_last_run_id m') (m_state m') →
  step_ok m m'.
Proof.
  intros Hm Hf Hs Hp Hg Ht. split; [|by apply same_frame_extends|by right].
  eapply same_frame_inv; [done..|]. apply validate_successor_ok in Hs as (H1&H2&H3&_).
  destruct (inv_visible _ Hm) as [V1 V2 _ _ _]. simpl in V1, V2.
  split; simpl; [congruence|lia|done..].
Qed.

(** ** Gates under sandbox updates *)

Lemma sandbox_effect_inv ex c sb :
  sandbox_inv ex sb → call_guard c sb → sandbox_inv ex (call_effect c sb).
Proof.
  intros Hi Hg. pose proof (sandbox_exec_inv ex c sb Hi) as Hi'.
  destruct (guarded_state _ _ _ sb (sandbox_call_guarded c)) as [[_ <-]|[? _]]; done.
Qed.

Lemma gate_ok_state sid ep h v st :
  gate_ok sid ep h v →
  gate_ok sid ep h (mkVisible st (v_target v) (v_gate v) (v_sandbox v) (v_inherited v)).
Proof. done. Qed.

Lemma gate_ok_effect sid ep h v c sb st :
  gate_ok sid ep h v → v_sandbox v = Some sb → call_guard c sb →
  sm_accepted_attestation (call_effect c sb) = sm_accepted_attestation sb →
  gate_ok sid ep h
    (mkVisible st (v_target v) (v_gate v) (Some (call_effect c sb)) (v_inherited v)).
Proof.
  unfold gate_ok. intros Hg Hsb Hc Ha. simpl.
  destruct (v_gate v) eqn:Hv; destruct Hg as [? Hg]; try congruence;
    destruct Hg as (s & t & pol & ex & Hs & ? & ? & ? & ? & ? & ?);
    assert (s = sb) as -> by congruence;
    (split; [done|]); exists (call_effect c sb), t, pol, ex;
    rewrite Ha; split_and?; try done; by apply sandbox_effect_inv.
Qed.

Lemma inv_generation m :
  session_inv m → 0 ≤ st_generation (state_token (m_state m)).
Proof. intros Hm. pose proof (vo_generation _ _ _ _ _ _ (inv_visible _ Hm)). simpl in *. lia. Qed.

Lemma inv_phase m : session_inv m → phase_ok (visible m).
Proof. intros Hm. apply (vo_phase _ _ _ _ _ _ (inv_visible _ Hm)). Qed.
Lemma inv_gate m :
  session_inv m →
  gate_ok (m_session_id m) (m_provisioning_epoch m) (m_helper_build m) (visible m).
Proof. intros Hm. apply (vo_gate _ _ _ _ _ _ (inv_visible _ Hm)). Qed.

(** Reading the gate. *)
Lemma gate_no_sandbox sid ep h v :
  gate_ok sid ep h v → v_gate v ≠ SandboxPending → v_gate v ≠ SandboxAccepted →
  v_sandbox v = None.
Proof. unfold gate_ok. destruct (v_gate v); intros []; naive_solver. Qed.

Lemma gate_sandbox sid ep h v :
  gate_ok sid ep h v → v_gate v = SandboxPending ∨ v_gate v = SandboxAccepted →
  v_inherited v = None ∧ ∃ s l, v_sandbox v = Some s ∧ v_target v = Some (DTR.Launch l)
    ∧ (sm_accepted_attestation s = None ↔ v_gate v = SandboxPending).
Proof.
  unfold gate_ok. intros Hg [Hv|Hv]; rewrite Hv in Hg;
    destruct Hg as (? & s & l & pol & ex & ? & ? & _ & _ & _ & _ & Hacc);
    (split; [done|]); exists s, l; by rewrite Hv.
Qed.

Lemma gate_debug_allows sid ep h v t :
  gate_ok sid ep h v → v_target v = Some t → is_debug_target t = true →
  v_gate v ≠ SandboxPending → gate_allows_execution (v_gate v).
Proof.
  unfold gate_ok, gate_allows_execution. intros Hg Ht Hd Hp.
  destruct (v_gate v); auto; [|done]. destruct Hg as (_ & _ & [?|[[??]|[??]]]); by simplify_eq.
Qed.

Lemma in_phase_weaken sb l l' : in_phase sb l → l ⊆ l' → in_phase sb l'.
Proof. destruct sb; simpl; [set_solver|done]. Qed.

Lemma successor_next m next :
  session_inv m →
  state_token next
    = mkStateToken (m_session_id m) (st_generation (state_token (m_state m)) + 1) →
  st_generation (state_token (m_state m)) + 1 ≤ u64_max →
  state_kind next ∈ successor_kinds (state_kind (m_state m)) →
  validate_successor (m_state m) next = Ok tt.
Proof.
  intros Hm Ht Hg Hk. apply validate_successor_ok. rewrite Ht. simpl.
  destruct (inv_visible _ Hm) as [Hsid _ _ _ _]. simpl in Hsid. auto.
Qed.

(** The sandbox moved to [Cleanup] next to a new session state. *)
Lemma gate_ok_cleanup m st sb :
  session_inv m → m_sandbox m = Some sb → sm_state sb ≠ SLS.Closed →
  gate_ok (m_session_id m) (m_provisioning_epoch m) (m_helper_build m)
    (mkVisible st (m_target m) (m_execution_gate m)
       (Some (call_effect CallBeginCleanup sb)) (m_inherited_sandbox m)).
Proof.
  intros Hm Hsb Hc. by apply (gate_ok_effect _ _ _ (visible m) CallBeginCleanup);
    [apply inv_gate|..].
Qed.
End preservation.

(** ** Tactics *)

(** Symbolic execution of a session method up to its leaves. *)
Ltac session_step :=
  first
    [ apply wp_require_state; [intros|intros]
    | apply wp_require_open_target; [intros|intros]
    | apply wp_next_state_token; [by apply inv_generation|intros|intros]
    | apply wp_transition_to; [intros|intros]
    | apply wp_allocate_stop_token; [by apply inv_stop|intros|intros]
    | apply wp_allocate_run_token; [by apply inv_run|intros|intros]
    | eapply wp_on_sandbox; [solve [auto with guarded]|intros|intros|intros]
    | wp_step ].
Ltac session_wp := repeat session_step.

Ltac frame_tac Hm :=
  destruct (inv_stop _ Hm), (inv_run _ Hm); split; simpl; first [done | lia].

(** The leaves of a symbolic execution: an error that moved at most a
    watermark, and a move whose sandbox was not touched. *)
Ltac err_leaf Hm := apply step_err_frame; [exact Hm|frame_tac Hm|done].
Ltac ok_leaf Hm := apply step_ok_move; [exact Hm|frame_tac Hm|done|unfold phase_ok, visible; simpl| |simpl].

(** The states a guard on the state kind leaves. *)
Ltac kind_cases Hm :=
  pose proof (inv_phase _ Hm) as Hphase; unfold phase_ok in Hphase; simpl in Hphase;
  destruct (m_state _) eqn:Hstate; simpl in *; try set_solver.

(** A move that the kinds allow cannot be refused. *)
Ltac refuted Hm :=
  match goal with
  | Hn : validate_successor _ _ ≠ Ok tt |- _ =>
      exfalso; apply Hn; apply (successor_next _ _ Hm); [done|done|];
      simpl; destruct (state_kind (m_state _)); set_solver
  end.

(** ** The observations a backend reports *)

Section observations.
Context `{Sha256}.

Lemma complete_open_offline_preserves : preserves complete_open_offline.
Proof.
  intros m Hm. unfold complete_open_offline. session_wp; try by err_leaf Hm.
  ok_leaf Hm; [|apply (inv_gate _ Hm)|done].
  destruct t; try done. simpl. eauto.
Qed.

Lemma complete_open_dump_preserves : preserves complete_open_dump.
Proof.
  intros m Hm. unfold complete_open_dump. session_wp; try by err_leaf Hm.
  ok_leaf Hm; [|apply (inv_gate _ Hm)|done].
  destruct t; try done. simpl. eauto.
Qed.

Lemma complete_open_observing_preserves p : preserves (complete_open_observing p).
Proof.
  intros m Hm. unfold complete_open_observing. session_wp; try by err_leaf Hm.
  ok_leaf Hm; [|apply (inv_gate _ Hm)|done].
  destruct t as [|a| |]; try done. simpl in *. autorewrite with rust in *. eauto.
Qed.

Lemma wp_opening_guard action f Q QE m :
  ((state_kind (m_state m) = SSK.Opening → ∃ t, m_target m = Some t ∧ f t = true) → Q tt m) →
  (∀ e, QE e m) →
  wp (if bool_decide (state_kind (m_state m) = SSK.Opening)
      then require_open_target action f else sret tt) Q QE m.
Proof.
  intros H1 H2. case_bool_decide; [|by apply wp_ret, H1].
  apply wp_require_open_target; [|done]. eauto.
Qed.

(** A successful observation also moved the state, and reports it. *)
Definition moved (m : SessionMachine) (s : SessionState) (m' : SessionMachine) : Prop :=
  step_ok m m' ∧ s = m_state m' ∧ validate_successor (m_state m) s = Ok tt.

Lemma mark_stopped_spec r th m :
  session_inv m → wp (mark_stopped r th) (moved m) (λ _ m', step_err m m') m.
Proof.
  intros Hm. unfold mark_stopped.
  session_wp; try by err_leaf Hm. apply wp_opening_guard; [intros Hopen|intros; by err_leaf Hm].
  session_wp; try by err_leaf Hm. split; [|by split]. ok_leaf Hm.
  - pose proof (inv_gate _ Hm) as Hgate. kind_cases Hm.
    + destruct Hphase as (_ & Hacc & _). destruct Hopen as (t & Ht & Hd); [done|].
      assert (m_sandbox m = None) as -> by by apply (gate_no_sandbox _ _ _ _ Hgate).
      split; [by apply (gate_debug_allows _ _ _ _ t Hgate)|split; [eauto|done]].
    + destruct Hphase as (Hacc & Hin).
      destruct (gate_sandbox _ _ _ _ Hgate) as (_ & s & l & _ & Hl & _); [by right|].
      split; [by right; right|]. split; [eauto|]. apply (in_phase_weaken _ _ _ Hin). set_solver.
    + destruct Hphase as (? & ? & Hin). split; [done|]. split; [done|].
      apply (in_phase_weaken _ _ _ Hin). set_solver.
    + destruct Hphase as (? & ? & Hin). split; [done|]. split; [done|].
      apply (in_phase_weaken _ _ _ Hin). set_solver.
  - apply (inv_gate _ Hm).
  - pose proof (inv_stop _ Hm). lia.
Qed.

Lemma inv_gate_allows m :
  session_inv m →
  state_kind (m_state m) ∈ [SSK.AttestationAccepted; SSK.Stopped; SSK.Running; SSK.Pausing] →
  gate_allows_execution (m_execution_gate m).
Proof.
  intros Hm Hk. kind_cases Hm; destruct Hphase as [Hg _]; [|done..]. by right; right.
Qed.

Lemma mark_exited_spec c m :
  session_inv m → wp (mark_exited c) (moved m) (λ _ m', step_err m m') m.
Proof.
  intros Hm. unfold mark_exited. session_wp; try by err_leaf Hm.
  - split; [|by split]. ok_leaf Hm; [|by apply (gate_ok_cleanup m)|done].
    split; [by apply inv_gate_allows|set_solver].
  - refuted Hm.
  - split; [|by split]. ok_leaf Hm; [|apply (inv_gate _ Hm)|done].
    split; [by apply inv_gate_allows|]. by rewrite H2.
Qed.

Lemma mark_stopped_preserves r th : preserves (mark_stopped r th).
Proof. intros m Hm. eapply wp_mono; [by apply mark_stopped_spec|by intros ?? []|done]. Qed.

Lemma mark_exited_preserves c : preserves (mark_exited c).
Proof. intros m Hm. eapply wp_mono; [by apply mark_exited_spec|by intros ?? []|done]. Qed.

Lemma mark_failed_preserves msg : preserves (mark_failed msg).
Proof.
  intros m Hm. unfold mark_failed. session_wp; try by err_leaf Hm.
  - ok_leaf Hm; [|by apply (gate_ok_cleanup m); [..|apply H4]|done]. set_solver.
  - refuted Hm.
  - ok_leaf Hm; [|apply (inv_gate _ Hm)|done]. by rewrite H3.
Qed.

Lemma target_created_suspended_preserves p : preserves (target_created_suspended p).
Proof.
  intros m Hm. unfold target_created_suspended. session_wp; try by err_leaf Hm.
  - ok_leaf Hm; [|by apply (gate_ok_effect _ _ _ (visible m) (CallTargetCreated p));
                    [apply inv_gate|..]|done].
    split; [done|]. split; [set_solver|done].
  - refuted Hm.
Qed.

Lemma gate_ok_attested m a st sb :
  session_inv m → m_execution_gate m = SandboxPending → m_sandbox m = Some sb →
  call_guard (CallAcceptAttestation a) sb →
  gate_ok (m_session_id m) (m_provisioning_epoch m) (m_helper_build m)
    (mkVisible st (m_target m) SandboxAccepted
       (Some (call_effect (CallAcceptAttestation a) sb)) (m_inherited_sandbox m)).
Proof.
  intros Hm Hg Hsb Hc. pose proof (inv_gate _ Hm) as Hgate. unfold gate_ok in *. simpl in *.
  rewrite Hg in Hgate. destruct Hgate as (? & s & t & pol & ex & ? & ? & ? & ? & ? & Hs & _).
  assert (s = sb) as -> by congruence. split; [done|].
  exists (call_effect (CallAcceptAttestation a) sb), t, pol, ex. split_and?; try done.
  by apply sandbox_effect_inv.
Qed.

Lemma accept_sandbox_attestation_preserves a : preserves (accept_sandbox_attestation a).
Proof.
  intros m Hm. unfold accept_sandbox_attestation. session_wp; try by err_leaf Hm.
  - ok_leaf Hm; [split; [done|set_solver]| |done].
    apply (gate_ok_attested m); [done| |done|done]. kind_cases Hm.
  - refuted Hm.
Qed.

(** A call that only changes what the sandbox recorded. *)
Lemma step_ok_record m c sb :
  session_inv m → m_sandbox m = Some sb → call_guard c sb →
  sm_state (call_effect c sb) = sm_state sb →
  sm_accepted_attestation (call_effect c sb) = sm_accepted_attestation sb →
  (is_Some (created_process sb) → created_process (call_effect c sb) = created_process sb) →
  step_ok m (set_sandbox (Some (call_effect c sb)) m).
Proof.
  intros Hm Hsb Hc Hst Hacc Hcr.
  assert (same_frame m (set_sandbox (Some (call_effect c sb)) m)) as Hf by frame_tac Hm.
  split; [|by apply same_frame_extends|by left].
  eapply same_frame_inv; [done..|]. destruct (inv_visible _ Hm) as [? ? Hp Hg ?].
  split; [done|done| |by apply (gate_ok_effect _ _ _ (visible m))|done].
  unfold phase_ok in *. simpl in *. rewrite Hsb in Hp. simpl in Hp. rewrite <-Hst in Hp.
  destruct (m_state m); try done. simpl.
  destruct Hp as (? & ? & Hp). rewrite Hcr; [done|]. by rewrite Hp.
Qed.

Lemma record_not_created_preserves : preserves record_sandbox_target_not_created.
Proof.
  intros m Hm. unfold record_sandbox_target_not_created. do 4 session_step.
  destruct (m_sandbox m) as [sb|] eqn:Hsb, (m_inherited_sandbox m) eqn:Hinh;
    try by (session_wp; err_leaf Hm).
  session_wp; try by err_leaf Hm. simplify_eq.
  apply (step_ok_record m CallRecordNotCreated); try done.
  intros [p Hp]. apply created_process_some in Hp. destruct H1; naive_solver.
Qed.

Lemma set_target_creation_same sb o :
  sm_target_creation sb = Some o → sm_set_target_creation (Some o) sb = sb.
Proof. intros <-. apply sm_set_target_creation_id. Qed.

Lemma retain_failure_preserves f : preserves (retain_sandbox_failure_target_creation f).
Proof.
  intros m Hm. unfold retain_sandbox_failure_target_creation.
  apply wp_bind, wp_check; [| |by intros; err_leaf Hm].
  { unfold validate_sandbox_failure, validate_against_expected, validate_against_inherited,
      validate_stage_kind. no_panic. }
  intros _.
  destruct (sf_stage f); try by (apply wp_ret, step_ok_refl).
  all: do 4 session_step;
    destruct (m_sandbox m) as [sb|] eqn:Hsb, (m_inherited_sandbox m) eqn:Hinh,
      (sf_context f);
    try by (session_wp; err_leaf Hm); try by (apply wp_ret, step_ok_refl).
  all: session_wp; try by err_leaf Hm.
  all: try by apply step_ok_refl.
  all: destruct H2 as [[? ?]|Hsame]; [congruence|]; simplify_eq; simpl;
    rewrite set_target_creation_same by done; rewrite set_sandbox_id by done;
    by apply step_ok_refl.
Qed.

Lemma validate_inherited_no_panic b r : no_panic (validate_inherited_cleanup b r).
Proof. unfold validate_inherited_cleanup, validate_inherited_cleanup_binding. no_panic. Qed.
#[local] Hint Resolve validate_inherited_no_panic : nopanic.

Lemma complete_close_preserves r : preserves (complete_close r).
Proof.
  intros m Hm. unfold complete_close. session_step. session_step; [|by err_leaf Hm].
  session_step. session_step; [|by err_leaf Hm]. do 5 session_step.
  destruct (m_sandbox m) as [sb|] eqn:Hsb, (m_inherited_sandbox m) eqn:Hinh, r as [r|];
    try by (session_wp; err_leaf Hm).
  - session_wp; try by err_leaf Hm.
    + simplify_eq. ok_leaf Hm; [set_solver| |done].
      by apply (gate_ok_effect _ _ _ (visible m) (CallClose r)); [apply inv_gate|..].
    + refuted Hm.
  - apply wp_lift_check; [auto with nopanic| |by intros; err_leaf Hm]. intros Hr.
    session_wp; try by err_leaf Hm. ok_leaf Hm; [by rewrite Hsb|apply (inv_gate _ Hm)|done].
  - session_wp; try by err_leaf Hm. ok_leaf Hm; [by rewrite Hsb|apply (inv_gate _ Hm)|done].
Qed.
End observations.
