(* ===== verification/SessionCommands.v ===== *)
(** The command half of the session reducer: authority registries, command
    acceptance, remote-command tickets and batches of unsolicited
    observations.

    Every call preserves the invariant of [SessionInvariant.v]; the theorems
    about runs of a session follow by induction on the calls in
    [SessionWorlds.v]. *)

From S2P Require Import Prelude Identity Sandbox SandboxPolicyTheory SandboxLifecycle Protocol.
From S2P Require Import ProtocolTheory Authorization SessionMachine SessionInvariant.
Open Scope Z_scope.

(** What the Rust types guarantee of a target: the policy of a sandboxed
    launch was built by the validating constructors. *)
Definition typed_target (t : DebugTargetRequest) : Prop :=
  match t with
  | DTR.Launch l =>
      match lt_environment l with
      | Sandboxed policy => typed_policy policy ∧ valid_hex64 (lt_binary_id l)
      | HostEnvironment _ => True
      end
  | _ => True
  end.

Definition typed_command (c : DebugCommand) : Prop :=
  match c with DC.Open t => typed_target t | _ => True end.

(** Only the lease registries changed, and no grant was added. *)
Record leases_spent (m m' : SessionMachine) : Prop := {
  lsp_eq : m' = set_sandbox_ownership_leases (m_sandbox_ownership_leases m')
                  (set_host_risk_leases (m_host_risk_leases m') m);
  lsp_host : no_new_grants (m_host_risk_leases m) (m_host_risk_leases m');
  lsp_owned : no_new_grants (m_sandbox_ownership_leases m) (m_sandbox_ownership_leases m');
  lsp_host_size : (size (m_host_risk_leases m') ≤ size (m_host_risk_leases m))%nat;
  lsp_owned_size :
    (size (m_sandbox_ownership_leases m') ≤ size (m_sandbox_ownership_leases m))%nat
}.

Lemma leases_spent_refl m : leases_spent m m.
Proof. split; [by destruct m|by intros ??..|done|done]. Qed.

Lemma take_lease_spec {V} (id : list Z) (l : gmap (list Z) (option V)) :
  no_new_grants l (take_lease id l).2 ∧ (size (take_lease id l).2 ≤ size l)%nat
  ∧ (∀ v, (take_lease id l).2 !! id ≠ Some (Some v))
  ∧ (∀ v, (take_lease id l).1 = Some v ↔ l !! id = Some (Some v)).
Proof.
  unfold take_lease, no_new_grants. destruct (l !! id) as [o|] eqn:Hl; simpl.
  - split_and!.
    + intros id' v. destruct (decide (id = id')) as [->|].
      * by rewrite lookup_insert_eq.
      * by rewrite lookup_insert_ne.
    + by rewrite map_size_insert_Some by eauto.
    + intros v. by rewrite lookup_insert_eq.
    + intros v. destruct o; naive_solver.
  - split_and!; [done|done|congruence|]. intros v. naive_solver.
Qed.

Section commands.
Context `{Sha256Spec}.

Lemma registries_spent m m' : registries_ok m → leases_spent m m' → registries_ok m'.
Proof.
  intros [R1 R2 R3 R4] [He H1 H2 H3 H4].
  assert (m_session_id m' = m_session_id m) as Hs by by rewrite He.
  assert (m_provisioning_epoch m' = m_provisioning_epoch m) as Hp by by rewrite He.
  split.
  - intros id v Hv. rewrite Hs, Hp. by apply R1, H1.
  - intros id v Hv. rewrite Hs, Hp. by apply R2, H2.
  - lia.
  - lia.
Qed.

Lemma leases_spent_inv m m' : session_inv m → leases_spent m m' → session_inv m'.
Proof.
  intros [Hv Hs Hr Hreg Hp] Hl. pose proof (registries_spent _ _ Hreg Hl) as Hreg'.
  destruct Hl as [He _ _ _ _]. rewrite He in Hreg' |- *. split; try done; by destruct m.
Qed.

Lemma leases_spent_err m m' : session_inv m → leases_spent m m' → step_err m m'.
Proof.
  intros Hm Hl. pose proof (leases_spent_inv _ _ Hm Hl). destruct Hl as [He ? ? _ _].
  split; try done.
  - rewrite He. split; simpl; try done. eauto with lia.
  - by rewrite He.
  - by rewrite He.
Qed.

(** ** Registration *)

Lemma set_host_extends m h : extends m (set_host_risk_leases h m).
Proof. split; simpl; try done. eauto with lia. Qed.
Lemma set_owned_extends m h : extends m (set_sandbox_ownership_leases h m).
Proof. split; simpl; try done. eauto with lia. Qed.

Lemma register_host_preserves v : preserves (register_host_risk_verifier v).
Proof.
  intros m Hm. unfold register_host_risk_verifier, require_session.
  session_wp; try by err_leaf Hm.
  split; [|apply set_host_extends|by left]. destruct Hm as [? ? ? [R1 R2 R3 R4] ?].
  split; try done. split; simpl; try done.
  - intros id w. destruct (decide (hrv_id v = id)) as [<-|].
    + rewrite lookup_insert_eq. naive_solver.
    + rewrite lookup_insert_ne by done. apply R1.
  - rewrite map_size_insert_None by (by apply eq_None_not_Some). lia.
Qed.

Lemma register_owned_preserves v : preserves (register_sandbox_ownership_verifier v).
Proof.
  intros m Hm. unfold register_sandbox_ownership_verifier, require_session.
  session_wp; try by err_leaf Hm.
  split; [|apply set_owned_extends|by left]. destruct Hm as [? ? ? [R1 R2 R3 R4] ?].
  split; try done. split; simpl; try done.
  - intros id w. destruct (decide (sov_id v = id)) as [<-|].
    + rewrite lookup_insert_eq. naive_solver.
    + rewrite lookup_insert_ne by done. apply R2.
  - rewrite map_size_insert_None by (by apply eq_None_not_Some). lia.
Qed.

(** ** Opening a target *)

Lemma take_host_spent m id :
  leases_spent m (set_host_risk_leases (take_lease id (m_host_risk_leases m)).2 m).
Proof.
  destruct (take_lease_spec id (m_host_risk_leases m)) as (? & ? & _).
  split; simpl; first [done | by destruct m | by intros ??].
Qed.

Lemma take_owned_spent m id :
  leases_spent m
    (set_sandbox_ownership_leases (take_lease id (m_sandbox_ownership_leases m)).2 m).
Proof.
  destruct (take_lease_spec id (m_sandbox_ownership_leases m)) as (? & ? & _).
  split; simpl; first [done | by destruct m | by intros ??].
Qed.

(** The grant that a host target names is in the registry and authorizes this
    operation. *)
Definition host_grant (m : SessionMachine) (id : list Z) (op : HostRiskOperation) : Prop :=
  ∃ v, m_host_risk_leases m !! id = Some (Some v)
    ∧ hrv_session_id v = m_session_id m ∧ hrv_provisioning_epoch v = m_provisioning_epoch m
    ∧ HostRiskOperation_eqb (hrv_operation v) op = true.

Definition owned_grant (m : SessionMachine) (id : list Z) (p : ProcessIdentity)
    (mode : AttachMode) (b : SandboxOwnershipBinding) : Prop :=
  ∃ v, m_sandbox_ownership_leases m !! id = Some (Some v) ∧ sov_binding v = b
    ∧ sob_session_id b = m_session_id m ∧ sob_provisioning_epoch b = m_provisioning_epoch m
    ∧ sob_process b = p ∧ sob_mode b = mode.

Lemma consume_host_spec id op m :
  wp (consume_host_risk_lease id op)
    (λ _ m', leases_spent m m' ∧ host_grant m id op
             ∧ ∀ v, m_host_risk_leases m' !! id ≠ Some (Some v))
    (λ _ m', leases_spent m m' ∧ ¬ host_grant m id op
             ∧ ∀ v, m_host_risk_leases m' !! id ≠ Some (Some v)) m.
Proof.
  unfold consume_host_risk_lease. pose proof (take_host_spent m id) as Hs.
  destruct (take_lease_spec id (m_host_risk_leases m)) as (_ & _ & Hnone & Hget).
  do 4 wp_step. unfold wp, sbind, slift, sread, ok_or. unfold host_grant.
  destruct (take_lease id (m_host_risk_leases m)).1 as [v|] eqn:Htk.
  - pose proof (proj1 (Hget v) eq_refl) as Hv. unfold fail_if. simpl.
    match goal with |- context [if ?b then _ else _] => destruct b eqn:Hc end;
      (split; [exact Hs|split; [|exact Hnone]]).
    + intros (w & Hw & H1 & H2 & H3). simplify_eq. autorewrite with rust in Hc.
      destruct Hc as [[Hc|Hc]|Hc]; [done|done|congruence].
    + autorewrite with rust in Hc. destruct Hc as [[? ?] ?]. by exists v.
  - split; [exact Hs|split; [|exact Hnone]]. intros (w & Hw & _). apply Hget in Hw. congruence.
Qed.

Lemma consume_owned_spec id p mode m :
  wp (consume_sandbox_ownership_lease id p mode)
    (λ b m', leases_spent m m' ∧ owned_grant m id p mode b
             ∧ ∀ v, m_sandbox_ownership_leases m' !! id ≠ Some (Some v))
    (λ _ m', leases_spent m m' ∧ (∀ b, ¬ owned_grant m id p mode b)
             ∧ ∀ v, m_sandbox_ownership_leases m' !! id ≠ Some (Some v)) m.
Proof.
  unfold consume_sandbox_ownership_lease. pose proof (take_owned_spent m id) as Hs.
  destruct (take_lease_spec id (m_sandbox_ownership_leases m)) as (_ & _ & Hnone & Hget).
  do 4 wp_step. unfold wp, sbind, slift, sread, ok_or, sret. unfold owned_grant.
  destruct (take_lease id (m_sandbox_ownership_leases m)).1 as [v|] eqn:Htk.
  - pose proof (proj1 (Hget v) eq_refl) as Hv. unfold fail_if. simpl.
    match goal with |- context [if ?b then _ else _] => destruct b eqn:Hc end;
      (split; [exact Hs|split; [|exact Hnone]]).
    + intros b (w & Hw & <- & H1 & H2 & H3 & H4). simplify_eq. autorewrite with rust in Hc.
      tauto.
    + autorewrite with rust in Hc. destruct Hc as [[[? ?] ?] ?]. by exists v.
  - split; [exact Hs|split; [|exact Hnone]]. intros b (w & Hw & _). apply Hget in Hw. congruence.
Qed.

Lemma require_guarantees_no_panic gs l : no_panic (require_guarantees gs l).
Proof. induction l; simpl; unfold require_guarantee; no_panic; done. Qed.
Lemma check_supported_no_panic p l : no_panic (check_supported p l).
Proof. induction l; simpl; no_panic; done. Qed.
#[local] Hint Resolve require_guarantees_no_panic check_supported_no_panic : nopanic.

Lemma policy_validate_no_panic p : no_panic (policy_validate p).
Proof.
  unfold policy_validate, resource_limits_validate, policy_check_provider, policy_check_common,
    policy_check_boundary, policy_check_vm, descriptor_validate, vm_identity_validate,
    require_guarantee. no_panic.
Qed.

Lemma from_policy_no_panic b p h e :
  typed_policy p → valid_hex64 b → no_panic (from_policy b p h e).
Proof.
  intros Ht Hb. unfold from_policy. apply no_panic_bind; [|no_panic].
  destruct (policy_validate p) as [[]|er|pa] eqn:Hv.
  - rewrite policy_digest_run; [apply no_panic_ok|done|done|by apply policy_validate_ok].
  - unfold policy_digest. rewrite Hv. simpl. apply no_panic_err.
  - by edestruct (policy_validate_no_panic p).
Qed.

(** What [open_authority] hands to [accept_open]. *)
Record authority_ok (m : SessionMachine) (t : DebugTargetRequest)
    (a : option SandboxMachine * ExecutionGate * option SandboxOwnershipBinding) : Prop := {
  ao_gate : ∀ st, gate_ok (m_session_id m) (m_provisioning_epoch m) (m_helper_build m)
                    (mkVisible st (Some t) a.1.2 a.1.1 a.2);
  ao_phase : in_phase a.1.1 [SLS.Provisioning];
  ao_pending : a.1.2 ≠ SandboxAccepted
}.

Lemma SandboxMachine_new_ok ex sb :
  SandboxMachine_new ex = Ok sb → sb = mkSandboxMachine ex SLS.Requested None None.
Proof. unfold SandboxMachine_new. intros. by case_match; simplify_eq. Qed.

Lemma SandboxMachine_new_no_panic ex : no_panic (SandboxMachine_new ex).
Proof. unfold SandboxMachine_new. intros p. by case_match. Qed.

Lemma open_sandboxed_spec t policy m :
  lt_environment t = Sandboxed policy → typed_target (DTR.Launch t) →
  wp (open_authority (DTR.Launch t))
    (λ a m', m' = m ∧ authority_ok m (DTR.Launch t) a) (λ _ m', m' = m) m.
Proof.
  intros He Ht. simpl. rewrite He. unfold typed_target in Ht. rewrite He in Ht.
  destruct Ht as [Ht Hb]. unfold require_session, fail_if, wp, sbind, sread, slift, sret.
  destruct (Z.eqb_spec (sp_session_id policy) (m_session_id m)) as [Hs|]; simpl; [|done].
  destruct (from_policy _ _ _ _) as [ex|e|pa] eqn:Hf; simpl; [|done|].
  2: { by edestruct (from_policy_no_panic (lt_binary_id t) policy (m_helper_build m)
         (m_provisioning_epoch m) Ht Hb pa). }
  destruct (SandboxMachine_new ex) as [sb|e|pa] eqn:Hn; simpl; [|done|].
  2: { by edestruct (SandboxMachine_new_no_panic ex pa). }
  apply SandboxMachine_new_ok in Hn as ->. simpl. split; [done|]. split; simpl; [|set_solver|done].
  intros st. split; [done|].
  exists (mkSandboxMachine ex SLS.Provisioning None None), t, policy, ex. simpl.
  split_and?; try done.
  apply (sandbox_effect_inv ex CallBeginProvisioning _ (sandbox_new_inv ex)). done.
Qed.

Lemma open_authority_spec t m :
  typed_target t →
  wp (open_authority t)
    (λ a m', leases_spent m m' ∧ authority_ok m t a) (λ _ m', leases_spent m m') m.
Proof.
  intros Ht. destruct t as [l|a|d|o].
  - destruct (lt_environment l) as [policy|lease] eqn:He.
    + eapply wp_mono; [by apply (open_sandboxed_spec _ policy)|..]; simpl.
      * intros a m' [-> ?]. split; [apply leases_spent_refl|done].
      * intros _ m' ->. apply leases_spent_refl.
    + simpl. unfold from_target. rewrite He. simpl. wp_step. apply wp_lift; [|done|done].
      intros intent _. wp_step. eapply wp_mono; [apply consume_host_spec|..]; simpl; [|tauto].
      intros _ m' (? & _). apply wp_ret. split; [done|].
      split; simpl; [intros st; unfold gate_ok; simpl|done|done].
      split; [done|]. split; [done|]. exists (DTR.Launch l). split; [done|]. by exists lease.
  - simpl. destruct (att_scope a) as [p lease|p lease] eqn:Hsc.
    + wp_step. eapply wp_mono; [apply consume_host_spec|..]; simpl; [|tauto].
      intros _ m' (? & _). apply wp_ret. split; [done|].
      split; simpl; [intros st; unfold gate_ok; simpl|done|done].
      split; [done|]. split; [done|]. exists (DTR.Attach a). split; [done|]. by exists p, lease.
    + wp_step. eapply wp_mono; [apply consume_owned_spec|..]; simpl; [|tauto].
      intros b m' (? & (v & _ & _ & ? & ? & <- & ?) & _). apply wp_ret. split; [done|].
      split; simpl; [intros st; unfold gate_ok; simpl|done|done]. split; [done|]. by exists b, a, lease.
  - apply wp_ret. split; [apply leases_spent_refl|].
    split; simpl; [intros st; unfold gate_ok; simpl|done|done]. eauto 10.
  - apply wp_ret. split; [apply leases_spent_refl|].
    split; simpl; [intros st; unfold gate_ok; simpl|done|done]. eauto 10.
Qed.

(** The machine after an accepted [Open], and the state it shows. *)
Definition opened (t : DebugTargetRequest)
    (a : option SandboxMachine * ExecutionGate * option SandboxOwnershipBinding)
    (m : SessionMachine) : SessionMachine :=
  set_sandbox_ownership_leases ∅ (set_host_risk_leases ∅ (set_target (Some t)
    (set_inherited_sandbox a.2 (set_sandbox a.1.1 (set_execution_gate a.1.2 m))))).

Lemma registries_empty m :
  m_host_risk_leases m = ∅ → m_sandbox_ownership_leases m = ∅ → registries_ok m.
Proof.
  intros Hh Ho. split; rewrite ?Hh, ?Ho; try (intros ?? Hl; by rewrite lookup_empty in Hl);
    rewrite map_size_empty; unfold MAX_REGISTERED_AUTHORIZATION_LEASES; lia.
Qed.

(** Keeps the kernel from unfolding [gate_ok] to compare two machines. *)
Lemma gate_ok_eq sid ep h v sid' ep' h' v' :
  sid = sid' → ep = ep' → h = h' → v = v' → gate_ok sid ep h v → gate_ok sid' ep' h' v'.
Proof. by intros -> -> -> ->. Qed.

Lemma opened_step_ok m t a next :
  session_inv m → authority_ok m t a →
  state_token next = mkStateToken (m_session_id m) (st_generation (state_token (m_state m)) + 1) →
  next = SS.Opening (state_token next) t →
  validate_successor (m_state m) next = Ok tt →
  step_ok m (set_state next (opened t a m)).
Proof.
  intros [Hv Hs Hr Hreg Hp] [Hg Hph Hacc] Ht Hn Hsucc.
  split; [|split; try reflexivity; simpl; eauto with lia|by right].
  pose proof Hsucc as Hsucc'. apply validate_successor_ok in Hsucc' as (H1 & H2 & H3 & _).
  destruct Hv as [V1 V2 _ _ _]. simpl in V1, V2.
  split; [|exact Hs|exact Hr| |exact Hp].
  - split; [by simpl; rewrite Ht|simpl; lia| |by eapply gate_ok_eq; [..|apply (Hg next)]|].
    + unfold phase_ok. simpl. rewrite Hn. done.
    + simpl. rewrite Hn. done.
  - by apply registries_empty.
Qed.

Lemma authority_ok_spent m m' t a :
  leases_spent m m' → authority_ok m t a → authority_ok m' t a.
Proof.
  intros Hl [Hg ? ?]. split; [|done..]. intros st.
  rewrite (lsp_eq _ _ Hl). apply (Hg st).
Qed.

Lemma accept_open_spec t m :
  session_inv m → state_kind (m_state m) = SSK.Idle → typed_target t →
  wp (accept_open t) (λ _ m', step_ok m m') (λ _ m', step_err m m') m.
Proof.
  intros Hm Hk Ht. unfold accept_open. apply wp_bind.
  eapply wp_mono; [by apply open_authority_spec|..]; simpl.
  - intros a m' [Hl Ha]. pose proof (leases_spent_inv _ _ Hm Hl) as Hm'.
    pose proof (authority_ok_spent _ _ _ _ Hl Ha) as Ha'.
    assert (m_state m' = m_state m) as Hst by by rewrite (lsp_eq _ _ Hl).
    apply wp_bind. session_step; [|by apply leases_spent_err].
    do 12 wp_step. fold (opened t a m'). session_step.
    + destruct (opened_step_ok m' t a (SS.Opening (mkStateToken (m_session_id m')
        (st_generation (state_token (m_state m')) + 1)) t)) as [? He ?]; try done.
      split; [done| |by rewrite <-Hst; right].
      eapply extends_trans; [|done]. by apply leases_spent_err.
    + exfalso. match goal with Hn : _ ≠ Ok tt |- _ => apply Hn end.
      apply (successor_next m'); [done..|]. simpl. rewrite Hst, Hk. set_solver.
  - intros e m' Hl. by apply leases_spent_err.
Qed.

(** ** Accepting a command *)

Lemma refresh_stopped_token_preserves : preserves refresh_stopped_token.
Proof.
  intros m Hm. unfold refresh_stopped_token. wp_step. wp_step.
  destruct (m_state m) eqn:Hst; try by (session_wp; err_leaf Hm).
  session_wp; try by err_leaf Hm. ok_leaf Hm; [| |].
  - pose proof (inv_phase _ Hm) as Hp. unfold phase_ok in Hp. simpl in Hp. by rewrite Hst in Hp.
  - apply (inv_gate _ Hm).
  - pose proof (inv_stop _ Hm). lia.
Qed.

Lemma inv_executing m :
  session_inv m →
  state_kind (m_state m) = SSK.Stopped ∨ state_kind (m_state m) = SSK.Running
  ∨ state_kind (m_state m) = SSK.Pausing →
  gate_allows_execution (m_execution_gate m)
  ∧ (∃ t, m_target m = Some t ∧ is_debug_target t = true)
  ∧ in_phase (m_sandbox m) [SLS.AttestationAccepted; SLS.Running].
Proof.
  intros Hm Hk. kind_cases Hm; try naive_solver.
  all: destruct Hphase as (? & ? & Hin); split; [done|]; split; [done|];
    apply (in_phase_weaken _ _ _ Hin); set_solver.
Qed.

Lemma accept_run_preserves stop m :
  session_inv m → state_kind (m_state m) = SSK.Stopped →
  wp (accept_effect (DC.Continue stop)) (λ _ m', step_ok m m') (λ _ m', step_err m m') m.
Proof.
  intros Hm Hk. unfold accept_effect, ensure_execution_allowed. wp_step.
  destruct (inv_executing _ Hm) as (Hg & Hd & Hin); [by left|].
  wp_step; [|by err_leaf Hm]. session_wp; try by err_leaf Hm.
  - ok_leaf Hm; [|by apply (gate_ok_effect _ _ _ (visible m) CallMarkRunning);
                    [apply inv_gate|..]|pose proof (inv_run _ Hm); lia].
    split; [done|]. split; [done|set_solver].
  - exfalso. match goal with Hn : _ ≠ Ok tt |- _ => apply Hn end.
    apply (successor_next m); [done..|]. simpl. rewrite Hk. set_solver.
  - ok_leaf Hm; [|apply (inv_gate _ Hm)|pose proof (inv_run _ Hm); lia].
    split; [done|]. split; [done|]. simpl in *. by rewrite H4.
Qed.

Lemma set_cleanup_same sb : sm_state sb = SLS.Cleanup → sm_set_state SLS.Cleanup sb = sb.
Proof. intros <-. apply sm_set_state_id. Qed.

(** [Terminate] and [Close]: already closing sessions refuse and keep their
    sandbox in cleanup. *)
Lemma accept_closing_preserves st m :
  session_inv m → state_kind (m_state m) ≠ SSK.Closed →
  wp (accept_effect (DC.Close st)) (λ _ m', step_ok m m') (λ _ m', step_err m m') m.
Proof.
  intros Hm Hk. unfold accept_effect. session_wp; try by err_leaf Hm.
  - ok_leaf Hm; [set_solver|by apply (gate_ok_cleanup m)|done].
  - destruct (decide (state_kind (m_state m) = SSK.Closing)) as [Hc|Hc].
    + assert (sm_state sb = SLS.Cleanup) as Hcl.
      { pose proof (inv_phase _ Hm) as Hp. unfold phase_ok in Hp. simpl in Hp.
        rewrite H2 in Hp. destruct (m_state m); set_solver. }
      simpl. rewrite set_cleanup_same, set_sandbox_id by done. by apply step_err_refl.
    + exfalso. match goal with Hn : _ ≠ Ok tt |- _ => apply Hn end.
      apply (successor_next m); [done..|]. simpl.
      destruct (state_kind (m_state m)); set_solver.
  - ok_leaf Hm; [|apply (inv_gate _ Hm)|done]. by rewrite H2.
Qed.

Lemma inv_live_gate l m :
  session_inv m → matches_live (m_state m) l = true → m_execution_gate m ≠ NotApplicable.
Proof.
  intros Hm Hl Hn. pose proof (inv_gate _ Hm) as Hg. unfold gate_ok in Hg. simpl in Hg.
  rewrite Hn in Hg. destruct Hg as (_ & _ & Ht).
  pose proof (inv_phase _ Hm) as Hp. unfold phase_ok in Hp. simpl in Hp. rewrite Hn in Hp.
  destruct (m_state m), l; try done; simpl in Hp.
  - destruct Hp as (a & ? & _). destruct Ht as [?|[[??]|[??]]]; by simplify_eq.
  - by destruct Hp as [[?|[?|?]] _].
  - by destruct Hp as [[?|[?|?]] _].
Qed.

Lemma accept_detach_preserves l m :
  session_inv m → matches_live (m_state m) l = true →
  wp (accept_effect (DC.Detach l)) (λ _ m', step_ok m m') (λ _ m', step_err m m') m.
Proof.
  intros Hm Hk. unfold accept_effect. session_wp; try by err_leaf Hm.
  ok_leaf Hm; [|apply (inv_gate _ Hm)|done].
  pose proof (inv_live_gate _ _ Hm Hk). destruct (m_execution_gate m); set_solver.
Qed.

Lemma accept_pause_preserves r m :
  session_inv m → state_kind (m_state m) = SSK.Running →
  wp (accept_effect (DC.Pause r)) (λ _ m', step_ok m m') (λ _ m', step_err m m') m.
Proof.
  intros Hm Hk. unfold accept_effect. session_wp; try by err_leaf Hm.
  ok_leaf Hm; [|apply (inv_gate _ Hm)|done]. by kind_cases Hm.
Qed.

Lemma accept_effect_spec c m :
  session_inv m → typed_command c → command_allowed c (m_state m) = true →
  wp (accept_effect c) (λ _ m', step_ok m m') (λ _ m', step_err m m') m.
Proof.
  intros Hm Ht Hc. pose proof (refresh_stopped_token_preserves m Hm) as Hrefresh.
  destruct c; try exact Hrefresh; try by (apply wp_ret, step_ok_refl).
  - by destruct (m_state m).
  - apply accept_open_spec; [done| |done]. by destruct (m_state m).
  - apply (accept_run_preserves stop); [done|]. by destruct (m_state m).
  - apply accept_pause_preserves; [done|]. by destruct (m_state m).
  - apply (accept_run_preserves stop); [done|]. by destruct (m_state m).
  - by apply accept_detach_preserves.
  - apply (accept_closing_preserves (execution_state execution)); [done|].
    by destruct (m_state m), execution.
  - apply accept_closing_preserves; [done|]. by destruct (m_state m).
Qed.


Lemma on_sandbox_keeps {A B} (f : SessionMachine → B) none (c : sandbox_op A) :
  (∀ m v, f (set_sandbox v m) = f m) → keeps f (on_sandbox none c).
Proof. intros Hf m. unfold on_sandbox. destruct (m_sandbox m); [apply Hf|done]. Qed.
#[local] Hint Resolve on_sandbox_keeps : keeps.

Lemma accept_effect_keeps {B} (f : SessionMachine → B) c :
  (∀ m v, f (set_state v m) = f m) → (∀ m v, f (set_target v m) = f m) →
  (∀ m v, f (set_last_stop_id v m) = f m) → (∀ m v, f (set_last_run_id v m) = f m) →
  (∀ m v, f (set_execution_gate v m) = f m) → (∀ m v, f (set_sandbox v m) = f m) →
  (∀ m v, f (set_inherited_sandbox v m) = f m) →
  (∀ m v, f (set_host_risk_leases v m) = f m) →
  (∀ m v, f (set_sandbox_ownership_leases v m) = f m) →
  keeps f (accept_effect c).
Proof.
  intros. unfold accept_effect, accept_open, open_authority, refresh_stopped_token,
    transition_to, allocate_stop_token, allocate_run_token, consume_host_risk_lease,
    consume_sandbox_ownership_lease, ensure_execution_allowed, next_state_token,
    require_session.
  keeps.
Qed.

Lemma set_last_command_err m id :
  session_inv m → m_pending_remote_command m = None →
  (∀ last, m_last_command_id m = Some last → last < id) →
  step_err m (set_last_command_id (Some id) m).
Proof.
  intros [Hv Hs Hr Hreg Hp] Hpend Hlast.
  split; [|split; try reflexivity|done|done|by intros ??..].
  - split; [exact Hv|done|done|by destruct Hreg|]. simpl. congruence.
  - intros c Hc. exists id. split; [done|]. apply Hlast in Hc. lia.
Qed.

Lemma step_err_trans m1 m2 m3 : step_err m1 m2 → step_err m2 m3 → step_err m1 m3.
Proof.
  intros [] []. split; [done|by eapply extends_trans|congruence|congruence| |];
    intros ???; auto.
Qed.

Lemma step_err_ok m1 m2 m3 : step_err m1 m2 → step_ok m2 m3 → step_ok m1 m3.
Proof.
  intros [? ? Hv ? ? ?] []. split; [done|by eapply extends_trans|].
  by injection Hv as <- _ _ _ _.
Qed.

(** What an accepted command leaves behind. *)
Record accepted (e : CommandEnvelope) (m m' : SessionMachine) : Prop := {
  acc_ok : step_ok m m';
  acc_command : m_last_command_id m' = Some (ce_command_id e);
  acc_pending : m_pending_remote_command m' = m_pending_remote_command m;
  acc_newer : ∀ last, m_last_command_id m = Some last → last < ce_command_id e;
  acc_probe : is_probe (ce_command e) = false;
  acc_valid : validate_against e (m_state m) = Ok tt;
  acc_effect : accept_effect (ce_command e) (set_last_command_id (Some (ce_command_id e)) m)
               = (Ok tt, m')
}.

Lemma accept_command_inner_spec e m :
  session_inv m → typed_command (ce_command e) → m_pending_remote_command m = None →
  wp (accept_command_inner e)
    (λ s m', accepted e m m' ∧ s = m_state m') (λ _ m', step_err m m') m.
Proof.
  intros Hm Ht Hpend. unfold accept_command_inner, observe_command_id.
  apply wp_bind, wp_lift_check; [| |by intros; apply step_err_refl].
  { apply no_panic_map_err, envelope_validate_no_panic. }
  intros _. do 2 apply wp_bind. unfold wp at 1, sread at 1.
  assert (∀ r : result unit SessionMachineError,
    r = match m_last_command_id m with
        | Some last =>
            fail_if (ce_command_id e <=? last)
              (SE.NonMonotonicCommandId last (ce_command_id e))
        | None => Ok tt
        end → r = Ok tt ∧ (∀ last, m_last_command_id m = Some last → last < ce_command_id e)
              ∨ ∃ er, r = Err er) as Hmono.
  { intros r ->. destruct (m_last_command_id m) as [last|]; [|left; naive_solver].
    unfold fail_if. destruct (Z.leb_spec (ce_command_id e) last); [right; eauto|].
    left. split; [done|]. intros ? [= <-]. done. }
  destruct (Hmono _ eq_refl) as [[-> Hlt]|[er ->]]; [|by apply step_err_refl]. clear Hmono.
  pose proof (set_last_command_err m (ce_command_id e) Hm Hpend Hlt) as Herr.
  wp_step. wp_step. wp_step; [|done]. wp_step. apply wp_check.
  { apply no_panic_map_err, validate_against_no_panic. }
  2: { by intros. }
  intros Hv. rewrite map_err_ok in Hv. simpl in Hv.
  pose proof Hv as Hok. apply validate_against_ok in Hok as (_ & _ & _ & Hal); [|done].
  wp_step. eapply wp_mono;
    [apply wp_eq, (wp_keeps (λ m, (m_last_command_id m, m_pending_remote_command m)));
       [by apply accept_effect_keeps|by apply accept_effect_spec; [apply Herr|..]]|..]; simpl.
  - intros [] m' [[Hm' [= Hl Hp]] Heff]. wp_step. split; [|done].
    split; [by eapply step_err_ok|done..].
  - intros er m' [Hm' _]. by eapply step_err_trans.
Qed.

Lemma accept_command_preserves e : typed_command (ce_command e) → preserves (accept_command e).
Proof.
  intros Ht m Hm. unfold accept_command, require_no_remote_command_pending. wp_step.
  unfold wp at 1, sread. destruct (m_pending_remote_command m) eqn:Hp; [by apply step_err_refl|].
  eapply wp_mono; [by apply accept_command_inner_spec|..]; simpl; [|done].
  intros s m' [[] _]. done.
Qed.

(** ** Remote commands *)

(** A checkpoint this reducer could restore: what it holds is a visible state
    of this session whose tokens the watermarks have passed. *)
Definition checkpoint_ok (m : SessionMachine) (c : RemoteCommandCheckpoint) : Prop :=
  visible_ok (m_session_id m) (m_provisioning_epoch m) (m_helper_build m)
    (m_last_stop_id m) (m_last_run_id m) (cp_visible c).

Lemma checkpoint_ok_extends m m' c : extends m m' → checkpoint_ok m c → checkpoint_ok m' c.
Proof.
  unfold checkpoint_ok. intros [_ -> -> -> _ Hs Hr] Hc. by eapply visible_ok_mono.
Qed.

(** What a freshly begun remote command left behind. *)
Record begun (e : CommandEnvelope) (m : SessionMachine) (c : RemoteCommandCheckpoint)
    (m' : SessionMachine) : Prop := {
  beg_none : m_pending_remote_command m = None;
  beg_accepted : accepted e m (set_pending_remote_command None m');
  beg_pending : m_pending_remote_command m' = Some (ce_command_id e);
  beg_inv : session_inv m';
  beg_instance : cp_reducer_instance c = m_reducer_instance m;
  beg_id : cp_command_id c = ce_command_id e;
  beg_visible : cp_visible c = visible m;
  beg_post : cp_post_accept c = remote_command_post_accept_state m';
  beg_write : cp_local_live_memory_write c = None
}.

Lemma set_pending_step_ok m m' p :
  step_ok m m' → (∀ c, p = Some c → m_last_command_id m' = Some c) →
  step_ok m (set_pending_remote_command p m').
Proof.
  intros [[Hv Hs Hr [] Hp] [] Hmv] Hc. split; [|by split|done].
  by split; [exact Hv|..].
Qed.

Lemma begin_remote_command_spec e m :
  session_inv m → typed_command (ce_command e) →
  wp (begin_remote_command e) (λ c m', begun e m c m') (λ _ m', step_err m m') m.
Proof.
  intros Hm Ht. unfold begin_remote_command, require_no_remote_command_pending. wp_step.
  unfold wp at 1, sread. destruct (m_pending_remote_command m) eqn:Hp; [by apply step_err_refl|].
  do 10 wp_step. apply wp_bind.
  eapply wp_mono; [by apply accept_command_inner_spec|..]; simpl; [|done].
  intros s m' [[Hok Hlast Hpend Hnew Hprobe Hval Heff] _]. do 3 wp_step.
  assert (set_pending_remote_command None
            (set_pending_remote_command (Some (ce_command_id e)) m') = m') as Hback.
  { rewrite Hp in Hpend. destruct m'; simpl in *. by subst. }
  split; try done.
  - rewrite Hback. by split.
  - apply (set_pending_step_ok m); [done|]. by intros ? [= <-].
  - apply Hok.
Qed.

(** ** Resolving a remote command *)

Lemma set_pending_none_ok m : session_inv m → step_ok m (set_pending_remote_command None m).
Proof. intros Hm. apply set_pending_step_ok; [by apply step_ok_refl|done]. Qed.

Lemma validate_remote_checkpoint_no_panic c id m :
  no_panic (validate_remote_checkpoint c id m).
Proof. unfold validate_remote_checkpoint. no_panic. Qed.

Lemma validate_remote_checkpoint_ok c id m u :
  validate_remote_checkpoint c id m = Ok u ↔
  m_reducer_instance m = cp_reducer_instance c ∧ id = cp_command_id c
  ∧ m_pending_remote_command m = Some (cp_command_id c).
Proof.
  unfold validate_remote_checkpoint. destruct u. split.
  - intros Hv. rust_inv Hv. naive_solver.
  - intros (-> & -> & ->). rewrite Z.eqb_refl. simpl. by rewrite Z.eqb_refl.
Qed.

#[local] Hint Resolve validate_remote_checkpoint_no_panic : nopanic.

Lemma commit_preserves c id : preserves (commit_remote_command c id).
Proof.
  intros m Hm. unfold commit_remote_command. wp_step.
  apply wp_check; [auto with nopanic| |by intros; apply step_err_refl].
  intros _. session_wp. by apply set_pending_none_ok.
Qed.

(** The machine with a checkpoint put back. *)
Definition restored (c : RemoteCommandCheckpoint) (m : SessionMachine) : SessionMachine :=
  set_inherited_sandbox (cp_inherited_sandbox c) (set_sandbox (cp_sandbox c)
    (set_execution_gate (cp_execution_gate c) (set_target (cp_target c)
      (set_state (cp_state c) (set_pending_remote_command None m))))).

Lemma restored_inv c m : session_inv m → checkpoint_ok m c → session_inv (restored c m).
Proof.
  intros [Hv Hs Hr [] Hp] Hc. by split; [exact Hc|..].
Qed.

Lemma restored_extends c m : extends m (restored c m).
Proof. split; try reflexivity. simpl. eauto with lia. Qed.

(** A successful resolution keeps the state, or restores the checkpoint. *)
Definition resolved (c : RemoteCommandCheckpoint) (m m' : SessionMachine) : Prop :=
  session_inv m' ∧ extends m m'
  ∧ (m_state m' = m_state m
     ∨ m' = restored c m
       ∧ post_accept_eqb (remote_command_post_accept_state m) (cp_post_accept c) = true).

Lemma reject_spec c id m :
  session_inv m → (m_reducer_instance m = cp_reducer_instance c → checkpoint_ok m c) →
  wp (reject_remote_command c id)
    (λ s m', m' = restored c m ∧ s = cp_state c ∧ resolved c m m'
             ∧ m_reducer_instance m = cp_reducer_instance c ∧ id = cp_command_id c
             ∧ m_pending_remote_command m = Some (cp_command_id c)
             ∧ post_accept_eqb (remote_command_post_accept_state m) (cp_post_accept c) = true)
    (λ _ m', m' = m) m.
Proof.
  intros Hm Hc. unfold reject_remote_command, restore_checkpoint. wp_step.
  apply wp_check; [auto with nopanic| |done].
  intros Hv. apply validate_remote_checkpoint_ok in Hv as (Hi & Hid & Hp).
  wp_step. wp_step; [|done]. do 12 wp_step. fold (restored c m).
  split; [done|]. split; [done|]. split; [|done].
  split; [by apply restored_inv; [|apply Hc]|]. split; [apply restored_extends|].
  right. by split.
Qed.

Lemma local_write_resolution_no_panic c r m :
  no_panic (validate_local_live_memory_write_resolution c r m).
Proof. unfold validate_local_live_memory_write_resolution. no_panic. Qed.

Lemma local_write_resolution_ok c r m stop :
  validate_local_live_memory_write_resolution c r m = Ok stop →
  m_reducer_instance m = cp_reducer_instance c
  ∧ post_accept_eqb (remote_command_post_accept_state m) (cp_post_accept c) = true.
Proof.
  unfold validate_local_live_memory_write_resolution. intros Hv.
  apply result_bind_ok in Hv as (u & Hv & Hrest).
  apply validate_remote_checkpoint_ok in Hv as [? _].
  apply result_bind_ok in Hrest as (u' & Hp & _). apply fail_if_ok in Hp.
  split; [done|]. by apply negb_false_iff.
Qed.

Lemma resolve_success_spec c r m :
  session_inv m →
  wp (resolve_live_memory_write_success c r)
    (λ _ m', resolved c m m' ∧ m_reducer_instance m = cp_reducer_instance c)
    (λ _ m', m' = m) m.
Proof.
  intros Hm. unfold resolve_live_memory_write_success. wp_step.
  apply wp_read; [|done|apply local_write_resolution_no_panic].
  intros stop Hv. apply local_write_resolution_ok in Hv as [Hi _].
  session_wp. destruct (set_pending_none_ok m Hm) as [? ? _].
  split; [|done]. split; [done|]. split; [done|]. by left.
Qed.

Lemma resolve_no_effect_spec c r m :
  session_inv m → (m_reducer_instance m = cp_reducer_instance c → checkpoint_ok m c) →
  wp (resolve_live_memory_write_no_effect c r)
    (λ _ m', resolved c m m' ∧ m_reducer_instance m = cp_reducer_instance c)
    (λ _ m', m' = m) m.
Proof.
  intros Hm Hc. unfold resolve_live_memory_write_no_effect, restore_checkpoint. wp_step.
  apply wp_read; [|done|apply local_write_resolution_no_panic].
  intros stop Hv. apply local_write_resolution_ok in Hv as [Hi Hpost].
  wp_step. wp_step; [|done]. do 12 wp_step. fold (restored c m). split; [|done].
  split; [by apply restored_inv; [|apply Hc]|]. split; [apply restored_extends|].
  right. by split.
Qed.

(** ** Live memory writes *)

(** What a begun live memory write established. *)
Record write_begun (fresh : Z) (e : CommandEnvelope) (b : LiveTargetBinding)
    (m : SessionMachine) (c : RemoteCommandCheckpoint) (t : ValidatedLiveMemoryWrite)
    (r : LocalLiveMemoryWriteReceiptIdentity) (m' : SessionMachine) : Prop := {
  wb_begun : begun e m (set_local_write None c) m';
  wb_command : ce_command e = DC.WriteMemory (lw_stop (vw_write t)) (lw_address (vw_write t))
                 (lw_expected (vw_write t)) (lw_replacement (vw_write t));
  wb_ticket : matches_checkpoint t c = true;
  wb_checkpoint : cp_local_live_memory_write c = Some (vw_write t);
  wb_receipt : ri_write r = vw_write t;
  wb_fresh : lw_address_of (vw_write t) = fresh;
  wb_id : lw_command_id (vw_write t) = ce_command_id e;
  wb_binding : lw_binding (vw_write t) = b;
  wb_attach : ∃ a, m_target m = Some (DTR.Attach a) ∧ att_mode a = Debug
                   ∧ scope_process (att_scope a) = lb_process b;
  wb_span : ∃ rva, rva_for_address_span b (lw_address (vw_write t))
                     (zlen (lw_expected (vw_write t))) = Ok rva
}.

Lemma rva_for_address_span_no_panic b a n :
  valid_binding b → no_panic (rva_for_address_span b a n).
Proof.
  intros Hb. unfold rva_for_address_span. rewrite image_end_run by done. no_panic.
Qed.

Lemma require_debug_attach_spec b m (Q : unit → SessionMachine → Prop) QE :
  ((∃ a, m_target m = Some (DTR.Attach a) ∧ att_mode a = Debug
         ∧ scope_process (att_scope a) = lb_process b) → Q tt m) →
  (∀ e, QE e m) → wp (require_debug_attach b) Q QE m.
Proof.
  intros H1 H2. unfold wp, require_debug_attach, sread.
  destruct (m_target m) as [[l|a|d|o]|]; try done.
  case_bool_decide; [|done]. unfold fail_if. case_bool_decide; simpl; [|done]. eauto.
Qed.

Lemma set_local_write_idem w c :
  cp_local_live_memory_write c = None → set_local_write None (set_local_write w c) = c.
Proof. destruct c. simpl. by intros ->. Qed.

#[local] Arguments set_local_write : simpl never.

Lemma begin_live_memory_write_spec fresh e b m :
  session_inv m → valid_binding b →
  wp (begin_live_memory_write fresh e b)
    (λ r m', write_begun fresh e b m r.1.1 r.1.2 r.2 m') (λ _ m', step_err m m') m.
Proof.
  intros Hm Hb. unfold begin_live_memory_write.
  destruct (ce_command e) as [| | | | | |stop a x y| | | | | | | |] eqn:He;
    try by (apply wp_err, step_err_refl).
  wp_step. apply wp_lift_check; [apply no_panic_map_err, envelope_validate_no_panic| |
    by intros; apply step_err_refl].
  intros _. wp_step. apply require_debug_attach_spec; [|by intros; apply step_err_refl].
  intros Hatt. wp_step. apply wp_lift; [|by intros; apply step_err_refl|].
  2: { by apply no_panic_map_err, rva_for_address_span_no_panic. }
  intros rva Hrva. rewrite map_err_ok in Hrva. wp_step.
  eapply wp_mono; [by apply begin_remote_command_spec; [|rewrite He]|..]; simpl; [|done].
  intros c m' Hc. set (w := mkLocalWrite _ _ _ _ _ _ _).
  assert (matches_checkpoint (mkValidatedWrite (cp_reducer_instance c) w)
            (set_local_write (Some w) c) = true) as Hmatch.
  { unfold matches_checkpoint, ptr_eq, set_local_write. simpl.
    by rewrite (beg_id _ _ _ _ Hc), !Z.eqb_refl. }
  change (cp_reducer_instance (set_local_write (Some w) c)) with (cp_reducer_instance c).
  rewrite Hmatch. unfold wp, sbind, slift, sret. simpl.
  split; simpl; try done; [|eauto]. rewrite set_local_write_idem; [done|].
  apply (beg_write _ _ _ _ Hc).
Qed.

(** ** Unsolicited observations *)

Definition observable (s : SessionState) : Prop :=
  match s with SS.Stopped _ _ _ | SS.Exited _ _ => True | _ => False end.

(** Everything but the three fields a failed batch restores. *)
Definition batch_frame (m : SessionMachine) : SessionMachine :=
  set_state (SS.Idle (mkStateToken 0 0)) (set_last_stop_id 0 (set_sandbox None m)).

Lemma mark_stopped_frame r th : keeps batch_frame (mark_stopped r th).
Proof.
  unfold mark_stopped, require_state, require_open_target, next_state_token,
    allocate_stop_token, transition_to. keeps.
Qed.

Lemma mark_exited_frame c : keeps batch_frame (mark_exited c).
Proof.
  unfold mark_exited, require_state, next_state_token, transition_to. keeps.
Qed.

Lemma apply_observations_frame l : keeps batch_frame (apply_observations l).
Proof.
  induction l as [|o l IH]; simpl; [keeps|].
  apply keeps_bind; [|intros; by keeps].
  destruct o; try apply keeps_lift; intros m; [apply mark_stopped_frame|apply mark_exited_frame].
Qed.

Lemma last_cons_default {A} (x d : A) l : List.last (x :: l) d = List.last l x.
Proof.
  revert x d. induction l as [|y l IH]; intros x d; [done|].
  change (List.last (y :: l) d = List.last (y :: l) x). by rewrite !IH.
Qed.

Lemma apply_observations_spec l m :
  session_inv m → Forall observable l →
  wp (apply_observations l)
    (λ _ m', session_inv m' ∧ extends m m' ∧ ∃ states, state_chain (m_state m) states
       ∧ Forall2 (λ s o, SessionState_eqb s o = true) states l
       ∧ m_state m' = List.last states (m_state m))
    (λ _ _, True) m.
Proof.
  revert m. induction l as [|o l IH]; intros m Hm Ho; simpl.
  - wp_step. split; [done|]. split; [apply extends_refl|]. exists []. simpl. eauto.
  - inversion_clear Ho as [|?? Hob Hl]. wp_step.
    assert (∀ s m', moved m s m' →
      wp (do! slift (fail_if (negb (SessionState_eqb s o)) (StateMismatch s o)) in
          apply_observations l)
        (λ _ m', session_inv m' ∧ extends m m' ∧ ∃ states, state_chain (m_state m) states
           ∧ Forall2 (λ s o, SessionState_eqb s o = true) states (o :: l)
           ∧ m_state m' = List.last states (m_state m)) (λ _ _, True) m') as Hrest.
    { intros s m' ([? ? _] & -> & Hv). wp_step. wp_step; [|done].
      eapply wp_mono; [by apply IH|..]; [|done].
      intros u m'' (? & ? & states & ? & ? & Heq). split; [done|].
      split; [by eapply extends_trans|]. exists (m_state m' :: states).
      split; [done|]. split; [by constructor|]. rewrite Heq. by rewrite last_cons_default. }
    destruct o; try done; wp_step; (eapply wp_mono; [|exact Hrest|done]);
      [by apply mark_stopped_spec|by apply mark_exited_spec].
Qed.

(** A batch is applied as a whole or not at all. *)
Lemma apply_unsolicited_spec l m :
  session_inv m → Forall observable l →
  wp (apply_unsolicited_observations l)
    (λ _ m', session_inv m' ∧ extends m m' ∧ ∃ states, state_chain (m_state m) states
       ∧ Forall2 (λ s o, SessionState_eqb s o = true) states l
       ∧ m_state m' = List.last states (m_state m))
    (λ _ m', m' = m) m.
Proof.
  intros Hm Ho. pose proof (apply_observations_spec l m Hm Ho) as Hspec.
  pose proof (apply_observations_frame l m) as Hframe.
  unfold wp, apply_unsolicited_observations in *.
  destruct (apply_observations l m) as [[u|e|p] m'] eqn:Hrun; [done| |done].
  simpl in Hframe. destruct m, m'. unfold batch_frame in Hframe. simpl in *.
  unfold set_state, set_sandbox, set_last_stop_id in *. simpl in *.
  injection Hframe. by intros; subst.
Qed.
End commands.
