(* ===== verification/SessionWorlds.v ===== *)
(** Runs of a session: every call a host, a controller or a backend can make
    on the reducer, the worlds these calls reach, and the theorems that hold
    in all of them.

    A world is the reducer and the checkpoints it has handed out.  Checkpoints
    are move-only in Rust; here they may even be presented again, and so may
    checkpoints of other reducers, which carry another instance address. *)

From S2P Require Import Prelude Identity Sandbox SandboxPolicyTheory SandboxLifecycle Protocol.
From S2P Require Import ProtocolTheory Authorization SessionMachine SessionInvariant.
From S2P Require Import SessionCommands.
Open Scope Z_scope.

(** ** Calls and worlds *)

Inductive session_call : Type :=
  | RegisterHost (v : HostRiskVerifier)
  | RegisterOwnership (v : SandboxOwnershipVerifier)
  | AcceptCommand (e : CommandEnvelope)
  | BeginRemote (e : CommandEnvelope)
  | BeginWrite (fresh : Z) (e : CommandEnvelope) (b : LiveTargetBinding)
  | ResolveSuccess (c : RemoteCommandCheckpoint) (r : LocalLiveMemoryWriteReceiptIdentity)
  | ResolveNoEffect (c : RemoteCommandCheckpoint) (r : LocalLiveMemoryWriteReceiptIdentity)
  | CommitRemote (c : RemoteCommandCheckpoint) (id : Z)
  | RejectRemote (c : RemoteCommandCheckpoint) (id : Z)
  | TargetCreated (p : ProcessIdentity)
  | AcceptAttestation (a : SandboxAttestation)
  | OpenOffline
  | OpenDump
  | OpenObserving (process_id : Z)
  | MarkStopped (reason : StopReason) (thread_id : Z)
  | MarkExited (exit_code : Z)
  | MarkFailed (message : list Z)
  | Unsolicited (observations : list SessionState)
  | CompleteClose (receipt : option SandboxCleanupReceipt)
  | RecordNotCreated
  | RetainFailure (f : SandboxFailure).

(** A call keeps only the checkpoint it minted, if any. *)
Definition plain {A} (c : session_op A)
    : smonad SessionMachine UnsolicitedObservationError (option RemoteCommandCheckpoint) :=
  smap_err Reducer (do! c in sret None).

Section worlds.
Context `{Sha256}.

Definition session_exec (c : session_call)
    : smonad SessionMachine UnsolicitedObservationError (option RemoteCommandCheckpoint) :=
  match c with
  | RegisterHost v => plain (register_host_risk_verifier v)
  | RegisterOwnership v => plain (register_sandbox_ownership_verifier v)
  | AcceptCommand e => plain (accept_command e)
  | BeginRemote e => smap_err Reducer (let! c := begin_remote_command e in sret (Some c))
  | BeginWrite fresh e b =>
      smap_err Reducer (let! r := begin_live_memory_write fresh e b in sret (Some r.1.1))
  | ResolveSuccess c r => plain (resolve_live_memory_write_success c r)
  | ResolveNoEffect c r => plain (resolve_live_memory_write_no_effect c r)
  | CommitRemote c id => plain (commit_remote_command c id)
  | RejectRemote c id => plain (reject_remote_command c id)
  | TargetCreated p => plain (target_created_suspended p)
  | AcceptAttestation a => plain (accept_sandbox_attestation a)
  | OpenOffline => plain complete_open_offline
  | OpenDump => plain complete_open_dump
  | OpenObserving p => plain (complete_open_observing p)
  | MarkStopped r th => plain (mark_stopped r th)
  | MarkExited code => plain (mark_exited code)
  | MarkFailed msg => plain (mark_failed msg)
  | Unsolicited l => do! apply_unsolicited_observations l in sret None
  | CompleteClose r => plain (complete_close r)
  | RecordNotCreated => plain record_sandbox_target_not_created
  | RetainFailure f => plain (retain_sandbox_failure_target_creation f)
  end.

Record World : Type := mkWorld {
  w_machine : SessionMachine;
  w_minted : list RemoteCommandCheckpoint
}.

Definition world_step (w : World) (c : session_call) : World :=
  let r := session_exec c (w_machine w) in
  mkWorld r.2 (match r.1 with Ok (Some cp) => cp :: w_minted w | _ => w_minted w end).

Definition presentable (w : World) (c : RemoteCommandCheckpoint) : Prop :=
  c ∈ w_minted w ∨ cp_reducer_instance c ≠ m_reducer_instance (w_machine w).

(** The calls Rust's types allow in a world. *)
Definition admissible (w : World) (c : session_call) : Prop :=
  match c with
  | AcceptCommand e | BeginRemote e => typed_command (ce_command e)
  | BeginWrite _ _ b => valid_binding b
  | ResolveSuccess c _ | ResolveNoEffect c _ | CommitRemote c _ | RejectRemote c _ =>
      presentable w c
  | Unsolicited l => Forall observable l
  | _ => True
  end.

Inductive reachable : World → Prop :=
  | reach_new instance sid epoch helper m :
      SessionMachine_new instance sid epoch helper = Ok m → reachable (mkWorld m [])
  | reach_step w c : reachable w → admissible w c → reachable (world_step w c).
End worlds.

(** ** The invariant of a world *)

Section world_inv.
Context `{Sha256Spec}.

(** A checkpoint this machine minted. *)
Record minted_by (m : SessionMachine) (c : RemoteCommandCheckpoint) : Prop := {
  mb_ok : checkpoint_ok m c;
  mb_instance : cp_reducer_instance c = m_reducer_instance m;
  mb_open : state_kind (cp_state c) ≠ SSK.Closed
}.

Record world_inv (w : World) : Prop := {
  wi_machine : session_inv (w_machine w);
  wi_minted : Forall (minted_by (w_machine w)) (w_minted w)
}.

(** How a call moved the visible state of the machine. *)
Definition visible_step (w : World) (m' : SessionMachine) : Prop :=
  m_state m' = m_state (w_machine w)
  ∨ (∃ states, states ≠ [] ∧ state_chain (m_state (w_machine w)) states
               ∧ m_state m' = List.last states (m_state (w_machine w)))
  ∨ ∃ c, c ∈ w_minted w ∧ m' = restored c (w_machine w)
         ∧ post_accept_eqb (remote_command_post_accept_state (w_machine w))
             (cp_post_accept c) = true.

(** The outcome of one call in a world. *)
Definition call_ok (w : World) (r : option RemoteCommandCheckpoint) (m' : SessionMachine)
    : Prop :=
  session_inv m' ∧ extends (w_machine w) m' ∧ visible_step w m'
  ∧ (∀ c, r = Some c → minted_by m' c).

Lemma step_ok_call w m' : step_ok (w_machine w) m' → call_ok w None m'.
Proof.
  intros [? ? Hm]. split; [done|]. split; [done|]. split; [|done].
  destruct Hm as [Hm|Hm]; [by left|]. right. left. by exists [m_state m'].
Qed.

Lemma wp_plain {A} (c : session_op A) w :
  wp c (λ _ m', step_ok (w_machine w) m') (λ _ m', step_err (w_machine w) m') (w_machine w) →
  wp (plain c) (call_ok w) (λ _ m', step_err (w_machine w) m') (w_machine w).
Proof.
  intros Hc. unfold plain. wp_step. wp_step. eapply wp_mono; [done|..]; [|done].
  intros a m' Hm'. wp_step. by apply step_ok_call.
Qed.

Lemma new_inv instance sid epoch helper m :
  SessionMachine_new instance sid epoch helper = Ok m → session_inv m.
Proof.
  intros [= <-]. split; [|done|done|by apply registries_empty|done].
  split; [done|done|done| |done]. unfold gate_ok. simpl. auto.
Qed.

Lemma minted_ok w c :
  world_inv w → presentable w c →
  m_reducer_instance (w_machine w) = cp_reducer_instance c → c ∈ w_minted w.
Proof. intros _ [?|Hne] Heq; [done|]. by rewrite Heq in Hne. Qed.

Lemma resolved_call {A} (c : session_op A) cp w :
  world_inv w → presentable w cp →
  wp c (λ _ m', resolved cp (w_machine w) m'
                ∧ m_reducer_instance (w_machine w) = cp_reducer_instance cp)
    (λ _ m', m' = w_machine w) (w_machine w) →
  wp (plain c) (call_ok w) (λ _ m', step_err (w_machine w) m') (w_machine w).
Proof.
  intros Hw Hp Hc. unfold plain. wp_step. wp_step. eapply wp_mono; [done|..].
  - intros a m' [(? & ? & Hst) Hin]. wp_step. split; [done|]. split; [done|]. split; [|done].
    destruct Hst as [?|[Hr Hpost]]; [by left|]. right. right. exists cp. split; [|done].
    by apply minted_ok.
  - intros e m' ->. apply step_err_refl, Hw.
Qed.

Lemma minted_checkpoint w cp :
  world_inv w → presentable w cp →
  m_reducer_instance (w_machine w) = cp_reducer_instance cp →
  checkpoint_ok (w_machine w) cp.
Proof.
  intros Hw Hp Hi. pose proof (minted_ok w cp Hw Hp Hi) as Hin.
  destruct Hw as [_ Hm]. rewrite list.Forall_forall in Hm. by apply Hm.
Qed.

Lemma accepted_not_closed e s :
  is_probe (ce_command e) = false → validate_against e s = Ok tt → state_kind s ≠ SSK.Closed.
Proof.
  intros Hp Hv. apply validate_against_ok in Hv as (_ & _ & _ & Hal); [|done].
  destruct s; try done. exfalso. revert Hal.
  destruct (ce_command e) as [| | | | |[]| |[]| | | |[]|[]|[]|]; done.
Qed.

Lemma minted_by_extends m m' c : extends m m' → minted_by m c → minted_by m' c.
Proof.
  intros He [? ? ?]. split; [by eapply checkpoint_ok_extends| |done].
  by rewrite (ext_instance _ _ He).
Qed.

Lemma begun_call w e c m' :
  world_inv w → begun e (w_machine w) c m' → call_ok w (Some c) m'.
Proof.
  intros Hw [? [[_ He Hmv] _ _ _ Hpr Hval _] ? Hinv Hi _ Hv _ _]. split; [done|].
  assert (extends (w_machine w) m') as Hext by (by destruct He).
  split; [done|]. split.
  - destruct Hmv as [Hmv|Hmv]; [by left|]. right. left. by exists [m_state m'].
  - intros ? [= <-]. split; [|by rewrite (ext_instance _ _ Hext)|].
    + eapply checkpoint_ok_extends; [done|]. unfold checkpoint_ok. rewrite Hv.
      apply (inv_visible _ (wi_machine _ Hw)).
    + injection Hv as -> _ _ _ _. by eapply accepted_not_closed.
Qed.

Lemma session_exec_spec w c :
  world_inv w → admissible w c →
  wp (session_exec c) (call_ok w) (λ _ m', step_err (w_machine w) m') (w_machine w).
Proof.
  intros Hw Ha. pose proof (wi_machine _ Hw) as Hm. destruct c; simpl in Ha |- *.
  - by apply wp_plain, register_host_preserves.
  - by apply wp_plain, register_owned_preserves.
  - by apply wp_plain, accept_command_preserves.
  - wp_step. wp_step. eapply wp_mono; [by apply begin_remote_command_spec|..]; [|done].
    intros cp m' Hb. wp_step. by eapply begun_call.
  - wp_step. wp_step. eapply wp_mono; [by apply begin_live_memory_write_spec|..]; [|done].
    intros r m' Hb. wp_step. pose proof (wb_begun _ _ _ _ _ _ _ _ Hb) as Hbeg.
    destruct (begun_call w _ _ _ Hw Hbeg) as (? & ? & ? & Hcp).
    split; [done|]. split; [done|]. split; [done|].
    intros ? [= <-]. by destruct (Hcp _ eq_refl).
  - apply (resolved_call _ c); [done..|]. by apply resolve_success_spec.
  - apply (resolved_call _ c); [done..|]. apply resolve_no_effect_spec; [done|].
    by apply minted_checkpoint.
  - by apply wp_plain, commit_preserves.
  - apply (resolved_call _ c); [done..|]. eapply wp_mono; [apply reject_spec; [done|]|..].
    + by apply minted_checkpoint.
    + intros s m' (_ & _ & ? & ? & _). by split.
    + done.
  - by apply wp_plain, target_created_suspended_preserves.
  - by apply wp_plain, accept_sandbox_attestation_preserves.
  - by apply wp_plain, complete_open_offline_preserves.
  - by apply wp_plain, complete_open_dump_preserves.
  - by apply wp_plain, complete_open_observing_preserves.
  - by apply wp_plain, mark_stopped_preserves.
  - by apply wp_plain, mark_exited_preserves.
  - by apply wp_plain, mark_failed_preserves.
  - wp_step. eapply wp_mono; [by apply apply_unsolicited_spec|..].
    + intros u m' (? & ? & states & ? & _ & Hl). wp_step. split; [done|]. split; [done|].
      split; [|done]. destruct states as [|s states]; [by left|]. right. left.
      by exists (s :: states).
    + intros e m' ->. by apply step_err_refl.
  - by apply wp_plain, complete_close_preserves.
  - by apply wp_plain, record_not_created_preserves.
  - by apply wp_plain, retain_failure_preserves.
Qed.

Lemma world_step_inv w c : world_inv w → admissible w c → world_inv (world_step w c).
Proof.
  intros Hw Ha. pose proof (session_exec_spec w c Hw Ha) as Hspec. unfold wp in Hspec.
  unfold world_step. destruct (session_exec c (w_machine w)) as [[r|e|p] m']; [| |done]; simpl.
  - destruct Hspec as (Hm & He & _ & Hr).
    assert (Forall (minted_by m') (w_minted w)) as HF.
    { eapply Forall_impl; [|apply Hw]. intros cp. by apply minted_by_extends. }
    destruct r as [cp|]; [|done]. split; [done|]. constructor; [|done]. by apply Hr.
  - destruct Hspec as [Hm He _ _ _ _]. split; [done|]. simpl.
    eapply Forall_impl; [|apply Hw]. intros cp. by apply minted_by_extends.
Qed.

Lemma reachable_inv w : reachable w → world_inv w.
Proof.
  induction 1 as [? ? ? ? m Hm|w c Hr IH Ha]; [|by apply world_step_inv].
  split; [by eapply new_inv|constructor].
Qed.

(** C1: the reducer's invariant holds in every reachable world: the visible
    state, the target, the execution gate and the sandbox agree, tokens never
    run ahead of their watermarks, registered grants belong to this session
    and epoch, and every checkpoint handed out could be restored. *)
Theorem session_worlds_coherent w : reachable w → world_inv w.
Proof. apply reachable_inv. Qed.

(** C2: in every reachable world every call refines the wire contract: it
    never panics; an error leaves the visible state, the pending command and
    the set of usable grants untouched or smaller; a success keeps the state,
    advances it through transitions the consumer-side successor relation
    admits, or restores a checkpoint this reducer handed out. *)
Theorem session_call_refines w c :
  reachable w → admissible w c →
  match session_exec c (w_machine w) with
  | (Ok _, m') => visible_step w m'
  | (Err _, m') =>
      visible m' = visible (w_machine w)
      ∧ m_pending_remote_command m' = m_pending_remote_command (w_machine w)
      ∧ no_new_grants (m_host_risk_leases (w_machine w)) (m_host_risk_leases m')
      ∧ no_new_grants (m_sandbox_ownership_leases (w_machine w)) (m_sandbox_ownership_leases m')
  | (Panic _, _) => False
  end.
Proof.
  intros Hr Ha. pose proof (session_exec_spec w c (reachable_inv w Hr) Ha) as Hs.
  unfold wp in Hs. destruct (session_exec c (w_machine w)) as [[r|e|p] m'].
  - apply Hs.
  - by destruct Hs.
  - done.
Qed.

Lemma accepted_attested w :
  world_inv w → m_execution_gate (w_machine w) = SandboxAccepted →
  ∃ sb t policy ex p, m_sandbox (w_machine w) = Some sb
    ∧ m_target (w_machine w) = Some (DTR.Launch t) ∧ lt_environment t = Sandboxed policy
    ∧ from_policy (lt_binary_id t) policy (m_helper_build (w_machine w))
        (m_provisioning_epoch (w_machine w)) = Ok ex
    ∧ created_process sb = Some p ∧ process_binary_id p = ex_binary_id ex
    ∧ sm_accepted_attestation sb = Some (attestation_for ex p).
Proof.
  intros Hw Hg. pose proof (inv_gate _ (wi_machine _ Hw)) as Hgate.
  unfold gate_ok in Hgate. simpl in Hgate. rewrite Hg in Hgate.
  destruct Hgate as (_ & sb & t & policy & ex & Hsb & Ht & He & _ & Hf & Hi & Hacc).
  destruct (sm_accepted_attestation sb) as [a|] eqn:Ha; [|by pose proof (proj1 Hacc eq_refl)].
  destruct (si_accepted _ _ Hi a Ha) as (p & Hp & ->).
  exists sb, t, policy, ex, p. rewrite created_process_some.
  destruct (si_created _ _ Hi p Hp) as [Hb _]. auto 10.
Qed.

(** C3: sandboxed code never runs unattested.  In every reachable world, if
    the target is a sandboxed launch and the session shows it stopped,
    running, pausing or exited (or merely attested), then a suspended process
    of exactly the requested binary had been created and the accepted
    attestation is the single one that this policy, helper build and
    provisioning epoch admit for that process. *)
Theorem sandboxed_execution_attested w t policy :
  reachable w →
  m_target (w_machine w) = Some (DTR.Launch t) → lt_environment t = Sandboxed policy →
  state_kind (m_state (w_machine w)) ∈
    [SSK.AttestationAccepted; SSK.Stopped; SSK.Running; SSK.Pausing; SSK.Exited] →
  ∃ sb ex p, m_sandbox (w_machine w) = Some sb
    ∧ from_policy (lt_binary_id t) policy (m_helper_build (w_machine w))
        (m_provisioning_epoch (w_machine w)) = Ok ex
    ∧ created_process sb = Some p ∧ process_binary_id p = lt_binary_id t
    ∧ sm_accepted_attestation sb = Some (attestation_for ex p).
Proof.
  intros Hr Ht He Hk. pose proof (reachable_inv w Hr) as Hw.
  pose proof (wi_machine _ Hw) as Hm.
  assert (gate_allows_execution (m_execution_gate (w_machine w))) as Hg.
  { destruct (decide (state_kind (m_state (w_machine w)) = SSK.Exited)) as [Hx|Hx].
    - kind_cases Hm.
    - apply inv_gate_allows; [done|]. set_solver. }
  assert (m_execution_gate (w_machine w) = SandboxAccepted) as Hacc.
  { pose proof (inv_gate _ Hm) as Hgate. unfold gate_ok in Hgate. simpl in Hgate.
    destruct Hg as [Hg|[Hg|Hg]]; [| |done]; rewrite Hg in Hgate.
    - destruct Hgate as (_ & _ & t' & Ht' & Hh). rewrite Ht in Ht'. simplify_eq.
      destruct Hh as [lease Hh]. congruence.
    - destruct Hgate as (_ & b & a & lease & _ & Ha & _). congruence. }
  destruct (accepted_attested w Hw Hacc)
    as (sb & t' & pol & ex & p & Hsb & Ht' & He' & Hf & Hp & Hb & Ha).
  assert (t' = t) as -> by congruence. assert (pol = policy) as -> by congruence.
  exists sb, ex, p. do 3 (split; [done|]). split; [|done].
  rewrite Hb. unfold from_policy in Hf. apply result_bind_ok in Hf as (d & _ & Hf). by simplify_eq.
Qed.
End world_inv.
