(* ===== verification/SessionTheorems.v ===== *)
(** Theorems about single calls and short exchanges with the session reducer:
    closing, remote-command rollback, replay protection and one-use
    authority. *)

From S2P Require Import Prelude Identity Sandbox SandboxPolicyTheory SandboxLifecycle Protocol.
From S2P Require Import ProtocolTheory Authorization SessionMachine SessionInvariant.
From S2P Require Import SessionCommands SessionWorlds.
Open Scope Z_scope.

(** ** Closing *)

(** Calls that cannot turn an open session into a closed one. *)
Definition stays_open {E A} (c : smonad SessionMachine E A) : Prop :=
  ∀ m, state_kind (m_state m) ≠ SSK.Closed → state_kind (m_state (c m).2) ≠ SSK.Closed.

Lemma stays_open_keeps {E A} (c : smonad SessionMachine E A) :
  keeps m_state c → stays_open c.
Proof. intros Hk m. by rewrite Hk. Qed.

Lemma stays_open_bind {E A B} (c : smonad SessionMachine E A)
    (k : A → smonad SessionMachine E B) :
  stays_open c → (∀ a, stays_open (k a)) → stays_open (sbind c k).
Proof.
  intros Hc Hk m Hm. specialize (Hc m Hm). unfold sbind.
  destruct (c m) as [[a|e|p] m']; [|done..]. by apply Hk.
Qed.

Lemma stays_open_map_err {E F A} (f : E → F) (c : smonad SessionMachine E A) :
  stays_open c → stays_open (smap_err f c).
Proof. by intros Hc m Hm; apply Hc. Qed.

Lemma stays_open_transition next :
  state_kind next ≠ SSK.Closed → stays_open (transition_to next).
Proof.
  intros Hn m Hm. unfold transition_to, sbind, sread, supd.
  destruct (map_err _ _) as [[]| |]; done.
Qed.

Lemma stays_open_on_sandbox {A} none (c : sandbox_op A) : stays_open (on_sandbox none c).
Proof. apply stays_open_keeps. intros m. unfold on_sandbox. by destruct (m_sandbox m). Qed.

Ltac stays_open :=
  repeat first
    [ match goal with
      | Hx : ∀ _, stays_open _ |- _ => apply Hx
      | Hx : stays_open _ |- _ => apply Hx
      end
    | apply stays_open_transition; done
    | apply stays_open_on_sandbox
    | apply stays_open_map_err
    | apply stays_open_bind; [|intros]
    | solve [apply stays_open_keeps; keeps]
    | match goal with |- stays_open (match ?x with _ => _ end) => destruct x end ].

Section closing.
Context `{Sha256Spec}.

Lemma accept_inner_stays_open e : stays_open (accept_command_inner e).
Proof.
  unfold accept_command_inner, observe_command_id, accept_effect, accept_open,
    refresh_stopped_token, allocate_stop_token, allocate_run_token, open_authority,
    consume_host_risk_lease, consume_sandbox_ownership_lease.
  stays_open.
Qed.

Lemma observations_stay_open l : stays_open (apply_unsolicited_observations l).
Proof.
  assert (stays_open (apply_observations l)) as Hl.
  { induction l as [|o l IH]; simpl; [stays_open|].
    unfold mark_stopped, mark_exited, require_open_target, allocate_stop_token.
    stays_open; done. }
  intros m Hm. specialize (Hl m Hm). unfold apply_unsolicited_observations.
  by destruct (apply_observations l m) as [[] ?].
Qed.

Lemma restore_stays_open c :
  state_kind (cp_state c) ≠ SSK.Closed → stays_open (restore_checkpoint c).
Proof. intros Hc m Hm. unfold restore_checkpoint. simpl. done. Qed.

(** The calls that put a checkpoint back. *)
Definition restores (c : session_call) : option RemoteCommandCheckpoint :=
  match c with ResolveNoEffect cp _ | RejectRemote cp _ => Some cp | _ => None end.

Lemma exec_stays_open c :
  (∀ r, c ≠ CompleteClose r) →
  (∀ cp, restores c = Some cp → state_kind (cp_state cp) ≠ SSK.Closed) →
  stays_open (session_exec c).
Proof.
  intros Hc Hr. pose proof accept_inner_stays_open. pose proof observations_stay_open.
  destruct c; unfold session_exec, plain; try by edestruct Hc.
  all: try specialize (Hr _ eq_refl); try (pose proof (restore_stays_open _ Hr)).
  all: unfold accept_command, begin_live_memory_write, begin_remote_command,
    resolve_live_memory_write_success, resolve_live_memory_write_no_effect,
    commit_remote_command, reject_remote_command, target_created_suspended,
    accept_sandbox_attestation, complete_open_offline, complete_open_dump,
    complete_open_observing, mark_stopped, mark_exited, mark_failed,
    record_sandbox_target_not_created, retain_sandbox_failure_target_creation,
    require_open_target, allocate_stop_token, register_host_risk_verifier,
    register_sandbox_ownership_verifier.
  all: stays_open.
Qed.

Lemma foreign_keeps w c cp :
  world_inv w → restores c = Some cp →
  cp_reducer_instance cp ≠ m_reducer_instance (w_machine w) →
  (session_exec c (w_machine w)).2 = w_machine w.
Proof.
  intros Hw Hr Hne. destruct c; simplify_eq/=.
  all: unfold resolve_live_memory_write_no_effect, reject_remote_command,
    validate_local_live_memory_write_resolution, validate_remote_checkpoint, sbind, sread.
  all: rewrite (proj2 (Z.eqb_neq _ _)) by done; done.
Qed.

Lemma call_stays_open w c :
  world_inv w → admissible w c → (∀ r, c ≠ CompleteClose r) →
  state_kind (m_state (w_machine w)) ≠ SSK.Closed →
  state_kind (m_state (session_exec c (w_machine w)).2) ≠ SSK.Closed.
Proof.
  intros Hw Ha Hc Hk. destruct (restores c) as [cp|] eqn:Hcp.
  - assert (presentable w cp) as [Hin|Hne] by by destruct c; simplify_eq/=.
    + apply exec_stays_open; [done| |done]. intros ? Heq. simplify_eq.
      destruct Hw as [_ HF]. rewrite list.Forall_forall in HF. by apply HF.
    + by rewrite (foreign_keeps w c cp).
  - apply exec_stays_open; [done|by rewrite Hcp|done].
Qed.

(** The evidence a session must present to close. *)
Definition close_evidence (m : SessionMachine) (r : option SandboxCleanupReceipt) : Prop :=
  match m_sandbox m, m_inherited_sandbox m with
  | None, None => r = None
  | Some sb, None =>
      ∃ rc o, r = Some rc ∧ sm_state sb = SLS.Cleanup ∧ sm_target_creation sb = Some o
        ∧ receipt_bound rc (sm_expected sb) (outcome_process o)
        ∧ fully_clean rc (ex_boundary (sm_expected sb))
  | None, Some b =>
      ∃ rc, r = Some rc ∧ rc_session_id rc = sob_session_id b
        ∧ rc_provisioning_epoch rc = sob_provisioning_epoch b
        ∧ rc_provider rc = sob_provider b ∧ rc_policy_digest rc = sob_policy_digest b
        ∧ rc_process rc = Some (sob_process b)
        ∧ fully_clean rc (provider_boundary (sob_provider b))
  | Some _, Some _ => False
  end.

Lemma inherited_cleanup_ok b r :
  validate_inherited_cleanup b r = Ok tt →
  rc_session_id r = sob_session_id b ∧ rc_provisioning_epoch r = sob_provisioning_epoch b
  ∧ rc_provider r = sob_provider b ∧ rc_policy_digest r = sob_policy_digest b
  ∧ rc_process r = Some (sob_process b) ∧ fully_clean r (provider_boundary (sob_provider b)).
Proof.
  unfold validate_inherited_cleanup, validate_inherited_cleanup_binding.
  intros Hv. rust_inv Hv. destruct H1. split_and?; try done.
  by apply validate_for_boundary_complete.
Qed.

Lemma complete_close_spec r m :
  session_inv m →
  wp (complete_close r) (λ _ _, state_kind (m_state m) = SSK.Closing ∧ close_evidence m r)
    (λ _ _, True) m.
Proof.
  intros Hm. unfold complete_close, close_evidence.
  session_step. session_step; [|done]. session_step. session_step; [|done].
  assert (state_kind (m_state m) = SSK.Closing) as Hk by set_solver.
  do 5 session_step.
  destruct (m_sandbox m) as [sb|] eqn:Hsb, (m_inherited_sandbox m) as [b|] eqn:Hinh,
    r as [rc|]; try by (session_wp).
  - eapply wp_on_sandbox; [apply guarded_close| |done|by rewrite Hsb].
    intros sb' Hsb' (Hs & Ho & o & Hto & Hval). simplify_eq.
    apply receipt_validate_against_ok in Hval as [Hb Hv].
    session_wp; [|done]. split; [done|]. exists rc, o. split_and?; try done.
    by apply validate_for_boundary_complete.
  - apply wp_lift_check; [apply validate_inherited_no_panic| |done].
    intros Hv. session_wp; [|done]. split; [done|]. exists rc. split; [done|].
    by apply inherited_cleanup_ok.
Qed.

(** C4: a session closes only on evidence.  In every reachable world, a call
    that turns an open session into a closed one is [complete_close], out of
    the closing state, and its receipt is exactly what the session owes: none
    when it owns no sandbox, and otherwise a receipt bound to this session,
    provisioning epoch, provider, policy digest and process that proves every
    rollback step of its boundary. *)
Theorem session_closes_on_evidence w c :
  reachable w → admissible w c →
  state_kind (m_state (w_machine w)) ≠ SSK.Closed →
  state_kind (m_state (w_machine (world_step w c))) = SSK.Closed →
  ∃ r, c = CompleteClose r ∧ state_kind (m_state (w_machine w)) = SSK.Closing
       ∧ close_evidence (w_machine w) r.
Proof.
  intros Hr Ha Hk Hk'. pose proof (reachable_inv w Hr) as Hw.
  destruct c as [| | | | | | | | | | | | | | | | | |r| |] eqn:Hc;
    try by (exfalso; apply (call_stays_open w c); subst).
  exists r. split; [done|]. simpl in Hk'. unfold plain, smap_err, sbind, sret in Hk'.
  pose proof (complete_close_spec r (w_machine w) (wi_machine _ Hw)) as Hspec.
  pose proof (complete_close_preserves r (w_machine w) (wi_machine _ Hw)) as Hpres.
  unfold wp in Hspec, Hpres. destruct (complete_close r (w_machine w)) as [[s|e|p] m'];
    [done| |done]. simpl in Hk'. destruct Hpres as [_ _ Hv _ _ _].
  injection Hv as Hv _ _ _ _. congruence.
Qed.
End closing.

(** ** Derived equality is reflexive *)

Lemma path_eqb_refl p : path_eqb p p = true.
Proof. unfold path_eqb. by apply bool_decide_eq_true. Qed.

Lemma option_eqb_refl {A} (f : A → A → bool) o :
  (∀ x, f x x = true) → option_eqb f o o = true.
Proof. intros Hf. destruct o; simpl; auto. Qed.

Ltac eqb_refl :=
  rewrite ?path_eqb_refl, ?Z.eqb_refl;
  rewrite ?(option_eqb_refl path_eqb) by apply path_eqb_refl;
  repeat rewrite bool_decide_true by done; simpl; try done.

Lemma LaunchTarget_eqb_refl t : LaunchTarget_eqb t t = true.
Proof. unfold LaunchTarget_eqb. by eqb_refl. Qed.

Lemma DebugTargetRequest_eqb_refl t : DebugTargetRequest_eqb t t = true.
Proof. destruct t; simpl; [apply LaunchTarget_eqb_refl|by eqb_refl|apply path_eqb_refl..]. Qed.

Lemma SessionState_eqb_refl s : SessionState_eqb s s = true.
Proof.
  unfold SessionState_eqb. destruct s; eqb_refl. apply DebugTargetRequest_eqb_refl.
Qed.

Lemma HostRiskOperation_eqb_refl o : HostRiskOperation_eqb o o = true.
Proof. destruct o; simpl; [unfold HostLaunchIntent_eqb|]; by eqb_refl. Qed.

Lemma HostRiskVerifier_eqb_refl v : HostRiskVerifier_eqb v v = true.
Proof. unfold HostRiskVerifier_eqb. eqb_refl. apply HostRiskOperation_eqb_refl. Qed.

Lemma lease_map_eqb_refl {V} (f : V → V → bool) l :
  (∀ x, f x x = true) → lease_map_eqb f l l = true.
Proof.
  intros Hf. unfold lease_map_eqb. rewrite !bool_decide_true; [done| |done].
  intros k v Hk. rewrite Hk. simpl. by apply option_eqb_refl.
Qed.

Lemma post_accept_eqb_refl p : post_accept_eqb p p = true.
Proof.
  unfold post_accept_eqb. rewrite SessionState_eqb_refl,
    (lease_map_eqb_refl HostRiskVerifier_eqb) by apply HostRiskVerifier_eqb_refl.
  rewrite (option_eqb_refl DebugTargetRequest_eqb) by apply DebugTargetRequest_eqb_refl.
  by eqb_refl.
Qed.

Section exchanges.
Context `{Sha256Spec}.

(** ** Remote commands *)

Lemma wp_run_ok {S E A} (c : smonad S E A) Q QE s a s' :
  c s = (Ok a, s') → wp c Q QE s → Q a s'.
Proof. intros Hr Hw. by eapply wp_elim_ok. Qed.

(** C7: rejecting a remote command is an exact rollback of everything the
    session shows, and of nothing else.  Right after a remote command was
    begun no other command is accepted; rejecting it restores the state,
    target, gate and sandbox records it had before, while the command
    identifier, the stop and run watermarks and the spent leases stay spent. *)
Theorem remote_reject_rolls_back w e c m1 :
  reachable w → typed_command (ce_command e) →
  begin_remote_command e (w_machine w) = (Ok c, m1) →
  (∀ e', accept_command e' m1 = (Err (SE.RemoteCommandPending (ce_command_id e)), m1))
  ∧ ∃ m2, reject_remote_command c (ce_command_id e) m1 = (Ok (m_state (w_machine w)), m2)
     ∧ visible m2 = visible (w_machine w) ∧ m_pending_remote_command m2 = None
     ∧ m_last_command_id m2 = Some (ce_command_id e)
     ∧ m_last_stop_id m2 = m_last_stop_id m1 ∧ m_last_run_id m2 = m_last_run_id m1
     ∧ m_host_risk_leases m2 = m_host_risk_leases m1
     ∧ m_sandbox_ownership_leases m2 = m_sandbox_ownership_leases m1.
Proof.
  intros Hr Ht Hb. pose proof (wi_machine _ (reachable_inv w Hr)) as Hm.
  pose proof (wp_run_ok _ _ _ _ _ _ Hb (begin_remote_command_spec e _ Hm Ht)) as Hbeg.
  destruct Hbeg as [_ Hacc Hp _ Hi Hid Hv Hpost _]. split.
  - intros e'. unfold accept_command, require_no_remote_command_pending, sbind, sread.
    by rewrite Hp.
  - exists (restored c m1). unfold reject_remote_command, sbind, sread.
    assert (validate_remote_checkpoint c (ce_command_id e) m1 = Ok tt) as ->.
    { apply validate_remote_checkpoint_ok. rewrite Hi, Hid.
      split; [|done]. apply (ext_instance _ _ (ok_extends _ _ (acc_ok _ _ _ Hacc))). }
    rewrite Hpost, post_accept_eqb_refl. simpl.
    injection Hv as Hv1 Hv2 Hv3 Hv4 Hv5. unfold visible, restored. simpl.
    rewrite Hv1, Hv2, Hv3, Hv4, Hv5. pose proof (acc_command _ _ _ Hacc). auto 10.
Qed.

(** ** Replay protection *)

(** A world a given one can develop into. *)
Inductive later : World → World → Prop :=
  | later_refl w : later w w
  | later_step w w' c : later w w' → admissible w' c → later w (world_step w' c).

Lemma world_step_extends w c :
  world_inv w → admissible w c → extends (w_machine w) (w_machine (world_step w c)).
Proof.
  intros Hw Ha. pose proof (session_exec_spec w c Hw Ha) as Hs. unfold wp in Hs. simpl.
  destruct (session_exec c (w_machine w)) as [[r|e|p] m']; [|by destruct Hs|done]. apply Hs.
Qed.

Lemma later_extends w w' :
  world_inv w → later w w' → world_inv w' ∧ extends (w_machine w) (w_machine w').
Proof.
  intros Hw. induction 1 as [|w w' c Hl IH Ha]; [split; [done|apply extends_refl]|].
  destruct (IH Hw) as [Hw' He]. split; [by apply world_step_inv|].
  eapply extends_trans; [done|]. by apply world_step_extends.
Qed.

Lemma observe_run id m :
  (∃ last, m_last_command_id m = Some last ∧ id ≤ last
           ∧ observe_command_id id m = (Err (SE.NonMonotonicCommandId last id), m))
  ∨ observe_command_id id m = (Ok tt, set_last_command_id (Some id) m).
Proof.
  unfold observe_command_id, sbind, sread, supd.
  destruct (m_last_command_id m) as [last|]; [|by right].
  unfold fail_if. destruct (Z.leb_spec id last); [left; eauto|by right].
Qed.

(** A structurally valid command offered to an idle reducer spends its id. *)
Lemma accept_spends_id e m :
  m_pending_remote_command m = None → envelope_validate e = Ok tt →
  ∃ last, m_last_command_id (accept_command e m).2 = Some last ∧ ce_command_id e ≤ last.
Proof.
  intros Hp He. set (rest := do! slift (fail_if (is_probe (ce_command e)) SE.GlobalCommand) in
    do! sread (λ m, map_err SE.Protocol (validate_against e (m_state m))) in
    do! accept_effect (ce_command e) in sget m_state).
  assert (keeps m_last_command_id rest) as Hkeep.
  { unfold rest. repeat first [apply keeps_bind; [|intros]|apply keeps_lift|apply keeps_read|
      apply keeps_get]. by apply accept_effect_keeps. }
  assert (accept_command e m = (do! observe_command_id (ce_command_id e) in rest) m) as ->.
  { unfold accept_command, require_no_remote_command_pending, accept_command_inner.
    unfold sbind at 1, sread at 1. rewrite Hp. unfold sbind at 1, slift at 1. by rewrite He. }
  unfold sbind. destruct (observe_run (ce_command_id e) m) as [(last & Hl & Hle & ->)| ->].
  - eauto.
  - rewrite (Hkeep _). simpl. eexists. split; [done|lia].
Qed.

(** A stale identifier is refused on every way in. *)
Section stale.
Context (e : CommandEnvelope) (m : SessionMachine) (last : Z).
Context (Hlast : m_last_command_id m = Some last) (Hle : ce_command_id e ≤ last).

Lemma stale_inner :
  (∃ er, accept_command_inner e m = (Err er, m))
  ∧ (envelope_validate e = Ok tt →
     accept_command_inner e m = (Err (SE.NonMonotonicCommandId last (ce_command_id e)), m)).
Proof using Hlast Hle.
  assert (envelope_validate e = Ok tt →
    accept_command_inner e m = (Err (SE.NonMonotonicCommandId last (ce_command_id e)), m)) as Hv.
  { intros He. unfold accept_command_inner, observe_command_id, sbind, sread, slift.
    rewrite He, Hlast. simpl. unfold fail_if. by rewrite (proj2 (Z.leb_le _ _)). }
  split; [|done]. pose proof (envelope_validate_no_panic e) as Hn.
  destruct (envelope_validate e) as [[]|er|p] eqn:He; [eauto| |by destruct (Hn p)].
  exists (SE.Protocol er). unfold accept_command_inner, sbind, slift. by rewrite He.
Qed.

Lemma stale_accept : ∃ er, accept_command e m = (Err er, m).
Proof using Hlast Hle.
  unfold accept_command, require_no_remote_command_pending, sbind, sread.
  destruct (m_pending_remote_command m); [eauto|]. apply stale_inner.
Qed.

Lemma stale_begin : ∃ er, begin_remote_command e m = (Err er, m).
Proof using Hlast Hle.
  unfold begin_remote_command, require_no_remote_command_pending, sbind, sread, sget.
  destruct (m_pending_remote_command m); [eauto|].
  destruct stale_inner as [[er ->] _]. eauto.
Qed.

Lemma stale_write fresh b :
  valid_binding b → ∃ er, begin_live_memory_write fresh e b m = (Err er, m).
Proof using Hlast Hle.
  intros Hb. unfold begin_live_memory_write. destruct (ce_command e); try by eexists.
  unfold sbind, slift, require_debug_attach, sread.
  pose proof (envelope_validate_no_panic e) as Hn.
  destruct (envelope_validate e) as [[]|er|p]; simpl; [|eauto|by destruct (Hn p)].
  match goal with |- context [match ?r with Ok _ => _ | Err _ => _ | Panic _ => _ end] =>
    assert (no_panic r) as Ha by (repeat case_match; no_panic); destruct r as [[]|er|p] end;
    [|eauto|by destruct (Ha p)].
  pose proof (rva_for_address_span_no_panic b address (zlen expected) Hb) as Hr.
  destruct (rva_for_address_span _ _ _) as [rva|er|p]; simpl; [|eauto|by destruct (Hr p)].
  destruct stale_begin as [er ->]. eauto.
Qed.
End stale.


(** ** One-use authority *)

Lemma take_lease_again {V} (id : list Z) (l : gmap (list Z) (option V)) :
  (∀ v, l !! id ≠ Some (Some v)) → take_lease id l = (None, l).
Proof.
  unfold take_lease. intros Hn. destruct (l !! id) as [[v|]|] eqn:Hl; [by edestruct Hn| |done].
  by rewrite insert_id.
Qed.

Lemma set_host_id m : set_host_risk_leases (m_host_risk_leases m) m = m.
Proof. by destruct m. Qed.

Lemma consume_host_ok id op m :
  is_ok (consume_host_risk_lease id op m).1 = true ↔ host_grant m id op.
Proof.
  pose proof (consume_host_spec id op m) as Hs. unfold wp in Hs.
  destruct (consume_host_risk_lease id op m) as [[u|e|p] m']; naive_solver.
Qed.

(** A host-risk lease is spent by its first use.  Consuming it succeeds
    exactly when the registry holds a grant for this session, epoch and
    operation; whether or not it succeeded, every later attempt to consume
    that identifier is refused and changes nothing. *)
Theorem host_lease_one_use id op m :
  let r := consume_host_risk_lease id op m in
  (is_ok r.1 = true ↔ host_grant m id op)
  ∧ ∀ op', consume_host_risk_lease id op' r.2 = (Err SE.HostRiskLeaseUnavailable, r.2).
Proof.
  intros r. subst r. split; [apply consume_host_ok|]. pose proof (consume_host_spec id op m) as Hs. unfold wp in Hs.
  destruct (consume_host_risk_lease id op m) as [[u|e|p] m']; [| |done]; simpl;
    destruct Hs as (_ & Hg & Hn); intros op';
    unfold consume_host_risk_lease, sbind, sget, supd, slift;
    rewrite (take_lease_again id _ Hn); simpl; by rewrite set_host_id.
Qed.

(** What an accepted target had to prove, and the gate it earned. *)
Definition open_authorized (m : SessionMachine) (t : DebugTargetRequest) (m' : SessionMachine)
    : Prop :=
  match t with
  | DTR.Launch l =>
      match lt_environment l with
      | Sandboxed policy =>
          m_execution_gate m' = SandboxPending ∧ sp_session_id policy = m_session_id m
          ∧ ∃ ex, from_policy (lt_binary_id l) policy (m_helper_build m)
                    (m_provisioning_epoch m) = Ok ex
      | HostEnvironment id =>
          m_execution_gate m' = HostRiskAccepted
          ∧ ∃ intent, from_target l = Ok intent ∧ host_grant m id (HRO.Launch intent)
      end
  | DTR.Attach a =>
      match att_scope a with
      | HostScope p id =>
          m_execution_gate m' = HostRiskAccepted ∧ host_grant m id (HRO.Attach p (att_mode a))
      | OwnedSandbox p id =>
          m_execution_gate m' = InheritedSandbox
          ∧ ∃ b, owned_grant m id p (att_mode a) b ∧ m_inherited_sandbox m' = Some b
      end
  | DTR.Dump _ | DTR.Offline _ => m_execution_gate m' = NotApplicable
  end.

Lemma open_authority_grants t m :
  typed_target t →
  wp (open_authority t)
    (λ a _, ∀ m', m_execution_gate m' = a.1.2 → m_inherited_sandbox m' = a.2 →
            open_authorized m t m') (λ _ _, True) m.
Proof.
  intros Ht. destruct t as [l|a|d|o].
  - simpl. destruct (lt_environment l) as [policy|id] eqn:He.
    + pose proof (open_sandboxed_spec l policy m He Ht) as Hs. simpl in Hs. rewrite He in Hs.
      eapply wp_mono; [exact Hs| |done]. intros a m1 [-> [Hg _ Hp]] m' Hm' _.
      specialize (Hg (m_state m)). unfold gate_ok in Hg. simpl in Hg.
      destruct a as [[sb g] inh]; simpl in *. rewrite Hm'.
      destruct g; try done; destruct Hg as [Ha Hg].
      * by destruct Hg as (_ & [?|[[??]|[??]]]).
      * destruct Hg as (_ & t' & Ht' & Hh). simplify_eq. destruct Hh as [lease Hh]. congruence.
      * by destruct Hg as (b & a & lease & _ & ? & _).
      * destruct Hg as (s & t & pol & ex & _ & ? & ? & ? & ? & _). simplify_eq.
        split; [done|]. assert (pol = policy) as -> by congruence. eauto.
    + wp_step. apply wp_lift; [|done|]; [|intros p; unfold from_target; by rewrite He].
      intros intent Hi. rewrite map_err_ok in Hi. wp_step.
      eapply wp_mono; [apply consume_host_spec| |done]. simpl.
      intros _ m1 (_ & Hg & _). wp_step. simpl. intros m' -> _. eauto.
  - simpl. destruct (att_scope a) as [p id|p id].
    + wp_step. eapply wp_mono; [apply consume_host_spec| |done]. simpl.
      intros _ m1 (_ & Hg & _). wp_step. simpl. by intros m' -> _.
    + wp_step. eapply wp_mono; [apply consume_owned_spec| |done]. simpl.
      intros b m1 (_ & Hg & _). wp_step. simpl. intros m' -> ->. eauto.
  - simpl. wp_step. simpl. by intros m' -> _.
  - simpl. wp_step. simpl. by intros m' -> _.
Qed.

Lemma accept_open_authorized t m :
  session_inv m → typed_target t →
  wp (accept_open t)
    (λ _ m', open_authorized m t m' ∧ m_target m' = Some t
             ∧ m_host_risk_leases m' = ∅ ∧ m_sandbox_ownership_leases m' = ∅
             ∧ state_kind (m_state m') = SSK.Opening)
    (λ _ _, True) m.
Proof.
  intros Hm Ht. unfold accept_open. wp_step.
  assert (wp (open_authority t) (λ a m', leases_spent m m' ∧ ∀ m', m_execution_gate m' = a.1.2 →
      m_inherited_sandbox m' = a.2 → open_authorized m t m') (λ _ _, True) m) as Hs.
  { pose proof (open_authority_spec t m Ht) as H1. pose proof (open_authority_grants t m Ht) as H2.
    unfold wp in *. destruct (open_authority t m) as [[] ?]; naive_solver. }
  eapply wp_mono; [exact Hs| |done]. simpl. intros a m1 [Hl Hau].
  pose proof (leases_spent_inv _ _ Hm Hl) as Hm1. wp_step. session_step; [|done].
  do 12 wp_step. session_step; [|done]. split; [|done]. by apply Hau.
Qed.

(** C5: no target is opened without its authority.  When a session accepts an
    [Open], a host launch or attach had a registered, unspent lease for that
    operation, an owned-sandbox attach a registered ownership grant for
    exactly that process and mode, and a sandboxed launch a valid policy of
    this session; afterwards both registries are empty, so no second target
    can use what is left. *)
Theorem open_requires_authority w e t s m' :
  reachable w → ce_command e = DC.Open t → typed_target t →
  accept_command e (w_machine w) = (Ok s, m') →
  open_authorized (w_machine w) t m' ∧ m_target m' = Some t
  ∧ m_host_risk_leases m' = ∅ ∧ m_sandbox_ownership_leases m' = ∅
  ∧ state_kind (m_state (w_machine w)) = SSK.Idle ∧ state_kind s = SSK.Opening.
Proof.
  intros Hr He Ht Hrun. pose proof (wi_machine _ (reachable_inv w Hr)) as Hm.
  unfold accept_command, require_no_remote_command_pending in Hrun.
  unfold sbind at 1, sread at 1 in Hrun.
  destruct (m_pending_remote_command (w_machine w)) eqn:Hp; [done|].
  assert (typed_command (ce_command e)) as Htc by by rewrite He.
  pose proof (wp_run_ok _ _ _ _ _ _ Hrun (accept_command_inner_spec e _ Hm Htc Hp))
    as [[Hok _ _ Hnew Hprobe Hval Heff] ->].
  apply validate_against_ok in Hval as (_ & _ & _ & Hal); [|done].
  assert (state_kind (m_state (w_machine w)) = SSK.Idle) as Hidle.
  { rewrite He in Hal. by destruct (m_state (w_machine w)). }
  rewrite He in Heff. simpl in Heff.
  set (m1 := set_last_command_id (Some (ce_command_id e)) (w_machine w)) in *.
  assert (session_inv m1) as Hm1 by by apply set_last_command_err.
  pose proof (wp_run_ok _ _ _ _ _ _ Heff (accept_open_authorized t m1 Hm1 Ht)) as Hau.
  destruct Hau as (Hau & ? & ? & ? & ?). split; [|done]. exact Hau.
Qed.
End exchanges.
