(* ===== verification/SessionEvidence.v ===== *)
(** Theorems about live memory writes, unsolicited observation batches,
    sandbox ownership, and the two ends of a session: closed, which is final,
    and a closing sandbox launch without a creation outcome, which can never
    be left. *)

From S2P Require Import Prelude Identity Sandbox SandboxPolicyTheory SandboxLifecycle Protocol.
From S2P Require Import ProtocolTheory Authorization SessionMachine SessionInvariant.
From S2P Require Import SessionCommands SessionWorlds SessionTheorems.
Open Scope Z_scope.

Section evidence.
Context `{Sha256Spec}.

(** A batch of unsolicited observations is applied as a whole or not at
    all.  On an error, whichever observation caused it, the reducer is exactly
    what it was before the batch; on success each observation matched the
    state the reducer itself computed, along validated transitions. *)
Theorem unsolicited_batch_atomic w l :
  reachable w → Forall observable l →
  match apply_unsolicited_observations l (w_machine w) with
  | (Ok _, m') => ∃ states, state_chain (m_state (w_machine w)) states
      ∧ Forall2 (λ s o, SessionState_eqb s o = true) states l
      ∧ m_state m' = List.last states (m_state (w_machine w))
  | (Err _, m') => m' = w_machine w
  | (Panic _, _) => False
  end.
Proof.
  intros Hr Ho. pose proof (apply_unsolicited_spec l _ (wi_machine _ (reachable_inv w Hr)) Ho) as Hs.
  unfold wp in Hs. destruct (apply_unsolicited_observations l (w_machine w)) as [[u|e|p] m'];
    [|done..]. apply Hs.
Qed.

(** ** Sandbox ownership *)

(** Targets whose containment this session has to clean up. *)
Definition sandboxed_target (t : option DebugTargetRequest) : bool :=
  match t with
  | Some (DTR.Launch l) => match lt_environment l with Sandboxed _ => true | _ => false end
  | Some (DTR.Attach a) => match att_scope a with OwnedSandbox _ _ => true | _ => false end
  | _ => false
  end.

Lemma host_target_not_sandboxed t : host_target t → sandboxed_target (Some t) = false.
Proof.
  destruct t as [l|a|d|o]; simpl; try done.
  - by intros [lease ->].
  - by intros (p & lease & ->).
Qed.

(** A session owes cleanup evidence exactly for sandboxed targets.  In
    every reachable world a cleanup receipt is required if and only if the
    accepted target is a sandboxed launch or an owned-sandbox attach, the two
    kinds of ownership never coexist, and a detached session owns neither. *)
Theorem sandbox_ownership_exact w :
  reachable w →
  requires_cleanup_receipt (w_machine w) = sandboxed_target (m_target (w_machine w))
  ∧ (m_sandbox (w_machine w) = None ∨ m_inherited_sandbox (w_machine w) = None)
  ∧ (state_kind (m_state (w_machine w)) = SSK.Detached →
     requires_cleanup_receipt (w_machine w) = false).
Proof.
  intros Hr. pose proof (wi_machine _ (reachable_inv w Hr)) as Hm.
  pose proof (inv_gate _ Hm) as Hg. pose proof (inv_phase _ Hm) as Hp.
  unfold gate_ok in Hg. unfold phase_ok in Hp. simpl in *. unfold requires_cleanup_receipt.
  destruct (m_execution_gate (w_machine w)) eqn:Hgate.
  - destruct Hg as (-> & -> & Ht). split_and!; [|by left|done].
    destruct Ht as [->|[[d ->]|[o ->]]]; done.
  - destruct Hg as (-> & -> & t & -> & Ht). split_and!; [|by left|done].
    by rewrite host_target_not_sandboxed.
  - destruct Hg as (-> & b & a & lease & -> & -> & Ha & _). split_and!; [|by left|].
    + simpl. by rewrite Ha.
    + by destruct (m_state (w_machine w)).
  - destruct Hg as (-> & s & t & pol & ex & -> & -> & Ht & _). split_and!; [|by right|].
    + simpl. by rewrite Ht.
    + by destruct (m_state (w_machine w)).
  - destruct Hg as (-> & s & t & pol & ex & -> & -> & Ht & _). split_and!; [|by right|].
    + simpl. by rewrite Ht.
    + by destruct (m_state (w_machine w)).
Qed.

(** ** Live memory writes *)

(** The stop token that the next refresh of the machine allocates. *)
Definition refreshed_stop (m : SessionMachine) : StopToken :=
  mkStopToken (mkStateToken (m_session_id m) (st_generation (state_token (m_state m)) + 1))
    (m_last_stop_id m + 1).

Lemma refresh_stopped_run m tok r th :
  session_inv m → m_state m = SS.Stopped tok r th →
  wp refresh_stopped_token
    (λ _ m', m_state m' = SS.Stopped (refreshed_stop m) r th
             ∧ m_last_stop_id m' = m_last_stop_id m + 1
             ∧ st_generation (stop_state tok) + 1 ≤ u64_max ∧ m_last_stop_id m + 1 ≤ u64_max)
    (λ _ _, True) m.
Proof.
  intros Hm Hs. unfold refresh_stopped_token. do 2 wp_step. rewrite Hs.
  session_wp; try done. simpl. unfold refreshed_stop. rewrite Hs in *. simpl in *. auto.
Qed.

(** How a begun write left the machine, and that its own receipt resolves
    it. *)
Record write_pending (m : SessionMachine) (c : RemoteCommandCheckpoint)
    (t : ValidatedLiveMemoryWrite) (r : LocalLiveMemoryWriteReceiptIdentity)
    (m1 : SessionMachine) : Prop := {
  wpe_states : ∃ reason th, m_state m = SS.Stopped (lw_stop (vw_write t)) reason th
                            ∧ m_state m1 = SS.Stopped (refreshed_stop m) reason th;
  wpe_stop : stop_id (lw_stop (vw_write t)) ≤ m_last_stop_id m;
  wpe_session : st_session_id (stop_state (lw_stop (vw_write t))) = m_session_id m;
  wpe_last : m_last_stop_id m1 = m_last_stop_id m + 1;
  wpe_bounds : st_generation (stop_state (lw_stop (vw_write t))) + 1 ≤ u64_max
               ∧ m_last_stop_id m + 1 ≤ u64_max;
  wpe_valid : validate_local_live_memory_write_resolution c r m1 = Ok (refreshed_stop m)
}.

Lemma write_begun_pending fresh e b m c t r m1 :
  session_inv m → write_begun fresh e b m c t r m1 → write_pending m c t r m1.
Proof.
  intros Hm Hw. pose proof (wb_begun _ _ _ _ _ _ _ _ Hw) as Hbeg.
  pose proof (beg_accepted _ _ _ _ Hbeg) as [Hok _ _ Hnew Hprobe Hval Heff].
  apply validate_against_ok in Hval as (_ & _ & _ & Hal); [|done].
  rewrite (wb_command _ _ _ _ _ _ _ _ Hw) in Hal, Heff. simpl in Hal, Heff.
  destruct (m_state m) as [| | | | | | | |tok reason th| | | | | | |] eqn:Hs; try done.
  apply bool_decide_eq_true in Hal as <-.
  assert (session_inv (set_last_command_id (Some (ce_command_id e)) m)) as Hm'.
  { apply set_last_command_err; [done|apply Hbeg|done]. }
  pose proof (wp_run_ok _ _ _ _ _ _ Heff (refresh_stopped_run _ _ reason th Hm' Hs))
    as (Hs' & Hlast & Hb1 & Hb2).
  pose proof (inv_visible _ Hm) as [Hsid _ _ _ Htok]. simpl in Hsid, Htok. rewrite Hs in Hsid, Htok.
  split; [by exists reason, th|simpl in Htok; lia|done|done|done|].
  destruct Hw as [[_ Hacc Hp _ Hi Hid Hv Hpost _] _ _ Hcw Hr _ Hlid _ _ _]. simpl in *.
  unfold validate_local_live_memory_write_resolution.
  assert (validate_remote_checkpoint c (lw_command_id (ri_write r)) m1 = Ok tt) as ->.
  { apply validate_remote_checkpoint_ok. rewrite Hr, Hlid, Hi, Hid. split; [|done].
    apply (ext_instance _ _ (ok_extends _ _ Hok)). }
  simpl. rewrite Hpost, post_accept_eqb_refl, Hcw. simpl. unfold ptr_eq.
  rewrite Hr, Z.eqb_refl. simpl. injection Hv as -> _ _ _ _. rewrite Hs, Hs'.
  by rewrite bool_decide_true.
Qed.

Lemma write_success_run fresh e b m c t r m1 :
  session_inv m → write_begun fresh e b m c t r m1 →
  resolve_live_memory_write_success c r m1
  = (Ok (mkPatchReceipt (vw_write t) (Committed (refreshed_stop m))),
     set_pending_remote_command None m1).
Proof.
  intros Hm Hw. pose proof (write_begun_pending _ _ _ _ _ _ _ _ Hm Hw) as Hp.
  unfold resolve_live_memory_write_success, sbind, sread. rewrite (wpe_valid _ _ _ _ _ Hp). simpl.
  by rewrite (wb_receipt _ _ _ _ _ _ _ _ Hw).
Qed.

Lemma write_no_effect_run fresh e b m c t r m1 :
  session_inv m → write_begun fresh e b m c t r m1 →
  resolve_live_memory_write_no_effect c r m1
  = (Ok (mkPatchReceipt (vw_write t) RejectedNoEffect), restored c m1)
  ∧ visible (restored c m1) = visible m.
Proof.
  intros Hm Hw. pose proof (write_begun_pending _ _ _ _ _ _ _ _ Hm Hw) as Hp.
  destruct (wpe_states _ _ _ _ _ Hp) as (reason & th & Hs & _).
  unfold resolve_live_memory_write_no_effect, sbind, sread. rewrite (wpe_valid _ _ _ _ _ Hp).
  pose proof (beg_visible _ _ _ _ (wb_begun _ _ _ _ _ _ _ _ Hw)) as Hv.
  unfold cp_visible in Hv. simpl in Hv. injection Hv as Hv1 Hv2 Hv3 Hv4 Hv5.
  rewrite (wb_receipt _ _ _ _ _ _ _ _ Hw), Hv1, Hs, bool_decide_true by done.
  simpl. unfold visible, restored. simpl. by rewrite Hv1, Hv2, Hv3, Hv4, Hv5, Hs.
Qed.

(** C8: a live memory write is begun only against the attached debug target
    and inside its image, and resolves one way or the other.  Its stop token
    is the session's current one; success commits to a newer stop; a proved
    no-effect restores exactly what the session showed before; and a receipt of
    another allocation resolves it neither way and changes nothing. *)
Theorem live_write_resolves w fresh e b c t r m1 :
  reachable w → valid_binding b →
  begin_live_memory_write fresh e b (w_machine w) = (Ok (c, t, r), m1) →
  (∃ a rva, m_target (w_machine w) = Some (DTR.Attach a) ∧ att_mode a = Debug
     ∧ scope_process (att_scope a) = lb_process b
     ∧ rva_for_address_span b (lw_address (vw_write t)) (zlen (lw_expected (vw_write t)))
       = Ok rva)
  ∧ (∃ reason th new m2, m_state (w_machine w) = SS.Stopped (lw_stop (vw_write t)) reason th
     ∧ resolve_live_memory_write_success c r m1
       = (Ok (mkPatchReceipt (vw_write t) (Committed new)), m2)
     ∧ m_state m2 = SS.Stopped new reason th ∧ stop_id (lw_stop (vw_write t)) < stop_id new
     ∧ m_pending_remote_command m2 = None)
  ∧ (∃ m2, resolve_live_memory_write_no_effect c r m1
       = (Ok (mkPatchReceipt (vw_write t) RejectedNoEffect), m2)
     ∧ visible m2 = visible (w_machine w) ∧ m_pending_remote_command m2 = None)
  ∧ (∀ r', lw_address_of (ri_write r') ≠ fresh →
     (∃ er, resolve_live_memory_write_success c r' m1 = (Err er, m1))
     ∧ ∃ er, resolve_live_memory_write_no_effect c r' m1 = (Err er, m1)).
Proof.
  intros Hr Hb Hrun. pose proof (wi_machine _ (reachable_inv w Hr)) as Hm.
  pose proof (wp_run_ok _ _ _ _ _ _ Hrun (begin_live_memory_write_spec fresh e b _ Hm Hb)) as Hw.
  simpl in Hw. pose proof (write_begun_pending _ _ _ _ _ _ _ _ Hm Hw) as Hp.
  destruct (wpe_states _ _ _ _ _ Hp) as (reason & th & Hs & Hs').
  pose proof (wpe_stop _ _ _ _ _ Hp) as Hle.
  pose proof Hw as [Hbeg _ _ Hcw Hri Hfr _ _ (a & Ha & Hd & Hpr) (rva & Hrva)].
  split; [by exists a, rva|]. split.
  { eexists reason, th, _, _. split; [done|]. split; [by eapply write_success_run|].
    split; [done|]. split; [simpl; lia|done]. }
  split.
  { destruct (write_no_effect_run _ _ _ _ _ _ _ _ Hm Hw) as [-> Hv]. by eexists. }
  intros r' Hne.
  unfold resolve_live_memory_write_success, resolve_live_memory_write_no_effect, sbind, sread.
  assert (∀ tok, validate_local_live_memory_write_resolution c r' m1 ≠ Ok tok) as Hno.
  { intros tok Hv. unfold validate_local_live_memory_write_resolution in Hv.
    rust_inv Hv. unfold ptr_eq in H6. apply Z.eqb_eq in H6. congruence. }
  pose proof (local_write_resolution_no_panic c r' m1) as Hnp.
  destruct (validate_local_live_memory_write_resolution c r' m1) as [tok|er|p];
    [by edestruct Hno|split; by exists er|by edestruct Hnp].
Qed.

(** ** Closed is final *)

Lemma eqb_kind a b : SessionState_eqb a b = true → state_kind a = state_kind b.
Proof.
  unfold SessionState_eqb. intros He. apply andb_true_iff in He as [_ He].
  destruct a, b; try done; by apply bool_decide_eq_true in He.
Qed.

Lemma plain_mints_none {A} (c : session_op A) m cp m' : plain c m ≠ (Ok (Some cp), m').
Proof. unfold plain, smap_err, sbind, sret. by destruct (c m) as [[] ?]. Qed.

Lemma exec_mints c m cp m' :
  session_exec c m = (Ok (Some cp), m') →
  (∃ e, c = BeginRemote e ∧ begin_remote_command e m = (Ok cp, m'))
  ∨ ∃ f e b t r, c = BeginWrite f e b ∧ begin_live_memory_write f e b m = (Ok (cp, t, r), m').
Proof.
  destruct c; simpl; try (intros Hrun; by apply plain_mints_none in Hrun);
    unfold smap_err, sbind, sret.
  - destruct (begin_remote_command e m) as [[]?] eqn:Hc; intros; simplify_eq/=. eauto.
  - destruct (begin_live_memory_write fresh e b m) as [[[[]?]| |]?] eqn:Hc; intros;
      simplify_eq/=. right. eauto 10.
  - by destruct (apply_unsolicited_observations observations m) as [[]?].
Qed.

Lemma minted_post_open w :
  reachable w →
  Forall (λ c, state_kind (pa_state (cp_post_accept c)) ≠ SSK.Closed) (w_minted w).
Proof.
  induction 1 as [|w c Hr IH Ha]; [constructor|].
  pose proof (reachable_inv w Hr) as Hw. pose proof (wi_machine _ Hw) as Hm.
  unfold world_step. simpl.
  destruct (session_exec c (w_machine w)) as [[[cp|]|e|p] m'] eqn:Hrun; simpl; try done.
  constructor; [|done].
  assert (∃ e cp', begun e (w_machine w) cp' m' ∧ cp_post_accept cp' = cp_post_accept cp)
    as (e & cp' & Hb & <-).
  { destruct (exec_mints _ _ _ _ Hrun) as [(e & -> & Hb)|(f & e & b & t & r & -> & Hb)].
    - exists e, cp. split; [|done].
      apply (wp_run_ok _ _ _ _ _ _ Hb (begin_remote_command_spec e _ Hm Ha)).
    - pose proof (wp_run_ok _ _ _ _ _ _ Hb (begin_live_memory_write_spec f e b _ Hm Ha)) as Hw'.
      exists e, (set_local_write None cp). split; [apply Hw'|done]. }
  destruct Hb as [_ [_ _ _ _ Hpr Hval _] _ _ _ _ _ -> _]. simpl.
  assert (m' = (session_exec c (w_machine w)).2) as -> by by rewrite Hrun.
  apply exec_stays_open.
  - intros r ->. simpl in Hrun. by apply plain_mints_none in Hrun.
  - intros cp'' Hcp. by destruct (exec_mints _ _ _ _ Hrun) as [(? & -> & _)|(?&?&?&?&?& -> & _)].
  - by eapply accepted_not_closed.
Qed.

(** Closed is final.  Once a session is closed, no call of any kind
    changes its state again, a stale checkpoint included. *)
Theorem closed_is_final w c :
  reachable w → admissible w c → state_kind (m_state (w_machine w)) = SSK.Closed →
  m_state (w_machine (world_step w c)) = m_state (w_machine w).
Proof.
  intros Hr Ha Hk. pose proof (reachable_inv w Hr) as Hw.
  pose proof (session_exec_spec w c Hw Ha) as Hs. unfold wp in Hs. simpl.
  destruct (session_exec c (w_machine w)) as [[r|e|p] m'] eqn:Hrun; simpl; [| |done].
  - destruct Hs as (_ & _ & [?|[(states & Hne & Hch & _)|(cp & Hin & -> & Hpost)]] & _); [done| |].
    + destruct states as [|s states]; [done|]. destruct Hch as [Hv _].
      by apply closed_no_successor in Hv.
    + exfalso. pose proof (minted_post_open w Hr) as HF. rewrite list.Forall_forall in HF.
      apply (HF cp Hin). unfold post_accept_eqb in Hpost. autorewrite with rust in Hpost.
      destruct_and? Hpost. rewrite <-Hk. symmetry. by apply eqb_kind.
  - destruct Hs as [_ _ Hv _ _ _]. by injection Hv.
Qed.

(** ** A session that can never close *)

(** A sandboxed launch that was closed before its backend reported whether a
    target had been created. *)
Record abandoned (m : SessionMachine) : Prop := {
  ab_kind : state_kind (m_state m) = SSK.Closing;
  ab_pending : m_pending_remote_command m = None;
  ab_sandbox : ∃ sb, m_sandbox m = Some sb ∧ sm_state sb = SLS.Cleanup
                     ∧ sm_target_creation sb = None
}.

(** A call that cannot succeed in [m]. *)
Definition refuses {E A} (c : smonad SessionMachine E A) (m : SessionMachine) : Prop :=
  wp c (λ _ _, False) (λ _ _, True) m.

Lemma refuses_plain {A} (c : session_op A) m r m' : refuses c m → plain c m ≠ (Ok r, m').
Proof.
  unfold refuses, wp, plain, smap_err, sbind, sret. by destruct (c m) as [[] ?].
Qed.

Lemma refuses_state {A} action allowed (k : session_op A) m :
  state_kind (m_state m) ∉ allowed → refuses (do! require_state action allowed in k) m.
Proof. intros Hk. apply wp_bind, wp_require_state; [|done]. intros ?. by destruct Hk. Qed.

Lemma closing_accepts_only_close c tok :
  command_allowed c (SS.Closing tok) = true → ∃ st, c = DC.Close st.
Proof. destruct c as [| | | | |[]| |[]| | | |[]|[]|[]|]; try done. eauto. Qed.

Lemma abandoned_refuses_command e m m' :
  session_inv m → abandoned m → ¬ accepted e m m'.
Proof.
  intros Hm [Hk Hp (sb & Hsb & _)] [_ _ _ Hnew Hprobe Hval Heff].
  apply validate_against_ok in Hval as (_ & _ & _ & Hal); [|done].
  destruct (m_state m) as [| | | | | | | | | | |tok| | | |] eqn:Hs; try done.
  destruct (closing_accepts_only_close _ _ Hal) as [st Hc]. rewrite Hc in Heff.
  assert (session_inv (set_last_command_id (Some (ce_command_id e)) m)) as Hm1
    by by apply set_last_command_err.
  assert (refuses (accept_effect (DC.Close st))
            (set_last_command_id (Some (ce_command_id e)) m)) as Href.
  { unfold refuses, accept_effect. session_wp; try done.
    all: match goal with Hv : validate_successor _ _ = Ok tt |- _ =>
      apply validate_successor_ok in Hv as (_ & _ & _ & Hin) end.
    all: simpl in Hin; rewrite Hs in Hin; set_solver. }
  unfold refuses, wp in Href. by rewrite Heff in Href.
Qed.

Section abandoned_calls.
Context (m : SessionMachine) (Hm : session_inv m) (Hab : abandoned m).

Lemma abandoned_checkpoint cp id u : validate_remote_checkpoint cp id m ≠ Ok u.
Proof.
  intros Hv. apply validate_remote_checkpoint_ok in Hv as (_ & _ & Hv).
  rewrite (ab_pending _ Hab) in Hv. done.
Qed.

Lemma refuses_checked {A B} (f : SessionMachine → result B SessionMachineError)
    (k : B → session_op A) :
  no_panic (f m) → (∀ b, f m ≠ Ok b) → refuses (sbind (sread f) k) m.
Proof.
  intros Hn Hf. apply wp_bind, wp_read; [|done|done]. intros b Hb. by destruct (Hf b).
Qed.

Lemma refuses_accept e : typed_command (ce_command e) → refuses (accept_command e) m.
Proof.
  intros Ht. unfold refuses, accept_command, require_no_remote_command_pending. wp_step.
  unfold wp at 1, sread. rewrite (ab_pending _ Hab).
  eapply wp_mono; [apply accept_command_inner_spec; [done..|apply Hab]| |done].
  intros s m' [Hacc _]. by apply abandoned_refuses_command in Hacc.
Qed.

Lemma refuses_begin e : typed_command (ce_command e) → refuses (begin_remote_command e) m.
Proof.
  intros Ht. eapply wp_mono; [by apply begin_remote_command_spec| |done].
  intros c m' [_ Hacc _ _ _ _ _ _ _]. by apply abandoned_refuses_command in Hacc.
Qed.

Lemma refuses_begin_write f e b : valid_binding b → refuses (begin_live_memory_write f e b) m.
Proof.
  intros Hb. eapply wp_mono; [by apply begin_live_memory_write_spec| |done].
  intros r m' [[_ Hacc _ _ _ _ _ _ _] _ _ _ _ _ _ _ _ _].
  by apply abandoned_refuses_command in Hacc.
Qed.

Lemma refuses_open {A} action f (k : session_op A) :
  refuses (do! require_open_target action f in k) m.
Proof.
  apply wp_bind, wp_require_open_target; [|done]. intros Hk. by rewrite (ab_kind _ Hab) in Hk.
Qed.

Lemma refuses_failed msg : refuses (mark_failed msg) m.
Proof.
  destruct (ab_sandbox _ Hab) as (sb & Hsb & _ & Htc).
  unfold refuses, mark_failed. session_wp; try done; try congruence.
  simplify_eq. match goal with Hg : call_guard CallMarkFailed _ |- _ => by destruct Hg end.
Qed.

Lemma refuses_close r : refuses (complete_close r) m.
Proof.
  destruct (ab_sandbox _ Hab) as (sb & Hsb & _ & Htc).
  eapply wp_mono; [by apply complete_close_spec| |done].
  intros s m' [_ Hev]. unfold close_evidence in Hev. rewrite Hsb in Hev.
  destruct (m_inherited_sandbox m); [done|]. destruct Hev as (rc & o & _ & _ & Ho & _).
  congruence.
Qed.

Lemma refuses_record : refuses record_sandbox_target_not_created m.
Proof.
  destruct (ab_sandbox _ Hab) as (sb & Hsb & Hst & _).
  unfold refuses, record_sandbox_target_not_created. do 4 wp_step. rewrite Hsb.
  destruct (m_inherited_sandbox m); [done|]. session_wp; try done; try congruence.
  simplify_eq. match goal with Hg : call_guard CallRecordNotCreated _ |- _ =>
    destruct Hg; congruence end.
Qed.

Lemma refuses_retain f : refuses (retain_sandbox_failure_target_creation f) m.
Proof.
  destruct (ab_sandbox _ Hab) as (sb & Hsb & _ & Htc).
  unfold retain_sandbox_failure_target_creation. apply refuses_checked.
  - unfold validate_sandbox_failure, validate_against_expected, validate_against_inherited,
      validate_stage_kind. no_panic.
  - intros u Hv. unfold validate_sandbox_failure in Hv. rewrite Hsb, Htc in Hv.
    destruct (m_inherited_sandbox m); [done|]. unfold validate_against_expected in Hv.
    rewrite map_err_ok in Hv. rust_inv Hv. repeat case_match; done.
Qed.

Lemma abandoned_observations l m' u :
  Forall observable l → apply_unsolicited_observations l m = (Ok u, m') → m' = m.
Proof.
  intros Ho. unfold apply_unsolicited_observations.
  destruct l as [|o l]; [by intros [= <-]|]. inversion_clear Ho as [|?? Hob _].
  assert (refuses (apply_observations (o :: l)) m) as Href.
  { simpl. apply wp_bind. destruct o; try done; apply wp_map_err;
      (eapply wp_mono; [apply refuses_state; rewrite (ab_kind _ Hab); set_solver|done|done]). }
  unfold refuses, wp in Href. by destruct (apply_observations (o :: l) m) as [[] ?].
Qed.
End abandoned_calls.

Lemma abandoned_refuses w c r m' :
  world_inv w → admissible w c → abandoned (w_machine w) →
  session_exec c (w_machine w) = (Ok r, m') → m' = w_machine w.
Proof.
  intros Hw Ha Hab Hrun. pose proof (wi_machine _ Hw) as Hm.
  assert (∀ A (c : session_op A), refuses c (w_machine w) → plain c (w_machine w) = (Ok r, m') →
    m' = w_machine w) as Hplain by (intros A op Ho Hr; by apply refuses_plain in Hr).
  destruct c; simpl in Hrun, Ha.
  all: try (eapply Hplain; [|exact Hrun]; apply refuses_state; rewrite (ab_kind _ Hab);
    set_solver).
  all: try (eapply Hplain; [|exact Hrun]).
  - by apply refuses_accept.
  - pose proof (refuses_begin _ Hm Hab e Ha) as Href. unfold refuses, wp in Href.
    unfold smap_err, sbind in Hrun. by destruct (begin_remote_command e (w_machine w)) as [[]?].
  - pose proof (refuses_begin_write _ Hm Hab fresh e b Ha) as Href. unfold refuses, wp in Href.
    unfold smap_err, sbind in Hrun.
    by destruct (begin_live_memory_write fresh e b (w_machine w)) as [[]?].
  - apply refuses_checked; [apply local_write_resolution_no_panic|]. intros tok Hv.
    apply result_bind_ok in Hv as (? & Hv & _). by apply abandoned_checkpoint in Hv.
  - apply refuses_checked; [apply local_write_resolution_no_panic|]. intros tok Hv.
    apply result_bind_ok in Hv as (? & Hv & _). by apply abandoned_checkpoint in Hv.
  - apply refuses_checked; [apply validate_remote_checkpoint_no_panic|].
    intros u. by apply abandoned_checkpoint.
  - apply refuses_checked; [apply validate_remote_checkpoint_no_panic|].
    intros u. by apply abandoned_checkpoint.
  - by apply refuses_open.
  - by apply refuses_open.
  - by apply refuses_open.
  - by apply refuses_failed.
  - unfold sbind, sret in Hrun.
    destruct (apply_unsolicited_observations observations (w_machine w)) as [[u| |]?] eqn:Hu;
      simplify_eq. by eapply abandoned_observations.
  - by apply refuses_close.
  - by apply refuses_record.
  - by apply refuses_retain.
Qed.

(** Closing a sandboxed launch too early strands the session.  If a close
    is accepted before the backend has recorded whether a target process was
    created, then no sequence of calls whatever can close the session any
    more: it stays in the closing state for ever, because the close needs a
    recorded creation outcome and every call that records one needs the
    provisioning state the close has left. *)
Theorem abandoned_never_closes w w' :
  reachable w → abandoned (w_machine w) → later w w' → abandoned (w_machine w').
Proof.
  intros Hr Hab Hl. pose proof (reachable_inv w Hr) as Hw. clear Hr.
  induction Hl as [w|w w' c Hl IH Ha]; [done|]. specialize (IH Hab Hw).
  destruct (later_extends _ _ Hw Hl) as [Hw' _].
  pose proof (session_exec_spec w' c Hw' Ha) as Hs. unfold wp in Hs. simpl.
  destruct (session_exec c (w_machine w')) as [[r|e|p] m'] eqn:Hrun; simpl; [| |done].
  - by rewrite (abandoned_refuses w' c r m').
  - destruct Hs as [_ _ Hv Hp _ _]. injection Hv as Hv1 _ _ Hv4 _.
    destruct IH as [Hk Hpend Hsb]. split; [congruence|congruence|]. by rewrite Hv4.
Qed.
End evidence.
