(* ===== verification/AuthorizationTheory.v ===== *)
(** Theorems about lease issuance and about how an issued lease reaches the
    session reducer: issuance is total up to the exhaustion of its counter,
    identifiers do not repeat, an issued launch opens, and a lease binds its
    paths by components rather than by their text. *)

From S2P Require Import Prelude Identity Sandbox Protocol ProtocolTheory Authorization.
From S2P Require Import SessionMachine SessionCommands SessionTheorems.
Open Scope Z_scope.

(** ** The identifier sequence *)

(** The sequence after one identifier was issued. *)
Definition lease_next (s : LeaseIdSequence) : LeaseIdSequence :=
  mkLeaseIdSequence (ls_secret s) (ls_next_counter s + 1).

(** The identifier that the next issuance of [domain] yields. *)
Definition lease_id `{Sha256} (domain : list Z) (s : LeaseIdSequence) : list Z :=
  lower_hex (sha256 (lease_preimage domain (ls_secret s) (ls_next_counter s))).

(** [n] issuances in a row. *)
Fixpoint lease_issues `{Sha256} (domain : list Z) (n : nat)
    : smonad LeaseIdSequence AuthorizationIssuanceError (list (list Z)) :=
  match n with
  | O => sret []
  | S n' =>
      let! id := lease_issue domain in
      let! ids := lease_issues domain n' in
      sret (id :: ids)
  end.

(** A counter that fits its 128-bit field. *)
Definition typed_sequence (s : LeaseIdSequence) : Prop := 0 ≤ ls_next_counter s ≤ u128_max.

Lemma lease_preimage_inj domain secret c c' :
  0 ≤ c ≤ u128_max → 0 ≤ c' ≤ u128_max →
  lease_preimage domain secret c = lease_preimage domain secret c' → c = c'.
Proof.
  intros Hc Hc' Heq. unfold lease_preimage, be_bytes in Heq.
  do 2 apply app_inv_head in Heq. apply (inj reverse) in Heq.
  unfold u128_max in *. apply le_bytes_inj in Heq; simpl; lia.
Qed.

Section issuance.
Context `{Sha256Spec}.

Lemma lease_issue_run domain s :
  lease_issue domain s =
  if bool_decide (ls_next_counter s + 1 ≤ u128_max)
  then (Ok (lease_id domain s), lease_next s) else (Err IdentifierSequenceExhausted, s).
Proof.
  unfold lease_issue, sbind, sget, sread, supd, ok_or, checked_add.
  case_bool_decide as Hle.
  - by rewrite (proj2 (Z.leb_le _ _) Hle).
  - by rewrite (proj2 (Z.leb_gt _ _)) by lia.
Qed.

Lemma lease_id_valid domain s : valid_hex64 (lease_id domain s).
Proof. apply lower_hex_valid; apply sha256_output. Qed.

Lemma lease_id_nonce domain s : security_nonce_new (lease_id domain s) = Ok (lease_id domain s).
Proof. apply security_nonce_new_ok. split; [done|apply lease_id_valid]. Qed.

Lemma host_risk_issue_run sid ep op s :
  ls_next_counter s < u128_max →
  let v := mkHostRiskVerifier (lease_id HOST_RISK_LEASE_DOMAIN s) sid ep op in
  host_risk_issue sid ep op s = (Ok (mkHostRiskLease v, v), lease_next s).
Proof.
  intros Hc v. unfold host_risk_issue, sbind, slift, sret. rewrite lease_issue_run.
  rewrite bool_decide_eq_true_2 by lia. by rewrite lease_id_nonce.
Qed.

Lemma ownership_issue_run b s :
  ls_next_counter s < u128_max →
  let id := lease_id SANDBOX_OWNERSHIP_LEASE_DOMAIN s in
  ownership_issue b s
  = (Ok (mkSandboxOwnershipLease id b, mkSandboxOwnershipVerifier id b), lease_next s).
Proof.
  intros Hc v. unfold ownership_issue, sbind, slift, sret. rewrite lease_issue_run.
  rewrite bool_decide_eq_true_2 by lia. by rewrite lease_id_nonce.
Qed.

(** Issuing a lease never panics.  While the 128-bit counter has a
    successor, both issuers hand out a lease and a verifier for exactly the
    operation or binding they were asked for, under one well-formed 64-digit
    identifier, and advance the counter by one; on the last counter value they
    report exhaustion and change nothing. *)
Theorem issuance_total s sid ep op b :
  typed_sequence s →
  if bool_decide (ls_next_counter s = u128_max)
  then host_risk_issue sid ep op s = (Err IdentifierSequenceExhausted, s)
       ∧ ownership_issue b s = (Err IdentifierSequenceExhausted, s)
  else ∃ hid oid, valid_hex64 hid ∧ valid_hex64 oid
       ∧ host_risk_issue sid ep op s
         = (Ok (mkHostRiskLease (mkHostRiskVerifier hid sid ep op),
                mkHostRiskVerifier hid sid ep op), lease_next s)
       ∧ ownership_issue b s
         = (Ok (mkSandboxOwnershipLease oid b,
                ownership_into_verifier (mkSandboxOwnershipLease oid b)), lease_next s).
Proof.
  intros [Hlo Hhi]. case_bool_decide as Hmax.
  - unfold host_risk_issue, ownership_issue, sbind. rewrite !lease_issue_run.
    rewrite bool_decide_eq_false_2 by lia. done.
  - exists (lease_id HOST_RISK_LEASE_DOMAIN s), (lease_id SANDBOX_OWNERSHIP_LEASE_DOMAIN s).
    split; [apply lease_id_valid|]. split; [apply lease_id_valid|].
    rewrite host_risk_issue_run, ownership_issue_run by lia. done.
Qed.

(** ** Identifiers do not repeat *)

(** Two counters in [lo, hi) whose distinct hash inputs collide. *)
Definition counter_collision (domain secret : list Z) (lo hi : Z) : Prop :=
  ∃ c c', lo ≤ c ∧ c < c' ∧ c' < hi
  ∧ lease_preimage domain secret c ≠ lease_preimage domain secret c'
  ∧ sha256 (lease_preimage domain secret c) = sha256 (lease_preimage domain secret c').

Lemma lease_issues_run domain n s ids s' :
  lease_issues domain n s = (Ok ids, s') →
  length ids = n
  ∧ (ls_next_counter s ≤ u128_max → ls_next_counter s + Z.of_nat n ≤ u128_max)
  ∧ ∀ i id, ids !! i = Some id →
      id = lease_id domain (mkLeaseIdSequence (ls_secret s) (ls_next_counter s + Z.of_nat i)).
Proof.
  revert s ids. induction n as [|n IH]; intros s ids; simpl.
  - intros [= <- <-]. split; [done|]. split; [lia|done].
  - unfold sbind, sret. rewrite lease_issue_run. case_bool_decide as Hc; [|done].
    destruct (lease_issues domain n (lease_next s)) as [[ids'|e|p] s1] eqn:Hr; [|done..].
    intros [= <- <-]. apply IH in Hr as (Hl & Hn & Hi). simpl in Hn.
    split; [by simpl; rewrite Hl|]. split; [lia|]. intros [|i] id Hid; simpl in Hid.
    + injection Hid as <-. unfold lease_id. simpl. by rewrite Z.add_0_r.
    + apply Hi in Hid as ->. unfold lease_id. simpl. do 3 f_equal. lia.
Qed.

Lemma lease_issues_collide domain n s ids s' i j id :
  typed_sequence s → lease_issues domain n s = (Ok ids, s') → (i < j)%nat →
  ids !! i = Some id → ids !! j = Some id →
  counter_collision domain (ls_secret s) (ls_next_counter s) (ls_next_counter s + Z.of_nat n).
Proof.
  intros [Hlo Hhi] Hr Hij Hi Hj. apply lease_issues_run in Hr as (Hl & Hn & Hall).
  pose proof (lookup_lt_Some _ _ _ Hj) as Hjn. specialize (Hn Hhi).
  apply Hall in Hi. apply Hall in Hj. rewrite Hi in Hj. unfold lease_id in Hj. simpl in Hj.
  apply lower_hex_inj in Hj; [|apply sha256_output..].
  exists (ls_next_counter s + Z.of_nat i), (ls_next_counter s + Z.of_nat j).
  do 3 (split; [lia|]). split; [|done].
  intros Heq. apply lease_preimage_inj in Heq; lia.
Qed.

(** One issuer never issues the same identifier twice.  The identifiers
    of any number of successive issuances are pairwise distinct, unless the
    distinct hash inputs of two of these very issuances are a SHA-256
    collision. *)
Theorem lease_ids_unique domain n s ids s' :
  typed_sequence s → lease_issues domain n s = (Ok ids, s') →
  NoDup ids
  ∨ counter_collision domain (ls_secret s) (ls_next_counter s) (ls_next_counter s + Z.of_nat n).
Proof.
  intros Hs Hr. destruct (decide (NoDup ids)) as [|Hdup]; [by left|]. right.
  assert (∃ i j id, (i < j)%nat ∧ ids !! i = Some id ∧ ids !! j = Some id)
    as (i & j & id & Hij & Hi & Hj).
  { clear Hs Hr s s'. induction ids as [|x ids IH]; [by destruct Hdup; constructor|].
    destruct (decide (x ∈ ids)) as [Hx|Hx].
    - apply list_elem_of_lookup_1 in Hx as [j Hj]. exists O, (S j), x. split; [lia|done].
    - destruct IH as (i & j & id & Hij & Hi & Hj); [by intros ?; destruct Hdup; constructor|].
      exists (S i), (S j), id. split; [lia|done]. }
  by eapply lease_issues_collide.
Qed.

(** ** An issued launch opens *)

(** The [Open] of a launch target, addressed to a fresh session. *)
Definition open_launch (cid sid : Z) (target : LaunchTarget) : CommandEnvelope :=
  mkCommandEnvelope ProtocolVersion_current cid (Some sid) (Some (mkStateToken sid 1))
    (DC.Open (DTR.Launch target)).

Lemma open_launch_valid cid sid t :
  target_validate (DTR.Launch t) = Ok tt → envelope_validate (open_launch cid sid t) = Ok tt.
Proof.
  intros Ht. unfold envelope_validate, open_launch. cbn [ce_version ce_command ce_session_id
    ce_expected_state command_validate is_probe command_state_context ok_or].
  rewrite Ht. simpl. by rewrite Z.eqb_refl.
Qed.

(** What is issued can be used.  A launch lease issued for a session and
    registered with that session's fresh reducer makes the [Open] of the
    target issued with it succeed: the session is opening that target with
    the host risk accepted, and the lease is spent. *)
Theorem issued_launch_opens inst sid ep hb m intent s target lease verifier s' cid :
  SessionMachine_new inst sid ep hb = Ok m →
  issue_launch sid ep intent s = (Ok (target, lease, verifier), s') →
  target_validate (DTR.Launch target) = Ok tt →
  ∃ m1 m2, register_host_risk_lease lease m = (Ok tt, m1)
    ∧ accept_command (open_launch cid sid target) m1
      = (Ok (SS.Opening (mkStateToken sid 2) (DTR.Launch target)), m2)
    ∧ m_execution_gate m2 = HostRiskAccepted ∧ m_host_risk_leases m2 = ∅.
Proof.
  intros [= <-] Hi Ht. unfold issue_launch, host_risk_issue in Hi.
  unfold sbind, slift, sret in Hi. rewrite lease_issue_run in Hi.
  case_bool_decide; [|done]. rewrite lease_id_nonce in Hi.
  generalize dependent (lease_id HOST_RISK_LEASE_DOMAIN s). intros id Hi. simpl in Hi.
  injection Hi as <- <- _ _.
  pose proof (open_launch_valid cid sid _ Ht) as He.
  assert (validate_against (open_launch cid sid (into_target intent id)) (SS.Idle (mkStateToken sid 1)) = Ok tt) as Hv
    by by apply validate_against_ok.
  assert (validate_successor (SS.Idle (mkStateToken sid 1)) (SS.Opening (mkStateToken sid 2)
      (DTR.Launch (into_target intent id))) = Ok tt) as Hsucc.
  { apply validate_successor_ok. unfold u64_max. simpl. repeat split; [lia..|set_solver]. }
  eexists _, _. split.
  { unfold register_host_risk_lease, register_host_risk_verifier, require_state, require_session.
    unfold sbind, sread, supd, fail_if. simpl. rewrite Z.eqb_refl. simpl.
    rewrite bool_decide_eq_true_2 by done. simpl. reflexivity. }
  split.
  { unfold accept_command, require_no_remote_command_pending, accept_command_inner,
      observe_command_id. unfold sbind, sread, slift, supd, sget.
    rewrite He. cbn -[open_launch validate_against accept_effect]. rewrite Hv. simpl.
    unfold accept_open, sbind, open_authority. simpl.
    unfold consume_host_risk_lease, take_lease. unfold sbind, sget, slift, supd, sread. simpl.
    rewrite lookup_insert_eq. simpl. rewrite Z.eqb_refl, bool_decide_eq_true_2 by done. simpl.
    change (HostLaunchIntent_eqb intent _) with
      (HostRiskOperation_eqb (HRO.Launch intent) (HRO.Launch intent)).
    rewrite HostRiskOperation_eqb_refl. simpl.
    unfold transition_to, sbind, sread. simpl. change (1 + 1) with 2. rewrite Hsucc. reflexivity. }
  done.
Qed.

(** ** Leases bind paths by components *)

(** The same intent with other spellings of its two paths. *)
Definition respelled (i : HostLaunchIntent) (executable : list Z) (cwd : option (list Z))
    : HostLaunchIntent :=
  mkHostLaunchIntent (hli_binary_id i) executable (hli_arguments i) cwd
    (hli_stop_before_entry i).

Lemma respelled_eqb i x cwd :
  HostLaunchIntent_eqb i (respelled i x cwd)
  = path_eqb (hli_executable i) x && option_eqb path_eqb (hli_working_directory i) cwd.
Proof.
  unfold HostLaunchIntent_eqb. simpl. rewrite !bool_decide_eq_true_2 by done.
  by destruct (path_eqb _ _), (option_eqb _ _ _).
Qed.

Lemma split_on_trailing sep seg l : split_on sep seg (l ++ [sep]) = split_on sep seg l ++ [[]].
Proof.
  revert seg. induction l as [|c l IH]; intros seg; simpl; [by rewrite Z.eqb_refl|].
  rewrite !IH. by destruct (c =? sep).
Qed.

Lemma split_on_nonempty sep seg l : split_on sep seg l ≠ [].
Proof. revert seg. induction l as [|c l IH]; intros seg; simpl; [done|]. by destruct (c =? sep). Qed.

(** A trailing separator is no component. *)
Lemma path_components_trailing p : p ≠ [] → path_components (p ++ [47]) = path_components p.
Proof.
  intros Hp. destruct p as [|c p]; [done|]. unfold path_components. rewrite split_on_trailing.
  rewrite bind_app. change ([[]] ≫= component_of) with (@nil path_component).
  rewrite app_nil_r. simpl ((c :: p) ++ [47]).
  pose proof (split_on_nonempty 47 [] (c :: p)) as Hne.
  destruct (split_on 47 [] (c :: p)) as [|seg rest]; [done|]. simpl. rewrite bind_app.
  change ([[]] ≫= component_of) with (@nil path_component). by rewrite app_nil_r.
Qed.

(** An approved launch is bound to the components of its paths, not to
    their text.  A lease registered for one intent is consumed by a launch
    that differs from it only in the spelling of the executable and working
    directory exactly when the spellings have the same path components; every
    nonempty executable has such another spelling, so what is launched need
    not be the lexical value that was approved. *)
Theorem lease_ignores_path_spelling m id i :
  host_grant m id (HRO.Launch i) →
  (∀ v, m_host_risk_leases m !! id = Some (Some v) → hrv_operation v = HRO.Launch i) →
  hli_executable i ≠ [] →
  (∀ x cwd,
     is_ok (consume_host_risk_lease id (HRO.Launch (respelled i x cwd)) m).1 = true
     ↔ path_eqb (hli_executable i) x = true
       ∧ option_eqb path_eqb (hli_working_directory i) cwd = true)
  ∧ is_ok (consume_host_risk_lease id (HRO.Launch (respelled i (hli_executable i ++ str "/")
             (hli_working_directory i))) m).1 = true.
Proof.
  intros (v & Hv & Hsid & Hep & _) Hop Hne. pose proof (Hop v Hv) as Hvop.
  assert (∀ x cwd,
     is_ok (consume_host_risk_lease id (HRO.Launch (respelled i x cwd)) m).1 = true
     ↔ path_eqb (hli_executable i) x = true
       ∧ option_eqb path_eqb (hli_working_directory i) cwd = true) as Hiff.
  { intros x cwd. rewrite consume_host_ok, <-andb_true_iff, <-respelled_eqb. split.
    - intros (w & Hw & _ & _ & Heq). simplify_eq. by rewrite Hvop in Heq.
    - intros Heq. exists v. by rewrite Hvop. }
  split; [done|]. apply Hiff. split.
  - unfold path_eqb. by rewrite bool_decide_eq_true_2 by by rewrite path_components_trailing.
  - apply option_eqb_refl, path_eqb_refl.
Qed.
End issuance.
