(* ===== verification/LivePatchTheory.v ===== *)
(** Theorems about the live patch history of [LivePatchHistory.v]: its bounds
    and panic freedom, the exact evidence a commit needs, that it freezes for
    good, and how it meets the live writes of the session reducer. *)

From S2P Require Import Prelude Identity Sandbox Protocol ProtocolTheory SessionMachine.
From S2P Require Import SessionInvariant SessionCommands SessionWorlds SessionTheorems.
From S2P Require Import SessionEvidence LivePatchHistory.
Open Scope Z_scope.

(** ** Calls *)

Inductive history_call : Type :=
  | BeginForward (session_id : Z) (b : LiveTargetBinding) (stop : StopToken) (address : Z)
      (before after : list Z)
  | BeginUndo (session_id : Z) (b : LiveTargetBinding) (stop : StopToken)
  | MarkForDispatch
  | CancelBeforeDispatch
  | ResolveReceipt (session_id : Z) (b : LiveTargetBinding) (r : CommandReceipt)
  | ResolveLocalReceipt (r : ValidatedLocalLivePatchReceipt)
  | MarkOutcomeUnknown.

(** A call reports the resolution it made, if any. *)
Definition history_exec (c : history_call) : history_op (option LivePatchResolution) :=
  match c with
  | BeginForward sid b stop a before after =>
      do! begin_forward_write sid b stop a before after in sret None
  | BeginUndo sid b stop => do! begin_undo sid b stop in sret None
  | MarkForDispatch => do! mark_for_dispatch in sret None
  | CancelBeforeDispatch => do! cancel_before_dispatch in sret None
  | ResolveReceipt sid b r => let! x := resolve_receipt sid b r in sret (Some x)
  | ResolveLocalReceipt r => let! x := resolve_local_receipt r in sret (Some x)
  | MarkOutcomeUnknown => let! x := mark_transport_outcome_unknown in sret (Some x)
  end.

Definition history_calls (h : LivePatchHistory) (l : list history_call) : LivePatchHistory :=
  foldl (λ h c, (history_exec c h).2) h l.

(** ** Invariant *)

Record valid_patch (b : LiveTargetBinding) (a : Z) (before after : list Z) : Prop := {
  vpt_nonempty : before ≠ [];
  vpt_length : zlen before = zlen after;
  vpt_changes : before ≠ after;
  vpt_size : zlen before ≤ MAX_MEMORY_WRITE_BYTES;
  vpt_span : ∃ rva, rva_for_address_span b a (zlen before) = Ok rva
}.

Fixpoint total_stored (l : list LivePatchEntry) : Z :=
  match l with [] => 0 | e :: l' => entry_stored_bytes e + total_stored l' end.

(** A pending operation is a valid patch with room for its entry, or the
    inverse of the last entry. *)
Definition pending_ok (h : LivePatchHistory) (p : PendingLivePatchOperation) : Prop :=
  match po_kind p with
  | ForwardWrite =>
      valid_patch (lh_binding h) (po_address p) (po_expected p) (po_replacement p)
      ∧ zlen (lh_entries h) < MAX_LIVE_PATCH_HISTORY_ENTRIES
  | Undo =>
      ∃ l e, lh_entries h = l ++ [e] ∧ po_address p = le_address e
             ∧ po_expected p = le_after e ∧ po_replacement p = le_before e
  end.

Record history_inv (h : LivePatchHistory) : Prop := {
  hi_entries : Forall (λ e, valid_patch (lh_binding h) (le_address e) (le_before e) (le_after e))
                 (lh_entries h);
  hi_count : zlen (lh_entries h) ≤ MAX_LIVE_PATCH_HISTORY_ENTRIES;
  hi_stored : lh_stored_bytes h = total_stored (lh_entries h);
  hi_binding : valid_binding (lh_binding h);
  hi_reserved : reserved_bytes h ≤ MAX_LIVE_PATCH_HISTORY_STORED_BYTES;
  hi_pending : ∀ p, lh_pending h = Some p → lh_freeze_evidence h = None ∧ pending_ok h p
}.

(** What each resolution did to the history. *)
Definition resolution_of (h : LivePatchHistory) (r : LivePatchResolution)
    (h' : LivePatchHistory) : Prop :=
  ∃ p, lh_pending h = Some p ∧ po_phase p = Dispatched ∧ lh_pending h' = None
  ∧ match r with
    | LPR.ForwardCommitted e =>
        po_kind p = ForwardWrite ∧ lh_entries h' = lh_entries h ++ [e]
        ∧ le_address e = po_address p ∧ le_before e = po_expected p
        ∧ le_after e = po_replacement p ∧ le_applied_stop e = po_stop p
        ∧ lh_freeze_evidence h' = None
    | LPR.UndoCommitted e =>
        po_kind p = Undo ∧ lh_entries h = lh_entries h' ++ [e]
        ∧ le_address e = po_address p ∧ le_after e = po_expected p
        ∧ le_before e = po_replacement p ∧ lh_freeze_evidence h' = None
    | LPR.RejectedNoEffect => lh_entries h' = lh_entries h ∧ lh_freeze_evidence h' = None
    | LPR.Frozen =>
        lh_entries h' = lh_entries h
        ∧ ∃ id cause, lh_freeze_evidence h' = Some (mkLivePatchFreezeEvidence p id cause)
    end.

Definition call_outcome (h : LivePatchHistory) (r : option LivePatchResolution)
    (h' : LivePatchHistory) : Prop :=
  history_inv h'
  ∧ match r with
    | Some r => resolution_of h r h'
    | None => lh_entries h' = lh_entries h ∧ lh_freeze_evidence h' = None
    end.

Lemma total_stored_app l e : total_stored (l ++ [e]) = total_stored l + entry_stored_bytes e.
Proof. induction l as [|x l IH]; simpl; [|rewrite IH]; lia. Qed.

Lemma total_stored_nonneg l : 0 ≤ total_stored l.
Proof.
  induction l as [|e l IH]; simpl; [lia|].
  unfold entry_stored_bytes, zlen. lia.
Qed.

Lemma validate_patch_bytes_ok x y u :
  validate_patch_bytes x y = Ok u ↔
  x ≠ [] ∧ zlen x = zlen y ∧ x ≠ y ∧ zlen x ≤ MAX_MEMORY_WRITE_BYTES.
Proof.
  unfold validate_patch_bytes. destruct u. split.
  - intros H. rust_inv H. destruct_and?. done.
  - intros (? & ? & ? & ?). rust_ok.
Qed.

Lemma validate_patch_bytes_no_panic x y : no_panic (validate_patch_bytes x y).
Proof. unfold validate_patch_bytes. no_panic. Qed.
#[local] Hint Resolve validate_patch_bytes_no_panic : nopanic.

(** ** Every call preserves the invariant *)

Lemma wp_not_frozen (Q : unit → LivePatchHistory → Prop) QE h :
  (lh_freeze_evidence h = None → Q tt h) → QE LPE.InspectionOnly h →
  wp require_not_frozen Q QE h.
Proof.
  intros HQ HE. unfold require_not_frozen. apply wp_guard; intros Hf; [|done].
  apply HQ. rewrite bool_decide_eq_false in Hf. by apply eq_None_not_Some.
Qed.

Lemma require_ready_spec sid b stop h :
  wp (require_ready_context sid b stop)
    (λ _ h', h' = h ∧ lh_freeze_evidence h = None ∧ lh_pending h = None
             ∧ sid = lh_session_id h ∧ b = lh_binding h)
    (λ _ h', h' = h) h.
Proof.
  unfold require_ready_context. wp_step. apply wp_not_frozen; [|done]. intros Hf.
  do 4 (wp_step; wp_step; [|done]). wp_step; [|done]. split; [done|]. split; [done|].
  split; [by apply eq_None_not_Some|done].
Qed.

Lemma span_no_panic a n h : valid_binding (lh_binding h) → no_panic (validate_image_span a n h).
Proof.
  intros Hb. unfold validate_image_span. apply no_panic_bind; [|no_panic].
  by apply no_panic_map_err, rva_for_address_span_no_panic.
Qed.

Lemma span_ok a n h : validate_image_span a n h = Ok tt → ∃ rva, rva_for_address_span (lh_binding h) a n = Ok rva.
Proof.
  unfold validate_image_span. intros Hv. apply result_bind_ok in Hv as (rva & Hv & _).
  rewrite map_err_ok in Hv. eauto.
Qed.

(** Reserving an operation in a ready history. *)
Lemma reserve_outcome h stop p :
  history_inv h → lh_freeze_evidence h = None → lh_pending h = None → pending_ok h p →
  lh_stored_bytes h + reserved_history_bytes p ≤ MAX_LIVE_PATCH_HISTORY_STORED_BYTES →
  call_outcome h None (lh_set_pending (Some p) (lh_set_last_stop stop h)).
Proof.
  intros [He Hc Hs Hb Hr _] Hf Hp Hok Hle. split; [|done]. split; try done.
  simpl. by intros q [= <-].
Qed.

Lemma begin_forward_spec sid b stop a x y h :
  history_inv h →
  wp (begin_forward_write sid b stop a x y) (λ _ h', call_outcome h None h') (λ _ h', h' = h) h.
Proof.
  intros Hh. unfold begin_forward_write. wp_step.
  eapply wp_mono; [apply require_ready_spec| |done]. simpl. intros _ h' (-> & Hf & Hp & _ & _).
  wp_step. apply wp_lift_check; [auto with nopanic| |done]. intros Hv.
  apply validate_patch_bytes_ok in Hv as (H1 & H2 & H3 & H4).
  wp_step. apply wp_check; [by apply span_no_panic, Hh| |done]. intros Hsp. apply span_ok in Hsp.
  wp_step. wp_step; [|done]. wp_step. wp_step; [|done]. wp_step. wp_step; [|done].
  do 3 wp_step. apply reserve_outcome; try done.
  - unfold pending_ok. simpl. split; [done|lia].
  - unfold reserved_history_bytes. simpl. lia.
Qed.

Lemma begin_undo_spec sid b stop h :
  history_inv h →
  wp (begin_undo sid b stop) (λ _ h', call_outcome h None h') (λ _ h', h' = h) h.
Proof.
  intros Hh. unfold begin_undo. wp_step.
  eapply wp_mono; [apply require_ready_spec| |done]. simpl. intros _ h' (-> & Hf & Hp & _ & _).
  wp_step. wp_step; [|done]. rename a into e.
  match goal with Hl : list.last _ = Some e |- _ => apply list.last_Some in Hl as [l Hl] end.
  wp_step. apply wp_check; [by apply span_no_panic, Hh|intros _|done]. do 3 wp_step.
  apply reserve_outcome; try done.
  - unfold pending_ok. simpl. eauto 10.
  - pose proof (hi_reserved _ Hh) as Hr. unfold reserved_bytes in Hr. rewrite Hp, Hf in Hr.
    unfold reserved_history_bytes. simpl in *. lia.
Qed.

(** Changing only the phase of the pending operation keeps the invariant. *)
Lemma set_phase_inv h p phase :
  history_inv h → lh_pending h = Some p →
  history_inv (lh_set_pending (Some (po_set_phase phase p)) h).
Proof.
  intros [He Hc Hs Hb Hr Hp] Hpend. destruct (Hp p Hpend) as [Hf Hok]. split; try done.
  - unfold reserved_bytes in *. simpl. by rewrite Hpend in Hr.
  - simpl. by intros q [= <-].
Qed.

Lemma mark_for_dispatch_spec h :
  history_inv h →
  wp mark_for_dispatch
    (λ c h', call_outcome h None h'
             ∧ ∃ p, lh_pending h = Some p ∧ po_phase p = Reserved ∧ c = po_command p
                    ∧ h' = lh_set_pending (Some (po_set_phase Dispatched p)) h)
    (λ _ h', h' = h) h.
Proof.
  intros Hh. unfold mark_for_dispatch. wp_step. apply wp_not_frozen; [|done]. intros Hf.
  wp_step. wp_step; [|done]. wp_step. wp_step; [|done]. do 3 wp_step.
  split; [split; [by apply set_phase_inv|done]|]. exists a. by destruct (po_phase a).
Qed.

(** Dropping the pending operation keeps the invariant. *)
Lemma drop_pending_inv h :
  history_inv h → history_inv (lh_set_pending None h).
Proof.
  intros [He Hc Hs Hb Hr Hp]. split; try done. unfold reserved_bytes in *. simpl.
  destruct (lh_pending h) as [p|] eqn:Hpend; [|done].
  destruct (Hp p eq_refl) as [-> _]. simpl in *.
  assert (0 ≤ reserved_history_bytes p); [|lia].
  unfold reserved_history_bytes, zlen. destruct (po_kind p); lia.
Qed.

Lemma cancel_before_dispatch_spec h :
  history_inv h →
  wp cancel_before_dispatch (λ _ h', call_outcome h None h') (λ _ h', h' = h) h.
Proof.
  intros Hh. unfold cancel_before_dispatch. wp_step. apply wp_not_frozen; [|done]. intros Hf.
  wp_step. wp_step; [|done]. wp_step. wp_step; [|done]. wp_step.
  split; [by apply drop_pending_inv|done].
Qed.


Section dispatched.
Context (h : LivePatchHistory) (p : PendingLivePatchOperation).
Context (Hh : history_inv h) (Hp : lh_pending h = Some p) (Hd : po_phase p = Dispatched).

Lemma take_pending_spec msg h' (Q : PendingLivePatchOperation → LivePatchHistory → Prop) QE :
  lh_pending h' = Some p → Q p (lh_set_pending None h') → wp (take_pending msg) Q QE h'.
Proof.
  intros Hp' HQ. unfold take_pending, wp, sbind, sread, supd, sret. by rewrite Hp'.
Qed.

Lemma dispatched_not_frozen : lh_freeze_evidence h = None.
Proof. by apply (hi_pending _ Hh p). Qed.

Lemma freeze_spec id cause :
  wp (freeze id cause)
    (λ r h', r = LPR.Frozen ∧ call_outcome h (Some r) h'
             ∧ lh_freeze_evidence h' = Some (mkLivePatchFreezeEvidence p id cause))
    (λ _ _, False) h.
Proof.
  unfold freeze. wp_step. apply take_pending_spec; [done|]. do 3 wp_step.
  split; [done|]. split; [|done]. split; [|exists p; eauto 10].
  destruct Hh as [He Hc Hs Hb Hr Hpo]. split; try done.
  unfold reserved_bytes in *. simpl. by rewrite Hp in Hr.
Qed.

Lemma freeze_outcome id cause :
  wp (freeze id cause) (λ r h', call_outcome h (Some r) h') (λ _ _, False) h.
Proof. eapply wp_mono; [apply freeze_spec| |done]. by intros r h' (_ & ? & _). Qed.

Lemma clear_safe_rejection_spec id :
  wp (clear_safe_rejection id)
    (λ _ h', call_outcome h (Some LPR.RejectedNoEffect) h'
             ∧ lh_last_receipt_command_id h' = Some id) (λ _ _, False) h.
Proof.
  unfold clear_safe_rejection. do 3 wp_step. apply take_pending_spec; [done|]. wp_step.
  split; [|done]. split; [|exists p; eauto using dispatched_not_frozen].
  destruct (drop_pending_inv h Hh). split; done.
Qed.

Lemma commit_forward_spec id stop :
  po_kind p = ForwardWrite →
  let e := mkLivePatchEntry (po_address p) (po_expected p) (po_replacement p) (po_stop p) stop id in
  wp (commit_success id stop)
    (λ r h', r = LPR.ForwardCommitted e ∧ call_outcome h (Some r) h') (λ _ _, False) h.
Proof.
  intros Hk e. unfold commit_success. wp_step. apply take_pending_spec; [done|]. do 4 wp_step.
  rewrite Hk. fold e. destruct (hi_pending _ Hh p Hp) as [Hf Hok].
  unfold pending_ok in Hok. rewrite Hk in Hok. destruct Hok as [Hv Hlt].
  destruct Hh as [He Hc Hs Hb Hr _]. unfold reserved_bytes in Hr. rewrite Hp in Hr. simpl in Hr.
  assert (reserved_history_bytes p = entry_stored_bytes e) as Hby
    by (unfold reserved_history_bytes, entry_stored_bytes; by rewrite Hk).
  assert (lh_stored_bytes h + entry_stored_bytes e ≤ MAX_LIVE_PATCH_HISTORY_STORED_BYTES)
    as Hle by lia.
  unfold wp, sbind, sread, supd, sret. simpl.
  rewrite checked_add_run by (unfold usize_max, u64_max, MAX_LIVE_PATCH_HISTORY_STORED_BYTES in *; lia).
  simpl. split; [done|]. split; [|exists p; by eauto 10].
  split; simpl; try done.
  - apply Forall_app. split; [done|]. by apply list.Forall_singleton.
  - unfold zlen in *. rewrite length_app. simpl. lia.
  - by rewrite total_stored_app, Hs.
  - unfold reserved_bytes. simpl. rewrite Hf. simpl. lia.
Qed.

Lemma commit_undo_spec id stop :
  po_kind p = Undo →
  wp (commit_success id stop)
    (λ r h', (∃ e, r = LPR.UndoCommitted e) ∧ call_outcome h (Some r) h') (λ _ _, False) h.
Proof.
  intros Hk. unfold commit_success. wp_step. apply take_pending_spec; [done|]. do 4 wp_step.
  rewrite Hk. destruct (hi_pending _ Hh p Hp) as [Hf Hok].
  unfold pending_ok in Hok. rewrite Hk in Hok. destruct Hok as (l & e & Hl & H1 & H2 & H3).
  destruct Hh as [He Hc Hs Hb Hr _]. unfold reserved_bytes in Hr. rewrite Hp in Hr. simpl in Hr.
  unfold reserved_history_bytes in Hr. rewrite Hk in Hr.
  rewrite Hl in He, Hc, Hs. apply Forall_app in He as [He _].
  rewrite total_stored_app in Hs. pose proof (total_stored_nonneg l) as Hn.
  unfold zlen in Hc. rewrite length_app in Hc. simpl in Hc.
  assert (checked_sub (lh_stored_bytes h) (entry_stored_bytes e) = Some (total_stored l)) as Hsub.
  { rewrite checked_sub_run by lia. f_equal. lia. }
  unfold wp, sbind, sread, supd, sret, assert_eq, slift. simpl. rewrite Hl, list.last_snoc. simpl.
  rewrite !bool_decide_eq_true_2 by done. rewrite Hsub. simpl.
  assert (0 ≤ entry_stored_bytes e) by (unfold entry_stored_bytes, zlen; lia).
  split; [by eexists|]. split; [|exists p; rewrite Hl, removelast_last; simpl; auto 10].
  split; simpl; rewrite ?removelast_last; try done.
  - unfold zlen. lia.
  - unfold reserved_bytes. simpl. rewrite Hf. simpl. lia.
Qed.

Lemma commit_outcome id stop :
  wp (commit_success id stop) (λ r h', call_outcome h (Some r) h') (λ _ _, False) h.
Proof.
  destruct (po_kind p) eqn:Hk.
  - eapply wp_mono; [by apply commit_forward_spec| |done]. by intros r h' [_ ?].
  - eapply wp_mono; [by apply commit_undo_spec| |done]. by intros r h' [_ ?].
Qed.

Lemma reject_outcome id :
  wp (do! clear_safe_rejection id in sret LPR.RejectedNoEffect)
    (λ r h', call_outcome h (Some r) h') (λ _ _, False) h.
Proof.
  wp_step. eapply wp_mono; [apply clear_safe_rejection_spec| |done]. by intros _ h' [? _].
Qed.
End dispatched.
Create HintDb history.
#[local] Hint Resolve freeze_outcome commit_outcome reject_outcome : history.

Lemma dispatched_for_spec id h :
  wp (dispatched_for id)
    (λ p h', h' = h ∧ lh_freeze_evidence h = None ∧ lh_pending h = Some p
             ∧ po_phase p = Dispatched)
    (λ _ h', h' = h) h.
Proof.
  unfold dispatched_for. wp_step. apply wp_not_frozen; [|done]. intros Hf.
  wp_step. wp_step; [|done]. wp_step. wp_step; [|done]. by wp_step.
Qed.

Lemma scan_event_no_panic sid p r i e s : no_panic (scan_event sid p r i e s).
Proof. unfold scan_event. destruct s. no_panic. Qed.

Lemma scan_events_no_panic sid p r i l s : no_panic (scan_events sid p r i l s).
Proof.
  revert i s. induction l as [|e l IH]; intros i s; simpl; [no_panic|].
  apply no_panic_bind; [apply scan_event_no_panic|]. intros s' _. apply IH.
Qed.

Lemma scan_inspect_no_panic sid p r : no_panic (scan_inspect sid p r).
Proof.
  unfold scan_inspect. apply no_panic_bind; [no_panic|]. intros _ _.
  apply no_panic_bind; [apply scan_events_no_panic|]. no_panic.
Qed.

(** A resolution that can only freeze, commit or reject the dispatched
    operation. *)
Ltac resolve_cases :=
  unfold freeze_mismatch;
  repeat match goal with
    | |- wp (if ?b then _ else _) _ _ _ => destruct b eqn:?
    | |- wp (match ?x with _ => _ end) _ _ _ => destruct x eqn:?
    end;
  try (eapply wp_mono; [eauto with history|done|done]).

Lemma resolve_receipt_spec sid b r h :
  history_inv h →
  wp (resolve_receipt sid b r) (λ x h', call_outcome h (Some x) h') (λ _ h', h' = h) h.
Proof.
  intros Hh. unfold resolve_receipt. wp_step. eapply wp_mono; [apply dispatched_for_spec| |done].
  simpl. intros p h' (-> & Hf & Hp & Hd). do 6 wp_step.
  unfold resolve_success, resolve_rejection. resolve_cases.
  by edestruct (scan_inspect_no_panic (lh_session_id h) p r).
Qed.

Lemma resolve_local_receipt_spec r h :
  history_inv h →
  wp (resolve_local_receipt r) (λ x h', call_outcome h (Some x) h') (λ _ h', h' = h) h.
Proof.
  intros Hh. unfold resolve_local_receipt. wp_step.
  eapply wp_mono; [apply dispatched_for_spec| |done].
  simpl. intros p h' (-> & Hf & Hp & Hd). do 6 wp_step. resolve_cases.
Qed.

Lemma mark_unknown_spec h :
  history_inv h →
  wp mark_transport_outcome_unknown (λ x h', call_outcome h (Some x) h') (λ _ h', h' = h) h.
Proof.
  intros Hh. unfold mark_transport_outcome_unknown, require_dispatched_pending. wp_step. wp_step.
  apply wp_not_frozen; [|done]. intros Hf. apply wp_check; [no_panic| |done].
  destruct (lh_pending h) as [p|] eqn:Hp; [|done]. intros Hd. apply fail_if_ok in Hd.
  rewrite bool_decide_eq_false in Hd. 
  assert (po_phase p = Dispatched) as Hd' by by destruct (po_phase p).
  eapply wp_mono; [by apply (freeze_outcome h p)|done|done].
Qed.

Lemma history_exec_spec c h :
  history_inv h → wp (history_exec c) (call_outcome h) (λ _ h', h' = h) h.
Proof.
  intros Hh. destruct c; simpl; wp_step.
  - eapply wp_mono; [by apply begin_forward_spec|done|done].
  - eapply wp_mono; [by apply begin_undo_spec|done|done].
  - eapply wp_mono; [by apply mark_for_dispatch_spec| |done]. by intros x h' [? _].
  - eapply wp_mono; [by apply cancel_before_dispatch_spec|done|done].
  - eapply wp_mono; [by apply resolve_receipt_spec|done|done].
  - eapply wp_mono; [by apply resolve_local_receipt_spec|done|done].
  - eapply wp_mono; [by apply mark_unknown_spec|done|done].
Qed.

Lemma new_history_inv sid b : valid_binding b → history_inv (LivePatchHistory_new sid b).
Proof. intros Hb. by split. Qed.

Lemma history_step_inv c h : history_inv h → history_inv (history_exec c h).2.
Proof.
  intros Hh. pose proof (history_exec_spec c h Hh) as Hs. unfold wp in Hs.
  destruct (history_exec c h) as [[r|e|p] h']; [apply Hs|by rewrite Hs|done].
Qed.

Lemma history_calls_inv sid b l :
  valid_binding b → history_inv (history_calls (LivePatchHistory_new sid b) l).
Proof.
  intros Hb. pose proof (new_history_inv sid b Hb) as Hh. unfold history_calls. revert Hh.
  generalize (LivePatchHistory_new sid b). induction l as [|c l IH]; intros h Hh; [done|].
  by apply IH, history_step_inv.
Qed.

(** C39: a live patch history stays within its bounds whatever calls are made.
    Starting from a new history for an admitted binding, after any calls it
    holds at most 256 entries and one mebibyte, reservations and frozen
    evidence included, its byte count is that of its entries, every entry is a
    valid patch inside the image, and a reserved undo is the inverse of the
    last entry.  The next call never panics, changes nothing when it fails,
    and when it resolves the dispatched operation it pushes exactly that
    operation, pops exactly the entry it undoes, or leaves the entries alone. *)
Theorem patch_history_sound sid b l c :
  valid_binding b →
  let h := history_calls (LivePatchHistory_new sid b) l in
  history_inv h
  ∧ let (r, h') := history_exec c h in
    match r with
    | Ok x => call_outcome h x h'
    | Err _ => h' = h
    | Panic _ => False
    end.
Proof.
  intros Hb h. pose proof (history_calls_inv sid b l Hb) as Hh. fold h in Hh. split; [done|].
  pose proof (history_exec_spec c h Hh) as Hs. unfold wp in Hs.
  by destruct (history_exec c h) as [[r|e|p] h'].
Qed.

Lemma frozen_refuses c h f :
  lh_freeze_evidence h = Some f → history_exec c h = (Err LPE.InspectionOnly, h).
Proof.
  intros Hf. assert (require_not_frozen h = (Err LPE.InspectionOnly, h)) as Hn.
  { unfold require_not_frozen, sread. by rewrite Hf. }
  destruct c; simpl; unfold begin_forward_write, begin_undo, require_ready_context,
    mark_for_dispatch, cancel_before_dispatch, resolve_receipt, resolve_local_receipt,
    dispatched_for, mark_transport_outcome_unknown, require_dispatched_pending, sbind;
    by rewrite Hn.
Qed.

(** A frozen history is for inspection only, for good.  Once evidence was
    missing or contradictory, every later call is refused and the history,
    with its entries and the evidence, never changes again. *)
Theorem frozen_history_final h f l c :
  lh_freeze_evidence h = Some f →
  history_calls h l = h ∧ history_exec c h = (Err LPE.InspectionOnly, h).
Proof.
  intros Hf. split; [|by apply (frozen_refuses _ _ f)]. unfold history_calls.
  induction l as [|d l IH]; [done|]. simpl. by rewrite (frozen_refuses d h f Hf).
Qed.

(** ** The evidence of a committed write *)

Definition state_of (e : EventEnvelope) : option SessionState :=
  match ee_event e with DE.StateChanged s => Some s | _ => None end.

Definition write_of (e : EventEnvelope) : option (StopToken * Z * list Z * list Z) :=
  match ee_event e with DE.MemoryWritten s a x y => Some (s, a, x, y) | _ => None end.

Section evidence.
Context (sid : Z) (p : PendingLivePatchOperation) (r : CommandReceipt) (tok : StopToken).

Definition correlated (e : EventEnvelope) : Prop :=
  ee_caused_by e = Some (cre_command_id r) ∧ ee_session_id e = Some sid.

(** The closing command result, at the state the write led to. *)
Definition exact_result (e : EventEnvelope) : Prop :=
  ee_event e = DE.CommandResult (cre_command_id r) (cre_outcome r)
  ∧ ee_state e = Some (stop_state tok).

(** The events a committed write may report before its result. *)
Definition benign (e : EventEnvelope) : Prop :=
  match ee_event e with
  | DE.MemoryWritten s a x y =>
      s = po_stop p ∧ a = po_address p ∧ x = po_expected p ∧ y = po_replacement p
      ∧ ee_state e = Some (stop_state (po_stop p))
  | DE.StateChanged s =>
      (∃ reason th, s = SS.Stopped tok reason th) ∧ ee_state e = Some (stop_state tok)
  | DE.Warning _ _ => True
  | _ => False
  end.

(** Everything the scan must have found. *)
Record scanned (s : ReceiptScan) (index : Z) : Prop := {
  sc_written : rs_memory_written s = true;
  sc_failure : rs_failure s = None;
  sc_effect : rs_unexpected_effect s = false;
  sc_states : ∃ reason th, rs_states s = [SS.Stopped tok reason th];
  sc_result : rs_command_result_state s = Some (stop_state tok);
  sc_results : rs_command_results s = 1;
  sc_index : rs_result_index s = Some index
}.

Lemma scan_event_inv i e s s' :
  scan_event sid p r i e s = Ok s' →
  correlated e
  ∧ match ee_event e with
    | DE.CommandResult id o =>
        id = cre_command_id r ∧ o = cre_outcome r
        ∧ s' = mkReceiptScan (rs_memory_written s) (rs_failure s) (rs_states s)
                 (rs_state_changes s) (ee_state e) (rs_unexpected_effect s)
                 (rs_command_results s + 1) (Some i)
    | DE.MemoryWritten _ _ _ _ =>
        rs_memory_written s = false ∧ benign e
        ∧ s' = mkReceiptScan true (rs_failure s) (rs_states s)
                 (rs_state_changes s) (rs_command_result_state s) (rs_unexpected_effect s)
                 (rs_command_results s) (rs_result_index s)
    | DE.MemoryWriteFailed f =>
        s' = mkReceiptScan (rs_memory_written s) (Some f) (rs_states s)
               (rs_state_changes s) (rs_command_result_state s) (rs_unexpected_effect s)
               (rs_command_results s) (rs_result_index s)
    | DE.StateChanged st =>
        ee_state e = Some (state_token st)
        ∧ s' = mkReceiptScan (rs_memory_written s) (rs_failure s) (rs_states s ++ [st])
                 (rs_state_changes s + 1) (rs_command_result_state s) (rs_unexpected_effect s)
                 (rs_command_results s) (rs_result_index s)
    | DE.Warning _ _ => s' = s
    | _ =>
        s' = mkReceiptScan (rs_memory_written s) (rs_failure s) (rs_states s)
               (rs_state_changes s) (rs_command_result_state s) true
               (rs_command_results s) (rs_result_index s)
    end.
Proof.
  unfold scan_event, correlated, benign. destruct s. intros H. rust_inv H.
  split; [done|]. destruct (ee_event e); rust_inv H; simplify_eq/=; try done; naive_solver.
Qed.

(** What the scan has found it never forgets. *)
Lemma scan_events_mono i evs s s' :
  scan_events sid p r i evs s = Ok s' →
  rs_command_results s ≤ rs_command_results s'
  ∧ (rs_command_results s' = rs_command_results s → rs_result_index s' = rs_result_index s)
  ∧ (rs_failure s' = None → rs_failure s = None)
  ∧ (rs_unexpected_effect s' = false → rs_unexpected_effect s = false).
Proof.
  revert i s. induction evs as [|e evs IH]; intros i s; simpl; [by intros [= <-]|].
  intros H. apply result_bind_ok in H as (s1 & H1 & H2).
  apply IH in H2 as (Hr & Hi & Hf & Hu). apply scan_event_inv in H1 as [_ H1].
  destruct (ee_event e); destruct_and?; subst s1; simpl in *;
    (split; [lia|]); (split; [intros; first [lia | apply Hi; lia]|]); naive_solver.
Qed.

Lemma scan_event_result i e s :
  correlated e → exact_result e →
  scan_event sid p r i e s
  = Ok (mkReceiptScan (rs_memory_written s) (rs_failure s) (rs_states s) (rs_state_changes s)
          (Some (stop_state tok)) (rs_unexpected_effect s) (rs_command_results s + 1) (Some i)).
Proof.
  intros [Hc Hs] [He Ht]. unfold scan_event. rewrite Hc, Hs, He, Ht.
  rewrite !bool_decide_eq_true_2 by done. rewrite Z.eqb_refl. by destruct s.
Qed.

Lemma scan_event_benign i e s :
  correlated e → benign e → (is_Some (write_of e) → rs_memory_written s = false) →
  scan_event sid p r i e s
  = Ok (mkReceiptScan (rs_memory_written s || bool_decide (is_Some (write_of e))) (rs_failure s)
          (rs_states s ++ option_list (state_of e))
          (rs_state_changes s + zlen (option_list (state_of e)))
          (rs_command_result_state s) (rs_unexpected_effect s) (rs_command_results s)
          (rs_result_index s)).
Proof.
  intros [Hc Hs] Hb Hw. unfold scan_event, benign, write_of, state_of in *. rewrite Hc, Hs.
  rewrite !bool_decide_eq_true_2 by done. simpl. destruct s; simpl in *.
  destruct (ee_event e); try done.
  - destruct Hb as [(reason & th & ->) ->]. simpl.
    rewrite bool_decide_eq_true_2 by done. simpl. by rewrite orb_false_r.
  - destruct Hb as (-> & -> & -> & -> & ->). rewrite Hw by eauto. simpl.
    rewrite !bool_decide_eq_true_2, Z.eqb_refl by done. simpl. by rewrite app_nil_r, Z.add_0_r.
  - simpl. by rewrite orb_false_r, app_nil_r, Z.add_0_r.
Qed.

(** The events of a committed write: warnings, one write, one stop, and the
    result. *)
Definition success_events (written : bool) (states : list SessionState)
    (evs : list EventEnvelope) : Prop :=
  ∃ body res, evs = body ++ [res] ∧ Forall correlated evs ∧ exact_result res
  ∧ Forall benign body
  ∧ length (omap write_of body) = (if written then 0 else 1)%nat
  ∧ ∃ reason th, states ++ omap state_of body = [SS.Stopped tok reason th].

Lemma success_events_cons w st e evs :
  correlated e → benign e → (is_Some (write_of e) → w = false) →
  success_events (w || bool_decide (is_Some (write_of e))) (st ++ option_list (state_of e)) evs →
  success_events w st (e :: evs).
Proof.
  intros Hc Hb Hw (body & res & -> & Hcs & Hres & Hbs & Hn & Hst).
  exists (e :: body), res. split; [done|]. split; [by constructor|]. split; [done|].
  split; [by constructor|]. simpl. split.
  - destruct (write_of e) eqn:He; simpl in *; [|by rewrite orb_false_r in Hn].
    rewrite Hw in Hn |- * by eauto. by f_equal.
  - destruct (state_of e); simpl in *; [by rewrite <-app_assoc in Hst|by rewrite app_nil_r in Hst].
Qed.

Lemma scan_complete evs i s :
  rs_failure s = None → rs_unexpected_effect s = false → rs_command_results s = 0 →
  success_events (rs_memory_written s) (rs_states s) evs →
  ∃ s', scan_events sid p r i evs s = Ok s' ∧ scanned s' (i + zlen evs - 1).
Proof.
  intros Hf Hu Hr (body & res & -> & Hc & Hres & Hb & Hn & reason & th & Hst).
  revert i s Hf Hu Hr Hn Hst. induction body as [|e body IH]; intros i s Hf Hu Hr Hn Hst.
  - simpl. apply Forall_cons_iff in Hc as [Hc _]. rewrite scan_event_result by done. simpl.
    eexists. split; [done|]. simpl in Hn, Hst. rewrite app_nil_r in Hst.
    split; simpl; try done; [by destruct (rs_memory_written s)|eauto|lia|].
    unfold zlen. simpl. f_equal. lia.
  - simpl. apply Forall_cons_iff in Hc as [Hc Hcs]. apply Forall_cons_iff in Hb as [He Hb].
    csimpl in Hn. csimpl in Hst. rewrite scan_event_benign; [|done..|].
    2: { intros [x Hx]. rewrite Hx in Hn. by destruct (rs_memory_written s). }
    simpl. destruct (IH Hcs Hb (i + 1) (mkReceiptScan
      (rs_memory_written s || bool_decide (is_Some (write_of e))) (rs_failure s)
      (rs_states s ++ option_list (state_of e))
      (rs_state_changes s + zlen (option_list (state_of e)))
      (rs_command_result_state s) (rs_unexpected_effect s) (rs_command_results s)
      (rs_result_index s))) as (s' & Hs' & Hsc); try done.
    + simpl. destruct (write_of e) eqn:Hw; simpl; [|by rewrite orb_false_r].
      destruct (rs_memory_written s); [done|]. by injection Hn.
    + simpl. rewrite <-app_assoc. by destruct (state_of e).
    + exists s'. split; [done|]. replace (i + zlen (e :: body ++ [res]) - 1)
        with (i + 1 + zlen (body ++ [res]) - 1); [done|]. unfold zlen. simpl. lia.
Qed.

Lemma success_events_stop w st s evs :
  success_events w (st ++ [s]) evs → ∃ reason th, s = SS.Stopped tok reason th.
Proof.
  intros (body & res & _ & _ & _ & _ & _ & reason & th & Hst). exists reason, th.
  destruct st as [|x st]; simpl in Hst; [by injection Hst|]. injection Hst as _ Hnil.
  by apply app_nil in Hnil as [Hnil _]; destruct st.
Qed.

Lemma scan_sound evs i s s' :
  rs_command_results s = 0 →
  scan_events sid p r i evs s = Ok s' → scanned s' (i + zlen evs - 1) →
  success_events (rs_memory_written s) (rs_states s) evs.
Proof.
  revert i s. induction evs as [|e evs IH]; intros i s Hr.
  { intros [= <-] [_ _ _ _ _ H1 _]. lia. }
  simpl. intros H Hsc. apply result_bind_ok in H as (s1 & H1 & H2).
  assert (rs_command_results s1 = 0 →
    success_events (rs_memory_written s1) (rs_states s1) evs) as IH'.
  { intros Hr1. apply (IH (i + 1) s1 Hr1 H2). revert Hsc. unfold zlen. simpl.
    by replace (i + 1 + Z.of_nat (length evs) - 1) with (i + Z.of_nat (S (length evs)) - 1) by lia. }
  pose proof (scan_events_mono _ _ _ _ H2) as (Hmr & Hmi & Hmf & Hmu).
  pose proof (scan_event_inv _ _ _ _ H1) as [Hc He].
  destruct Hsc as [Hsw Hsf Hse Hss Hsr Hsn Hsi]. specialize (Hmf Hsf). specialize (Hmu Hse).
  destruct (ee_event e) eqn:Hev; destruct_and?; subst s1; simpl in *; try done.
  - (* StateChanged *)
    specialize (IH' Hr). destruct (success_events_stop _ _ _ _ IH') as (reason & th & ->).
    apply success_events_cons; unfold benign, write_of, state_of; rewrite ?Hev; try done.
    + eauto.
    + by rewrite orb_false_r.
  - (* MemoryWritten *)
    specialize (IH' Hr). apply success_events_cons; try done.
    unfold write_of, state_of. rewrite Hev. simpl. by rewrite orb_true_r, app_nil_r.
  - (* CommandResult *)
    assert (evs = []) as ->.
    { rewrite Hmi in Hsi by lia. injection Hsi as Hlen. unfold zlen in Hlen. simpl in Hlen.
      destruct evs; [done|simpl in Hlen; lia]. }
    injection H2 as <-. simpl in *. exists [], e. split; [done|]. split; [by constructor|].
    split; [by split; [rewrite Hev; subst|]|]. split; [done|]. simpl.
    rewrite Hsw, app_nil_r. done.
  - (* Warning *)
    specialize (IH' Hr). apply success_events_cons; unfold benign, write_of, state_of;
      rewrite ?Hev; try done. by rewrite orb_false_r, app_nil_r.
Qed.
End evidence.

(** A resolution that changed the entries. *)
Definition commits (x : result LivePatchResolution LivePatchHistoryError) : bool :=
  match x with
  | Ok (LPR.ForwardCommitted _) | Ok (LPR.UndoCommitted _) => true
  | _ => false
  end.

Lemma wp_commits (c : history_op LivePatchResolution) v h :
  wp c (λ x _, commits (Ok x) = v) (λ _ _, v = false) h → commits (c h).1 = v.
Proof. unfold wp. by destruct (c h) as [[] ?]. Qed.

Section commits.
Context (h : LivePatchHistory) (p : PendingLivePatchOperation).
Context (Hh : history_inv h) (Hp : lh_pending h = Some p) (Hd : po_phase p = Dispatched).

Lemma freeze_commits id cause : commits (freeze id cause h).1 = false.
Proof.
  apply wp_commits. eapply wp_mono; [by apply (freeze_spec h p)| |done]. by intros x h' (-> & _).
Qed.

Lemma reject_commits id :
  commits ((do! clear_safe_rejection id in sret LPR.RejectedNoEffect) h).1 = false.
Proof.
  apply wp_commits. wp_step.
  eapply wp_mono; [by apply (clear_safe_rejection_spec h p)|by intros|done].
Qed.

Lemma commit_commits id stop : commits (commit_success id stop h).1 = true.
Proof.
  apply wp_commits. destruct (po_kind p) eqn:Hk.
  - eapply wp_mono; [by apply (commit_forward_spec h p)| |done]. by intros x h' [-> _].
  - eapply wp_mono; [by apply (commit_undo_spec h p)| |done]. by intros x h' [[e ->] _].
Qed.

Lemma dispatched_run id : dispatched_for id h = (Ok p, h).
Proof.
  unfold dispatched_for, require_not_frozen, sbind, sread, slift, sret.
  rewrite (dispatched_not_frozen h p) by done. simpl. rewrite Hp. simpl. by rewrite Hd.
Qed.
End commits.

Lemma success_stop_spec s p tok :
  success_stop s p = Some tok ↔
  (∃ reason th, rs_states s = [SS.Stopped tok reason th])
  ∧ is_exact_successor_stop (po_stop p) tok = true
  ∧ rs_command_result_state s = Some (stop_state tok).
Proof.
  unfold success_stop. split.
  - intros H. repeat case_match; try done. simplify_eq. autorewrite with rust in *. naive_solver.
  - intros ((reason & th & ->) & -> & ->). by rewrite bool_decide_eq_true_2.
Qed.

Lemma scan_inspect_success sid p r tok :
  (∃ s, scan_inspect sid p r = Ok s ∧ rs_failure s = None ∧ rs_unexpected_effect s = false
        ∧ rs_memory_written s = true ∧ success_stop s p = Some tok)
  ↔ is_exact_successor_stop (po_stop p) tok = true
    ∧ success_events sid p r tok false [] (cre_events r).
Proof.
  split.
  - intros (s & Hi & Hf & Hu & Hw & Hst). apply success_stop_spec in Hst as (Hst & Hex & Hres).
    split; [done|]. unfold scan_inspect in Hi. rust_inv Hi. simplify_eq.
    match goal with Hs : scan_events _ _ _ _ _ _ = Ok s |- _ =>
      apply (scan_sound sid p r tok _ _ ReceiptScan_empty s eq_refl Hs) end. by split.
  - intros [Hex Hev]. destruct (scan_complete sid p r tok (cre_events r) 0 ReceiptScan_empty)
      as (s & Hs & [Hw Hf Hu Hst Hres Hn Hi]); [done..|].
    exists s. rewrite success_stop_spec. split_and?; try done.
    unfold scan_inspect. rewrite Hs. destruct Hev as (body & res & Hbr & _).
    rewrite bool_decide_eq_false_2 by (rewrite Hbr; by destruct body). simpl. rewrite Hn, Hi. simpl.
    by rewrite bool_decide_eq_true_2 by (f_equal; lia).
Qed.

(** What the history asks of any receipt before it looks at its evidence. *)
Record receipt_current (h : LivePatchHistory) (p : PendingLivePatchOperation) (id sid : Z)
    (b : LiveTargetBinding) : Prop := {
  rcu_pending : lh_pending h = Some p;
  rcu_dispatched : po_phase p = Dispatched;
  rcu_session : sid = lh_session_id h;
  rcu_binding : b = lh_binding h;
  rcu_newer : ∀ last, lh_last_receipt_command_id h = Some last → last < id
}.

Lemma stale_receipt_none last id :
  stale_receipt last id = None ↔ ∀ l, last = Some l → l < id.
Proof.
  unfold stale_receipt. destruct last as [l|]; [|naive_solver].
  destruct (Z.leb_spec id l); naive_solver lia.
Qed.

Lemma undispatched_commits (k : PendingLivePatchOperation → history_op LivePatchResolution) id h :
  (∀ p, lh_pending h = Some p → po_phase p ≠ Dispatched) →
  commits (sbind (dispatched_for id) k h).1 = false.
Proof.
  intros Hn. apply wp_commits. wp_step. eapply wp_mono; [apply dispatched_for_spec| |done].
  simpl. intros p h' (_ & _ & Hp & Hd). by destruct (Hn p Hp).
Qed.

Lemma dispatched_dec h :
  (∃ p, lh_pending h = Some p ∧ po_phase p = Dispatched)
  ∨ (∀ p, lh_pending h = Some p → po_phase p ≠ Dispatched).
Proof.
  destruct (lh_pending h) as [p|]; [|by right].
  destruct (po_phase p) eqn:Hp; [right; intros q [= <-]; congruence|left; eauto].
Qed.

Section remote_commit.
Context (h : LivePatchHistory) (p : PendingLivePatchOperation).
Context (Hh : history_inv h) (Hp : lh_pending h = Some p) (Hd : po_phase p = Dispatched).

Lemma resolve_rejection_commits id code msg s :
  commits (resolve_rejection id code msg s p h).1 = false.
Proof.
  unfold resolve_rejection, freeze_mismatch.
  repeat case_match; first [by apply (freeze_commits h p) | by apply (reject_commits h p)].
Qed.

Lemma resolve_success_commits id s :
  commits (resolve_success id s p h).1 = true ↔
  ∃ tok, rs_failure s = None ∧ rs_unexpected_effect s = false ∧ rs_memory_written s = true
         ∧ success_stop s p = Some tok.
Proof.
  unfold resolve_success, freeze_mismatch. split.
  - intros Hc. case_bool_decide as Hf; [by rewrite (freeze_commits h p) in Hc|].
    rewrite <-eq_None_not_Some in Hf.
    repeat case_match; simplify_eq/=; try by rewrite (freeze_commits h p) in Hc.
    rewrite negb_false_iff in *. eauto.
  - intros (tok & -> & -> & -> & ->). simpl. by apply (commit_commits h p).
Qed.

Lemma resolve_receipt_commits sid b r :
  commits (resolve_receipt sid b r h).1 = true ↔
  sid = lh_session_id h ∧ b = lh_binding h
  ∧ stale_receipt (lh_last_receipt_command_id h) (cre_command_id r) = None
  ∧ cre_outcome r = CommandOutcome.Succeeded
  ∧ ∃ s, scan_inspect (lh_session_id h) p r = Ok s
         ∧ commits (resolve_success (cre_command_id r) s p h).1 = true.
Proof.
  unfold resolve_receipt, sbind at 1. rewrite (dispatched_run h p) by done.
  unfold sbind, sget, freeze_mismatch. split.
  - intros Hc. destruct (Z.eqb_spec sid (lh_session_id h)) as [->|]; simpl in Hc;
      [|by rewrite (freeze_commits h p) in Hc].
    case_bool_decide; simpl in Hc; [|by rewrite (freeze_commits h p) in Hc].
    repeat case_match; try by rewrite (freeze_commits h p) in Hc.
    + eauto 10.
    + by rewrite resolve_rejection_commits in Hc.
    + done.
  - intros (-> & -> & -> & -> & s & -> & Hc).
    by rewrite Z.eqb_refl, bool_decide_eq_true_2 by done.
Qed.
End remote_commit.

Lemma remote_commit_iff h sid b r :
  history_inv h →
  commits (resolve_receipt sid b r h).1 = true
  ↔ ∃ p tok, receipt_current h p (cre_command_id r) sid b
      ∧ cre_outcome r = CommandOutcome.Succeeded
      ∧ is_exact_successor_stop (po_stop p) tok = true
      ∧ success_events (lh_session_id h) p r tok false [] (cre_events r).
Proof.
  intros Hh. destruct (dispatched_dec h) as [(p & Hp & Hd)|Hn].
  2: { unfold resolve_receipt. rewrite undispatched_commits by done. split; [done|].
       intros (p & tok & [Hp Hd _ _ _] & _). by destruct (Hn p Hp). }
  rewrite (resolve_receipt_commits h p) by done. setoid_rewrite (resolve_success_commits h p); try done.
  rewrite stale_receipt_none. split.
  - intros (-> & -> & Hnew & Ho & s & Hsc & tok & Hs). exists p, tok. split; [by split|].
    split; [done|]. apply scan_inspect_success. eauto.
  - intros (q & tok & [Hq Hqd -> -> Hnew] & Ho & Hev). simplify_eq.
    apply scan_inspect_success in Hev as (s & Hsc & Hs). eauto 10.
Qed.

(** The local receipt names exactly the dispatched operation. *)
Record local_evidence (p : PendingLivePatchOperation) (w : LocalLiveMemoryWriteAllocation)
    : Prop := {
  lev_stop : po_stop p = lw_stop w;
  lev_address : po_address p = lw_address w;
  lev_expected : po_expected p = lw_expected w;
  lev_replacement : po_replacement p = lw_replacement w
}.

(** The receipt of the right operation passes every check before its
    resolution is read. *)
Lemma resolve_local_run h p r :
  history_inv h →
  receipt_current h p (lw_command_id (pr_write r))
    (st_session_id (stop_state (lw_stop (pr_write r)))) (lw_binding (pr_write r)) →
  local_evidence p (pr_write r) →
  resolve_local_receipt r h
  = match pr_resolution r with
    | Committed stop =>
        if is_exact_successor_stop (po_stop p) stop
        then commit_success (lw_command_id (pr_write r)) stop h
        else freeze_mismatch (lw_command_id (pr_write r)) LPM.StateEvidenceMismatch h
    | RejectedNoEffect =>
        (do! clear_safe_rejection (lw_command_id (pr_write r)) in sret LPR.RejectedNoEffect) h
    end.
Proof.
  intros Hh [Hp Hd Hsid Hb Hnew] [H1 H2 H3 H4]. apply stale_receipt_none in Hnew.
  unfold resolve_local_receipt, sbind at 1. rewrite (dispatched_run h p) by done.
  unfold sbind, sget. rewrite Hsid, Z.eqb_refl, Hb, Hnew, H2, Z.eqb_refl.
  rewrite !bool_decide_eq_true_2 by done. simpl.
  destruct (pr_resolution r) as [stop|]; [|done]. by destruct (is_exact_successor_stop _ _).
Qed.

Lemma local_commit_iff h r :
  history_inv h →
  commits (resolve_local_receipt r h).1 = true
  ↔ ∃ p tok, receipt_current h p (lw_command_id (pr_write r))
               (st_session_id (stop_state (lw_stop (pr_write r)))) (lw_binding (pr_write r))
      ∧ local_evidence p (pr_write r) ∧ pr_resolution r = Committed tok
      ∧ is_exact_successor_stop (po_stop p) tok = true.
Proof.
  intros Hh. split.
  - intros Hc. unfold resolve_local_receipt in Hc.
    destruct (dispatched_dec h) as [(p & Hp & Hd)|Hn]; [|by rewrite undispatched_commits in Hc].
    unfold sbind at 1 in Hc. rewrite (dispatched_run h p) in Hc by done.
    unfold sbind at 1 2 3, sget, freeze_mismatch in Hc.
    repeat case_match; try by rewrite (freeze_commits h p) in Hc.
    + exists p, resulting_stop. autorewrite with rust in *. rewrite stale_receipt_none in *.
      destruct_and?. by repeat split.
    + by rewrite (reject_commits h p) in Hc.
  - intros (p & tok & Hcur & Hev & Hres & Hex). rewrite (resolve_local_run h p) by done.
    rewrite Hres, Hex. destruct Hcur. by apply (commit_commits h p).
Qed.

(** C23: the undo stack moves on exact evidence only, and on exact evidence it
    does move.  A remote receipt commits the dispatched operation exactly when
    it is of this session and target, newer than the last receipt and
    successful, and its events, all correlated to the command, are warnings,
    one write of exactly the dispatched bytes, one stop that is the direct
    successor of the dispatched stop, and last the result at that stop.  A
    local receipt commits exactly when it is of this session and target, newer
    than the last receipt, names exactly the dispatched operation, and
    resolved it to the direct successor of its stop. *)
Theorem commit_needs_exact_evidence h sid b r lr :
  history_inv h →
  (commits (resolve_receipt sid b r h).1 = true
   ↔ ∃ p tok, receipt_current h p (cre_command_id r) sid b
       ∧ cre_outcome r = CommandOutcome.Succeeded
       ∧ is_exact_successor_stop (po_stop p) tok = true
       ∧ success_events (lh_session_id h) p r tok false [] (cre_events r))
  ∧ (commits (resolve_local_receipt lr h).1 = true
     ↔ ∃ p tok, receipt_current h p (lw_command_id (pr_write lr))
                  (st_session_id (stop_state (lw_stop (pr_write lr)))) (lw_binding (pr_write lr))
         ∧ local_evidence p (pr_write lr) ∧ pr_resolution lr = Committed tok
         ∧ is_exact_successor_stop (po_stop p) tok = true).
Proof. intros Hh. split; [by apply remote_commit_iff|by apply local_commit_iff]. Qed.

(** ** The history meets the session reducer *)

(** The operation [p] that the history dispatched is the write [e] that the
    reducer was given for the same session and target. *)
Record dispatches (m : SessionMachine) (e : CommandEnvelope) (b : LiveTargetBinding)
    (h : LivePatchHistory) (p : PendingLivePatchOperation) : Prop := {
  dsp_inv : history_inv h;
  dsp_current : receipt_current h p (ce_command_id e) (m_session_id m) b;
  dsp_command : ce_command e = po_command p
}.

Section session_history.
Context `{Sha256Spec}.

Lemma exact_successor_refreshed m tok :
  session_inv m → st_session_id (stop_state tok) = m_session_id m →
  (∃ reason th, m_state m = SS.Stopped tok reason th) →
  st_generation (stop_state tok) + 1 ≤ u64_max → m_last_stop_id m + 1 ≤ u64_max →
  is_exact_successor_stop tok (refreshed_stop m) = (stop_id tok =? m_last_stop_id m).
Proof.
  intros Hm Hsid (reason & th & Hs) Hg Hl. apply eq_bool_prop_intro.
  rewrite !Is_true_true. unfold is_exact_successor_stop, refreshed_stop.
  rewrite Hs. simpl. rewrite Hsid, Z.eqb_refl. simpl. autorewrite with rust. lia.
Qed.

Section dispatched_write.
Context (fresh : Z) (e : CommandEnvelope) (b : LiveTargetBinding) (m m1 : SessionMachine).
Context (c : RemoteCommandCheckpoint) (t : ValidatedLiveMemoryWrite).
Context (r : LocalLiveMemoryWriteReceiptIdentity).
Context (Hm : session_inv m) (Hw : write_begun fresh e b m c t r m1).

Lemma write_no_effect_inv : session_inv (restored c m1) ∧ m_session_id (restored c m1) = m_session_id m.
Proof.
  pose proof (wb_begun _ _ _ _ _ _ _ _ Hw) as [_ [[_ He _] _ _ _ _ _ _] _ Hinv _ _ Hv _ _].
  assert (extends m m1) as Hext by (by destruct He). split; [|apply Hext].
  apply restored_inv; [done|]. eapply checkpoint_ok_extends; [done|].
  unfold checkpoint_ok. change (cp_visible c) with (cp_visible (set_local_write None c)).
  rewrite Hv. apply (inv_visible _ Hm).
Qed.

Context (h : LivePatchHistory) (p : PendingLivePatchOperation) (Hd : dispatches m e b h p).

Lemma dispatched_evidence :
  po_stop p = lw_stop (vw_write t) ∧ local_evidence p (vw_write t)
  ∧ receipt_current h p (lw_command_id (vw_write t))
      (st_session_id (stop_state (lw_stop (vw_write t)))) (lw_binding (vw_write t)).
Proof.
  destruct Hd as [_ Hcur Hcmd]. rewrite (wb_command _ _ _ _ _ _ _ _ Hw) in Hcmd.
  injection Hcmd as H1 H2 H3 H4. split; [done|]. split; [by split|].
  rewrite (wb_id _ _ _ _ _ _ _ _ Hw), (wb_binding _ _ _ _ _ _ _ _ Hw).
  by rewrite (wpe_session _ _ _ _ _ (write_begun_pending _ _ _ _ _ _ _ _ Hm Hw)).
Qed.

Lemma dispatched_success :
  resolve_local_receipt (mkPatchReceipt (vw_write t) (Committed (refreshed_stop m))) h
  = if stop_id (po_stop p) =? m_last_stop_id m
    then commit_success (ce_command_id e) (refreshed_stop m) h
    else freeze_mismatch (ce_command_id e) LPM.StateEvidenceMismatch h.
Proof.
  destruct dispatched_evidence as (Hs & He & Hcur).
  rewrite (resolve_local_run h p) by (done || apply Hd). simpl.
  rewrite (wb_id _ _ _ _ _ _ _ _ Hw), Hs.
  pose proof (write_begun_pending _ _ _ _ _ _ _ _ Hm Hw) as [Hst _ Hsid _ [Hg Hl] _].
  destruct Hst as (reason & th & Hst & _).
  rewrite exact_successor_refreshed by eauto. by destruct (_ =? _).
Qed.

Lemma dispatched_frozen_run id cause :
  ∃ h', freeze id cause h = (Ok LPR.Frozen, h') ∧ resolution_of h LPR.Frozen h'
        ∧ lh_freeze_evidence h' = Some (mkLivePatchFreezeEvidence p id cause).
Proof.
  destruct (dsp_current _ _ _ _ _ Hd) as [Hp Hph _ _ _].
  pose proof (freeze_spec h p (dsp_inv _ _ _ _ _ Hd) Hp Hph id cause) as Hf. unfold wp in Hf.
  destruct (freeze id cause h) as [[x|x|x] h']; try done. destruct Hf as (-> & [_ Hf] & He). eauto.
Qed.

Lemma dispatched_no_effect :
  ∃ h', resolve_local_receipt (mkPatchReceipt (vw_write t) RejectedNoEffect) h
        = (Ok LPR.RejectedNoEffect, h') ∧ resolution_of h LPR.RejectedNoEffect h'.
Proof.
  destruct dispatched_evidence as (Hs & He & Hcur).
  rewrite (resolve_local_run h p) by (done || apply Hd). simpl.
  destruct Hcur as [Hp Hph _ _ _].
  pose proof (clear_safe_rejection_spec h p (dsp_inv _ _ _ _ _ Hd) Hp Hph
                (lw_command_id (vw_write t))) as Hc. unfold wp in Hc. unfold sbind at 1.
  destruct (clear_safe_rejection _ h) as [[x|x|x] h']; try done. destruct Hc as [[_ Hc] _]. eauto.
Qed.
End dispatched_write.

(** The history and the session reducer agree on how a local write ended.
    When the operation the history dispatched is the write the reducer began,
    the reducer's success receipt commits it exactly when the stop it was
    dispatched at is the newest stop the session ever issued (any older stop
    freezes the history), and the reducer's no-effect receipt clears it without
    touching the recorded patches. *)
Theorem write_receipts_reach_history w fresh e b c t r m1 h p :
  reachable w → valid_binding b →
  begin_live_memory_write fresh e b (w_machine w) = (Ok (c, t, r), m1) →
  dispatches (w_machine w) e b h p →
  (∃ lr m2, resolve_live_memory_write_success c r m1 = (Ok lr, m2)
     ∧ (commits (resolve_local_receipt lr h).1 = true
        ↔ stop_id (po_stop p) = m_last_stop_id (w_machine w)))
  ∧ (∃ lr m2 h', resolve_live_memory_write_no_effect c r m1 = (Ok lr, m2)
     ∧ resolve_local_receipt lr h = (Ok LPR.RejectedNoEffect, h')
     ∧ lh_pending h' = None ∧ lh_entries h' = lh_entries h ∧ lh_freeze_evidence h' = None).
Proof.
  intros Hr Hb Hrun Hd. pose proof (wi_machine _ (reachable_inv w Hr)) as Hm.
  pose proof (wp_run_ok _ _ _ _ _ _ Hrun (begin_live_memory_write_spec fresh e b _ Hm Hb)) as Hw.
  simpl in Hw. destruct (dsp_current _ _ _ _ _ Hd) as [Hp Hph _ _ _]. split.
  - eexists _, _. split; [by eapply write_success_run|].
    erewrite dispatched_success by done. destruct (Z.eqb_spec (stop_id (po_stop p))
      (m_last_stop_id (w_machine w))) as [He|He].
    + split; [done|]. intros _. apply (commit_commits h p); [apply Hd|done..].
    + unfold freeze_mismatch. by rewrite (freeze_commits h p) by (done || apply Hd).
  - destruct (dispatched_no_effect _ _ _ _ _ _ _ _ Hm Hw h p Hd) as (h' & Hres & q & _ & _ & ? & ? & ?).
    eexists _, _, h'. split; [by eapply write_no_effect_run|done].
Qed.

(** A retry after a proved rejection freezes the history.  The reducer's
    no-effect resolution restores the stop the write was begun at but keeps the
    stop watermark advanced, so a second write begun from the restored stop
    refreshes to a stop two identifiers later; its success receipt is then not
    the direct successor the history requires, and the history freezes with
    a state evidence mismatch although the write took effect. *)
Theorem retry_after_rejection_freezes w fresh e b c t r m1 lr m2 fresh' e' c' t' r' m3 h p :
  reachable w → valid_binding b →
  begin_live_memory_write fresh e b (w_machine w) = (Ok (c, t, r), m1) →
  resolve_live_memory_write_no_effect c r m1 = (Ok lr, m2) →
  begin_live_memory_write fresh' e' b m2 = (Ok (c', t', r'), m3) →
  dispatches m2 e' b h p →
  ∃ new m4 h', resolve_live_memory_write_success c' r' m3
       = (Ok (mkPatchReceipt (vw_write t') (Committed new)), m4)
     ∧ stop_id (lw_stop (vw_write t')) + 2 ≤ stop_id new
     ∧ resolve_local_receipt (mkPatchReceipt (vw_write t') (Committed new)) h
       = (Ok LPR.Frozen, h')
     ∧ lh_freeze_evidence h' = Some (mkLivePatchFreezeEvidence p (Some (ce_command_id e'))
         (ReceiptMismatch LPM.StateEvidenceMismatch)).
Proof.
  intros Hr Hb Hrun Hne Hrun' Hd. pose proof (wi_machine _ (reachable_inv w Hr)) as Hm.
  pose proof (wp_run_ok _ _ _ _ _ _ Hrun (begin_live_memory_write_spec fresh e b _ Hm Hb)) as Hw.
  simpl in Hw. destruct (write_no_effect_run _ _ _ _ _ _ _ _ Hm Hw) as [Hrun1 Hvis].
  rewrite Hrun1 in Hne. injection Hne as _ <-.
  destruct (write_no_effect_inv _ _ _ _ _ _ _ _ Hm Hw) as [Hm2 _].
  pose proof (wp_run_ok _ _ _ _ _ _ Hrun' (begin_live_memory_write_spec fresh' e' b _ Hm2 Hb)) as Hw'.
  simpl in Hw'. destruct (dispatched_evidence _ _ _ _ _ _ _ _ Hm2 Hw' h p Hd) as (Hs & _).
  destruct (write_begun_pending _ _ _ _ _ _ _ _ Hm Hw) as [(re & th & Hst & _) Hle _ Hlast _ _].
  destruct (write_begun_pending _ _ _ _ _ _ _ _ Hm2 Hw') as [(re' & th' & Hst' & _) _ _ _ _ _].
  assert (lw_stop (vw_write t') = lw_stop (vw_write t)) as Heq.
  { injection Hvis as Hv _ _ _ _. simpl in Hst'. congruence. }
  eexists _, _. destruct (dispatched_frozen_run _ _ _ _ _ Hd (Some (ce_command_id e'))
    (ReceiptMismatch LPM.StateEvidenceMismatch)) as (h' & Hf & _ & He).
  exists h'. split; [by eapply write_success_run|]. split; [simpl; rewrite Heq; lia|].
  split; [|done]. erewrite dispatched_success by done.
  rewrite (proj2 (Z.eqb_neq _ _)); [done|]. rewrite Hs, Heq. simpl. lia.
Qed.
End session_history.
