(* ===== verification/LivePatchTarget.v ===== *)
(** The live patch history of [LivePatchHistory.v] next to the host that carries out
    its commands and the target memory they change: undoing restores the target. *)

From S2P Require Import Prelude Identity Sandbox Protocol ProtocolTheory SessionMachine.
From S2P Require Import LivePatchHistory LivePatchTheory TargetMemory.
Open Scope Z_scope.

(** ** The history, its host and its target *)

(** What the host has done with the command that the history handed out: nothing
    yet, all of it, or an unknown part of it. *)
Inductive host_work : Type :=
  | HostIdle
  | HostHolds (command : DebugCommand)
  | HostWrote (command : DebugCommand)
  | HostTorn (command : DebugCommand).

Record patch_world : Type := mkPatchWorld {
  pw_history : LivePatchHistory;
  pw_memory : memory;
  pw_work : host_work
}.

(** The calls that reserve an operation or give the reservation up. *)
Definition reserving (c : history_call) : bool :=
  match c with
  | BeginForward _ _ _ _ _ _ | BeginUndo _ _ _ | CancelBeforeDispatch => true
  | _ => false
  end.

(** A failure after which the target may have changed. *)
Definition reports_indeterminate (r : CommandReceipt) : Prop :=
  ∃ e f, e ∈ cre_events r ∧ ee_event e = DE.MemoryWriteFailed f
         ∧ is_rollback_safe (mwf_recovery f) = false.

(** A receipt says what the host did: success only of a completed write, and a
    rejection of a write not begun unless it reports an indeterminate failure.  The
    outcome may be unknown in any case. *)
Definition truthful (c : history_call) (w : host_work) : Prop :=
  match c with
  | ResolveReceipt _ _ r =>
      match cre_outcome r with
      | CommandOutcome.Succeeded => ∃ command, w = HostWrote command
      | CommandOutcome.Rejected _ _ =>
          (∃ command, w = HostHolds command) ∨ reports_indeterminate r
      end
  | ResolveLocalReceipt r =>
      match pr_resolution r with
      | Committed _ => ∃ command, w = HostWrote command
      | RejectedNoEffect => ∃ command, w = HostHolds command
      end
  | MarkOutcomeUnknown => True
  | _ => False
  end.

(** The host compares before it writes, and only ever performs the command that
    [mark_for_dispatch] handed out; a torn write leaves any memory at all. *)
Inductive patch_step : patch_world → patch_world → Prop :=
  | step_reserve c h m w r h' :
      reserving c = true → history_exec c h = (Ok r, h') →
      patch_step (mkPatchWorld h m w) (mkPatchWorld h' m w)
  | step_dispatch h m w command h' :
      mark_for_dispatch h = (Ok command, h') →
      patch_step (mkPatchWorld h m w) (mkPatchWorld h' m (HostHolds command))
  | step_write h m stop a x y :
      read_bytes a (length x) m = x →
      patch_step (mkPatchWorld h m (HostHolds (DC.WriteMemory stop a x y)))
        (mkPatchWorld h (write_bytes a y m) (HostWrote (DC.WriteMemory stop a x y)))
  | step_torn h m m' command :
      patch_step (mkPatchWorld h m (HostHolds command)) (mkPatchWorld h m' (HostTorn command))
  | step_resolve c h m w r h' :
      truthful c w → history_exec c h = (Ok (Some r), h') →
      patch_step (mkPatchWorld h m w)
        (mkPatchWorld h' m (match r with LPR.Frozen => w | _ => HostIdle end))
  | step_refused c h m w e h' :
      history_exec c h = (Err e, h') → patch_step (mkPatchWorld h m w) (mkPatchWorld h' m w).

(** The entries applied to a memory, and taken back last entry first. *)
Definition replay (l : list LivePatchEntry) (m : memory) : memory :=
  foldl (λ m e, write_bytes (le_address e) (le_after e) m) m l.
Definition rewind (l : list LivePatchEntry) (m : memory) : memory :=
  foldr (λ e m, write_bytes (le_address e) (le_before e) m) m l.

(** ** What the receipts of a truthful host mean *)

(** The receipt says that the write was completed, or that it was not begun. *)
Definition claims_written (c : history_call) : Prop :=
  match c with
  | ResolveReceipt _ _ r => cre_outcome r = CommandOutcome.Succeeded
  | ResolveLocalReceipt r => ∃ stop, pr_resolution r = Committed stop
  | _ => False
  end.

Definition claims_untouched (c : history_call) : Prop :=
  match c with
  | ResolveReceipt _ _ r =>
      (∃ code message, cre_outcome r = CommandOutcome.Rejected code message)
      ∧ ¬ reports_indeterminate r
  | ResolveLocalReceipt r => pr_resolution r = RejectedNoEffect
  | _ => False
  end.

(** What a resolution of the history rests on. *)
Definition resolution_claims (c : history_call) (x : option LivePatchResolution) : Prop :=
  match x with
  | Some (LPR.ForwardCommitted _) | Some (LPR.UndoCommitted _) => claims_written c
  | Some LPR.RejectedNoEffect => claims_untouched c
  | Some LPR.Frozen | None => True
  end.

Lemma scan_failure_kept sid p r i e s s' f :
  scan_event sid p r i e s = Ok s' → rs_failure s = Some f → rs_failure s' = Some f.
Proof.
  intros Hs Hf. unfold scan_event in Hs. unbind Hs u1 H1. unbind Hs u2 H2. destruct s. simpl in Hf.
  destruct (ee_event e); try by injection Hs as <-.
  - unbind Hs u3 H3. by injection Hs as <-.
  - unbind Hs u3 H3. unbind Hs u4 H4. by injection Hs as <-.
  - unbind Hs u3 H3. by rewrite Hf, bool_decide_eq_true_2 in H3 by done.
  - unbind Hs u3 H3. by injection Hs as <-.
Qed.

(** A failure among the events is the failure of the scan. *)
Lemma scan_failure_found sid p r i l s s' e f :
  scan_events sid p r i l s = Ok s' →
  (rs_failure s = Some f ∨ e ∈ l ∧ ee_event e = DE.MemoryWriteFailed f) → rs_failure s' = Some f.
Proof.
  revert i s. induction l as [|e' l IH]; intros i s Hs Hf; simpl in Hs.
  { injection Hs as <-. by destruct Hf as [?|[?%elem_of_nil _]]. }
  unbind Hs s1 H1. apply (IH _ _ Hs). destruct Hf as [Hf|[[->|Hin]%elem_of_cons He]]; [left..|by right].
  - by eapply scan_failure_kept.
  - unfold scan_event in H1. unbind H1 u1 K1. unbind H1 u2 K2. destruct s. rewrite He in H1.
    unbind H1 u3 K3. unbind H1 u4 K4. by injection H1 as <-.
Qed.

Lemma indeterminate_scanned sid p r s :
  scan_inspect sid p r = Ok s → reports_indeterminate r →
  ∃ f, rs_failure s = Some f ∧ is_rollback_safe (mwf_recovery f) = false.
Proof.
  intros Hs (e & f & Hin & He & Hf). exists f. split; [|done]. unfold scan_inspect in Hs.
  unbind Hs u0 H0. unbind Hs s1 H1. unbind Hs u2 H2. unbind Hs u3 H3. injection Hs as ->.
  eapply scan_failure_found; eauto.
Qed.

Section resolving.
Context (h : LivePatchHistory) (p : PendingLivePatchOperation).
Context (Hh : history_inv h) (Hp : lh_pending h = Some p) (Hd : po_phase p = Dispatched).

Lemma freeze_claims c id cause :
  wp (freeze id cause) (λ x _, resolution_claims c (Some x)) (λ _ _, True) h.
Proof using Hh Hp Hd. eapply wp_mono; [by apply (freeze_spec h p)| |done]. by intros x h' (-> & _). Qed.

Lemma commit_claims c id stop :
  claims_written c →
  wp (commit_success id stop) (λ x _, resolution_claims c (Some x)) (λ _ _, True) h.
Proof using Hh Hp Hd.
  intros Hc. destruct (po_kind p) eqn:Hk.
  - eapply wp_mono; [by apply (commit_forward_spec h p)| |done]. by intros x h' [-> _].
  - eapply wp_mono; [by apply (commit_undo_spec h p)| |done]. by intros x h' [[e ->] _].
Qed.

Lemma reject_claims c id :
  claims_untouched c →
  wp (do! clear_safe_rejection id in sret LPR.RejectedNoEffect)
    (λ x _, resolution_claims c (Some x)) (λ _ _, True) h.
Proof using Hh Hp Hd.
  intros Hc. wp_step. eapply wp_mono; [by apply (clear_safe_rejection_spec h p)| |done]. done.
Qed.

Lemma rejection_claims sid b r code message s :
  cre_outcome r = CommandOutcome.Rejected code message → scan_inspect (lh_session_id h) p r = Ok s →
  wp (resolve_rejection (cre_command_id r) code message s p)
    (λ x _, resolution_claims (ResolveReceipt sid b r) (Some x)) (λ _ _, True) h.
Proof using Hh Hp Hd.
  intros Ho Hs. assert ((∀ f, rs_failure s = Some f → is_rollback_safe (mwf_recovery f) = true) →
    claims_untouched (ResolveReceipt sid b r)) as Hc.
  { intros Hf. split; [eauto|]. intros Hi. destruct (indeterminate_scanned _ _ _ _ Hs Hi) as (f & Hsf & Hn).
    apply Hf in Hsf. congruence. }
  unfold resolve_rejection, freeze_mismatch. destruct (rs_memory_written s); [apply freeze_claims|].
  destruct (rs_failure s) as [f|] eqn:Hf.
  - destruct (_ || _); [apply freeze_claims|]. destruct (rs_unexpected_effect s); [apply freeze_claims|].
    destruct (is_rollback_safe (mwf_recovery f)) eqn:Hsafe.
    + destruct (negb _); [apply freeze_claims|]. apply reject_claims, Hc. by intros ? [= <-].
    + destruct (indeterminate_state_evidence_matches s p f); apply freeze_claims.
  - destruct (bool_decide _); [apply freeze_claims|]. destruct (_ || _); [apply freeze_claims|].
    by apply reject_claims, Hc.
Qed.

Lemma success_claims sid b r s :
  cre_outcome r = CommandOutcome.Succeeded →
  wp (resolve_success (cre_command_id r) s p)
    (λ x _, resolution_claims (ResolveReceipt sid b r) (Some x)) (λ _ _, True) h.
Proof using Hh Hp Hd.
  intros Ho. unfold resolve_success, freeze_mismatch.
  repeat case_match; first [apply freeze_claims|by apply commit_claims].
Qed.
End resolving.

Lemma exec_claims c h :
  history_inv h → wp (history_exec c) (λ x _, resolution_claims c x) (λ _ _, True) h.
Proof.
  intros Hh. destruct c; cbn [history_exec]; wp_step.
  1-4: eapply wp_mono; [first [by apply begin_forward_spec|by apply begin_undo_spec
    |by apply mark_for_dispatch_spec|by apply cancel_before_dispatch_spec]|done|done].
  - eapply (wp_mono _ (λ x _, resolution_claims (ResolveReceipt session_id b r) (Some x)) _ (λ _ _, True));
      [|done|done].
    unfold resolve_receipt, freeze_mismatch. wp_step. eapply wp_mono; [apply dispatched_for_spec| |done].
    intros p h' (-> & Hf & Hp & Hd). do 6 wp_step.
    destruct (negb (session_id =? _)); [by apply (freeze_claims h p)|].
    destruct (negb _); [by apply (freeze_claims h p)|].
    destruct (stale_receipt _ _); [by apply (freeze_claims h p)|].
    destruct (scan_inspect (lh_session_id h) p r) as [s|e|msg] eqn:Hs; [|by apply (freeze_claims h p)|].
    2: by edestruct (scan_inspect_no_panic (lh_session_id h) p r).
    destruct (cre_outcome r) eqn:Ho; [by apply success_claims|by apply rejection_claims].
  - eapply (wp_mono _ (λ x _, resolution_claims (ResolveLocalReceipt r) (Some x)) _ (λ _ _, True));
      [|done|done].
    unfold resolve_local_receipt, freeze_mismatch. wp_step.
    eapply wp_mono; [apply dispatched_for_spec| |done].
    intros p h' (-> & Hf & Hp & Hd). do 6 wp_step.
    repeat case_match; try first [by apply (freeze_claims h p)|by apply (reject_claims h p)].
    apply (commit_claims h p); [done..|]. by eexists.
  - eapply (wp_mono _ (λ x _, resolution_claims MarkOutcomeUnknown (Some x)) _ (λ _ _, True)); [|done|done].
    unfold mark_transport_outcome_unknown, require_dispatched_pending. wp_step. wp_step.
    apply wp_not_frozen; [|done]. intros Hf. apply wp_check; [no_panic| |done].
    destruct (lh_pending h) as [p|] eqn:Hp; [|done]. intros Hd%fail_if_ok.
    rewrite bool_decide_eq_false in Hd. apply (freeze_claims h p); [done..|]. by destruct (po_phase p).
Qed.

(** [m] results from [m0] by the writes of [l], each of which found its
    expected bytes. *)
Inductive trace (m0 : memory) : list LivePatchEntry → memory → Prop :=
  | trace_nil m : same_memory m m0 → trace m0 [] m
  | trace_snoc l e m1 m :
      trace m0 l m1 → read_bytes (le_address e) (length (le_before e)) m1 = le_before e →
      length (le_before e) = length (le_after e) →
      same_memory m (write_bytes (le_address e) (le_after e) m1) → trace m0 (l ++ [e]) m.

Lemma trace_same m0 l m m' : same_memory m' m → trace m0 l m → trace m0 l m'.
Proof.
  intros Hm Ht. destruct Ht as [m Hm0|l e m1 m Ht Hr Hl Hw].
  - apply trace_nil. by rewrite Hm.
  - eapply trace_snoc; [done..|]. by rewrite Hm.
Qed.

Lemma trace_inv m0 l m :
  trace m0 l m →
  (l = [] ∧ same_memory m m0)
  ∨ ∃ l' e m1, l = l' ++ [e] ∧ trace m0 l' m1
      ∧ read_bytes (le_address e) (length (le_before e)) m1 = le_before e
      ∧ length (le_before e) = length (le_after e)
      ∧ same_memory m (write_bytes (le_address e) (le_after e) m1).
Proof. intros [m' Hm|l' e m1 m' Ht Hr Hl Hw]; [by left|right]. by exists l', e, m1. Qed.

Lemma trace_undo m0 l e m :
  trace m0 (l ++ [e]) m → trace m0 l (write_bytes (le_address e) (le_before e) m).
Proof.
  intros Ht. apply trace_inv in Ht as [[Hnil _]|(l' & e' & m1 & Heq & Ht & Hr & Hl & Hw)];
    [by destruct l|]. apply app_inj_tail in Heq as [<- <-]. apply (trace_same m0 l m1); [|done].
  rewrite Hw, write_write by done. rewrite <-Hr at 1. apply write_read.
Qed.

Lemma trace_rewind m0 l m : trace m0 l m → same_memory (rewind l m) m0.
Proof.
  revert m. induction l as [|e l IH] using rev_ind; intros m Ht.
  - apply trace_inv in Ht as [[_ Hm]|(l' & e' & m1 & Heq & _)]; [done|by destruct l'].
  - unfold rewind. rewrite foldr_app. simpl. apply IH. by apply trace_undo.
Qed.

Lemma trace_replay m0 l m : trace m0 l m → same_memory (replay l m0) m.
Proof.
  induction 1 as [m Hm|l e m1 m Ht IH Hr Hl Hw]; [done|].
  unfold replay in *. rewrite foldl_app. simpl. by rewrite IH, Hw.
Qed.


(** ** The runs *)

(** Between two steps: the memory is the original one with the entries written, and
    then the command of the pending operation if the host has performed it. *)
Definition in_step (m0 : memory) (w : patch_world) : Prop :=
  let h := pw_history w in
  let underway p := lh_pending h = Some p ∧ po_phase p = Dispatched in
  match pw_work w with
  | HostIdle => (∀ p, lh_pending h = Some p → po_phase p = Reserved) ∧ trace m0 (lh_entries h) (pw_memory w)
  | HostHolds command =>
      ∃ p, underway p ∧ command = po_command p ∧ trace m0 (lh_entries h) (pw_memory w)
  | HostWrote command =>
      ∃ p m1, underway p ∧ command = po_command p ∧ trace m0 (lh_entries h) m1
        ∧ read_bytes (po_address p) (length (po_expected p)) m1 = po_expected p
        ∧ same_memory (pw_memory w) (write_bytes (po_address p) (po_replacement p) m1)
  | HostTorn _ => ∃ p, underway p
  end.

(** A truthful receipt resolves a completed write as committed and no other, and
    rejects a write only when the host had not begun it. *)
Lemma truthful_claims c w x :
  truthful c w → resolution_claims c (Some x) →
  match x with
  | LPR.ForwardCommitted _ | LPR.UndoCommitted _ => ∃ command, w = HostWrote command
  | LPR.RejectedNoEffect => ∃ command, w = HostHolds command
  | LPR.Frozen => True
  end.
Proof.
  intros Ht Hc. destruct x; try done; destruct c; try done; cbn in *.
  - by rewrite Hc in Ht.
  - destruct Hc as [stop Hc]. by rewrite Hc in Ht.
  - by rewrite Hc in Ht.
  - destruct Hc as [stop Hc]. by rewrite Hc in Ht.
  - destruct Hc as [(code & message & Ho) Hn]. rewrite Ho in Ht. tauto.
  - by rewrite Hc in Ht.
Qed.

Definition patch_ok (m0 : memory) (w : patch_world) : Prop :=
  history_inv (pw_history w) ∧ (lh_freeze_evidence (pw_history w) = None → in_step m0 w).

(** What a reservation leaves: nothing is in the hands of the host. *)
Lemma reserving_run c h r h' :
  history_inv h → reserving c = true → history_exec c h = (Ok r, h') →
  history_inv h' ∧ lh_entries h' = lh_entries h ∧ lh_freeze_evidence h = None
  ∧ (∀ p, lh_pending h = Some p → po_phase p = Reserved)
  ∧ (∀ p, lh_pending h' = Some p → po_phase p = Reserved).
Proof.
  intros Hh Hc Hx.
  assert (wp (history_exec c) (λ _ h', lh_freeze_evidence h = None
    ∧ lh_entries h' = lh_entries h
    ∧ (∀ p, lh_pending h = Some p → po_phase p = Reserved)
    ∧ (∀ p, lh_pending h' = Some p → po_phase p = Reserved)) (λ _ _, True) h) as Hw.
  { destruct c; try done; cbn [history_exec].
    - unfold begin_forward_write. do 2 wp_step. eapply wp_mono; [apply require_ready_spec| |done].
      intros _ h1 (-> & Hf & Hp & _ & _). wp_step. apply wp_lift_check; [apply validate_patch_bytes_no_panic|intros _|done].
      wp_step. apply wp_check; [by apply span_no_panic, Hh|intros _|done].
      do 3 (wp_step; wp_step; [|done]). do 4 wp_step. rewrite Hp. cbn. by split_and!; [..|intros ? [= <-]].
    - unfold begin_undo. do 2 wp_step. eapply wp_mono; [apply require_ready_spec| |done].
      intros _ h1 (-> & Hf & Hp & _ & _). wp_step. wp_step; [|done].
      wp_step. apply wp_check; [by apply span_no_panic, Hh|intros _|done].
      do 4 wp_step. rewrite Hp. cbn. by split_and!; [..|intros ? [= <-]].
    - unfold cancel_before_dispatch. do 2 wp_step. apply wp_not_frozen; [|done]. intros Hf.
      wp_step. wp_step; [|done]. wp_step. wp_step; [|done]. do 2 wp_step. cbn.
      split_and!; [done..| |done]. intros p Hp. destruct (po_phase p) eqn:?; [done|]. naive_solver. }
  pose proof (wp_elim_ok _ _ _ _ _ _ (history_exec_spec c h Hh) Hx) as [Hh' _].
  pose proof (wp_elim_ok _ _ _ _ _ _ Hw Hx) as (? & ? & ? & ?). done.
Qed.

(** A dispatched operation is in the hands of the host. *)
Lemma idle_not_dispatched m0 w :
  in_step m0 w → (∀ q, lh_pending (pw_history w) = Some q → po_phase q = Reserved) →
  pw_work w = HostIdle.
Proof.
  unfold in_step. intros Hs Hr. destruct (pw_work w) as [|cmd|cmd|cmd]; [done|..].
  - destruct Hs as (q & [Hq Hd] & _). apply Hr in Hq. congruence.
  - destruct Hs as (q & m1 & [Hq Hd] & _). apply Hr in Hq. congruence.
  - destruct Hs as (q & [Hq Hd]). apply Hr in Hq. congruence.
Qed.

(** Expected bytes and replacement are equally long. *)
Lemma pending_lengths h p :
  history_inv h → pending_ok h p → length (po_expected p) = length (po_replacement p).
Proof.
  intros Hh Hok. unfold pending_ok in Hok. destruct (po_kind p).
  - destruct Hok as [[_ Hl _ _ _] _]. unfold zlen in Hl. lia.
  - destruct Hok as (l & e & Hl & _ & -> & ->). pose proof (hi_entries _ Hh) as Hall.
    rewrite Hl in Hall. apply Forall_app in Hall as [_ Hall]. apply list.Forall_singleton in Hall as [_ Hz _ _ _].
    unfold zlen in Hz. lia.
Qed.

Lemma committed_forward m0 h p e h' m m1 :
  history_inv h' → trace m0 (lh_entries h) m1 → lh_entries h' = lh_entries h ++ [e] →
  le_address e = po_address p → le_before e = po_expected p → le_after e = po_replacement p →
  read_bytes (po_address p) (length (po_expected p)) m1 = po_expected p →
  same_memory m (write_bytes (po_address p) (po_replacement p) m1) → trace m0 (lh_entries h') m.
Proof.
  intros Hh' Ht Hl Ha Hb Hc Hr Hm. pose proof (hi_entries _ Hh') as Hall. rewrite Hl in Hall |- *.
  apply Forall_app in Hall as [_ Hall]. apply list.Forall_singleton in Hall as [_ Hlen _ _ _].
  apply (trace_snoc _ _ _ m1); rewrite ?Ha, ?Hb, ?Hc in *; try done. unfold zlen in Hlen. lia.
Qed.

Lemma resolve_in_step m0 c h m w x h' :
  history_inv h → in_step m0 (mkPatchWorld h m w) → truthful c w →
  history_exec c h = (Ok (Some x), h') → lh_freeze_evidence h' = None →
  in_step m0 (mkPatchWorld h' m (match x with LPR.Frozen => w | _ => HostIdle end)).
Proof.
  intros Hh Hs Ht Hx Hf.
  pose proof (wp_elim_ok _ _ _ _ _ _ (history_exec_spec c h Hh) Hx) as [Hh' (p & Hp & Hd & Hp' & Hr)].
  pose proof (wp_elim_ok _ _ _ _ _ _ (exec_claims c h Hh) Hx) as Hc.
  pose proof (truthful_claims c w x Ht Hc) as Hw.
  assert (∀ P, lh_pending h' = Some P → po_phase P = Reserved) as Hidle by (by rewrite Hp').
  destruct x as [e|e| |]; cbn in Hs |- *.
  - destruct Hw as [cmd ->]. destruct Hs as (q & m1 & [Hq _] & _ & Htr & Hrd & Hm). split; [done|].
    cbn in Hq, Htr, Hm. rewrite Hp in Hq. injection Hq as <-. destruct Hr as (_ & Hl & Ha & Hb & Hc' & _).
    by eapply committed_forward.
  - destruct Hw as [cmd ->]. destruct Hs as (q & m1 & [Hq _] & _ & Htr & Hrd & Hm). split; [done|].
    cbn in Hq, Htr, Hm. rewrite Hp in Hq. injection Hq as <-. destruct Hr as (_ & Hl & Ha & Hb & Hc' & _).
    rewrite Hl in Htr. apply trace_undo in Htr. rewrite Ha, Hc' in Htr. by apply (trace_same _ _ _ _ Hm).
  - destruct Hw as [cmd ->]. destruct Hs as (q & _ & _ & Htr). split; [done|].
    by destruct Hr as [-> _].
  - destruct Hr as (_ & id & cause & Hfr). congruence.
Qed.

Lemma patch_step_ok m0 w w' : patch_step w w' → patch_ok m0 w → patch_ok m0 w'.
Proof.
  intros Hstep [Hh Hs].
  destruct Hstep as [c h m w r h' Hc Hx|h m w cmd h' Hx|h m stop a x y Hr|h m m' cmd
                    |c h m w r h' Ht Hx|c h m w e h' Hx]; cbn in Hh, Hs.
  - destruct (reserving_run _ _ _ _ Hh Hc Hx) as (Hh' & He & Hf & Hold & Hnew). split; [done|].
    intros _. specialize (Hs Hf). pose proof (idle_not_dispatched m0 _ Hs Hold) as Hw. cbn in Hw.
    subst w. cbn in *. rewrite He. by destruct Hs.
  - pose proof (wp_elim_ok _ _ _ _ _ _ (mark_for_dispatch_spec h Hh) Hx) as [[Hh' [He Hf']] (p & Hp & Hd & -> & ->)].
    split; [done|]. intros Hf. specialize (Hs Hf).
    assert (w = HostIdle) as ->.
    { apply (idle_not_dispatched m0 _ Hs). cbn. intros q Hq. congruence. }
    cbn in *. exists (po_set_phase Dispatched p). by destruct Hs.
  - split; [done|]. intros Hf. destruct (Hs Hf) as (p & Hu & Hcmd & Htr). injection Hcmd as -> -> -> ->.
    by exists p, m.
  - split; [done|]. intros Hf. destruct (Hs Hf) as (p & Hu & _). by exists p.
  - pose proof (wp_elim_ok _ _ _ _ _ _ (history_exec_spec c h Hh) Hx) as [Hh' _]. split; [done|].
    cbn. intros Hf. apply (resolve_in_step m0 c h); [done| |done..]. apply Hs.
    destruct (lh_freeze_evidence h) as [f|] eqn:Hfr; [|done]. by rewrite (frozen_refuses c h f Hfr) in Hx.
  - pose proof (wp_elim_err _ _ _ _ _ _ (history_exec_spec c h Hh) Hx) as ->. by split.
Qed.

Lemma patch_reaches m0 w w' : rtc patch_step w w' → patch_ok m0 w → patch_ok m0 w'.
Proof. induction 1 as [|w w1 w' Hs _ IH]; [done|]. intros Hw. by eapply IH, patch_step_ok. Qed.

(** C11: undoing restores the target.  Take any run of calls on a history and of a
    host that performs the commands the history hands out, comparing before it
    writes, or is torn at any point, and whose receipts are truthful.  As long as the
    history is not frozen: while the host has not performed a command that is
    unresolved, the target memory is the original memory with the retained entries
    written in order, and taking the entries back, last first, restores the original
    memory byte for byte, so that an empty history means the original memory; and
    when the host has performed the command, writing back the bytes the command
    expected and then taking the entries back does.  Nothing is left with the host
    unless an operation is pending. *)
Theorem undo_restores_memory sid b m0 w :
  valid_binding b →
  rtc patch_step (mkPatchWorld (LivePatchHistory_new sid b) m0 HostIdle) w →
  let h := pw_history w in
  let m := pw_memory w in
  lh_freeze_evidence h = None →
  match pw_work w with
  | HostIdle | HostHolds _ =>
      same_memory (rewind (lh_entries h) m) m0 ∧ same_memory (replay (lh_entries h) m0) m
      ∧ (lh_entries h = [] → same_memory m m0)
  | HostWrote command =>
      ∃ stop a x y, command = DC.WriteMemory stop a x y
        ∧ same_memory (rewind (lh_entries h) (write_bytes a x m)) m0
  | HostTorn _ => True
  end
  ∧ (lh_pending h = None → pw_work w = HostIdle).
Proof.
  intros Hb Hrun h m Hf.
  assert (patch_ok m0 (mkPatchWorld (LivePatchHistory_new sid b) m0 HostIdle)) as H0.
  { split; [by apply new_history_inv|]. intros _. split; [done|by apply trace_nil]. }
  destruct (patch_reaches _ _ _ Hrun H0) as [Hh Hs]. specialize (Hs Hf).
  assert (∀ m, trace m0 (lh_entries h) m →
    same_memory (rewind (lh_entries h) m) m0 ∧ same_memory (replay (lh_entries h) m0) m
    ∧ (lh_entries h = [] → same_memory m m0)) as Htr.
  { intros m1 Ht. split; [by apply trace_rewind|]. split; [by apply trace_replay|]. intros Hn.
    apply trace_rewind in Ht. by rewrite Hn in Ht. }
  split; [|intros Hn; apply (idle_not_dispatched m0 w Hs); fold h; by rewrite Hn].
  unfold in_step in Hs. fold h m in Hs. destruct (pw_work w) as [|cmd|cmd|cmd]; [| | |done].
  - destruct Hs as [_ Ht]. by apply Htr.
  - destruct Hs as (p & _ & _ & Ht). by apply Htr.
  - destruct Hs as (p & m1 & [Hp _] & -> & Ht & Hr & Hm). eexists _, _, _, _. split; [done|].
    apply trace_rewind. apply (trace_same _ _ m1); [|done].
    destruct (hi_pending _ Hh p Hp) as [_ Hok].
    rewrite Hm, write_write by (by eapply pending_lengths). rewrite <-Hr at 1. apply write_read.
Qed.
