(* ===== verification/HostWire.v ===== *)
(** The binary framing between controller and debug host,
    [resymbol-debugger/src/host_wire.rs]: frame headers and their encoding, the
    one-shot and the incremental decoder, the order of frames, and the handshake
    that opens a channel. *)

From S2P Require Import Prelude Utf8.
Open Scope Z_scope.

Definition WIRE_PROTOCOL_MAJOR : Z := 1.
Definition WIRE_PROTOCOL_MINOR : Z := 7.
Definition MAX_CONTROL_BYTES : Z := 64 * 1024.
Definition MAX_RAW_BYTES : Z := 8 * 1024 * 1024.
Definition WIRE_MAX_BUILD_ID_BYTES : Z := 256.
Definition PREFIX_BYTES : Z := 4.
Definition FIXED_CONTROL_BYTES : Z := 32.
Definition HELLO_FIXED_BYTES : Z := 20.
Definition MAGIC : list Z := str "RSYM".
Definition ADDRESS_FLAG : Z := 1.

(** ** Data *)

Module WireError.
Inductive wire_error : Type :=
  | UnsupportedVersion (major minor : Z)
  | ZeroSequence
  | ZeroHelloNonce
  | InvalidBuildClaim
  | UnknownEndpointRole (value : Z)
  | UnknownMessageDirection (value : Z)
  | RoleDirectionMismatch
  | BuildClaimTooLong (actual maximum : Z)
  | ZeroControlLength
  | ControlTooSmall (declared minimum : Z)
  | ControlTooLarge (declared maximum : Z)
  | RawTooLarge (declared maximum : Z)
  | AddressOverflow (address length : Z)
  | AddressWithoutPayload
  | LengthOverflow
  | InvalidMagic
  | UnknownMessageKind (value : Z)
  | Malformed (what : string)
  | Truncated (needed available : Z)
  | OutOfOrder (previous received : Z)
  | DecoderComplete.
End WireError.
Abbreviation WireError := WireError.wire_error.
Module WE := WireError.

Record WireProtocolVersion : Type := mkWireVersion { wv_major : Z; wv_minor : Z }.
#[global] Instance WireProtocolVersion_eq_dec : EqDecision WireProtocolVersion.
Proof. solve_decision. Defined.

Definition WireProtocolVersion_current : WireProtocolVersion :=
  mkWireVersion WIRE_PROTOCOL_MAJOR WIRE_PROTOCOL_MINOR.

Definition wire_version_validate (v : WireProtocolVersion) : result unit WireError :=
  fail_if (negb (bool_decide (v = WireProtocolVersion_current)))
    (WE.UnsupportedVersion (wv_major v) (wv_minor v)).

Definition FrameSequence_new (value : Z) : result Z WireError :=
  if negb (value =? 0) then Ok value else Err WE.ZeroSequence.

Module MessageKind.
Inductive message_kind : Type := Hello | HelloAck | Command | Event | Cancel | Close.
End MessageKind.
Abbreviation MessageKind := MessageKind.message_kind.
Module MK := MessageKind.
#[global] Instance MessageKind_eq_dec : EqDecision MessageKind.
Proof. solve_decision. Defined.

Definition kind_byte (k : MessageKind) : Z :=
  match k with
  | MK.Hello => 1 | MK.HelloAck => 2 | MK.Command => 3
  | MK.Event => 4 | MK.Cancel => 5 | MK.Close => 6
  end.

Definition kind_try_from (value : Z) : result MessageKind WireError :=
  match value with
  | 1 => Ok MK.Hello
  | 2 => Ok MK.HelloAck
  | 3 => Ok MK.Command
  | 4 => Ok MK.Event
  | 5 => Ok MK.Cancel
  | 6 => Ok MK.Close
  | _ => Err (WE.UnknownMessageKind value)
  end.

Definition is_hello_kind (k : MessageKind) : bool :=
  match k with MK.Hello | MK.HelloAck => true | _ => false end.

Inductive MessageDirection : Type := ControllerToHost | HostToController.
#[global] Instance MessageDirection_eq_dec : EqDecision MessageDirection.
Proof. solve_decision. Defined.

Definition direction_byte (d : MessageDirection) : Z :=
  match d with ControllerToHost => 1 | HostToController => 2 end.

Definition direction_try_from (value : Z) : result MessageDirection WireError :=
  match value with
  | 1 => Ok ControllerToHost
  | 2 => Ok HostToController
  | _ => Err (WE.UnknownMessageDirection value)
  end.

Inductive EndpointRole : Type := ControllerRole | HostRole.
#[global] Instance EndpointRole_eq_dec : EqDecision EndpointRole.
Proof. solve_decision. Defined.

Definition peer (r : EndpointRole) : EndpointRole :=
  match r with ControllerRole => HostRole | HostRole => ControllerRole end.

Definition outbound_direction (r : EndpointRole) : MessageDirection :=
  match r with ControllerRole => ControllerToHost | HostRole => HostToController end.

Definition role_byte (r : EndpointRole) : Z :=
  match r with ControllerRole => 1 | HostRole => 2 end.

Definition role_try_from (value : Z) : result EndpointRole WireError :=
  match value with
  | 1 => Ok ControllerRole
  | 2 => Ok HostRole
  | _ => Err (WE.UnknownEndpointRole value)
  end.

(** [hi_nonce] is the array of sixteen bytes. *)
Record HelloIdentity : Type := mkHelloIdentity {
  hi_nonce : list Z;
  hi_role : EndpointRole;
  hi_direction : MessageDirection;
  hi_build_claim : list Z
}.
#[global] Instance HelloIdentity_eq_dec : EqDecision HelloIdentity.
Proof. solve_decision. Defined.

Definition is_zero_nonce (nonce : list Z) : bool := forallb (λ byte, byte =? 0) nonce.

Definition validate_build_claim (build_claim : list Z) : result unit WireError :=
  do? fail_if (bool_decide (build_claim = []) || existsb is_control build_claim)
        WE.InvalidBuildClaim in
  fail_if (WIRE_MAX_BUILD_ID_BYTES <? str_len build_claim)
    (WE.BuildClaimTooLong (str_len build_claim) WIRE_MAX_BUILD_ID_BYTES).

Definition hello_validate (h : HelloIdentity) : result unit WireError :=
  do? fail_if (is_zero_nonce (hi_nonce h)) WE.ZeroHelloNonce in
  do? fail_if (negb (bool_decide (hi_direction h = outbound_direction (hi_role h))))
        WE.RoleDirectionMismatch in
  validate_build_claim (hi_build_claim h).

Definition HelloIdentity_new (nonce : list Z) (role : EndpointRole) (direction : MessageDirection)
    (build_claim : list Z) : result HelloIdentity WireError :=
  let hello := mkHelloIdentity nonce role direction build_claim in
  do? hello_validate hello in
  Ok hello.

Inductive ControlBody : Type :=
  | HelloBody (hello : HelloIdentity)
  | BytesBody (bytes : list Z).
#[global] Instance ControlBody_eq_dec : EqDecision ControlBody.
Proof. solve_decision. Defined.

Record FrameHeader : Type := mkFrameHeader {
  fh_version : WireProtocolVersion;
  fh_sequence : Z;
  fh_kind : MessageKind;
  fh_raw_len : Z;
  fh_raw_address : option Z;
  fh_body : ControlBody
}.
#[global] Instance FrameHeader_eq_dec : EqDecision FrameHeader.
Proof. solve_decision. Defined.

(** ** Headers *)

Definition validate_control_len (length : Z) : result unit WireError :=
  do? fail_if (length =? 0) WE.ZeroControlLength in
  fail_if (MAX_CONTROL_BYTES <? length) (WE.ControlTooLarge length MAX_CONTROL_BYTES).

Definition control_len (h : FrameHeader) : result Z WireError :=
  let? body := match fh_body h with
               | HelloBody hello =>
                   ok_or (checked_add usize_max HELLO_FIXED_BYTES (str_len (hi_build_claim hello)))
                     WE.LengthOverflow
               | BytesBody bytes => Ok (zlen bytes)
               end in
  let? total := ok_or (checked_add usize_max FIXED_CONTROL_BYTES body) WE.LengthOverflow in
  do? validate_control_len total in
  Ok total.

Definition header_validate (h : FrameHeader) : result unit WireError :=
  do? wire_version_validate (fh_version h) in
  do? fail_if (MAX_RAW_BYTES <? fh_raw_len h) (WE.RawTooLarge (fh_raw_len h) MAX_RAW_BYTES) in
  do? match fh_raw_address h with
      | Some address =>
          do? fail_if (fh_raw_len h =? 0) WE.AddressWithoutPayload in
          do? ok_or (checked_add u64_max address (fh_raw_len h))
                (WE.AddressOverflow address (fh_raw_len h)) in
          Ok tt
      | None => Ok tt
      end in
  do? match fh_body h, is_hello_kind (fh_kind h) with
      | HelloBody hello, true =>
          do? hello_validate hello in
          fail_if (negb (fh_raw_len h =? 0) || bool_decide (is_Some (fh_raw_address h)))
            (WE.Malformed "hello carries raw payload")
      | BytesBody _, false => Ok tt
      | _, _ => Err (WE.Malformed "message kind/body mismatch")
      end in
  do? control_len h in
  Ok tt.

Definition FrameHeader_new (sequence : Z) (kind : MessageKind) (raw_len : Z)
    (raw_address : option Z) (body : ControlBody) : result FrameHeader WireError :=
  let header := mkFrameHeader WireProtocolVersion_current sequence kind raw_len raw_address body in
  do? header_validate header in
  Ok header.

(** [u32::try_from] and the like into a type with maximum [top]. *)
Definition wire_try_from (top n : Z) : result Z WireError :=
  if n <=? top then Ok n else Err WE.LengthOverflow.

Definition frame_len (h : FrameHeader) : result Z WireError :=
  let? raw := wire_try_from usize_max (fh_raw_len h) in
  let? control := control_len h in
  ok_or (checked_add usize_max PREFIX_BYTES control ≫= λ value, checked_add usize_max value raw)
    WE.LengthOverflow.

(** ** Encoding *)

Definition encode_body (body : ControlBody) : result (list Z) WireError :=
  match body with
  | HelloBody hello =>
      let? length := wire_try_from u16_max (str_len (hi_build_claim hello)) in
      Ok (hi_nonce hello ++ [role_byte (hi_role hello)] ++ [direction_byte (hi_direction hello)]
          ++ le_bytes 2 length ++ utf8_encode (hi_build_claim hello))
  | BytesBody bytes => Ok bytes
  end.

(** The thirty-two bytes before the body. *)
Definition encode_fixed (h : FrameHeader) : list Z :=
  MAGIC ++ le_bytes 2 (wv_major (fh_version h)) ++ le_bytes 2 (wv_minor (fh_version h))
  ++ le_bytes 8 (fh_sequence h) ++ [kind_byte (fh_kind h)]
  ++ [(if bool_decide (is_Some (fh_raw_address h)) then 1 else 0) * ADDRESS_FLAG]
  ++ le_bytes 2 0 ++ le_bytes 4 (fh_raw_len h) ++ le_bytes 8 (default 0 (fh_raw_address h)).

Definition encode_control (h : FrameHeader) : result (list Z) WireError :=
  do? header_validate h in
  let? length := control_len h in
  do? ok_or (checked_add usize_max PREFIX_BYTES length) WE.LengthOverflow in
  let? wire_len := wire_try_from u32_max length in
  let? body := encode_body (fh_body h) in
  Ok (le_bytes 4 wire_len ++ encode_fixed h ++ body).

(** ** Decoding *)

Definition array (n : Z) (bytes : list Z) (offset : Z) : result (list Z) WireError :=
  let? end_ := ok_or (checked_add usize_max offset n) WE.LengthOverflow in
  ok_or (slice_get offset end_ bytes) (WE.ControlTooSmall (zlen bytes) end_).

Definition array_uint (n : Z) (bytes : list Z) (offset : Z) : result Z WireError :=
  let? a := array n bytes offset in
  Ok (from_le_bytes a).

Definition decode_hello (bytes : list Z) : result ControlBody WireError :=
  do? fail_if (zlen bytes <? HELLO_FIXED_BYTES) (WE.Malformed "truncated hello") in
  let? nonce := array 16 bytes 0 in
  let? role_value := index_at 16 bytes in
  let? role := role_try_from role_value in
  let? direction_value := index_at 17 bytes in
  let? direction := direction_try_from direction_value in
  let? build_len := array_uint 2 bytes 18 in
  let? expected := ok_or (checked_add usize_max HELLO_FIXED_BYTES build_len) WE.LengthOverflow in
  do? fail_if (negb (expected =? zlen bytes)) (WE.Malformed "hello length mismatch") in
  let? build_bytes := index_range HELLO_FIXED_BYTES (zlen bytes) bytes in
  let? build := ok_or (from_utf8 build_bytes) WE.InvalidBuildClaim in
  let? hello := HelloIdentity_new nonce role direction build in
  Ok (HelloBody hello).

Definition decode_control (control : list Z) : result FrameHeader WireError :=
  do? fail_if (zlen control <? FIXED_CONTROL_BYTES)
        (WE.ControlTooSmall (zlen control) FIXED_CONTROL_BYTES) in
  do? validate_control_len (zlen control) in
  let? magic := array 4 control 0 in
  do? fail_if (negb (bool_decide (magic = MAGIC))) WE.InvalidMagic in
  let? major := array_uint 2 control 4 in
  let? minor := array_uint 2 control 6 in
  let? sequence_value := array_uint 8 control 8 in
  let? sequence := FrameSequence_new sequence_value in
  let? kind_value := index_at 16 control in
  let? kind := kind_try_from kind_value in
  let? flags := index_at 17 control in
  let? reserved := if negb (Z.land flags (Z.lxor 255 ADDRESS_FLAG) =? 0) then Ok true
                   else let? bits := array_uint 2 control 18 in Ok (negb (bits =? 0)) in
  do? fail_if reserved (WE.Malformed "unknown flags or reserved bits") in
  let? raw_len := array_uint 4 control 20 in
  let? address := array_uint 8 control 24 in
  let? raw_address := if negb (Z.land flags ADDRESS_FLAG =? 0) then Ok (Some address)
                      else if address =? 0 then Ok None
                      else Err (WE.Malformed "noncanonical absent address") in
  let? bytes := index_range FIXED_CONTROL_BYTES (zlen control) control in
  let? body := if is_hello_kind kind then decode_hello bytes else Ok (BytesBody bytes) in
  let header := mkFrameHeader (mkWireVersion major minor) sequence kind raw_len raw_address body in
  do? header_validate header in
  Ok header.

(** [SequenceTracker] holds the last sequence number it observed. *)
Abbreviation SequenceTracker := (option Z).

Definition observe (sequence : Z) : smonad SequenceTracker WireError unit :=
  do! sread (λ last, match last with
                     | Some previous => fail_if (sequence <=? previous)
                                          (WE.OutOfOrder previous sequence)
                     | None => Ok tt
                     end) in
  supd (λ _, Some sequence).

Record DecodedFrame : Type := mkDecodedFrame {
  df_header : FrameHeader;
  df_raw : list Z;
  df_consumed : Z
}.

Definition decode_frame (bytes : list Z) : smonad SequenceTracker WireError DecodedFrame :=
  do! slift (fail_if (zlen bytes <? PREFIX_BYTES) (WE.Truncated PREFIX_BYTES (zlen bytes))) in
  let! length := slift (array_uint 4 bytes 0) in
  let! control_length := slift (wire_try_from usize_max length) in
  do! slift (validate_control_len control_length) in
  let! control_end := slift (ok_or (checked_add usize_max PREFIX_BYTES control_length)
                               WE.LengthOverflow) in
  do! slift (fail_if (zlen bytes <? control_end) (WE.Truncated control_end (zlen bytes))) in
  let! control := slift (index_range PREFIX_BYTES control_end bytes) in
  let! header := slift (decode_control control) in
  let! raw_len := slift (wire_try_from usize_max (fh_raw_len header)) in
  let! total := slift (ok_or (checked_add usize_max control_end raw_len) WE.LengthOverflow) in
  do! slift (fail_if (zlen bytes <? total) (WE.Truncated total (zlen bytes))) in
  do! observe (fh_sequence header) in
  let! raw := slift (index_range control_end total bytes) in
  sret (mkDecodedFrame header raw total).

(** ** The incremental header decoder *)

Record HeaderDecoder : Type := mkHeaderDecoder {
  hd_prefix : list Z;
  hd_prefix_used : Z;
  hd_expected : option Z;
  hd_control : list Z;
  hd_done : bool
}.

Definition HeaderDecoder_default : HeaderDecoder := mkHeaderDecoder [0; 0; 0; 0] 0 None [] false.

Abbreviation decoder_op A := (smonad HeaderDecoder WireError A).

(** Copies into [prefix[used..used + take]]; returns how much was taken and
    whether the prefix is complete. *)
Definition push_prefix (input : list Z) : decoder_op (Z * bool) :=
  let! used := sget hd_prefix_used in
  if used <? PREFIX_BYTES then
    let taken := Z.min (PREFIX_BYTES - used) (zlen input) in
    do! supd (λ d, mkHeaderDecoder
                     (take (Z.to_nat used) (hd_prefix d) ++ take (Z.to_nat taken) input
                      ++ drop (Z.to_nat (used + taken)) (hd_prefix d))
                     (used + taken) (hd_expected d) (hd_control d) (hd_done d)) in
    if used + taken <? PREFIX_BYTES then sret (taken, false)
    else
      let! expected := sread (λ d, wire_try_from usize_max (from_le_bytes (hd_prefix d))) in
      do! slift (validate_control_len expected) in
      do! supd (λ d, mkHeaderDecoder (hd_prefix d) (hd_prefix_used d) (Some expected) []
                       (hd_done d)) in
      sret (taken, true)
  else sret (0, true).

(** The control bytes of [input] from [consumed] on. *)
Definition push_control (input : list Z) (consumed : Z) : decoder_op (Z * option FrameHeader) :=
  let! expected := sread (λ d, ok_or (hd_expected d) WE.LengthOverflow) in
  let! missing := sread (λ d, plain_sub expected (zlen (hd_control d))) in
  let! available := slift (plain_sub (zlen input) consumed) in
  let taken := Z.min missing available in
  let! chunk := slift (index_range consumed (consumed + taken) input) in
  do! supd (λ d, mkHeaderDecoder (hd_prefix d) (hd_prefix_used d) (hd_expected d)
                   (hd_control d ++ chunk) (hd_done d)) in
  let! complete := sget (λ d, zlen (hd_control d) =? expected) in
  if (complete : bool) then
    let! header := sread (λ d, decode_control (hd_control d)) in
    do! supd (λ d, mkHeaderDecoder (hd_prefix d) (hd_prefix_used d) (hd_expected d)
                     (hd_control d) true) in
    sret (consumed + taken, Some header)
  else sret (consumed + taken, None).

Definition decoder_push (input : list Z) : decoder_op (Z * option FrameHeader) :=
  do! sread (λ d, fail_if (hd_done d) WE.DecoderComplete) in
  let! prefix := push_prefix input in
  if negb prefix.2 then sret (prefix.1, None) else push_control input prefix.1.

Definition decoder_finish (d : HeaderDecoder) : result unit WireError :=
  if hd_done d then Ok tt
  else
    let needed := default PREFIX_BYTES
                    (hd_expected d ≫= λ value, checked_add usize_max PREFIX_BYTES value) in
    let? available := ok_or (checked_add usize_max (hd_prefix_used d) (zlen (hd_control d)))
                        WE.LengthOverflow in
    Err (WE.Truncated needed available).

(** ** The handshake *)

Module HandshakeError.
Inductive handshake_error : Type :=
  | Wire (e : WireError)
  | UnexpectedSequence (expected actual : Z)
  | UnexpectedMessageKind (expected actual : MessageKind)
  | MissingHelloIdentity
  | ProtocolVersionMismatch
  | PeerRoleMismatch
  | PeerDirectionMismatch
  | PeerBuildClaimMismatch
  | NonceMismatch
  | HandshakeNotStarted
  | WrongHandshakeSide
  | ReplayOrDuplicate
  | Terminal.
End HandshakeError.
Abbreviation HandshakeError := HandshakeError.handshake_error.
Module HE := HandshakeError.

Module HandshakeState.
Inductive handshake_state : Type :=
  | Ready | AwaitingHello | AwaitingAcknowledgement | Established | Failed.
End HandshakeState.
Abbreviation HandshakeState := HandshakeState.handshake_state.
Module HS := HandshakeState.
#[global] Instance HandshakeState_eq_dec : EqDecision HandshakeState.
Proof. solve_decision. Defined.

Record BuildClaimHandshake : Type := mkHandshake {
  bh_role : EndpointRole;
  bh_local_build_claim : list Z;
  bh_expected_peer_build_claim : list Z;
  bh_offered_version : WireProtocolVersion;
  bh_negotiated_version : option WireProtocolVersion;
  bh_nonce : option (list Z);
  bh_state : HandshakeState
}.

Definition bh_set_state (state : HandshakeState) (h : BuildClaimHandshake) : BuildClaimHandshake :=
  mkHandshake (bh_role h) (bh_local_build_claim h) (bh_expected_peer_build_claim h)
    (bh_offered_version h) (bh_negotiated_version h) (bh_nonce h) state.

Definition bh_set_negotiated (v : WireProtocolVersion) (h : BuildClaimHandshake)
    : BuildClaimHandshake :=
  mkHandshake (bh_role h) (bh_local_build_claim h) (bh_expected_peer_build_claim h)
    (bh_offered_version h) (Some v) (bh_nonce h) (bh_state h).

Definition bh_set_nonce (nonce : list Z) (h : BuildClaimHandshake) : BuildClaimHandshake :=
  mkHandshake (bh_role h) (bh_local_build_claim h) (bh_expected_peer_build_claim h)
    (bh_offered_version h) (bh_negotiated_version h) (Some nonce) (bh_state h).

Definition handshake_new (role : EndpointRole) (local_claim expected_claim : list Z)
    (offered : WireProtocolVersion) (nonce : option (list Z)) (state : HandshakeState)
    : result BuildClaimHandshake HandshakeError :=
  do? map_err HE.Wire (validate_build_claim local_claim) in
  do? map_err HE.Wire (validate_build_claim expected_claim) in
  Ok (mkHandshake role local_claim expected_claim offered None nonce state).

Definition initiator_for_version (role : EndpointRole) (nonce local_claim expected_claim : list Z)
    (offered : WireProtocolVersion) : result BuildClaimHandshake HandshakeError :=
  do? fail_if (is_zero_nonce nonce) (HE.Wire WE.ZeroHelloNonce) in
  do? map_err HE.Wire (wire_version_validate offered) in
  handshake_new role local_claim expected_claim offered (Some nonce) HS.Ready.

Definition initiator (role : EndpointRole) (nonce local_claim expected_claim : list Z)
    : result BuildClaimHandshake HandshakeError :=
  initiator_for_version role nonce local_claim expected_claim WireProtocolVersion_current.

Definition responder (role : EndpointRole) (local_claim expected_claim : list Z)
    : result BuildClaimHandshake HandshakeError :=
  handshake_new role local_claim expected_claim WireProtocolVersion_current None HS.AwaitingHello.

Definition require_handshake_sequence (sequence : Z) : result unit HandshakeError :=
  if sequence =? 1 then Ok tt else Err (HE.UnexpectedSequence 1 sequence).

Definition require_kind (actual expected : MessageKind) : result unit HandshakeError :=
  if bool_decide (actual = expected) then Ok tt
  else Err (HE.UnexpectedMessageKind expected actual).

Abbreviation handshake_op A := (smonad BuildClaimHandshake HandshakeError A).

(** The hello frame of an endpoint, for the version it speaks. *)
Definition hello_frame (h : BuildClaimHandshake) (sequence : Z) (kind : MessageKind)
    (nonce : list Z) (version : WireProtocolVersion) : result FrameHeader WireError :=
  let? hello := HelloIdentity_new nonce (bh_role h) (outbound_direction (bh_role h))
                  (bh_local_build_claim h) in
  let? frame := FrameHeader_new sequence kind 0 None (HelloBody hello) in
  let frame := mkFrameHeader version (fh_sequence frame) (fh_kind frame) (fh_raw_len frame)
                 (fh_raw_address frame) (fh_body frame) in
  do? header_validate frame in
  Ok frame.

(** Any error of a call is terminal. *)
Definition fail_closed {A} (c : handshake_op A) : handshake_op A :=
  λ h, match c h with
       | (Err e, h') => (Err e, bh_set_state HS.Failed h')
       | r => r
       end.

Definition begin_inner (sequence : Z) : handshake_op FrameHeader :=
  do! sread (λ h, match bh_state h with
                  | HS.Ready => Ok tt
                  | HS.AwaitingAcknowledgement | HS.Established => Err HE.ReplayOrDuplicate
                  | HS.AwaitingHello => Err HE.WrongHandshakeSide
                  | HS.Failed => Err HE.Terminal
                  end) in
  do! slift (require_handshake_sequence sequence) in
  let! nonce := sread (λ h, ok_or (bh_nonce h) HE.WrongHandshakeSide) in
  let! frame := sread (λ h, map_err HE.Wire
                              (hello_frame h sequence MK.Hello nonce (bh_offered_version h))) in
  do! supd (bh_set_state HS.AwaitingAcknowledgement) in
  sret frame.

Definition handshake_begin (sequence : Z) : handshake_op FrameHeader :=
  fail_closed (begin_inner sequence).

Definition validate_peer (h : BuildClaimHandshake) (hello : HelloIdentity)
    : result unit HandshakeError :=
  do? fail_if (negb (bool_decide (hi_role hello = peer (bh_role h)))) HE.PeerRoleMismatch in
  do? fail_if (negb (bool_decide (hi_direction hello = outbound_direction (hi_role hello))))
        HE.PeerDirectionMismatch in
  fail_if (negb (bool_decide (hi_build_claim hello = bh_expected_peer_build_claim h)))
    HE.PeerBuildClaimMismatch.

Definition accept_hello (frame : FrameHeader) (hello : HelloIdentity)
    : handshake_op (option FrameHeader) :=
  do! slift (require_kind (fh_kind frame) MK.Hello) in
  do! sread (λ h, validate_peer h hello) in
  let! one := slift (map_err HE.Wire (FrameSequence_new 1)) in
  let! acknowledgement := sread (λ h, map_err HE.Wire
                            (hello_frame h one MK.HelloAck (hi_nonce hello) (fh_version frame))) in
  do! supd (bh_set_nonce (hi_nonce hello)) in
  do! supd (bh_set_negotiated (fh_version frame)) in
  do! supd (bh_set_state HS.Established) in
  sret (Some acknowledgement).

Definition accept_acknowledgement (frame : FrameHeader) (hello : HelloIdentity)
    : handshake_op (option FrameHeader) :=
  do! slift (require_kind (fh_kind frame) MK.HelloAck) in
  do! sread (λ h, validate_peer h hello) in
  do! sread (λ h, fail_if (negb (bool_decide (fh_version frame = bh_offered_version h)))
                    HE.ProtocolVersionMismatch) in
  do! sread (λ h, fail_if (negb (bool_decide (bh_nonce h = Some (hi_nonce hello))))
                    HE.NonceMismatch) in
  do! supd (bh_set_negotiated (fh_version frame)) in
  do! supd (bh_set_state HS.Established) in
  sret None.

Definition accept_inner (frame : FrameHeader) : handshake_op (option FrameHeader) :=
  do! sread (λ h, fail_if (bool_decide (bh_state h = HS.Established)) HE.ReplayOrDuplicate) in
  do! sread (λ h, fail_if (bool_decide (bh_state h = HS.Failed)) HE.Terminal) in
  do! slift (map_err HE.Wire (header_validate frame)) in
  do! slift (require_handshake_sequence (fh_sequence frame)) in
  let! hello := slift (match fh_body frame with
                       | HelloBody hello => Ok hello
                       | BytesBody _ => Err HE.MissingHelloIdentity
                       end) in
  let! state := sget bh_state in
  match state with
  | HS.AwaitingHello => accept_hello frame hello
  | HS.AwaitingAcknowledgement => accept_acknowledgement frame hello
  | HS.Ready => serr HE.HandshakeNotStarted
  | HS.Established => serr HE.ReplayOrDuplicate
  | HS.Failed => serr HE.Terminal
  end.

Definition handshake_accept (frame : FrameHeader) : handshake_op (option FrameHeader) :=
  fail_closed (accept_inner frame).
