(* ===== verification/HostWireTheory.v ===== *)
(** Theorems about the host framing: the codec of frames is exact in both
    directions, and the incremental header decoder computes what the one-shot
    decoder computes, however the bytes are cut. *)

From S2P Require Import Prelude Utf8 HostWire.
Open Scope Z_scope.

(** ** What the Rust types allow *)

Definition hello_typed (h : HelloIdentity) : Prop :=
  zlen (hi_nonce h) = 16 ∧ Forall is_byte (hi_nonce h) ∧ Forall is_char (hi_build_claim h).

Definition body_typed (b : ControlBody) : Prop :=
  match b with HelloBody hello => hello_typed hello | BytesBody bytes => Forall is_byte bytes end.

Definition header_typed (h : FrameHeader) : Prop :=
  0 < fh_sequence h ≤ u64_max ∧ in_u32 (fh_raw_len h)
  ∧ (∀ a, fh_raw_address h = Some a → in_u64 a) ∧ body_typed (fh_body h).

(** The length of the body on the wire. *)
Definition body_len (b : ControlBody) : Z :=
  match b with
  | HelloBody hello => HELLO_FIXED_BYTES + str_len (hi_build_claim hello)
  | BytesBody bytes => zlen bytes
  end.

(** The declarative condition on hellos and headers. *)
Definition hello_ok (h : HelloIdentity) : Prop :=
  is_zero_nonce (hi_nonce h) = false ∧ hi_direction h = outbound_direction (hi_role h)
  ∧ hi_build_claim h ≠ [] ∧ existsb is_control (hi_build_claim h) = false
  ∧ str_len (hi_build_claim h) ≤ WIRE_MAX_BUILD_ID_BYTES.

Definition header_ok (h : FrameHeader) : Prop :=
  fh_version h = WireProtocolVersion_current ∧ fh_raw_len h ≤ MAX_RAW_BYTES
  ∧ (∀ a, fh_raw_address h = Some a → fh_raw_len h ≠ 0 ∧ a + fh_raw_len h ≤ u64_max)
  ∧ match fh_body h with
    | HelloBody hello => is_hello_kind (fh_kind h) = true ∧ hello_ok hello
                         ∧ fh_raw_len h = 0 ∧ fh_raw_address h = None
    | BytesBody _ => is_hello_kind (fh_kind h) = false
    end
  ∧ FIXED_CONTROL_BYTES + body_len (fh_body h) ≤ MAX_CONTROL_BYTES.

Lemma build_claim_validate_ok c :
  validate_build_claim c = Ok tt
  ↔ c ≠ [] ∧ existsb is_control c = false ∧ str_len c ≤ WIRE_MAX_BUILD_ID_BYTES.
Proof.
  unfold validate_build_claim. split.
  - intros H. rust_inv H. done.
  - intros (? & ? & ?). rust_ok.
Qed.

Lemma hello_validate_ok h : hello_validate h = Ok tt ↔ hello_ok h.
Proof.
  unfold hello_validate, hello_ok. rewrite <-build_claim_validate_ok. split.
  - intros H. rust_inv H. done.
  - intros (? & ? & ?). rust_ok.
Qed.

Lemma body_len_nonneg b : 0 ≤ body_len b.
Proof.
  destruct b as [hello|bytes]; [|apply zlen_nonneg].
  pose proof (zlen_nonneg (utf8_encode (hi_build_claim hello))).
  unfold body_len, HELLO_FIXED_BYTES, str_len. lia.
Qed.

Lemma control_len_ok h n :
  control_len h = Ok n
  ↔ n = FIXED_CONTROL_BYTES + body_len (fh_body h) ∧ n ≤ MAX_CONTROL_BYTES.
Proof.
  pose proof (body_len_nonneg (fh_body h)) as Hb.
  unfold control_len, validate_control_len.
  unfold body_len, usize_max, u64_max, FIXED_CONTROL_BYTES, MAX_CONTROL_BYTES in *. split.
  - intros H. destruct (fh_body h); rust_inv H; lia.
  - intros [-> ?]. destruct (fh_body h) as [hello|bytes].
    + autorewrite with rust. eexists. split; [rust_ok; lia|].
      autorewrite with rust. eexists. split; [rust_ok; lia|]. rust_ok; lia.
    + autorewrite with rust. eexists. split; [done|].
      autorewrite with rust. eexists. split; [rust_ok; lia|]. rust_ok; lia.
Qed.

Lemma header_validate_ok h : header_validate h = Ok tt ↔ header_ok h.
Proof.
  unfold header_validate, header_ok, wire_version_validate. split.
  - intros H. autorewrite with rust in H. destruct H as ([] & Hv & H).
    rust_inv Hv. autorewrite with rust in H. destruct H as ([] & Hr & H). rust_inv Hr.
    autorewrite with rust in H. destruct H as ([] & Ha & H).
    autorewrite with rust in H. destruct H as ([] & Hb & H).
    autorewrite with rust in H. destruct H as (n & [-> Hn]%control_len_ok & _).
    split_and!; [done|lia| | |done].
    + intros a Heq. rewrite Heq in Ha. rust_inv Ha. done.
    + destruct (fh_body h), (is_hello_kind (fh_kind h)); try done. rust_inv Hb.
      match goal with u : unit |- _ => destruct u end.
      split_and!; [done|by apply hello_validate_ok|done|].
      destruct (fh_raw_address h); [by destruct Hb|done].
  - intros (? & ? & Ha & Hb & Hn). rust_ok.
    + destruct (fh_raw_address h) as [a|]; [|done]. destruct (Ha a eq_refl). rust_ok. eexists. rust_ok.
    + destruct (fh_body h); [|by rewrite Hb]. destruct Hb as (-> & ? & ? & ->). rust_ok.
      by apply hello_validate_ok.
    + exists (FIXED_CONTROL_BYTES + body_len (fh_body h)). split; [by apply control_len_ok|done].
Qed.

(** ** Cutting byte strings

    [array_here] and its like read a field off the front, [array_skip] passes over
    what comes before it, and [array_cut] recovers the string from the fields that
    were read. *)

Lemma take_app_here {A} (a l : list A) n : zlen a = n → take (Z.to_nat n) (a ++ l) = a.
Proof. intros <-. unfold zlen. by rewrite Nat2Z.id, take_app_length. Qed.

Lemma drop_app_skip {A} (a l : list A) off :
  zlen a ≤ off → drop (Z.to_nat off) (a ++ l) = drop (Z.to_nat (off - zlen a)) l.
Proof.
  unfold zlen. intros Ha. rewrite drop_app_ge by lia. f_equal. lia.
Qed.

Lemma array_here n a l : zlen a = n → n ≤ usize_max → array n (a ++ l) 0 = Ok a.
Proof.
  intros Ha Hn. pose proof (zlen_nonneg a). pose proof (zlen_nonneg l). unfold array.
  autorewrite with rust. exists n. split; [rust_ok; lia|]. rust_ok. unfold slice_get.
  rewrite zlen_app, !(proj2 (Z.leb_le _ _)) by lia. cbn [andb].
  change (Z.to_nat 0) with O. rewrite Z.sub_0_r, drop_0, take_app_here by done. done.
Qed.

Lemma slice_get_skip {A} (a l : list A) off end_ :
  zlen a ≤ off → slice_get off end_ (a ++ l) = slice_get (off - zlen a) (end_ - zlen a) l.
Proof.
  intros Ha. unfold slice_get. rewrite zlen_app, drop_app_skip by done.
  replace (end_ - zlen a - (off - zlen a)) with (end_ - off) by lia.
  destruct (Z.leb_spec off end_), (Z.leb_spec end_ (zlen a + zlen l)),
    (Z.leb_spec (off - zlen a) (end_ - zlen a)), (Z.leb_spec (end_ - zlen a) (zlen l));
    done || lia.
Qed.

Lemma array_skip n a l m off x :
  zlen a = m → m ≤ off → off + n ≤ usize_max → array n l (off - m) = Ok x →
  array n (a ++ l) off = Ok x.
Proof.
  intros <- Ha Hu H. unfold array in *. rust_inv H.
  autorewrite with rust. exists (off + n). split; [rust_ok|]. rust_ok.
  rewrite slice_get_skip by done. rewrite <-H. f_equal. lia.
Qed.

Lemma array_uint_here n k v l :
  n = Z.of_nat k → (k < 9)%nat → 0 ≤ v < 256 ^ Z.of_nat k → array_uint n (le_bytes k v ++ l) 0 = Ok v.
Proof.
  intros -> Hk Hv. unfold array_uint. rewrite array_here; [|by unfold zlen; rewrite length_le_bytes|].
  - cbn. by rewrite from_le_bytes_le.
  - unfold usize_max, u64_max. lia.
Qed.

Lemma array_uint_skip n a l m off v :
  zlen a = m → m ≤ off → off + n ≤ usize_max → array_uint n l (off - m) = Ok v →
  array_uint n (a ++ l) off = Ok v.
Proof.
  intros <- Ha Hu H. unfold array_uint in *. rust_inv H.
  erewrite array_skip by done. done.
Qed.

Lemma index_at_here {A E} (b : A) l : @index_at A E 0 ([b] ++ l) = Ok b.
Proof. done. Qed.

Lemma index_at_skip {A E} (a l : list A) m i b :
  zlen a = m → m ≤ i → @index_at A E (i - m) l = Ok b → @index_at A E i (a ++ l) = Ok b.
Proof.
  unfold index_at, zlen. intros <- Ha. rewrite lookup_app_r by lia.
  by replace (Z.to_nat i - length a)%nat with (Z.to_nat (i - Z.of_nat (length a))) by lia.
Qed.

Lemma index_range_tail {A E} (a l : list A) off :
  zlen a = off → @index_range A E off (zlen (a ++ l)) (a ++ l) = Ok l.
Proof.
  intros <-. pose proof (zlen_nonneg l). unfold index_range. rewrite zlen_app.
  rewrite !(proj2 (Z.leb_le _ _)) by lia. cbn [andb]. rewrite drop_app_skip by lia.
  rewrite Z.sub_diag. change (Z.to_nat 0) with O. rewrite drop_0.
  rewrite take_ge; [done|]. unfold zlen. lia.
Qed.

Lemma array_cut n l off x :
  0 ≤ off → 0 ≤ n → array n l off = Ok x →
  drop (Z.to_nat off) l = x ++ drop (Z.to_nat (off + n)) l ∧ zlen x = n.
Proof.
  intros Ho Hn H. unfold array in H. rust_inv H. unfold slice_get in H.
  destruct (_ && _) eqn:Hb in H; [|done]. autorewrite with rust in Hb. destruct Hb. simplify_eq.
  replace (off + n - off) with n by lia. split.
  - rewrite <-(take_drop (Z.to_nat n) (drop (Z.to_nat off) l)) at 1. rewrite drop_drop.
    do 3 f_equal. lia.
  - unfold zlen in *. rewrite length_take, length_drop. lia.
Qed.

Lemma index_at_cut {A E} (l : list A) i b :
  0 ≤ i → @index_at A E i l = Ok b → drop (Z.to_nat i) l = [b] ++ drop (Z.to_nat (i + 1)) l.
Proof.
  unfold index_at. intros Hi H. destruct (l !! Z.to_nat i) eqn:Hl; [|done]. simplify_eq/=.
  rewrite (drop_S _ _ _ Hl). do 2 f_equal. lia.
Qed.

(** Reads the field at a known offset of an explicit concatenation. *)
Lemma zlen_magic : zlen MAGIC = 4.
Proof. done. Qed.

Ltac field_len := first [eassumption | apply zlen_singleton | apply zlen_le_bytes | apply zlen_magic].
Ltac small := unfold usize_max, u64_max; lia.

Ltac normal_offset :=
  match goal with
  | |- array _ _ ?o = _ => let v := eval vm_compute in o in change o with v
  | |- array_uint _ _ ?o = _ => let v := eval vm_compute in o in change o with v
  | |- index_at ?o _ = _ => let v := eval vm_compute in o in change o with v
  end.

Ltac bounded :=
  match goal with |- _ ≤ _ < ?p => let v := eval vm_compute in p in change p with v end;
  cbn [wv_major wv_minor WireProtocolVersion_current];
  unfold in_u32, in_u64, u32_max, u64_max, WIRE_PROTOCOL_MAJOR, WIRE_PROTOCOL_MINOR in *; lia.

Ltac read_field :=
  lazymatch goal with
  | |- array _ (_ ++ _) 0 = _ => apply array_here; [field_len|small]
  | |- array_uint _ (_ ++ _) 0 = _ => apply array_uint_here; [reflexivity|lia|bounded]
  | |- index_at 0 ([_] ++ _) = _ => apply index_at_here
  | |- array _ _ _ = _ =>
      eapply array_skip; [field_len|small|small|normal_offset; read_field]
  | |- array_uint _ _ _ = _ =>
      eapply array_uint_skip; [field_len|small|small|normal_offset; read_field]
  | |- index_at _ _ = _ => eapply index_at_skip; [field_len|small|normal_offset; read_field]
  end.

Lemma bind_ok_intro {A B E} (r : result A E) (k : A → result B E) a x :
  r = Ok a → k a = x → result_bind r k = x.
Proof. by intros -> <-. Qed.

Tactic Notation "step" uconstr(v) "by" tactic3(t) :=
  apply (bind_ok_intro _ _ v); [solve [t]|cbv beta].

Lemma role_byte_try r : role_try_from (role_byte r) = Ok r.
Proof. by destruct r. Qed.
Lemma direction_byte_try d : direction_try_from (direction_byte d) = Ok d.
Proof. by destruct d. Qed.
Lemma kind_byte_try k : kind_try_from (kind_byte k) = Ok k.
Proof. by destruct k. Qed.

Lemma role_try_byte v r : role_try_from v = Ok r → v = role_byte r.
Proof. unfold role_try_from. intros. repeat case_match; simplify_eq; done. Qed.
Lemma direction_try_byte v d : direction_try_from v = Ok d → v = direction_byte d.
Proof. unfold direction_try_from. intros. repeat case_match; simplify_eq; done. Qed.
Lemma kind_try_byte v k : kind_try_from v = Ok k → v = kind_byte k.
Proof. unfold kind_try_from. intros. repeat case_match; simplify_eq; done. Qed.

(** ** Hello bodies *)

Definition hello_bytes (hello : HelloIdentity) : list Z :=
  hi_nonce hello ++ [role_byte (hi_role hello)] ++ [direction_byte (hi_direction hello)]
  ++ le_bytes 2 (str_len (hi_build_claim hello)) ++ utf8_encode (hi_build_claim hello).

Lemma encode_hello hello : hello_ok hello → encode_body (HelloBody hello) = Ok (hello_bytes hello).
Proof.
  intros (_ & _ & _ & _ & Hlen). unfold encode_body, wire_try_from, hello_bytes.
  rewrite (proj2 (Z.leb_le _ _)); [done|]. unfold u16_max, WIRE_MAX_BUILD_ID_BYTES in *. lia.
Qed.

Lemma zlen_hello_bytes hello :
  hello_typed hello → zlen (hello_bytes hello) = body_len (HelloBody hello).
Proof.
  intros (Hn & _). unfold hello_bytes, body_len, str_len, HELLO_FIXED_BYTES.
  rewrite !zlen_app, Hn. unfold zlen at 1 2 3. rewrite length_le_bytes. cbn. lia.
Qed.

Lemma decode_hello_complete hello :
  hello_typed hello → hello_ok hello → decode_hello (hello_bytes hello) = Ok (HelloBody hello).
Proof.
  intros Ht Hok. pose proof (zlen_hello_bytes hello Ht) as Hz. unfold body_len in Hz.
  pose proof (zlen_nonneg (utf8_encode (hi_build_claim hello))) as Hc.
  fold (str_len (hi_build_claim hello)) in Hc.
  pose proof Hok as (_ & _ & _ & _ & Hmax). destruct Ht as (Hn & _ & Hchars).
  unfold decode_hello, WIRE_MAX_BUILD_ID_BYTES, HELLO_FIXED_BYTES in *.
  step tt by (rust_ok; lia).
  step (hi_nonce hello) by (unfold hello_bytes; read_field).
  step (role_byte (hi_role hello)) by (unfold hello_bytes; read_field).
  step (hi_role hello) by (apply role_byte_try).
  step (direction_byte (hi_direction hello)) by (unfold hello_bytes; read_field).
  step (hi_direction hello) by (apply direction_byte_try).
  step (str_len (hi_build_claim hello)) by (unfold hello_bytes; read_field).
  step (20 + str_len (hi_build_claim hello)) by (rust_ok; small).
  step tt by (rust_ok; lia).
  step (utf8_encode (hi_build_claim hello)) by
    (unfold hello_bytes; rewrite !app_assoc; apply index_range_tail;
     rewrite !zlen_app, Hn; unfold zlen; by rewrite length_le_bytes).
  step (hi_build_claim hello) by (rust_ok; by apply from_utf8_encode).
  unfold HelloIdentity_new. rewrite (proj2 (hello_validate_ok _)); by destruct hello.
Qed.

Lemma array_uint_cut k l off v :
  0 ≤ off → Forall is_byte (drop (Z.to_nat off) l) → array_uint (Z.of_nat k) l off = Ok v →
  drop (Z.to_nat off) l = le_bytes k v ++ drop (Z.to_nat (off + Z.of_nat k)) l
  ∧ 0 ≤ v < 256 ^ Z.of_nat k.
Proof.
  intros Ho Hb H. unfold array_uint in H. unbind H x Hx. simplify_eq.
  apply array_cut in Hx as [Hx Hz]; [|lia..]. rewrite Hx in Hb. apply Forall_app in Hb as [Hb _].
  assert (length x = k) as Hk by (unfold zlen in Hz; lia).
  split; [by rewrite <-Hk at 1; rewrite le_bytes_from_le|].
  apply from_le_bytes_bound in Hb. by rewrite Hz in Hb.
Qed.

Lemma index_range_tail_cut {A E} (l t : list A) off :
  @index_range A E off (zlen l) l = Ok t → t = drop (Z.to_nat off) l.
Proof.
  unfold index_range. destruct (_ && _) eqn:Hb; [|done]. intros [= <-].
  autorewrite with rust in Hb. rewrite take_ge; [done|]. rewrite length_drop. unfold zlen in *. lia.
Qed.

Lemma decode_hello_sound bytes body :
  Forall is_byte bytes → decode_hello bytes = Ok body →
  ∃ hello, body = HelloBody hello ∧ hello_typed hello ∧ hello_ok hello ∧ bytes = hello_bytes hello.
Proof.
  intros Hbytes H. unfold decode_hello in H.
  unbind H u Hlen. clear u Hlen. unbind H nonce Hnonce. unbind H role_value Hr.
  unbind H role Hrole. apply role_try_byte in Hrole. unbind H direction_value Hd.
  unbind H direction Hdir. apply direction_try_byte in Hdir. unbind H build_len Hb.
  unbind H expected He. unbind H u Hexp. unbind H build_bytes Hbb. unbind H build Hbuild.
  unbind H hello Hhello. simplify_eq. exists hello. split; [done|].
  unfold HelloIdentity_new in Hhello. unbind Hhello u' Hval. destruct u'. simplify_eq.
  apply hello_validate_ok in Hval. apply ok_or_ok, from_utf8_sound in Hbuild as [Hchars Hutf].
  apply index_range_tail_cut in Hbb. unfold HELLO_FIXED_BYTES in *. rust_inv He. rust_inv Hexp.
  apply array_cut in Hnonce as [Hn Hnz]; [|lia..]. change (0 + 16) with 16 in Hn.
  apply index_at_cut in Hr; [|lia]. change (16 + 1) with 17 in Hr.
  apply index_at_cut in Hd; [|lia]. change (17 + 1) with 18 in Hd.
  assert (bytes = nonce ++ drop (Z.to_nat 16) bytes) as Hsplit by done.
  rewrite Hr, Hd in Hsplit. pose proof Hbytes as Hpieces. rewrite Hsplit in Hpieces.
  rewrite !Forall_app in Hpieces. destruct Hpieces as (Hnb & _ & _ & Htail).
  apply (array_uint_cut 2) in Hb as [Hb _]; [|lia|done].
  change (18 + Z.of_nat 2) with 20 in Hb. rewrite Hb, <-Hutf in Hsplit.
  assert (build_len = str_len build) as ->.
  { rewrite Hsplit, !zlen_app, zlen_le_bytes in Hexp. unfold str_len. rewrite !zlen_singleton in Hexp. lia. }
  done.
Qed.

(** ** Control headers *)

Lemma land_flags flags :
  is_byte flags → Z.land flags (Z.lxor 255 ADDRESS_FLAG) = 0 → flags = Z.land flags ADDRESS_FLAG.
Proof.
  unfold is_byte. intros Hb Hz.
  assert (Z.land flags 255 = flags) as Hid.
  { change 255 with (Z.ones 8). rewrite Z.land_ones by lia. apply Z.mod_small. lia. }
  rewrite <-Hid at 1. change 255 with (Z.lor (Z.lxor 255 ADDRESS_FLAG) ADDRESS_FLAG) at 1.
  rewrite Z.land_lor_distr_r, Hz. apply Z.lor_0_l.
Qed.

Lemma encode_body_ok b :
  match b with HelloBody hello => hello_ok hello ∧ hello_typed hello | _ => True end →
  ∃ bytes, encode_body b = Ok bytes ∧ zlen bytes = body_len b.
Proof.
  destruct b as [hello|bytes]; [|by exists bytes]. intros [Hok Ht].
  exists (hello_bytes hello). split; [by apply encode_hello|by apply zlen_hello_bytes].
Qed.

Lemma zlen_encode_fixed h : zlen (encode_fixed h) = FIXED_CONTROL_BYTES.
Proof.
  unfold encode_fixed. by rewrite !zlen_app, !zlen_le_bytes, !zlen_singleton, zlen_magic.
Qed.

Lemma header_body h :
  header_typed h → header_ok h →
  ∃ body, encode_body (fh_body h) = Ok body
          ∧ zlen (encode_fixed h ++ body) = FIXED_CONTROL_BYTES + body_len (fh_body h).
Proof.
  intros (_ & _ & _ & Ht) (_ & _ & _ & Hb & _).
  destruct (encode_body_ok (fh_body h)) as (body & ? & Hz).
  { destruct (fh_body h); [|done]. by destruct Hb as (_ & ? & _). }
  exists body. rewrite zlen_app, zlen_encode_fixed, Hz. done.
Qed.

Lemma encode_control_ok h body :
  header_ok h → encode_body (fh_body h) = Ok body →
  zlen (encode_fixed h ++ body) = FIXED_CONTROL_BYTES + body_len (fh_body h) →
  encode_control h
  = Ok (le_bytes 4 (zlen (encode_fixed h ++ body)) ++ encode_fixed h ++ body).
Proof.
  intros Hok Hb Hz. pose proof Hok as (_ & _ & _ & _ & Hmax). unfold encode_control.
  pose proof (body_len_nonneg (fh_body h)).
  step tt by (by apply header_validate_ok).
  step (zlen (encode_fixed h ++ body)) by (apply control_len_ok; lia).
  unfold MAX_CONTROL_BYTES, FIXED_CONTROL_BYTES, PREFIX_BYTES in *.
  step (4 + zlen (encode_fixed h ++ body)) by (rust_ok; small).
  unfold wire_try_from. rewrite (proj2 (Z.leb_le _ _)) by (unfold u32_max; lia).
  cbn [result_bind]. by rewrite Hb.
Qed.

Lemma flag_land (o : option Z) :
  let flag := (if bool_decide (is_Some o) then 1 else 0) * ADDRESS_FLAG in
  Z.land flag (Z.lxor 255 ADDRESS_FLAG) = 0
  ∧ (negb (Z.land flag ADDRESS_FLAG =? 0)) = bool_decide (is_Some o).
Proof. by destruct o. Qed.

Lemma decode_control_complete h body :
  header_typed h → header_ok h → encode_body (fh_body h) = Ok body →
  zlen (encode_fixed h ++ body) = FIXED_CONTROL_BYTES + body_len (fh_body h) →
  decode_control (encode_fixed h ++ body) = Ok h.
Proof.
  intros Ht Hok Hb Hz. pose proof Hok as (Hv & Hraw & Haddr & Hbody & Hmax).
  pose proof (body_len_nonneg (fh_body h)). destruct Ht as (Hseq & Hr & Ha & Hbt).
  unfold decode_control. unfold FIXED_CONTROL_BYTES, MAX_CONTROL_BYTES in *.
  step tt by (rust_ok; lia).
  step tt by (unfold validate_control_len, MAX_CONTROL_BYTES; rust_ok; lia).
  unfold encode_fixed in *. rewrite <-!app_assoc in *. rewrite Hv in *.
  destruct (flag_land (fh_raw_address h)) as [Hres Hflag]. cbv zeta in Hres, Hflag.
  step MAGIC by (idtac; read_field). step tt by rust_ok.
  step WIRE_PROTOCOL_MAJOR by (idtac; read_field). step WIRE_PROTOCOL_MINOR by (idtac; read_field).
  step (fh_sequence h) by (idtac; read_field).
  step (fh_sequence h) by (unfold FrameSequence_new; by destruct (Z.eqb_spec (fh_sequence h) 0); [lia|]).
  step (kind_byte (fh_kind h)) by (idtac; read_field). step (fh_kind h) by (apply kind_byte_try).
  step ((if bool_decide (is_Some (fh_raw_address h)) then 1 else 0) * ADDRESS_FLAG) by (idtac; read_field).
  rewrite Hres, Hflag. cbn [Z.eqb negb].
  step false by (step 0 by (idtac; read_field); done). step tt by done.
  step (fh_raw_len h) by (idtac; read_field).
  assert (in_u64 (default 0 (fh_raw_address h))) as Hd.
  { destruct (fh_raw_address h) as [a|]; [by apply Ha|]. unfold in_u64, u64_max. cbn. lia. }
  step (default 0 (fh_raw_address h)) by (idtac; read_field).
  step (fh_raw_address h) by (by destruct (fh_raw_address h)).
  step body by (rewrite !app_assoc; apply index_range_tail;
                by rewrite !zlen_app, !zlen_le_bytes, !zlen_singleton, zlen_magic).
  step (fh_body h) by
    (destruct (fh_body h) as [hello|bytes]; [destruct Hbody as (-> & Hh & _)|rewrite Hbody; by cbn in Hb; simplify_eq];
     rewrite encode_hello in Hb by done; simplify_eq; by apply decode_hello_complete).
  change (mkWireVersion WIRE_PROTOCOL_MAJOR WIRE_PROTOCOL_MINOR) with WireProtocolVersion_current.
  rewrite <-Hv. rewrite (proj2 (header_validate_ok _)); destruct h; done.
Qed.

Lemma from_flags flags address (o : option Z) :
  is_byte flags → Z.land flags (Z.lxor 255 ADDRESS_FLAG) = 0 →
  (if negb (Z.land flags ADDRESS_FLAG =? 0) then Ok (Some address)
   else if address =? 0 then Ok None
   else Err (WE.Malformed "noncanonical absent address")) = Ok o →
  flags = (if bool_decide (is_Some o) then 1 else 0) * ADDRESS_FLAG ∧ address = default 0 o.
Proof.
  intros Hb Hz Ho. pose proof (land_flags flags Hb Hz) as Hf.
  assert (Z.land flags ADDRESS_FLAG = flags mod 2) as Hmod.
  { change ADDRESS_FLAG with (Z.ones 1). by rewrite Z.land_ones by lia. }
  pose proof (Z.mod_pos_bound flags 2). unfold ADDRESS_FLAG in *.
  destruct (Z.eqb_spec (Z.land flags 1) 0); cbn in Ho.
  - destruct (Z.eqb_spec address 0); simplify_eq. cbn. lia.
  - simplify_eq. cbn. lia.
Qed.

(** Cuts the field that [H] says was read off the string, with the offset after it
    computed. *)
Ltac next_offset H :=
  match type of H with
  | context [drop (Z.to_nat (?a + ?b)) _] =>
      let v := eval vm_compute in (a + b) in change (a + b) with v in H
  end.
Ltac cut_uint k H B :=
  apply (array_uint_cut k) in H as [H B]; [|lia|by apply Forall_drop]; next_offset H.
Ltac cut_byte H := apply index_at_cut in H; [|lia]; next_offset H.

Lemma decode_control_sound control h :
  Forall is_byte control → decode_control control = Ok h →
  header_typed h ∧ header_ok h
  ∧ ∃ body, encode_body (fh_body h) = Ok body ∧ control = encode_fixed h ++ body.
Proof.
  intros Hbytes H. unfold decode_control, FIXED_CONTROL_BYTES in H. unbind H u Hlen. unbind H u' Hlen'.
  unbind H magic Hmagic. unbind H u'' Hm. unbind H major Hmajor. unbind H minor Hminor.
  unbind H sequence_value Hsv. unbind H sequence Hseq. unbind H kind_value Hkv.
  unbind H kind Hkind. unbind H flags Hflags. unbind H reserved Hres. unbind H u''' Hnores.
  unbind H raw_len Hraw. unbind H address Haddr. unbind H raw_address Hra. unbind H bytes Htail.
  unbind H body Hbody. unbind H v Hval. destruct v.
  apply header_validate_ok in Hval. apply kind_try_byte in Hkind.
  injection H as <-.
  apply fail_if_ok, negb_false_iff, bool_decide_eq_true in Hm as ->.
  apply fail_if_ok in Hnores as ->. apply index_range_tail_cut in Htail.
  assert (Z.land flags (Z.lxor 255 ADDRESS_FLAG) = 0 ∧ array_uint 2 control 18 = Ok 0) as [Hland Hzero].
  { destruct (Z.eqb_spec (Z.land flags (Z.lxor 255 ADDRESS_FLAG)) 0); cbn in Hres; [|done].
    unbind Hres bits Hbits. injection Hres as Hzero. autorewrite with rust in Hzero. by subst. }
  apply array_cut in Hmagic as [Hc0 _]; [|lia..]. next_offset Hc0.
  cut_uint 2%nat Hmajor Bmajor. cut_uint 2%nat Hminor Bminor. cut_uint 8%nat Hsv Bseq.
  cut_byte Hkv. cut_byte Hflags. cut_uint 2%nat Hzero Bzero. cut_uint 4%nat Hraw Braw.
  cut_uint 8%nat Haddr Baddr.
  assert (is_byte flags) as Bflags.
  { eapply Forall_inv. rewrite <-app_comm_cons in Hflags. rewrite <-Hflags. by apply Forall_drop. }
  destruct (from_flags _ _ _ Bflags Hland Hra) as [-> ->].
  unfold FrameSequence_new in Hseq. destruct (Z.eqb_spec sequence_value 0); [done|]. injection Hseq as <-.
  subst bytes.
  assert (body_typed body ∧ encode_body body = Ok (drop (Z.to_nat 32) control)) as [Ht Hb].
  { destruct (is_hello_kind kind).
    - apply decode_hello_sound in Hbody as (hello & -> & ? & ? & Heq); [|by apply Forall_drop].
      split; [done|]. rewrite Heq. by apply encode_hello.
    - simplify_eq. split; [by apply Forall_drop|done]. }
  split_and!; [|done|].
  - change (256 ^ Z.of_nat 8) with (2 ^ 64) in *. change (256 ^ Z.of_nat 4) with (2 ^ 32) in *.
    unfold header_typed, in_u32, in_u64, u64_max, u32_max. cbn [fh_sequence fh_raw_len fh_raw_address fh_body].
    split; [lia|]. split; [lia|]. split; [|done]. intros a ->. cbn in Baddr. lia.
  - exists (drop (Z.to_nat 32) control). split; [done|].
    unfold encode_fixed. cbn [fh_version fh_sequence fh_kind fh_raw_len fh_raw_address wv_major wv_minor].
    rewrite <-!app_assoc.
    transitivity (drop (Z.to_nat 0) control); [done|].
    by rewrite Hc0, Hmajor, Hminor, Hsv, Hkv, Hkind, Hflags, Hzero, Hraw, Haddr.
Qed.

(** ** No input panics the decoder *)

Lemma no_panic_index_at {A E} i (l : list A) : 0 ≤ i < zlen l → no_panic (@index_at A E i l).
Proof.
  intros Hi p. unfold index_at. destruct (lookup_lt_is_Some_2 l (Z.to_nat i)) as [x ->]; [|done].
  unfold zlen in Hi. lia.
Qed.

Lemma no_panic_index_range {A E} start end_ (l : list A) :
  start ≤ end_ ≤ zlen l → no_panic (@index_range A E start end_ l).
Proof. intros [? ?] p. unfold index_range. by rewrite !(proj2 (Z.leb_le _ _)). Qed.

Lemma no_panic_array n l off : no_panic (array n l off).
Proof. unfold array. no_panic. Qed.
Lemma no_panic_array_uint n l off : no_panic (array_uint n l off).
Proof. unfold array_uint. apply no_panic_bind; [apply no_panic_array|no_panic]. Qed.
Lemma no_panic_header_validate h : no_panic (header_validate h).
Proof.
  unfold header_validate, wire_version_validate, control_len, validate_control_len, hello_validate,
    validate_build_claim. no_panic.
Qed.
#[local] Hint Resolve no_panic_array no_panic_array_uint no_panic_header_validate : nopanic.

Lemma no_panic_decode_hello bytes : no_panic (decode_hello bytes).
Proof.
  unfold decode_hello, HelloIdentity_new, hello_validate, validate_build_claim, role_try_from,
    direction_try_from.
  apply no_panic_bind; [no_panic|]. intros [] Hlen%fail_if_ok%Z.ltb_ge.
  unfold HELLO_FIXED_BYTES in *.
  assert (no_panic (@index_at Z WireError 16 bytes)) by (apply no_panic_index_at; lia).
  assert (no_panic (@index_at Z WireError 17 bytes)) by (apply no_panic_index_at; lia).
  assert (no_panic (@index_range Z WireError 20 (zlen bytes) bytes)) by (apply no_panic_index_range; lia).
  no_panic.
Qed.
#[local] Hint Resolve no_panic_decode_hello : nopanic.

Lemma no_panic_decode_control control : no_panic (decode_control control).
Proof.
  unfold decode_control, validate_control_len, FrameSequence_new, kind_try_from.
  apply no_panic_bind; [no_panic|]. intros [] Hlen%fail_if_ok%Z.ltb_ge.
  unfold FIXED_CONTROL_BYTES in *.
  assert (no_panic (@index_at Z WireError 16 control)) by (apply no_panic_index_at; lia).
  assert (no_panic (@index_at Z WireError 17 control)) by (apply no_panic_index_at; lia).
  assert (no_panic (@index_range Z WireError 32 (zlen control) control)) by (apply no_panic_index_range; lia).
  no_panic.
Qed.

(** ** Frames *)

(** The next frame of a stream is newer than the last one observed. *)
Definition newer (last : SequenceTracker) (sequence : Z) : Prop :=
  match last with Some previous => previous < sequence | None => True end.

Lemma frame_len_ok h body :
  header_typed h → header_ok h → encode_body (fh_body h) = Ok body →
  zlen (encode_fixed h ++ body) = FIXED_CONTROL_BYTES + body_len (fh_body h) →
  frame_len h = Ok (4 + zlen (encode_fixed h ++ body) + fh_raw_len h).
Proof.
  intros (_ & Hr & _) (_ & _ & _ & _ & Hmax) Hb Hz. pose proof (body_len_nonneg (fh_body h)).
  assert (control_len h = Ok (zlen (encode_fixed h ++ body))) as Hlen by (apply control_len_ok; lia).
  unfold frame_len, wire_try_from, in_u32, u32_max, MAX_CONTROL_BYTES, FIXED_CONTROL_BYTES, PREFIX_BYTES in *.
  rewrite (proj2 (Z.leb_le _ _)) by small. cbn [result_bind]. rewrite Hlen. cbn [result_bind].
  set (n := zlen _) in *. clearbody n. unfold checked_add at 2.
  rewrite (proj2 (Z.leb_le _ _)) by small. cbn [mbind option_bind]. unfold checked_add.
  by rewrite (proj2 (Z.leb_le _ _)) by small.
Qed.

Lemma observe_newer last sequence : newer last sequence → observe sequence last = (Ok tt, Some sequence).
Proof.
  intros Hn. unfold observe, sbind, sread, supd. destruct last as [previous|]; [|done].
  cbn in Hn. by rewrite (proj2 (Z.leb_gt _ _)).
Qed.

Lemma observe_cases sequence last :
  (newer last sequence ∧ observe sequence last = (Ok tt, Some sequence))
  ∨ ∃ e, observe sequence last = (Err e, last).
Proof.
  unfold observe, sbind, sread, supd. destruct last as [previous|]; [|by left].
  destruct (Z.leb_spec sequence previous); cbn; [right; by eexists|by left].
Qed.

Lemma sbind_slift_ok {S E A B} (r : result A E) (k : A → smonad S E B) a s :
  r = Ok a → sbind (slift r) k s = k a s.
Proof. by intros ->. Qed.

Lemma index_range_here {A E} (a l : list A) n :
  zlen a = n → @index_range A E 0 n (a ++ l) = Ok a.
Proof.
  intros <-. pose proof (zlen_nonneg a). pose proof (zlen_nonneg l). unfold index_range.
  rewrite zlen_app, !(proj2 (Z.leb_le _ _)) by lia. cbn [andb].
  rewrite Z.sub_0_r. change (Z.to_nat 0) with O. by rewrite drop_0, take_app_here.
Qed.

Lemma index_range_as_get {A E} start end_ (l : list A) :
  @index_range A E start end_ l
  = expect_some (slice_get start end_ l) "range end index out of range for slice".
Proof. unfold index_range, slice_get. by destruct (_ && _). Qed.

Lemma index_range_skip {A E} (a l : list A) start end_ :
  zlen a ≤ start →
  @index_range A E start end_ (a ++ l) = index_range (start - zlen a) (end_ - zlen a) l.
Proof. intros Ha. by rewrite !index_range_as_get, slice_get_skip. Qed.

Tactic Notation "sstep" uconstr(v) "by" tactic3(t) :=
  rewrite (sbind_slift_ok _ _ v) by (solve [t]); cbv beta.

Lemma decode_frame_complete last h raw rest body :
  header_typed h → header_ok h → encode_body (fh_body h) = Ok body →
  zlen (encode_fixed h ++ body) = FIXED_CONTROL_BYTES + body_len (fh_body h) →
  zlen raw = fh_raw_len h → newer last (fh_sequence h) →
  let control := encode_fixed h ++ body in
  decode_frame (le_bytes 4 (zlen control) ++ control ++ raw ++ rest) last
  = (Ok (mkDecodedFrame h raw (4 + zlen control + fh_raw_len h)), Some (fh_sequence h)).
Proof.
  intros Ht Hok Hb Hz Hraw Hnew control. pose proof (body_len_nonneg (fh_body h)).
  pose proof Hok as (_ & Hrl & _ & _ & Hmax). pose proof Ht as (_ & Hr & _).
  pose proof (decode_control_complete h body Ht Hok Hb Hz) as Hdec. fold control in Hz, Hdec.
  unfold MAX_CONTROL_BYTES, FIXED_CONTROL_BYTES, MAX_RAW_BYTES, in_u32 in *.
  set (n := zlen control) in *. assert (zlen control = n) as Hn by done. clearbody control n.
  pose proof (zlen_nonneg rest). unfold decode_frame, PREFIX_BYTES.
  assert (zlen (le_bytes 4 n ++ control ++ raw ++ rest) = 4 + n + fh_raw_len h + zlen rest) as Hall
    by (rewrite !zlen_app, zlen_le_bytes; lia).
  sstep tt by (rust_ok; lia).
  sstep n by (apply array_uint_here; [done|lia|bounded]).
  sstep n by (unfold wire_try_from; rewrite (proj2 (Z.leb_le _ _)); [done|small]).
  sstep tt by (unfold validate_control_len, MAX_CONTROL_BYTES; rust_ok; lia).
  sstep (4 + n) by (rust_ok; small).
  sstep tt by (rust_ok; lia).
  sstep control by (rewrite index_range_skip by (rewrite zlen_le_bytes; lia); rewrite zlen_le_bytes;
                    change (4 - Z.of_nat 4) with 0; apply index_range_here; lia).
  sstep h by exact Hdec.
  sstep (fh_raw_len h) by (unfold wire_try_from; rewrite (proj2 (Z.leb_le _ _)); [done|small]).
  sstep (4 + n + fh_raw_len h) by (rust_ok; small).
  sstep tt by (rust_ok; lia).
  unfold sbind at 1. rewrite observe_newer by done.
  sstep raw by (rewrite app_assoc; rewrite index_range_skip by (rewrite zlen_app, zlen_le_bytes; lia);
                rewrite zlen_app, zlen_le_bytes, Hn; replace (4 + n - _) with 0 by lia;
                apply index_range_here; lia).
  done.
Qed.

(** Takes one pure step of a stateful decoder that succeeded. *)
Lemma sbind_slift_inv {S E A B} (r : result A E) (k : A → smonad S E B) b s s' :
  sbind (slift r) k s = (Ok b, s') → ∃ a, r = Ok a ∧ k a s = (Ok b, s').
Proof. unfold sbind, slift. destruct r; naive_solver. Qed.
Ltac sunbind H x Hx := apply sbind_slift_inv in H as (x & Hx & H).

Lemma index_range_cut {A E} start end_ (l t : list A) :
  0 ≤ start → @index_range A E start end_ l = Ok t →
  drop (Z.to_nat start) l = t ++ drop (Z.to_nat end_) l ∧ zlen t = end_ - start.
Proof.
  intros Hs. unfold index_range. destruct (_ && _) eqn:Hb; [|done]. intros [= <-].
  autorewrite with rust in Hb. destruct Hb. split.
  - rewrite <-(take_drop (Z.to_nat (end_ - start)) (drop (Z.to_nat start) l)) at 1.
    rewrite drop_drop. do 3 f_equal. lia.
  - unfold zlen in *. rewrite length_take, length_drop. lia.
Qed.

Definition frame_wf (f : DecodedFrame) : Prop :=
  header_typed (df_header f) ∧ header_ok (df_header f) ∧ zlen (df_raw f) = fh_raw_len (df_header f).

Lemma decode_frame_sound last bytes f last' :
  Forall is_byte bytes → decode_frame bytes last = (Ok f, last') →
  frame_wf f ∧ newer last (fh_sequence (df_header f)) ∧ last' = Some (fh_sequence (df_header f))
  ∧ ∃ control rest, encode_control (df_header f) = Ok control ∧ bytes = control ++ df_raw f ++ rest
                    ∧ df_consumed f = zlen (control ++ df_raw f).
Proof.
  intros Hbytes H. unfold decode_frame, PREFIX_BYTES in H. sunbind H u Hu. clear u Hu.
  sunbind H n Hn. sunbind H n' Hn'. sunbind H u Hlen. sunbind H control_end He. sunbind H u' Hu'.
  sunbind H control Hc. sunbind H h Hh. sunbind H raw_len Hrl. sunbind H tot Htot.
  sunbind H u'' Hu''. unfold sbind at 1 in H.
  destruct (observe_cases (fh_sequence h) last) as [[Hnew Heq]|[e Heq]]; rewrite Heq in H; [|done].
  sunbind H raw Hraw. unfold sret in H. simplify_eq. cbn [df_header df_raw df_consumed].
  unfold wire_try_from in *. destruct (_ <=? _) in Hn'; simplify_eq. destruct (_ <=? _) in Hrl; simplify_eq.
  apply ok_or_ok, checked_add_some in He as [-> _]. apply ok_or_ok, checked_add_some in Htot as [-> _].
  apply (array_uint_cut 4) in Hn as [Hn Bn]; [|lia|done]. change (0 + Z.of_nat 4) with 4 in Hn.
  apply index_range_cut in Hc as [Hc Hcz]; [|lia]. apply index_range_cut in Hraw as [Hr Hrz]; [|lia].
  change (drop (Z.to_nat 0) bytes) with bytes in Hn. rewrite Hc, Hr in Hn.
  assert (Forall is_byte control) as Hcb.
  { rewrite Hn in Hbytes. rewrite !Forall_app in Hbytes. by destruct Hbytes as (_ & ? & _). }
  destruct (decode_control_sound _ _ Hcb Hh) as (Ht & Hok & body & Hb & ->).
  unfold frame_wf. cbn [df_header df_raw]. split_and!; [done|done|lia|done|done|].
  destruct (header_body h Ht Hok) as (body' & Hb' & Hz). rewrite Hb in Hb'. simplify_eq.
  exists (le_bytes 4 (zlen (encode_fixed h ++ body')) ++ encode_fixed h ++ body'), (drop (Z.to_nat (4 + n' + fh_raw_len h)) bytes).
  split_and!; [by apply encode_control_ok| |].
  - rewrite Hcz. replace (4 + n' - 4) with n' by lia. by rewrite <-!app_assoc in *.
  - rewrite (zlen_app _ raw), (zlen_app (le_bytes _ _)), zlen_le_bytes. lia.
Qed.

Lemma wp_slift {S E A B} (r : result A E) (k : A → smonad S E B) Q (QE : E → S → Prop) s :
  no_panic r → (∀ e, QE e s) → (∀ a, r = Ok a → wp (k a) Q QE s) → wp (sbind (slift r) k) Q QE s.
Proof. unfold wp, sbind, slift, no_panic. destruct r; naive_solver. Qed.

(** A frame that is refused leaves the order of frames as it was. *)
Lemma decode_frame_refuses bytes last :
  Forall is_byte bytes → wp (decode_frame bytes) (λ _ _, True) (λ _ last', last' = last) last.
Proof.
  intros Hbytes. unfold decode_frame, PREFIX_BYTES, wire_try_from, validate_control_len.
  apply wp_slift; [no_panic|done|intros [] Hlen%fail_if_ok%Z.ltb_ge].
  apply wp_slift; [apply no_panic_array_uint|done|intros n Hn].
  apply (array_uint_cut 4) in Hn as [Hn Bn]; [|lia|done].
  apply wp_slift; [no_panic|done|intros n' Hn'].
  assert (n' = n) as -> by (by destruct (n <=? usize_max); simplify_eq).
  apply wp_slift; [no_panic|done|intros [] Hmax].
  apply wp_slift; [no_panic|done|intros control_end [-> _]%ok_or_ok%checked_add_some].
  apply wp_slift; [no_panic|done|intros [] Hend%fail_if_ok%Z.ltb_ge].
  apply wp_slift; [apply no_panic_index_range; lia|done|intros control Hc].
  apply wp_slift; [apply no_panic_decode_control|done|intros h Hh].
  assert (Forall is_byte control) as Hcb.
  { apply index_range_cut in Hc as [Hc _]; [|lia].
    apply (Forall_drop _ (Z.to_nat 4)) in Hbytes. rewrite Hc in Hbytes. by apply Forall_app in Hbytes as [? _]. }
  destruct (decode_control_sound _ _ Hcb Hh) as ((_ & [Hr _] & _) & _ & _).
  apply wp_slift; [no_panic|done|intros r Hrl].
  assert (r = fh_raw_len h) as -> by (by destruct (fh_raw_len h <=? usize_max); simplify_eq).
  apply wp_slift; [no_panic|done|intros tot [-> _]%ok_or_ok%checked_add_some].
  apply wp_slift; [no_panic|done|intros [] Htot%fail_if_ok%Z.ltb_ge].
  unfold wp, sbind. destruct (observe_cases (fh_sequence h) last) as [[_ ->]|[e ->]]; [|done].
  unfold slift. rewrite index_range_as_get. unfold slice_get.
  by rewrite !(proj2 (Z.leb_le _ _)) by lia.
Qed.

(** C32: the frame codec is exact.  A header that validates is encoded, and the
    encoding followed by its payload and by anything else decodes to that header,
    that payload and the length of the two; and any bytes that decode are exactly
    such an encoding, so no two byte strings carry the same frame and none is
    misread.  A frame that is older than the last, or malformed, is refused without
    a panic and without changing the expected order. *)
Theorem frame_codec_exact (last : SequenceTracker) :
  (∀ h raw rest, header_typed h → header_validate h = Ok tt → zlen raw = fh_raw_len h →
     newer last (fh_sequence h) →
     ∃ control, encode_control h = Ok control ∧ frame_len h = Ok (zlen (control ++ raw))
       ∧ decode_frame (control ++ raw ++ rest) last
         = (Ok (mkDecodedFrame h raw (zlen (control ++ raw))), Some (fh_sequence h)))
  ∧ ∀ bytes, Forall is_byte bytes →
    match decode_frame bytes last with
    | (Ok f, last') =>
        frame_wf f ∧ newer last (fh_sequence (df_header f)) ∧ last' = Some (fh_sequence (df_header f))
        ∧ ∃ control rest, encode_control (df_header f) = Ok control
            ∧ bytes = control ++ df_raw f ++ rest ∧ df_consumed f = zlen (control ++ df_raw f)
    | (Err _, last') => last' = last
    | (Panic _, _) => False
    end.
Proof.
  split.
  - intros h raw rest Ht Hok%header_validate_ok Hraw Hnew.
    destruct (header_body h Ht Hok) as (body & Hb & Hz). eexists.
    split; [by apply encode_control_ok|].
    assert (zlen ((le_bytes 4 (zlen (encode_fixed h ++ body)) ++ encode_fixed h ++ body) ++ raw)
            = 4 + zlen (encode_fixed h ++ body) + fh_raw_len h) as ->
      by (rewrite (zlen_app _ raw), (zlen_app (le_bytes _ _)), zlen_le_bytes; lia).
    split; [by apply frame_len_ok|].
    rewrite <-(app_assoc (le_bytes _ _)). by apply decode_frame_complete.
  - intros bytes Hbytes. pose proof (decode_frame_refuses bytes last Hbytes) as Hwp. unfold wp in Hwp.
    destruct (decode_frame bytes last) as [[f|e|p] last'] eqn:Hd; [|done..].
    by apply (decode_frame_sound last bytes).
Qed.
