(* ===== verification/HostChannelTheory.v ===== *)
(** Theorems about a host channel: the incremental header decoder computes what
    the one-shot decoder computes however the bytes are cut, and the handshake
    that opens the channel. *)

From S2P Require Import Prelude Utf8 HostWire HostWireTheory.
Open Scope Z_scope.

(** ** The incremental decoder *)

(** What a stream says about its first header: nothing yet, an error, or the
    header and where it ends. *)
Definition declared (bytes : list Z) : Z := from_le_bytes (take 4 bytes).

Definition stream_header (bytes : list Z) : result (option (FrameHeader * Z)) WireError :=
  if zlen bytes <? 4 then Ok None
  else
    do? validate_control_len (declared bytes) in
    if zlen bytes <? 4 + declared bytes then Ok None
    else
      let? h := decode_control (take (Z.to_nat (declared bytes)) (drop 4 bytes)) in
      Ok (Some (h, 4 + declared bytes)).

(** Pushes the pieces one after the other until a header is complete. *)
Fixpoint push_all (chunks : list (list Z)) (offset : Z) (d : HeaderDecoder)
    : result (option (FrameHeader * Z)) WireError * HeaderDecoder :=
  match chunks with
  | [] => (Ok None, d)
  | chunk :: chunks' =>
      match decoder_push chunk d with
      | (Ok (n, Some h), d') => (Ok (Some (h, offset + n)), d')
      | (Ok (n, None), d') => push_all chunks' (offset + n) d'
      | (Err e, d') => (Err e, d')
      | (Panic p, d') => (Panic p, d')
      end
  end.

(** The decoder after the bytes [pre], in its prefix and past it. *)
Definition in_prefix (pre : list Z) (d : HeaderDecoder) : Prop :=
  zlen pre < 4 ∧ length (hd_prefix d) = 4%nat ∧ take (length pre) (hd_prefix d) = pre
  ∧ hd_prefix_used d = zlen pre ∧ hd_expected d = None ∧ hd_control d = [] ∧ hd_done d = false.

Definition in_control (pre : list Z) (d : HeaderDecoder) : Prop :=
  4 ≤ zlen pre < 4 + declared pre ∧ validate_control_len (declared pre) = Ok tt
  ∧ d = mkHeaderDecoder (take 4 pre) 4 (Some (declared pre)) (drop 4 pre) false.

Definition buffered (pre : list Z) (d : HeaderDecoder) : Prop := in_prefix pre d ∨ in_control pre d.

Lemma declared_app q rest : 4 ≤ zlen q → declared (q ++ rest) = declared q.
Proof. intros Hq. unfold declared. rewrite take_app_le; [done|]. unfold zlen in Hq. lia. Qed.

Lemma validate_len_bounds n : validate_control_len n = Ok tt → n ≠ 0 ∧ n ≤ MAX_CONTROL_BYTES.
Proof. unfold validate_control_len. intros H. rust_inv H. done. Qed.

Lemma no_panic_validate_len n : no_panic (validate_control_len n).
Proof. unfold validate_control_len. no_panic. Qed.

Lemma push_prefix_short pre c d :
  in_prefix pre d → zlen (pre ++ c) < 4 →
  ∃ d', push_prefix c d = (Ok (zlen c, false), d') ∧ in_prefix (pre ++ c) d'.
Proof.
  intros (Hpre & Hlen & Htake & Hused & Hexp & Hctl & Hdone) Hs. rewrite zlen_app in Hs.
  pose proof (zlen_nonneg c). unfold push_prefix, sbind, sget, supd, sret, PREFIX_BYTES.
  rewrite Hused, (proj2 (Z.ltb_lt _ _)) by lia. rewrite (Z.min_r _ (zlen c)) by lia.
  rewrite (proj2 (Z.ltb_lt _ _)) by lia. eexists. split; [done|].
  unfold in_prefix. cbn [hd_prefix hd_prefix_used hd_expected hd_control hd_done].
  rewrite !zlen_app. unfold zlen in *. rewrite !Nat2Z.id. replace (Z.to_nat (_ + _)) with (length pre + length c)%nat by lia.
  rewrite Htake, take_ge, !length_app, length_drop, Hlen by lia.
  split_and!; [lia|lia| |done..].
  rewrite app_assoc. by rewrite <-length_app, take_app_length.
Qed.

Lemma declared_bound bytes : Forall is_byte bytes → 0 ≤ declared bytes ≤ u32_max.
Proof.
  intros Hb. apply (Forall_take _ 4), from_le_bytes_bound in Hb. unfold declared, u32_max.
  assert (zlen (take 4 bytes) ≤ 4) by (unfold zlen; rewrite length_take; lia).
  assert (256 ^ zlen (take 4 bytes) ≤ 256 ^ 4) by (apply Z.pow_le_mono_r; lia).
  change (2 ^ 32) with (256 ^ 4). lia.
Qed.

Lemma push_prefix_full pre c d :
  in_prefix pre d → 4 ≤ zlen (pre ++ c) → Forall is_byte (pre ++ c) →
  let k := 4 - zlen pre in
  (∃ e d', validate_control_len (declared (pre ++ c)) = Err e ∧ push_prefix c d = (Err e, d')
             ∧ hd_done d' = false)
  ∨ ∃ d', push_prefix c d = (Ok (k, true), d') ∧ in_control (pre ++ take (Z.to_nat k) c) d'.
Proof.
  intros (Hpre & Hlen & Htake & Hused & Hexp & Hctl & Hdone) Hs Hb k. rewrite zlen_app in Hs.
  set (q := pre ++ take (Z.to_nat k) c).
  assert (length q = 4%nat) as Hq by (unfold q, k, zlen in *; rewrite length_app, length_take; lia).
  assert (declared (pre ++ c) = from_le_bytes q) as Hdec.
  { unfold declared, q. rewrite take_app, (take_ge pre) by (unfold zlen in *; lia).
    by replace (4 - length pre)%nat with (Z.to_nat k) by (unfold k, zlen; lia). }
  assert (declared q = from_le_bytes q) as Hdecq by (unfold declared; by rewrite take_ge by lia).
  pose proof (declared_bound _ Hb) as Hbound. rewrite Hdec in *.
  unfold push_prefix, sbind, sget, supd, sret, sread, slift, PREFIX_BYTES, wire_try_from.
  rewrite Hused, (proj2 (Z.ltb_lt _ _)) by lia. rewrite (Z.min_l _ (zlen c)) by lia. fold k.
  rewrite (proj2 (Z.ltb_ge _ _)) by (unfold k; lia). cbn [hd_prefix].
  replace (Z.to_nat (zlen pre)) with (length pre) by (unfold zlen; lia). rewrite Htake.
  rewrite (drop_ge (hd_prefix d)) by (unfold k; lia). rewrite app_nil_r. fold q.
  rewrite (proj2 (Z.leb_le _ _)) by (unfold u32_max in *; small).
  destruct (validate_control_len (from_le_bytes q)) as [[]|e|] eqn:Hv; [right|left; by eexists _, _; split_and!|].
  - eexists. split; [done|]. pose proof (validate_len_bounds _ Hv). unfold in_control.
    rewrite Hdecq, Hv, take_ge, drop_ge, Hdone by lia. unfold zlen. rewrite Hq. split_and!; [lia..|done|].
    cbn [hd_prefix hd_prefix_used hd_done]. f_equal. unfold k, zlen. lia.
  - by apply no_panic_validate_len in Hv.
Qed.

(** One push past the prefix, with [rest] what is left of the input. *)
Lemma stream_header_control q rest d :
  in_control q d → 
  let n := declared q in
  stream_header (q ++ rest)
  = (if zlen rest <? 4 + n - zlen q then Ok None
     else let? h := decode_control (drop 4 q ++ take (Z.to_nat (4 + n - zlen q)) rest) in
          Ok (Some (h, 4 + n))).
Proof.
  intros (Hq & Hv & _) n. unfold stream_header. rewrite declared_app by lia.
  pose proof (zlen_nonneg rest). rewrite zlen_app, (proj2 (Z.ltb_ge _ 4)) by lia. fold n in Hq, Hv |- *.
  rewrite Hv. cbn [result_bind].
  destruct (Z.ltb_spec (zlen q + zlen rest) (4 + n)), (Z.ltb_spec (zlen rest) (4 + n - zlen q)); [done|lia..|].
  unfold zlen in *. rewrite drop_app_le, take_app, (take_ge (drop 4 q)), length_drop by (rewrite ?length_drop; lia).
  by replace (Z.to_nat n - (length q - 4))%nat with (Z.to_nat (4 + n - Z.of_nat (length q))) by lia.
Qed.

Definition agrees (pre : list Z) (c : list Z) (r : result (Z * option FrameHeader) WireError * HeaderDecoder) : Prop :=
  match stream_header (pre ++ c) with
  | Ok None => r.1 = Ok (zlen c, None) ∧ buffered (pre ++ c) r.2
  | Ok (Some (h, end_)) => r.1 = Ok (end_ - zlen pre, Some h) ∧ hd_done r.2 = true
  | Err e => r.1 = Err e ∧ hd_done r.2 = false
  | Panic _ => False
  end.

Lemma push_control_exact q pre c k d :
  in_control q d → Forall is_byte (pre ++ c) → 0 ≤ k ≤ zlen c → q = pre ++ take (Z.to_nat k) c →
  agrees pre c (push_control c k d).
Proof.
  intros Hq Hb Hk Heq. set (rest := drop (Z.to_nat k) c).
  assert (pre ++ c = q ++ rest) as Hall by (unfold rest; by rewrite Heq, <-app_assoc, take_drop).
  unfold agrees. rewrite Hall, (stream_header_control q rest d Hq).
  pose proof Hq as (Hlen & Hv & ->). set (n := declared q) in *.
  assert (zlen q = zlen pre + k) as Hqz.
  { rewrite Heq, zlen_app. unfold zlen in *. rewrite length_take. lia. }
  assert (zlen rest = zlen c - k) as Hrz by (unfold rest, zlen in *; rewrite length_drop; lia).
  assert (zlen (drop 4 q) = zlen q - 4) as Hdz by (unfold zlen in *; rewrite length_drop; lia).
  unfold push_control, sbind, sread, slift, supd, sget, sret. cbn [hd_expected hd_control ok_or].
  unfold plain_sub. rewrite Hdz, !(proj2 (Z.leb_le _ _)) by lia.
  set (taken := Z.min (n - (zlen q - 4)) (zlen c - k)).
  assert (index_range k (k + taken) c = @Ok (list Z) WireError (take (Z.to_nat taken) rest)) as ->.
  { unfold index_range. rewrite !(proj2 (Z.leb_le _ _)) by lia. cbn [andb].
    by replace (k + taken - k) with taken by lia. }
  cbn [hd_prefix hd_prefix_used hd_expected hd_control hd_done].
  assert (zlen (drop 4 q ++ take (Z.to_nat taken) rest) = zlen q - 4 + taken) as ->.
  { rewrite zlen_app, Hdz. unfold zlen in *. rewrite length_take. lia. }
  destruct (Z.ltb_spec (zlen rest) (4 + n - zlen q)) as [Hshort|Hfull].
  - rewrite (proj2 (Z.eqb_neq _ _)) by lia. split; [cbn; do 2 f_equal; lia|]. right.
    assert (taken = zlen rest) as -> by lia.
    unfold in_control. rewrite declared_app, zlen_app by lia. fold n. split_and!; [lia..|done|].
    cbn [snd]. f_equal; [|].
    + rewrite take_app_le; [done|unfold zlen in *; lia].
    + rewrite drop_app_le by (unfold zlen in *; lia). f_equal. apply take_ge. unfold zlen. lia.
  - rewrite (proj2 (Z.eqb_eq _ _)) by lia. assert (taken = 4 + n - zlen q) as -> by lia.
    destruct (decode_control _) as [h|e|p] eqn:Hd; cbn; [|done|by apply no_panic_decode_control in Hd].
    split; [do 2 f_equal; lia|done].
Qed.

Lemma decoder_push_exact pre c d :
  buffered pre d → Forall is_byte (pre ++ c) → agrees pre c (decoder_push c d).
Proof.
  intros Hbuf Hb. pose proof (zlen_nonneg c). unfold decoder_push, sbind at 1, sread.
  assert (hd_done d = false) as ->.
  { by destruct Hbuf as [(_ & _ & _ & _ & _ & _ & ?)|(_ & _ & ->)]. }
  cbn [fail_if]. unfold sbind at 1. destruct Hbuf as [Hp|Hc].
  - destruct (Z.ltb_spec (zlen (pre ++ c)) 4) as [Hs|Hs].
    + destruct (push_prefix_short pre c d Hp Hs) as (d' & -> & Hp'). cbn.
      unfold agrees, stream_header. rewrite (proj2 (Z.ltb_lt _ _)) by done. split; [done|by left].
    + pose proof Hp as (Hpl & _). rewrite zlen_app in Hs. pose proof (zlen_nonneg pre).
      destruct (push_prefix_full pre c d Hp) as [(e & d' & Hv & -> & ?)|(d' & -> & Hq)]; [rewrite zlen_app; lia|done|..].
      * unfold agrees, stream_header. rewrite zlen_app, (proj2 (Z.ltb_ge _ 4)), Hv by lia. done.
      * cbn [negb snd fst]. eapply push_control_exact; [done|done| |done]. lia.
  - assert (push_prefix c d = (Ok (0, true), d)) as ->.
    { destruct Hc as (_ & _ & ->). done. }
    apply (push_control_exact pre pre c 0); [done|done|lia|]. cbn. by rewrite app_nil_r.
Qed.

Lemma buffered_waits pre d : buffered pre d → stream_header pre = Ok None.
Proof.
  unfold stream_header. intros [(Hp & _)|(Hl & Hv & _)]; [by rewrite (proj2 (Z.ltb_lt _ _))|].
  rewrite (proj2 (Z.ltb_ge _ _)), Hv by lia. cbn. by rewrite (proj2 (Z.ltb_lt _ _)) by lia.
Qed.

(** What a prefix of a stream settles, more bytes do not change. *)
Lemma stream_header_settled bytes more :
  match stream_header bytes with Ok None => True | r => stream_header (bytes ++ more) = r end.
Proof.
  unfold stream_header. destruct (Z.ltb_spec (zlen bytes) 4) as [|Hl]; [done|].
  pose proof (zlen_nonneg more).
  rewrite zlen_app, (proj2 (Z.ltb_ge _ 4)), declared_app by lia.
  destruct (validate_control_len _) as [[]|e|p]; cbn [result_bind]; [|done..].
  destruct (Z.ltb_spec (zlen bytes) (4 + declared bytes)); [done|].
  rewrite (proj2 (Z.ltb_ge _ _)) by lia.
  rewrite drop_app_le, take_app_le by (rewrite ?length_drop; unfold zlen in *; lia).
  by destruct (decode_control _).
Qed.

Lemma push_all_exact chunks pre d :
  buffered pre d → Forall is_byte (pre ++ concat chunks) →
  (push_all chunks (zlen pre) d).1 = stream_header (pre ++ concat chunks)
  ∧ (hd_done (push_all chunks (zlen pre) d).2 = true
     ↔ ∃ r, stream_header (pre ++ concat chunks) = Ok (Some r)).
Proof.
  revert pre d. induction chunks as [|c chunks IH]; intros pre d Hbuf Hb.
  { cbn. rewrite app_nil_r in *. rewrite (buffered_waits pre d Hbuf). split; [done|].
    split; [|naive_solver]. destruct Hbuf as [(_ & _ & _ & _ & _ & _ & ->)|(_ & _ & ->)]; done. }
  cbn [concat push_all] in *. rewrite app_assoc in Hb |- *.
  assert (Forall is_byte (pre ++ c)) as Hbc by (by apply Forall_app in Hb as [? _]).
  pose proof (decoder_push_exact pre c d Hbuf Hbc) as Hag. unfold agrees in Hag.
  pose proof (stream_header_settled (pre ++ c) (concat chunks)) as Hset.
  destruct (decoder_push c d) as [r d'] eqn:Hpush. cbn [fst snd] in Hag.
  destruct (stream_header (pre ++ c)) as [[[h end_]|]|e|p] eqn:Hsh; [..|done].
  - destruct Hag as [-> Hdone]. rewrite Hset. cbn. split; [|naive_solver].
    do 3 f_equal. lia.
  - destruct Hag as [-> Hbuf']. rewrite <-zlen_app. by apply IH.
  - destruct Hag as [-> Hdone]. rewrite Hset. cbn. split; [done|]. rewrite Hdone. naive_solver.
Qed.

(** The buffer never outgrows what the peer declared, nor that the limit. *)
Definition fits (d : HeaderDecoder) : Prop :=
  match hd_expected d with
  | Some n => zlen (hd_control d) ≤ Z.max 0 n ∧ n ≤ MAX_CONTROL_BYTES
  | None => hd_control d = []
  end.

Lemma push_prefix_fits c d : fits d → fits (push_prefix c d).2.
Proof.
  intros Hf. unfold push_prefix, sbind, sget, supd, sret, sread, slift.
  destruct (_ <? _); [|done]. destruct (_ <? _); [done|].
  destruct (wire_try_from _ _) as [n| |]; [|done..].
  destruct (validate_control_len n) as [[]| |] eqn:Hv; [|done..].
  apply validate_len_bounds in Hv. split; [apply Z.le_max_l|lia].
Qed.

Lemma push_control_fits c k d : fits d → fits (push_control c k d).2.
Proof.
  intros Hf. unfold push_control, sbind, sget, supd, sret, sread, slift, plain_sub.
  unfold fits in Hf. destruct (hd_expected d) as [n|] eqn:He; cbn [ok_or]; [|by unfold fits; cbn; rewrite He].
  destruct (Z.leb_spec (zlen (hd_control d)) n); [|by unfold fits; cbn; rewrite He].
  destruct (k <=? zlen c); [|by unfold fits; cbn; rewrite He].
  destruct (index_range _ _ _) as [chunk| |] eqn:Hr; [|by unfold fits; cbn; rewrite He..].
  assert (zlen chunk ≤ n - zlen (hd_control d)) as Hc.
  { unfold index_range in Hr. destruct (_ && _); simplify_eq. unfold zlen at 1. rewrite length_take. lia. }
  destruct (_ =? _); [destruct (decode_control _)|];
    unfold fits; cbn; rewrite ?He, zlen_app; lia.
Qed.

Lemma push_all_fits chunks offset d : fits d → fits (push_all chunks offset d).2.
Proof.
  revert offset d. induction chunks as [|c chunks IH]; intros offset d Hf; [done|]. cbn [push_all].
  assert (fits (decoder_push c d).2) as Hpush.
  { unfold decoder_push, sbind at 1, sread. destruct (fail_if _ _); [|done..].
    unfold sbind. pose proof (push_prefix_fits c d Hf) as Hp.
    destruct (push_prefix c d) as [[[k [|]]| |] d']; cbn in *; [|done..]. by apply push_control_fits. }
  destruct (decoder_push c d) as [[[n [h|]]| |] d']; cbn in *; [done| |done..]. by apply IH.
Qed.

Lemma fits_bound d : fits d → zlen (hd_control d) ≤ MAX_CONTROL_BYTES.
Proof.
  unfold fits, MAX_CONTROL_BYTES. destruct (hd_expected d); [lia|]. intros ->. done.
Qed.

Lemma fresh_buffered : buffered [] HeaderDecoder_default.
Proof. left. done. Qed.

(** C33: however a stream is cut into pieces, pushing them gives exactly the header,
    the end of it or the error that the bytes as a whole determine, which is what
    decoding the control bytes at once gives; [finish] then succeeds exactly when a
    header was returned; and no push panics or buffers more than the control limit. *)
Theorem header_decoder_exact (chunks : list (list Z)) :
  Forall is_byte (concat chunks) →
  let r := push_all chunks 0 HeaderDecoder_default in
  r.1 = stream_header (concat chunks) ∧ no_panic r.1 ∧ zlen (hd_control r.2) ≤ MAX_CONTROL_BYTES
  ∧ (decoder_finish r.2 = Ok tt ↔ ∃ header, r.1 = Ok (Some header)).
Proof.
  intros Hb r. destruct (push_all_exact chunks [] _ fresh_buffered Hb) as [Heq Hdone].
  change (zlen []) with 0 in Heq, Hdone. fold r in Heq, Hdone. cbn [app] in Heq, Hdone.
  split_and!; [done| | |].
  - rewrite Heq. unfold stream_header.
    pose proof no_panic_validate_len. pose proof no_panic_decode_control. no_panic.
  - by apply fits_bound, push_all_fits.
  - rewrite Heq, <-Hdone. unfold decoder_finish. destruct (hd_done r.2); [done|].
    split; [|done]. by destruct (ok_or _ _).
Qed.
