(* ===== verification/HostHandshakeTheory.v ===== *)
(** Theorems about the handshake of a host channel: what a run of it can do in the
    face of any frames, and that two honest endpoints complete it. *)

From S2P Require Import Prelude Utf8 HostWire HostWireTheory.
Open Scope Z_scope.

(** ** Runs *)

Inductive handshake_call : Type :=
  | CallBegin (sequence : Z)
  | CallAccept (frame : FrameHeader).

Definition handshake_exec (c : handshake_call) : handshake_op (option FrameHeader) :=
  match c with
  | CallBegin sequence => let! frame := handshake_begin sequence in sret (Some frame)
  | CallAccept frame => handshake_accept frame
  end.

(** The calls of a run that succeeded, with the frame each returned, and the
    endpoint afterwards. *)
Fixpoint handshake_run (calls : list handshake_call) (h : BuildClaimHandshake)
    : list (handshake_call * option FrameHeader) * BuildClaimHandshake :=
  match calls with
  | [] => ([], h)
  | c :: calls' =>
      let '(r, h') := handshake_exec c h in
      let '(t, h'') := handshake_run calls' h' in
      (match r with Ok frame => (c, frame) :: t | _ => t end, h'')
  end.

(** The frame an endpoint sends: its own role and build claim, no payload. *)
Definition own_frame (h : BuildClaimHandshake) (kind : MessageKind) (nonce : list Z)
    (version : WireProtocolVersion) : FrameHeader :=
  mkFrameHeader version 1 kind 0 None
    (HelloBody (mkHelloIdentity nonce (bh_role h) (outbound_direction (bh_role h))
                  (bh_local_build_claim h))).

(** A frame from the expected peer: valid, the first of its stream, sent by the
    other role in its direction, and of the expected build. *)
Definition from_peer (h : BuildClaimHandshake) (kind : MessageKind) (hello : HelloIdentity)
    (f : FrameHeader) : Prop :=
  header_ok f ∧ fh_sequence f = 1 ∧ fh_kind f = kind ∧ fh_body f = HelloBody hello
  ∧ hi_role hello = peer (bh_role h) ∧ hi_build_claim hello = bh_expected_peer_build_claim h.

(** An endpoint as it is constructed. *)
Inductive fresh : BuildClaimHandshake → Prop :=
  | fresh_initiator role nonce local_claim expected_claim offered h :
      initiator_for_version role nonce local_claim expected_claim offered = Ok h → fresh h
  | fresh_responder role local_claim expected_claim h :
      responder role local_claim expected_claim = Ok h → fresh h.

Definition same_endpoint (h0 h : BuildClaimHandshake) : Prop :=
  bh_role h = bh_role h0 ∧ bh_local_build_claim h = bh_local_build_claim h0
  ∧ bh_expected_peer_build_claim h = bh_expected_peer_build_claim h0
  ∧ bh_offered_version h = bh_offered_version h0.

(** The successful calls so far: an initiator has sent its hello; either side is
    established, with what it negotiated. *)
Definition started (h0 : BuildClaimHandshake) (t : list (handshake_call * option FrameHeader)) : Prop :=
  ∃ nonce, bh_state h0 = HS.Ready ∧ bh_nonce h0 = Some nonce
           ∧ t = [(CallBegin 1, Some (own_frame h0 MK.Hello nonce (bh_offered_version h0)))].

Definition established (h0 h : BuildClaimHandshake)
    (t : list (handshake_call * option FrameHeader)) : Prop :=
  ∃ hello f,
    bh_nonce h = Some (hi_nonce hello) ∧ bh_negotiated_version h = Some (fh_version f)
    ∧ ((bh_state h0 = HS.Ready ∧ from_peer h0 MK.HelloAck hello f
        ∧ bh_nonce h0 = Some (hi_nonce hello) ∧ fh_version f = bh_offered_version h0
        ∧ t = [(CallBegin 1, Some (own_frame h0 MK.Hello (hi_nonce hello) (bh_offered_version h0)));
               (CallAccept f, None)])
       ∨ (bh_state h0 = HS.AwaitingHello ∧ from_peer h0 MK.Hello hello f
          ∧ t = [(CallAccept f, Some (own_frame h0 MK.HelloAck (hi_nonce hello) (fh_version f)))])).

Definition transcript (h0 h : BuildClaimHandshake)
    (t : list (handshake_call * option FrameHeader)) : Prop :=
  same_endpoint h0 h
  ∧ match bh_state h with
    | HS.Ready | HS.AwaitingHello => t = [] ∧ bh_state h0 = bh_state h ∧ bh_nonce h = bh_nonce h0
    | HS.AwaitingAcknowledgement => started h0 t ∧ bh_nonce h = bh_nonce h0
    | HS.Established => established h0 h t
    | HS.Failed => t = [] ∨ started h0 t ∨ ∃ h1, established h0 h1 t
    end.

(** ** Steps *)

Lemma hello_frame_inv h sequence kind nonce version f :
  hello_frame h sequence kind nonce version = Ok f →
  f = mkFrameHeader version sequence kind 0 None
        (HelloBody (mkHelloIdentity nonce (bh_role h) (outbound_direction (bh_role h))
                      (bh_local_build_claim h))).
Proof.
  unfold hello_frame. intros H. unbind H hello Hh. unbind H frame Hf. unbind H u Hv.
  unfold HelloIdentity_new in Hh. unbind Hh u' Hu. unfold FrameHeader_new in Hf. unbind Hf u'' Hu'.
  simplify_eq. done.
Qed.

Lemma sread_inv {S E A B} (g : S → result A E) (k : A → smonad S E B) b s s' :
  sbind (sread g) k s = (Ok b, s') → ∃ a, g s = Ok a ∧ k a s = (Ok b, s').
Proof. unfold sbind, sread. destruct (g s); naive_solver. Qed.
Ltac runbind H x Hx := apply sread_inv in H as (x & Hx & H); cbv beta in Hx.

Lemma begin_inner_ok sequence h f h' :
  begin_inner sequence h = (Ok f, h') →
  sequence = 1 ∧ bh_state h = HS.Ready ∧ h' = bh_set_state HS.AwaitingAcknowledgement h
  ∧ ∃ nonce, bh_nonce h = Some nonce ∧ f = own_frame h MK.Hello nonce (bh_offered_version h).
Proof.
  unfold begin_inner. intros H. runbind H u Hs. sunbind H u' Hseq. runbind H nonce Hn.
  runbind H frame Hf. unfold sbind, supd, sret in H. simplify_eq.
  unfold require_handshake_sequence in Hseq. destruct (Z.eqb_spec sequence 1); [|done]. subst.
  apply map_err_ok, hello_frame_inv in Hf as ->. apply ok_or_ok in Hn.
  destruct (bh_state h); try done. split_and!; [done..|]. by exists nonce.
Qed.

Lemma validate_peer_ok h hello :
  validate_peer h hello = Ok tt →
  hi_role hello = peer (bh_role h) ∧ hi_build_claim hello = bh_expected_peer_build_claim h.
Proof. unfold validate_peer. intros H. rust_inv H. done. Qed.

Lemma accept_inner_ok f h o h' :
  accept_inner f h = (Ok o, h') →
  ∃ hello,
    (bh_state h = HS.AwaitingHello ∧ from_peer h MK.Hello hello f
     ∧ o = Some (own_frame h MK.HelloAck (hi_nonce hello) (fh_version f))
     ∧ h' = bh_set_state HS.Established
              (bh_set_negotiated (fh_version f) (bh_set_nonce (hi_nonce hello) h)))
    ∨ (bh_state h = HS.AwaitingAcknowledgement ∧ from_peer h MK.HelloAck hello f ∧ o = None
       ∧ fh_version f = bh_offered_version h ∧ bh_nonce h = Some (hi_nonce hello)
       ∧ h' = bh_set_state HS.Established (bh_set_negotiated (fh_version f) h)).
Proof.
  unfold accept_inner. intros H. runbind H u Hu. runbind H u' Hu'. sunbind H u'' Hv.
  apply map_err_ok in Hv. destruct u''. apply header_validate_ok in Hv.
  sunbind H v Hseq. unfold require_handshake_sequence in Hseq.
  destruct (Z.eqb_spec (fh_sequence f) 1); [|done]. sunbind H hello Hb.
  assert (fh_body f = HelloBody hello) as Hbody by (destruct (fh_body f); by simplify_eq). clear Hb.
  unfold sbind at 1, sget in H. exists hello. destruct (bh_state h) eqn:Hst; try done.
  - left. unfold accept_hello in H. sunbind H w Hk. unfold require_kind in Hk.
    destruct (bool_decide_reflect (fh_kind f = MK.Hello)); [|done]. runbind H w' Hp. destruct w'.
    apply validate_peer_ok in Hp as [? ?]. sunbind H one Hone. runbind H ack Hack.
    apply map_err_ok, hello_frame_inv in Hack as ->. cbn in Hone. simplify_eq.
    unfold sbind, supd, sret in H. simplify_eq. done.
  - right. unfold accept_acknowledgement in H. sunbind H w Hk. unfold require_kind in Hk.
    destruct (bool_decide_reflect (fh_kind f = MK.HelloAck)); [|done]. runbind H w' Hp. destruct w'.
    apply validate_peer_ok in Hp as [? ?]. runbind H w1 Hver. runbind H w2 Hn.
    rust_inv Hver. rust_inv Hn. unfold sbind, supd, sret in H. simplify_eq. done.
Qed.

Lemma wp_sread {S E A B} (g : S → result A E) (k : A → smonad S E B) Q (QE : E → S → Prop) s :
  no_panic (g s) → (∀ e, QE e s) → (∀ a, wp (k a) Q QE s) → wp (sbind (sread g) k) Q QE s.
Proof. unfold wp, sbind, sread, no_panic. destruct (g s); naive_solver. Qed.

Lemma no_panic_hello_frame h sequence kind nonce version :
  no_panic (hello_frame h sequence kind nonce version).
Proof.
  unfold hello_frame, HelloIdentity_new, FrameHeader_new, hello_validate, validate_build_claim.
  pose proof no_panic_header_validate. no_panic.
Qed.

Lemma no_panic_validate_peer h hello : no_panic (validate_peer h hello).
Proof. unfold validate_peer. no_panic. Qed.
#[local] Hint Resolve no_panic_hello_frame no_panic_validate_peer no_panic_header_validate : nopanic.

(** Walks the checks of a call: none of them panics, and none has written
    anything when it fails. *)
Ltac checks :=
  repeat first
    [ apply wp_slift; [solve [no_panic]|done|intros ? _]
    | apply wp_sread; [solve [no_panic]|done|intros ?] ].

Lemma begin_inner_fails sequence h :
  wp (begin_inner sequence) (λ _ _, True) (λ _ h', h' = h) h.
Proof.
  unfold begin_inner, require_handshake_sequence. checks. done.
Qed.

Lemma accept_inner_fails f h : wp (accept_inner f) (λ _ _, True) (λ _ h', h' = h) h.
Proof.
  unfold accept_inner, require_handshake_sequence. checks.
  match goal with state : HandshakeState |- _ => destruct state end; [done| | |done..].
  - unfold accept_hello, require_kind, FrameSequence_new. checks. done.
  - unfold accept_acknowledgement, require_kind. checks. done.
Qed.

(** A call succeeds as its body does, or fails the endpoint for good. *)
Lemma exec_cases c h :
  (∃ o h', handshake_exec c h = (Ok o, h')
     ∧ match c with
       | CallBegin sequence => ∃ f, o = Some f ∧ begin_inner sequence h = (Ok f, h')
       | CallAccept f => accept_inner f h = (Ok o, h')
       end)
  ∨ ∃ e, handshake_exec c h = (Err e, bh_set_state HS.Failed h).
Proof.
  destruct c as [sequence|f]; cbn [handshake_exec].
  - unfold sbind, handshake_begin, fail_closed. pose proof (begin_inner_fails sequence h) as Hw.
    unfold wp in Hw. destruct (begin_inner sequence h) as [[f|e|p] h'] eqn:Hb; [left|right|done].
    + exists (Some f), h'. split; [done|by exists f].
    + exists e. by subst.
  - unfold handshake_accept, fail_closed. pose proof (accept_inner_fails f h) as Hw.
    unfold wp in Hw. destruct (accept_inner f h) as [[o|e|p] h'] eqn:Hb; [left|right|done].
    + by exists o, h'.
    + exists e. by subst.
Qed.

Lemma same_endpoint_own h0 h kind nonce version :
  same_endpoint h0 h → own_frame h kind nonce version = own_frame h0 kind nonce version.
Proof. unfold own_frame. by intros (-> & -> & _). Qed.

Lemma same_endpoint_peer h0 h kind hello f :
  same_endpoint h0 h → from_peer h kind hello f → from_peer h0 kind hello f.
Proof. unfold from_peer. intros (-> & _ & -> & _). done. Qed.

Lemma exec_transcript h0 h t c o h' :
  transcript h0 h t → handshake_exec c h = (Ok o, h') → transcript h0 h' (t ++ [(c, o)]).
Proof.
  intros [Hsame Ht] Hc. destruct (exec_cases c h) as [(o' & h1 & Heq & Hbody)|[e Heq]]; [|congruence].
  rewrite Heq in Hc. simplify_eq. pose proof Hsame as (_ & _ & _ & Hoff). destruct c as [sequence|f].
  - destruct Hbody as (f & -> & Hb). apply begin_inner_ok in Hb as (-> & Hst & -> & nonce & Hn & ->).
    rewrite Hst in Ht. destruct Ht as (-> & Hst0 & Hn0). split; [done|]. cbn. split; [|done].
    exists nonce. split_and!; [done|congruence|].
    by rewrite (same_endpoint_own h0 h), Hoff.
  - apply accept_inner_ok in Hbody as (hello & [(Hst & Hp & -> & ->)|(Hst & Hp & -> & Hver & Hn & ->)]);
      rewrite Hst in Ht.
    + destruct Ht as (-> & Hst0 & _). split; [done|]. cbn. exists hello, f. split_and!; [done..|].
      right. split_and!; [done|by eapply same_endpoint_peer|]. by rewrite (same_endpoint_own h0 h).
    + destruct Ht as ((nonce & Hst0 & Hn0 & ->) & Hnn). split; [done|]. cbn. exists hello, f.
      split_and!; [done..|]. left. rewrite Hnn, Hn0 in Hn. simplify_eq.
      split_and!; [done|by eapply same_endpoint_peer|done|congruence|done].
Qed.

Lemma failed_transcript h0 h t : transcript h0 h t → transcript h0 (bh_set_state HS.Failed h) t.
Proof.
  intros [Hsame Ht]. split; [done|]. cbn. destruct (bh_state h); [by left; destruct Ht..| | |done].
  - right; left. by destruct Ht.
  - right; right. by exists h.
Qed.

Lemma run_transcript calls h0 h t :
  transcript h0 h t →
  transcript h0 (handshake_run calls h).2 (t ++ (handshake_run calls h).1).
Proof.
  revert h t. induction calls as [|c calls IH]; intros h t Ht; cbn [handshake_run].
  { by rewrite app_nil_r. }
  destruct (exec_cases c h) as [(o & h' & Heq & _)|[e Heq]]; rewrite Heq.
  - pose proof (IH h' (t ++ [(c, o)]) (exec_transcript _ _ _ _ _ _ Ht Heq)) as H.
    destruct (handshake_run calls h') as [t' h'']. cbn in *. by rewrite <-app_assoc in H.
  - pose proof (IH _ t (failed_transcript _ _ _ Ht)) as H.
    by destruct (handshake_run calls _) as [t' h''].
Qed.

Lemma fresh_transcript h : fresh h → transcript h h [].
Proof.
  assert (∀ role l e v n s, s = HS.Ready ∨ s = HS.AwaitingHello → handshake_new role l e v n s = Ok h → transcript h h []) as Hnew.
  { intros role l e v n s Hs H. unfold handshake_new in H. unbind H u Hu. unbind H u' Hu'. simplify_eq.
    split; [done|]. destruct Hs as [->| ->]; done. }
  destruct 1 as [role nonce l e v h H|role l e h H].
  - unfold initiator_for_version in H. unbind H u Hu. unbind H u' Hu'. eapply Hnew, H. by left.
  - eapply Hnew, H. by right.
Qed.

(** C30: no frames fool an endpoint.  Whatever calls are made on a fresh endpoint,
    with whatever frames, and however they are repeated or reordered: its successful
    calls are at most one hello and the acknowledgement of it (or, for a responder,
    one hello and its answer); it is established only on a valid first frame of the
    other role and of the expected build, an initiator moreover only on one that
    echoes its own nonce and its offered version; what it sends names only itself;
    no call panics, and a call fails exactly when the endpoint has failed, for good. *)
Theorem handshake_authentic (h : BuildClaimHandshake) (calls : list handshake_call) (c : handshake_call) :
  fresh h →
  let '(t, h') := handshake_run calls h in
  transcript h h' t
  ∧ match handshake_exec c h' with
    | (Ok _, h'') => bh_state h' ≠ HS.Failed ∧ bh_state h' ≠ HS.Established ∧ bh_state h'' ≠ HS.Failed
    | (Err _, h'') => h'' = bh_set_state HS.Failed h'
    | (Panic _, _) => False
    end.
Proof.
  intros Hf. pose proof (run_transcript calls h h [] (fresh_transcript h Hf)) as Ht.
  destruct (handshake_run calls h) as [t h']. split; [done|].
  destruct (exec_cases c h') as [(o & h'' & -> & Hc)|[e ->]]; [|done].
  destruct c as [sequence|f].
  - destruct Hc as (f & _ & Hb). apply begin_inner_ok in Hb as (_ & -> & -> & _). done.
  - apply accept_inner_ok in Hc as (hello & [(-> & _ & _ & ->)|(-> & _ & _ & _ & _ & ->)]); done.
Qed.

(** ** Two honest endpoints *)

Lemma own_frame_ok h kind nonce :
  is_hello_kind kind = true → is_zero_nonce nonce = false →
  validate_build_claim (bh_local_build_claim h) = Ok tt →
  header_ok (own_frame h kind nonce WireProtocolVersion_current).
Proof.
  intros Hk Hn (Hne & Hc & Hl)%build_claim_validate_ok.
  unfold header_ok, own_frame, hello_ok, body_len, MAX_RAW_BYTES, WIRE_MAX_BUILD_ID_BYTES, MAX_CONTROL_BYTES,
    FIXED_CONTROL_BYTES, HELLO_FIXED_BYTES in *. cbn -[Z.add Z.mul].
  split_and!; done || lia.
Qed.

Lemma hello_frame_ok h kind nonce :
  is_hello_kind kind = true → is_zero_nonce nonce = false →
  validate_build_claim (bh_local_build_claim h) = Ok tt →
  hello_frame h 1 kind nonce WireProtocolVersion_current
  = Ok (own_frame h kind nonce WireProtocolVersion_current).
Proof.
  intros Hk Hn Hc. pose proof (own_frame_ok h kind nonce Hk Hn Hc) as Hok.
  pose proof Hok as (_ & _ & _ & (_ & Hh & _) & _).
  unfold hello_frame, HelloIdentity_new. rewrite (proj2 (hello_validate_ok _)) by exact Hh.
  cbn [result_bind]. unfold FrameHeader_new.
  rewrite (proj2 (header_validate_ok _)) by exact Hok. cbn.
  rewrite (proj2 (header_validate_ok _)) by exact Hok. done.
Qed.

Lemma own_frame_typed h kind nonce :
  zlen nonce = 16 → Forall is_byte nonce → Forall is_char (bh_local_build_claim h) →
  header_typed (own_frame h kind nonce WireProtocolVersion_current).
Proof.
  intros Hz Hb Hc. unfold header_typed, own_frame, in_u32, u32_max, u64_max. cbn.
  split_and!; try done; lia.
Qed.

(** A frame of the handshake, sent as bytes and received as the first of a stream. *)
Definition delivered (f : FrameHeader) : Prop :=
  ∃ bytes, encode_control f = Ok bytes
           ∧ decode_frame bytes None = (Ok (mkDecodedFrame f [] (zlen bytes)), Some (fh_sequence f)).

Lemma own_frame_delivered h kind nonce :
  is_hello_kind kind = true → is_zero_nonce nonce = false → zlen nonce = 16 → Forall is_byte nonce →
  validate_build_claim (bh_local_build_claim h) = Ok tt → Forall is_char (bh_local_build_claim h) →
  delivered (own_frame h kind nonce WireProtocolVersion_current).
Proof.
  intros Hk Hn Hz Hb Hc Hch. set (f := own_frame _ _ _ _).
  pose proof (own_frame_ok h kind nonce Hk Hn Hc) as Hok. fold f in Hok.
  pose proof (own_frame_typed h kind nonce Hz Hb Hch) as Ht. fold f in Ht.
  destruct (header_body f Ht Hok) as (body & Hbody & Hlen).
  pose proof (decode_frame_complete None f [] [] body Ht Hok Hbody Hlen eq_refl I) as Hd.
  cbv zeta in Hd. rewrite !app_nil_r in Hd.
  eexists. split; [by apply encode_control_ok|]. rewrite Hd. do 3 f_equal.
  rewrite (zlen_app (le_bytes _ _)), zlen_le_bytes. cbn. lia.
Qed.

Lemma begin_ok h nonce f :
  bh_state h = HS.Ready → bh_nonce h = Some nonce →
  hello_frame h 1 MK.Hello nonce (bh_offered_version h) = Ok f →
  handshake_begin 1 h = (Ok f, bh_set_state HS.AwaitingAcknowledgement h).
Proof.
  intros Hs Hn Hf. unfold handshake_begin, fail_closed, begin_inner, sbind, sread, slift, supd, sret.
  rewrite Hs, Hn. cbn -[hello_frame]. by rewrite Hf.
Qed.

Lemma validate_peer_accepts h kind hello f :
  from_peer h kind hello f → validate_peer h hello = Ok tt.
Proof.
  intros ((_ & _ & _ & Hb & _) & _ & _ & Heq & Hr & Hc). rewrite Heq in Hb.
  destruct Hb as (_ & (_ & Hd & _) & _). unfold validate_peer. rust_ok.
Qed.

Lemma accept_hello_ok h hello f ack :
  bh_state h = HS.AwaitingHello → from_peer h MK.Hello hello f →
  hello_frame h 1 MK.HelloAck (hi_nonce hello) (fh_version f) = Ok ack →
  handshake_accept f h
  = (Ok (Some ack), bh_set_state HS.Established
                      (bh_set_negotiated (fh_version f) (bh_set_nonce (hi_nonce hello) h))).
Proof.
  intros Hs Hp Hack. pose proof (validate_peer_accepts _ _ _ _ Hp) as Hv.
  destruct Hp as (Hok%header_validate_ok & Hseq & Hk & Hb & _).
  unfold handshake_accept, fail_closed, accept_inner, sbind, sread, slift, sget.
  rewrite Hs. cbn -[header_validate accept_hello]. rewrite Hok, Hseq, Hb. cbn -[accept_hello].
  unfold accept_hello, require_kind, sbind, sread, slift, supd, sret.
  rewrite Hk, Hv. cbn -[hello_frame]. by rewrite Hack.
Qed.

Lemma accept_acknowledgement_ok h hello f :
  bh_state h = HS.AwaitingAcknowledgement → from_peer h MK.HelloAck hello f →
  fh_version f = bh_offered_version h → bh_nonce h = Some (hi_nonce hello) →
  handshake_accept f h
  = (Ok None, bh_set_state HS.Established (bh_set_negotiated (fh_version f) h)).
Proof.
  intros Hs Hp Hver Hn. pose proof (validate_peer_accepts _ _ _ _ Hp) as Hv.
  destruct Hp as (Hok%header_validate_ok & Hseq & Hk & Hb & _).
  unfold handshake_accept, fail_closed, accept_inner, sbind, sread, slift, sget.
  rewrite Hs. cbn -[header_validate accept_acknowledgement]. rewrite Hok, Hseq, Hb.
  cbn -[accept_acknowledgement].
  unfold accept_acknowledgement, require_kind, sbind, sread, slift, supd, sret.
  rewrite Hk, Hv, (bool_decide_eq_true_2 _ Hver), (bool_decide_eq_true_2 _ Hn). done.
Qed.

(** C31: two endpoints that expect each other's build open the channel.  The
    initiator's hello, encoded and decoded on the other side, is accepted; so is the
    answer on its way back; and both ends are established with the initiator's nonce
    and the current version. *)
Theorem handshake_completes (role : EndpointRole) (nonce near far : list Z) (i r : BuildClaimHandshake) :
  zlen nonce = 16 → Forall is_byte nonce → Forall is_char near → Forall is_char far →
  initiator role nonce near far = Ok i → responder (peer role) far near = Ok r →
  ∃ hello ack i1 i2 r1,
    handshake_begin 1 i = (Ok hello, i1) ∧ delivered hello
    ∧ handshake_accept hello r = (Ok (Some ack), r1) ∧ delivered ack
    ∧ handshake_accept ack i1 = (Ok None, i2)
    ∧ bh_state i2 = HS.Established ∧ bh_state r1 = HS.Established
    ∧ bh_nonce i2 = Some nonce ∧ bh_nonce r1 = Some nonce
    ∧ bh_negotiated_version i2 = Some WireProtocolVersion_current
    ∧ bh_negotiated_version r1 = Some WireProtocolVersion_current.
Proof.
  intros Hz Hb Hnear Hfar Hi Hr.
  unfold initiator, initiator_for_version, responder, handshake_new in Hi, Hr.
  unbind Hi u0 Hn. apply fail_if_ok in Hn. unbind Hi u1 Hv. unbind Hi u2 Hc1. unbind Hi u3 Hc2.
  apply map_err_ok in Hc1, Hc2. destruct u2, u3. clear u0 u1 Hv.
  unbind Hr v0 Hd1. unbind Hr v1 Hd2. clear v0 v1 Hd1 Hd2. injection Hi as <-. injection Hr as <-.
  set (i := mkHandshake role near far _ _ _ _). set (r := mkHandshake (peer role) far near _ _ _ _).
  pose proof (hello_frame_ok i MK.Hello nonce eq_refl Hn Hc1) as Hhello.
  pose proof (hello_frame_ok r MK.HelloAck nonce eq_refl Hn Hc2) as Hack.
  pose proof (own_frame_ok i MK.Hello nonce eq_refl Hn Hc1) as Hok1.
  pose proof (own_frame_ok r MK.HelloAck nonce eq_refl Hn Hc2) as Hok2.
  exists (own_frame i MK.Hello nonce WireProtocolVersion_current),
    (own_frame r MK.HelloAck nonce WireProtocolVersion_current). do 3 eexists.
  split; [by eapply begin_ok|]. split; [by apply own_frame_delivered|].
  split.
  { apply (accept_hello_ok r (mkHelloIdentity nonce role (outbound_direction role) near)); [done| |exact Hack].
    split; [exact Hok1|]. by destruct role. }
  split; [by apply own_frame_delivered|]. split; [|cbn].
  { apply (accept_acknowledgement_ok _
             (mkHelloIdentity nonce (peer role) (outbound_direction (peer role)) far)); [done| |done..].
    split; [exact Hok2|]. done. }
  done.
Qed.
