(* ===== verification/HostCodec.v ===== *)
(** The typed control messages over the host framing,
    [resymbol-debugger/src/host_codec.rs]: commands and events as frames, with
    memory contents carried once, as the raw payload.  The JSON library is a
    parameter. *)

From S2P Require Import Prelude Identity Sandbox Protocol HostWire.
Open Scope Z_scope.

(** [serde_json::to_vec] and [serde_json::from_slice] at one type; an error is its
    text. *)
Class Json (A : Type) : Type := {
  json_to_vec : A → list Z + list Z;
  json_from_slice : list Z → A + list Z
}.

Module HostCodecError.
Inductive host_codec_error : Type :=
  | Wire (e : WireError)
  | Protocol (e : ProtocolValidationError)
  | Json (text : list Z)
  | RawLengthMismatch (declared actual : Z)
  | UnexpectedMessageKind (expected actual : MessageKind)
  | UnexpectedHelloBody
  | UnexpectedRawPayload
  | InvalidRawLayout
  | InlineRawPayload
  | RawAddressMismatch (expected : Z) (actual : option Z)
  | UnexpectedRawAddress (actual : Z)
  | LengthOverflow
  | ProtocolVersionMismatch (wire_major wire_minor envelope_major envelope_minor : Z)
  | TrailingBytes (consumed available : Z).
End HostCodecError.
Abbreviation HostCodecError := HostCodecError.host_codec_error.
Module HCE := HostCodecError.

Abbreviation codec_result A := (result A HostCodecError).

Definition json_result {A} (r : A + list Z) : codec_result A :=
  match r with inl a => Ok a | inr text => Err (HCE.Json text) end.

(** [T::try_from] into a type with maximum [top]. *)
Definition codec_try_from (top n : Z) : codec_result Z :=
  if n <=? top then Ok n else Err HCE.LengthOverflow.

(** ** Frames *)

Record HostFrame : Type := mkHostFrame {
  hf_header : FrameHeader;
  hf_raw : list Z
}.

Definition HostFrame_new (header : FrameHeader) (raw : list Z) : codec_result HostFrame :=
  do? map_err HCE.Wire (header_validate header) in
  let? actual := codec_try_from u32_max (zlen raw) in
  do? fail_if (negb (actual =? fh_raw_len header))
        (HCE.RawLengthMismatch (fh_raw_len header) actual) in
  Ok (mkHostFrame header raw).

Definition to_bytes (f : HostFrame) : codec_result (list Z) :=
  let? bytes := map_err HCE.Wire (encode_control (hf_header f)) in
  Ok (bytes ++ hf_raw f).

Definition from_bytes (bytes : list Z) : codec_result HostFrame :=
  let? decoded := map_err HCE.Wire (decode_frame bytes None).1 in
  do? fail_if (negb (df_consumed decoded =? zlen bytes))
        (HCE.TrailingBytes (df_consumed decoded) (zlen bytes)) in
  HostFrame_new (df_header decoded) (df_raw decoded).

(** ** Control documents *)

Inductive CommandRawLayout : Type :=
  | CommandRawNone
  | CommandRawWriteMemory (expected_len : Z).

Record CommandControl : Type := mkCommandControl {
  cc_envelope : CommandEnvelope;
  cc_raw_layout : CommandRawLayout
}.

Inductive EventRawLayout : Type :=
  | EventRawNone
  | EventRawMemoryRead
  | EventRawMemoryWritten (before_len : Z).

Record EventControl : Type := mkEventControl {
  ec_envelope : EventEnvelope;
  ec_raw_layout : EventRawLayout
}.

Definition ce_with_command (c : DebugCommand) (e : CommandEnvelope) : CommandEnvelope :=
  mkCommandEnvelope (ce_version e) (ce_command_id e) (ce_session_id e) (ce_expected_state e) c.

Definition ee_with_event (ev : DebugEvent) (e : EventEnvelope) : EventEnvelope :=
  mkEventEnvelope (ee_version e) (ee_sequence e) (ee_session_id e) (ee_state e) (ee_caused_by e) ev.

(** ** Checks *)

Definition require_no_raw (f : HostFrame) : codec_result unit :=
  if bool_decide (hf_raw f = []) && bool_decide (fh_raw_address (hf_header f) = None)
  then Ok tt else Err HCE.UnexpectedRawPayload.

Definition require_raw_address (f : HostFrame) (expected : Z) : codec_result unit :=
  if bool_decide (fh_raw_address (hf_header f) = Some expected) then Ok tt
  else Err (HCE.RawAddressMismatch expected (fh_raw_address (hf_header f))).

Definition require_absent_raw_address (f : HostFrame) : codec_result unit :=
  match fh_raw_address (hf_header f) with
  | Some actual => Err (HCE.UnexpectedRawAddress actual)
  | None => Ok tt
  end.

Definition require_empty_placeholders (first second : list Z) : codec_result unit :=
  if bool_decide (first = []) && bool_decide (second = []) then Ok tt
  else Err HCE.InlineRawPayload.

Definition require_protocol_version (protocol : ProtocolVersion) (wire : WireProtocolVersion)
    : codec_result unit :=
  if (pv_major protocol =? wv_major wire) && (pv_minor protocol =? wv_minor wire) then Ok tt
  else Err (HCE.ProtocolVersionMismatch (wv_major wire) (wv_minor wire)
              (pv_major protocol) (pv_minor protocol)).

(** ** JSON frames *)

Section json.
Context {A : Type} `{Json A}.

Definition encode_json_frame (sequence : Z) (kind : MessageKind) (raw_address : option Z)
    (value : A) (raw : list Z) : codec_result HostFrame :=
  let? bytes := json_result (json_to_vec value) in
  let? raw_len := codec_try_from u32_max (zlen raw) in
  let? header := map_err HCE.Wire
                   (FrameHeader_new sequence kind raw_len raw_address (BytesBody bytes)) in
  HostFrame_new header raw.

Definition decode_json_frame (f : HostFrame) (expected : MessageKind) : codec_result A :=
  do? map_err HCE.Wire (header_validate (hf_header f)) in
  do? fail_if (negb (bool_decide (fh_kind (hf_header f) = expected)))
        (HCE.UnexpectedMessageKind expected (fh_kind (hf_header f))) in
  let? control := match fh_body (hf_header f) with
                  | BytesBody control => Ok control
                  | HelloBody _ => Err HCE.UnexpectedHelloBody
                  end in
  json_result (json_from_slice control).
End json.

(** The two halves of a pair of equally long byte strings; [split] is the declared
    length of the first. *)
Definition split_pair (f : HostFrame) (declared_len : Z) : codec_result (list Z * list Z) :=
  let? split := codec_try_from usize_max declared_len in
  do? fail_if ((split =? 0) || (MAX_MEMORY_WRITE_BYTES <? split)) HCE.InvalidRawLayout in
  let? both := ok_or (checked_mul usize_max split 2) HCE.LengthOverflow in
  do? fail_if (negb (zlen (hf_raw f) =? both)) HCE.InvalidRawLayout in
  let? first := index_range 0 split (hf_raw f) in
  let? second := index_range split (zlen (hf_raw f)) (hf_raw f) in
  Ok (first, second).

(** Both halves joined, and the length that splits them again. *)
Definition join_pair (first second : list Z) : codec_result (Z * list Z) :=
  let? first_len := codec_try_from u32_max (zlen first) in
  do? ok_or (checked_add usize_max (zlen first) (zlen second)) HCE.LengthOverflow in
  Ok (first_len, first ++ second).

(** ** Commands *)

Definition detach_command (e : CommandEnvelope) : codec_result (CommandControl * list Z) :=
  match ce_command e with
  | DC.WriteMemory stop address expected replacement =>
      let? joined := join_pair expected replacement in
      Ok (mkCommandControl (ce_with_command (DC.WriteMemory stop address [] []) e)
            (CommandRawWriteMemory joined.1), joined.2)
  | _ => Ok (mkCommandControl e CommandRawNone, [])
  end.

Definition encode_command_frame `{Json CommandControl} (sequence : Z) (e : CommandEnvelope)
    : codec_result HostFrame :=
  do? require_protocol_version (ce_version e) WireProtocolVersion_current in
  do? map_err HCE.Protocol (envelope_validate e) in
  let? detached := detach_command e in
  encode_json_frame sequence MK.Command None detached.1 detached.2.

Definition attach_command (f : HostFrame) (control : CommandControl) : codec_result CommandEnvelope :=
  let e := cc_envelope control in
  match ce_command e, cc_raw_layout control with
  | DC.WriteMemory stop address expected replacement, CommandRawWriteMemory expected_len =>
      do? require_empty_placeholders expected replacement in
      do? require_absent_raw_address f in
      let? halves := split_pair f expected_len in
      Ok (ce_with_command (DC.WriteMemory stop address (expected ++ halves.1)
                             (replacement ++ halves.2)) e)
  | DC.WriteMemory _ _ _ _, CommandRawNone
  | _, CommandRawWriteMemory _ => Err HCE.InvalidRawLayout
  | _, CommandRawNone => do? require_no_raw f in Ok e
  end.

Definition decode_command_frame `{Json CommandControl} (f : HostFrame)
    : codec_result CommandEnvelope :=
  let? control := decode_json_frame f MK.Command in
  do? require_protocol_version (ce_version (cc_envelope control)) (fh_version (hf_header f)) in
  let? e := attach_command f control in
  do? map_err HCE.Protocol (envelope_validate e) in
  Ok e.

(** ** Events *)

Definition detach_event (e : EventEnvelope) : codec_result (EventControl * option Z * list Z) :=
  match ee_event e with
  | DE.MemoryRead view address bytes =>
      Ok (mkEventControl (ee_with_event (DE.MemoryRead view address []) e) EventRawMemoryRead,
          Some address, bytes)
  | DE.MemoryWritten stop address before after =>
      let? joined := join_pair before after in
      Ok (mkEventControl (ee_with_event (DE.MemoryWritten stop address [] []) e)
            (EventRawMemoryWritten joined.1), None, joined.2)
  | _ => Ok (mkEventControl e EventRawNone, None, [])
  end.

Definition encode_event_frame `{Json EventControl} (sequence : Z) (e : EventEnvelope)
    : codec_result HostFrame :=
  do? require_protocol_version (ee_version e) WireProtocolVersion_current in
  do? map_err HCE.Protocol (event_envelope_validate e) in
  let? detached := detach_event e in
  encode_json_frame sequence MK.Event detached.1.2 detached.1.1 detached.2.

Definition attach_event (f : HostFrame) (control : EventControl) : codec_result EventEnvelope :=
  let e := ec_envelope control in
  match ee_event e, ec_raw_layout control with
  | DE.MemoryRead view address bytes, EventRawMemoryRead =>
      do? fail_if (negb (bool_decide (bytes = [])) || bool_decide (hf_raw f = [])
                   || (MAX_MEMORY_READ_BYTES <? zlen (hf_raw f))) HCE.InvalidRawLayout in
      do? require_raw_address f address in
      Ok (ee_with_event (DE.MemoryRead view address (bytes ++ hf_raw f)) e)
  | DE.MemoryWritten stop address before after, EventRawMemoryWritten before_len =>
      do? require_empty_placeholders before after in
      do? require_absent_raw_address f in
      let? halves := split_pair f before_len in
      Ok (ee_with_event (DE.MemoryWritten stop address (before ++ halves.1) (after ++ halves.2)) e)
  | DE.MemoryRead _ _ _, _ | DE.MemoryWritten _ _ _ _, _
  | _, EventRawMemoryRead | _, EventRawMemoryWritten _ => Err HCE.InvalidRawLayout
  | _, EventRawNone => do? require_no_raw f in Ok e
  end.

Definition decode_event_frame `{Json EventControl} (f : HostFrame) : codec_result EventEnvelope :=
  let? control := decode_json_frame f MK.Event in
  do? require_protocol_version (ee_version (ec_envelope control)) (fh_version (hf_header f)) in
  let? e := attach_event f control in
  do? map_err HCE.Protocol (event_envelope_validate e) in
  Ok e.
