(* ===== verification/HostCodecTheory.v ===== *)
(** Theorems about the typed codec of commands and events: what is encoded is
    decoded, through the bytes of the frame, and what is decoded is valid and
    accounts for every payload byte. *)

From S2P Require Import Prelude Utf8 Identity Sandbox Protocol ProtocolTheory HostWire.
From S2P Require Import HostWireTheory HostCodec.
Open Scope Z_scope.

(** The JSON library gives back the document it was given. *)
Definition carries {A} `{Json A} (v : A) : Prop :=
  ∀ bytes, json_to_vec v = inl bytes → Forall is_byte bytes ∧ json_from_slice bytes = inl v.

(** The document fits a control header. *)
Definition json_fits {A} `{Json A} (v : A) : Prop :=
  ∃ bytes, json_to_vec v = inl bytes ∧ FIXED_CONTROL_BYTES + zlen bytes ≤ MAX_CONTROL_BYTES.

Lemma is_ok_iff {A E} (r : result A E) : is_ok r = true ↔ ∃ a, r = Ok a.
Proof. destruct r; naive_solver. Qed.

(** ** Frames as bytes *)

Definition host_frame_wf (f : HostFrame) : Prop :=
  header_typed (hf_header f) ∧ header_ok (hf_header f) ∧ zlen (hf_raw f) = fh_raw_len (hf_header f).

Lemma host_frame_new_ok h raw f :
  HostFrame_new h raw = Ok f ↔ header_ok h ∧ zlen raw = fh_raw_len h ∧ zlen raw ≤ u32_max ∧ f = mkHostFrame h raw.
Proof.
  unfold HostFrame_new, codec_try_from. split.
  - intros H. unbind H u Hv. destruct u. apply map_err_ok, header_validate_ok in Hv.
    unbind H n Hn. destruct (Z.leb_spec (zlen raw) u32_max); [|done]. simplify_eq. unbind H u Hl.
    rust_inv Hl. done.
  - intros (Hv%header_validate_ok & Hl & Hu & ->). rewrite Hv. cbn [map_err result_bind].
    rewrite (proj2 (Z.leb_le _ _)) by done. cbn [result_bind]. by rewrite Hl, Z.eqb_refl.
Qed.

Lemma to_from_bytes f : host_frame_wf f → ∃ bytes, to_bytes f = Ok bytes ∧ from_bytes bytes = Ok f.
Proof.
  intros (Ht & Hok & Hraw). destruct f as [h raw]. cbn in *.
  destruct (header_body h Ht Hok) as (body & Hb & Hz).
  pose proof (decode_frame_complete None h raw [] body Ht Hok Hb Hz Hraw I) as Hd.
  cbv zeta in Hd. rewrite app_nil_r in Hd.
  unfold to_bytes. cbn [hf_header hf_raw]. rewrite (encode_control_ok h body Hok Hb Hz). cbn [map_err result_bind].
  eexists. split; [done|]. unfold from_bytes. rewrite <-!app_assoc in *. rewrite Hd. cbn [map_err fst result_bind df_consumed df_header df_raw].
  rewrite (proj2 (Z.eqb_eq _ _)).
  - cbn. apply host_frame_new_ok. destruct Ht as (_ & [_ ?] & _). split_and!; [done..|lia|done].
  - rewrite !zlen_app, zlen_le_bytes. lia.
Qed.

(** ** JSON frames *)

Section json.
Context {A : Type} `{Json A}.

(** The header of a JSON frame. *)
Definition json_header (sequence : Z) (kind : MessageKind) (address : option Z) (bytes raw : list Z)
    : FrameHeader :=
  mkFrameHeader WireProtocolVersion_current sequence kind (zlen raw) address (BytesBody bytes).

Definition payload_ok (address : option Z) (raw : list Z) : Prop :=
  zlen raw ≤ MAX_RAW_BYTES ∧ ∀ a, address = Some a → raw ≠ [] ∧ a + zlen raw ≤ u64_max.

Lemma json_header_ok sequence kind address bytes raw :
  is_hello_kind kind = false → payload_ok address raw →
  header_ok (json_header sequence kind address bytes raw)
  ↔ FIXED_CONTROL_BYTES + zlen bytes ≤ MAX_CONTROL_BYTES.
Proof.
  intros Hk [Hr Ha]. unfold header_ok, json_header. cbn.
  split; [by intros (_ & _ & _ & _ & ?)|]. intros Hl. split_and!; try done.
  intros a Heq. destruct (Ha a Heq). split; [|done]. destruct raw; [done|]. rewrite zlen_cons.
  pose proof (zlen_nonneg raw). lia.
Qed.

Lemma encode_json_frame_ok sequence kind address (v : A) raw f :
  is_hello_kind kind = false → payload_ok address raw →
  encode_json_frame sequence kind address v raw = Ok f
  ↔ ∃ bytes, json_to_vec v = inl bytes ∧ FIXED_CONTROL_BYTES + zlen bytes ≤ MAX_CONTROL_BYTES
             ∧ f = mkHostFrame (json_header sequence kind address bytes raw) raw.
Proof.
  intros Hk Hp. pose proof Hp as [Hr _]. unfold encode_json_frame, codec_try_from, FrameHeader_new.
  assert (zlen raw ≤ u32_max) as Hu by (unfold u32_max, MAX_RAW_BYTES in *; lia).
  destruct (json_to_vec v) as [bytes|text]; cbn [json_result result_bind]; [|naive_solver].
  rewrite (proj2 (Z.leb_le _ _)) by done. cbn [result_bind].
  fold (json_header sequence kind address bytes raw). set (h := json_header _ _ _ _ _).
  pose proof (json_header_ok sequence kind address bytes raw Hk Hp) as Hh. fold h in Hh. split.
  - intros He. unbind He h' Hh'. apply map_err_ok in Hh'. unbind Hh' u Hv. destruct u. simplify_eq.
    apply host_frame_new_ok in He as (? & _ & _ & ->). exists bytes. split; [done|]. split; [by apply (proj1 Hh)|done].
  - intros (bytes' & [= <-] & Hl & ->). apply (proj2 Hh) in Hl. rewrite (proj2 (header_validate_ok h) Hl).
    cbn [map_err result_bind]. by apply host_frame_new_ok.
Qed.

Lemma no_panic_encode_json sequence kind address (v : A) raw :
  no_panic (encode_json_frame sequence kind address v raw).
Proof.
  unfold encode_json_frame, HostFrame_new, json_result, codec_try_from, FrameHeader_new.
  pose proof no_panic_header_validate. no_panic.
Qed.

Lemma decode_json_frame_ok sequence kind address (v : A) raw bytes :
  is_hello_kind kind = false → payload_ok address raw → carries v → json_to_vec v = inl bytes →
  FIXED_CONTROL_BYTES + zlen bytes ≤ MAX_CONTROL_BYTES →
  decode_json_frame (mkHostFrame (json_header sequence kind address bytes raw) raw) kind = Ok v.
Proof.
  intros Hk Hp Hc Hj Hl. destruct (Hc bytes Hj) as [_ Hfrom]. unfold decode_json_frame. cbn [hf_header].
  rewrite (proj2 (header_validate_ok _)) by (by apply json_header_ok).
  cbn [map_err result_bind json_header fh_kind fh_body]. rewrite bool_decide_eq_true_2 by done.
  cbn. by rewrite Hfrom.
Qed.

Lemma json_frame_wf sequence kind address (v : A) raw bytes :
  is_hello_kind kind = false → payload_ok address raw → 0 < sequence ≤ u64_max →
  (∀ a, address = Some a → in_u64 a) → carries v → json_to_vec v = inl bytes →
  FIXED_CONTROL_BYTES + zlen bytes ≤ MAX_CONTROL_BYTES →
  host_frame_wf (mkHostFrame (json_header sequence kind address bytes raw) raw).
Proof.
  intros Hk Hp Hs Ha Hc Hj Hl. pose proof Hp as [Hr _]. pose proof (zlen_nonneg raw).
  split_and!; [|by apply json_header_ok|done]. unfold header_typed, in_u32, u32_max, MAX_RAW_BYTES in *.
  cbn. destruct (Hc bytes Hj). split_and!; [lia..|done|done].
Qed.

End json.

(** ** Pairs of byte strings *)

Definition pair_ok (a b : list Z) : Prop :=
  a ≠ [] ∧ zlen a = zlen b ∧ zlen a ≤ MAX_MEMORY_WRITE_BYTES.

Lemma join_pair_ok a b : pair_ok a b → join_pair a b = Ok (zlen a, a ++ b).
Proof.
  intros (Hne & Heq & Hmax). unfold join_pair, codec_try_from, checked_add, MAX_MEMORY_WRITE_BYTES in *.
  rewrite (proj2 (Z.leb_le _ _)) by (unfold u32_max; lia). cbn [result_bind].
  rewrite (proj2 (Z.leb_le _ _)) by (unfold usize_max, u64_max; lia). done.
Qed.

Lemma split_pair_ok h a b : pair_ok a b → split_pair (mkHostFrame h (a ++ b)) (zlen a) = Ok (a, b).
Proof.
  intros (Hne & Heq & Hmax). pose proof (zlen_nonneg a). unfold split_pair, codec_try_from. cbn [hf_raw].
  assert (zlen a ≠ 0) as Hnz.
  { destruct a; [done|]. rewrite zlen_cons. pose proof (zlen_nonneg a). lia. }
  assert (zlen a ≤ 64 * 1024) by (unfold MAX_MEMORY_WRITE_BYTES in Hmax; lia).
  rewrite (proj2 (Z.leb_le _ _)) by (unfold usize_max, u64_max; lia). cbn [result_bind].
  rewrite (proj2 (Z.eqb_neq _ _)), (proj2 (Z.ltb_ge _ _)) by done. cbn [orb fail_if result_bind].
  unfold checked_mul. rewrite (proj2 (Z.leb_le _ _)) by (unfold usize_max, u64_max; lia).
  cbn [ok_or result_bind]. rewrite (proj2 (Z.eqb_eq _ _)) by (rewrite zlen_app; lia).
  cbn [negb fail_if result_bind]. rewrite index_range_here by done. cbn [result_bind].
  rewrite index_range_tail by done. done.
Qed.

Lemma split_pair_sound f n a b : split_pair f n = Ok (a, b) → hf_raw f = a ++ b ∧ pair_ok a b.
Proof.
  unfold split_pair, codec_try_from. intros H. unbind H s Hs. destruct (_ <=? _); [|done]. injection Hs as <-.
  unbind H u Hu. apply fail_if_ok, orb_false_iff in Hu as [Hnz%Z.eqb_neq Hmax%Z.ltb_ge].
  unbind H both Hb. apply ok_or_ok, checked_mul_some in Hb as [-> _]. unbind H u' Hl.
  apply fail_if_ok, negb_false_iff, Z.eqb_eq in Hl. unbind H x Hx. unbind H y Hy. injection H as -> ->.
  apply index_range_cut in Hx as [Hx Hxz]; [|lia]. apply index_range_tail_cut in Hy.
  change (drop (Z.to_nat 0) (hf_raw f)) with (hf_raw f) in Hx. rewrite <-Hy in Hx.
  split; [done|]. rewrite Hx, zlen_app in Hl. split_and!; [|lia..]. intros ->. change (zlen []) with 0 in Hxz. lia.
Qed.

(** ** Commands *)

(** The document of a command: the envelope with the bytes of a write taken out. *)
Definition command_document (e : CommandEnvelope) : CommandControl :=
  match ce_command e with
  | DC.WriteMemory stop address expected _ =>
      mkCommandControl (ce_with_command (DC.WriteMemory stop address [] []) e)
        (CommandRawWriteMemory (zlen expected))
  | _ => mkCommandControl e CommandRawNone
  end.

Definition command_payload (c : DebugCommand) : list Z :=
  match c with DC.WriteMemory _ _ expected replacement => expected ++ replacement | _ => [] end.

Lemma memory_write_pair address a b :
  validate_memory_write address a b = Ok tt → pair_ok a b.
Proof. unfold validate_memory_write, pair_ok. intros H. rust_inv H. done. Qed.

Lemma pair_payload a b : pair_ok a b → payload_ok None (a ++ b).
Proof.
  intros (_ & Heq & Hmax). unfold payload_ok, MAX_RAW_BYTES, MAX_MEMORY_WRITE_BYTES in *.
  rewrite zlen_app. split; [lia|done].
Qed.

Lemma envelope_write_pair e stop address a b :
  envelope_validate e = Ok tt → ce_command e = DC.WriteMemory stop address a b → pair_ok a b.
Proof.
  unfold envelope_validate. intros H Hc. unbind H u Hv. unbind H u' Hcmd. destruct u'.
  rewrite Hc in Hcmd. by apply memory_write_pair in Hcmd.
Qed.

Lemma payload_none : payload_ok None [].
Proof. done. Qed.

Lemma detach_command_ok e :
  envelope_validate e = Ok tt →
  detach_command e = Ok (command_document e, command_payload (ce_command e))
  ∧ payload_ok None (command_payload (ce_command e)).
Proof.
  intros Hv. unfold detach_command, command_document, command_payload.
  pose proof payload_none. destruct (ce_command e) eqn:Hc; try done.
  pose proof (envelope_write_pair _ _ _ _ _ Hv Hc) as Hp.
  rewrite join_pair_ok by done. split; [done|by apply pair_payload].
Qed.

Lemma attach_command_ok e sequence bytes :
  envelope_validate e = Ok tt →
  attach_command (mkHostFrame (json_header sequence MK.Command None bytes (command_payload (ce_command e)))
                    (command_payload (ce_command e))) (command_document e) = Ok e.
Proof.
  intros Hv. destruct e as [version id session state c].
  unfold attach_command, command_document, command_payload. cbn [ce_command].
  destruct c; try done.
  pose proof (envelope_write_pair _ _ _ _ _ Hv eq_refl) as Hp.
  cbn -[split_pair]. by rewrite split_pair_ok.
Qed.

Lemma version_agrees v : version_validate v = Ok tt → require_protocol_version v WireProtocolVersion_current = Ok tt.
Proof. unfold version_validate. by destruct (bool_decide_reflect (v = ProtocolVersion_current)) as [->|]. Qed.

Lemma command_document_version e :
  envelope_validate e = Ok tt →
  version_validate (ce_version (cc_envelope (command_document e))) = Ok tt.
Proof.
  intros Hv. unfold envelope_validate in Hv. apply result_bind_ok in Hv as ([] & Hver & _).
  unfold command_document. by destruct (ce_command e).
Qed.

Lemma encode_command_ok `{Json CommandControl} sequence e f :
  encode_command_frame sequence e = Ok f
  ↔ envelope_validate e = Ok tt
    ∧ ∃ bytes, json_to_vec (command_document e) = inl bytes
        ∧ FIXED_CONTROL_BYTES + zlen bytes ≤ MAX_CONTROL_BYTES
        ∧ f = mkHostFrame (json_header sequence MK.Command None bytes (command_payload (ce_command e)))
                (command_payload (ce_command e)).
Proof.
  unfold encode_command_frame. split.
  - intros He. unbind He u Hver. unbind He u' Hv. destruct u'. apply map_err_ok in Hv.
    destruct (detach_command_ok e Hv) as [Hd Hp]. rewrite Hd in He. cbn [result_bind fst snd] in He.
    split; [done|]. by apply (encode_json_frame_ok _ MK.Command) in He.
  - intros [Hv Hj]. destruct (detach_command_ok e Hv) as [Hd Hp].
    assert (version_validate (ce_version e) = Ok tt) as Hver.
    { unfold envelope_validate in Hv. by apply result_bind_ok in Hv as ([] & ? & _). }
    rewrite version_agrees, Hv, Hd by done. cbn [map_err result_bind fst snd].
    by apply (encode_json_frame_ok _ MK.Command).
Qed.

Lemma decode_command_sound `{Json CommandControl} f e :
  decode_command_frame f = Ok e →
  envelope_validate e = Ok tt ∧ hf_raw f = command_payload (ce_command e).
Proof.
  unfold decode_command_frame. intros H1. unbind H1 control Hc. unbind H1 u Hver. unbind H1 e' He.
  unbind H1 u' Hv. destruct u'. apply map_err_ok in Hv. simplify_eq. split; [done|].
  unfold attach_command in He. destruct control as [e0 layout]. cbn [cc_envelope cc_raw_layout] in He.
  destruct (ce_command e0) eqn:Hcmd, layout; try done;
    unbind He u1 Hr; unfold require_no_raw in Hr;
    try (destruct (bool_decide_reflect (hf_raw f = [])); [|done]; simplify_eq; by rewrite Hcmd).
  unfold require_empty_placeholders in Hr. destruct (_ && _) eqn:Hempty; [|done].
  apply andb_true_iff in Hempty as [->%bool_decide_eq_true ->%bool_decide_eq_true].
  unbind He u2 Ha. unbind He halves Hh. destruct halves as [a b]. apply split_pair_sound in Hh as [-> _].
  simplify_eq. done.
Qed.

Lemma no_panic_encode_command `{Json CommandControl} sequence e :
  no_panic (encode_command_frame sequence e).
Proof.
  unfold encode_command_frame, require_protocol_version, detach_command, join_pair, codec_try_from.
  pose proof (@no_panic_encode_json CommandControl _). no_panic.
Qed.

Lemma decode_encoded_command `{Json CommandControl} sequence e f :
  carries (command_document e) → encode_command_frame sequence e = Ok f →
  decode_command_frame f = Ok e.
Proof.
  intros Hc He. apply encode_command_ok in He as (Hv & bytes & Hj & Hl & ->).
  destruct (detach_command_ok e Hv) as [_ Hp].
  unfold decode_command_frame. rewrite (decode_json_frame_ok _ MK.Command _ (command_document e)) by done.
  cbn [result_bind hf_header json_header fh_version].
  rewrite version_agrees by (by apply command_document_version).
  cbn [result_bind]. rewrite attach_command_ok by done. cbn [result_bind]. by rewrite Hv.
Qed.

(** C34: commands survive the wire.  A command is encoded exactly when it is valid
    and its document fits a header; the frame then decodes to the same command, also
    after it was turned into bytes and back.  Whatever frame is decoded yields a valid
    command, and its payload is exactly the bytes of the write in it, or empty.
    Encoding never panics. *)
Theorem command_codec_exact `{Json CommandControl} (sequence : Z) (e : CommandEnvelope) :
  0 < sequence ≤ u64_max → carries (command_document e) →
  no_panic (encode_command_frame sequence e)
  ∧ (is_ok (encode_command_frame sequence e) = true
     ↔ envelope_validate e = Ok tt ∧ json_fits (command_document e))
  ∧ (∀ f, encode_command_frame sequence e = Ok f →
       decode_command_frame f = Ok e ∧ ∃ bytes, to_bytes f = Ok bytes ∧ from_bytes bytes = Ok f)
  ∧ ∀ f e', decode_command_frame f = Ok e' →
      envelope_validate e' = Ok tt ∧ hf_raw f = command_payload (ce_command e').
Proof.
  intros Hs Hc. split_and!.
  - apply no_panic_encode_command.
  - rewrite is_ok_iff. setoid_rewrite encode_command_ok. unfold json_fits. naive_solver.
  - intros f He. split; [by eapply decode_encoded_command|].
    apply encode_command_ok in He as (Hv & bytes & Hj & Hl & ->).
    destruct (detach_command_ok e Hv) as [_ Hp]. apply to_from_bytes. by apply (json_frame_wf _ MK.Command _ (command_document e)).
  - intros f e'. apply decode_command_sound.
Qed.

(** ** Events *)

Definition event_document (e : EventEnvelope) : EventControl :=
  match ee_event e with
  | DE.MemoryRead view address _ =>
      mkEventControl (ee_with_event (DE.MemoryRead view address []) e) EventRawMemoryRead
  | DE.MemoryWritten stop address before _ =>
      mkEventControl (ee_with_event (DE.MemoryWritten stop address [] []) e)
        (EventRawMemoryWritten (zlen before))
  | _ => mkEventControl e EventRawNone
  end.

Definition event_payload (e : DebugEvent) : list Z :=
  match e with
  | DE.MemoryRead _ _ bytes => bytes
  | DE.MemoryWritten _ _ before after => before ++ after
  | _ => []
  end.

(** Only a memory read names the address of its payload. *)
Definition event_address (e : DebugEvent) : option Z :=
  match e with DE.MemoryRead _ address _ => Some address | _ => None end.

Definition event_frame (sequence : Z) (bytes : list Z) (e : EventEnvelope) : HostFrame :=
  mkHostFrame (json_header sequence MK.Event (event_address (ee_event e)) bytes
                 (event_payload (ee_event e))) (event_payload (ee_event e)).

Lemma event_valid e :
  event_envelope_validate e = Ok tt →
  version_validate (ee_version e) = Ok tt ∧ event_validate (ee_event e) = Ok tt.
Proof.
  unfold event_envelope_validate. intros Hv. unbind Hv u H1. unbind Hv u' H2. by destruct u, u'.
Qed.

Lemma read_payload view address bytes :
  event_validate (DE.MemoryRead view address bytes) = Ok tt →
  payload_ok (Some address) bytes ∧ bytes ≠ [] ∧ zlen bytes ≤ MAX_MEMORY_READ_BYTES.
Proof.
  cbn. unfold validate_span. intros Hv. unbind Hv u Hl.
  apply fail_if_ok, orb_false_iff in Hl as [Hne%bool_decide_eq_false Hmax%Z.ltb_ge].
  unbind Hv n Hn. apply ok_or_ok in Hn. destruct (_ <=? _) in Hn; [|done]. injection Hn as <-.
  unbind Hv m Hm. apply ok_or_ok, checked_add_some in Hm as [_ Hm].
  split_and!; [split|done|done].
  - unfold MAX_MEMORY_READ_BYTES, MAX_RAW_BYTES in *. lia.
  - intros a [= <-]. done.
Qed.

Lemma detach_event_ok e :
  event_envelope_validate e = Ok tt →
  detach_event e = Ok (event_document e, event_address (ee_event e), event_payload (ee_event e))
  ∧ payload_ok (event_address (ee_event e)) (event_payload (ee_event e)).
Proof.
  intros [_ Hv]%event_valid. unfold detach_event, event_document.
  pose proof payload_none. destruct (ee_event e) eqn:He; try done.
  - split; [done|]. by apply (read_payload view).
  - pose proof (memory_write_pair _ _ _ Hv) as Hp. cbn. rewrite join_pair_ok by done.
    split; [done|by apply pair_payload].
Qed.

Lemma attach_event_ok e sequence bytes :
  event_envelope_validate e = Ok tt →
  attach_event (event_frame sequence bytes e) (event_document e) = Ok e.
Proof.
  intros [_ Hv]%event_valid. destruct e as [version seq session state cause ev].
  unfold attach_event, event_document, event_frame. cbn [ee_event] in *. destruct ev; try done.
  - destruct (read_payload _ _ _ Hv) as (_ & Hne & Hmax). cbn.
    rewrite (bool_decide_eq_false_2 _ Hne), (proj2 (Z.ltb_ge _ _)) by done. cbn.
    unfold require_raw_address. cbn. by rewrite bool_decide_eq_true_2.
  - pose proof (memory_write_pair _ _ _ Hv) as Hp. cbn -[split_pair]. by rewrite split_pair_ok.
Qed.

Lemma event_document_version e :
  ee_version (ec_envelope (event_document e)) = ee_version e.
Proof. unfold event_document. by destruct (ee_event e). Qed.

Lemma encode_event_ok `{Json EventControl} sequence e f :
  encode_event_frame sequence e = Ok f
  ↔ event_envelope_validate e = Ok tt
    ∧ ∃ bytes, json_to_vec (event_document e) = inl bytes
        ∧ FIXED_CONTROL_BYTES + zlen bytes ≤ MAX_CONTROL_BYTES ∧ f = event_frame sequence bytes e.
Proof.
  unfold encode_event_frame. split.
  - intros He. unbind He u Hver. unbind He u' Hv. destruct u'. apply map_err_ok in Hv.
    destruct (detach_event_ok e Hv) as [Hd Hp]. rewrite Hd in He. cbn [result_bind fst snd] in He.
    split; [done|]. by apply (encode_json_frame_ok _ MK.Event) in He.
  - intros [Hv Hj]. destruct (detach_event_ok e Hv) as [Hd Hp]. destruct (event_valid e Hv) as [Hver _].
    rewrite version_agrees, Hv, Hd by done. cbn [map_err result_bind fst snd].
    by apply (encode_json_frame_ok _ MK.Event).
Qed.

Lemma decode_event_sound `{Json EventControl} f e :
  decode_event_frame f = Ok e →
  event_envelope_validate e = Ok tt ∧ hf_raw f = event_payload (ee_event e)
  ∧ fh_raw_address (hf_header f) = event_address (ee_event e).
Proof.
  unfold decode_event_frame. intros H1. unbind H1 control Hc. unbind H1 u Hver. unbind H1 e' He.
  unbind H1 u' Hv. destruct u'. apply map_err_ok in Hv. simplify_eq. split; [done|].
  unfold attach_event in He. destruct control as [e0 layout]. cbn [ec_envelope ec_raw_layout] in He.
  destruct (ee_event e0) eqn:Hev, layout; try done; unbind He u1 Hr; unfold require_no_raw in Hr;
    try (destruct (bool_decide_reflect (hf_raw f = [])); [|done];
         destruct (bool_decide_reflect (fh_raw_address (hf_header f) = None)); [|done];
         simplify_eq; by rewrite Hev).
  - apply fail_if_ok in Hr. rewrite !orb_false_iff in Hr.
    destruct Hr as ((->%negb_false_iff%bool_decide_eq_true & _) & _). unbind He u2 Ha.
    unfold require_raw_address in Ha.
    destruct (bool_decide_reflect (fh_raw_address (hf_header f) = Some address)); [|done]. by simplify_eq.
  - unfold require_empty_placeholders in Hr. destruct (_ && _) eqn:Hempty; [|done].
    apply andb_true_iff in Hempty as [->%bool_decide_eq_true ->%bool_decide_eq_true].
    unbind He u2 Ha. unfold require_absent_raw_address in Ha.
    destruct (fh_raw_address (hf_header f)); [done|]. unbind He halves Hh. destruct halves as [a b].
    apply split_pair_sound in Hh as [-> _]. by simplify_eq.
Qed.

Lemma no_panic_encode_event `{Json EventControl} sequence e : no_panic (encode_event_frame sequence e).
Proof.
  unfold encode_event_frame, require_protocol_version, detach_event, join_pair, codec_try_from.
  pose proof (@no_panic_encode_json EventControl _).
  pose proof (λ e, proj1 (event_envelope_attributed e)). no_panic.
Qed.

Lemma decode_encoded_event `{Json EventControl} sequence e f :
  carries (event_document e) → encode_event_frame sequence e = Ok f → decode_event_frame f = Ok e.
Proof.
  intros Hc He. apply encode_event_ok in He as (Hv & bytes & Hj & Hl & ->).
  destruct (detach_event_ok e Hv) as [_ Hp]. destruct (event_valid e Hv) as [Hver _].
  unfold decode_event_frame, event_frame.
  rewrite (decode_json_frame_ok _ MK.Event _ (event_document e)) by done.
  cbn [result_bind hf_header json_header fh_version].
  rewrite event_document_version, version_agrees by done.
  cbn [result_bind]. pose proof (attach_event_ok e sequence bytes Hv) as Hat.
  unfold event_frame in Hat. rewrite Hat. cbn [result_bind]. by rewrite Hv.
Qed.

(** Events survive the wire, in the same sense; the frame of a memory read names
    the address its payload was read at, and no other frame names one. *)
Theorem event_codec_exact `{Json EventControl} (sequence : Z) (e : EventEnvelope) :
  0 < sequence ≤ u64_max → (∀ a, event_address (ee_event e) = Some a → in_u64 a) →
  carries (event_document e) →
  no_panic (encode_event_frame sequence e)
  ∧ (is_ok (encode_event_frame sequence e) = true
     ↔ event_envelope_validate e = Ok tt ∧ json_fits (event_document e))
  ∧ (∀ f, encode_event_frame sequence e = Ok f →
       decode_event_frame f = Ok e ∧ ∃ bytes, to_bytes f = Ok bytes ∧ from_bytes bytes = Ok f)
  ∧ ∀ f e', decode_event_frame f = Ok e' →
      event_envelope_validate e' = Ok tt ∧ hf_raw f = event_payload (ee_event e')
      ∧ fh_raw_address (hf_header f) = event_address (ee_event e').
Proof.
  intros Hs Ha Hc. split_and!.
  - apply no_panic_encode_event.
  - rewrite is_ok_iff. setoid_rewrite encode_event_ok. unfold json_fits. naive_solver.
  - intros f He. split; [by eapply decode_encoded_event|].
    apply encode_event_ok in He as (Hv & bytes & Hj & Hl & ->).
    destruct (detach_event_ok e Hv) as [_ Hp].
    by apply to_from_bytes, (json_frame_wf _ MK.Event _ (event_document e)).
  - intros f e'. apply decode_event_sound.
Qed.
