(* ===== verification/HostResponse.v ===== *)
(** Bounded batches of host responses,
    [resymbol-debugger/src/host_response.rs]: the limits, the incremental builder
    with its permits, and the validation of a finished batch; and the theorem that
    no run of the builder exceeds its budget. *)

From S2P Require Import Prelude Utf8 Protocol HostWire HostWireTheory HostCodec.
Open Scope Z_scope.

Definition MAX_RESPONSE_FRAMES : Z := 256.
Definition MAX_RESPONSE_FRAME_BYTES : Z := 4 + MAX_CONTROL_BYTES + MAX_MEMORY_READ_BYTES.
Definition MAX_RESPONSE_BYTES : Z := 8 * 1024 * 1024.

Record HostResponseLimits : Type := mkResponseLimits {
  rl_max_frames : Z;
  rl_max_frame_bytes : Z;
  rl_max_total_bytes : Z
}.

Definition DEFAULT_HOST_RESPONSE_LIMITS : HostResponseLimits :=
  mkResponseLimits MAX_RESPONSE_FRAMES MAX_RESPONSE_FRAME_BYTES MAX_RESPONSE_BYTES.

Module HostResponseBudgetError.
Inductive budget_error : Type :=
  | InvalidLimits
  | DeclaredFrameCountExceeded (declared maximum : Z)
  | FrameCountMismatch (declared actual : Z)
  | FrameTooLarge (index actual maximum : Z)
  | TotalBytesOverflow
  | TotalBytesExceeded (actual maximum : Z)
  | RecordedTotalMismatch (recorded actual : Z)
  | StaleFramePermit
  | InvalidFrameLength.
End HostResponseBudgetError.
Abbreviation HostResponseBudgetError := HostResponseBudgetError.budget_error.
Module HRE := HostResponseBudgetError.

Abbreviation budget_result A := (result A HostResponseBudgetError).

Definition limits_validate (l : HostResponseLimits) : budget_result unit :=
  if (rl_max_frames l =? 0) || (rl_max_frame_bytes l =? 0) || (rl_max_total_bytes l =? 0)
  then Err HRE.InvalidLimits else Ok tt.

Definition HostResponseLimits_new (max_frames max_frame_bytes max_total_bytes : Z)
    : budget_result HostResponseLimits :=
  do? fail_if ((max_frames =? 0) || (max_frame_bytes =? 0) || (max_total_bytes =? 0))
        HRE.InvalidLimits in
  Ok (mkResponseLimits max_frames max_frame_bytes max_total_bytes).

Definition response_frame_len (h : FrameHeader) : budget_result Z :=
  map_err (λ _, HRE.InvalidFrameLength) (frame_len h).

(** One more frame at [index], after [total] bytes: its length and the new total,
    if both limits allow it. *)
Definition charge (l : HostResponseLimits) (index before : Z) (h : FrameHeader)
    : budget_result (Z * Z) :=
  let? frame_bytes := response_frame_len h in
  do? fail_if (rl_max_frame_bytes l <? frame_bytes)
        (HRE.FrameTooLarge index frame_bytes (rl_max_frame_bytes l)) in
  let? after := ok_or (checked_add usize_max before frame_bytes) HRE.TotalBytesOverflow in
  do? fail_if (rl_max_total_bytes l <? after)
        (HRE.TotalBytesExceeded after (rl_max_total_bytes l)) in
  Ok (frame_bytes, after).

Record HostResponseBatch : Type := mkResponseBatch {
  rb_declared_frame_count : Z;
  rb_frames : list HostFrame;
  rb_total_bytes : Z
}.

Fixpoint charge_all (l : HostResponseLimits) (index before : Z) (frames : list HostFrame)
    : budget_result Z :=
  match frames with
  | [] => Ok before
  | f :: frames' =>
      let? charged := charge l index before (hf_header f) in
      charge_all l (index + 1) charged.2 frames'
  end.

Definition batch_validate (b : HostResponseBatch) (l : HostResponseLimits) : budget_result unit :=
  do? limits_validate l in
  do? fail_if (rl_max_frames l <? rb_declared_frame_count b)
        (HRE.DeclaredFrameCountExceeded (rb_declared_frame_count b) (rl_max_frames l)) in
  do? fail_if (negb (rb_declared_frame_count b =? zlen (rb_frames b)))
        (HRE.FrameCountMismatch (rb_declared_frame_count b) (zlen (rb_frames b))) in
  let? total_bytes := charge_all l 0 0 (rb_frames b) in
  fail_if (negb (total_bytes =? rb_total_bytes b))
    (HRE.RecordedTotalMismatch (rb_total_bytes b) total_bytes).

Record HostResponseFramePermit : Type := mkPermit {
  fp_index : Z;
  fp_frame_bytes : Z;
  fp_total_after : Z
}.
#[global] Instance HostResponseFramePermit_eq_dec : EqDecision HostResponseFramePermit.
Proof. solve_decision. Defined.

Record HostResponseBatchBuilder : Type := mkBuilder {
  bb_limits : HostResponseLimits;
  bb_declared_frame_count : Z;
  bb_frames : list HostFrame;
  bb_total_bytes : Z
}.

(** The reservation of the vector for the declared frames is not modelled: it can fail only
    for limits that allow more frames than memory holds. *)
Definition builder_new (declared : Z) (l : HostResponseLimits)
    : budget_result HostResponseBatchBuilder :=
  do? limits_validate l in
  do? fail_if (rl_max_frames l <? declared)
        (HRE.DeclaredFrameCountExceeded declared (rl_max_frames l)) in
  Ok (mkBuilder l declared [] 0).

Definition preflight_frame (b : HostResponseBatchBuilder) (h : FrameHeader)
    : budget_result HostResponseFramePermit :=
  let index := zlen (bb_frames b) in
  do? fail_if (bb_declared_frame_count b <=? index)
        (HRE.FrameCountMismatch (bb_declared_frame_count b) (Z.min (index + 1) usize_max)) in
  let? charged := charge (bb_limits b) index (bb_total_bytes b) h in
  Ok (mkPermit index charged.1 charged.2).

Abbreviation builder_op A := (smonad HostResponseBatchBuilder HostResponseBudgetError A).

Definition push_preflighted (permit : HostResponseFramePermit) (f : HostFrame) : builder_op unit :=
  let! expected := sread (λ b, preflight_frame b (hf_header f)) in
  do! slift (fail_if (negb (bool_decide (permit = expected))) HRE.StaleFramePermit) in
  supd (λ b, mkBuilder (bb_limits b) (bb_declared_frame_count b) (bb_frames b ++ [f])
               (fp_total_after expected)).

Definition builder_push (f : HostFrame) : builder_op unit :=
  let! permit := sread (λ b, preflight_frame b (hf_header f)) in
  push_preflighted permit f.

Definition builder_finish (b : HostResponseBatchBuilder) : budget_result HostResponseBatch :=
  do? fail_if (negb (zlen (bb_frames b) =? bb_declared_frame_count b))
        (HRE.FrameCountMismatch (bb_declared_frame_count b) (zlen (bb_frames b))) in
  let batch := mkResponseBatch (bb_declared_frame_count b) (bb_frames b) (bb_total_bytes b) in
  do? batch_validate batch (bb_limits b) in
  Ok batch.

Fixpoint push_frames (frames : list HostFrame) : builder_op unit :=
  match frames with
  | [] => sret tt
  | f :: frames' => do! builder_push f in push_frames frames'
  end.

Definition try_from_frames (frames : list HostFrame) (l : HostResponseLimits)
    : budget_result HostResponseBatch :=
  let? builder := builder_new (zlen frames) l in
  let '(pushed, builder) := push_frames frames builder in
  do? pushed in
  builder_finish builder.

(** ** The budget *)

(** The encoded length of a frame, and the frames a limit allows, with their total. *)
Definition frame_size (f : HostFrame) (n : Z) : Prop := frame_len (hf_header f) = Ok n.

Definition affordable (l : HostResponseLimits) (frames : list HostFrame) (total_bytes : Z) : Prop :=
  ∃ sizes, Forall2 frame_size frames sizes ∧ Forall (λ n, n ≤ rl_max_frame_bytes l) sizes
           ∧ total_bytes = foldr Z.add 0 sizes
           ∧ (frames ≠ [] → total_bytes ≤ rl_max_total_bytes l ∧ total_bytes ≤ usize_max).

Definition raw_typed (f : HostFrame) : Prop := 0 ≤ fh_raw_len (hf_header f).

Lemma charge_ok l index before h n after :
  charge l index before h = Ok (n, after)
  ↔ frame_len h = Ok n ∧ n ≤ rl_max_frame_bytes l ∧ after = before + n ∧ after ≤ usize_max
    ∧ after ≤ rl_max_total_bytes l.
Proof.
  unfold charge, response_frame_len. split.
  - intros H. unbind H m Hm. apply map_err_ok in Hm. unbind H u Hu. apply fail_if_ok, Z.ltb_ge in Hu.
    unbind H t Ht. apply ok_or_ok, checked_add_some in Ht as [-> ?]. unbind H u' Hu'.
    apply fail_if_ok, Z.ltb_ge in Hu'. simplify_eq. done.
  - intros (Hn & Hf & -> & Hu & Ht). rewrite Hn. cbn [map_err result_bind].
    rewrite (proj2 (Z.ltb_ge _ _)) by done. cbn [fail_if result_bind]. unfold checked_add.
    rewrite (proj2 (Z.leb_le _ _)) by done. cbn [ok_or result_bind].
    by rewrite (proj2 (Z.ltb_ge _ _)).
Qed.

Lemma no_panic_charge l index before h : no_panic (charge l index before h).
Proof.
  unfold charge, response_frame_len, frame_len, control_len, validate_control_len, wire_try_from. no_panic.
Qed.
#[local] Hint Resolve no_panic_charge : nopanic.

Lemma frame_size_nonneg f n : raw_typed f → frame_size f n → 0 ≤ n.
Proof.
  unfold raw_typed, frame_size, frame_len, wire_try_from. intros Hr H. unbind H raw Hraw.
  destruct (_ <=? _) in Hraw; simplify_eq. unbind H c Hc. apply control_len_ok in Hc as [-> _].
  apply ok_or_ok, bind_Some in H as (v & [-> _]%checked_add_some & [-> _]%checked_add_some).
  pose proof (body_len_nonneg (fh_body (hf_header f))). unfold PREFIX_BYTES, FIXED_CONTROL_BYTES. lia.
Qed.

Lemma sizes_nonneg frames sizes :
  Forall raw_typed frames → Forall2 frame_size frames sizes → 0 ≤ foldr Z.add 0 sizes.
Proof.
  intros Hr. induction 1 as [|f n frames sizes Hn _ IH]; [done|].
  apply Forall_cons_1 in Hr as [Hf Hr]. specialize (IH Hr). apply frame_size_nonneg in Hn; [|done]. cbn. lia.
Qed.

Lemma affordable_nil l : affordable l [] 0.
Proof. by exists []. Qed.

Lemma foldr_add_snoc sizes n : foldr Z.add 0 (sizes ++ [n]) = foldr Z.add 0 sizes + n.
Proof. induction sizes; cbn; lia. Qed.

Lemma affordable_snoc l index frames before f n after :
  affordable l frames before → charge l index before (hf_header f) = Ok (n, after) →
  affordable l (frames ++ [f]) after.
Proof.
  intros (sizes & Hs & Hf & -> & _) (Hn & Hmax & -> & Hu & Ht)%charge_ok.
  exists (sizes ++ [n]). rewrite foldr_add_snoc. split_and!; [|by apply Forall_app; split; [|by constructor]|done|done].
  apply Forall2_app; [done|by constructor].
Qed.

Lemma charge_all_ok l index before frames sizes :
  Forall raw_typed frames → Forall2 frame_size frames sizes →
  Forall (λ n, n ≤ rl_max_frame_bytes l) sizes →
  (frames ≠ [] → before + foldr Z.add 0 sizes ≤ rl_max_total_bytes l
                 ∧ before + foldr Z.add 0 sizes ≤ usize_max) →
  charge_all l index before frames = Ok (before + foldr Z.add 0 sizes).
Proof.
  intros Hr Hs. revert index before. induction Hs as [|f n frames sizes Hn Hs IH]; intros index before Hf Hb.
  { cbn. f_equal. lia. }
  apply Forall_cons_1 in Hr as [Hr1 Hr2]. apply Forall_cons_1 in Hf as [Hf1 Hf2].
  destruct Hb as [Hb1 Hb2]; [done|]. pose proof (sizes_nonneg _ _ Hr2 Hs). cbn [foldr charge_all] in *.
  rewrite (proj2 (charge_ok l index before (hf_header f) n (before + n))) by (split_and!; [done|done|done|lia..]).
  cbn [result_bind snd]. rewrite IH; [f_equal; lia|done|done|]. intros _. lia.
Qed.

Lemma finish_ok b batch :
  limits_validate (bb_limits b) = Ok tt → bb_declared_frame_count b ≤ rl_max_frames (bb_limits b) →
  Forall raw_typed (bb_frames b) → affordable (bb_limits b) (bb_frames b) (bb_total_bytes b) →
  builder_finish b = Ok batch
  ↔ zlen (bb_frames b) = bb_declared_frame_count b
    ∧ batch = mkResponseBatch (bb_declared_frame_count b) (bb_frames b) (bb_total_bytes b).
Proof.
  intros Hl Hd Hr (sizes & Hs & Hf & Htot & Hmax). unfold builder_finish, batch_validate. split.
  - intros H. unbind H u Hu. apply fail_if_ok, negb_false_iff, Z.eqb_eq in Hu. unbind H u' Hu'.
    by simplify_eq.
  - intros [Hn ->]. rewrite Hn, Z.eqb_refl. cbn [negb fail_if result_bind rb_declared_frame_count rb_frames].
    rewrite Hl. cbn [result_bind]. rewrite (proj2 (Z.ltb_ge _ _)) by done. cbn [fail_if result_bind].
    rewrite Hn, Z.eqb_refl. cbn [negb fail_if result_bind].
    rewrite (charge_all_ok _ 0 0 _ sizes) by (rewrite ?Z.add_0_l, <-?Htot; done).
    cbn [result_bind rb_total_bytes]. by rewrite Z.add_0_l, <-Htot, Z.eqb_refl.
Qed.

(** ** Runs of the builder *)

Inductive builder_call : Type :=
  | CallPush (f : HostFrame)
  | CallPushPreflighted (permit : HostResponseFramePermit) (f : HostFrame).

Definition builder_exec (c : builder_call) : builder_op unit :=
  match c with
  | CallPush f => builder_push f
  | CallPushPreflighted permit f => push_preflighted permit f
  end.

Definition call_frame (c : builder_call) : HostFrame :=
  match c with CallPush f | CallPushPreflighted _ f => f end.

Definition builder_run (calls : list builder_call) (b : HostResponseBatchBuilder)
    : HostResponseBatchBuilder := foldl (λ b c, (builder_exec c b).2) b calls.

(** A call adds its frame within the budget or changes nothing. *)
Lemma exec_charges c b :
  (∃ e, builder_exec c b = (Err e, b))
  ∨ ∃ n after, zlen (bb_frames b) < bb_declared_frame_count b
      ∧ charge (bb_limits b) (zlen (bb_frames b)) (bb_total_bytes b) (hf_header (call_frame c)) = Ok (n, after)
      ∧ builder_exec c b = (Ok tt, mkBuilder (bb_limits b) (bb_declared_frame_count b)
                                     (bb_frames b ++ [call_frame c]) after).
Proof.
  assert (no_panic (preflight_frame b (hf_header (call_frame c)))) as Hnp
    by (unfold preflight_frame; no_panic).
  assert (∀ permit f, call_frame c = f →
    (∃ e, push_preflighted permit f b = (Err e, b))
    ∨ ∃ n after, zlen (bb_frames b) < bb_declared_frame_count b
        ∧ charge (bb_limits b) (zlen (bb_frames b)) (bb_total_bytes b) (hf_header f) = Ok (n, after)
        ∧ push_preflighted permit f b = (Ok tt, mkBuilder (bb_limits b) (bb_declared_frame_count b)
                                               (bb_frames b ++ [f]) after)) as Hpp.
  { intros permit f <-. unfold push_preflighted, sbind, sread, slift, supd.
    destruct (preflight_frame b _) as [expected|e|p] eqn:Hpf; [|left; by exists e|by destruct (Hnp p)].
    destruct (bool_decide_reflect (permit = expected)); cbn; [right|left; by eexists].
    unfold preflight_frame in Hpf. unbind Hpf u Hu. apply fail_if_ok, Z.leb_gt in Hu.
    unbind Hpf charged Hc. destruct charged as [m after]. simplify_eq. by exists m, after. }
  destruct c as [f|permit f]; cbn [builder_exec call_frame] in *; [|by apply Hpp].
  assert (builder_push f b = match preflight_frame b (hf_header f) with
                             | Ok permit => push_preflighted permit f b
                             | Err e => (Err e, b)
                             | Panic p => (Panic p, b)
                             end) as -> by done.
  destruct (preflight_frame b (hf_header f)) as [permit|e|p]; [by apply Hpp|left; by exists e|].
  by destruct (Hnp p).
Qed.

(** What every run of a builder keeps. *)
Definition within (l : HostResponseLimits) (declared : Z) (b : HostResponseBatchBuilder) : Prop :=
  bb_limits b = l ∧ bb_declared_frame_count b = declared ∧ zlen (bb_frames b) ≤ Z.max 0 declared
  ∧ Forall raw_typed (bb_frames b) ∧ affordable l (bb_frames b) (bb_total_bytes b).

Lemma exec_within l declared c b :
  raw_typed (call_frame c) → within l declared b → within l declared (builder_exec c b).2.
Proof.
  intros Hr (Hl & Hd & Hn & Ht & Ha).
  destruct (exec_charges c b) as [[e ->]|(n & after & Hlt & Hc & ->)]; [done|].
  unfold within. cbn. rewrite zlen_app, zlen_singleton. split_and!; [done..|lia| |].
  - apply Forall_app. by split; [|constructor].
  - rewrite Hl in *. by eapply affordable_snoc.
Qed.

Lemma run_within l declared calls b :
  Forall (λ c, raw_typed (call_frame c)) calls → within l declared b →
  within l declared (builder_run calls b).
Proof.
  intros Hc. revert b. induction Hc as [|c calls Hc _ IH]; intros b Hb; [done|].
  by apply IH, exec_within.
Qed.

Lemma builder_new_ok declared l b :
  builder_new declared l = Ok b
  ↔ limits_validate l = Ok tt ∧ declared ≤ rl_max_frames l ∧ b = mkBuilder l declared [] 0.
Proof.
  unfold builder_new. split.
  - intros H. unbind H u Hu. unbind H u' Hu'. destruct u. apply fail_if_ok, Z.ltb_ge in Hu'. by simplify_eq.
  - intros (-> & Hd & ->). cbn. by rewrite (proj2 (Z.ltb_ge _ _)).
Qed.

(** No host spends more than its budget.  Whatever frames are pushed, under
    permits of this or of another builder, a builder holds at most the declared
    number of frames, each within the frame limit and together within the total
    limit, and its running total is their exact size; a refused frame changes
    nothing; and it finishes exactly when the declared number arrived, with exactly
    these frames, in a batch that validates again.  Nothing panics. *)
Theorem response_budget_kept (l : HostResponseLimits) (declared : Z) (b : HostResponseBatchBuilder)
    (calls : list builder_call) :
  builder_new declared l = Ok b → Forall (λ c, raw_typed (call_frame c)) calls →
  let b' := builder_run calls b in
  within l declared b'
  ∧ (∀ c, match builder_exec c b' with
          | (Ok _, b'') => bb_frames b'' = bb_frames b' ++ [call_frame c]
          | (Err _, b'') => b'' = b'
          | (Panic _, _) => False
          end)
  ∧ ∀ batch, builder_finish b' = Ok batch
    ↔ zlen (bb_frames b') = declared
      ∧ batch = mkResponseBatch declared (bb_frames b') (bb_total_bytes b')
      ∧ batch_validate batch l = Ok tt.
Proof.
  intros (Hl & Hd & ->)%builder_new_ok Hc b'.
  assert (within l declared b') as Hw.
  { apply run_within; [done|]. split_and!; [done|done|apply Z.le_max_l|done|apply affordable_nil]. }
  pose proof Hw as (Hbl & Hbd & _ & Ht & Ha). split_and!; [done| |].
  - intros c. by destruct (exec_charges c b') as [[e ->]|(n & after & _ & _ & ->)].
  - intros batch. clearbody b'.
    assert (Hf := finish_ok b' batch). rewrite Hbl, Hbd in Hf. specialize (Hf Hl Hd Ht Ha). split; [|naive_solver]. intros H. pose proof H as [Hn Heq]%Hf. split_and!; [done..|].
    unfold builder_finish in H. unbind H u Hu. unbind H u' Hu'. destruct u'. rewrite Hbd, Hbl in Hu'. by subst.
Qed.
