(* ===== verification/HostEvidence.v ===== *)
(** The evidence rules of the host client, [resymbol-debugger/src/host_client.rs]:
    how a batch of response frames is decoded, compared with the command that was
    sent and with the controller's own reducer, and turned into a command receipt
    or an error.

    [ClientSession] holds the reducer and the last verified state.  The fields of
    [DebugHostClient] that decoding reads or advances are the record [Inbound];
    the boolean fields of [ResponseEvidence] are one function from their names.
    A [&'static str] that names a kind of evidence is a [string]. *)

From S2P Require Import Prelude Identity Sandbox Protocol Authorization SessionMachine.
From S2P Require Import LivePatchHistory HostWire HostCodec HostResponse.
Open Scope Z_scope.

(** The queue of accepted observations is as long as a batch. *)
Definition MAX_PENDING_UNSOLICITED_EVENTS : Z := MAX_RESPONSE_FRAMES.

(** ** Errors *)

Module HostTransportError.
Inductive host_transport_error : Type :=
  | Disconnected
  | ResponseBudget (e : HostResponseBudgetError)
  | Protocol (detail : list Z)
  | Backend (detail : list Z).
End HostTransportError.
Abbreviation HostTransportError := HostTransportError.host_transport_error.
Module HTE := HostTransportError.

(** [DiagnosticText::new] or else the static text, whose construction is the
    [expect]. *)
Definition bounded_transport_detail {E} (detail : list Z) : result (list Z) E :=
  match DiagnosticText_new detail with
  | Ok text => Ok text
  | _ => expect (DiagnosticText_new (str "invalid or overlong transport diagnostic"))
           "static transport diagnostic is valid"
  end.

(** [Err(HostTransportError::protocol(detail))]. *)
Definition transport_protocol {A} (detail : list Z) : result A HostTransportError :=
  let? text := bounded_transport_detail detail in Err (HTE.Protocol text).

Definition is_disconnected (e : HostTransportError) : bool :=
  match e with HTE.Disconnected => true | _ => false end.

Module DebugHostClientError.
Inductive client_error : Type :=
  | Transport (e : HostTransportError)
  | ResponseBudget (e : HostResponseBudgetError)
  | Codec (e : HostCodecError)
  | Wire (e : WireError)
  | Handshake (e : HandshakeError)
  | Protocol (e : ProtocolValidationError)
  | SessionMachine (e : SessionMachineError)
  | Attestation (e : AttestationMismatch)
  | CleanupReceipt (e : CleanupReceiptError)
  | CleanupAttemptFailure (e : CleanupAttemptFailureError)
  | UnexpectedHandshakeResponseCount (actual : Z)
  | HandshakeCarriedRawPayload
  | HandshakeIncomplete
  | Disconnected
  | ConnectionFailed
  | SessionAlreadyOwned
  | SessionNotOwned
  | SessionNotClosed (state : SessionStateKind)
  | SessionStillOwned
  | SessionAbandonRequiresFailedConnection
  | GlobalCommandRequiresConnectionApi
  | CapabilityProbeRequiresNoSession
  | UnexpectedGlobalSessionContext
  | UnexpectedGlobalEvent
  | MissingCapabilityReport
  | DuplicateCapabilityReport
  | CapabilityProbeRejected (code message : list Z)
  | CommandIdOverflow
  | MissingCommandResult (command_id : Z)
  | TooManyResponseFrames (actual maximum : Z)
  | UnexpectedFrameSequence (expected actual : Z)
  | FrameSequenceOverflow
  | UnexpectedWireProtocolVersion (expected_major expected_minor actual_major actual_minor : Z)
  | UnexpectedTypedProtocolVersion (expected actual : ProtocolVersion)
  | UnexpectedCommandCorrelation (expected : Z) (actual : option Z)
  | UnsolicitedEventCarriedCorrelation (command_id : Z)
  | EmptyUnsolicitedEventBatch
  | UnexpectedUnsolicitedState (state : SessionStateKind)
  | UnexpectedUnsolicitedEvent
  | UnsolicitedEventAfterCorrelatedResponse (command_id : Z)
  | PendingUnsolicitedEventQueueOverflow
  | PendingUnsolicitedEventQueueFull (actual maximum : Z)
  | UnexpectedEventSession (expected : Z) (actual : option Z)
  | UnexpectedEventState (expected : StateToken) (actual : option StateToken)
  | DuplicateCommandResult (command_id : Z)
  | EventAfterCommandResult (command_id : Z)
  | DuplicateCommandEvidence (evidence : string)
  | LiveTargetBindingBeforeOpenState (command_id : Z)
  | LiveTargetBindingBeforeSandboxAttestation (command_id : Z)
  | LiveTargetBinaryMismatch (expected actual : list Z)
  | LiveTargetProcessMismatch (expected actual : ProcessIdentity)
  | DuplicateLiveTargetBinding
  | ReplacedLiveTargetBinding
  | UnexpectedCommandEvidence (command_id : Z) (evidence : string)
  | RejectedCommandProducedEvidence (command_id : Z)
  | MissingCommandState (command_id : Z)
  | MissingCommandEvidence (command_id : Z) (command : string) (final_state : SessionStateKind)
  | IllegalHostStateTransition (from to : SessionStateKind)
  | ReducerStateMismatch (expected actual : SessionState)
  | UnexpectedSandboxEvidence
  | SandboxEvidenceSessionMismatch (expected actual : Z)
  | UnexpectedSandboxProvider
  | UnexpectedSandboxLifecycleState (expected : option SandboxLifecycleState)
      (actual : SandboxLifecycleState)
  | CleanupReceiptOutsideClose
  | CleanupAttemptReceiptOutsideClose
  | SandboxCleanupNotVerified.
End DebugHostClientError.
Abbreviation DebugHostClientError := DebugHostClientError.client_error.
Module DHE := DebugHostClientError.

Abbreviation client_result A := (result A DebugHostClientError).

(** ** State *)

Record ClientSession : Type := mkClientSession {
  cs_reducer : SessionMachine;
  cs_verified_state : SessionState;
  cs_sandbox_cleanup_verified : bool;
  cs_live_target_binding : option LiveTargetBinding
}.

Definition cs_set_reducer (m : SessionMachine) (s : ClientSession) : ClientSession :=
  mkClientSession m (cs_verified_state s) (cs_sandbox_cleanup_verified s) (cs_live_target_binding s).
Definition cs_set_verified (v : SessionState) (s : ClientSession) : ClientSession :=
  mkClientSession (cs_reducer s) v (cs_sandbox_cleanup_verified s) (cs_live_target_binding s).
Definition cs_set_cleanup_verified (b : bool) (s : ClientSession) : ClientSession :=
  mkClientSession (cs_reducer s) (cs_verified_state s) b (cs_live_target_binding s).
Definition cs_set_binding (b : option LiveTargetBinding) (s : ClientSession) : ClientSession :=
  mkClientSession (cs_reducer s) (cs_verified_state s) (cs_sandbox_cleanup_verified s) b.

(** The negotiated versions and the two inbound stream positions. *)
Record Inbound : Type := mkInbound {
  ib_negotiated_version : WireProtocolVersion;
  ib_typed_version : ProtocolVersion;
  ib_next_frame_sequence : Z;
  ib_event_cursor : EventSequenceCursor
}.

Definition ib_set_next (n : Z) (ib : Inbound) : Inbound :=
  mkInbound (ib_negotiated_version ib) (ib_typed_version ib) n (ib_event_cursor ib).
Definition ib_set_cursor (c : EventSequenceCursor) (ib : Inbound) : Inbound :=
  mkInbound (ib_negotiated_version ib) (ib_typed_version ib) (ib_next_frame_sequence ib) c.

Inductive SandboxRejectionDiagnostic : Type :=
  | DiagnosticProviderUnavailable
  | DiagnosticFailed (failure : SandboxFailure) (cleanup_attempt : bool).

(** The boolean fields of [ResponseEvidence]. *)
Inductive EvidenceFlag : Type :=
  | StateChangedSeen | CommandStateObserved | FailureStateObserved | AttestationSeen
  | MemoryReadSeen | MemoryWrittenSeen | RegistersReadSeen | RegistersWrittenSeen
  | BreakpointChangedSeen | LiveTargetBoundSeen | SandboxEventSeen.
#[global] Instance EvidenceFlag_eq_dec : EqDecision EvidenceFlag.
Proof. solve_decision. Defined.

Record ResponseEvidence : Type := mkResponseEvidence {
  ev_flag : EvidenceFlag → bool;
  ev_state_change_count : Z;
  ev_cleanup_receipt : option SandboxCleanupReceipt;
  ev_incomplete_cleanup_receipt : option SandboxCleanupReceipt;
  ev_memory_write_failure : option MemoryWriteFailure;
  ev_sandbox_states : list SandboxLifecycleState;
  ev_sandbox_rejection_diagnostic : option SandboxRejectionDiagnostic
}.

Definition ResponseEvidence_default : ResponseEvidence :=
  mkResponseEvidence (λ _, false) 0 None None None [] None.

Definition ev_set_flag (f : EvidenceFlag) (e : ResponseEvidence) : ResponseEvidence :=
  mkResponseEvidence (λ g, bool_decide (g = f) || ev_flag e g) (ev_state_change_count e)
    (ev_cleanup_receipt e) (ev_incomplete_cleanup_receipt e) (ev_memory_write_failure e)
    (ev_sandbox_states e) (ev_sandbox_rejection_diagnostic e).
Definition ev_set_change_count (n : Z) (e : ResponseEvidence) : ResponseEvidence :=
  mkResponseEvidence (ev_flag e) n (ev_cleanup_receipt e) (ev_incomplete_cleanup_receipt e)
    (ev_memory_write_failure e) (ev_sandbox_states e) (ev_sandbox_rejection_diagnostic e).
Definition ev_set_cleanup (r : SandboxCleanupReceipt) (e : ResponseEvidence) : ResponseEvidence :=
  mkResponseEvidence (ev_flag e) (ev_state_change_count e) (Some r)
    (ev_incomplete_cleanup_receipt e) (ev_memory_write_failure e) (ev_sandbox_states e)
    (ev_sandbox_rejection_diagnostic e).
Definition ev_set_incomplete (r : SandboxCleanupReceipt) (e : ResponseEvidence)
    : ResponseEvidence :=
  mkResponseEvidence (ev_flag e) (ev_state_change_count e) (ev_cleanup_receipt e) (Some r)
    (ev_memory_write_failure e) (ev_sandbox_states e) (ev_sandbox_rejection_diagnostic e).
Definition ev_set_write_failure (f : MemoryWriteFailure) (e : ResponseEvidence)
    : ResponseEvidence :=
  mkResponseEvidence (ev_flag e) (ev_state_change_count e) (ev_cleanup_receipt e)
    (ev_incomplete_cleanup_receipt e) (Some f) (ev_sandbox_states e)
    (ev_sandbox_rejection_diagnostic e).
Definition ev_push_sandbox_state (s : SandboxLifecycleState) (e : ResponseEvidence)
    : ResponseEvidence :=
  mkResponseEvidence (ev_flag e) (ev_state_change_count e) (ev_cleanup_receipt e)
    (ev_incomplete_cleanup_receipt e) (ev_memory_write_failure e) (ev_sandbox_states e ++ [s])
    (ev_sandbox_rejection_diagnostic e).
Definition ev_set_diagnostic (d : SandboxRejectionDiagnostic) (e : ResponseEvidence)
    : ResponseEvidence :=
  mkResponseEvidence (ev_flag e) (ev_state_change_count e) (ev_cleanup_receipt e)
    (ev_incomplete_cleanup_receipt e) (ev_memory_write_failure e) (ev_sandbox_states e) (Some d).

Definition has_effect (e : ResponseEvidence) : bool :=
  ev_flag e StateChangedSeen || ev_flag e AttestationSeen
  || negb (bool_decide (ev_cleanup_receipt e = None))
  || negb (bool_decide (ev_incomplete_cleanup_receipt e = None))
  || ev_flag e MemoryReadSeen || ev_flag e MemoryWrittenSeen
  || ev_flag e RegistersReadSeen || ev_flag e RegistersWrittenSeen
  || ev_flag e BreakpointChangedSeen || ev_flag e LiveTargetBoundSeen
  || ev_flag e SandboxEventSeen.

Inductive RejectedResponseDisposition : Type :=
  | RollBack | RetainCleanupRequiredFailure | RetainTerminalWriteFailure.

(** ** Accessors of the reducer *)

Definition sandbox_state (m : SessionMachine) : option SandboxLifecycleState :=
  sm_state <$> m_sandbox m.
Definition expected_attestation (m : SessionMachine) : option ExpectedSandboxAttestation :=
  sm_expected <$> m_sandbox m.
Definition accepted_sandbox_attestation (m : SessionMachine) : option SandboxAttestation :=
  m_sandbox m ≫= sm_accepted_attestation.

Definition expected_sandbox_provider (m : SessionMachine) : option SandboxProviderSelection :=
  match expected_attestation m with
  | Some expected => Some (ex_provider expected)
  | None => sob_provider <$> m_inherited_sandbox m
  end.

(** ** Commands and failure stages *)

Definition is_sandboxed_open (c : DebugCommand) : bool :=
  match c with
  | DC.Open (DTR.Launch t) =>
      match lt_environment t with Sandboxed _ => true | HostEnvironment _ => false end
  | _ => false
  end.

Definition is_inherited_sandbox_open (c : DebugCommand) : bool :=
  match c with
  | DC.Open (DTR.Attach t) =>
      match att_scope t with OwnedSandbox _ _ => true | HostScope _ _ => false end
  | _ => false
  end.

Definition is_rollback_safe_failure_stage (stage : SandboxFailureStage) : bool :=
  match stage with
  | SandboxFailureStage.Policy | SandboxFailureStage.Discovery => true
  | _ => false
  end.

Definition command_allows_failure_stage (c : DebugCommand) (stage : SandboxFailureStage) : bool :=
  match c with
  | DC.Open _ =>
      if is_sandboxed_open c then negb (bool_decide (stage = SandboxFailureStage.Cleanup))
      else if is_inherited_sandbox_open c then bool_decide (stage = SandboxFailureStage.Runtime)
      else false
  | DC.Continue _ | DC.Pause _ | DC.Step _ _ _ | DC.Terminate _ =>
      bool_decide (stage = SandboxFailureStage.Runtime)
  | DC.ProbeCapabilities | DC.ReadMemory _ _ _ | DC.WriteMemory _ _ _ _ | DC.ReadRegisters _ _
  | DC.WriteRegisters _ _ _ | DC.SetBreakpoint _ _ _ | DC.RemoveBreakpoint _ _
  | DC.CaptureSnapshot _ | DC.Detach _ | DC.Close _ => false
  end.

Definition is_terminate_or_close (c : DebugCommand) : bool :=
  match c with DC.Terminate _ | DC.Close _ => true | _ => false end.

Definition command_allows_sandbox_lifecycle (c : DebugCommand) (lifecycle : SandboxLifecycleEvent)
    : bool :=
  match lifecycle with
  | SandboxLifecycleEvent.Attested _ | SandboxLifecycleEvent.ProviderUnavailable _ =>
      is_sandboxed_open c
  | SandboxLifecycleEvent.CleanupAttemptFailed _ | SandboxLifecycleEvent.Closed _ =>
      is_terminate_or_close c
  | SandboxLifecycleEvent.Failed failure => command_allows_failure_stage c (sf_stage failure)
  | SandboxLifecycleEvent.State _ _ =>
      is_sandboxed_open c
      || match c with
         | DC.Continue _ | DC.Pause _ | DC.Step _ _ _ | DC.Terminate _ | DC.Close _ => true
         | _ => false
         end
  end.

Definition command_name (c : DebugCommand) : string :=
  match c with
  | DC.ProbeCapabilities => "probe-capabilities"
  | DC.Open _ => "open"
  | DC.Continue _ => "continue"
  | DC.Pause _ => "pause"
  | DC.Step _ _ _ => "step"
  | DC.ReadMemory _ _ _ => "read-memory"
  | DC.WriteMemory _ _ _ _ => "write-memory"
  | DC.ReadRegisters _ _ => "read-registers"
  | DC.WriteRegisters _ _ _ => "write-registers"
  | DC.SetBreakpoint _ _ _ => "set-breakpoint"
  | DC.RemoveBreakpoint _ _ => "remove-breakpoint"
  | DC.CaptureSnapshot _ => "capture-snapshot"
  | DC.Detach _ => "detach"
  | DC.Terminate _ => "terminate"
  | DC.Close _ => "close"
  end.

(** The [operation_phase] of a runtime failure. *)
Definition runtime_failure_phase (c : DebugCommand) (m : SessionMachine) (e : ResponseEvidence)
    : bool :=
  let state := state_kind (m_state m) in
  let inherited := negb (bool_decide (m_inherited_sandbox m = None)) in
  let in_state s := bool_decide (state = s) in
  let in_sandbox s := bool_decide (sandbox_state m = Some s) in
  let attested := ev_flag e AttestationSeen in
  match c with
  | DC.Open _ =>
      if is_sandboxed_open c then
        in_state SSK.AttestationAccepted && in_sandbox SLS.AttestationAccepted && attested
      else if is_inherited_sandbox_open c then
        in_state SSK.Opening && inherited && bool_decide (sandbox_state m = None) && negb attested
      else false
  | DC.Continue _ | DC.Step _ _ _ =>
      in_state SSK.Running && (in_sandbox SLS.Running || inherited) && negb attested
  | DC.Pause _ =>
      in_state SSK.Pausing && (in_sandbox SLS.Running || inherited) && negb attested
  | DC.Terminate _ =>
      in_state SSK.Closing && (in_sandbox SLS.Cleanup || inherited) && negb attested
  | _ => false
  end.

(** The [phase_valid] match of [validate_sandbox_failure_phase]. *)
Definition failure_phase_valid (c : DebugCommand) (m : SessionMachine) (failure : SandboxFailure)
    (e : ResponseEvidence) (cleanup_attempt : bool) : bool :=
  let state := state_kind (m_state m) in
  let inherited := negb (bool_decide (m_inherited_sandbox m = None)) in
  let in_state s := bool_decide (state = s) in
  let in_sandbox s := bool_decide (sandbox_state m = Some s) in
  let attested := ev_flag e AttestationSeen in
  match sf_stage failure with
  | SandboxFailureStage.Policy | SandboxFailureStage.Discovery =>
      is_sandboxed_open c && in_state SSK.Opening && in_sandbox SLS.Provisioning && negb attested
  | SandboxFailureStage.Provisioning =>
      negb cleanup_attempt && is_sandboxed_open c && in_state SSK.Opening
      && in_sandbox SLS.Provisioning && negb attested
  | SandboxFailureStage.Attestation =>
      negb cleanup_attempt && is_sandboxed_open c && in_state SSK.AwaitingAttestation
      && in_sandbox SLS.TargetCreatedSuspended && negb attested
  | SandboxFailureStage.Launch =>
      let launch_phase :=
        (in_state SSK.Opening && in_sandbox SLS.Provisioning)
        || (in_state SSK.AttestationAccepted && in_sandbox SLS.AttestationAccepted) in
      negb cleanup_attempt && is_sandboxed_open c && launch_phase
      && Bool.eqb attested (in_state SSK.AttestationAccepted)
  | SandboxFailureStage.Runtime => negb cleanup_attempt && runtime_failure_phase c m e
  | SandboxFailureStage.Cleanup =>
      cleanup_attempt && is_terminate_or_close c && in_state SSK.Closing
      && (in_sandbox SLS.Cleanup || inherited) && negb attested
  end.

Definition validate_sandbox_failure_phase (envelope : CommandEnvelope) (m : SessionMachine)
    (failure : SandboxFailure) (e : ResponseEvidence) (cleanup_attempt : bool)
    : client_result unit :=
  let c := ce_command envelope in
  let ordering_valid :=
    if is_rollback_safe_failure_stage (sf_stage failure)
    then negb cleanup_attempt && negb (ev_flag e CommandStateObserved) && negb (has_effect e)
    else ev_flag e CommandStateObserved in
  let command_valid :=
    if cleanup_attempt
    then bool_decide (sf_stage failure = SandboxFailureStage.Cleanup) && is_terminate_or_close c
    else command_allows_failure_stage c (sf_stage failure) in
  if ordering_valid && failure_phase_valid c m failure e cleanup_attempt && command_valid
  then Ok tt
  else Err (DHE.UnexpectedCommandEvidence (ce_command_id envelope) "sandbox-failure-phase").

(** ** Verdicts *)

(** [SessionState::Failed { message, .. } if message == detail]. *)
Definition failed_with (detail : list Z) (s : SessionState) : bool :=
  match s with SS.Failed _ message => bool_decide (message = detail) | _ => false end.

Definition classify_write_failure (m : SessionMachine) (e : ResponseEvidence)
    (failure : MemoryWriteFailure) (rejection_code rejection_message : list Z)
    (invalid : DebugHostClientError) : client_result RejectedResponseDisposition :=
  do? fail_if (negb (bool_decide (rejection_code = MEMORY_WRITE_FAILURE_REJECTION_CODE))
               || negb (bool_decide (rejection_message = mwf_detail failure))) invalid in
  if is_rollback_safe (mwf_recovery failure) then
    if (ev_state_change_count e =? 0) && negb (ev_flag e CommandStateObserved)
       && negb (ev_flag e FailureStateObserved) && negb (has_effect e)
    then Ok RollBack else Err invalid
  else if (ev_state_change_count e =? 2) && ev_flag e StateChangedSeen
          && ev_flag e CommandStateObserved && ev_flag e FailureStateObserved
          && failed_with (mwf_detail failure) (m_state m)
          && negb (ev_flag e AttestationSeen)
          && bool_decide (ev_cleanup_receipt e = None)
          && bool_decide (ev_incomplete_cleanup_receipt e = None)
          && negb (ev_flag e MemoryReadSeen) && negb (ev_flag e MemoryWrittenSeen)
          && negb (ev_flag e BreakpointChangedSeen) && negb (ev_flag e LiveTargetBoundSeen)
          && negb (ev_flag e SandboxEventSeen)
  then Ok RetainTerminalWriteFailure
  else Err invalid.

(** The last arm of [classify_rejected_response]: a failure that left the sandbox to
    be cleaned up. *)
Definition classify_retained_failure (m : SessionMachine) (e : ResponseEvidence)
    (failure : SandboxFailure) (cleanup_attempt : bool) : bool :=
  let cleanup_state_preserved :=
    bool_decide (sandbox_state m = Some SLS.Cleanup)
    || negb (bool_decide (m_inherited_sandbox m = None)) in
  let incomplete_receipt_exact :=
    if cleanup_attempt
    then bool_decide (sf_stage failure = SandboxFailureStage.Cleanup)
         && negb (bool_decide (ev_incomplete_cleanup_receipt e = None))
    else negb (bool_decide (sf_stage failure = SandboxFailureStage.Cleanup))
         && bool_decide (ev_incomplete_cleanup_receipt e = None) in
  ev_flag e StateChangedSeen && ev_flag e CommandStateObserved && ev_flag e FailureStateObserved
  && failed_with (sf_detail failure) (m_state m)
  && (requires_cleanup_receipt m && cleanup_state_preserved)
  && bool_decide (ev_cleanup_receipt e = None) && incomplete_receipt_exact
  && negb (ev_flag e MemoryReadSeen) && negb (ev_flag e MemoryWrittenSeen)
  && negb (ev_flag e BreakpointChangedSeen) && negb (ev_flag e LiveTargetBoundSeen).

Definition classify_rejected_response (envelope : CommandEnvelope) (m : SessionMachine)
    (e : ResponseEvidence) (rejection_code rejection_message : list Z)
    : client_result RejectedResponseDisposition :=
  let invalid := DHE.RejectedCommandProducedEvidence (ce_command_id envelope) in
  let without_effect :=
    is_sandboxed_open (ce_command envelope) && negb (ev_flag e CommandStateObserved)
    && negb (has_effect e) in
  match ev_memory_write_failure e with
  | Some failure =>
      match ev_sandbox_rejection_diagnostic e with
      | Some _ => Err invalid
      | None => classify_write_failure m e failure rejection_code rejection_message invalid
      end
  | None =>
      do? fail_if (bool_decide (rejection_code = MEMORY_WRITE_FAILURE_REJECTION_CODE)) invalid in
      match ev_sandbox_rejection_diagnostic e with
      | None => if has_effect e then Err invalid else Ok RollBack
      | Some DiagnosticProviderUnavailable =>
          if without_effect then Ok RollBack else Err invalid
      | Some (DiagnosticFailed failure cleanup_attempt) =>
          if is_rollback_safe_failure_stage (sf_stage failure) then
            if negb cleanup_attempt && without_effect then Ok RollBack else Err invalid
          else if classify_retained_failure m e failure cleanup_attempt
          then Ok RetainCleanupRequiredFailure
          else Err invalid
      end
  end.

(** The [valid_state] match of [validate_success_evidence]. *)
Definition success_state_valid (c : DebugCommand) (m : SessionMachine) (e : ResponseEvidence)
    : bool :=
  let final_state := state_kind (m_state m) in
  let ended s := bool_decide (final_state = s) in
  match c with
  | DC.Open (DTR.Offline _) => ended SSK.Offline
  | DC.Open (DTR.Dump _) => ended SSK.Dump
  | DC.Open (DTR.Attach target) =>
      if bool_decide (att_mode target = ObserveReadOnly) then ended SSK.Observing
      else ended SSK.Stopped
  | DC.Open (DTR.Launch _) => ended SSK.Stopped
  | DC.Continue _ | DC.Step _ _ _ => ended SSK.Running || ended SSK.Stopped || ended SSK.Exited
  | DC.Pause _ => ended SSK.Stopped || ended SSK.Exited
  | DC.ReadMemory _ _ _ => ev_flag e MemoryReadSeen
  | DC.WriteMemory _ _ _ _ => ev_flag e MemoryWrittenSeen && ended SSK.Stopped
  | DC.ReadRegisters _ _ => ev_flag e RegistersReadSeen
  | DC.WriteRegisters _ _ _ => ev_flag e RegistersWrittenSeen && ended SSK.Stopped
  | DC.SetBreakpoint _ _ _ | DC.RemoveBreakpoint _ _ =>
      ev_flag e BreakpointChangedSeen && ended SSK.Stopped
  | DC.CaptureSnapshot _ => false
  | DC.Detach _ => ended SSK.Detached
  | DC.Terminate _ | DC.Close _ =>
      ended SSK.Closed
      && (negb (requires_cleanup_receipt m) || negb (bool_decide (ev_cleanup_receipt e = None)))
  | DC.ProbeCapabilities => false
  end.

(** The binding an [Open] must have produced, by the name of its error. *)
Definition binding_command (c : DebugCommand) : option string :=
  match c with
  | DC.Open (DTR.Attach target) =>
      if bool_decide (att_mode target = Debug) then Some "debug-attach-binding" else None
  | DC.Open (DTR.Launch target) =>
      match lt_environment target with
      | HostEnvironment _ => Some "host-launch-binding"
      | Sandboxed _ => Some "sandboxed-launch-binding"
      end
  | _ => None
  end%string.

Definition validate_success_evidence (envelope : CommandEnvelope) (m : SessionMachine)
    (e : ResponseEvidence) : client_result unit :=
  let c := ce_command envelope in
  let missing command :=
    DHE.MissingCommandEvidence (ce_command_id envelope) command (state_kind (m_state m)) in
  do? fail_if (negb (success_state_valid c m e)) (missing (command_name c)) in
  do? fail_if (is_sandboxed_open c && negb (ev_flag e AttestationSeen))
        (missing "sandboxed-open"%string) in
  if ev_flag e LiveTargetBoundSeen then Ok tt
  else match binding_command c with
       | Some command => Err (missing command)
       | None => Ok tt
       end.

(** What may follow a reported failure. *)
Definition validate_post_rejection_event (command_id : Z) (event : DebugEvent)
    (sandbox_diagnostic : option SandboxRejectionDiagnostic)
    (memory_write_failure : option MemoryWriteFailure) : client_result unit :=
  match memory_write_failure with
  | Some failure =>
      let allowed :=
        match event with
        | DE.CommandResult _ _ | DE.Warning _ _ => true
        | DE.StateChanged _ => negb (is_rollback_safe (mwf_recovery failure))
        | DE.MemoryWriteFailed _ => true
        | _ => false
        end in
      if allowed then Ok tt
      else Err (DHE.UnexpectedCommandEvidence command_id "evidence-after-memory-write-failure")
  | None =>
      match sandbox_diagnostic with
      | None => Ok tt
      | Some diagnostic =>
          let allowed :=
            match event with
            | DE.CommandResult _ _ | DE.Warning _ _ => true
            | DE.StateChanged (SS.Failed _ message) =>
                match diagnostic with
                | DiagnosticFailed failure _ =>
                    negb (is_rollback_safe_failure_stage (sf_stage failure))
                    && bool_decide (message = sf_detail failure)
                | DiagnosticProviderUnavailable => false
                end
            | DE.SandboxLifecycle (SandboxLifecycleEvent.ProviderUnavailable _)
            | DE.SandboxLifecycle (SandboxLifecycleEvent.Failed _)
            | DE.SandboxLifecycle (SandboxLifecycleEvent.CleanupAttemptFailed _) => true
            | _ => false
            end in
          if allowed then Ok tt
          else Err (DHE.UnexpectedCommandEvidence command_id "evidence-after-sandbox-rejection")
      end
  end.

(** Every requested value is among the registers read back. *)
Definition register_write_applied (after : RegisterSet) (requested : RegisterWrite) : bool :=
  bool_decide (rs_arch after = rw_arch requested)
  && forallb (λ write, existsb (λ value, bool_decide (rv_name value = rv_name write)
                                         && (rv_value value =? rv_value write))
                         (rs_registers after))
       (rw_registers requested).

Definition require_live_target_process (binding : LiveTargetBinding) (expected : ProcessIdentity)
    : client_result unit :=
  if bool_decide (lb_process binding = expected) then Ok tt
  else Err (DHE.LiveTargetProcessMismatch expected (lb_process binding)).

Definition require_sandbox_session (m : SessionMachine) (actual : Z) : client_result unit :=
  if actual =? m_session_id m then Ok tt
  else Err (DHE.SandboxEvidenceSessionMismatch (m_session_id m) actual).

Definition preserve_cleanup_error (r : result unit SessionMachineError) : client_result unit :=
  match r with
  | Ok _ => Ok tt
  | Err (SE.Sandbox (SME.Cleanup e)) => Err (DHE.CleanupReceipt e)
  | Err e => Err (DHE.SessionMachine e)
  | Panic msg => Panic msg
  end.

Definition require_command_state_before_sandbox_evidence (envelope : CommandEnvelope)
    (e : ResponseEvidence) : client_result unit :=
  if ev_flag e CommandStateObserved then Ok tt
  else Err (DHE.UnexpectedCommandEvidence (ce_command_id envelope)
              "sandbox-evidence-before-command-state").

Definition invalidate_binding_for_state (s : ClientSession) : ClientSession :=
  match state_kind (cs_verified_state s) with
  | SSK.Stopped | SSK.Running | SSK.Pausing => s
  | _ => cs_set_binding None s
  end.

(** ** Evidence against the reducer *)

(** A computation on a part of the state. *)
Definition zoom {S T E A} (get : S → T) (put : T → S → S) (c : smonad T E A) : smonad S E A :=
  λ s, let '(r, t) := c (get s) in (r, put t s).

(** The session and the evidence of the batch so far. *)
Record Progress : Type := mkProgress {
  pg_session : ClientSession;
  pg_evidence : ResponseEvidence
}.

Abbreviation progress_op A := (smonad Progress DebugHostClientError A).

Definition pg_reducer (p : Progress) : SessionMachine := cs_reducer (pg_session p).
Definition pg_set_reducer (m : SessionMachine) (p : Progress) : Progress :=
  mkProgress (cs_set_reducer m (pg_session p)) (pg_evidence p).
Definition pg_set_binding (b : option LiveTargetBinding) (p : Progress) : Progress :=
  mkProgress (cs_set_binding b (pg_session p)) (pg_evidence p).

(** An update of the evidence. *)
Definition record (f : ResponseEvidence → ResponseEvidence) : progress_op unit :=
  supd (λ p, mkProgress (pg_session p) (f (pg_evidence p))).

(** A check of the evidence, or of the reducer and the evidence. *)
Definition check_evidence {A} (f : ResponseEvidence → client_result A) : progress_op A :=
  sread (λ p, f (pg_evidence p)).
Definition check_progress {A} (f : SessionMachine → ResponseEvidence → client_result A)
    : progress_op A :=
  sread (λ p, f (pg_reducer p) (pg_evidence p)).

Definition on_reducer {A} (c : smonad SessionMachine DebugHostClientError A) : progress_op A :=
  zoom pg_reducer pg_set_reducer c.

(** A reducer call with [?]. *)
Definition reduce {A} (c : session_op A) : smonad SessionMachine DebugHostClientError A :=
  smap_err DHE.SessionMachine c.

Definition require_unique_evidence (flag : EvidenceFlag) (evidence : string) : progress_op unit :=
  do! check_evidence (λ e, fail_if (ev_flag e flag) (DHE.DuplicateCommandEvidence evidence)) in
  record (ev_set_flag flag).

Definition apply_state_event (next : SessionState) (cleanup_receipt : option SandboxCleanupReceipt)
    : smonad SessionMachine DebugHostClientError unit :=
  do! sread (λ m, fail_if (SessionState_eqb (m_state m) next)
                    (DHE.DuplicateCommandEvidence "state-change")) in
  do! match next with
      | SS.AwaitingAttestation _ process => reduce (target_created_suspended process)
      | SS.Offline _ => reduce complete_open_offline
      | SS.Dump _ => reduce complete_open_dump
      | SS.Observing _ process_id => reduce (complete_open_observing process_id)
      | SS.Stopped _ reason thread_id => reduce (mark_stopped reason thread_id)
      | SS.Exited _ exit_code => reduce (mark_exited exit_code)
      | SS.Failed _ message => reduce (mark_failed message)
      | SS.Closed _ => reduce (complete_close cleanup_receipt)
      | SS.Idle _ | SS.Opening _ _ | SS.AttestationAccepted _ | SS.Snapshot _ _ | SS.Running _
      | SS.Pausing _ | SS.Closing _ | SS.Detached _ =>
          sread (λ m, Err (DHE.IllegalHostStateTransition (state_kind (m_state m))
                             (state_kind next)))
      end in
  sread (λ m, fail_if (negb (SessionState_eqb (m_state m) next))
                (DHE.ReducerStateMismatch (m_state m) next)).

Definition accept_attestation_event (actual : SandboxAttestation) : progress_op unit :=
  do! require_unique_evidence AttestationSeen "sandbox-attestation" in
  do! check_progress (λ m _, fail_if (negb (at_session_id actual =? m_session_id m))
                               (DHE.SandboxEvidenceSessionMismatch (m_session_id m)
                                  (at_session_id actual))) in
  do! on_reducer
        (smap_err (λ e, match e with
                        | SE.Sandbox (SME.Attestation e) => DHE.Attestation e
                        | e => DHE.SessionMachine e
                        end)
           (accept_sandbox_attestation actual)) in
  record (ev_set_flag SandboxEventSeen).

Definition observe_sandbox_rejection_diagnostic (diagnostic : SandboxRejectionDiagnostic)
    : progress_op unit :=
  do! check_evidence
        (λ e, match ev_sandbox_rejection_diagnostic e with
              | Some _ => Err (DHE.DuplicateCommandEvidence "sandbox-rejection-diagnostic")
              | None => Ok tt
              end) in
  record (ev_set_diagnostic diagnostic).

(** No cleanup receipt, complete or not, was seen before. *)
Definition require_no_cleanup_evidence (e : ResponseEvidence) : client_result unit :=
  match ev_cleanup_receipt e, ev_incomplete_cleanup_receipt e with
  | None, None => Ok tt
  | _, _ => Err (DHE.DuplicateCommandEvidence "sandbox-cleanup-evidence")
  end.

(** The [Failed] and [CleanupAttemptFailed] arms share this suffix. *)
Definition accept_sandbox_failure (envelope : CommandEnvelope) (failure : SandboxFailure)
    (cleanup_attempt : bool) : progress_op unit :=
  do! check_progress (λ m _, map_err DHE.SessionMachine (validate_sandbox_failure failure m)) in
  do! check_progress (λ m e, validate_sandbox_failure_phase envelope m failure e
                               cleanup_attempt) in
  do! on_reducer (reduce (retain_sandbox_failure_target_creation failure)) in
  observe_sandbox_rejection_diagnostic (DiagnosticFailed failure cleanup_attempt).

Definition accept_lifecycle_state (session_id : Z) (state : SandboxLifecycleState)
    : progress_op unit :=
  do! check_progress (λ m _, require_sandbox_session m session_id) in
  do! check_evidence (λ e, fail_if (bool_decide (state ∈ ev_sandbox_states e))
                             (DHE.DuplicateCommandEvidence "sandbox-lifecycle-state")) in
  do! check_progress (λ m _, fail_if (negb (bool_decide (sandbox_state m = Some state)))
                               (DHE.UnexpectedSandboxLifecycleState (sandbox_state m) state)) in
  do! record (ev_push_sandbox_state state) in
  record (ev_set_flag SandboxEventSeen).

Definition accept_provider_unavailable (envelope : CommandEnvelope)
    (unavailable : ProviderUnavailable) : progress_op unit :=
  do! check_progress (λ m _, require_sandbox_session m (pu_session_id unavailable)) in
  do! check_progress
        (λ m _, let? expected_provider := ok_or (expected_sandbox_provider m)
                                            DHE.UnexpectedSandboxEvidence in
                fail_if (negb (bool_decide (pu_provider unavailable = expected_provider)))
                  DHE.UnexpectedSandboxProvider) in
  do! check_evidence
        (λ e, fail_if (ev_flag e CommandStateObserved || has_effect e)
                (DHE.UnexpectedCommandEvidence (ce_command_id envelope)
                   "sandbox-failure-phase")) in
  observe_sandbox_rejection_diagnostic DiagnosticProviderUnavailable.

Definition accept_cleanup_attempt (envelope : CommandEnvelope)
    (attempt : SandboxCleanupAttemptFailure) : progress_op unit :=
  do! slift (map_err DHE.CleanupAttemptFailure (cleanup_attempt_validate attempt)) in
  do! check_evidence require_no_cleanup_evidence in
  do! check_progress (λ m _, preserve_cleanup_error
                               (validate_cleanup_attempt_receipt (caf_receipt attempt) m)) in
  do! accept_sandbox_failure envelope (caf_failure attempt) true in
  do! record (ev_set_incomplete (caf_receipt attempt)) in
  record (ev_set_flag SandboxEventSeen).

Definition accept_cleanup_receipt (receipt : SandboxCleanupReceipt) : progress_op unit :=
  do! check_progress (λ m _, require_sandbox_session m (rc_session_id receipt)) in
  do! check_progress (λ m _, fail_if (negb (bool_decide
                                              (state_kind (m_state m) = SSK.Closing)))
                               DHE.CleanupReceiptOutsideClose) in
  do! check_evidence require_no_cleanup_evidence in
  do! check_progress (λ m _, preserve_cleanup_error (validate_cleanup_receipt receipt m)) in
  do! record (ev_set_cleanup receipt) in
  record (ev_set_flag SandboxEventSeen).

Definition validate_sandbox_lifecycle (envelope : CommandEnvelope)
    (lifecycle : SandboxLifecycleEvent) : progress_op unit :=
  let after_command_state :=
    check_evidence (require_command_state_before_sandbox_evidence envelope) in
  do! slift (fail_if (negb (command_allows_sandbox_lifecycle (ce_command envelope) lifecycle))
               (DHE.UnexpectedCommandEvidence (ce_command_id envelope) "sandbox-lifecycle")) in
  match lifecycle with
  | SandboxLifecycleEvent.State session_id state =>
      do! after_command_state in accept_lifecycle_state session_id state
  | SandboxLifecycleEvent.Attested actual =>
      do! after_command_state in accept_attestation_event actual
  | SandboxLifecycleEvent.ProviderUnavailable unavailable =>
      accept_provider_unavailable envelope unavailable
  | SandboxLifecycleEvent.Failed failure => accept_sandbox_failure envelope failure false
  | SandboxLifecycleEvent.CleanupAttemptFailed attempt => accept_cleanup_attempt envelope attempt
  | SandboxLifecycleEvent.Closed receipt =>
      do! after_command_state in accept_cleanup_receipt receipt
  end.

Definition live_target_evidence_error (envelope : CommandEnvelope) : DebugHostClientError :=
  DHE.UnexpectedCommandEvidence (ce_command_id envelope) "live-target-binding".

(** The match on the opened target: who the bound process and module must be. *)
Definition require_bound_target (envelope : CommandEnvelope) (request : DebugTargetRequest)
    (binding : LiveTargetBinding) (m : SessionMachine) (e : ResponseEvidence)
    : client_result unit :=
  match request with
  | DTR.Attach target =>
      if bool_decide (att_mode target = Debug)
      then require_live_target_process binding (scope_process (att_scope target))
      else Err (live_target_evidence_error envelope)
  | DTR.Launch target =>
      do? fail_if (negb (bool_decide (lb_main_module_binary_id binding = lt_binary_id target)))
            (DHE.LiveTargetBinaryMismatch (lt_binary_id target)
               (lb_main_module_binary_id binding)) in
      match lt_environment target with
      | Sandboxed _ =>
          let early := DHE.LiveTargetBindingBeforeSandboxAttestation (ce_command_id envelope) in
          do? fail_if (negb (ev_flag e AttestationSeen)) early in
          let? attested := ok_or (accepted_sandbox_attestation m) early in
          require_live_target_process binding (at_process attested)
      | HostEnvironment _ => Ok tt
      end
  | DTR.Dump _ | DTR.Offline _ => Err (live_target_evidence_error envelope)
  end.

Definition accept_live_target_binding (envelope : CommandEnvelope) (binding : LiveTargetBinding)
    : progress_op unit :=
  match ce_command envelope with
  | DC.Open request =>
      do! check_progress
            (λ m _, fail_if (negb (option_eqb DebugTargetRequest_eqb (m_target m) (Some request)))
                      (live_target_evidence_error envelope)) in
      do! check_evidence (λ e, fail_if (negb (ev_flag e CommandStateObserved))
                                 (DHE.LiveTargetBindingBeforeOpenState (ce_command_id envelope))) in
      do! check_progress (require_bound_target envelope request binding) in
      let! current := sget (λ p, cs_live_target_binding (pg_session p)) in
      match current with
      | Some existing =>
          if bool_decide (existing = binding) then serr DHE.DuplicateLiveTargetBinding
          else do! supd (pg_set_binding None) in serr DHE.ReplacedLiveTargetBinding
      | None =>
          do! require_unique_evidence LiveTargetBoundSeen "live-target-binding" in
          supd (pg_set_binding (Some binding))
      end
  | _ => serr (live_target_evidence_error envelope)
  end.

(** [failure] is about exactly the write of [envelope]. *)
Definition failure_of_command (c : DebugCommand) (failure : MemoryWriteFailure) : bool :=
  match c with
  | DC.WriteMemory stop address _ replacement =>
      bool_decide (mwf_stop failure = stop) && (mwf_address failure =? address)
      && (mwf_size failure =? zlen replacement)
  | _ => false
  end.

Definition accept_memory_write_failure (envelope : CommandEnvelope) (failure : MemoryWriteFailure)
    : progress_op unit :=
  let unexpected name := DHE.UnexpectedCommandEvidence (ce_command_id envelope) name in
  do! check_evidence (λ e, fail_if (negb (failure_of_command (ce_command envelope) failure)
                                    || ev_flag e StateChangedSeen
                                    || ev_flag e CommandStateObserved)
                             (unexpected "memory-write-failure"%string)) in
  do! check_evidence (λ e, fail_if (ev_flag e MemoryWrittenSeen)
                             (unexpected "memory-write-failure-after-success"%string)) in
  do! check_evidence
        (λ e, match ev_memory_write_failure e with
              | Some _ => Err (DHE.DuplicateCommandEvidence "memory-write-failure")
              | None => Ok tt
              end) in
  record (ev_set_write_failure failure).

(** ** One event *)

(** The event is exactly what the command asked for. *)
Definition memory_read_exact (c : DebugCommand) (view : ReadViewToken) (address : Z)
    (bytes : list Z) : bool :=
  match c with
  | DC.ReadMemory expected_view expected_address size =>
      bool_decide (view = expected_view) && (address =? expected_address) && (zlen bytes =? size)
  | _ => false
  end.

Definition memory_written_exact (c : DebugCommand) (stop : StopToken) (address : Z)
    (before after : list Z) : bool :=
  match c with
  | DC.WriteMemory expected_stop expected_address expected replacement =>
      bool_decide (stop = expected_stop) && (address =? expected_address)
      && bool_decide (before = expected) && bool_decide (after = replacement)
  | _ => false
  end.

Definition registers_read_exact (c : DebugCommand) (view : ReadViewToken) (thread_id : Z)
    (registers : RegisterSet) : bool :=
  match c with
  | DC.ReadRegisters expected_view expected_thread =>
      bool_decide (view = expected_view) && (thread_id =? expected_thread)
      && is_ok (register_set_validate registers)
  | _ => false
  end.

Definition registers_written_exact (c : DebugCommand) (stop : StopToken) (thread_id : Z)
    (before after : RegisterSet) : bool :=
  match c with
  | DC.WriteRegisters expected_stop expected_thread registers =>
      bool_decide (stop = expected_stop) && (thread_id =? expected_thread)
      && bool_decide (rs_arch before = rw_arch registers) && register_write_applied after registers
  | _ => false
  end.

Definition breakpoint_changed_exact (c : DebugCommand) (stop : StopToken)
    (breakpoint : BreakpointSpec) (change : BreakpointChange) : bool :=
  match c with
  | DC.SetBreakpoint expected_stop expected_breakpoint expected_persistence =>
      bool_decide (stop = expected_stop) && bool_decide (breakpoint = expected_breakpoint)
      && bool_decide (change = BreakpointChange.Set_ expected_persistence)
  | DC.RemoveBreakpoint expected_stop breakpoint_id =>
      bool_decide (stop = expected_stop) && (bp_id breakpoint =? breakpoint_id)
      && bool_decide (change = BreakpointChange.Removed)
  | _ => false
  end.

(** Evidence that must match the command and may appear once. *)
Definition accept_exact (envelope : CommandEnvelope) (exact : bool) (flag : EvidenceFlag)
    (name : string) : progress_op unit :=
  if exact then require_unique_evidence flag name
  else serr (DHE.UnexpectedCommandEvidence (ce_command_id envelope) name).

(** The [StateChanged] arm. *)
Definition accept_state_changed (required_command_state : option SessionState)
    (state : SessionState) : progress_op unit :=
  do! match state with
      | SS.Failed _ _ => require_unique_evidence FailureStateObserved "sandbox-failure-state"
      | _ => sret tt
      end in
  let! observed := sget (λ p, ev_flag (pg_evidence p) CommandStateObserved) in
  do! match required_command_state with
      | Some expected =>
          if observed then
            let! receipt := sget (λ p, ev_cleanup_receipt (pg_evidence p)) in
            on_reducer (apply_state_event state receipt)
          else if SessionState_eqb expected state then record (ev_set_flag CommandStateObserved)
          else serr (DHE.ReducerStateMismatch expected state)
      | None =>
          let! receipt := sget (λ p, ev_cleanup_receipt (pg_evidence p)) in
          on_reducer (apply_state_event state receipt)
      end in
  do! record (ev_set_flag StateChangedSeen) in
  let! count := sread (λ p, plain_add (ev_state_change_count (pg_evidence p)) 1) in
  record (ev_set_change_count count).

(** The match on the event, but for [CommandResult]. *)
Definition accept_event (envelope : CommandEnvelope) (required_command_state : option SessionState)
    (event : DebugEvent) : progress_op unit :=
  let c := ce_command envelope in
  let unexpected name := DHE.UnexpectedCommandEvidence (ce_command_id envelope) name in
  match event with
  | DE.StateChanged state => accept_state_changed required_command_state state
  | DE.LiveTargetBound _ binding => accept_live_target_binding envelope binding
  | DE.SandboxAttested actual =>
      do! slift (fail_if (negb (is_sandboxed_open c)) (unexpected "sandbox-attestation"%string)) in
      do! check_evidence (require_command_state_before_sandbox_evidence envelope) in
      accept_attestation_event actual
  | DE.SandboxLifecycle lifecycle => validate_sandbox_lifecycle envelope lifecycle
  | DE.MemoryRead view address bytes =>
      accept_exact envelope (memory_read_exact c view address bytes) MemoryReadSeen "memory-read"
  | DE.MemoryWritten stop address before after =>
      do! check_evidence
            (λ e, match ev_memory_write_failure e with
                  | Some _ => Err (unexpected "memory-written-after-failure"%string)
                  | None => Ok tt
                  end) in
      accept_exact envelope (memory_written_exact c stop address before after) MemoryWrittenSeen
        "memory-written"
  | DE.RegistersRead view thread_id registers =>
      accept_exact envelope (registers_read_exact c view thread_id registers) RegistersReadSeen
        "registers-read"
  | DE.RegistersWritten stop thread_id before after =>
      accept_exact envelope (registers_written_exact c stop thread_id before after)
        RegistersWrittenSeen "registers-written"
  | DE.MemoryWriteFailed failure => accept_memory_write_failure envelope failure
  | DE.BreakpointChanged stop breakpoint change =>
      accept_exact envelope (breakpoint_changed_exact c stop breakpoint change)
        BreakpointChangedSeen "breakpoint-change"
  | DE.CommandResult _ _ | DE.Warning _ _ => sret tt
  | DE.Capabilities _ => serr (unexpected "capabilities"%string)
  end.

(** ** Inbound frames *)

Definition require_negotiated_frame_version (frame : HostFrame) (ib : Inbound)
    : client_result unit :=
  let expected := ib_negotiated_version ib in
  let actual := fh_version (hf_header frame) in
  if bool_decide (actual = expected) then Ok tt
  else Err (DHE.UnexpectedWireProtocolVersion (wv_major expected) (wv_minor expected)
              (wv_major actual) (wv_minor actual)).

Abbreviation inbound_op A := (smonad Inbound DebugHostClientError A).

(** What [accept_unsolicited_batch] and the response methods change: the inbound
    positions and the session, which was taken out of the client, and the queue. *)
Record Exchange : Type := mkExchange {
  xc_inbound : Inbound;
  xc_session : ClientSession;
  xc_pending : list EventEnvelope
}.

Definition xc_set_inbound (ib : Inbound) (x : Exchange) : Exchange :=
  mkExchange ib (xc_session x) (xc_pending x).
Definition xc_set_session (s : ClientSession) (x : Exchange) : Exchange :=
  mkExchange (xc_inbound x) s (xc_pending x).
Definition xc_set_pending (q : list EventEnvelope) (x : Exchange) : Exchange :=
  mkExchange (xc_inbound x) (xc_session x) q.
Definition xc_reducer (x : Exchange) : SessionMachine := cs_reducer (xc_session x).
Definition xc_set_reducer (m : SessionMachine) (x : Exchange) : Exchange :=
  xc_set_session (cs_set_reducer m (xc_session x)) x.

Abbreviation exchange_op A := (smonad Exchange DebugHostClientError A).

Definition on_session (f : ClientSession → ClientSession) : exchange_op unit :=
  supd (λ x, xc_set_session (f (xc_session x)) x).

Section frames.
Context `{Json EventControl}.

(** Version, sequence number and content of the next frame; the position has moved
    when the content does not decode. *)
Definition receive_frame (frame : HostFrame) : inbound_op EventEnvelope :=
  do! sread (require_negotiated_frame_version frame) in
  do! sread (λ ib, fail_if (negb (fh_sequence (hf_header frame) =? ib_next_frame_sequence ib))
                     (DHE.UnexpectedFrameSequence (ib_next_frame_sequence ib)
                        (fh_sequence (hf_header frame)))) in
  let! next := sread (λ ib, ok_or (checked_add u64_max (ib_next_frame_sequence ib) 1)
                              DHE.FrameSequenceOverflow) in
  do! supd (ib_set_next next) in
  slift (map_err DHE.Codec (decode_event_frame frame)).

Definition observe_event (event : EventEnvelope) : inbound_op unit :=
  smap_err DHE.Protocol (zoom ib_event_cursor ib_set_cursor (cursor_observe (ee_sequence event))).

(** A frame of a session exchange, which must have the typed version too. *)
Definition receive_event (frame : HostFrame) : inbound_op EventEnvelope :=
  let! event := receive_frame frame in
  do! sread (λ ib, fail_if (negb (bool_decide (ee_version event = ib_typed_version ib)))
                     (DHE.UnexpectedTypedProtocolVersion (ib_typed_version ib)
                        (ee_version event))) in
  do! observe_event event in
  sret event.

Fixpoint receive_all (frames : list HostFrame) : inbound_op (list EventEnvelope) :=
  match frames with
  | [] => sret []
  | frame :: rest =>
      let! event := receive_event frame in
      let! events := receive_all rest in
      sret (event :: events)
  end.

(** The positions advance on copies, which are dropped. *)
Definition prevalidate_inbound_correlations (responses : HostResponseBatch) (ib : Inbound)
    : client_result (list (option Z)) :=
  do? map_err DHE.ResponseBudget (batch_validate responses DEFAULT_HOST_RESPONSE_LIMITS) in
  let? events := (receive_all (rb_frames responses) ib).1 in
  Ok (ee_caused_by <$> events).

(** ** Unsolicited observations *)

Definition require_observation (session_id : Z) (event : EventEnvelope) : client_result unit :=
  do? match ee_caused_by event with
      | Some command_id => Err (DHE.UnsolicitedEventCarriedCorrelation command_id)
      | None => Ok tt
      end in
  do? fail_if (negb (bool_decide (ee_session_id event = Some session_id)))
        (DHE.UnexpectedEventSession session_id (ee_session_id event)) in
  let? next := match ee_event event with
               | DE.StateChanged (SS.Stopped _ _ _ as next)
               | DE.StateChanged (SS.Exited _ _ as next) => Ok next
               | DE.StateChanged next => Err (DHE.UnexpectedUnsolicitedState (state_kind next))
               | _ => Err DHE.UnexpectedUnsolicitedEvent
               end in
  fail_if (negb (bool_decide (ee_state event = Some (state_token next))))
    (DHE.UnexpectedEventState (state_token next) (ee_state event)).

Fixpoint receive_observations (session_id : Z) (frames : list HostFrame)
    : inbound_op (list EventEnvelope) :=
  match frames with
  | [] => sret []
  | frame :: rest =>
      let! event := receive_event frame in
      do! slift (require_observation session_id event) in
      let! events := receive_observations session_id rest in
      sret (event :: events)
  end.

(** The states the batch is replayed with; the [let ... else] is unreachable. *)
Fixpoint observed_states (events : list EventEnvelope) : client_result (list SessionState) :=
  match events with
  | [] => Ok []
  | event :: rest =>
      match ee_event event with
      | DE.StateChanged next => let? states := observed_states rest in Ok (next :: states)
      | _ => Panic "unsolicited events were restricted above"
      end
  end.

Definition observation_error (e : UnsolicitedObservationError) : DebugHostClientError :=
  match e with
  | Reducer e => DHE.SessionMachine e
  | StateMismatch expected actual => DHE.ReducerStateMismatch expected actual
  end.

Definition accept_unsolicited_batch (responses : HostResponseBatch)
    : exchange_op (list EventEnvelope) :=
  do! slift (map_err DHE.ResponseBudget
               (batch_validate responses DEFAULT_HOST_RESPONSE_LIMITS)) in
  do! slift (fail_if (bool_decide (rb_frames responses = [])) DHE.EmptyUnsolicitedEventBatch) in
  let! received := sget (λ x, receive_observations (m_session_id (xc_reducer x))
                                (rb_frames responses) (xc_inbound x)) in
  let! events := slift received.1 in
  let! states := slift (observed_states events) in
  do! zoom xc_reducer xc_set_reducer
        (smap_err observation_error (apply_unsolicited_observations states)) in
  do! on_session (λ s, cs_set_verified (m_state (cs_reducer s)) s) in
  do! supd (xc_set_inbound received.2) in
  do! on_session invalidate_binding_for_state in
  sret events.

(** ** A correlated response *)

(** The locals of [accept_response_batch_inner]. *)
Record Reading : Type := mkReading {
  rd_inbound : Inbound;
  rd_progress : Progress;
  rd_outcome : option CommandOutcome;
  rd_events : list EventEnvelope
}.

Definition rd_set_inbound (ib : Inbound) (r : Reading) : Reading :=
  mkReading ib (rd_progress r) (rd_outcome r) (rd_events r).
Definition rd_set_progress (p : Progress) (r : Reading) : Reading :=
  mkReading (rd_inbound r) p (rd_outcome r) (rd_events r).

Abbreviation reading_op A := (smonad Reading DebugHostClientError A).

(** Correlation, session and state token of an event, in the order of the checks. *)
Definition require_response_event (envelope : CommandEnvelope)
    (required_command_state : option SessionState) (event : EventEnvelope) (p : Progress)
    : client_result unit :=
  let command_id := ce_command_id envelope in
  let m := pg_reducer p in
  let e := pg_evidence p in
  do? fail_if (negb (bool_decide (ee_caused_by event = Some command_id)))
        (DHE.UnexpectedCommandCorrelation command_id (ee_caused_by event)) in
  do? fail_if (negb (bool_decide (ee_session_id event = Some (m_session_id m))))
        (DHE.UnexpectedEventSession (m_session_id m) (ee_session_id event)) in
  do? validate_post_rejection_event command_id (ee_event event)
        (ev_sandbox_rejection_diagnostic e) (ev_memory_write_failure e) in
  match ee_event event with
  | DE.StateChanged _ => Ok tt
  | _ =>
      let expected :=
        match required_command_state with
        | Some _ => if ev_flag e CommandStateObserved then state_token (m_state m)
                    else state_token (cs_verified_state (pg_session p))
        | None => state_token (m_state m)
        end in
      fail_if (negb (bool_decide (ee_state event = Some expected)))
        (DHE.UnexpectedEventState expected (ee_state event))
  end.

(** The [CommandResult] arm. *)
Definition accept_result (envelope : CommandEnvelope) (event : DebugEvent) : reading_op unit :=
  match event with
  | DE.CommandResult result_id outcome =>
      let command_id := ce_command_id envelope in
      do! slift (fail_if (negb (result_id =? command_id))
                   (DHE.UnexpectedCommandCorrelation command_id (Some result_id))) in
      let! previous := sget rd_outcome in
      do! supd (λ r, mkReading (rd_inbound r) (rd_progress r) (Some outcome) (rd_events r)) in
      match previous with
      | Some _ => serr (DHE.DuplicateCommandResult command_id)
      | None => sret tt
      end
  | _ => sret tt
  end.

(** One round of the loop. *)
Definition read_frame (envelope : CommandEnvelope) (required_command_state : option SessionState)
    (frame : HostFrame) : reading_op unit :=
  do! sread (λ r, match rd_outcome r with
                  | Some _ => Err (DHE.EventAfterCommandResult (ce_command_id envelope))
                  | None => Ok tt
                  end) in
  let! event := zoom rd_inbound rd_set_inbound (receive_event frame) in
  do! sread (λ r, require_response_event envelope required_command_state event (rd_progress r)) in
  do! zoom rd_progress rd_set_progress
        (accept_event envelope required_command_state (ee_event event)) in
  do! accept_result envelope (ee_event event) in
  supd (λ r, mkReading (rd_inbound r) (rd_progress r) (rd_outcome r) (rd_events r ++ [event])).

Fixpoint read_frames (envelope : CommandEnvelope) (required_command_state : option SessionState)
    (frames : list HostFrame) : reading_op unit :=
  match frames with
  | [] => sret tt
  | frame :: rest =>
      do! read_frame envelope required_command_state frame in
      read_frames envelope required_command_state rest
  end.

(** ** Settling the command *)

Abbreviation settle_op A := (smonad ClientSession DebugHostClientError A).

Definition on_cs_reducer {A} (c : session_op A) : settle_op A :=
  zoom cs_reducer cs_set_reducer (reduce c).

Definition verify_state : settle_op unit :=
  supd (λ s, cs_set_verified (m_state (cs_reducer s)) s).

Definition settle_rejected (envelope : CommandEnvelope) (checkpoint : RemoteCommandCheckpoint)
    (e : ResponseEvidence) (code message : list Z) : settle_op unit :=
  let command_id := ce_command_id envelope in
  let! disposition := sread (λ s, classify_rejected_response envelope (cs_reducer s) e
                                    code message) in
  match disposition with
  | RollBack =>
      do! on_cs_reducer (reject_remote_command checkpoint command_id) in
      sread (λ s, fail_if (negb (SessionState_eqb (m_state (cs_reducer s)) (cs_verified_state s)))
                    (DHE.ReducerStateMismatch (cs_verified_state s) (m_state (cs_reducer s))))
  | RetainCleanupRequiredFailure | RetainTerminalWriteFailure =>
      do! on_cs_reducer (commit_remote_command checkpoint command_id) in
      do! verify_state in
      do! supd (cs_set_cleanup_verified false) in
      supd invalidate_binding_for_state
  end.

Definition settle_succeeded (envelope : CommandEnvelope) (checkpoint : RemoteCommandCheckpoint)
    (required_command_state : option SessionState) (e : ResponseEvidence) : settle_op unit :=
  let command_id := ce_command_id envelope in
  let unexpected name := DHE.UnexpectedCommandEvidence command_id name in
  do! slift match ev_sandbox_rejection_diagnostic e with
            | Some _ => Err (unexpected "sandbox-rejection-diagnostic"%string)
            | None => Ok tt
            end in
  do! slift match ev_memory_write_failure e with
            | Some _ => Err (unexpected "memory-write-failure-reported-as-success"%string)
            | None => Ok tt
            end in
  do! slift match required_command_state with
            | Some _ => fail_if (negb (ev_flag e CommandStateObserved))
                          (DHE.MissingCommandState command_id)
            | None => Ok tt
            end in
  do! sread (λ s, validate_success_evidence envelope (cs_reducer s) e) in
  let! cleanup_verified :=
    sget (λ s, requires_cleanup_receipt (cs_reducer s)
               && bool_decide (state_kind (m_state (cs_reducer s)) = SSK.Closed)
               && negb (bool_decide (ev_cleanup_receipt e = None))) in
  do! on_cs_reducer (commit_remote_command checkpoint command_id) in
  do! verify_state in
  do! supd (λ s, cs_set_cleanup_verified (cs_sandbox_cleanup_verified s || cleanup_verified) s) in
  supd invalidate_binding_for_state.

Definition settle (envelope : CommandEnvelope) (checkpoint : RemoteCommandCheckpoint)
    (required_command_state : option SessionState) (e : ResponseEvidence)
    (outcome : CommandOutcome) : settle_op unit :=
  match outcome with
  | CommandOutcome.Rejected code message => settle_rejected envelope checkpoint e code message
  | CommandOutcome.Succeeded => settle_succeeded envelope checkpoint required_command_state e
  end.

Definition start_reading (x : Exchange) : Reading :=
  mkReading (xc_inbound x) (mkProgress (xc_session x) ResponseEvidence_default) None [].

(** The exchange after the loop: positions and session as it left them. *)
Definition finish_reading (r : Reading) (x : Exchange) : Exchange :=
  mkExchange (rd_inbound r) (pg_session (rd_progress r)) (xc_pending x).

Definition accept_response_batch_inner (envelope : CommandEnvelope)
    (checkpoint : RemoteCommandCheckpoint) (required_command_state : option SessionState)
    (responses : HostResponseBatch) : exchange_op CommandReceipt :=
  let command_id := ce_command_id envelope in
  do! slift (map_err DHE.ResponseBudget
               (batch_validate responses DEFAULT_HOST_RESPONSE_LIMITS)) in
  do! slift (fail_if (bool_decide (rb_frames responses = []))
               (DHE.MissingCommandResult command_id)) in
  let! reading := zoom start_reading finish_reading
                    (do! read_frames envelope required_command_state (rb_frames responses) in
                     sget id) in
  let! outcome := slift (ok_or (rd_outcome reading) (DHE.MissingCommandResult command_id)) in
  do! zoom xc_session xc_set_session
        (settle envelope checkpoint required_command_state (pg_evidence (rd_progress reading))
           outcome) in
  sret (mkCommandReceipt command_id outcome (rd_events reading)).

(** ** A dispatched response, with observations before it *)

(** The number of leading unsolicited events. *)
Fixpoint unsolicited_prefix (correlations : list (option Z)) : nat :=
  match correlations with
  | None :: rest => S (unsolicited_prefix rest)
  | _ => 0
  end.

(** The first correlation that is not the command's, as an error. *)
Fixpoint require_correlated (command_id : Z) (correlations : list (option Z))
    : client_result unit :=
  match correlations with
  | [] => Ok tt
  | correlation :: rest =>
      if bool_decide (correlation = Some command_id) then require_correlated command_id rest
      else Err match correlation with
               | Some actual => DHE.UnexpectedCommandCorrelation command_id (Some actual)
               | None => DHE.UnsolicitedEventAfterCorrelatedResponse command_id
               end
  end.

Definition accept_dispatched_response_batch (envelope : CommandEnvelope)
    (checkpoint : RemoteCommandCheckpoint) (required_command_state : option SessionState)
    (responses : HostResponseBatch) : exchange_op CommandReceipt :=
  let command_id := ce_command_id envelope in
  let limits := DEFAULT_HOST_RESPONSE_LIMITS in
  let! correlations := sread (λ x, prevalidate_inbound_correlations responses (xc_inbound x)) in
  let prefix := unsolicited_prefix correlations in
  if (prefix =? 0)%nat then
    do! slift (require_correlated command_id correlations) in
    accept_response_batch_inner envelope checkpoint required_command_state responses
  else
    do! slift (fail_if (prefix =? length correlations)%nat (DHE.MissingCommandResult command_id)) in
    do! slift (require_correlated command_id (drop prefix correlations)) in
    let! pending_after := sread (λ x, ok_or (checked_add usize_max (zlen (xc_pending x))
                                               (Z.of_nat prefix))
                                        DHE.PendingUnsolicitedEventQueueOverflow) in
    do! slift (fail_if (MAX_PENDING_UNSOLICITED_EVENTS <? pending_after)
                 (DHE.PendingUnsolicitedEventQueueFull pending_after
                    MAX_PENDING_UNSOLICITED_EVENTS)) in
    let! unsolicited := slift (map_err DHE.ResponseBudget
                                 (try_from_frames (take prefix (rb_frames responses)) limits)) in
    let! correlated := slift (map_err DHE.ResponseBudget
                                (try_from_frames (drop prefix (rb_frames responses)) limits)) in
    let! accepted := accept_unsolicited_batch unsolicited in
    do! supd (λ x, xc_set_pending (xc_pending x ++ accepted) x) in
    accept_response_batch_inner envelope checkpoint required_command_state correlated.
End frames.
