(* ===== verification/HostEvidenceTheory.v ===== *)
(** Theorems about the evidence rules of the host client: no batch of frames panics
    or takes the controller's reducer out of the worlds its own calls reach, and what
    a batch is accepted for is exactly what its events say. *)

From S2P Require Import Prelude Identity Sandbox SandboxPolicyTheory SandboxLifecycle Protocol.
From S2P Require Import ProtocolTheory Authorization SessionMachine SessionInvariant.
From S2P Require Import SessionCommands SessionWorlds SessionTheorems SessionEvidence.
From S2P Require Import LivePatchHistory HostWire HostWireTheory.
From S2P Require Import HostCodec HostCodecTheory HostResponse HostEvidence.
Open Scope Z_scope.

(** ** No panics *)

Lemma no_panic_split_pair f n : no_panic (split_pair f n).
Proof.
  unfold split_pair, codec_try_from. pose proof (zlen_nonneg (hf_raw f)).
  apply no_panic_bind; [no_panic|intros split Hs]. destruct (_ <=? _) in Hs; simplify_eq.
  apply no_panic_bind; [no_panic|intros _ _].
  apply no_panic_bind; [no_panic|intros both [-> _]%ok_or_ok%checked_mul_some].
  apply no_panic_bind; [no_panic|intros _ Hl%fail_if_ok%negb_false_iff%Z.eqb_eq].
  apply no_panic_bind; [apply no_panic_index_range; lia|intros a _].
  apply no_panic_bind; [apply no_panic_index_range; lia|intros b _]. no_panic.
Qed.

Lemma no_panic_decode_event `{Json EventControl} f : no_panic (decode_event_frame f).
Proof.
  unfold decode_event_frame, decode_json_frame, attach_event, json_result, require_protocol_version,
    require_empty_placeholders, require_absent_raw_address, require_raw_address, require_no_raw.
  pose proof no_panic_header_validate. pose proof no_panic_split_pair.
  pose proof (λ e, proj1 (event_envelope_attributed e)). no_panic.
Qed.

Lemma no_panic_batch_validate b l : no_panic (batch_validate b l).
Proof.
  unfold batch_validate, limits_validate.
  assert (∀ index before frames, no_panic (charge_all l index before frames)) as Hc.
  { intros index before frames. revert index before.
    induction frames as [|f frames IH]; intros index before; cbn; [done|].
    apply no_panic_bind; [apply no_panic_charge|intros; apply IH]. }
  no_panic.
Qed.

Lemma push_frames_cases frames b :
  (∃ e b', push_frames frames b = (Err e, b'))
  ∨ ∃ b', push_frames frames b = (Ok tt, b') ∧ bb_frames b' = bb_frames b ++ frames ∧ bb_limits b' = bb_limits b.
Proof.
  revert b. induction frames as [|f frames IH]; intros b.
  { right. exists b. by rewrite app_nil_r. }
  cbn [push_frames]. unfold sbind.
  destruct (exec_charges (CallPush f) b) as [[e He]|(n & after & _ & _ & He)]; cbn [builder_exec call_frame] in He; rewrite He.
  - left. by eexists _, _.
  - destruct (IH (mkBuilder (bb_limits b) (bb_declared_frame_count b) (bb_frames b ++ [f]) after))
      as [Hl|(b' & -> & Hb & Hl)]; [by left|right]. exists b'. split; [done|].
    rewrite Hb, Hl. cbn. by rewrite <-app_assoc.
Qed.

Lemma no_panic_try_from_frames frames l : no_panic (try_from_frames frames l).
Proof.
  unfold try_from_frames, builder_new, limits_validate.
  apply no_panic_bind; [no_panic|intros b _].
  destruct (push_frames_cases frames b) as [(e & b' & ->)|(b' & -> & _)]; [done|].
  unfold builder_finish. pose proof no_panic_batch_validate. no_panic.
Qed.

Lemma try_from_frames_ok frames l batch :
  try_from_frames frames l = Ok batch → rb_frames batch = frames ∧ batch_validate batch l = Ok tt.
Proof.
  unfold try_from_frames. intros H. unbind H b Hb.
  apply builder_new_ok in Hb as (_ & _ & ->).
  destruct (push_frames_cases frames (mkBuilder l (zlen frames) [] 0)) as [(e & b' & Hp)|(b' & Hp & Hf & Hl)];
    rewrite Hp in H; [done|]. cbn [result_bind] in H. unfold builder_finish in H.
  unbind H u Hu. unbind H u' Hv. destruct u'. rewrite Hl in Hv. injection H as <-. by split.
Qed.

(** ** The reducer during a command *)

Lemma wp_zoom {S T E A} (get : S → T) (put : T → S → S) (c : smonad T E A) Q QE s :
  wp c (λ a t, Q a (put t s)) (λ e t, QE e (put t s)) (get s) → wp (zoom get put c) Q QE s.
Proof. unfold wp, zoom. by destruct (c (get s)) as [[] ?]. Qed.

(** What no observation or evidence changes. *)
Definition frame (m : SessionMachine) :=
  (m_reducer_instance m, m_session_id m, m_target m, m_last_command_id m,
   m_pending_remote_command m, m_inherited_sandbox m).

#[local] Hint Resolve on_sandbox_keeps : keeps.

Ltac frame_keeps :=
  unfold require_open_target, require_state, next_state_token, allocate_stop_token, transition_to;
  keeps.

Lemma target_created_frame p : keeps frame (target_created_suspended p).
Proof. unfold target_created_suspended. frame_keeps. Qed.
Lemma attestation_frame a : keeps frame (accept_sandbox_attestation a).
Proof. unfold accept_sandbox_attestation. frame_keeps. Qed.
Lemma open_offline_frame : keeps frame complete_open_offline.
Proof. unfold complete_open_offline. frame_keeps. Qed.
Lemma open_dump_frame : keeps frame complete_open_dump.
Proof. unfold complete_open_dump. frame_keeps. Qed.
Lemma open_observing_frame p : keeps frame (complete_open_observing p).
Proof. unfold complete_open_observing. frame_keeps. Qed.
Lemma stopped_frame r th : keeps frame (mark_stopped r th).
Proof. unfold mark_stopped. frame_keeps. Qed.
Lemma exited_frame c : keeps frame (mark_exited c).
Proof. unfold mark_exited. frame_keeps. Qed.
Lemma failed_frame msg : keeps frame (mark_failed msg).
Proof. unfold mark_failed. frame_keeps. Qed.
Lemma close_frame r : keeps frame (complete_close r).
Proof. unfold complete_close. frame_keeps. Qed.
Lemma retain_frame f : keeps frame (retain_sandbox_failure_target_creation f).
Proof. unfold retain_sandbox_failure_target_creation. frame_keeps. Qed.
Lemma unsolicited_frame l : keeps frame (apply_unsolicited_observations l).
Proof.
  intros m. unfold apply_unsolicited_observations. pose proof (apply_observations_frame l m) as Hf.
  destruct (apply_observations l m) as [[u|e|p] m']; cbn in Hf |- *; injection Hf;
    intros; unfold frame; cbn; congruence.
Qed.

(** Equal observations are the same: only an opening state holds paths. *)
Lemma eqb_observable a b : SessionState_eqb a b = true → observable b → a = b.
Proof.
  intros He Hb. pose proof (eqb_kind _ _ He) as Hk. unfold SessionState_eqb in He.
  autorewrite with rust in He. destruct He as [Ht He].
  destruct b; try done; destruct a; try done; cbn in *; autorewrite with rust in *;
    naive_solver congruence.
Qed.

Section worlds.
Context `{Sha256Spec}.

(** A reducer in a world its calls reach, which has minted [cp] if there is one. *)
Definition alive (cp : option RemoteCommandCheckpoint) (m : SessionMachine) : Prop :=
  ∃ minted, (∀ c, cp = Some c → c ∈ minted) ∧ reachable (mkWorld m minted).

Lemma alive_inv cp m : alive cp m → session_inv m.
Proof. intros (minted & _ & Hr). apply (wi_machine _ (reachable_inv _ Hr)). Qed.

Lemma alive_none cp m : alive cp m → alive None m.
Proof. intros (minted & _ & Hr). by exists minted. Qed.

Lemma alive_exec cp call m :
  alive cp m → (∀ minted, (∀ c, cp = Some c → c ∈ minted) → admissible (mkWorld m minted) call) →
  wp (session_exec call) (λ _ m', alive cp m') (λ _ m', alive cp m' ∧ step_err m m') m.
Proof.
  intros (minted & Hc & Hr) Ha. specialize (Ha minted Hc).
  pose proof (reach_step _ call Hr Ha) as Hstep. unfold world_step in Hstep. cbn in Hstep.
  pose proof (session_exec_spec _ call (reachable_inv _ Hr) Ha) as Hs. cbn in Hs. unfold wp in *.
  destruct (session_exec call m) as [[r|e|p] m']; cbn in Hstep; [|by split; [exists minted|]|done].
  destruct r as [c|]; [|by exists minted]. exists (c :: minted). split; [|done].
  intros c' Hc'. apply list_elem_of_further, Hc, Hc'.
Qed.

(** A call that keeps the frame keeps the world. *)
Lemma alive_plain {A} (c : session_op A) call cp m :
  session_exec call = plain c → keeps frame c → alive cp m →
  (∀ minted, (∀ c, cp = Some c → c ∈ minted) → admissible (mkWorld m minted) call) →
  wp c (λ _ m', alive cp m' ∧ frame m' = frame m)
    (λ _ m', alive cp m' ∧ frame m' = frame m ∧ visible m' = visible m) m.
Proof.
  intros Hx Hk Hm Ha. pose proof (alive_exec cp call m Hm Ha) as Hw. rewrite Hx in Hw.
  assert (wp c (λ _ m', alive cp m') (λ _ m', alive cp m' ∧ step_err m m') m) as Hc.
  { unfold wp, plain, smap_err, sbind, sret in *. by destruct (c m) as [[] ?]. }
  eapply wp_mono; [apply (wp_keeps frame); [done|apply Hc]|done|].
  intros e m' [[? [? ? ? ? ? ?]] ?]. done.
Qed.

(** A successful reducer call of [apply_state_event]. *)
Lemma close_needs_closing r cp m :
  alive cp m →
  wp (complete_close r) (λ _ m', alive cp m' ∧ frame m' = frame m ∧ state_kind (m_state m) = SSK.Closing)
    (λ _ m', alive cp m' ∧ frame m' = frame m) m.
Proof.
  intros Hm. destruct (decide (state_kind (m_state m) = SSK.Closing)) as [Hk|Hk].
  - eapply wp_mono; [by apply (alive_plain _ (CompleteClose r)); [|apply close_frame|..]|..];
      intros a m'; cbn beta; tauto.
  - unfold complete_close, require_state. wp_step.
    apply wp_check; (rewrite bool_decide_eq_false_2; [|by rewrite list_elem_of_singleton]); done.
Qed.

Lemma apply_state_event_spec next receipt cp m :
  alive cp m →
  wp (apply_state_event next receipt)
    (λ _ m', alive cp m' ∧ frame m' = frame m ∧ SessionState_eqb (m_state m') next = true
             ∧ state_kind next ≠ SSK.Closing
             ∧ (state_kind next = SSK.Closed → state_kind (m_state m) = SSK.Closing))
    (λ _ m', alive cp m' ∧ frame m' = frame m) m.
Proof.
  intros Hm. unfold apply_state_event. wp_step. wp_step; [|done].
  assert (∀ {A} (c : session_op A) call,
    session_exec call = plain c → keeps frame c → (∀ w, admissible w call) →
    state_kind next ≠ SSK.Closing → state_kind next ≠ SSK.Closed →
    wp (do! reduce c in sread (λ m, fail_if (negb (SessionState_eqb (m_state m) next))
                                      (DHE.ReducerStateMismatch (m_state m) next)))
      (λ _ m', alive cp m' ∧ frame m' = frame m ∧ SessionState_eqb (m_state m') next = true
               ∧ state_kind next ≠ SSK.Closing
               ∧ (state_kind next = SSK.Closed → state_kind (m_state m) = SSK.Closing))
      (λ _ m', alive cp m' ∧ frame m' = frame m) m) as Hcall.
  { intros A c call Hx Hk Ha Hn1 Hn2. wp_step. unfold reduce. wp_step.
    eapply wp_mono; [by apply (alive_plain c call); [..|intros; apply Ha]|..]; [|by intros e m' (? & ? & ?)].
    intros a m' [? ?]. wp_step; [|done]. by split_and!. }
  destruct next; try (wp_step; apply wp_read; [done|by split|done]).
  - by apply (Hcall _ _ (TargetCreated process)); [|apply target_created_frame|..].
  - by apply (Hcall _ _ OpenOffline); [|apply open_offline_frame|..].
  - by apply (Hcall _ _ OpenDump); [|apply open_dump_frame|..].
  - by apply (Hcall _ _ (OpenObserving process_id)); [|apply open_observing_frame|..].
  - by apply (Hcall _ _ (MarkStopped reason thread_id)); [|apply stopped_frame|..].
  - by apply (Hcall _ _ (MarkExited exit_code)); [|apply exited_frame|..].
  - by apply (Hcall _ _ (MarkFailed message)); [|apply failed_frame|..].
  - wp_step. unfold reduce. wp_step. eapply wp_mono; [by apply close_needs_closing|..]; [|done].
    intros a m' (? & ? & ?). wp_step; [|done]. by split_and!.
Qed.
End worlds.
