(* ===== verification/HostReading.v ===== *)
(** A response of the debugger host while it is read: what the events of a batch do to
    the session of the client, and what the client takes them for. *)

From S2P Require Import Prelude Identity Sandbox SandboxPolicyTheory SandboxLifecycle Protocol.
From S2P Require Import ProtocolTheory Authorization SessionMachine SessionInvariant.
From S2P Require Import SessionCommands SessionWorlds SessionTheorems SessionEvidence.
From S2P Require Import LivePatchHistory HostWire HostWireTheory.
From S2P Require Import HostCodec HostCodecTheory HostResponse HostEvidence HostEvidenceTheory.
Open Scope Z_scope.

(** ** Rules *)

Lemma keeps_zoom {S T E A B} (f : S → B) (get : S → T) put (c : smonad T E A) :
  (∀ t s, f (put t s) = f s) → keeps f (zoom get put c).
Proof. intros Hf s. unfold zoom. destruct (c (get s)) as [r t]. apply Hf. Qed.

(** An invariant a method keeps when it succeeds, and what is left of it when it fails;
    it does not panic. *)
Definition maintains {S E A} (I J : S → Prop) (c : smonad S E A) : Prop :=
  ∀ s, I s → wp c (λ _ s', I s') (λ _ s', J s') s.

Section maintains.
Context {S : Type} (I J : S → Prop).

Lemma maintains_bind {E A B} (c : smonad S E A) (k : A → smonad S E B) :
  maintains I J c → (∀ a, maintains I J (k a)) → maintains I J (sbind c k).
Proof.
  intros Hc Hk s Hs. apply wp_bind. eapply wp_mono; [by apply Hc|..]; [|done].
  intros a s' Hs'. by apply Hk.
Qed.
Lemma maintains_ret {E A} (a : A) : maintains I J (sret (E := E) a).
Proof. by intros s Hs. Qed.
Lemma maintains_get {E A} (f : S → A) : maintains I J (sget (E := E) f).
Proof. by intros s Hs. Qed.
Lemma maintains_upd {E} (f : S → S) : (∀ s, I s → I (f s)) → maintains I J (supd (E := E) f).
Proof. intros Hf s Hs. by apply Hf. Qed.
Lemma maintains_map_err {E F A} (f : E → F) (c : smonad S E A) :
  maintains I J c → maintains I J (smap_err f c).
Proof. intros Hc s Hs. apply wp_map_err. by apply Hc. Qed.

Context (HIJ : ∀ s, I s → J s).

Lemma maintains_err {E A} (e : E) : maintains I J (serr (A := A) e).
Proof. intros s Hs. by apply HIJ. Qed.
Lemma maintains_read {E A} (f : S → result A E) : (∀ s, no_panic (f s)) → maintains I J (sread f).
Proof.
  intros Hf s Hs. specialize (Hf s). unfold wp, sread.
  destruct (f s); [done|by apply HIJ|by edestruct Hf].
Qed.
Lemma maintains_lift {E A} (r : result A E) : no_panic r → maintains I J (slift r).
Proof. intros Hr. by apply maintains_read. Qed.
End maintains.

Create HintDb maintains.

Ltac maintains :=
  repeat first
    [ solve [auto with maintains]
    | apply maintains_bind; [|intros]
    | apply maintains_ret | apply maintains_get | apply maintains_map_err
    | apply maintains_err; solve [auto with maintains]
    | apply maintains_read; [solve [auto with maintains]|intros; solve [no_panic]]
    | apply maintains_lift; [solve [auto with maintains]|solve [no_panic]]
    | apply maintains_upd; solve [intros; cbn in *; auto]
    | match goal with |- maintains _ _ (match ?x with _ => _ end) => destruct x end ].

(** ** Inbound frames *)

Lemma observe_event_total event : maintains (λ _, True) (λ _, True) (observe_event event).
Proof.
  apply maintains_map_err. intros ib _. apply wp_zoom. generalize (ib_event_cursor ib) I.
  change (maintains (λ _ : EventSequenceCursor, True) (λ _, True) (cursor_observe (ee_sequence event))).
  unfold cursor_observe. maintains.
Qed.

Section inbound.
Context `{Json EventControl}.

Lemma receive_frame_total frame : maintains (λ _, True) (λ _, True) (receive_frame frame).
Proof.
  pose proof no_panic_decode_event. unfold receive_frame, require_negotiated_frame_version. maintains.
Qed.

Lemma receive_event_total frame : maintains (λ _, True) (λ _, True) (receive_event frame).
Proof.
  pose proof receive_frame_total. pose proof observe_event_total. unfold receive_event. maintains.
Qed.
End inbound.

(** ** What the evidence rules leave alone *)

(** The evidence an operation is accepted for. *)
Definition operation_flags : list EvidenceFlag :=
  [MemoryReadSeen; MemoryWrittenSeen; RegistersReadSeen; RegistersWrittenSeen;
   BreakpointChangedSeen].

Definition change_count (p : Progress) : Z := ev_state_change_count (pg_evidence p).
Definition operations (p : Progress) : list bool := ev_flag (pg_evidence p) <$> operation_flags.
Definition verified (p : Progress) : SessionState * bool :=
  (cs_verified_state (pg_session p), cs_sandbox_cleanup_verified (pg_session p)).
Definition bound (p : Progress) : option LiveTargetBinding * bool :=
  (cs_live_target_binding (pg_session p), ev_flag (pg_evidence p) LiveTargetBoundSeen).

Lemma keeps_on_reducer {A B} (f : Progress → B) (op : smonad SessionMachine DebugHostClientError A) :
  (∀ m p, f (pg_set_reducer m p) = f p) → keeps f (on_reducer op).
Proof. apply keeps_zoom. Qed.

Lemma keeps_record {B} (f : Progress → B) g :
  (∀ p, f (mkProgress (pg_session p) (g (pg_evidence p))) = f p) → keeps f (record g).
Proof. intros Hf p. apply Hf. Qed.

Ltac leaves_alone :=
  unfold accept_event, accept_state_changed, accept_live_target_binding, validate_sandbox_lifecycle,
    accept_lifecycle_state, accept_attestation_event, accept_provider_unavailable,
    accept_cleanup_attempt, accept_cleanup_receipt, accept_sandbox_failure,
    accept_memory_write_failure, accept_exact, observe_sandbox_rejection_diagnostic,
    require_unique_evidence, check_evidence, check_progress;
  repeat first
    [ apply keeps_on_reducer; done
    | apply keeps_record; done
    | apply keeps_bind; [|intros]
    | apply keeps_upd; done
    | apply keeps_ret | apply keeps_err | apply keeps_get | apply keeps_read | apply keeps_lift
    | match goal with |- keeps _ (match ?x with _ => _ end) => destruct x end ].

Definition is_operation (event : DebugEvent) : option EvidenceFlag :=
  match event with
  | DE.MemoryRead _ _ _ => Some MemoryReadSeen
  | DE.MemoryWritten _ _ _ _ => Some MemoryWrittenSeen
  | DE.RegistersRead _ _ _ => Some RegistersReadSeen
  | DE.RegistersWritten _ _ _ _ => Some RegistersWrittenSeen
  | DE.BreakpointChanged _ _ _ => Some BreakpointChangedSeen
  | _ => None
  end.

Lemma event_keeps_verified envelope required event :
  keeps verified (accept_event envelope required event).
Proof. destruct event; leaves_alone. Qed.

Lemma event_keeps_operations envelope required event :
  is_operation event = None → keeps operations (accept_event envelope required event).
Proof. intros He. destruct event; try discriminate He; leaves_alone. Qed.

Lemma event_keeps_bound envelope required event :
  (∀ s b, event ≠ DE.LiveTargetBound s b) → keeps bound (accept_event envelope required event).
Proof. intros He. destruct event; try (by edestruct He); leaves_alone. Qed.

Lemma event_keeps_count envelope required event :
  (∀ s, event ≠ DE.StateChanged s) → keeps change_count (accept_event envelope required event).
Proof. intros He. destruct event; try (by edestruct He); leaves_alone. Qed.

(** ** What an accepted event says *)

(** Operation evidence is about exactly the operation of the command. *)
Definition exact_operation (c : DebugCommand) (event : DebugEvent) : bool :=
  match event with
  | DE.MemoryRead view address bytes => memory_read_exact c view address bytes
  | DE.MemoryWritten stop address before after => memory_written_exact c stop address before after
  | DE.RegistersRead view thread_id registers => registers_read_exact c view thread_id registers
  | DE.RegistersWritten stop thread_id before after =>
      registers_written_exact c stop thread_id before after
  | DE.BreakpointChanged stop breakpoint change => breakpoint_changed_exact c stop breakpoint change
  | _ => true
  end.

Lemma operations_eq p p' f :
  operations p' = operations p → f ∈ operation_flags →
  ev_flag (pg_evidence p') f = ev_flag (pg_evidence p) f.
Proof.
  unfold operations, operation_flags. cbn. intros He Hf. injection He. intros.
  rewrite !elem_of_cons, elem_of_nil in Hf. by destruct Hf as [->|[->|[->|[->|[->|[]]]]]].
Qed.

Lemma accept_exact_run envelope exact flag name p u p' :
  accept_exact envelope exact flag name p = (Ok u, p') →
  exact = true ∧ ev_flag (pg_evidence p) flag = false
  ∧ p' = mkProgress (pg_session p) (ev_set_flag flag (pg_evidence p)).
Proof.
  unfold accept_exact, require_unique_evidence, check_evidence, record, sbind, sread, supd, serr, fail_if.
  destruct exact; [|done]. destruct (ev_flag _ _); [done|]. by intros [= <-].
Qed.

Lemma operation_run envelope required event f p u p' :
  is_operation event = Some f → accept_event envelope required event p = (Ok u, p') →
  exact_operation (ce_command envelope) event = true ∧ ev_flag (pg_evidence p) f = false
  ∧ p' = mkProgress (pg_session p) (ev_set_flag f (pg_evidence p)).
Proof.
  destruct event; intros [= <-] He; cbn [accept_event exact_operation] in *;
    try by apply accept_exact_run in He.
  unfold check_evidence, sbind, sread in He. destruct (ev_memory_write_failure _); [done|].
  by apply accept_exact_run in He.
Qed.

Lemma accept_event_operations envelope required event p u p' :
  accept_event envelope required event p = (Ok u, p') →
  exact_operation (ce_command envelope) event = true
  ∧ ∀ f, f ∈ operation_flags →
      Nat.b2n (ev_flag (pg_evidence p') f)
      = (Nat.b2n (ev_flag (pg_evidence p) f)
         + (if bool_decide (is_operation event = Some f) then 1 else 0))%nat.
Proof.
  intros He. destruct (is_operation event) as [g|] eqn:Hg.
  - destruct (operation_run _ _ _ _ _ _ _ Hg He) as (? & Hp & ->). split; [done|]. intros f _. cbn.
    case_bool_decide as Hf; case_bool_decide; simplify_eq; cbn; [by rewrite Hp|lia].
  - pose proof (event_keeps_operations envelope required event Hg p) as Hk.
    rewrite He in Hk. cbn [snd] in Hk. split; [by destruct event|]. intros f Hf. rewrite (operations_eq _ _ _ Hk Hf).
    rewrite bool_decide_eq_false_2 by done. lia.
Qed.

(** The process and the module a binding must name. *)
Definition bound_to (t : DebugTargetRequest) (b : LiveTargetBinding) : Prop :=
  match t with
  | DTR.Attach a => att_mode a = Debug ∧ lb_process b = scope_process (att_scope a)
  | DTR.Launch l => lb_main_module_binary_id b = lt_binary_id l
  | DTR.Dump _ | DTR.Offline _ => False
  end.

Lemma require_bound_target_ok envelope request b m e u :
  require_bound_target envelope request b m e = Ok u → bound_to request b.
Proof.
  unfold require_bound_target, require_live_target_process. destruct request; try done; cbn.
  - intros Hr. unbind Hr v Hv. apply fail_if_ok in Hv. by apply negb_false_iff, bool_decide_eq_true in Hv.
  - case_bool_decide; [|done]. case_bool_decide; [|done]. by intros _.
Qed.

Lemma binding_run envelope b p u p' :
  accept_live_target_binding envelope b p = (Ok u, p') →
  ∃ request, ce_command envelope = DC.Open request ∧ bound_to request b ∧ bound p' = (Some b, true).
Proof.
  unfold accept_live_target_binding. destruct (ce_command envelope) as [|request| | | | | | | | | | | | |];
    try done. intros Hr. exists request. split; [done|].
  unfold check_progress, check_evidence, sbind, sread in Hr.
  destruct (fail_if _ _) as [[]| |]; [|done..]. destruct (fail_if _ _) as [[]| |]; [|done..].
  destruct (require_bound_target _ _ _ _ _) as [[]| |] eqn:Hb; [|done..].
  split; [by eapply require_bound_target_ok|]. cbn in Hr.
  destruct (cs_live_target_binding _); [by case_bool_decide|]. cbn in Hr.
  destruct (fail_if _ _) as [[]| |]; [|done..]. injection Hr as <- <-. done.
Qed.

Lemma accept_event_bound envelope required event p u p' :
  accept_event envelope required event p = (Ok u, p') →
  bound p' = bound p
  ∨ ∃ request b, ce_command envelope = DC.Open request ∧ bound_to request b
                 ∧ bound p' = (Some b, true).
Proof.
  intros He. destruct event; try (left; pose proof (event_keeps_bound envelope required) as Hk;
    match type of He with accept_event _ _ ?ev _ = _ =>
      specialize (Hk ev ltac:(done) p); rewrite He in Hk; exact Hk end).
  right. apply binding_run in He as (request & ? & ? & ?). by exists request, binding.
Qed.

#[local] Hint Resolve on_sandbox_keeps : keeps.

(** ** The reducer while a response is read *)

Definition winding_down (m : SessionMachine) : Prop :=
  state_kind (m_state m) = SSK.Closing ∨ state_kind (m_state m) = SSK.Closed.

(** Calls that cannot begin to wind a session down. *)
Definition no_wind {E A} (c : smonad SessionMachine E A) : Prop :=
  ∀ m, winding_down (c m).2 → winding_down m.

Lemma no_wind_keeps {E A} (c : smonad SessionMachine E A) : keeps m_state c → no_wind c.
Proof. intros Hk m. unfold winding_down. by rewrite Hk. Qed.

Lemma no_wind_bind {E A B} (c : smonad SessionMachine E A) (k : A → smonad SessionMachine E B) :
  no_wind c → (∀ a, no_wind (k a)) → no_wind (sbind c k).
Proof.
  intros Hc Hk m Hm. apply Hc. unfold sbind in Hm. destruct (c m) as [[a|e|p] m'] eqn:Hr; [|done..].
  by apply (Hk a).
Qed.

Lemma no_wind_transition next :
  state_kind next ≠ SSK.Closing → state_kind next ≠ SSK.Closed → no_wind (transition_to next).
Proof.
  intros H1 H2 m. unfold transition_to, sbind, sread, supd, winding_down.
  destruct (map_err _ _) as [[]| |]; cbn; tauto.
Qed.

Ltac no_wind :=
  repeat first
    [ apply no_wind_transition; done
    | apply no_wind_bind; [|intros]
    | solve [apply no_wind_keeps; keeps]
    | match goal with |- no_wind (match ?x with _ => _ end) => destruct x end ].

Section worlds.
Context `{Sha256Spec}.

(** The reducer of a command [cp] was minted for, begun as [m0]; only a command that
    ends the session may wind it down. *)
Record in_flight (c : DebugCommand) (cp : RemoteCommandCheckpoint) (m0 m : SessionMachine)
    : Prop := {
  if_alive : alive (Some cp) m;
  if_frame : frame m = frame m0;
  if_open : is_terminate_or_close c = false → ¬ winding_down m
}.

Section in_flight.
Context (c : DebugCommand) (cp : RemoteCommandCheckpoint) (m0 : SessionMachine).
Abbreviation flying := (maintains (in_flight c cp m0) (alive (Some cp))).

(** A successful call must not wind the session down. *)
Lemma flying_call {A} (op : session_op A) call :
  session_exec call = plain op → keeps frame op → (∀ w, admissible w call) →
  no_wind op → flying op.
Proof.
  intros Hx Hk Ha Hd m [Hm Hf Ho]. specialize (Hd m).
  pose proof (alive_plain op call (Some cp) m Hx Hk Hm (λ _ _, Ha _)) as Hw.
  unfold wp in *. destruct (op m) as [[a|e|p] m']; [|tauto|done].
  destruct Hw as [? ?]. cbn in Hd. split; [done|congruence|tauto].
Qed.

Lemma flying_attestation a : flying (accept_sandbox_attestation a).
Proof.
  apply (flying_call _ (AcceptAttestation a)); [done|apply attestation_frame|done|].
  unfold accept_sandbox_attestation. no_wind.
Qed.

Lemma flying_retain f : flying (retain_sandbox_failure_target_creation f).
Proof.
  apply (flying_call _ (RetainFailure f)); [done|apply retain_frame|done|].
  unfold retain_sandbox_failure_target_creation. no_wind.
Qed.

Lemma flying_state_event next receipt : flying (apply_state_event next receipt).
Proof.
  intros m [Ha Hf Ho].
  eapply wp_mono; [by apply (apply_state_event_spec next receipt (Some cp))|..].
  - intros u m' (? & ? & He & Hn & Hc). split; [done|congruence|]. intros Ht Hd.
    specialize (Ho Ht). apply Ho. unfold winding_down in *. rewrite (eqb_kind _ _ He) in Hd.
    destruct Hd; [done|left; auto].
  - by intros e m' [? ?].
Qed.

(** ** The reducer under the evidence rules *)

Definition flight (p : Progress) : Prop := in_flight c cp m0 (pg_reducer p).
Definition landed (p : Progress) : Prop := alive (Some cp) (pg_reducer p).
Abbreviation holds := (maintains flight landed).

Lemma flight_landed p : flight p → landed p.
Proof. by intros []. Qed.
#[local] Hint Resolve flight_landed : maintains.

Lemma holds_on_reducer {A} (op : smonad SessionMachine DebugHostClientError A) :
  flying op → holds (on_reducer op).
Proof. intros Hop p Hp. apply wp_zoom. by apply Hop. Qed.

Lemma holds_record f : holds (record f).
Proof. by apply maintains_upd. Qed.
#[local] Hint Resolve holds_record : maintains.

Lemma holds_unique flag name : holds (require_unique_evidence flag name).
Proof. unfold require_unique_evidence, check_evidence. maintains. Qed.
#[local] Hint Resolve holds_unique : maintains.

#[local] Hint Resolve holds_on_reducer maintains_map_err flying_attestation flying_retain
  flying_state_event : maintains.

Lemma holds_attestation a : holds (accept_attestation_event a).
Proof. unfold accept_attestation_event, check_progress. maintains. Qed.

Lemma holds_failure envelope failure attempt : holds (accept_sandbox_failure envelope failure attempt).
Proof.
  unfold accept_sandbox_failure, observe_sandbox_rejection_diagnostic, check_evidence, check_progress,
    reduce, validate_sandbox_failure, validate_against_expected, validate_against_inherited,
    validate_stage_kind, validate_sandbox_failure_phase. maintains.
Qed.

Lemma holds_provider envelope u : holds (accept_provider_unavailable envelope u).
Proof.
  unfold accept_provider_unavailable, observe_sandbox_rejection_diagnostic, check_evidence, check_progress,
    require_sandbox_session. maintains.
Qed.

Lemma holds_lifecycle_state sid state : holds (accept_lifecycle_state sid state).
Proof.
  unfold accept_lifecycle_state, check_evidence, check_progress, require_sandbox_session. maintains.
Qed.

Lemma preserve_cleanup_no_panic r : no_panic r → no_panic (preserve_cleanup_error r).
Proof. intros Hr p. unfold preserve_cleanup_error. destruct r; [done| |by edestruct Hr]. by repeat case_match. Qed.

Lemma no_panic_receipt_binding r m : no_panic (validate_cleanup_receipt_binding r m).
Proof. unfold validate_cleanup_receipt_binding, validate_inherited_cleanup_binding. no_panic. Qed.
#[local] Hint Resolve preserve_cleanup_no_panic no_panic_receipt_binding : nopanic.

Lemma holds_cleanup_attempt envelope a : holds (accept_cleanup_attempt envelope a).
Proof.
  pose proof holds_failure.
  unfold accept_cleanup_attempt, check_evidence, check_progress, require_no_cleanup_evidence.
  maintains. apply maintains_read; [auto with maintains|]. intros p.
  apply preserve_cleanup_no_panic. unfold validate_cleanup_attempt_receipt. no_panic.
Qed.

Lemma holds_cleanup_receipt r : holds (accept_cleanup_receipt r).
Proof.
  unfold accept_cleanup_receipt, check_evidence, check_progress, require_sandbox_session,
    require_no_cleanup_evidence. maintains.
  apply maintains_read; [auto with maintains|]. intros p. apply preserve_cleanup_no_panic.
  unfold validate_cleanup_receipt. no_panic.
Qed.

#[local] Hint Resolve holds_attestation holds_failure holds_provider holds_lifecycle_state
  holds_cleanup_attempt holds_cleanup_receipt : maintains.

Lemma holds_lifecycle envelope l : holds (validate_sandbox_lifecycle envelope l).
Proof.
  unfold validate_sandbox_lifecycle, check_evidence, require_command_state_before_sandbox_evidence.
  maintains.
Qed.

Lemma holds_binding envelope b : holds (accept_live_target_binding envelope b).
Proof.
  unfold accept_live_target_binding, check_evidence, check_progress, require_bound_target,
    require_live_target_process. maintains.
Qed.

Lemma holds_write_failure envelope f : holds (accept_memory_write_failure envelope f).
Proof. unfold accept_memory_write_failure, check_evidence. maintains. Qed.

Lemma holds_exact envelope exact flag name : holds (accept_exact envelope exact flag name).
Proof. unfold accept_exact. maintains. Qed.

#[local] Hint Resolve holds_lifecycle holds_binding holds_write_failure holds_exact : maintains.

(** Reading an event: at most one state change, and no overflow while they are few. *)
Definition counts {A} (op : progress_op A) : Prop :=
  ∀ p, flight p → 0 ≤ change_count p < usize_max →
    wp op (λ _ p', flight p' ∧ change_count p ≤ change_count p' ≤ change_count p + 1)
      (λ _ p', landed p') p.

Lemma wp_still {A} (op : progress_op A) p :
  holds op → keeps change_count op → flight p →
  wp op (λ _ p', flight p' ∧ change_count p' = change_count p) (λ _ p', landed p') p.
Proof.
  intros Ho Hk Hp. eapply wp_mono; [by apply (wp_keeps change_count), Ho|done|].
  by intros e p' [? _].
Qed.

Lemma state_changed_counts required state : counts (accept_state_changed required state).
Proof.
  intros p Hp Hc. unfold accept_state_changed. wp_step.
  eapply wp_mono; [apply wp_still; [| |exact Hp]|..]; [destruct state; maintains|..|done].
  { destruct state; leaves_alone. }
  intros _ p1 [Hp1 Hc1]. wp_step. wp_step. wp_step.
  eapply wp_mono; [apply wp_still; [| |exact Hp1]|..]; [|leaves_alone| |done].
  { destruct required; [|by maintains]. case_match; [by maintains|]. maintains. }
  intros _ p2 [Hp2 Hc2]. wp_step. apply wp_upd. wp_step. unfold change_count in *.
  apply wp_read; cbn; unfold plain_add.
  - intros n Hn. destruct (Z.leb_spec (ev_state_change_count (pg_evidence p2) + 1) usize_max) as [_|?];
      [|lia]. injection Hn as <-. split; [done|lia].
  - intros e. by case_match.
  - intros q. destruct (Z.leb_spec (ev_state_change_count (pg_evidence p2) + 1) usize_max); [done|lia].
Qed.

Lemma accept_event_counts envelope required event :
  counts (accept_event envelope required event).
Proof.
  destruct event as [| | | | | | | | | | | |] eqn:He; try apply state_changed_counts.
  all: intros p Hp Hc; (eapply wp_mono; [apply wp_still; [| |exact Hp]|..]);
    [|by apply event_keeps_count|intros ? ? [? ->]; split; [done|lia]|done].
  all: unfold accept_event, check_evidence, require_command_state_before_sandbox_evidence; maintains.
Qed.
End in_flight.

(** ** Reading a batch *)

Definition is_result (event : EventEnvelope) : bool :=
  match ee_event event with DE.CommandResult _ _ => true | _ => false end.

(** The events of [events] that are evidence [f]. *)
Definition evidence_of (f : EvidenceFlag) (events : list EventEnvelope) : list EventEnvelope :=
  filter (λ event, is_operation (ee_event event) = Some f) events.

Section reading.
Context `{Json EventControl}.
Context (envelope : CommandEnvelope) (cp : RemoteCommandCheckpoint) (m0 : SessionMachine)
  (s0 : ClientSession).

(** The session, the evidence and the events after some frames. *)
Record reading_ok (r : Reading) : Prop := {
  ro_flight : in_flight (ce_command envelope) cp m0 (pg_reducer (rd_progress r));
  ro_verified : verified (rd_progress r) = (cs_verified_state s0, cs_sandbox_cleanup_verified s0);
  ro_count : 0 ≤ change_count (rd_progress r) ≤ zlen (rd_events r);
  ro_bound : bound (rd_progress r) = (cs_live_target_binding s0, false)
             ∨ ∃ request b, ce_command envelope = DC.Open request ∧ bound_to request b
                            ∧ bound (rd_progress r) = (Some b, true);
  ro_exact : Forall (λ event, exact_operation (ce_command envelope) (ee_event event) = true)
               (rd_events r);
  ro_operations : ∀ f, f ∈ operation_flags →
    length (evidence_of f (rd_events r)) = Nat.b2n (ev_flag (pg_evidence (rd_progress r)) f);
  ro_attributed : Forall (λ event, ee_caused_by event = Some (ce_command_id envelope)
                                   ∧ ee_session_id event = Some (m_session_id m0)) (rd_events r);
  ro_result : match rd_outcome r with
              | None => Forall (λ event, is_result event = false) (rd_events r)
              | Some outcome => ∃ front last, rd_events r = front ++ [last]
                  ∧ Forall (λ event, is_result event = false) front
                  ∧ ee_event last = DE.CommandResult (ce_command_id envelope) outcome
              end
}.

Lemma require_response_ok required event p u :
  require_response_event envelope required event p = Ok u →
  ee_caused_by event = Some (ce_command_id envelope)
  ∧ ee_session_id event = Some (m_session_id (pg_reducer p)).
Proof.
  unfold require_response_event. intros Hr. unbind Hr x Hx. unbind Hr y Hy.
  apply fail_if_ok in Hx, Hy. rewrite negb_false_iff, bool_decide_eq_true in Hx, Hy. done.
Qed.

Lemma no_panic_response_event required event p :
  no_panic (require_response_event envelope required event p).
Proof. unfold require_response_event, validate_post_rejection_event. no_panic. Qed.

Lemma accept_result_run event r u r' :
  accept_result envelope event r = (Ok u, r') → rd_outcome r = None →
  rd_inbound r' = rd_inbound r ∧ rd_progress r' = rd_progress r ∧ rd_events r' = rd_events r
  ∧ match event with
    | DE.CommandResult id outcome => id = ce_command_id envelope ∧ rd_outcome r' = Some outcome
    | _ => rd_outcome r' = None
    end.
Proof.
  intros He Hn. unfold accept_result, sbind, slift, sget, supd, sret, serr, fail_if in He.
  destruct event; try by injection He as <- <-.
  destruct (Z.eqb_spec command_id (ce_command_id envelope)); cbn in He; [|done].
  rewrite Hn in He. by injection He as <- <-.
Qed.

Lemma accept_result_total event : maintains (λ r, landed cp (rd_progress r))
  (λ r, landed cp (rd_progress r)) (accept_result envelope event).
Proof. unfold accept_result. maintains. Qed.

Lemma reading_step required event r p' r' u :
  reading_ok r → rd_outcome r = None →
  require_response_event envelope required event (rd_progress r) = Ok tt →
  in_flight (ce_command envelope) cp m0 (pg_reducer p') →
  change_count (rd_progress r) ≤ change_count p' ≤ change_count (rd_progress r) + 1 →
  accept_event envelope required (ee_event event) (rd_progress r) = (Ok u, p') →
  accept_result envelope (ee_event event) (rd_set_progress p' r) = (Ok tt, r') →
  reading_ok (mkReading (rd_inbound r') (rd_progress r') (rd_outcome r') (rd_events r' ++ [event])).
Proof.
  intros [Hf Hv Hc Hb Hx Ho Ha Hr] Hn Hq Hf' Hc' He Hs.
  apply accept_result_run in Hs as (_ & -> & -> & Hs); [|done]. cbn [rd_events rd_set_progress].
  rewrite Hn in Hr. pose proof (event_keeps_verified envelope required (ee_event event) (rd_progress r)) as Hkv.
  destruct (accept_event_operations _ _ _ _ _ _ He) as [Hex Hops].
  apply require_response_ok in Hq as [Hq1 Hq2]. rewrite He in Hkv.
  split; cbn [rd_progress rd_events rd_outcome rd_set_progress].
  - done.
  - cbn in Hkv. congruence.
  - rewrite zlen_app, zlen_cons. unfold zlen at 2. cbn. lia.
  - destruct (accept_event_bound _ _ _ _ _ _ He) as [->|Hnew]; [done|by right].
  - apply Forall_app; split; [done|]. by constructor.
  - intros f Hin. unfold evidence_of. rewrite list.filter_app, length_app, (Hops f Hin).
    rewrite <-(Ho f Hin). f_equal. cbn. case_decide; case_bool_decide; done.
  - apply Forall_app; split; [done|]. constructor; [|done]. split; [done|]. rewrite Hq2.
    destruct Hf as [_ Hfr _]. injection Hfr. congruence.
  - unfold is_result. destruct (ee_event event) eqn:Hev;
      try (rewrite Hs; apply Forall_app; split; [done|]; constructor; [by rewrite Hev|done]).
    destruct Hs as [-> ->]. exists (rd_events r), event. done.
Qed.

Lemma read_frame_spec required frame r :
  reading_ok r → zlen (rd_events r) < usize_max →
  wp (read_frame envelope required frame)
    (λ _ r', reading_ok r' ∧ zlen (rd_events r') = zlen (rd_events r) + 1)
    (λ _ r', landed cp (rd_progress r')) r.
Proof.
  intros Hr Hl. pose proof (flight_landed _ _ _ _ (ro_flight r Hr)) as Hland.
  unfold read_frame. wp_step. apply wp_read; [|done|by intros p; case_match].
  intros [] Hn. assert (rd_outcome r = None) as Hout by (by destruct (rd_outcome r)).
  wp_step. apply wp_zoom. eapply wp_mono; [by apply receive_event_total|..|done].
  intros event ib _. wp_step.
  apply wp_check; [apply no_panic_response_event| |done]. intros Hq. wp_step. apply wp_zoom.
  eapply wp_mono; [apply wp_eq, (accept_event_counts (ce_command envelope) cp m0)|..|done].
  { apply Hr. }
  { pose proof (ro_count r Hr). cbn. lia. }
  intros u p' [[Hf' Hc'] He]. cbn in He, Hc', Hq. wp_step.
  eapply wp_mono; [by apply wp_eq, accept_result_total, (flight_landed _ _ _ _ Hf')|..|done].
  intros [] r' [Hl' Hs]. wp_step. split.
  - apply (reading_step required event (rd_set_inbound ib r) p' r' u); try done.
    by destruct Hr; split.
  - apply accept_result_run in Hs as (_ & _ & -> & _); [|done]. cbn. rewrite zlen_app.
    unfold zlen at 2. cbn. lia.
Qed.

(** A batch that was read to its end. *)
Lemma read_frames_spec required frames r :
  reading_ok r → zlen (rd_events r) + zlen frames ≤ usize_max →
  wp (read_frames envelope required frames) (λ _ r', reading_ok r')
    (λ _ r', landed cp (rd_progress r')) r.
Proof.
  revert r. induction frames as [|frame frames IH]; intros r Hr Hl; cbn [read_frames]; [by wp_step|].
  rewrite zlen_cons in Hl. pose proof (zlen_nonneg frames). wp_step.
  eapply wp_mono; [apply read_frame_spec; [done|lia]|..|done].
  intros u r' [Hr' Hl']. apply IH; [done|lia].
Qed.
End reading.
End worlds.
