(* ===== verification/HostSettling.v ===== *)
(** A response of the debugger host when it is settled: the command that was begun, the
    verdict on the evidence, and the session the client is left with. *)

From S2P Require Import Prelude Identity Sandbox SandboxPolicyTheory SandboxLifecycle Protocol.
From S2P Require Import ProtocolTheory Authorization SessionMachine SessionInvariant.
From S2P Require Import SessionCommands SessionWorlds SessionTheorems SessionEvidence.
From S2P Require Import LivePatchHistory HostWire HostWireTheory HostCodec HostCodecTheory.
From S2P Require Import HostResponse HostEvidence HostEvidenceTheory HostReading.
Open Scope Z_scope.

#[local] Hint Resolve on_sandbox_keeps : keeps.

Section worlds.
Context `{Sha256Spec}.

(** ** A begun command *)

Lemma begin_alive e m :
  alive None m → typed_command (ce_command e) →
  wp (begin_remote_command e) (λ cp m', begun e m cp m' ∧ alive (Some cp) m')
    (λ _ m', step_err m m' ∧ alive None m') m.
Proof.
  intros Hm Ht. pose proof (begin_remote_command_spec e m (alive_inv _ _ Hm) Ht) as Hs.
  destruct Hm as (minted & _ & Hr). pose proof (reach_step _ (BeginRemote e) Hr Ht) as Hw.
  unfold world_step in Hw. cbn [session_exec w_machine w_minted] in Hw.
  unfold wp, smap_err, sbind, sret in *. destruct (begin_remote_command e m) as [[cp|er|p] m']; [| |done].
  - split; [done|]. exists (cp :: minted). split; [|done]. intros ? [= ->]. left.
  - split; [done|]. exists minted. by split.
Qed.

Lemma begun_effect e m cp m' :
  begun e m cp m' →
  ∃ m1, accept_effect (ce_command e) (set_last_command_id (Some (ce_command_id e)) m) = (Ok tt, m1)
        ∧ m_state m' = m_state m1 ∧ m_target m' = m_target m1.
Proof. intros []. exists (set_pending_remote_command None m'). by destruct beg_accepted. Qed.

(** Only [Terminate] and [Close] begin to wind a session down. *)
Lemma begun_open e m cp m' :
  begun e m cp m' → is_terminate_or_close (ce_command e) = false → ¬ winding_down m'.
Proof.
  intros Hb Hc Hw. destruct (begun_effect _ _ _ _ Hb) as (m1 & He & Hs & _).
  destruct Hb as [_ [_ _ _ _ Hp Hv _] _ _ _ _ _ _ _].
  assert (no_wind (accept_effect (ce_command e))) as Hn.
  { unfold accept_effect, accept_open, refresh_stopped_token, open_authority, allocate_stop_token,
      allocate_run_token, consume_host_risk_lease, consume_sandbox_ownership_lease,
      ensure_execution_allowed, next_state_token, require_session.
    destruct (ce_command e); try discriminate Hc; no_wind. }
  specialize (Hn (set_last_command_id (Some (ce_command_id e)) m)). rewrite He in Hn.
  unfold winding_down in *. cbn [snd] in Hn. rewrite <-Hs in Hn. specialize (Hn Hw). cbn in Hn.
  destruct Hn as [Hn|Hn]; [|by eapply accepted_not_closed].
  apply validate_against_ok in Hv as (_ & _ & _ & Hal); [|done].
  destruct (m_state m); try done. apply closing_accepts_only_close in Hal as [st Heq].
  by rewrite Heq in Hc.
Qed.

(** Only [Open] changes the target, and it opens an idle session. *)
Lemma begun_target e m cp m' :
  begun e m cp m' →
  match ce_command e with
  | DC.Open request => state_kind (m_state m) = SSK.Idle ∧ m_target m' = Some request
  | _ => m_target m' = m_target m
  end.
Proof.
  intros Hb. destruct (begun_effect _ _ _ _ Hb) as (m1 & He & _ & ->).
  destruct Hb as [_ [_ _ _ _ Hp Hv _] _ _ _ _ _ _ _].
  apply validate_against_ok in Hv as (_ & _ & _ & Hal); [|done].
  destruct (ce_command e) as [|request| | | | | | | | | | | | |] eqn:Hc; cbn [accept_effect] in He;
    try (match type of He with ?op ?m0 = _ =>
           assert (keeps m_target op) as Hk by
             (unfold refresh_stopped_token, allocate_stop_token, allocate_run_token,
                ensure_execution_allowed, next_state_token, transition_to; keeps);
           specialize (Hk m0); rewrite He in Hk; exact Hk end).
  split; [by destruct (m_state m)|]. unfold accept_open, transition_to, sbind, sread, supd in He.
  destruct (open_authority _ _) as [[a|?|?] m2]; [|done..].
  destruct (next_state_token _) as [[n|?|?] m3]; [|done..].
  destruct (map_err _ _) as [[]|?|?]; [|done..]. by injection He as <-.
Qed.

(** ** Resolving it *)

Lemma alive_resolve {A} (op : session_op A) call cp m :
  session_exec call = plain op → alive (Some cp) m →
  (∀ minted, cp ∈ minted → admissible (mkWorld m minted) call) →
  wp op (λ _ m', alive None m') (λ _ m', alive None m') m.
Proof.
  intros Hx Hm Ha. pose proof (alive_exec (Some cp) call m Hm) as Hw. rewrite Hx in Hw.
  assert (∀ minted, (∀ c, Some cp = Some c → c ∈ minted) → admissible (mkWorld m minted) call) as Hadm.
  { intros minted Hin. by apply Ha, Hin. }
  specialize (Hw Hadm). unfold wp, plain, smap_err, sbind, sret in *.
  destruct (op m) as [[] ?]; [|destruct Hw as [Hw _]|done]; by apply (alive_none (Some cp)).
Qed.

Lemma commit_alive cp id m :
  alive (Some cp) m →
  wp (commit_remote_command cp id)
    (λ _ m', alive None m' ∧ m' = set_pending_remote_command None m) (λ _ m', alive None m') m.
Proof.
  intros Hm. pose proof (alive_resolve _ (CommitRemote cp id) cp m eq_refl Hm) as Hw.
  specialize (Hw (λ minted Hin, or_introl Hin)).
  unfold commit_remote_command, wp, sbind, sread, supd, sget in *.
  destruct (validate_remote_checkpoint cp id m) as [[]| |]; done.
Qed.

Lemma reject_alive cp id m :
  alive (Some cp) m →
  wp (reject_remote_command cp id) (λ _ m', alive None m' ∧ m' = restored cp m)
    (λ _ m', alive None m') m.
Proof.
  intros Hm. pose proof (alive_resolve _ (RejectRemote cp id) cp m eq_refl Hm) as Hw.
  specialize (Hw (λ minted Hin, or_introl Hin)).
  assert (m_reducer_instance m = cp_reducer_instance cp → checkpoint_ok m cp) as Hc.
  { intros _. destruct Hm as (minted & Hin & Hr). destruct (reachable_inv _ Hr) as [_ HF].
    rewrite list.Forall_forall in HF. by apply (HF cp), Hin. }
  pose proof (reject_spec cp id m (alive_inv _ _ Hm) Hc) as Hs. unfold wp in *.
  destruct (reject_remote_command cp id m) as [[] ?]; [|done..]. by destruct Hs as [-> _].
Qed.

Lemma alive_minted cp m : alive (Some cp) m → minted_by m cp.
Proof.
  intros (minted & Hin & Hr). destruct (reachable_inv _ Hr) as [_ HF].
  rewrite list.Forall_forall in HF. by apply HF, Hin.
Qed.

(** ** A session between commands *)

Definition live_kind (k : SessionStateKind) : Prop :=
  k = SSK.Stopped ∨ k = SSK.Running ∨ k = SSK.Pausing.

(** No command is in flight and the client shows the reducer's state; a binding is of
    the opened target while it is live, and a closed sandbox was cleaned up. *)
Record settled (s : ClientSession) : Prop := {
  se_alive : alive None (cs_reducer s);
  se_idle : m_pending_remote_command (cs_reducer s) = None;
  se_state : SessionState_eqb (m_state (cs_reducer s)) (cs_verified_state s) = true;
  se_binding : ∀ b, cs_live_target_binding s = Some b →
    live_kind (state_kind (cs_verified_state s))
    ∧ ∃ t, m_target (cs_reducer s) = Some t ∧ bound_to t b;
  se_cleanup : state_kind (cs_verified_state s) = SSK.Closed →
    requires_cleanup_receipt (cs_reducer s) = true → cs_sandbox_cleanup_verified s = true
}.

Lemma invalidate_spec s :
  invalidate_binding_for_state s = s ∧ live_kind (state_kind (cs_verified_state s))
  ∨ invalidate_binding_for_state s = cs_set_binding None s.
Proof. unfold invalidate_binding_for_state, live_kind. destruct (state_kind _); tauto. Qed.

Lemma invalidate_reducer s : cs_reducer (invalidate_binding_for_state s) = cs_reducer s.
Proof. by destruct (invalidate_spec s) as [[-> _]| ->]. Qed.

Lemma invalidate_live s :
  live_kind (state_kind (cs_verified_state s)) → invalidate_binding_for_state s = s.
Proof. unfold invalidate_binding_for_state. by intros [-> |[-> | ->]]. Qed.

(** Committing and verifying the reducer's state settles the session. *)
Lemma settled_commit m s b :
  alive None m → m_pending_remote_command m = None →
  (∀ bd, cs_live_target_binding s = Some bd → ∃ t, m_target m = Some t ∧ bound_to t bd) →
  (state_kind (m_state m) = SSK.Closed → requires_cleanup_receipt m = true → b = true) →
  settled (invalidate_binding_for_state
             (cs_set_cleanup_verified b (cs_set_verified (m_state m) (cs_set_reducer m s)))).
Proof.
  intros Hm Hp Hb Hc. destruct (invalidate_spec
    (cs_set_cleanup_verified b (cs_set_verified (m_state m) (cs_set_reducer m s)))) as [[-> Hl]| ->].
  - split; try done; cbn; [apply SessionState_eqb_refl|]. auto.
  - split; try done. apply SessionState_eqb_refl.
Qed.

(** ** The verdict *)

Lemma failed_with_kind detail st : failed_with detail st = true → state_kind st = SSK.Failed.
Proof. by destruct st. Qed.

Lemma no_panic_classify e m ev code msg : no_panic (classify_rejected_response e m ev code msg).
Proof. unfold classify_rejected_response, classify_write_failure. no_panic. Qed.

(** A command is rolled back only without effects; a retained failure shows. *)
Lemma classify_ok e m ev code msg d :
  classify_rejected_response e m ev code msg = Ok d →
  match d with RollBack => has_effect ev = false | _ => state_kind (m_state m) = SSK.Failed end.
Proof.
  unfold classify_rejected_response, classify_write_failure, classify_retained_failure. cbn zeta.
  intros Hd.
  assert (∀ b : bool, negb b = true → b = false) as Hneg by by intros [].
  destruct (ev_memory_write_failure ev); destruct (ev_sandbox_rejection_diagnostic ev) as [[]|];
    try discriminate Hd; unbind Hd u Hu; repeat case_match; simplify_eq; try done;
    rewrite ?andb_true_iff in *; destruct_and?; first [by apply Hneg | by eapply failed_with_kind].
Qed.

Lemma success_visible c m m' e :
  visible m' = visible m → success_state_valid c m' e = success_state_valid c m e.
Proof.
  intros Hv. unfold success_state_valid, requires_cleanup_receipt.
  pose proof (f_equal v_state Hv) as H1. pose proof (f_equal v_sandbox Hv) as H2.
  pose proof (f_equal v_inherited Hv) as H3. cbn in H1, H2, H3. by rewrite H1, H2, H3.
Qed.

Lemma validate_success_ok envelope m e u :
  validate_success_evidence envelope m e = Ok u →
  success_state_valid (ce_command envelope) m e = true
  ∧ (is_sandboxed_open (ce_command envelope) = true → ev_flag e AttestationSeen = true)
  ∧ (binding_command (ce_command envelope) ≠ None → ev_flag e LiveTargetBoundSeen = true).
Proof.
  unfold validate_success_evidence. cbn zeta. intros Hv. unbind Hv x Hx. unbind Hv y Hy.
  apply fail_if_ok in Hx, Hy. apply negb_false_iff in Hx. split; [done|]. split.
  - intros Hc. rewrite Hc in Hy. by destruct (ev_flag e AttestationSeen).
  - intros Hc. destruct (ev_flag e LiveTargetBoundSeen); [done|].
    by destruct (binding_command (ce_command envelope)).
Qed.

(** A command that must bind a target ends stopped. *)
Lemma binding_command_stops c m e :
  success_state_valid c m e = true → binding_command c ≠ None →
  live_kind (state_kind (m_state m)).
Proof.
  unfold success_state_valid, binding_command, live_kind. intros Hv Hb. left.
  destruct c as [|[]| | | | | | | | | | | | |]; try done.
  - by apply bool_decide_eq_true in Hv.
  - destruct (att_mode t); try done; by apply bool_decide_eq_true in Hv.
Qed.

(** A command of [s] was begun as [m1] and its response is read from [s0] on: the
    observations before it have only verified a state. *)
Record dispatched (envelope : CommandEnvelope) (s : ClientSession) (cp : RemoteCommandCheckpoint)
    (m1 : SessionMachine) (s0 : ClientSession) : Prop := {
  di_settled : settled s;
  di_begun : begun envelope (cs_reducer s) cp m1;
  di_flight : in_flight (ce_command envelope) cp m1 (cs_reducer s0);
  di_binding : ∀ b, cs_live_target_binding s0 = Some b → cs_live_target_binding s = Some b
}.

(** What no verdict changes. *)
Definition identity (m : SessionMachine) : Z * Z * option Z :=
  (m_reducer_instance m, m_session_id m, m_last_command_id m).

(** What the session shows after the command. *)
Definition verdict_ok (c : DebugCommand) (s s' : ClientSession) (e : ResponseEvidence)
    (outcome : CommandOutcome) : Prop :=
  match outcome with
  | CommandOutcome.Rejected _ _ =>
      visible (cs_reducer s') = visible (cs_reducer s)
      ∨ state_kind (m_state (cs_reducer s')) = SSK.Failed
  | CommandOutcome.Succeeded =>
      success_state_valid c (cs_reducer s') e = true
      ∧ (is_terminate_or_close c = false → ¬ winding_down (cs_reducer s'))
      ∧ (is_sandboxed_open c = true → ev_flag e AttestationSeen = true)
      ∧ (binding_command c ≠ None → is_Some (cs_live_target_binding s'))
  end.

Section settle.
Context (envelope : CommandEnvelope) (s : ClientSession) (cp : RemoteCommandCheckpoint)
  (m1 : SessionMachine) (s0 : ClientSession) (r : Reading).
Context (Hd : dispatched envelope s cp m1 s0) (Hr : reading_ok envelope cp m1 s0 r).

(** A binding the session holds now is of the target of the reducer. *)
Lemma read_binding b :
  cs_live_target_binding (pg_session (rd_progress r)) = Some b →
  ∃ t, m_target (pg_reducer (rd_progress r)) = Some t ∧ bound_to t b.
Proof.
  intros Hb. pose proof (begun_target _ _ _ _ (di_begun _ _ _ _ _ Hd)) as Ht.
  assert (m_target (pg_reducer (rd_progress r)) = m_target m1) as ->.
  { pose proof (if_frame _ _ _ _ (ro_flight _ _ _ _ _ Hr)) as Hf. unfold frame in Hf. congruence. }
  destruct (ro_bound _ _ _ _ _ Hr) as [He|(request & b' & Hc & Hbt & He)];
    unfold bound in He; rewrite Hb in He; simplify_eq.
  - symmetry in H1. apply (di_binding _ _ _ _ _ Hd) in H1.
    destruct (se_binding _ (di_settled _ _ _ _ _ Hd) _ H1) as [Hl (t & Htt & Hbt)].
    exists t. split; [|done].
    assert (state_kind (m_state (cs_reducer s)) ≠ SSK.Idle) as Hni.
    { rewrite (eqb_kind _ _ (se_state _ (di_settled _ _ _ _ _ Hd))). by destruct Hl as [-> |[-> | ->]]. }
    destruct (ce_command envelope); congruence || by destruct Ht.
  - exists request. rewrite Hc in Ht. by destruct Ht.
Qed.

(** The end of both verdicts that keep what the command did. *)
Lemma commit_spec (h : bool → bool) :
  (state_kind (m_state (pg_reducer (rd_progress r))) = SSK.Closed →
   requires_cleanup_receipt (pg_reducer (rd_progress r)) = true →
   h (cs_sandbox_cleanup_verified (pg_session (rd_progress r))) = true) →
  wp (do! on_cs_reducer (commit_remote_command cp (ce_command_id envelope)) in
      do! verify_state in
      do! supd (λ s, cs_set_cleanup_verified (h (cs_sandbox_cleanup_verified s)) s) in
      supd invalidate_binding_for_state)
    (λ _ s', settled s' ∧ identity (cs_reducer s') = identity (pg_reducer (rd_progress r))
             ∧ visible (cs_reducer s') = visible (pg_reducer (rd_progress r))
             ∧ (live_kind (state_kind (m_state (cs_reducer s'))) →
                cs_live_target_binding s' = cs_live_target_binding (pg_session (rd_progress r))))
    (λ _ s', alive None (cs_reducer s')) (pg_session (rd_progress r)).
Proof.
  intros Hh. pose proof (if_alive _ _ _ _ (ro_flight _ _ _ _ _ Hr)) as Ha.
  unfold on_cs_reducer, reduce, verify_state. wp_step. apply wp_zoom. wp_step.
  eapply wp_mono; [by apply commit_alive|..|done]. intros st m' [Hm' ->]. do 5 wp_step.
  set (m2 := set_pending_remote_command None (pg_reducer (rd_progress r))).
  set (b := h (cs_sandbox_cleanup_verified (pg_session (rd_progress r)))).
  split; [apply (settled_commit m2 (pg_session (rd_progress r)) b); try done;
          intros bd Hbd; by apply read_binding|].
  rewrite !invalidate_reducer. split; [done|]. split; [done|]. intros Hl. by rewrite invalidate_live.
Qed.

(** A rolled back command: the reducer is as before, and so is the binding. *)
Lemma rolled_back :
  alive None (restored cp (pg_reducer (rd_progress r))) →
  has_effect (pg_evidence (rd_progress r)) = false →
  SessionState_eqb (cp_state cp) (cs_verified_state (pg_session (rd_progress r))) = true →
  settled (cs_set_reducer (restored cp (pg_reducer (rd_progress r))) (pg_session (rd_progress r))).
Proof.
  intros Ha He Hq. pose proof (if_alive _ _ _ _ (ro_flight _ _ _ _ _ Hr)) as Hf.
  pose proof (mb_open _ _ (alive_minted _ _ Hf)) as Hop. apply eqb_kind in Hq as Hk.
  pose proof (beg_visible _ _ _ _ (di_begun _ _ _ _ _ Hd)) as Hv.
  pose proof (f_equal v_state Hv) as Hv1. pose proof (f_equal v_target Hv) as Hv2. cbn in Hv1, Hv2.
  split; try done; cbn; [|by rewrite <-Hk].
  intros b Hb. destruct (ro_bound _ _ _ _ _ Hr) as [Hn|(? & ? & _ & _ & Hn)]; unfold bound in Hn.
  - injection Hn as Hn _. rewrite Hb in Hn. symmetry in Hn. apply (di_binding _ _ _ _ _ Hd) in Hn.
    destruct (se_binding _ (di_settled _ _ _ _ _ Hd) _ Hn) as [Hl Ht]. rewrite Hv2. split; [|done].
    rewrite <-Hk, Hv1. by rewrite (eqb_kind _ _ (se_state _ (di_settled _ _ _ _ _ Hd))).
  - injection Hn as _ Hn. unfold has_effect in He. rewrite Hn, !orb_true_r in He. done.
Qed.

Lemma settle_rejected_spec code message :
  wp (settle_rejected envelope cp (pg_evidence (rd_progress r)) code message)
    (λ _ s', settled s' ∧ identity (cs_reducer s') = identity (pg_reducer (rd_progress r))
             ∧ verdict_ok (ce_command envelope) s s' (pg_evidence (rd_progress r))
                            (CommandOutcome.Rejected code message))
    (λ _ s', alive None (cs_reducer s')) (pg_session (rd_progress r)).
Proof.
  pose proof (if_alive _ _ _ _ (ro_flight _ _ _ _ _ Hr)) as Ha.
  pose proof (alive_none _ _ Ha) as Ha'.
  unfold settle_rejected. wp_step.
  apply wp_read; [|done|apply no_panic_classify]. intros d Hcl. apply classify_ok in Hcl.
  change (cs_reducer (pg_session (rd_progress r))) with (pg_reducer (rd_progress r)) in Hcl.
  destruct d.
  1: { wp_step. unfold on_cs_reducer, reduce. apply wp_zoom. wp_step.
       eapply wp_mono; [by apply reject_alive|..|done]. intros st m' [Hm' ->].
       wp_step; [|done]. split; [by apply rolled_back|]. split; [done|left].
       apply (beg_visible _ _ _ _ (di_begun _ _ _ _ _ Hd)). }
  all: (eapply wp_mono; [apply (commit_spec (λ _, false)); by rewrite Hcl|..|done]);
    intros _ s' (? & ? & Hv & _); split; [done|]; split; [done|right]; apply (f_equal v_state) in Hv; cbn in Hv; by rewrite Hv.
Qed.

(** A session that ended closed, with a sandbox, has the cleanup receipt. *)
Lemma success_cleanup :
  success_state_valid (ce_command envelope) (pg_reducer (rd_progress r))
    (pg_evidence (rd_progress r)) = true →
  state_kind (m_state (pg_reducer (rd_progress r))) = SSK.Closed →
  requires_cleanup_receipt (pg_reducer (rd_progress r)) = true →
  negb (bool_decide (ev_cleanup_receipt (pg_evidence (rd_progress r)) = None)) = true.
Proof.
  intros Hv Hk Hq. destruct (is_terminate_or_close (ce_command envelope)) eqn:Hc.
  - unfold success_state_valid in Hv. rewrite Hk, Hq in Hv.
    destruct (ce_command envelope); try discriminate Hc; by apply andb_true_iff in Hv as [_ Hv].
  - exfalso. apply (if_open _ _ _ _ (ro_flight _ _ _ _ _ Hr) Hc). by right.
Qed.

Lemma settle_succeeded_spec required :
  wp (settle_succeeded envelope cp required (pg_evidence (rd_progress r)))
    (λ _ s', settled s' ∧ identity (cs_reducer s') = identity (pg_reducer (rd_progress r))
             ∧ verdict_ok (ce_command envelope) s s' (pg_evidence (rd_progress r))
                            CommandOutcome.Succeeded)
    (λ _ s', alive None (cs_reducer s')) (pg_session (rd_progress r)).
Proof.
  pose proof (alive_none _ _ (if_alive _ _ _ _ (ro_flight _ _ _ _ _ Hr))) as Ha.
  unfold settle_succeeded.
  wp_step. apply wp_lift_check; [no_panic|intros _|done].
  wp_step. apply wp_lift_check; [no_panic|intros _|done].
  wp_step. apply wp_lift_check; [no_panic|intros _|done].
  wp_step. apply wp_check; [unfold validate_success_evidence; no_panic|intros Hv|done].
  wp_step. wp_step. apply validate_success_ok in Hv as (Hst & Hat & Hbn).
  change (cs_reducer (pg_session (rd_progress r))) with (pg_reducer (rd_progress r)) in *.
  eapply wp_mono; [apply (commit_spec (λ b, b || _))|..|done].
  { intros Hk Hq. rewrite Hk, Hq. cbn. apply orb_true_iff. right. by apply success_cleanup. }
  intros _ s' (Hs' & Hid & Hvis & Hlive). split; [done|]. split; [done|]. split; [by rewrite (success_visible _ _ _ _ Hvis)|].
  split.
  { unfold winding_down. apply (f_equal v_state) in Hvis. cbn in Hvis. rewrite Hvis.
    apply (if_open _ _ _ _ (ro_flight _ _ _ _ _ Hr)). }
  split; [done|]. intros Hc. rewrite Hlive.
  - destruct (ro_bound _ _ _ _ _ Hr) as [Hn|(? & b & _ & _ & Hn)]; unfold bound in Hn;
      injection Hn as Hn1 Hn2; [|by rewrite Hn1]. by rewrite Hbn in Hn2.
  - apply (f_equal v_state) in Hvis. cbn in Hvis. rewrite Hvis. by eapply binding_command_stops.
Qed.
End settle.
End worlds.
