(* ===== verification/HostExchangeTheory.v ===== *)
(** A whole response of the debugger host: the observations before it, the batch and
    the receipt the client makes of it. *)

From S2P Require Import Prelude Identity Sandbox SandboxPolicyTheory SandboxLifecycle Protocol.
From S2P Require Import ProtocolTheory Authorization SessionMachine SessionInvariant.
From S2P Require Import SessionCommands SessionWorlds SessionTheorems SessionEvidence.
From S2P Require Import LivePatchHistory HostWire HostWireTheory HostCodec HostCodecTheory.
From S2P Require Import HostResponse HostEvidence HostEvidenceTheory HostReading HostSettling.
Open Scope Z_scope.

(** ** What a receipt says *)

(** The evidence a command must have produced, and the states it may end in. *)
Definition required_evidence (c : DebugCommand) : option EvidenceFlag :=
  match c with
  | DC.ReadMemory _ _ _ => Some MemoryReadSeen
  | DC.WriteMemory _ _ _ _ => Some MemoryWrittenSeen
  | DC.ReadRegisters _ _ => Some RegistersReadSeen
  | DC.WriteRegisters _ _ _ => Some RegistersWrittenSeen
  | DC.SetBreakpoint _ _ _ | DC.RemoveBreakpoint _ _ => Some BreakpointChangedSeen
  | _ => None
  end.

Definition ends_in (c : DebugCommand) (k : SessionStateKind) : Prop :=
  match c with
  | DC.Open (DTR.Offline _) => k = SSK.Offline
  | DC.Open (DTR.Dump _) => k = SSK.Dump
  | DC.Open (DTR.Attach target) =>
      k = (if bool_decide (att_mode target = ObserveReadOnly) then SSK.Observing else SSK.Stopped)
  | DC.Open (DTR.Launch _) | DC.WriteMemory _ _ _ _ | DC.WriteRegisters _ _ _
  | DC.SetBreakpoint _ _ _ | DC.RemoveBreakpoint _ _ => k = SSK.Stopped
  | DC.Continue _ | DC.Step _ _ _ => k = SSK.Running ∨ k = SSK.Stopped ∨ k = SSK.Exited
  | DC.Pause _ => k = SSK.Stopped ∨ k = SSK.Exited
  | DC.ReadMemory _ _ _ | DC.ReadRegisters _ _ => k ≠ SSK.Closing ∧ k ≠ SSK.Closed
  | DC.Detach _ => k = SSK.Detached
  | DC.Terminate _ | DC.Close _ => k = SSK.Closed
  | DC.CaptureSnapshot _ | DC.ProbeCapabilities => False
  end.

(** The receipt of [envelope], submitted in the session [s] and settled in [s']. *)
Record receipt_ok (envelope : CommandEnvelope) (s s' : ClientSession) (receipt : CommandReceipt)
    : Prop := {
  rk_id : cre_command_id receipt = ce_command_id envelope;
  rk_identity : identity (cs_reducer s')
                = (m_reducer_instance (cs_reducer s), m_session_id (cs_reducer s),
                   Some (ce_command_id envelope));
  rk_attributed : Forall (λ event, ee_caused_by event = Some (ce_command_id envelope)
                                   ∧ ee_session_id event = Some (m_session_id (cs_reducer s)))
                    (cre_events receipt);
  rk_result : ∃ front last, cre_events receipt = front ++ [last]
                ∧ Forall (λ event, is_result event = false) front
                ∧ ee_event last = DE.CommandResult (ce_command_id envelope) (cre_outcome receipt);
  rk_exact : Forall (λ event, exact_operation (ce_command envelope) (ee_event event) = true)
               (cre_events receipt);
  rk_once : ∀ f, f ∈ operation_flags → (length (evidence_of f (cre_events receipt)) ≤ 1)%nat;
  rk_rejected : ∀ code message, cre_outcome receipt = CommandOutcome.Rejected code message →
    visible (cs_reducer s') = visible (cs_reducer s)
    ∨ state_kind (m_state (cs_reducer s')) = SSK.Failed;
  rk_ends : cre_outcome receipt = CommandOutcome.Succeeded →
    ends_in (ce_command envelope) (state_kind (m_state (cs_reducer s')));
  rk_evidence : cre_outcome receipt = CommandOutcome.Succeeded →
    ∀ f, required_evidence (ce_command envelope) = Some f →
      ∃ event, evidence_of f (cre_events receipt) = [event];
  rk_bound : cre_outcome receipt = CommandOutcome.Succeeded →
    binding_command (ce_command envelope) ≠ None → is_Some (cs_live_target_binding s')
}.

Lemma success_ends c m e :
  success_state_valid c m e = true → (is_terminate_or_close c = false → ¬ winding_down m) →
  ends_in c (state_kind (m_state m))
  ∧ ∀ f, required_evidence c = Some f → ev_flag e f = true ∧ f ∈ operation_flags.
Proof.
  unfold success_state_valid, winding_down. intros Hv Ho.
  assert (∀ f, required_evidence c = Some f → f ∈ operation_flags) as Hin.
  { intros f Hf. unfold operation_flags. destruct c; simplify_eq/=; set_solver. }
  destruct c as [|[]| | | | | | | | | | | | |]; cbn [ends_in required_evidence is_terminate_or_close] in *;
    try discriminate Hv; try specialize (Ho eq_refl);
    try match type of Hv with (if ?b then _ else _) = _ => destruct b end;
    rewrite ?andb_true_iff, ?orb_true_iff, ?bool_decide_eq_true in Hv; destruct_and?;
    (split; [tauto|]); intros f Hf; specialize (Hin f Hf); by simplify_eq.
Qed.

Lemma batch_frames b l :
  batch_validate b l = Ok tt → zlen (rb_frames b) ≤ rl_max_frames l.
Proof.
  unfold batch_validate. intros Hv. unbind Hv u0 Hu0. unbind Hv u1 Hu1. unbind Hv u2 Hu2.
  apply fail_if_ok in Hu1, Hu2. lia.
Qed.

Section worlds.
Context `{Sha256Spec} `{Json EventControl}.

(** ** The correlated batch *)

Lemma start_reading_ok envelope s cp m1 x :
  dispatched envelope s cp m1 (xc_session x) →
  reading_ok envelope cp m1 (xc_session x) (start_reading x).
Proof.
  intros Hd. split; cbn; try done.
  - apply Hd.
  - by left.
Qed.

Lemma receipt_settled envelope s cp m1 s0 r s' outcome :
  dispatched envelope s cp m1 s0 → reading_ok envelope cp m1 s0 r →
  rd_outcome r = Some outcome →
  identity (cs_reducer s') = identity (pg_reducer (rd_progress r)) →
  verdict_ok (ce_command envelope) s s' (pg_evidence (rd_progress r)) outcome →
  receipt_ok envelope s s' (mkCommandReceipt (ce_command_id envelope) outcome (rd_events r)).
Proof.
  intros Hd Hr Ho Hid Hv. pose proof (ro_result _ _ _ _ _ Hr) as Hres. rewrite Ho in Hres.
  split; cbn [cre_command_id cre_outcome cre_events]; try done; try (intros Hs; rewrite Hs in *; destruct Hv as (Hv & Hw & Ha & Hb)).
  - rewrite Hid. pose proof (if_frame _ _ _ _ (ro_flight _ _ _ _ _ Hr)) as Hf.
    destruct (beg_accepted _ _ _ _ (di_begun _ _ _ _ _ Hd)) as [[_ [Hi Hn _ _ _ _ _] _] Hlast _ _ _ _ _].
    unfold frame, identity in *. cbn in Hi, Hn, Hlast. congruence.
  - refine (List.Forall_impl _ _ (ro_attributed _ _ _ _ _ Hr)). intros event [? He]. split; [done|].
    rewrite He. f_equal. apply (ext_session _ _ (ok_extends _ _ (acc_ok _ _ _
      (beg_accepted _ _ _ _ (di_begun _ _ _ _ _ Hd))))).
  - apply (ro_exact _ _ _ _ _ Hr).
  - intros f Hf. rewrite (ro_operations _ _ _ _ _ Hr f Hf). destruct (ev_flag _ _); cbn; lia.
  - intros ? ? ->. done.
  - by eapply success_ends; eauto.
  - intros f Hf. destruct (success_ends _ _ _ Hv) as [_ He]; [by eauto|].
    destruct (He f Hf) as [Hf1 Hf2]. pose proof (ro_operations _ _ _ _ _ Hr f Hf2) as Hl.
    rewrite Hf1 in Hl. destruct (evidence_of f (rd_events r)) as [|event [|]]; try done. by exists event.
  - exact Hb.
Qed.

Lemma inner_spec envelope s cp m1 required responses x :
  dispatched envelope s cp m1 (xc_session x) →
  wp (accept_response_batch_inner envelope cp required responses)
    (λ receipt x', settled (xc_session x') ∧ receipt_ok envelope s (xc_session x') receipt
                   ∧ xc_pending x' = xc_pending x)
    (λ _ x', alive None (xc_reducer x') ∧ xc_pending x' = xc_pending x) x.
Proof.
  intros Hd. pose proof (alive_none _ _ (if_alive _ _ _ _ (di_flight _ _ _ _ _ Hd))) as Ha.
  unfold accept_response_batch_inner. wp_step.
  apply wp_lift_check; [pose proof no_panic_batch_validate; no_panic|intros Hv|done].
  assert (zlen (rb_frames responses) ≤ 256) as Hl.
  { apply map_err_ok in Hv. by apply batch_frames in Hv. }
  wp_step. wp_step; [|done]. wp_step. apply wp_zoom. wp_step.
  eapply wp_mono; [apply (read_frames_spec envelope cp m1 (xc_session x)); [by eapply start_reading_ok|]|..].
  { change (zlen (rd_events (start_reading x))) with 0. unfold usize_max, u64_max. lia. }
  2: { intros e r Hr. split; [|done]. by apply alive_none in Hr. }
  intros [] r Hr. do 2 wp_step. wp_step; [|by split; [eapply alive_none, if_alive, Hr|]|unfold ok_or in *; by case_match].
  wp_step. apply wp_zoom. cbn [xc_session finish_reading].
  assert (wp (settle envelope cp required (pg_evidence (rd_progress r)) a)
    (λ _ s', settled s' ∧ identity (cs_reducer s') = identity (pg_reducer (rd_progress r))
             ∧ verdict_ok (ce_command envelope) s s' (pg_evidence (rd_progress r)) a)
    (λ _ s', alive None (cs_reducer s')) (pg_session (rd_progress r))) as Hs.
  { destruct a; [by eapply settle_succeeded_spec|by eapply settle_rejected_spec]. }
  eapply wp_mono; [exact Hs|..|done]. intros [] s' (Hs' & Hid' & Hv'). wp_step. split; [done|].
  split; [by eapply receipt_settled|done].
Qed.

(** ** Observations *)

Lemma forall2_last {A B} (P : A → B → Prop) l k d d' :
  Forall2 P l k → k ≠ [] → P (List.last l d) (List.last k d').
Proof.
  intros Hf. revert d d'. induction Hf as [|x y l k Hxy Hf IH]; intros d d' Hk; [done|].
  rewrite !last_cons_default. destruct k as [|z k]; [by inversion Hf|]. by apply IH.
Qed.

Lemma forall_last {A} (P : A → Prop) l d : P d → Forall P l → P (List.last l d).
Proof.
  intros Hd Hl. revert d Hd. induction Hl as [|x l Hx Hl IH]; intros d Hd; [done|].
  rewrite last_cons_default. by apply IH.
Qed.

Lemma observations_alive cp l m :
  alive cp m → Forall observable l →
  wp (apply_unsolicited_observations l)
    (λ _ m', alive cp m' ∧ frame m' = frame m ∧ (m' = m ∨ observable (m_state m')))
    (λ _ m', m' = m) m.
Proof.
  intros Hm Hl. pose proof (alive_exec cp (Unsolicited l) m Hm (λ _ _, Hl)) as Hw.
  pose proof (apply_unsolicited_spec l m (alive_inv _ _ Hm) Hl) as Hs.
  pose proof (unsolicited_frame l m) as Hf.
  unfold wp, session_exec, sbind, sret in *.
  destruct (apply_unsolicited_observations l m) as [[u|e|p] m'] eqn:Hrun; [|done|done].
  split; [done|]. split; [done|]. destruct Hs as (_ & _ & states & _ & Hq & Hlast).
  destruct l as [|o l]; [left; by injection Hrun|right].
  pose proof (forall2_last _ _ _ (m_state m) o Hq ltac:(done)) as He. cbn beta in He.
  assert (observable (List.last (o :: l) o)) as Ho.
  { inversion Hl. by apply forall_last. }
  rewrite <-Hlast in He. by rewrite (eqb_observable _ _ He Ho).
Qed.

(** The frames of a batch of observations. *)
Lemma receive_observations_ok sid frames ib :
  wp (receive_observations sid frames)
    (λ events _, Forall (λ event, require_observation sid event = Ok tt) events
                 ∧ length events = length frames) (λ _ _, True) ib.
Proof.
  revert ib. induction frames as [|frame frames IH]; intros ib; cbn [receive_observations];
    [by apply wp_ret|].
  wp_step. eapply wp_mono; [by apply receive_event_total|..|done]. intros event ib1 _.
  wp_step. apply wp_lift_check; [unfold require_observation; no_panic|intros Hq|done].
  wp_step. eapply wp_mono; [apply IH|..|done]. intros events ib2 [He Hl]. wp_step.
  split; [by constructor|]. cbn. by rewrite Hl.
Qed.

Lemma observed_states_ok sid events :
  Forall (λ event, require_observation sid event = Ok tt) events →
  ∃ states, observed_states events = Ok states ∧ Forall observable states
            ∧ (λ event, ee_event event) <$> events = DE.StateChanged <$> states.
Proof.
  induction 1 as [|event events Hq _ (states & Hs & Ho & He)]; [by exists []|].
  unfold require_observation in Hq. unbind Hq u Hu. unbind Hq v Hv. unbind Hq next Hn.
  assert (observable next ∧ ee_event event = DE.StateChanged next) as [Hob Hev].
  { repeat case_match; by simplify_eq. }
  exists (next :: states). cbn. rewrite Hev, Hs. split; [done|]. split; [by constructor|].
  cbn in *. by rewrite He.
Qed.

(** A batch of observations is applied as a whole or not at all. *)
Lemma unsolicited_spec cp responses x :
  alive cp (xc_reducer x) →
  wp (accept_unsolicited_batch responses)
    (λ events x', ∃ m', alive cp m' ∧ frame m' = frame (xc_reducer x)
       ∧ (m' = xc_reducer x ∨ observable (m_state m'))
       ∧ xc_session x' = invalidate_binding_for_state
                           (cs_set_verified (m_state m') (cs_set_reducer m' (xc_session x)))
       ∧ xc_pending x' = xc_pending x
       ∧ Forall (λ event, require_observation (m_session_id (xc_reducer x)) event = Ok tt) events
       ∧ length events = length (rb_frames responses))
    (λ _ x', x' = x) x.
Proof.
  intros Ha. unfold accept_unsolicited_batch. wp_step.
  apply wp_lift_check; [pose proof no_panic_batch_validate; no_panic|intros _|done].
  wp_step. wp_step; [|done]. do 2 wp_step. 
  pose proof (receive_observations_ok (m_session_id (xc_reducer x)) (rb_frames responses) (xc_inbound x)) as Hr.
  unfold wp at 1 in Hr. destruct (receive_observations _ _ _) as [[events|e|p] ib]; [| |done].
  2: { apply wp_bind, wp_lift; [done|by intros|done]. }
  apply wp_bind, wp_lift; [intros ? [= <-]|done..]. cbn [fst snd].
  destruct Hr as [Hr Hlen]. destruct (observed_states_ok _ _ Hr) as (states & -> & Ho & _).
  apply wp_bind, wp_lift; [intros ? [= <-]|done..]. wp_step. apply wp_zoom. wp_step.
  eapply wp_mono; [by apply (observations_alive cp)|..].
  - intros [] m' (Hm' & Hf & Hs). unfold on_session. do 7 wp_step. exists m'. by split_and!.
  - intros e m' ->. by destruct x as [? [] ?].
Qed.

Lemma settled_observed s m' :
  settled s → alive None m' → frame m' = frame (cs_reducer s) →
  m' = cs_reducer s ∨ observable (m_state m') →
  settled (invalidate_binding_for_state (cs_set_verified (m_state m') (cs_set_reducer m' s))).
Proof.
  intros [Ha Hp Hq Hb Hc] Hm Hf Hs. unfold frame in Hf.
  apply (settled_commit m' s (cs_sandbox_cleanup_verified s)); [done|congruence|..].
  - intros b Hbd. destruct (Hb b Hbd) as [_ (t & Ht & ?)]. exists t. split; [congruence|done].
  - intros Hk Hr. destruct Hs as [->|Hs]; [|by destruct (m_state m')].
    apply Hc; [|done]. by rewrite <-(eqb_kind _ _ Hq).
Qed.

Lemma dispatched_observed envelope s cp m1 s0 m' :
  dispatched envelope s cp m1 s0 → alive (Some cp) m' → frame m' = frame (cs_reducer s0) →
  m' = cs_reducer s0 ∨ observable (m_state m') →
  dispatched envelope s cp m1
    (invalidate_binding_for_state (cs_set_verified (m_state m') (cs_set_reducer m' s0))).
Proof.
  intros [Hs Hb [Ha Hf Ho] Hbd] Hm Hf' Hst. split; [done|done|..].
  - rewrite invalidate_reducer. split; cbn; [done|congruence|]. intros Hc. specialize (Ho Hc).
    destruct Hst as [->|Hst]; [done|]. unfold winding_down. by destruct (m_state m'); try done; intros [|].
  - intros b. destruct (invalidate_spec (cs_set_verified (m_state m') (cs_set_reducer m' s0)))
      as [[-> _]| ->]; [|done]. apply Hbd.
Qed.

(** ** The dispatched response *)

Lemma receive_all_total frames : maintains (λ _, True) (λ _, True) (receive_all frames).
Proof.
  pose proof receive_event_total. induction frames; cbn [receive_all]; maintains.
Qed.

Lemma no_panic_prevalidate responses ib : no_panic (prevalidate_inbound_correlations responses ib).
Proof.
  pose proof no_panic_batch_validate. unfold prevalidate_inbound_correlations.
  apply no_panic_bind; [no_panic|intros _ _]. apply no_panic_bind; [|done].
  pose proof (receive_all_total (rb_frames responses) ib I) as Hw. unfold wp in Hw.
  by destruct (receive_all _ _) as [[] ?].
Qed.

Lemma require_correlated_no_panic id l : no_panic (require_correlated id l).
Proof. induction l as [|o l IH]; cbn; [done|]. case_bool_decide; [done|]. by destruct o. Qed.

Lemma dispatched_spec envelope s cp m1 required responses x :
  dispatched envelope s cp m1 (xc_session x) →
  zlen (xc_pending x) ≤ MAX_PENDING_UNSOLICITED_EVENTS →
  wp (accept_dispatched_response_batch envelope cp required responses)
    (λ receipt x', settled (xc_session x') ∧ receipt_ok envelope s (xc_session x') receipt
                   ∧ zlen (xc_pending x') ≤ MAX_PENDING_UNSOLICITED_EVENTS)
    (λ _ x', alive None (xc_reducer x')
             ∧ zlen (xc_pending x') ≤ MAX_PENDING_UNSOLICITED_EVENTS) x.
Proof.
  intros Hd Hq. pose proof (alive_none _ _ (if_alive _ _ _ _ (di_flight _ _ _ _ _ Hd))) as Ha.
  unfold accept_dispatched_response_batch. wp_step.
  apply wp_read; [|done|apply no_panic_prevalidate]. intros correlations Hc. cbn zeta.
  destruct (Nat.eqb_spec (unsolicited_prefix correlations) 0) as [_|_].
  - wp_step. apply wp_lift_check; [apply require_correlated_no_panic|intros _|done].
    eapply wp_mono; [by apply (inner_spec envelope s cp m1)|..].
    + by intros receipt x' (? & ? & ->).
    + by intros e x' [? ->].
  - wp_step. wp_step; [|done]. wp_step.
    apply wp_lift_check; [apply require_correlated_no_panic|intros _|done].
    wp_step. apply wp_read; [|done|by intros p; destruct (checked_add _ _ _)].
    intros after [-> _]%ok_or_ok%checked_add_some. wp_step. wp_step; [|done].
    wp_step. apply wp_lift; [|done|apply no_panic_map_err, no_panic_try_from_frames].
    intros unsolicited [Hu _]%map_err_ok%try_from_frames_ok.
    wp_step. apply wp_lift; [|done|apply no_panic_map_err, no_panic_try_from_frames].
    intros correlated _. wp_step.
    eapply wp_mono; [by apply (unsolicited_spec (Some cp)), (di_flight _ _ _ _ _ Hd)|..].
    + intros events x1 (m' & Hm & Hf & Hs & Hx & Hp & _ & Hl). do 2 wp_step.
      assert (zlen (xc_pending x1 ++ events) ≤ MAX_PENDING_UNSOLICITED_EVENTS) as Hlen.
      { rewrite Hp, zlen_app. unfold zlen in *. rewrite Hl, Hu, length_take. lia. }
      eapply wp_mono; [apply (inner_spec envelope s cp m1)|..].
      * cbn. rewrite Hx. by apply dispatched_observed.
      * by intros receipt x' (? & ? & ->).
      * by intros e x' [? ->].
    + by intros e x' ->.
Qed.
End worlds.
