(* ===== verification/HostProvenance.v ===== *)
(** Where the events of a receipt come from: each is the decoding of one frame of the
    response, in the order of the frames. *)

From S2P Require Import Prelude Identity Sandbox Protocol Authorization SessionMachine.
From S2P Require Import LivePatchHistory HostWire HostCodec HostResponse HostEvidence HostReading.
From S2P Require Import HostSettling HostExchangeTheory HostEvidenceTheory.
Open Scope Z_scope.

Lemma sbind_ok {S E A B} (c : smonad S E A) (k : A → smonad S E B) s b s' :
  sbind c k s = (Ok b, s') ↔ ∃ a s1, c s = (Ok a, s1) ∧ k a s1 = (Ok b, s').
Proof.
  unfold sbind. split; [|by intros (a & s1 & -> & ?)].
  destruct (c s) as [[a|e|p] s1]; [|done..]. eauto.
Qed.

(** Split [H : sbind c k s = (Ok b, s')] at its first step. *)
Ltac unrun H x s Hx := apply sbind_ok in H as (x & s & Hx & H).

Lemma zoom_ok {S T E A} (get : S → T) (set : T → S → S) (c : smonad T E A) s a s' :
  zoom get set c s = (Ok a, s') → ∃ t, c (get s) = (Ok a, t) ∧ s' = set t s.
Proof. unfold zoom. destruct (c (get s)) as [r t]. intros [= -> <-]. eauto. Qed.

Section provenance.
Context `{Sha256} `{Json EventControl}.

Definition decodes (frame : HostFrame) (event : EventEnvelope) : Prop :=
  decode_event_frame frame = Ok event.

Lemma receive_event_from frame ib event ib' :
  receive_event frame ib = (Ok event, ib') → decodes frame event.
Proof.
  unfold receive_event, receive_frame. intros Hr. unrun Hr e s Hf. unrun Hr u1 s1 K1. unrun Hr u2 s2 K2.
  injection Hr as <- _. unrun Hf u3 s3 K3. unrun Hf u4 s4 K4. unrun Hf u5 s5 K5. unrun Hf u6 s6 K6.
  unfold slift in Hf. injection Hf as Hf _. by apply map_err_ok in Hf.
Qed.

Lemma accept_result_events envelope event r u r' :
  accept_result envelope event r = (Ok u, r') → rd_events r' = rd_events r.
Proof.
  intros Ha. assert (keeps rd_events (accept_result envelope event)) as Hk.
  { unfold accept_result. destruct event; keeps. }
  specialize (Hk r). by rewrite Ha in Hk.
Qed.

Lemma read_frame_from envelope required frame r u r' :
  read_frame envelope required frame r = (Ok u, r') →
  ∃ event, decodes frame event ∧ rd_events r' = rd_events r ++ [event].
Proof.
  unfold read_frame. intros Hr. unrun Hr u0 s0 K0. unfold sread in K0. injection K0 as _ <-.
  unrun Hr event s1 K1. apply zoom_ok in K1 as (ib & He%receive_event_from & ->).
  unrun Hr u2 s2 K2. unfold sread in K2. injection K2 as _ <-.
  unrun Hr u3 s3 K3. apply zoom_ok in K3 as (p & _ & ->).
  unrun Hr u4 s4 K4. apply accept_result_events in K4. unfold supd in Hr. injection Hr as _ <-.
  exists event. split; [done|]. cbn. by rewrite K4.
Qed.

Lemma read_frames_from envelope required frames r u r' :
  read_frames envelope required frames r = (Ok u, r') →
  ∃ events, Forall2 decodes frames events ∧ rd_events r' = rd_events r ++ events.
Proof.
  revert r. induction frames as [|frame frames IH]; intros r Hr; cbn [read_frames] in Hr.
  - unfold sret in Hr. injection Hr as _ <-. exists []. by rewrite app_nil_r.
  - unrun Hr u1 s1 K1. apply read_frame_from in K1 as (event & He & Hs).
    apply IH in Hr as (events & Hf & ->). exists (event :: events). split; [by constructor|].
    by rewrite Hs, <-app_assoc.
Qed.

Lemma inner_from envelope cp required responses x receipt x' :
  accept_response_batch_inner envelope cp required responses x = (Ok receipt, x') →
  Forall2 decodes (rb_frames responses) (cre_events receipt).
Proof.
  unfold accept_response_batch_inner. intros Hr. unrun Hr u0 s0 K0. unrun Hr u1 s1 K1.
  unrun Hr r s2 K2. apply zoom_ok in K2 as (r' & K2 & ->). unrun K2 u3 r3 K3.
  unfold sget in K2. injection K2 as <- <-. apply read_frames_from in K3 as (events & Hf & He).
  unrun Hr outcome s4 K4. unrun Hr u5 s5 K5. unfold sret in Hr. injection Hr as <- _. cbn.
  by rewrite He.
Qed.

Lemma receive_observations_from sid frames ib events ib' :
  receive_observations sid frames ib = (Ok events, ib') →
  Forall2 decodes frames events ∧ Forall (λ e, ee_caused_by e = None) events.
Proof.
  revert ib events ib'. induction frames as [|frame frames IH]; intros ib events ib' Hr;
    cbn [receive_observations] in Hr.
  - unfold sret in Hr. injection Hr as <- _. by split.
  - unrun Hr e s1 K1. apply receive_event_from in K1. unrun Hr u s2 K2. unrun Hr es s3 K3.
    apply IH in K3 as [Hf Hn]. unfold sret in Hr. injection Hr as <- _.
    unfold slift in K2. injection K2 as K2 _. unfold require_observation in K2. unbind K2 u1 K4.
    destruct (ee_caused_by e) eqn:Hc; [done|]. split; by constructor.
Qed.

Lemma unsolicited_from responses x events x' :
  accept_unsolicited_batch responses x = (Ok events, x') →
  Forall2 decodes (rb_frames responses) events ∧ Forall (λ e, ee_caused_by e = None) events
  ∧ xc_pending x' = xc_pending x.
Proof.
  unfold accept_unsolicited_batch. intros Hr. unrun Hr u0 s0 K0. unrun Hr u1 s1 K1.
  unrun Hr received s2 K2. unrun Hr es s3 K3. unrun Hr states s4 K4. unrun Hr u5 s5 K5.
  unrun Hr u6 s6 K6. unrun Hr u7 s7 K7. unrun Hr u8 s8 K8. unfold sret in Hr. injection Hr as <- <-.
  unfold slift in K0, K1, K3, K4. unfold sget in K2. unfold on_session, supd in K6, K7, K8.
  injection K0 as _ ->. injection K1 as _ ->. injection K2 as <- ->. injection K3 as K3 ->.
  injection K4 as _ ->. apply zoom_ok in K5 as (m & _ & ->). injection K6 as _ <-. injection K7 as _ <-.
  injection K8 as _ <-. cbn.
  destruct (receive_observations _ _ _) as [[es'|?|?] ib] eqn:Hro; [|done..]. injection K3 as <-.
  apply receive_observations_from in Hro as [? ?]. by split_and!.
Qed.

Lemma inner_pending envelope cp required responses x receipt x' :
  accept_response_batch_inner envelope cp required responses x = (Ok receipt, x') →
  xc_pending x' = xc_pending x.
Proof.
  assert (keeps xc_pending (accept_response_batch_inner envelope cp required responses)) as Hk.
  { unfold accept_response_batch_inner. keeps; by apply keeps_zoom. }
  intros Hr. specialize (Hk x). by rewrite Hr in Hk.
Qed.

(** The frames of the response are the observations, which no command caused and which
    are queued, and then the events of the receipt. *)
Lemma dispatched_from envelope cp required responses x receipt x' :
  accept_dispatched_response_batch envelope cp required responses x = (Ok receipt, x') →
  ∃ observed, Forall2 decodes (rb_frames responses) (observed ++ cre_events receipt)
    ∧ Forall (λ e, ee_caused_by e = None) observed
    ∧ xc_pending x' = xc_pending x ++ observed.
Proof.
  unfold accept_dispatched_response_batch. intros Hr. unrun Hr correlations s0 K0. cbn zeta in Hr.
  unfold sread in K0. injection K0 as _ <-.
  destruct (_ =? 0)%nat.
  - unrun Hr u1 s1 K1. unfold slift in K1. injection K1 as _ <-. exists [].
    split; [by apply inner_from in Hr|]. split; [constructor|].
    rewrite app_nil_r. by apply inner_pending in Hr.
  - unrun Hr u1 s1 K1. unrun Hr u2 s2 K2. unrun Hr u3 s3 K3. unrun Hr u4 s4 K4.
    unrun Hr unsolicited s5 K5. unrun Hr correlated s6 K6. unrun Hr observed s7 K7. unrun Hr u8 s8 K8.
    unfold slift in K1, K2, K4, K5, K6. unfold sread in K3. unfold supd in K8.
    injection K1 as _ ->. injection K2 as _ ->. injection K3 as _ ->. injection K4 as _ ->.
    injection K5 as K5 ->. injection K6 as K6 ->. injection K8 as _ <-.
    apply map_err_ok, try_from_frames_ok in K5 as [K5 _], K6 as [K6 _].
    apply unsolicited_from in K7 as (Hf & Hn & Hp).
    pose proof (inner_pending _ _ _ _ _ _ _ Hr) as Hq. apply inner_from in Hr.
    rewrite K5 in Hf. rewrite K6 in Hr. cbn in Hq. exists observed. split; [|split; [done|by rewrite Hq, Hp]].
    rewrite <-(take_drop (unsolicited_prefix correlations) (rb_frames responses)). by apply Forall2_app.
Qed.
End provenance.
