(* ===== verification/HostClient.v ===== *)
(** The debugger-host client, [resymbol-debugger/src/host_client.rs]: one connection
    over a frame exchange, at most one session on it, and every method of
    [DebugHostClient].

    The trait [HostFrameExchange] is a class over the state of the transport.  The
    fields that decoding uses are nested as [dc_inbound]; the marker field and the
    accessors are left out. *)

From S2P Require Import Prelude Identity Sandbox Protocol Authorization SessionMachine.
From S2P Require Import LivePatchHistory HostWire HostCodec HostResponse HostEvidence.
Open Scope Z_scope.

Definition MAX_HOST_POLL_WAIT_MILLIS : Z := 1000.

Inductive HostPollWaitError : Type := PollWaitTooLong (actual maximum : Z).

Definition HostPollWait_from_millis (milliseconds : Z) : result Z HostPollWaitError :=
  if MAX_HOST_POLL_WAIT_MILLIS <? milliseconds
  then Err (PollWaitTooLong milliseconds MAX_HOST_POLL_WAIT_MILLIS)
  else Ok milliseconds.

Module ControlShutdownReason.
Inductive shutdown_reason : Type :=
  | Graceful | ExplicitAbandon | ClientDropped | BuildClaimFailed | ProtocolFailure
  | TransportFailure.
#[global] Instance shutdown_reason_eq_dec : EqDecision shutdown_reason.
Proof. solve_decision. Defined.
End ControlShutdownReason.
Abbreviation ControlShutdownReason := ControlShutdownReason.shutdown_reason.
Module CSR := ControlShutdownReason.

(** ** The transport *)

Abbreviation transport_op T A := (smonad T HostTransportError A).

Class HostFrameExchange (T : Type) : Type := {
  exchange : HostFrame → HostResponseLimits → transport_op T HostResponseBatch;
  poll_inbound : Z → HostResponseLimits → transport_op T (option HostResponseBatch);
  release_session : Z → transport_op T unit;
  shutdown_control : ControlShutdownReason → transport_op T unit;
  abort_control : ControlShutdownReason → T → T
}.

(** The provided [poll_inbound] of a host that only answers requests. *)
Definition poll_inbound_default {T} (wait : Z) (limits : HostResponseLimits)
    : transport_op T (option HostResponseBatch) := sret None.

(** ** The client *)

Module ClientConnectionState.
Inductive connection_state : Type := Connected | SessionOpen | Disconnected | Failed.
#[global] Instance connection_state_eq_dec : EqDecision connection_state.
Proof. solve_decision. Defined.
End ClientConnectionState.
Abbreviation ClientConnectionState := ClientConnectionState.connection_state.
Module CCS := ClientConnectionState.

Record DebugHostClient (T : Type) : Type := mkClient {
  dc_transport : T;
  dc_connection_state : ClientConnectionState;
  dc_inbound : Inbound;
  dc_session : option ClientSession;
  dc_next_command_id : Z;
  dc_next_outbound_frame_sequence : Z;
  dc_pending_unsolicited_events : list EventEnvelope;
  dc_transport_shutdown : bool
}.
Arguments mkClient {T}.
Arguments dc_transport {T}.
Arguments dc_connection_state {T}.
Arguments dc_inbound {T}.
Arguments dc_session {T}.
Arguments dc_next_command_id {T}.
Arguments dc_next_outbound_frame_sequence {T}.
Arguments dc_pending_unsolicited_events {T}.
Arguments dc_transport_shutdown {T}.

Section setters.
Context {T : Type}.
Implicit Types c : DebugHostClient T.

Definition dc_set_transport (t : T) c : DebugHostClient T :=
  mkClient t (dc_connection_state c) (dc_inbound c) (dc_session c) (dc_next_command_id c)
    (dc_next_outbound_frame_sequence c) (dc_pending_unsolicited_events c)
    (dc_transport_shutdown c).
Definition dc_set_connection (s : ClientConnectionState) c : DebugHostClient T :=
  mkClient (dc_transport c) s (dc_inbound c) (dc_session c) (dc_next_command_id c)
    (dc_next_outbound_frame_sequence c) (dc_pending_unsolicited_events c)
    (dc_transport_shutdown c).
Definition dc_set_inbound (ib : Inbound) c : DebugHostClient T :=
  mkClient (dc_transport c) (dc_connection_state c) ib (dc_session c) (dc_next_command_id c)
    (dc_next_outbound_frame_sequence c) (dc_pending_unsolicited_events c)
    (dc_transport_shutdown c).
Definition dc_set_session (s : option ClientSession) c : DebugHostClient T :=
  mkClient (dc_transport c) (dc_connection_state c) (dc_inbound c) s (dc_next_command_id c)
    (dc_next_outbound_frame_sequence c) (dc_pending_unsolicited_events c)
    (dc_transport_shutdown c).
Definition dc_set_next_command (n : Z) c : DebugHostClient T :=
  mkClient (dc_transport c) (dc_connection_state c) (dc_inbound c) (dc_session c) n
    (dc_next_outbound_frame_sequence c) (dc_pending_unsolicited_events c)
    (dc_transport_shutdown c).
Definition dc_set_next_outbound (n : Z) c : DebugHostClient T :=
  mkClient (dc_transport c) (dc_connection_state c) (dc_inbound c) (dc_session c)
    (dc_next_command_id c) n (dc_pending_unsolicited_events c) (dc_transport_shutdown c).
Definition dc_set_pending (q : list EventEnvelope) c : DebugHostClient T :=
  mkClient (dc_transport c) (dc_connection_state c) (dc_inbound c) (dc_session c)
    (dc_next_command_id c) (dc_next_outbound_frame_sequence c) q (dc_transport_shutdown c).
Definition dc_set_shutdown (b : bool) c : DebugHostClient T :=
  mkClient (dc_transport c) (dc_connection_state c) (dc_inbound c) (dc_session c)
    (dc_next_command_id c) (dc_next_outbound_frame_sequence c)
    (dc_pending_unsolicited_events c) b.
End setters.

Definition bind_typed_protocol_version (wire : WireProtocolVersion)
    : client_result ProtocolVersion :=
  let typed := mkProtocolVersion (wv_major wire) (wv_minor wire) in
  do? map_err DHE.Protocol (version_validate typed) in
  Ok typed.

Definition CommandId_new : Z → result Z ProtocolValidationError := nonzero_id_new "command".

Section client.
Context {T : Type} `{HostFrameExchange T} `{Json CommandControl} `{Json EventControl}.

Abbreviation client_op A := (smonad (DebugHostClient T) DebugHostClientError A).

(** ** Connecting *)

(** The checks of the acknowledgement; each failure aborts the channel. *)
Definition accept_acknowledgement_batch (handshake : BuildClaimHandshake)
    (responses : HostResponseBatch) : client_result (WireProtocolVersion * ProtocolVersion) :=
  do? map_err DHE.ResponseBudget (batch_validate responses DEFAULT_HOST_RESPONSE_LIMITS) in
  match rb_frames responses with
  | [acknowledgement] =>
      do? fail_if (negb (bool_decide (hf_raw acknowledgement = [])))
            DHE.HandshakeCarriedRawPayload in
      let '(accepted, handshake') := handshake_accept (hf_header acknowledgement) handshake in
      do? map_err DHE.Handshake accepted in
      do? fail_if (negb (bool_decide (bh_state handshake' = HS.Established)))
            DHE.HandshakeIncomplete in
      let? negotiated := ok_or (bh_negotiated_version handshake') DHE.HandshakeIncomplete in
      let? typed := bind_typed_protocol_version negotiated in
      Ok (negotiated, typed)
  | frames => Err (DHE.UnexpectedHandshakeResponseCount (zlen frames))
  end.

(** The transport is owned by the call: it is in the client when one is returned, and
    was aborted when the handshake failed on it. *)
Definition connect (nonce controller_build expected_host_build : list Z)
    : smonad T DebugHostClientError (DebugHostClient T) :=
  let! handshake := slift (map_err DHE.Handshake
                             (initiator ControllerRole nonce controller_build
                                expected_host_build)) in
  let! sequence := slift (map_err DHE.Wire (FrameSequence_new 1)) in
  let '(begun, handshake') := handshake_begin sequence handshake in
  let! hello := slift (map_err DHE.Handshake begun) in
  let! request := slift (map_err DHE.Codec (HostFrame_new hello [])) in
  λ t,
    match exchange request DEFAULT_HOST_RESPONSE_LIMITS t with
    | (Ok responses, t') =>
        match accept_acknowledgement_batch handshake' responses with
        | Ok (negotiated, typed) =>
            (Ok (mkClient t' CCS.Connected (mkInbound negotiated typed 2 None) None 1 2 []
                   false), t')
        | Err e => (Err e, abort_control CSR.BuildClaimFailed t')
        | Panic p => (Panic p, t')
        end
    | (Err e, t') => (Err (DHE.Transport e), abort_control CSR.TransportFailure t')
    | (Panic p, t') => (Panic p, t')
    end.

(** ** Guards *)

Definition require_connected (c : DebugHostClient T) : client_result unit :=
  match dc_connection_state c with
  | CCS.Connected | CCS.SessionOpen => Ok tt
  | CCS.Disconnected => Err DHE.Disconnected
  | CCS.Failed => Err DHE.ConnectionFailed
  end.

Definition require_session_open (c : DebugHostClient T) : client_result unit :=
  do? require_connected c in
  match dc_connection_state c, dc_session c with
  | CCS.SessionOpen, Some _ => Ok tt
  | _, _ => Err DHE.SessionNotOwned
  end.

Definition owned_session : client_op ClientSession :=
  sread (λ c, ok_or (dc_session c) DHE.SessionNotOwned).

Definition abort_transport (reason : ControlShutdownReason) (c : DebugHostClient T)
    : DebugHostClient T :=
  if dc_transport_shutdown c then c
  else dc_set_shutdown true (dc_set_transport (abort_control reason (dc_transport c)) c).

Definition invalidate_live_target_binding (c : DebugHostClient T) : DebugHostClient T :=
  dc_set_session (cs_set_binding None <$> dc_session c) c.

(** [drop]. *)
Definition client_drop (c : DebugHostClient T) : T :=
  if dc_transport_shutdown c then dc_transport c
  else abort_control (match dc_session c with
                      | Some _ => CSR.ClientDropped
                      | None => CSR.Graceful
                      end) (dc_transport c).

(** A call on the transport with [?]. *)
Definition call_transport {A} (t : transport_op T A) : client_op A :=
  smap_err DHE.Transport (zoom dc_transport dc_set_transport t).

(** A call on the transport whose failure ends the connection. *)
Definition transport_or_fail {A} (before : DebugHostClient T → DebugHostClient T)
    (t : transport_op T A) : client_op A :=
  λ c, match zoom dc_transport dc_set_transport t c with
       | (Ok a, c') => (Ok a, c')
       | (Err e, c') =>
           let ended := if is_disconnected e then CCS.Disconnected else CCS.Failed in
           (Err (DHE.Transport e),
            abort_transport CSR.TransportFailure (dc_set_connection ended (before c')))
       | (Panic p, c') => (Panic p, c')
       end.

(** A call that fails the connection when it returns an error. *)
Definition protocol_or_fail {A} (before : DebugHostClient T → DebugHostClient T)
    (m : client_op A) : client_op A :=
  λ c, match m c with
       | (Err e, c') =>
           (Err e, abort_transport CSR.ProtocolFailure
                     (dc_set_connection CCS.Failed (before c')))
       | r => r
       end.

(** ** Capabilities *)

(** One round of the loop: the report and the outcome so far. *)
Definition read_capability_frame (command_id : Z) (frame : HostFrame)
    (seen : option CapabilityReport * option CommandOutcome)
    : inbound_op (option CapabilityReport * option CommandOutcome) :=
  let! event := receive_frame frame in
  do! observe_event event in
  do! slift (fail_if (negb (bool_decide (ee_caused_by event = Some command_id)))
               (DHE.UnexpectedCommandCorrelation command_id (ee_caused_by event))) in
  do! slift (fail_if (negb (bool_decide (ee_session_id event = None))
                      || negb (bool_decide (ee_state event = None)))
               DHE.UnexpectedGlobalSessionContext) in
  match ee_event event with
  | DE.Capabilities value =>
      match seen.1 with
      | Some _ => serr DHE.DuplicateCapabilityReport
      | None => sret (Some value, seen.2)
      end
  | DE.CommandResult result_id outcome =>
      do! slift (fail_if (negb (result_id =? command_id))
                   (DHE.UnexpectedCommandCorrelation command_id (Some result_id))) in
      match seen.2 with
      | Some _ => serr (DHE.DuplicateCommandResult command_id)
      | None => sret (seen.1, Some outcome)
      end
  | DE.Warning _ _ => sret seen
  | _ => serr DHE.UnexpectedGlobalEvent
  end.

Fixpoint read_capability_frames (command_id : Z) (frames : list HostFrame)
    (seen : option CapabilityReport * option CommandOutcome)
    : inbound_op (option CapabilityReport * option CommandOutcome) :=
  match frames with
  | [] => sret seen
  | frame :: rest =>
      let! seen' := read_capability_frame command_id frame seen in
      read_capability_frames command_id rest seen'
  end.

Definition accept_capability_batch (command_id : Z) (responses : HostResponseBatch)
    : inbound_op CapabilityReport :=
  do! slift (map_err DHE.ResponseBudget
               (batch_validate responses DEFAULT_HOST_RESPONSE_LIMITS)) in
  do! slift (fail_if (bool_decide (rb_frames responses = []))
               (DHE.MissingCommandResult command_id)) in
  do! slift (fail_if (MAX_RESPONSE_FRAMES <? zlen (rb_frames responses))
               (DHE.TooManyResponseFrames (zlen (rb_frames responses)) MAX_RESPONSE_FRAMES)) in
  let! seen := read_capability_frames command_id (rb_frames responses) (None, None) in
  let! outcome := slift (ok_or seen.2 (DHE.MissingCommandResult command_id)) in
  match outcome with
  | CommandOutcome.Rejected code message => serr (DHE.CapabilityProbeRejected code message)
  | CommandOutcome.Succeeded => slift (ok_or seen.1 DHE.MissingCapabilityReport)
  end.

(** The frame of a command under the next outbound sequence number. *)
Definition encode_request (envelope : CommandEnvelope) : client_op HostFrame :=
  do! slift (map_err DHE.Protocol (envelope_validate envelope)) in
  let! sequence := sread (λ c, map_err DHE.Wire
                                 (FrameSequence_new (dc_next_outbound_frame_sequence c))) in
  let! request := slift (map_err DHE.Codec (encode_command_frame sequence envelope)) in
  do! sread (λ c, require_negotiated_frame_version request (dc_inbound c)) in
  sret request.

Definition next_outbound : client_op Z :=
  sread (λ c, ok_or (checked_add u64_max (dc_next_outbound_frame_sequence c) 1)
                DHE.FrameSequenceOverflow).
Definition next_command : client_op Z :=
  sread (λ c, ok_or (checked_add u64_max (dc_next_command_id c) 1) DHE.CommandIdOverflow).

Definition probe_capabilities : client_op CapabilityReport :=
  do! sread require_connected in
  do! sread (λ c, match dc_session c with
                  | Some _ => Err DHE.CapabilityProbeRequiresNoSession
                  | None => Ok tt
                  end) in
  let! command_id := sread (λ c, map_err DHE.Protocol (CommandId_new (dc_next_command_id c))) in
  let! envelope := sget (λ c, mkCommandEnvelope (ib_typed_version (dc_inbound c)) command_id None
                                None DC.ProbeCapabilities) in
  let! request := encode_request envelope in
  let! outbound := next_outbound in
  do! supd (dc_set_next_outbound outbound) in
  let! command := next_command in
  do! supd (dc_set_next_command command) in
  let! responses := transport_or_fail id (exchange request DEFAULT_HOST_RESPONSE_LIMITS) in
  protocol_or_fail id
    (zoom dc_inbound dc_set_inbound (accept_capability_batch command_id responses)).

(** ** Sessions *)

(** [instance] is the address of the new reducer's identity. *)
Definition begin_session (instance session_id : Z) (provisioning_epoch helper_build : list Z)
    : client_op unit :=
  do! sread require_connected in
  do! sread (λ c, match dc_session c with
                  | Some _ => Err DHE.SessionAlreadyOwned
                  | None => Ok tt
                  end) in
  let! reducer := slift (map_err DHE.SessionMachine
                           (SessionMachine_new instance session_id provisioning_epoch
                              helper_build)) in
  do! supd (dc_set_session (Some (mkClientSession reducer (m_state reducer) false None))) in
  supd (dc_set_connection CCS.SessionOpen).

(** A call on the reducer of the owned session. *)
Definition on_owned_reducer {A} (m : smonad SessionMachine DebugHostClientError A) : client_op A :=
  λ c, match dc_session c with
       | Some s =>
           let '(r, reducer) := m (cs_reducer s) in
           (r, dc_set_session (Some (cs_set_reducer reducer s)) c)
       | None => (Err DHE.SessionNotOwned, c)
       end.

Definition client_register_host_risk_verifier (verifier : HostRiskVerifier) : client_op unit :=
  do! sread require_session_open in
  on_owned_reducer (reduce (register_host_risk_verifier verifier)).

Definition client_register_sandbox_ownership_verifier (verifier : SandboxOwnershipVerifier)
    : client_op unit :=
  do! sread require_session_open in
  on_owned_reducer (reduce (register_sandbox_ownership_verifier verifier)).

(** [session.take()], a call on the session and the inbound fields, and the session
    put back. *)
Definition with_session {A} (m : exchange_op A) : client_op A :=
  λ c, match dc_session c with
       | Some s =>
           let '(r, x) := m (mkExchange (dc_inbound c) s (dc_pending_unsolicited_events c)) in
           (r, dc_set_inbound (xc_inbound x)
                 (dc_set_session (Some (xc_session x)) (dc_set_pending (xc_pending x) c)))
       | None => (Err DHE.SessionNotOwned, c)
       end.

(** The same as the methods do it: an early return when there is no session, and a
    failed connection when the call fails. *)
Definition on_taken_session {A} (m : exchange_op A) : client_op A :=
  let! _session := owned_session in
  protocol_or_fail invalidate_live_target_binding (with_session m).

Definition accept_response_batch (envelope : CommandEnvelope)
    (checkpoint : RemoteCommandCheckpoint) (required_command_state : option SessionState)
    (responses : HostResponseBatch) : client_op CommandReceipt :=
  on_taken_session (accept_dispatched_response_batch envelope checkpoint required_command_state
                      responses).

(** The [map_err] of [submit]. *)
Definition submit_error (e : SessionMachineError) : DebugHostClientError :=
  match e with SE.Protocol e => DHE.Protocol e | e => DHE.SessionMachine e end.

Section submit.
Context `{Sha256}.

(** [begin_remote_command] on the owned reducer; the identifier counts as used when
    the reducer has seen it, also when it refused the command. *)
Definition begin_submitted (envelope : CommandEnvelope) (next_command_id : Z)
    : client_op RemoteCommandCheckpoint :=
  λ c, match dc_session c with
       | Some s =>
           let '(r, reducer) := begin_remote_command envelope (cs_reducer s) in
           let c' := dc_set_session (Some (cs_set_reducer reducer s)) c in
           (map_err submit_error r,
            if bool_decide (m_last_command_id reducer = Some (ce_command_id envelope))
            then dc_set_next_command next_command_id c' else c')
       | None => (Err DHE.SessionNotOwned, c)
       end.

Definition submit (command : DebugCommand) : client_op CommandReceipt :=
  do! sread require_session_open in
  do! slift (fail_if (is_probe command) DHE.GlobalCommandRequiresConnectionApi) in
  let! command_id := sread (λ c, map_err DHE.Protocol (CommandId_new (dc_next_command_id c))) in
  let! session := owned_session in
  let prior_state := cs_verified_state session in
  let! envelope := sget (λ c, mkCommandEnvelope (ib_typed_version (dc_inbound c)) command_id
                                (Some (m_session_id (cs_reducer session)))
                                (Some (state_token prior_state)) command) in
  let! request := encode_request envelope in
  let! outbound := next_outbound in
  let! next_command_id := next_command in
  let! checkpoint := begin_submitted envelope next_command_id in
  let! accepted := owned_session in
  let accepted_state := m_state (cs_reducer accepted) in
  let required_command_state :=
    if SessionState_eqb accepted_state prior_state then None else Some accepted_state in
  do! supd (dc_set_next_outbound outbound) in
  let! responses := transport_or_fail invalidate_live_target_binding
                      (exchange request DEFAULT_HOST_RESPONSE_LIMITS) in
  accept_response_batch envelope checkpoint required_command_state responses.
End submit.

(** ** Unsolicited events *)

Definition pump_inbound (wait : Z) : client_op (list EventEnvelope) :=
  do! sread require_session_open in
  let! pending := sget dc_pending_unsolicited_events in
  match pending with
  | _ :: _ => do! supd (dc_set_pending []) in sret pending
  | [] =>
      let! polled := transport_or_fail invalidate_live_target_binding
                       (poll_inbound wait DEFAULT_HOST_RESPONSE_LIMITS) in
      match polled with
      | None => sret []
      | Some responses =>
          on_taken_session (accept_unsolicited_batch responses)
      end
  end.

(** ** Ending *)

Definition release_closed_session : client_op unit :=
  do! sread require_session_open in
  let! session := owned_session in
  do! slift (fail_if (negb (bool_decide (state_kind (cs_verified_state session) = SSK.Closed)))
               (DHE.SessionNotClosed (state_kind (cs_verified_state session)))) in
  do! slift (fail_if (requires_cleanup_receipt (cs_reducer session)
                      && negb (cs_sandbox_cleanup_verified session))
               DHE.SandboxCleanupNotVerified) in
  do! call_transport (release_session (m_session_id (cs_reducer session))) in
  do! supd (dc_set_session None) in
  do! supd (dc_set_pending []) in
  supd (dc_set_connection CCS.Connected).

Definition abandon_failed_session : client_op SessionState :=
  do! sread (λ c, match dc_connection_state c with
                  | CCS.Failed | CCS.Disconnected => Ok tt
                  | _ => Err DHE.SessionAbandonRequiresFailedConnection
                  end) in
  do! supd (abort_transport CSR.ExplicitAbandon) in
  let! session := owned_session in
  do! supd (dc_set_session None) in
  do! supd (dc_set_pending []) in
  sret (cs_verified_state session).

Definition abandon_session : client_op SessionState :=
  let! session := owned_session in
  do! supd (abort_transport CSR.ExplicitAbandon) in
  do! supd (dc_set_connection CCS.Disconnected) in
  do! supd (dc_set_session None) in
  do! supd (dc_set_pending []) in
  sret (cs_verified_state session).

Definition disconnect : client_op unit :=
  let! state := sget dc_connection_state in
  if bool_decide (state = CCS.Disconnected) then sret tt
  else
    do! sread (λ c, match dc_session c with
                    | Some _ => Err DHE.SessionStillOwned
                    | None => Ok tt
                    end) in
    do! slift (fail_if (bool_decide (state = CCS.Failed)) DHE.ConnectionFailed) in
    do! call_transport (shutdown_control CSR.Graceful) in
    do! supd (dc_set_shutdown true) in
    supd (dc_set_connection CCS.Disconnected).
End client.
