(* ===== verification/HostClientTheory.v ===== *)
(** Theorems about the client of the debugger host: what every run of its methods keeps,
    what a submitted command returns, and how a connection ends. *)

From S2P Require Import Prelude Identity Sandbox SandboxPolicyTheory SandboxLifecycle Protocol.
From S2P Require Import ProtocolTheory Authorization SessionMachine SessionInvariant.
From S2P Require Import SessionCommands SessionWorlds SessionTheorems SessionEvidence.
From S2P Require Import LivePatchHistory HostWire HostWireTheory HostHandshakeTheory HostCodec.
From S2P Require Import HostCodecTheory.
From S2P Require Import HostResponse HostEvidence HostEvidenceTheory HostReading HostSettling.
From S2P Require Import HostExchangeTheory HostProvenance HostClient.
Open Scope Z_scope.

(** ** The calls of a client *)

Inductive client_call : Type :=
  | CallProbe
  | CallBeginSession (instance session_id : Z) (provisioning_epoch helper_build : list Z)
  | CallRegisterHost (v : HostRiskVerifier)
  | CallRegisterOwnership (v : SandboxOwnershipVerifier)
  | CallSubmit (command : DebugCommand)
  | CallPump (wait : Z)
  | CallRelease
  | CallAbandonFailed
  | CallAbandon
  | CallDisconnect.

Definition discarded {S E A} (c : smonad S E A) : smonad S E unit := do! c in sret tt.

(** What the types of the arguments guarantee. *)
Definition typed_call (call : client_call) : Prop :=
  match call with CallSubmit command => typed_command command | _ => True end.

Section client.
Context `{Sha256Spec} {T : Type} `{HostFrameExchange T} `{Json CommandControl} `{Json EventControl}.

(** What the transport maintains about itself. *)
Context (I : T → Prop).

Definition client_exec (call : client_call) : smonad (DebugHostClient T) DebugHostClientError unit :=
  match call with
  | CallProbe => discarded probe_capabilities
  | CallBeginSession instance session_id epoch helper => begin_session instance session_id epoch helper
  | CallRegisterHost v => client_register_host_risk_verifier v
  | CallRegisterOwnership v => client_register_sandbox_ownership_verifier v
  | CallSubmit command => discarded (submit command)
  | CallPump wait => discarded (pump_inbound wait)
  | CallRelease => release_closed_session
  | CallAbandonFailed => discarded abandon_failed_session
  | CallAbandon => discarded abandon_session
  | CallDisconnect => disconnect
  end.

(** The clients a connection over such a transport hands out and their calls lead to. *)
Inductive client_reachable : DebugHostClient T → Prop :=
  | reach_connect nonce controller host t c t' :
      I t → connect nonce controller host t = (Ok c, t') → client_reachable c
  | reach_call c call :
      client_reachable c → typed_call call → client_reachable (client_exec call c).2.

(** A call on the transport that does not panic and keeps the transport in order. *)
Definition quiet {A} (op : transport_op T A) : Prop :=
  ∀ t, I t → no_panic (op t).1 ∧ I (op t).2.

(** The transport does not panic, as long as it keeps itself in order. *)
Record quiet_transport : Prop := {
  qt_exchange : ∀ frame limits, quiet (exchange frame limits);
  qt_poll : ∀ wait limits, quiet (poll_inbound wait limits);
  qt_release : ∀ session_id, quiet (release_session session_id);
  qt_shutdown : ∀ reason, quiet (shutdown_control reason);
  qt_abort : ∀ reason t, I t → I (abort_control reason t)
}.

(** ** The invariant *)

Definition ended (c : DebugHostClient T) : Prop :=
  dc_connection_state c = CCS.Disconnected ∨ dc_connection_state c = CCS.Failed.

(** An owned session: it is settled and the next command identifier is fresh. *)
Definition serving (c : DebugHostClient T) (s : ClientSession) : Prop :=
  settled s ∧ ∀ n, m_last_command_id (cs_reducer s) = Some n → n < dc_next_command_id c.

Record client_ok (c : DebugHostClient T) : Prop := {
  co_shutdown : dc_transport_shutdown c = true ↔ ended c;
  co_connected : dc_connection_state c = CCS.Connected → dc_session c = None;
  co_open : dc_connection_state c = CCS.SessionOpen → ∃ s, dc_session c = Some s ∧ serving c s;
  co_ended : ended c → ∀ s, dc_session c = Some s →
    alive None (cs_reducer s) ∧ cs_live_target_binding s = None;
  co_pending : zlen (dc_pending_unsolicited_events c) ≤ MAX_PENDING_UNSOLICITED_EVENTS;
  co_idle : dc_session c = None → dc_pending_unsolicited_events c = [];
  co_numbers : 1 ≤ dc_next_command_id c ∧ 1 ≤ dc_next_outbound_frame_sequence c;
  co_transport : I (dc_transport c)
}.

Abbreviation kept := (maintains client_ok client_ok).

(** A client in the middle of a call, before a failure is handled. *)
Record mid_call (c : DebugHostClient T) : Prop := {
  mc_live : dc_transport_shutdown c = false;
  mc_session : ∀ s, dc_session c = Some s → alive None (cs_reducer s);
  mc_pending : zlen (dc_pending_unsolicited_events c) ≤ MAX_PENDING_UNSOLICITED_EVENTS;
  mc_idle : dc_session c = None → dc_pending_unsolicited_events c = [];
  mc_numbers : 1 ≤ dc_next_command_id c ∧ 1 ≤ dc_next_outbound_frame_sequence c;
  mc_transport : I (dc_transport c)
}.

Lemma client_mid c : client_ok c → ¬ ended c → mid_call c.
Proof.
  intros [Hs Hc Ho He Hp Hi Hn HI] Hl. split; try done.
  - destruct (dc_transport_shutdown c); [tauto|done].
  - intros s Hse. destruct (dc_connection_state c) eqn:Hst; unfold ended in Hl; rewrite Hst in Hl.
    + rewrite Hc in Hse by done. done.
    + destruct Ho as (s' & Hs' & [[] _]); [done|]. by simplify_eq.
    + tauto.
    + tauto.
Qed.

(** Aborting the transport ends the connection; the binding is gone first. *)
Lemma failed_ok (Hq : quiet_transport) before reason e c :
  mid_call c → e = CCS.Disconnected ∨ e = CCS.Failed →
  before = invalidate_live_target_binding ∨ before = id ∧ dc_session c = None →
  client_ok (abort_transport reason (dc_set_connection e (before c))).
Proof.
  intros [Hl Hs Hp Hi Hn HI] He Hb. unfold abort_transport.
  assert (dc_transport_shutdown (dc_set_connection e (before c)) = false) as ->.
  { by destruct Hb as [->|[-> _]]. }
  split; cbn.
  - done.
  - intros ->. by destruct He.
  - intros ->. by destruct He.
  - intros _ s Hse. destruct Hb as [->|[-> Hnone]]; cbn in Hse; [|congruence].
    destruct (dc_session c) as [s0|] eqn:Hd; [|done]. injection Hse as <-. split; [|done]. by apply (Hs s0).
  - by destruct Hb as [->|[-> _]].
  - destruct Hb as [->|[-> _]]; cbn; [|done]. by destruct (dc_session c).
  - by destruct Hb as [->|[-> _]].
  - apply Hq. by destruct Hb as [->|[-> _]].
Qed.

(** ** Calls on the transport *)

Lemma mid_transport t c : I t → mid_call c → mid_call (dc_set_transport t c).
Proof. by intros Ht []. Qed.

Lemma ok_transport t c : I t → client_ok c → client_ok (dc_set_transport t c).
Proof. by intros Ht []; split. Qed.

Lemma wp_transport_or_fail (Hq : quiet_transport) {A} before (op : transport_op T A) Q c :
  quiet op → mid_call c →
  before = invalidate_live_target_binding ∨ before = id ∧ dc_session c = None →
  (∀ a t, op (dc_transport c) = (Ok a, t) → I t → Q a (dc_set_transport t c)) →
  wp (transport_or_fail before op) Q (λ _ c', client_ok c') c.
Proof.
  intros Hn Hm Hb HQ. destruct (Hn (dc_transport c) (mc_transport _ Hm)) as [Hp Ht].
  unfold wp, transport_or_fail, zoom.
  destruct (op (dc_transport c)) as [[a|e|p] t]; [by apply HQ| |by edestruct Hp].
  apply (failed_ok Hq); [by apply mid_transport|by destruct (is_disconnected e); auto|done].
Qed.

Lemma wp_protocol_or_fail (Hq : quiet_transport) {A} before (op : smonad (DebugHostClient T) DebugHostClientError A) Q c :
  wp op Q (λ _ c', mid_call c' ∧ (before = invalidate_live_target_binding
                                  ∨ before = id ∧ dc_session c' = None)) c →
  wp (protocol_or_fail before op) Q (λ _ c', client_ok c') c.
Proof.
  unfold wp, protocol_or_fail. destruct (op c) as [[a|e|p] c']; [done| |done].
  intros [Hm Hb]. by apply (failed_ok Hq); [|right|].
Qed.

Lemma wp_call_transport {A} (op : transport_op T A) Q c :
  quiet op → client_ok c → (∀ a t, I t → Q a (dc_set_transport t c)) →
  wp (call_transport op) Q (λ _ c', client_ok c') c.
Proof.
  intros Hn Hc HQ. unfold call_transport. apply wp_map_err, wp_zoom.
  destruct (Hn (dc_transport c) (co_transport _ Hc)) as [Hp Ht].
  unfold wp. destruct (op (dc_transport c)) as [[a|e|p] t]; [by apply HQ| |by edestruct Hp].
  by apply ok_transport.
Qed.

(** ** Sessions *)

Lemma settled_same s m' :
  settled s → alive None m' → visible m' = visible (cs_reducer s) →
  m_pending_remote_command m' = None → settled (cs_set_reducer m' s).
Proof.
  intros [Ha Hp Hq Hb Hc] Hm Hv Hn. pose proof (f_equal v_state Hv) as Hv1.
  pose proof (f_equal v_target Hv) as Hv2. pose proof (f_equal v_sandbox Hv) as Hv3.
  pose proof (f_equal v_inherited Hv) as Hv4. cbn in Hv1, Hv2, Hv3, Hv4.
  split; cbn; try done; unfold requires_cleanup_receipt in *; rewrite ?Hv1, ?Hv2, ?Hv3, ?Hv4; done.
Qed.

(** A new reducer in the owned session, under a connection that stays open. *)
Lemma serving_ok c s s' :
  client_ok c → dc_connection_state c = CCS.SessionOpen → dc_session c = Some s → serving c s' →
  client_ok (dc_set_session (Some s') c).
Proof.
  intros [Hs Hc Ho He Hp Hi Hn HI] Hst Hse Hs'. unfold ended in *. split; cbn; try done; unfold ended; cbn.
  - congruence.
  - intros _. by exists s'.
  - intros [|]; congruence.
Qed.

Lemma serving_next_ok c s s' n :
  client_ok c → dc_connection_state c = CCS.SessionOpen → dc_session c = Some s → settled s' →
  1 ≤ n → (∀ last, m_last_command_id (cs_reducer s') = Some last → last < n) →
  client_ok (dc_set_next_command n (dc_set_session (Some s') c)).
Proof.
  intros [Hs Hc Ho He Hp Hi Hn HI] Hst Hse Hs' H1n Hf. unfold ended in *.
  split; cbn; try done; unfold ended; cbn.
  - congruence.
  - intros _. by exists s'.
  - intros [|]; congruence.
  - by destruct Hn.
Qed.

Lemma require_open_spec Q c :
  client_ok c →
  (dc_connection_state c = CCS.SessionOpen → ∀ s, dc_session c = Some s → serving c s → Q tt c) →
  wp (sread require_session_open) Q (λ _ c', client_ok c') c.
Proof.
  intros Hc HQ. unfold wp, sread, require_session_open, require_connected.
  destruct (dc_connection_state c) eqn:Hst; cbn; try done.
  destruct (co_open _ Hc Hst) as (s & Hs & Hv). rewrite Hs. eauto.
Qed.

Lemma kept_register {A} (op : session_op A) call :
  session_exec call = plain op → (∀ w, admissible w call) →
  keeps (λ m, (visible m, m_pending_remote_command m, m_last_command_id m)) op →
  kept (do! sread require_session_open in on_owned_reducer (reduce op)).
Proof.
  intros Hx Ha Hk c Hc. wp_step. apply require_open_spec; [done|]. intros Hst s Hs [Hse Hfresh].
  pose proof (alive_exec None call (cs_reducer s) (se_alive _ Hse) (λ _ _, Ha _)) as Hw.
  specialize (Hk (cs_reducer s)). rewrite Hx in Hw.
  unfold wp, on_owned_reducer, reduce, plain, smap_err, sbind, sret in *. rewrite Hs.
  destruct (op (cs_reducer s)) as [[a|e|p] m']; cbn [fst snd map_err] in *; [| |done];
    apply pair_equal_spec in Hk as [Hk Hl]; apply pair_equal_spec in Hk as [Hv Hp];
    (eapply serving_ok; [done..|]);
    (split; [apply settled_same; [done|tauto|done|rewrite Hp; apply Hse]|cbn; by rewrite Hl]).
Qed.

Lemma new_serving c instance sid epoch helper m :
  SessionMachine_new instance sid epoch helper = Ok m →
  serving c (mkClientSession m (m_state m) false None).
Proof.
  intros Hm. unfold serving. split; [split; cbn; try done|cbn].
  - exists []. split; [done|]. by eapply reach_new.
  - unfold SessionMachine_new, StateGeneration_new in Hm. by injection Hm as <-.
  - apply SessionState_eqb_refl.
  - unfold SessionMachine_new, StateGeneration_new in Hm. by injection Hm as <-.
  - unfold SessionMachine_new, StateGeneration_new in Hm. by injection Hm as <-.
Qed.

Lemma kept_begin instance sid epoch helper : kept (begin_session instance sid epoch helper).
Proof.
  intros c Hc. unfold begin_session, require_connected. wp_step.
  apply wp_check; [no_panic|intros Hst|done]. wp_step.
  apply wp_check; [no_panic|intros Hns|done]. 
  assert (dc_session c = None) as Hn by by destruct (dc_session c).
  wp_step. apply wp_lift; [|done|]. 
  2: { unfold SessionMachine_new, StateGeneration_new. no_panic. }
  intros m Hm%map_err_ok. do 3 wp_step. destruct Hc as [Hs Hc Ho He Hp Hi Hnum HI].
  assert (¬ ended c) as Hne by (unfold ended; destruct (dc_connection_state c); try done; by intros [|]).
  split; cbn; try done; unfold ended; cbn.
  - rewrite Hs. split; [done|by intros [|]].
  - intros _. eexists. split; [done|]. by eapply new_serving.
  - by intros [|].
Qed.

Lemma kept_register_host v : kept (client_register_host_risk_verifier v).
Proof.
  apply (kept_register _ (RegisterHost v)); [done..|].
  unfold register_host_risk_verifier, require_state, require_session. keeps.
Qed.

Lemma kept_register_ownership v : kept (client_register_sandbox_ownership_verifier v).
Proof.
  apply (kept_register _ (RegisterOwnership v)); [done..|].
  unfold register_sandbox_ownership_verifier, require_state, require_session. keeps.
Qed.

(** ** Ending *)

Lemma kept_abandon (Hq : quiet_transport) : kept abandon_session.
Proof.
  intros c Hc. unfold abandon_session, owned_session. wp_step.
  apply wp_read; [|done|by intros p; destruct (dc_session c)]. intros s Hs.
  do 9 wp_step. unfold abort_transport. destruct Hc as [Hsh ? ? ? ? ? ? ?].
  destruct (dc_transport_shutdown c) eqn:Hd; split; cbn; unfold ended; cbn; rewrite ?Hd; try done;
    first [by split; [left|]|by apply Hq].
Qed.

Lemma kept_abandon_failed : kept abandon_failed_session.
Proof.
  intros c Hc. unfold abandon_failed_session, owned_session. wp_step.
  apply wp_check; [no_panic|intros Hst|done].
  assert (ended c) as He by (unfold ended; destruct (dc_connection_state c); auto; done).
  assert (abort_transport CSR.ExplicitAbandon c = c) as Habort.
  { unfold abort_transport. by rewrite (proj2 (co_shutdown _ Hc) He). }
  wp_step. wp_step. rewrite Habort. wp_step.
  apply wp_read; [|done|by intros p; destruct (dc_session c)]. intros s Hs.
  do 5 wp_step. destruct Hc as [Hsh ? ? ? ? ? ? ?].
  split; cbn; unfold ended in *; cbn; try done. destruct (dc_connection_state c); try done; by destruct He.
Qed.

Lemma kept_disconnect (Hq : quiet_transport) : kept disconnect.
Proof.
  intros c Hc. unfold disconnect. wp_step. wp_step. case_bool_decide as Hd; [by wp_step|].
  wp_step. apply wp_check; [no_panic|intros Hs|done]. wp_step. wp_step; [|done]. wp_step.
  apply wp_call_transport; [apply Hq|done|]. intros a t Ht. do 3 wp_step.
  destruct Hc as [Hsh ? ? ? ? ? ? ?].
  split; cbn; unfold ended; cbn; try done. - split; auto. - by destruct (dc_session c).
Qed.

Lemma kept_release (Hq : quiet_transport) : kept release_closed_session.
Proof.
  intros c Hc. unfold release_closed_session, owned_session. wp_step.
  apply require_open_spec; [done|]. intros Hst s Hs Hv. wp_step.
  apply wp_read; [|done|by intros p; destruct (dc_session c)]. intros s' _.
  wp_step. wp_step; [|done]. wp_step. wp_step; [|done]. wp_step.
  apply wp_call_transport; [apply Hq|done|]. intros a t Ht. do 5 wp_step.
  destruct Hc as [Hsh ? ? ? ? ? ? ?]. unfold ended in *. rewrite Hst in Hsh.
  split; cbn; unfold ended; cbn; try done. rewrite Hsh. split; by intros [|].
Qed.

(** ** The session taken out of the client *)

Definition put_back (x : Exchange) (c : DebugHostClient T) : DebugHostClient T :=
  dc_set_inbound (xc_inbound x)
    (dc_set_session (Some (xc_session x)) (dc_set_pending (xc_pending x) c)).

Lemma wp_with_session {A} (op : exchange_op A) Q QE s c :
  dc_session c = Some s →
  wp op (λ a x, Q a (put_back x c)) (λ e x, QE e (put_back x c))
    (mkExchange (dc_inbound c) s (dc_pending_unsolicited_events c)) →
  wp (with_session op) Q QE c.
Proof.
  intros Hs Hw. unfold wp, with_session in *. rewrite Hs. by destruct (op _) as [[] x].
Qed.

Lemma wp_on_taken {A} (op : exchange_op A) Q QE s c :
  dc_session c = Some s →
  wp (protocol_or_fail invalidate_live_target_binding (with_session op)) Q QE c →
  wp (on_taken_session op) Q QE c.
Proof.
  intros Hs Hw. unfold on_taken_session, owned_session, wp, sbind, sread. by rewrite Hs.
Qed.

Lemma put_back_ok x c :
  mid_call c → dc_connection_state c = CCS.SessionOpen → settled (xc_session x) →
  (∀ n, m_last_command_id (xc_reducer x) = Some n → n < dc_next_command_id c) →
  zlen (xc_pending x) ≤ MAX_PENDING_UNSOLICITED_EVENTS → client_ok (put_back x c).
Proof.
  intros [Hsh ? ? ? ? ?] Hst Hs Hf Hp.
  split; cbn; unfold ended; cbn; rewrite ?Hst, ?Hsh; try done; [by split; [|intros [|]]| |by intros [|]].
  intros _. by exists (xc_session x).
Qed.

Lemma put_back_mid x c :
  mid_call c → alive None (xc_reducer x) →
  zlen (xc_pending x) ≤ MAX_PENDING_UNSOLICITED_EVENTS → mid_call (put_back x c).
Proof. intros [] Ha Hp. split; cbn; try done. by intros s [= <-]. Qed.

Lemma kept_pump (Hq : quiet_transport) wait : kept (pump_inbound wait).
Proof.
  intros c Hc. unfold pump_inbound. wp_step. apply require_open_spec; [done|].
  intros Hst s Hs [Hv Hf]. wp_step. wp_step. assert (mid_call c) as Hm.
  { apply client_mid; [done|]. unfold ended. rewrite Hst. by intros [|]. }
  destruct (dc_pending_unsolicited_events c) as [|event events] eqn:Hp.
  - wp_step. apply (wp_transport_or_fail Hq); [apply Hq|done|by left|]. intros [responses|] t _ HI.
    2: { wp_step. by apply ok_transport. }
    apply (wp_on_taken _ _ _ s); [done|].
    apply (wp_protocol_or_fail Hq), (wp_with_session _ _ _ s); [done|].
    eapply wp_mono; [apply (unsolicited_spec None), Hv|..]; cbn.
    + intros evs x (m' & Ha & Hfr & Hob & Hx & Hpe & _). apply put_back_ok; [by apply mid_transport|done|..].
      * rewrite Hx. by apply settled_observed.
      * unfold xc_reducer. rewrite Hx, invalidate_reducer. cbn. unfold frame in Hfr.
        intros n Hn. apply Hf. unfold xc_reducer in Hfr. cbn in Hfr. congruence.
      * rewrite Hpe. cbn. by rewrite Hp.
    + intros e x ->. split; [|by left]. apply put_back_mid; [by apply mid_transport|apply Hv|].
      cbn. by rewrite Hp.
  - do 3 wp_step. destruct Hc as [? ? Ho ? ? ? ? ?]. split; cbn; try done.
Qed.

(** ** Requests *)

Lemma encode_request_pure e (c : DebugHostClient T) :
  maintains (λ c', c' = c) (λ c', c' = c) (encode_request e).
Proof.
  pose proof no_panic_encode_command.
  unfold encode_request, FrameSequence_new, require_negotiated_frame_version. maintains.
Qed.

Lemma encode_request_spec e (c : DebugHostClient T) :
  wp (encode_request e)
    (λ request c', c' = c ∧ encode_command_frame (dc_next_outbound_frame_sequence c) e = Ok request)
    (λ _ c', c' = c) c.
Proof.
  eapply wp_mono; [by apply wp_eq, encode_request_pure|..|done]. intros request c' [-> Hr].
  split; [done|]. unfold encode_request in Hr. unrun Hr u0 s0 K0. unrun Hr sequence s1 K1.
  unrun Hr req s2 K2. unrun Hr u3 s3 K3. unfold sret in Hr. injection Hr as <- _.
  unfold slift, sread in K0, K1, K2. injection K0 as _ <-. injection K1 as K1 <-. injection K2 as K2 <-.
  apply map_err_ok in K2. rewrite map_err_ok in K1. unfold FrameSequence_new in K1.
  case_match; by simplify_eq.
Qed.

Lemma wp_next_outbound Q QE (c : DebugHostClient T) :
  (∀ n, n = dc_next_outbound_frame_sequence c + 1 → Q n c) → (∀ e, QE e c) → wp next_outbound Q QE c.
Proof.
  intros HQ He. unfold next_outbound. apply wp_read; [|done|by intros p; destruct (checked_add _ _ _)].
  intros n [-> _]%ok_or_ok%checked_add_some. by apply HQ.
Qed.

Lemma wp_next_command Q QE (c : DebugHostClient T) :
  (∀ n, n = dc_next_command_id c + 1 → Q n c) → (∀ e, QE e c) → wp next_command Q QE c.
Proof.
  intros HQ He. unfold next_command. apply wp_read; [|done|by intros p; destruct (checked_add _ _ _)].
  intros n [-> _]%ok_or_ok%checked_add_some. by apply HQ.
Qed.

Lemma capability_total id responses : maintains (λ _, True) (λ _, True) (accept_capability_batch id responses).
Proof.
  pose proof no_panic_batch_validate. pose proof receive_frame_total. pose proof observe_event_total.
  assert (∀ frames seen, maintains (λ _, True) (λ _, True) (read_capability_frames id frames seen)) as Hr.
  { induction frames; intros seen; cbn [read_capability_frames]; unfold read_capability_frame; maintains. }
  unfold accept_capability_batch. maintains.
Qed.

Lemma mid_numbers c outbound command :
  mid_call c → 1 ≤ outbound → 1 ≤ command →
  mid_call (dc_set_next_command command (dc_set_next_outbound outbound c)).
Proof. by intros []. Qed.

(** A client without a session. *)
Lemma connected_ok c :
  mid_call c → dc_connection_state c = CCS.Connected → dc_session c = None → client_ok c.
Proof.
  intros [Hsh ? ? ? ? ?] Hst Hs. split; try done; unfold ended; rewrite Hst; try done; [|by intros [|]].
  rewrite Hsh. by split; [|intros [|]].
Qed.

Lemma kept_probe (Hq : quiet_transport) : kept probe_capabilities.
Proof.
  intros c Hc. unfold probe_capabilities, require_connected. wp_step.
  apply wp_check; [no_panic|intros Hst|done]. wp_step. apply wp_check; [no_panic|intros Hns|done].
  assert (dc_session c = None) as Hs by by destruct (dc_session c).
  assert (dc_connection_state c = CCS.Connected) as Hco.
  { destruct (dc_connection_state c) eqn:Hk; try done. by destruct (co_open _ Hc Hk) as (? & ? & _); simplify_eq. }
  assert (mid_call c) as Hm.
  { apply client_mid; [done|]. unfold ended. rewrite Hco. by intros [|]. }
  pose proof (mc_numbers _ Hm) as [Hn1 Hn2].
  wp_step. apply wp_read; [intros id _|done|unfold CommandId_new, nonzero_id_new; no_panic].
  do 2 wp_step. wp_step.
  eapply wp_mono; [by apply encode_request_pure|..]; [|by intros e c' ->]. intros request c' ->.
  wp_step. apply wp_next_outbound; [|done]. intros outbound ->. do 2 wp_step. wp_step.
  apply wp_next_command; [|intros e]; cbn.
  2: { apply (connected_ok (dc_set_next_outbound _ c)); [|done..]. destruct Hm; split; cbn; try done. lia. }
  intros command ->. do 2 wp_step. wp_step.
  assert (mid_call (dc_set_next_command (dc_next_command_id c + 1)
            (dc_set_next_outbound (dc_next_outbound_frame_sequence c + 1) c))) as Hm'.
  { apply mid_numbers; [done|lia..]. }
  apply (wp_transport_or_fail Hq); [apply Hq|done|by right|]. intros responses t _ HI.
  apply (wp_protocol_or_fail Hq), wp_zoom.
  eapply wp_mono; [by apply capability_total|..]; intros a ib _.
  - apply connected_ok; [|done..]. by destruct Hm'; split.
  - split; [|by right]. by destruct Hm'; split.
Qed.

(** ** Submitting *)

(** The reducer records the identifier, or has not seen it. *)
Definition seen_by (e : CommandEnvelope) (last : option Z) (m : SessionMachine) : Prop :=
  m_last_command_id m = last ∨ m_last_command_id m = Some (ce_command_id e).

Definition records (e : CommandEnvelope) {A} (op : session_op A) : Prop :=
  ∀ last m, seen_by e last m → seen_by e last (op m).2.

Lemma records_keeps e {A} (op : session_op A) : keeps m_last_command_id op → records e op.
Proof. intros Hk last m. unfold seen_by. by rewrite Hk. Qed.

Lemma records_bind e {A B} (op : session_op A) (k : A → session_op B) :
  records e op → (∀ a, records e (k a)) → records e (sbind op k).
Proof.
  intros Ho Hk last m Hm. specialize (Ho last m Hm). unfold sbind.
  destruct (op m) as [[a|er|p] m']; [|done..]. by apply Hk.
Qed.

Lemma begin_records e : records e (begin_remote_command e).
Proof.
  assert (keeps m_last_command_id (accept_effect (ce_command e))) as Hk by by apply accept_effect_keeps.
  unfold begin_remote_command, require_no_remote_command_pending, accept_command_inner,
    observe_command_id.
  repeat first
    [ apply records_bind; [|intros]
    | by apply records_keeps
    | apply records_keeps; solve [keeps]
    | by intros last m _; right ].
Qed.

(** The command of a session, as the client sends it. *)
Definition submitted (c : DebugHostClient T) (s : ClientSession) (command : DebugCommand)
    : CommandEnvelope :=
  mkCommandEnvelope (ib_typed_version (dc_inbound c)) (dc_next_command_id c)
    (Some (m_session_id (cs_reducer s))) (Some (state_token (cs_verified_state s))) command.

Lemma begin_submitted_spec c s command :
  client_ok c → dc_connection_state c = CCS.SessionOpen → dc_session c = Some s → serving c s →
  typed_command command →
  wp (begin_submitted (submitted c s command) (dc_next_command_id c + 1))
    (λ cp c', ∃ m1, c' = dc_set_next_command (dc_next_command_id c + 1)
                           (dc_set_session (Some (cs_set_reducer m1 s)) c)
                    ∧ dispatched (submitted c s command) s cp m1 (cs_set_reducer m1 s))
    (λ _ c', client_ok c') c.
Proof.
  intros Hc Hst Hs [Hv Hf] Ht.
  pose proof (begin_alive (submitted c s command) (cs_reducer s) (se_alive _ Hv) Ht) as Hw.
  pose proof (begin_records (submitted c s command) (m_last_command_id (cs_reducer s)) (cs_reducer s)
                (or_introl eq_refl)) as Hl.
  unfold wp, begin_submitted in *. rewrite Hs. cbn [ce_command_id submitted] in *.
  destruct (begin_remote_command _ (cs_reducer s)) as [[cp|e|p] m']; cbn [fst snd map_err] in *; [| |done].
  - destruct Hw as [Hb Ha]. exists m'.
    pose proof (acc_command _ _ _ (beg_accepted _ _ _ _ Hb)) as Hlast. cbn in Hlast.
    rewrite bool_decide_eq_true_2 by done. split; [done|].
    split; [done|done| |done]. split; [done|done|]. apply (begun_open _ _ _ _ Hb).
  - destruct Hw as [[_ _ Hvis Hp _ _] Ha]. pose proof (co_numbers _ Hc) as [Hn1 Hn2].
    assert (settled (cs_set_reducer m' s)) as Hv'.
    { apply settled_same; [done..|]. rewrite Hp. apply Hv. }
    case_bool_decide as Hb.
    + eapply serving_next_ok; [done..|lia|]. cbn. rewrite Hb. intros n [= <-]. lia.
    + eapply serving_ok; [done..|]. split; [done|]. cbn. destruct Hl as [->|]; done.
Qed.

(** The receipt reports the answer of the transport to the encoded command: the decoded
    frames of the response are the observations that no command caused, which join the
    queue, and then the events of the receipt. *)
Definition answered (c : DebugHostClient T) (envelope : CommandEnvelope) (receipt : CommandReceipt)
    (c' : DebugHostClient T) : Prop :=
  ∃ request batch observed,
    encode_command_frame (dc_next_outbound_frame_sequence c) envelope = Ok request
    ∧ exchange request DEFAULT_HOST_RESPONSE_LIMITS (dc_transport c) = (Ok batch, dc_transport c')
    ∧ Forall2 decodes (rb_frames batch) (observed ++ cre_events receipt)
    ∧ Forall (λ e, ee_caused_by e = None) observed
    ∧ dc_pending_unsolicited_events c' = dc_pending_unsolicited_events c ++ observed.

(** A receipt leaves a settled session, the next identifier and an open connection. *)
Definition receipt_given (command : DebugCommand) (c : DebugHostClient T) (receipt : CommandReceipt)
    (c' : DebugHostClient T) : Prop :=
  ∃ s s', dc_session c = Some s ∧ dc_session c' = Some s'
    ∧ receipt_ok (submitted c s command) s s' receipt
    ∧ answered c (submitted c s command) receipt c'
    ∧ dc_connection_state c' = CCS.SessionOpen
    ∧ dc_next_command_id c' = dc_next_command_id c + 1.

Lemma submit_spec (Hq : quiet_transport) command c :
  client_ok c → typed_command command →
  wp (submit command) (λ receipt c', client_ok c' ∧ receipt_given command c receipt c')
    (λ _ c', client_ok c') c.
Proof.
  intros Hc Ht. unfold submit, owned_session. wp_step. apply require_open_spec; [done|].
  intros Hst s Hs Hv. wp_step. wp_step; [|done]. wp_step.
  apply wp_read; [|done|unfold CommandId_new, nonzero_id_new; no_panic].
  intros id Hid. assert (id = dc_next_command_id c) as ->.
  { unfold CommandId_new, nonzero_id_new in Hid. destruct (negb _); by simplify_eq/=. }
  wp_step. apply wp_read; [|done|by rewrite Hs]. rewrite Hs. intros ? [= <-]. cbn zeta.
  do 2 wp_step. wp_step. fold (submitted c s command).
  eapply wp_mono; [by apply encode_request_spec|..]; [|by intros e c' ->]. intros request c' [-> Henc].
  wp_step. apply wp_next_outbound; [|done]. intros outbound ->.
  wp_step. apply wp_next_command; [|done]. intros next ->.
  wp_step. eapply wp_mono; [by apply begin_submitted_spec|..|done].
  intros cp c1 (m1 & -> & Hd). wp_step. apply wp_read; [|done..]. intros ? [= <-]. cbn zeta.
  do 2 wp_step. wp_step. match goal with |- wp _ _ _ ?x => set (c1 := x) end.
  assert (mid_call c1) as Hm.
  { pose proof (co_numbers _ Hc) as [Hn1 Hn2]. split; cbn; try done.
    - destruct (dc_transport_shutdown c) eqn:Hsh; [|done].
      apply (co_shutdown _ Hc) in Hsh. unfold ended in Hsh. rewrite Hst in Hsh. by destruct Hsh.
    - intros ? [= <-]. apply (alive_none (Some cp)), Hd.
    - apply Hc.
    - lia.
    - apply Hc. }
  apply (wp_transport_or_fail Hq); [apply Hq|done|by left|]. intros responses t Hex HI.
  unfold accept_response_batch. apply (wp_on_taken _ _ _ (cs_set_reducer m1 s)); [done|].
  apply (wp_protocol_or_fail Hq), (wp_with_session _ _ _ (cs_set_reducer m1 s)); [done|].
  eapply wp_mono; [by apply wp_eq, (dispatched_spec _ s cp m1); [|apply Hc]|..].
  - intros receipt x [(Hx & Hr & Hp) Hrun]. apply dispatched_from in Hrun as (observed & Hdec & Hobs & Hpend).
    split; [|exists s, (xc_session x); split_and!; try done; by exists request, responses, observed].
    apply put_back_ok; [by apply mid_transport|done..| |done].
    intros n. pose proof (rk_identity _ _ _ _ Hr) as Hi. unfold identity in Hi. 
    injection Hi as _ _ Hi. unfold xc_reducer. rewrite Hi. intros [= <-]. cbn. lia.
  - intros e x [Ha Hp]. split; [|by left]. apply put_back_mid; [by apply mid_transport|done..].
Qed.

(** ** Connecting *)

(** The answer a client is handed out for: one frame without a payload, the valid
    acknowledgement of the expected host build to this very hello. *)
Definition acknowledged (nonce host : list Z) (batch : HostResponseBatch) : Prop :=
  ∃ ack hello, rb_frames batch = [ack] ∧ hf_raw ack = [] ∧ header_ok (hf_header ack)
    ∧ fh_kind (hf_header ack) = MK.HelloAck ∧ fh_body (hf_header ack) = HelloBody hello
    ∧ hi_role hello = HostRole ∧ hi_build_claim hello = host ∧ hi_nonce hello = nonce
    ∧ fh_version (hf_header ack) = WireProtocolVersion_current.

Definition hello_sent (nonce controller : list Z) (request : HostFrame) : Prop :=
  request = mkHostFrame
    (mkFrameHeader WireProtocolVersion_current 1 MK.Hello 0 None
       (HelloBody (mkHelloIdentity nonce ControllerRole (outbound_direction ControllerRole)
                     controller))) [].

Lemma initiator_ok nonce controller host h :
  initiator ControllerRole nonce controller host = Ok h →
  h = mkHandshake ControllerRole controller host WireProtocolVersion_current None (Some nonce) HS.Ready.
Proof.
  unfold initiator, initiator_for_version, handshake_new. intros Hi.
  unbind Hi u0 Hu0. unbind Hi u1 Hu1. unbind Hi u2 Hu2. unbind Hi u3 Hu3. by injection Hi as <-.
Qed.

Lemma no_panic_initiator nonce controller host :
  no_panic (initiator ControllerRole nonce controller host).
Proof.
  unfold initiator, initiator_for_version, handshake_new, wire_version_validate, validate_build_claim.
  no_panic.
Qed.

Definition awaiting_acknowledgement (nonce controller host : list Z) : BuildClaimHandshake :=
  mkHandshake ControllerRole controller host WireProtocolVersion_current None (Some nonce)
    HS.AwaitingAcknowledgement.

Lemma acknowledgement_batch_spec nonce controller host batch :
  match accept_acknowledgement_batch (awaiting_acknowledgement nonce controller host) batch with
  | Ok (negotiated, _) => acknowledged nonce host batch ∧ negotiated = WireProtocolVersion_current
  | Err _ => True
  | Panic _ => False
  end.
Proof.
  unfold accept_acknowledgement_batch.
  destruct (batch_validate batch _) as [[]|e|p] eqn:Hv; cbn [map_err result_bind]; [|done|].
  2: { by destruct (no_panic_batch_validate _ _ _ Hv). }
  destruct (rb_frames batch) as [|ack []] eqn:Hf; try done.
  case_bool_decide as Hraw; cbn [negb fail_if result_bind]; [|done].
  destruct (exec_cases (CallAccept (hf_header ack)) (awaiting_acknowledgement nonce controller host))
    as [(o & h' & He & Ha)|[e He]]; cbn [handshake_exec] in He; rewrite He; [|done].
  apply accept_inner_ok in Ha as (hello & [(Hst & _)|(_ & Hp & _ & Hver & Hn & ->)]); [done|].
  destruct Hp as (Hok & _ & Hk & Hb & Hr & Hc). cbn in Hver, Hn, Hr, Hc. injection Hn as Hn.
  cbn. rewrite Hver. cbn. split; [|done]. by exists ack, hello.
Qed.

Lemma run_lift {S E A B} (a : A) (k : A → smonad S E B) s : sbind (slift (Ok a)) k s = k a s.
Proof. done. Qed.

Lemma no_panic_host_frame header raw : no_panic (HostFrame_new header raw).
Proof. unfold HostFrame_new, codec_try_from. pose proof no_panic_header_validate. no_panic. Qed.

Lemma begin_cases nonce controller host :
  let h := mkHandshake ControllerRole controller host WireProtocolVersion_current None (Some nonce)
             HS.Ready in
  handshake_begin 1 h
  = (Ok (own_frame h MK.Hello nonce WireProtocolVersion_current), awaiting_acknowledgement nonce controller host)
  ∨ ∃ e h', handshake_begin 1 h = (Err e, h').
Proof.
  intros h. unfold handshake_begin, fail_closed. pose proof (begin_inner_fails 1 h) as Hw.
  unfold wp in Hw. destruct (begin_inner 1 h) as [[f|e|p] h'] eqn:Hb; [left|right; eauto|done].
  apply begin_inner_ok in Hb as (_ & _ & -> & n & [= <-] & ->). done.
Qed.

(** The transport is untouched, in the client, or aborted. *)
Lemma connect_spec (Hq : quiet_transport) nonce controller host t (HI : I t) :
  match connect nonce controller host t with
  | (Ok c, t') =>
      dc_transport c = t' ∧ client_ok c ∧ dc_connection_state c = CCS.Connected
      ∧ ∃ request batch, hello_sent nonce controller request
          ∧ exchange request DEFAULT_HOST_RESPONSE_LIMITS t = (Ok batch, t')
          ∧ acknowledged nonce host batch
  | (Err _, t') =>
      t' = t ∨ ∃ request reason, hello_sent nonce controller request
                 ∧ t' = abort_control reason (exchange request DEFAULT_HOST_RESPONSE_LIMITS t).2
  | (Panic _, _) => False
  end.
Proof.
  unfold connect.
  destruct (initiator ControllerRole nonce controller host) as [h|e|p] eqn:Hi; cbn [map_err]; [|by left|].
  2: { by destruct (no_panic_initiator _ _ _ _ Hi). }
  apply initiator_ok in Hi as ->. rewrite run_lift. change (map_err DHE.Wire (FrameSequence_new 1)) with (@Ok Z DebugHostClientError 1).
  rewrite run_lift. destruct (begin_cases nonce controller host) as [->|(e & h' & ->)]; [|by left].
  cbn [map_err]. rewrite run_lift.
  destruct (HostFrame_new _ _) as [request|e|p] eqn:Hf; cbn [map_err]; [|by left|].
  2: { by destruct (no_panic_host_frame _ _ _ Hf). }
  rewrite run_lift. assert (hello_sent nonce controller request) as Hsent.
  { unfold HostFrame_new in Hf. unbind Hf u0 Hu0. unbind Hf u1 Hu1. unbind Hf u2 Hu2. by injection Hf as <-. }
  destruct (qt_exchange Hq request DEFAULT_HOST_RESPONSE_LIMITS t HI) as [Hn Ht].
  destruct (exchange request _ t) as [[batch|e|p] t'] eqn:Hex; [| |by edestruct Hn].
  2: { right. exists request, CSR.TransportFailure. by rewrite Hex. }
  pose proof (acknowledgement_batch_spec nonce controller host batch) as Ha.
  destruct (accept_acknowledgement_batch _ batch) as [[negotiated typed]|e|p]; [| |done].
  2: { right. exists request, CSR.BuildClaimFailed. by rewrite Hex. }
  destruct Ha as [Ha _]. split; [done|]. split; [|split; [done|by exists request, batch]].
  by apply connected_ok.
Qed.

(** ** Runs *)

Lemma kept_discarded {A} (op : smonad (DebugHostClient T) DebugHostClientError A) :
  kept op → kept (discarded op).
Proof. intros Ho. unfold discarded. apply maintains_bind; [done|]. intros a. apply maintains_ret. Qed.

Lemma exec_kept (Hq : quiet_transport) call : typed_call call → kept (client_exec call).
Proof.
  intros Ht. destruct call; cbn [client_exec]; try apply kept_discarded.
  - by apply kept_probe.
  - apply kept_begin.
  - apply kept_register_host.
  - apply kept_register_ownership.
  - intros c Hc. eapply wp_mono; [by apply submit_spec|..]; [|done]. by intros a c' [? _].
  - by apply kept_pump.
  - by apply kept_release.
  - apply kept_abandon_failed.
  - by apply kept_abandon.
  - by apply kept_disconnect.
Qed.

Lemma reachable_ok (Hq : quiet_transport) c : client_reachable c → client_ok c.
Proof.
  induction 1 as [nonce controller host t c t' HI Hc|c call _ IH Ht].
  - pose proof (connect_spec Hq nonce controller host t HI) as Hs. rewrite Hc in Hs. tauto.
  - pose proof (exec_kept Hq call Ht c IH) as Hw. unfold wp in Hw. by destruct (client_exec call c) as [[] ?].
Qed.

(** C25: no host misleads the client.  Whatever a transport answers that does not
    itself panic while it keeps an invariant of its own, and whatever calls are made on a client in whatever order: no call
    panics, and the client is always in order.  While a session is open its reducer
    was driven only through its own calls, has no command in flight, shows the state
    the client reports, and takes the next command identifier; a live-target binding
    is of the target that was opened and only while it is live; a closed sandbox was
    cleaned up.  The transport is shut down exactly when the connection has ended, and
    then no binding is left.  Queued events stay within their bound. *)
Theorem client_runs_sound c call :
  quiet_transport → client_reachable c → typed_call call →
  client_ok c ∧ no_panic (client_exec call c).1.
Proof.
  intros Hq Hc Ht. pose proof (reachable_ok Hq c Hc) as Hok. split; [done|].
  pose proof (exec_kept Hq call Ht c Hok) as Hw. unfold wp in Hw.
  by destruct (client_exec call c) as [[] ?].
Qed.

(** C26: a receipt is what happened.  When a submitted command returns a receipt, the
    decoded frames of the transport's answer to the encoded command are, in order and
    without exception, observations that no command caused, which join the client's
    queue, and then the events of the receipt, all caused by that very command in that
    session; the command result is the last of them and the only one; evidence of an
    operation is about exactly the operation asked for and appears at most once.  If the command succeeded, the
    session ended in a state the command allows, the required evidence is there
    exactly once, and an opened live target is bound.  If it was rejected, the
    session shows exactly what it showed before, or it has failed. *)
Theorem submit_receipt_exact c command receipt c' :
  quiet_transport → client_reachable c → typed_command command →
  submit command c = (Ok receipt, c') → receipt_given command c receipt c'.
Proof.
  intros Hq Hc Ht Hr. pose proof (submit_spec Hq command c (reachable_ok Hq c Hc) Ht) as Hw.
  unfold wp in Hw. rewrite Hr in Hw. tauto.
Qed.

(** C27: a client is handed out only for the expected host.  The one frame sent is the
    hello with the caller's nonce and build; a client is returned only when the
    answer was a single frame without payload, the acknowledgement of the expected
    host build to that nonce, and it owns the transport.  Otherwise the transport is
    untouched, or it was aborted after its only exchange.  Connecting never panics. *)
Theorem connect_authentic nonce controller host (t : T) :
  quiet_transport → I t →
  match connect nonce controller host t with
  | (Ok c, t') =>
      dc_transport c = t' ∧ client_ok c ∧ dc_connection_state c = CCS.Connected
      ∧ ∃ request batch, hello_sent nonce controller request
          ∧ exchange request DEFAULT_HOST_RESPONSE_LIMITS t = (Ok batch, t')
          ∧ acknowledged nonce host batch
  | (Err _, t') =>
      t' = t ∨ ∃ request reason, hello_sent nonce controller request
                 ∧ t' = abort_control reason (exchange request DEFAULT_HOST_RESPONSE_LIMITS t).2
  | (Panic _, _) => False
  end.
Proof. intros Hq HI. by apply connect_spec. Qed.

(** C29: a closed session can be released.  Once the session the client shows is
    closed, releasing it depends only on the transport: the cleanup of its sandbox was
    verified when it closed.  The connection is then free for another session; a
    refusal changes nothing but the transport. *)
Theorem closed_session_released c s :
  quiet_transport → client_reachable c → dc_connection_state c = CCS.SessionOpen →
  dc_session c = Some s → state_kind (cs_verified_state s) = SSK.Closed →
  match release_session (m_session_id (cs_reducer s)) (dc_transport c) with
  | (Ok _, t) =>
      release_closed_session c
      = (Ok tt, dc_set_connection CCS.Connected (dc_set_pending [] (dc_set_session None (dc_set_transport t c))))
  | (Err e, t) => release_closed_session c = (Err (DHE.Transport e), dc_set_transport t c)
  | (Panic _, _) => False
  end.
Proof.
  intros Hq Hc Hst Hs Hk. destruct (co_open _ (reachable_ok Hq c Hc) Hst) as (s' & Hs' & [Hv _]).
  rewrite Hs in Hs'. injection Hs' as <-. pose proof (se_cleanup _ Hv Hk) as Hcl.
  destruct (qt_release Hq (m_session_id (cs_reducer s)) _ (co_transport _ (reachable_ok Hq c Hc))) as [Hn _].
  unfold release_closed_session, require_session_open, require_connected, owned_session, call_transport,
    smap_err, zoom, sbind, sread, slift, supd. rewrite Hst, Hs. cbn. rewrite Hk. cbn.
  assert (requires_cleanup_receipt (cs_reducer s) && negb (cs_sandbox_cleanup_verified s) = false) as ->.
  { destruct (requires_cleanup_receipt (cs_reducer s)); [|done]. by rewrite Hcl. }
  cbn. destruct (release_session _ _) as [[[]|e|p] t]; [done|done|by edestruct Hn].
Qed.

(** ** After the end *)

(** The calls that may still do something. *)
Definition ends_session (call : client_call) : bool :=
  match call with CallAbandonFailed | CallAbandon | CallDisconnect => true | _ => false end.

Lemma ended_refuses call c :
  ended c → ends_session call = false → ∃ e, client_exec call c = (Err e, c).
Proof.
  intros He Hc. assert (∃ e, require_connected c = Err e) as [e Hr].
  { unfold require_connected. destruct He as [-> | ->]; eauto. }
  assert (require_session_open c = Err e) as Ho by (unfold require_session_open; by rewrite Hr).
  exists e. destruct call; try discriminate Hc; cbn [client_exec]; unfold discarded, probe_capabilities,
    begin_session, client_register_host_risk_verifier, client_register_sandbox_ownership_verifier,
    submit, pump_inbound, release_closed_session, sbind, sread; by rewrite ?Hr, ?Ho.
Qed.

Lemma ended_frozen call c :
  ended c → dc_transport_shutdown c = true →
  dc_transport (client_exec call c).2 = dc_transport c ∧ ended (client_exec call c).2
  ∧ dc_transport_shutdown (client_exec call c).2 = true.
Proof.
  intros He Hs. destruct (ends_session call) eqn:Hc.
  2: { by destruct (ended_refuses call c He Hc) as [e ->]. }
  destruct call; try discriminate Hc; cbn [client_exec]; unfold discarded, abandon_failed_session,
    abandon_session, disconnect, owned_session, abort_transport, sbind, sread, sget, supd, slift, ended in *;
    destruct He as [He|He]; rewrite ?He, ?Hs; repeat (case_bool_decide; try done); cbn;
    destruct (dc_session c); cbn; repeat (case_bool_decide; try done); rewrite ?Hs, ?He; auto.
Qed.

(** C28: an ended client is inert.  Once a connection was disconnected or has failed,
    no call uses the transport again, not even dropping the client; the connection
    stays ended; and every call but those that give up the session or disconnect
    returns an error and changes nothing. *)
Theorem ended_client_inert c call :
  quiet_transport → client_reachable c → ended c →
  dc_transport (client_exec call c).2 = dc_transport c ∧ ended (client_exec call c).2
  ∧ client_drop (client_exec call c).2 = dc_transport c
  ∧ (ends_session call = false → ∃ e, client_exec call c = (Err e, c)).
Proof.
  intros Hq Hc He. pose proof (proj2 (co_shutdown _ (reachable_ok Hq c Hc)) He) as Hsh.
  destruct (ended_frozen call c He Hsh) as (Ht & He' & Hs').
  split; [done|]. split; [done|]. split; [|by apply ended_refuses].
  unfold client_drop. by rewrite Hs', Ht.
Qed.
End client.
