(* ===== verification/OfflineHost.v ===== *)
(** The offline image host, [resymbol-debugger/src/offline_image_host.rs]: an
    in-process debug host that serves reads of one verified image over the host
    protocol and never runs anything.

    The texts that the errors of other modules print are a parameter, the class
    [Display].  The address of a new reducer's identity is taken from a counter. *)

From S2P Require Import Prelude Identity Sandbox Protocol Authorization SessionMachine.
From S2P Require Import LivePatchHistory HostWire HostCodec HostResponse HostEvidence HostClient.
From S2P Require Import SymbolGraph ElfAnalysis AddressSpace OfflineImage.
Open Scope Z_scope.

(** [ToString] of an error type. *)
Class Display (E : Type) : Type := to_string : E → list Z.

(** ** The host *)

Record OfflineImageDebugHost : Type := mkOfflineHost {
  oh_image : VerifiedOfflineImage;
  oh_handshake : BuildClaimHandshake;
  oh_provisioning_epoch : list Z;
  oh_helper_build : list Z;
  oh_machine : option SessionMachine;
  oh_last_command_id : option Z;
  oh_next_command_frame_sequence : Z;
  oh_next_frame_sequence : Z;
  oh_next_event_sequence : Z;
  oh_disconnected : bool;
  oh_shutdown_reason : option ControlShutdownReason;
  oh_next_instance : Z
}.

Definition oh_set_handshake (hs : BuildClaimHandshake) (h : OfflineImageDebugHost)
    : OfflineImageDebugHost :=
  mkOfflineHost (oh_image h) hs (oh_provisioning_epoch h) (oh_helper_build h) (oh_machine h)
    (oh_last_command_id h) (oh_next_command_frame_sequence h) (oh_next_frame_sequence h)
    (oh_next_event_sequence h) (oh_disconnected h) (oh_shutdown_reason h) (oh_next_instance h).
Definition oh_set_machine (m : option SessionMachine) (h : OfflineImageDebugHost)
    : OfflineImageDebugHost :=
  mkOfflineHost (oh_image h) (oh_handshake h) (oh_provisioning_epoch h) (oh_helper_build h) m
    (oh_last_command_id h) (oh_next_command_frame_sequence h) (oh_next_frame_sequence h)
    (oh_next_event_sequence h) (oh_disconnected h) (oh_shutdown_reason h) (oh_next_instance h).
Definition oh_set_last_command (id : Z) (h : OfflineImageDebugHost) : OfflineImageDebugHost :=
  mkOfflineHost (oh_image h) (oh_handshake h) (oh_provisioning_epoch h) (oh_helper_build h)
    (oh_machine h) (Some id) (oh_next_command_frame_sequence h) (oh_next_frame_sequence h)
    (oh_next_event_sequence h) (oh_disconnected h) (oh_shutdown_reason h) (oh_next_instance h).
Definition oh_set_command_frame (n : Z) (h : OfflineImageDebugHost) : OfflineImageDebugHost :=
  mkOfflineHost (oh_image h) (oh_handshake h) (oh_provisioning_epoch h) (oh_helper_build h)
    (oh_machine h) (oh_last_command_id h) n (oh_next_frame_sequence h)
    (oh_next_event_sequence h) (oh_disconnected h) (oh_shutdown_reason h) (oh_next_instance h).
Definition oh_set_frame (n : Z) (h : OfflineImageDebugHost) : OfflineImageDebugHost :=
  mkOfflineHost (oh_image h) (oh_handshake h) (oh_provisioning_epoch h) (oh_helper_build h)
    (oh_machine h) (oh_last_command_id h) (oh_next_command_frame_sequence h) n
    (oh_next_event_sequence h) (oh_disconnected h) (oh_shutdown_reason h) (oh_next_instance h).
Definition oh_set_event (n : Z) (h : OfflineImageDebugHost) : OfflineImageDebugHost :=
  mkOfflineHost (oh_image h) (oh_handshake h) (oh_provisioning_epoch h) (oh_helper_build h)
    (oh_machine h) (oh_last_command_id h) (oh_next_command_frame_sequence h)
    (oh_next_frame_sequence h) n (oh_disconnected h) (oh_shutdown_reason h) (oh_next_instance h).
Definition oh_set_disconnected (reason : ControlShutdownReason) (h : OfflineImageDebugHost)
    : OfflineImageDebugHost :=
  mkOfflineHost (oh_image h) (oh_handshake h) (oh_provisioning_epoch h) (oh_helper_build h)
    (oh_machine h) (oh_last_command_id h) (oh_next_command_frame_sequence h)
    (oh_next_frame_sequence h) (oh_next_event_sequence h) true (Some reason) (oh_next_instance h).
Definition oh_set_instance (n : Z) (h : OfflineImageDebugHost) : OfflineImageDebugHost :=
  mkOfflineHost (oh_image h) (oh_handshake h) (oh_provisioning_epoch h) (oh_helper_build h)
    (oh_machine h) (oh_last_command_id h) (oh_next_command_frame_sequence h)
    (oh_next_frame_sequence h) (oh_next_event_sequence h) (oh_disconnected h)
    (oh_shutdown_reason h) n.

(** [OfflineImageDebugHost::new]; [instance] is the first address of a reducer. *)
Definition OfflineImageDebugHost_new (image : VerifiedOfflineImage)
    (host_build expected_controller_build provisioning_epoch helper_build : list Z) (instance : Z)
    : result OfflineImageDebugHost HandshakeError :=
  let? handshake := responder HostRole host_build expected_controller_build in
  Ok (mkOfflineHost image handshake provisioning_epoch helper_build None None 1 2 1 false None
        instance).

(** ** Texts *)

Definition bounded_text (message : list Z) : list Z :=
  if bool_decide (message = []) || (MAX_REASON_BYTES <? str_len message)
     || existsb is_control message
  then str "offline image host rejected the command"
  else message.

Definition offline_capability_status (capability : DebugCapability) : CapabilityStatus :=
  let availability :=
    match capability with
    | OfflineAnalysis => Available
    | LiveMemoryWrite | ExecutionControl | StepInto | StepOver | StepOut
    | RegisterWriteCapability | SoftwareBreakpoints | HardwareBreakpoints =>
        Unavailable TargetModeReadOnly
          (str "verified offline images are immutable and non-executing")
    | DumpRead | SnapshotRead | ObserveProcess | LiveMemoryRead | RegisterRead
    | SandboxedLaunch | HostLaunch | HostAttach =>
        Unavailable BackendUnavailable
          (str "offline image host has no live, dump, snapshot, or launch backend")
    end in
  mkCapabilityStatus capability availability.

Section host.
Context `{Sha256} `{Json CommandControl} `{Json EventControl}.
Context `{Display HandshakeError} `{Display HostCodecError} `{Display WireError}.
Context `{Display SessionMachineError} `{Display ProtocolValidationError}.

Abbreviation host_op A := (smonad OfflineImageDebugHost HostTransportError A).

(** [map_err] of an error into a transport diagnostic. *)
Definition as_protocol {A E} `{Display E} (r : result A E) : result A HostTransportError :=
  match r with
  | Ok a => Ok a
  | Err e => transport_protocol (to_string e)
  | Panic p => Panic p
  end.

(** [machine_ref]. *)
Definition machine_ref (h : OfflineImageDebugHost) : result SessionMachine HostTransportError :=
  match oh_machine h with
  | Some machine => Ok machine
  | None => transport_protocol (str "no active session reducer")
  end.

(** A call on [machine_mut], whose errors become diagnostics. *)
Definition on_machine {A} (op : smonad SessionMachine SessionMachineError A) : host_op A :=
  λ h, match oh_machine h with
       | None => (transport_protocol (str "no active session reducer"), h)
       | Some machine =>
           let '(r, machine) := op machine in
           (as_protocol r, oh_set_machine (Some machine) h)
       end.

(** ** Events *)

Definition EventSequence_new : Z → result Z ProtocolValidationError := nonzero_id_new "event sequence".

Definition next_event_sequence : host_op Z :=
  let! sequence := sread (λ h, as_protocol (EventSequence_new (oh_next_event_sequence h))) in
  let! next := sread (λ h, match checked_add u64_max (oh_next_event_sequence h) 1 with
                           | Some next => Ok next
                           | None => transport_protocol (str "event sequence overflow")
                           end) in
  do! supd (oh_set_event next) in
  sret sequence.

Definition push_encoded_event (frames : list HostFrame) (envelope : EventEnvelope)
    : host_op (list HostFrame) :=
  let! sequence := sread (λ h, as_protocol (FrameSequence_new (oh_next_frame_sequence h))) in
  let! frame := slift (as_protocol (encode_event_frame sequence envelope)) in
  let! next := sread (λ h, match checked_add u64_max (oh_next_frame_sequence h) 1 with
                           | Some next => Ok next
                           | None => transport_protocol (str "frame sequence overflow")
                           end) in
  do! supd (oh_set_frame next) in
  sret (frames ++ [frame]).

Definition push_global_event (frames : list HostFrame) (command_id : Z) (event : DebugEvent)
    : host_op (list HostFrame) :=
  let! sequence := next_event_sequence in
  push_encoded_event frames
    (mkEventEnvelope ProtocolVersion_current sequence None None (Some command_id) event).

Definition push_session_event (frames : list HostFrame) (command_id : Z) (event : DebugEvent)
    : host_op (list HostFrame) :=
  let! machine := sread machine_ref in
  let session_id := m_session_id machine in
  let state := state_token (m_state machine) in
  let! sequence := next_event_sequence in
  push_encoded_event frames
    (mkEventEnvelope ProtocolVersion_current sequence (Some session_id) (Some state)
       (Some command_id) event).

Definition push_succeeded (frames : list HostFrame) (command_id : Z) : host_op (list HostFrame) :=
  push_session_event frames command_id (DE.CommandResult command_id CommandOutcome.Succeeded).

Definition rejected (command_id : Z) (code : string) (message : list Z)
    : host_op (list HostFrame) :=
  push_session_event [] command_id
    (DE.CommandResult command_id (CommandOutcome.Rejected (str code) (bounded_text message))).

(** ** Commands *)

Definition offline_observe_command_id (command_id : Z) : host_op unit :=
  do! sread (λ h, if match oh_last_command_id h with
                     | Some last => command_id <=? last
                     | None => false
                     end
                  then transport_protocol
                         (str "command identifier is not newer than the previous command")
                  else Ok tt) in
  supd (oh_set_last_command command_id).

Definition handle_capability_probe (command_id : Z) : host_op (list HostFrame) :=
  let report := mkCapabilityReport (offline_capability_status <$> DebugCapability_ALL) in
  let! frames := push_global_event [] command_id (DE.Capabilities report) in
  push_global_event frames command_id
    (DE.CommandResult command_id CommandOutcome.Succeeded).

(** [begin_remote_command] of the host: the checkpoint, or the text of the refusal. *)
Definition host_begin (envelope : CommandEnvelope) : host_op (RemoteCommandCheckpoint + list Z) :=
  λ h, match oh_machine h with
       | None => (Ok (inr (str "no active session reducer")), h)
       | Some machine =>
           let '(r, machine) := begin_remote_command envelope machine in
           (match r with
            | Ok checkpoint => Ok (inl checkpoint)
            | Err e => Ok (inr (bounded_text (to_string e)))
            | Panic p => Panic p
            end, oh_set_machine (Some machine) h)
       end.

Definition host_reject (checkpoint : RemoteCommandCheckpoint) (command_id : Z) : host_op unit :=
  do! on_machine (reject_remote_command checkpoint command_id) in sret tt.

Definition host_commit (checkpoint : RemoteCommandCheckpoint) (command_id : Z) : host_op unit :=
  do! on_machine (commit_remote_command checkpoint command_id) in sret tt.

Definition handle_open (envelope : CommandEnvelope) (command_id : Z) (target : OfflineTarget)
    : host_op (list HostFrame) :=
  let! begun := host_begin envelope in
  match begun with
  | inr error => rejected command_id "command-rejected" error
  | inl checkpoint =>
      let! origin_path := sget (λ h, oi_origin_path (oh_image h)) in
      if negb (path_eqb (offline_path target) origin_path)
      then
        do! host_reject checkpoint command_id in
        rejected command_id "offline-target-mismatch"
          (str "offline target did not exactly match the preverified canonical image")
      else
        let! machine := sread machine_ref in
        let! events := push_session_event [] command_id (DE.StateChanged (m_state machine)) in
        let! offline := on_machine complete_open_offline in
        do! host_commit checkpoint command_id in
        let! events := push_session_event events command_id (DE.StateChanged offline) in
        push_succeeded events command_id
  end.

Definition handle_read (envelope : CommandEnvelope) (command_id : Z) (view : ReadViewToken)
    (address size : Z) : host_op (list HostFrame) :=
  let! begun := host_begin envelope in
  match begun with
  | inr error => rejected command_id "command-rejected" error
  | inl checkpoint =>
      if negb match view with ReadViewToken.Offline _ => true | _ => false end
      then
        do! host_reject checkpoint command_id in
        rejected command_id "offline-view-required"
          (str "offline image reads require an exact offline state token")
      else
        let! image := sget oh_image in
        match read_rva image address size with
        | Panic p => slift (Panic p)
        | Err error =>
            do! host_reject checkpoint command_id in
            rejected command_id "offline-range-unavailable" (display_read_error error)
        | Ok bytes =>
            do! host_commit checkpoint command_id in
            let! events := push_session_event [] command_id (DE.MemoryRead view address bytes) in
            push_succeeded events command_id
        end
  end.

Definition handle_close (envelope : CommandEnvelope) (command_id : Z) : host_op (list HostFrame) :=
  let! begun := host_begin envelope in
  match begun with
  | inr error => rejected command_id "command-rejected" error
  | inl checkpoint =>
      let! machine := sread machine_ref in
      let! events := push_session_event [] command_id (DE.StateChanged (m_state machine)) in
      let! closed := on_machine (complete_close None) in
      do! host_commit checkpoint command_id in
      let! events := push_session_event events command_id (DE.StateChanged closed) in
      push_succeeded events command_id
  end.

Definition reject_unsupported (envelope : CommandEnvelope) (command_id : Z)
    : host_op (list HostFrame) :=
  let! begun := host_begin envelope in
  do! match begun with
      | inl checkpoint => host_reject checkpoint command_id
      | inr _ => sret tt
      end in
  rejected command_id "offline-command-unsupported"
    (str "offline image host did not perform this target operation").

(** The reducer of a session that is not known yet. *)
Definition ensure_machine (session_id : Z) : host_op unit :=
  λ h, match oh_machine h with
       | Some _ => (Ok tt, h)
       | None =>
           match SessionMachine_new (oh_next_instance h) session_id (oh_provisioning_epoch h)
                   (oh_helper_build h) with
           | Ok machine =>
               (Ok tt, oh_set_instance (oh_next_instance h + 1) (oh_set_machine (Some machine) h))
           | Err e => (transport_protocol (to_string e), h)
           | Panic p => (Panic p, h)
           end
       end.

Definition handle_command (envelope : CommandEnvelope) : host_op (list HostFrame) :=
  let command_id := ce_command_id envelope in
  do! offline_observe_command_id command_id in
  if is_probe (ce_command envelope) then handle_capability_probe command_id
  else
    let! session_id := slift match ce_session_id envelope with
                             | Some session_id => Ok session_id
                             | None => transport_protocol (str "session command omitted session id")
                             end in
    do! ensure_machine session_id in
    do! sread (λ h, if match oh_machine h with
                       | Some machine => negb (m_session_id machine =? session_id)
                       | None => false
                       end
                    then transport_protocol (str "connection already owns a different session")
                    else Ok tt) in
    match ce_command envelope with
    | DC.Open (DTR.Offline target) => handle_open envelope command_id target
    | DC.ReadMemory view address size => handle_read envelope command_id view address size
    | DC.Close _ => handle_close envelope command_id
    | DC.ProbeCapabilities => slift (Panic "internal error: entered unreachable code: handled above")
    | _ => reject_unsupported envelope command_id
    end.

(** ** Exchanges *)

(** The answer to a hello. *)
Definition acknowledge (request : HostFrame) : host_op (list HostFrame) :=
  do! slift (if negb (bool_decide (hf_raw request = []))
             then transport_protocol (str "handshake request carried raw payload")
             else Ok tt) in
  let! acknowledgement := λ h,
    let '(r, handshake) := handshake_accept (hf_header request) (oh_handshake h) in
    (as_protocol r, oh_set_handshake handshake h) in
  let! acknowledgement := slift match acknowledgement with
                                | Some frame => Ok frame
                                | None => transport_protocol (str "unexpected handshake direction")
                                end in
  let! frame := slift (as_protocol (HostFrame_new acknowledgement [])) in
  sret [frame].

Definition exchange_inner (request : HostFrame) : host_op (list HostFrame) :=
  do! sread (λ h, fail_if (oh_disconnected h) HTE.Disconnected) in
  do! sread (λ h, if negb (fh_sequence (hf_header request) =? oh_next_command_frame_sequence h)
                  then transport_protocol
                         (str "expected frame sequence "
                          ++ format_d (oh_next_command_frame_sequence h) ++ str ", received "
                          ++ format_d (fh_sequence (hf_header request)))
                  else Ok tt) in
  let! next := sread (λ h, match checked_add u64_max (oh_next_command_frame_sequence h) 1 with
                           | Some next => Ok next
                           | None => transport_protocol (str "frame sequence overflow")
                           end) in
  do! supd (oh_set_command_frame next) in
  let! handshake := sget oh_handshake in
  if negb (bool_decide (bh_state handshake = HS.Established)) then acknowledge request
  else
    do! slift (if negb (bool_decide (bh_negotiated_version handshake
                                     = Some (fh_version (hf_header request))))
               then transport_protocol
                      (str "command frame version differs from negotiated handshake version")
               else Ok tt) in
    let! envelope := slift (as_protocol (decode_command_frame request)) in
    handle_command envelope.

Definition offline_abort (reason : ControlShutdownReason) (h : OfflineImageDebugHost)
    : OfflineImageDebugHost :=
  if oh_disconnected h then h else oh_set_disconnected reason h.

Definition offline_exchange (request : HostFrame) (limits : HostResponseLimits)
    : host_op HostResponseBatch :=
  λ h, let '(r, h) := exchange_inner request h in
       match r with
       | Err e => (Err e, offline_abort CSR.ProtocolFailure h)
       | Panic p => (Panic p, h)
       | Ok frames =>
           match try_from_frames frames limits with
           | Ok batch => (Ok batch, h)
           | Err e => (Err (HTE.ResponseBudget e), offline_abort CSR.ProtocolFailure h)
           | Panic p => (Panic p, h)
           end
       end.

Definition offline_release (session_id : Z) : host_op unit :=
  let! machine := sread machine_ref in
  do! slift (if negb (m_session_id machine =? session_id)
                || negb (bool_decide (state_kind (m_state machine) = SSK.Closed))
             then transport_protocol (str "offline session release was not reducer-confirmed")
             else Ok tt) in
  supd (oh_set_machine None).

Definition offline_shutdown (reason : ControlShutdownReason) : host_op unit :=
  supd (offline_abort reason).

(** [Drop]. *)
Definition offline_drop (h : OfflineImageDebugHost) : OfflineImageDebugHost :=
  if oh_disconnected h then h else offline_abort CSR.ClientDropped h.

#[export] Instance offline_host_exchange : HostFrameExchange OfflineImageDebugHost := {
  exchange := offline_exchange;
  poll_inbound := poll_inbound_default;
  release_session := offline_release;
  shutdown_control := offline_shutdown;
  abort_control := offline_abort
}.
End host.
