(* ===== verification/OfflineHostTheory.v ===== *)
(** Theorems about the offline image host: whatever frames it is sent, it never panics,
    never runs a target and never changes its image; and a client connected to it reads
    exactly the bytes of the image. *)

From S2P Require Import Prelude Identity Sandbox SandboxPolicyTheory SandboxLifecycle Protocol.
From S2P Require Import ProtocolTheory Authorization SessionMachine SessionInvariant.
From S2P Require Import SessionCommands SessionWorlds SessionTheorems SessionEvidence.
From S2P Require Import LivePatchHistory HostWire HostWireTheory HostHandshakeTheory HostCodec.
From S2P Require Import HostCodecTheory HostResponse HostEvidence HostEvidenceTheory HostReading.
From S2P Require Import HostSettling HostExchangeTheory HostProvenance HostClient HostClientTheory.
From S2P Require Import SymbolGraph ElfAnalysis AddressSpace AddressSpaceTheory OfflineImage OfflineHost.
Open Scope Z_scope.

(** The reader of documents builds commands through the constructors of their types. *)
Definition typed_documents `{Json CommandControl} : Prop :=
  ∀ bytes c, json_from_slice bytes = inl c → typed_command (ce_command (cc_envelope c)).

Lemma no_panic_decode_command `{Json CommandControl} f : no_panic (decode_command_frame f).
Proof.
  unfold decode_command_frame, decode_json_frame, attach_command, json_result, require_protocol_version,
    require_empty_placeholders, require_absent_raw_address, require_no_raw.
  pose proof no_panic_header_validate. pose proof no_panic_split_pair. no_panic.
Qed.

Lemma decoded_typed `{Json CommandControl} f e :
  typed_documents → decode_command_frame f = Ok e → typed_command (ce_command e).
Proof.
  intros Ht Hd. unfold decode_command_frame in Hd. unbind Hd control Hc. unbind Hd u1 K1.
  unbind Hd e' He. unbind Hd u2 K2. injection Hd as <-.
  assert (typed_command (ce_command (cc_envelope control))) as Hty.
  { unfold decode_json_frame in Hc. unbind Hc u3 K3. unbind Hc u4 K4.
    unbind Hc bytes K5. unfold json_result in Hc. destruct (json_from_slice bytes) eqn:Hj; [|done]. injection Hc as ->.
    by eapply Ht. }
  unfold attach_command in He. destruct (cc_raw_layout control), (ce_command (cc_envelope control)) eqn:Hcmd;
    try done; unbind He u5 K5; try (injection He as <-; by rewrite Hcmd).
  unbind He u6 K6. unbind He halves K7. destruct halves. by injection He as <-.
Qed.

Lemma transport_protocol_err {A} detail : ∃ e, transport_protocol (A := A) detail = Err e.
Proof.
  unfold transport_protocol, bounded_transport_detail.
  destruct (DiagnosticText_new detail); cbn [result_bind]; [by eexists|..];
    (destruct (DiagnosticText_new (str "invalid or overlong transport diagnostic")) eqn:Hd;
     [by eexists|exfalso; revert Hd; vm_compute; discriminate..]).
Qed.

Lemma no_panic_protocol {A} detail : no_panic (transport_protocol (A := A) detail).
Proof. by destruct (transport_protocol_err (A := A) detail) as [e ->]. Qed.

#[local] Hint Resolve no_panic_protocol : nopanic.

Lemma no_panic_as_protocol {A E} `{Display E} (r : result A E) : no_panic r → no_panic (as_protocol r).
Proof. intros Hr. unfold as_protocol. destruct r; [done|apply no_panic_protocol|by edestruct Hr]. Qed.

Lemma as_protocol_ok {A E} `{Display E} (r : result A E) a : as_protocol r = Ok a ↔ r = Ok a.
Proof.
  unfold as_protocol. destruct r; [naive_solver| |done].
  destruct (transport_protocol_err (A := A) (to_string e)) as [? ->]. done.
Qed.

(** The goal that a read of the host does not panic. *)
Ltac calm :=
  match goal with |- ∀ p, ?r ≠ Panic p => change (no_panic r) end; cbv beta; no_panic.

Section host.
Context `{Sha256Spec} `{Json CommandControl} `{Json EventControl}.
Context `{Display HandshakeError} `{Display HostCodecError} `{Display WireError}.
Context `{Display SessionMachineError} `{Display ProtocolValidationError}.
Context (image : VerifiedOfflineImage).

Abbreviation host_op A := (smonad OfflineImageDebugHost HostTransportError A).

(** ** The invariant *)

(** The target of the session is the image of the host. *)
Definition opened_image (m : SessionMachine) : Prop :=
  ∃ t, m_target m = Some (DTR.Offline t)
       ∧ path_eqb (offline_path t) (oi_origin_path image) = true.

(** A reducer between commands: nothing is pending and nothing was ever run. *)
Definition host_at_rest (m : SessionMachine) : Prop :=
  m_pending_remote_command m = None
  ∧ (state_kind (m_state m) = SSK.Idle
     ∨ state_kind (m_state m) = SSK.Offline ∧ opened_image m
     ∨ state_kind (m_state m) = SSK.Closed).

(** The image is the host's and its reducer was driven only by its own calls. *)
Definition loose (h : OfflineImageDebugHost) : Prop :=
  oh_image h = image ∧ ∀ m, oh_machine h = Some m → alive None m.

Definition resting (h : OfflineImageDebugHost) : Prop :=
  loose h ∧ ∀ m, oh_machine h = Some m → host_at_rest m.

Definition host_ok (h : OfflineImageDebugHost) : Prop :=
  loose h ∧ (oh_disconnected h = false → ∀ m, oh_machine h = Some m → host_at_rest m).

(** What events do not change. *)
Definition core (h : OfflineImageDebugHost) : VerifiedOfflineImage * option SessionMachine :=
  (oh_image h, oh_machine h).

Lemma core_loose h h' : core h' = core h → loose h → loose h'.
Proof. unfold core, loose. by intros [= -> ->]. Qed.

Lemma core_resting h h' : core h' = core h → resting h → resting h'.
Proof. unfold core, resting, loose. by intros [= -> ->]. Qed.

Lemma loose_machine m h : loose h → alive None m → loose (oh_set_machine (Some m) h).
Proof. intros [Hi _] Hm. split; [done|]. by intros ? [= <-]. Qed.

Lemma resting_machine m h :
  loose h → alive None m → host_at_rest m → resting (oh_set_machine (Some m) h).
Proof. intros Hl Hm Hr. split; [by apply loose_machine|]. by intros ? [= <-]. Qed.

Lemma host_at_rest_visible m m' :
  visible m' = visible m → m_pending_remote_command m' = None → host_at_rest m → host_at_rest m'.
Proof.
  intros Hv Hp [_ Hk]. pose proof (f_equal v_state Hv) as Hs. pose proof (f_equal v_target Hv) as Ht.
  cbn in Hs, Ht. split; [done|]. unfold opened_image. by rewrite Hs, Ht.
Qed.

(** ** Events *)

(** The frame is the encoding of an envelope with the event. *)
Definition says (f : HostFrame) (event : DebugEvent) : Prop :=
  ∃ sequence e, encode_event_frame sequence e = Ok f ∧ ee_event e = event.

Lemma next_event_spec h :
  wp next_event_sequence (λ _ h', core h' = core h) (λ _ h', core h' = core h) h.
Proof.
  unfold next_event_sequence. wp_step.
  apply wp_read; [intros s _|done|apply no_panic_as_protocol; unfold EventSequence_new, nonzero_id_new; no_panic].
  wp_step. apply wp_read; [intros n _|done|calm]. by do 3 wp_step.
Qed.

Lemma push_encoded_spec frames e h :
  wp (push_encoded_event frames e)
    (λ fs h', core h' = core h ∧ ∃ f, fs = frames ++ [f] ∧ says f (ee_event e))
    (λ _ h', core h' = core h) h.
Proof.
  unfold push_encoded_event. wp_step.
  apply wp_read; [intros s _|done|apply no_panic_as_protocol; unfold FrameSequence_new; no_panic].
  wp_step. apply wp_lift; [|done|apply no_panic_as_protocol, no_panic_encode_event].
  intros f Hf%as_protocol_ok. wp_step. apply wp_read; [intros n _|done|calm]. do 3 wp_step.
  split; [done|]. exists f. split; [done|]. by exists s, e.
Qed.

Lemma push_global_spec frames id event h :
  wp (push_global_event frames id event)
    (λ fs h', core h' = core h ∧ ∃ f, fs = frames ++ [f] ∧ says f event)
    (λ _ h', core h' = core h) h.
Proof.
  unfold push_global_event. wp_step. eapply wp_mono; [apply next_event_spec|..|done].
  intros s h1 K1. eapply wp_mono; [apply push_encoded_spec|..]; cbn; rewrite <-K1; done.
Qed.

Lemma push_session_spec frames id event h :
  wp (push_session_event frames id event)
    (λ fs h', core h' = core h ∧ ∃ f, fs = frames ++ [f] ∧ says f event)
    (λ _ h', core h' = core h) h.
Proof.
  unfold push_session_event. wp_step. apply wp_read; [intros m _|done|unfold machine_ref; calm].
  wp_step. eapply wp_mono; [apply next_event_spec|..|done].
  intros s h1 K1. eapply wp_mono; [apply push_encoded_spec|..]; cbn; rewrite <-K1; done.
Qed.

(** The answer is a refusal, with this code. *)
Definition refuses_with (id : Z) (code : list Z) (frames : list HostFrame) : Prop :=
  ∃ f message, frames = [f] ∧ says f (DE.CommandResult id (CommandOutcome.Rejected code message)).

Lemma rejected_spec id code message h :
  wp (rejected id code message) (λ frames h', core h' = core h ∧ refuses_with id (str code) frames)
    (λ _ h', core h' = core h) h.
Proof.
  unfold rejected. eapply wp_mono; [apply push_session_spec|..|done].
  intros fs h' [Hc (f & -> & Hf)]. split; [done|]. by exists f, (bounded_text message).
Qed.

(** ** The reducer *)

Lemma wp_on_machine {A} (op : smonad SessionMachine SessionMachineError A) Q QE m h :
  oh_machine h = Some m →
  wp op (λ a m', Q a (oh_set_machine (Some m') h)) (λ _ m', ∀ e, QE e (oh_set_machine (Some m') h)) m →
  wp (on_machine op) Q QE h.
Proof.
  intros Hm Hw. unfold wp, on_machine in *. rewrite Hm. destruct (op m) as [[a|e|p] m']; [done| |done].
  cbn [as_protocol]. by destruct (transport_protocol_err (A := A) (to_string e)) as [e' ->].
Qed.

(** A command in flight: what the reducer was when it was accepted. *)
Definition underway (envelope : CommandEnvelope) (cp : RemoteCommandCheckpoint) (m m1 : SessionMachine)
    (h : OfflineImageDebugHost) : Prop :=
  oh_image h = image ∧ oh_machine h = Some m1 ∧ host_at_rest m ∧ begun envelope m cp m1
  ∧ alive (Some cp) m1.

Lemma flight_loose envelope cp m m1 h : underway envelope cp m m1 h → loose h.
Proof.
  intros (Hi & Hm & _ & _ & Ha). split; [done|]. rewrite Hm. intros ? [= <-]. by apply (alive_none (Some cp)).
Qed.

Lemma host_begin_spec envelope h :
  resting h → typed_command (ce_command envelope) →
  wp (host_begin envelope)
    (λ b h', match b with
             | inl cp => ∃ m m1, underway envelope cp m m1 h'
             | inr _ => resting h'
             end) (λ _ h', loose h') h.
Proof.
  intros [Hl Hr] Ht. unfold host_begin, wp. destruct (oh_machine h) as [m|] eqn:Hm.
  2: { split; [done|]. by rewrite Hm. }
  pose proof (begin_alive envelope m (proj2 Hl m Hm) Ht) as Hw. specialize (Hr m eq_refl).
  unfold wp in Hw. destruct (begin_remote_command envelope m) as [[cp|e|p] m1]; [| |done].
  - exists m, m1. by split; [apply Hl|].
  - destruct Hw as [[_ _ Hv Hp _ _] Ha]. apply resting_machine; [done..|].
    apply (host_at_rest_visible m); [done| |done]. rewrite Hp. apply Hr.
Qed.

Lemma host_reject_spec envelope cp m m1 h :
  underway envelope cp m m1 h →
  wp (host_reject cp (ce_command_id envelope)) (λ _ h', resting h') (λ _ h', loose h') h.
Proof.
  intros Hf. pose proof (flight_loose _ _ _ _ _ Hf) as Hl. destruct Hf as (Hi & Hm & Hr & Hb & Ha).
  unfold host_reject. wp_step. apply (wp_on_machine _ _ _ m1); [done|].
  eapply wp_mono; [by apply reject_alive|..].
  - intros a m' [Ha' ->]. wp_step. apply resting_machine; [done..|].
    apply (host_at_rest_visible m); [|done|done]. pose proof (beg_visible _ _ _ _ Hb) as Hv. done.
  - intros e m' Ha' e'. by apply loose_machine.
Qed.

(** Committing keeps the reducer but for the pending command. *)
Lemma host_commit_spec cp id m1 h :
  loose h → oh_machine h = Some m1 → alive (Some cp) m1 →
  wp (host_commit cp id)
    (λ _ h', h' = oh_set_machine (Some (set_pending_remote_command None m1)) h
             ∧ alive None (set_pending_remote_command None m1)) (λ _ h', loose h') h.
Proof.
  intros Hl Hm Ha. unfold host_commit. wp_step. apply (wp_on_machine _ _ _ m1); [done|].
  eapply wp_mono; [by apply commit_alive|..].
  - intros a m' [Ha' ->]. by wp_step.
  - intros e m' Ha' e'. by apply loose_machine.
Qed.

(** ** Commands *)

Abbreviation keeps_resting op Q :=
  (∀ h, resting h → wp op (λ frames h', resting h' ∧ Q frames) (λ _ h', loose h') h).

Lemma rejected_rests id code message : keeps_resting (rejected id code message) (refuses_with id (str code)).
Proof.
  intros h Hr. eapply wp_mono; [apply rejected_spec|..].
  - intros frames h' [Hc Hf]. split; [by apply (core_resting h)|done].
  - intros e h' Hc. by apply (core_loose h), Hr.
Qed.

Lemma reject_and_refuse envelope cp m m1 code message h :
  underway envelope cp m m1 h →
  wp (do! host_reject cp (ce_command_id envelope) in rejected (ce_command_id envelope) code message)
    (λ frames h', resting h' ∧ refuses_with (ce_command_id envelope) (str code) frames)
    (λ _ h', loose h') h.
Proof.
  intros Hf. wp_step. eapply wp_mono; [by eapply host_reject_spec|..|done].
  intros u h' Hr. by apply rejected_rests.
Qed.

Lemma succeeded_spec frames id h :
  wp (push_succeeded frames id)
    (λ fs h', core h' = core h
              ∧ ∃ f, fs = frames ++ [f] ∧ says f (DE.CommandResult id CommandOutcome.Succeeded))
    (λ _ h', core h' = core h) h.
Proof. apply push_session_spec. Qed.

(** The last event of a command that leaves the host resting. *)
Lemma finish_rests frames id h (P : list HostFrame → Prop) :
  resting h →
  (∀ f, says f (DE.CommandResult id CommandOutcome.Succeeded) → P (frames ++ [f])) →
  wp (push_succeeded frames id) (λ fs h', resting h' ∧ P fs) (λ _ h', loose h') h.
Proof.
  intros Hr HP. eapply wp_mono; [apply succeeded_spec|..].
  - intros fs h' [Hc (f & -> & Hf)]. split; [by apply (core_resting h)|by apply HP].
  - intros e h' Hc. by apply (core_loose h), Hr.
Qed.

(** The reducer after the two state changes of the host. *)
Lemma open_offline_run m s m' :
  complete_open_offline m = (Ok s, m') → state_kind (m_state m') = SSK.Offline.
Proof.
  unfold complete_open_offline, transition_to. intros Hr. unrun Hr u0 s0 K0. unrun Hr next s1 K1.
  unrun Hr u2 s2 K2. unrun K2 u3 s3 K3. unfold supd in K2. injection K2 as _ <-.
  unfold sget in Hr. by injection Hr as _ <-.
Qed.

Lemma close_closes receipt m s m' :
  complete_close receipt m = (Ok s, m') → state_kind (m_state m') = SSK.Closed.
Proof.
  unfold complete_close, transition_to. intros Hr. unrun Hr u0 s0 K0. unrun Hr next s1 K1.
  unrun Hr u2 s2 K2. unrun Hr u3 s3 K3. unrun Hr u4 s4 K4. unrun Hr u5 s5 K5. unrun K5 u6 s6 K6.
  unfold supd in K5. injection K5 as _ <-. unfold sget in Hr. by injection Hr as _ <-.
Qed.

(** A state change of a command in flight, its commit and its events. *)
Lemma complete_spec (op : session_op SessionState) call envelope cp m m1 events h
    (P : list HostFrame → Prop) :
  session_exec call = plain op → keeps frame op → (∀ w, admissible w call) →
  (∀ s m', op m1 = (Ok s, m') → frame m' = frame m1 →
     host_at_rest (set_pending_remote_command None m')) →
  (∀ fs, P fs) → underway envelope cp m m1 h →
  wp (let! next := on_machine op in
      do! host_commit cp (ce_command_id envelope) in
      let! events := push_session_event events (ce_command_id envelope) (DE.StateChanged next) in
      push_succeeded events (ce_command_id envelope))
    (λ frames h', resting h' ∧ P frames) (λ _ h', loose h') h.
Proof.
  intros Hx Hk Ha Hrest HP Hf. pose proof (flight_loose _ _ _ _ _ Hf) as Hl.
  destruct Hf as (Hi & Hm & Hr & Hb & Hal). wp_step. apply (wp_on_machine _ _ _ m1); [done|].
  eapply wp_mono; [by apply wp_eq, (alive_plain op call (Some cp) m1)|..].
  2: { intros e m' (Ha' & _) e'. apply loose_machine; [done|by apply (alive_none (Some cp))]. }
  intros s m' [[Ha' Hfr] Hrun]. set (h1 := oh_set_machine (Some m') h).
  assert (loose h1) as Hl1 by (apply loose_machine; [done|by apply (alive_none (Some cp))]).
  wp_step. eapply wp_mono; [by apply (host_commit_spec cp _ m' h1)|..|done].
  intros u h2 [-> Ha2]. set (h2 := oh_set_machine _ h1).
  assert (resting h2) as Hr2 by (apply resting_machine; [done..|by eapply Hrest]).
  wp_step. eapply wp_mono; [apply push_session_spec|..].
  - intros fs h3 [Hc _]. apply finish_rests; [by apply (core_resting h2)|done].
  - intros e h3 Hc. by apply (core_loose h2), Hr2.
Qed.

Lemma flight_core envelope cp m m1 h h' :
  core h' = core h → underway envelope cp m m1 h → underway envelope cp m m1 h'.
Proof. unfold core, underway. by intros [= -> ->]. Qed.

(** The event that names the accepted state, before it changes again. *)
Lemma announce_spec envelope cp m m1 h (k : list HostFrame → host_op (list HostFrame)) Q :
  underway envelope cp m m1 h →
  (∀ fs h', underway envelope cp m m1 h' → wp (k fs) Q (λ _ h', loose h') h') →
  wp (let! machine := sread machine_ref in
      let! events := push_session_event [] (ce_command_id envelope)
                       (DE.StateChanged (m_state machine)) in k events)
    Q (λ _ h', loose h') h.
Proof.
  intros Hf Hk. wp_step. apply wp_read; [intros machine _| |unfold machine_ref; calm].
  2: { intros e _. by eapply flight_loose. }
  wp_step. eapply wp_mono; [apply push_session_spec|..].
  - intros fs h' [Hc _]. by apply Hk, (flight_core _ _ _ _ h).
  - intros e h' Hc. by apply (core_loose h), (flight_loose envelope cp m m1).
Qed.

Abbreviation serves envelope op Q :=
  (∀ h, resting h → typed_command (ce_command envelope) →
     wp op (λ frames h', resting h' ∧ Q frames) (λ _ h', loose h') h).

Lemma begin_refused envelope (k : RemoteCommandCheckpoint → host_op (list HostFrame)) h :
  resting h → typed_command (ce_command envelope) →
  ∀ Q : list HostFrame → Prop,
  (∀ frames, refuses_with (ce_command_id envelope) (str "command-rejected") frames → Q frames) →
  (∀ cp m m1 h', underway envelope cp m m1 h' →
     wp (k cp) (λ frames h', resting h' ∧ Q frames) (λ _ h', loose h') h') →
  wp (let! begun := host_begin envelope in
      match begun with
      | inr error => rejected (ce_command_id envelope) "command-rejected" error
      | inl checkpoint => k checkpoint
      end) (λ frames h', resting h' ∧ Q frames) (λ _ h', loose h') h.
Proof.
  intros Hr Ht Q HQ Hk. wp_step. eapply wp_mono; [by apply host_begin_spec|..|done].
  intros [cp|error] h'; [intros (m & m1 & Hf); by eapply Hk|]. intros Hr'.
  eapply wp_mono; [by apply rejected_rests|..|done]. intros frames h2 [? Hf]. split; [done|]. by apply HQ.
Qed.

Lemma open_serves envelope target :
  ce_command envelope = DC.Open (DTR.Offline target) →
  serves envelope (handle_open envelope (ce_command_id envelope) target) (λ _, True).
Proof.
  intros Hc h Hr Ht. unfold handle_open. apply (begin_refused envelope); [done..|].
  intros cp m m1 h' Hf. do 2 wp_step. destruct (path_eqb _ _) eqn:Hp; cbn [negb].
  2: { eapply wp_mono; [by eapply reject_and_refuse|..|done]. by intros frames h2 [? _]. }
  apply (announce_spec envelope cp m m1); [done|]. intros fs h2 Hf2.
  eapply (complete_spec _ OpenOffline); [done|apply open_offline_frame|done|..|done|done].
  intros s m' Hrun Hfr. split; [done|]. right; left. split; [exact (open_offline_run m1 s m' Hrun)|].
  destruct Hf as (Hi & _ & _ & Hb & _). apply begun_target in Hb. rewrite Hc in Hb.
  exists target. rewrite <-Hi. split; [|done]. unfold frame in Hfr. cbn. destruct Hb. congruence.
Qed.

Lemma close_serves envelope state :
  ce_command envelope = DC.Close state →
  serves envelope (handle_close envelope (ce_command_id envelope)) (λ _, True).
Proof.
  intros Hc h Hr Ht. unfold handle_close. apply (begin_refused envelope); [done..|].
  intros cp m m1 h' Hf. apply (announce_spec envelope cp m m1); [done|]. intros fs h2 Hf2.
  eapply (complete_spec _ (CompleteClose None)); [done|apply close_frame|done|..|done|done].
  intros s m' Hrun Hfr. split; [done|]. right; right. exact (close_closes _ m1 s m' Hrun).
Qed.

Lemma unsupported_serves envelope :
  serves envelope (reject_unsupported envelope (ce_command_id envelope)) (λ _, True).
Proof.
  intros h Hr Ht. unfold reject_unsupported. wp_step.
  eapply wp_mono; [by apply host_begin_spec|..|done]. intros b h' Hb. wp_step.
  eapply (wp_mono _ (λ _ h', resting h') _ (λ _ h', loose h')).
  - destruct b as [cp|error]; [|by wp_step]. destruct Hb as (m & m1 & Hf). by eapply host_reject_spec.
  - intros u h2 Hr2. eapply wp_mono; [by apply rejected_rests|..|done]. by intros frames h3 [? _].
  - done.
Qed.

(** The answer to a read: a refusal, which blames the range only when the image has no
    such bytes, or the bytes of the image and the success. *)
Definition read_answered (id : Z) (view : ReadViewToken) (address size : Z) (frames : list HostFrame)
    : Prop :=
  (∃ code, refuses_with id code frames
     ∧ (code = str "offline-range-unavailable" → ∃ e, read_rva image address size = Err e))
  ∨ ∃ bytes f1 f2, read_rva image address size = Ok bytes ∧ frames = [f1; f2]
      ∧ says f1 (DE.MemoryRead view address bytes)
      ∧ says f2 (DE.CommandResult id CommandOutcome.Succeeded).

(** Accepting a read changes nothing but the identifiers. *)
Lemma begun_read envelope view address size cp m m1 :
  ce_command envelope = DC.ReadMemory view address size → begun envelope m cp m1 →
  visible m1 = visible m.
Proof.
  intros Hc Hb. pose proof (acc_effect _ _ _ (beg_accepted _ _ _ _ Hb)) as He. rewrite Hc in He.
  apply (f_equal snd) in He. exact (f_equal visible (eq_sym He)).
Qed.

Lemma read_serves (Hi : image_ok image) envelope view address size :
  ce_command envelope = DC.ReadMemory view address size →
  serves envelope (handle_read envelope (ce_command_id envelope) view address size)
    (read_answered (ce_command_id envelope) view address size).
Proof.
  intros Hc h Hr Ht. unfold handle_read. apply (begin_refused envelope); [done..| |].
  { intros frames Hf. left. eexists. by split. }
  intros cp m m1 h' Hf.
  assert (∀ code message, (str code = str "offline-range-unavailable" → ∃ e, read_rva image address size = Err e) →
    wp (do! host_reject cp (ce_command_id envelope) in rejected (ce_command_id envelope) code message)
      (λ frames h', resting h' ∧ read_answered (ce_command_id envelope) view address size frames)
      (λ _ h', loose h') h') as Href.
  { intros code message He. eapply wp_mono; [by eapply reject_and_refuse|..|done].
    intros frames h2 [? ?]. split; [done|]. left. by exists (str code). }
  destruct (negb _); [by apply Href|]. do 2 wp_step. pose proof Hf as (-> & Hm & Hrest & Hb & Ha).
  destruct (read_rva image address size) as [bytes|e|p] eqn:Hread.
  2: { apply Href. eauto. }
  2: { by edestruct read_rva_no_panic. }
  wp_step. eapply wp_mono; [eapply host_commit_spec; [by eapply flight_loose|done|done]|..|done].
  intros u h2 [-> Ha2]. set (h2 := oh_set_machine _ h').
  assert (resting h2) as Hr2.
  { apply resting_machine; [by eapply flight_loose|done|]. apply (host_at_rest_visible m); [|done|done].
    exact (begun_read _ _ _ _ _ _ _ Hc Hb). }
  wp_step. eapply wp_mono; [apply push_session_spec|..].
  - intros fs h3 [Hc3 (f1 & -> & Hf1)]. apply finish_rests; [by apply (core_resting h2)|].
    intros f2 Hf2. right. by exists bytes, f1, f2.
  - intros e h3 Hc3. by apply (core_loose h2), Hr2.
Qed.

Lemma probe_serves id h :
  resting h → wp (handle_capability_probe id) (λ _ h', resting h') (λ _ h', loose h') h.
Proof.
  intros Hr. unfold handle_capability_probe. wp_step. eapply wp_mono; [apply push_global_spec|..].
  2: { intros e h' Hc. by apply (core_loose h), Hr. }
  intros fs h1 [Hc1 _]. eapply wp_mono; [apply push_global_spec|..].
  - intros fs' h2 [Hc2 _]. apply (core_resting h); [congruence|done].
  - intros e h2 Hc2. apply (core_loose h); [congruence|apply Hr].
Qed.

Lemma ensure_serves id h :
  resting h → wp (ensure_machine id) (λ _ h', resting h') (λ _ h', loose h') h.
Proof.
  intros Hr. unfold ensure_machine, wp. destruct (oh_machine h) eqn:Hm; [done|].
  unfold SessionMachine_new. destruct (StateGeneration_new 1) as [g|e|p] eqn:Hg;
    [|exfalso; revert Hg; vm_compute; discriminate..].
  cbn [result_bind map_err expect]. destruct Hr as [[Hi _] _]. 
  assert (∀ m, SessionMachine_new (oh_next_instance h) id (oh_provisioning_epoch h) (oh_helper_build h)
               = Ok m → alive None m) as Ha.
  { intros m Hn. exists []. split; [done|]. by eapply reach_new. }
  unfold SessionMachine_new in Ha. rewrite Hg in Ha. cbn [result_bind map_err expect] in Ha.
  split; [split|]; cbn; [done|..]; intros m [= <-]; [by apply Ha|]. split; [done|by left].
Qed.

Lemma command_serves (Hi : image_ok image) envelope :
  serves envelope (handle_command envelope)
    (λ frames, ∀ view address size, ce_command envelope = DC.ReadMemory view address size →
       read_answered (ce_command_id envelope) view address size frames).
Proof.
  intros h Hr Ht. unfold handle_command, offline_observe_command_id. cbn zeta. wp_step. wp_step.
  apply wp_check; [no_panic|intros _|intros; apply Hr]. wp_step.
  assert (resting (oh_set_last_command (ce_command_id envelope) h)) as Hr1 by exact Hr.
  destruct (is_probe (ce_command envelope)) eqn:Hp.
  { eapply wp_mono; [by apply probe_serves|..|done]. intros frames h' Hr'. split; [done|].
    intros view address size Hc. by rewrite Hc in Hp. }
  wp_step. apply wp_lift; [intros sid _|intros; apply Hr|calm]. wp_step.
  eapply wp_mono; [by apply ensure_serves|..|done]. intros u h2 Hr2. wp_step.
  apply wp_check; [no_panic|intros _|intros; apply Hr2].
  match goal with |- wp _ ?post _ _ => set (Q := post) end.
  assert (∀ op : host_op (list HostFrame), serves envelope op (λ _, True) →
    (∀ v a s, ce_command envelope ≠ DC.ReadMemory v a s) → wp op Q (λ _ h', loose h') h2) as Hq.
  { intros op Ho Hn. eapply wp_mono; [by apply Ho|..|done]. intros frames h' [? _]. split; [done|].
    intros v a s Hc. by destruct (Hn v a s). }
  destruct (ex_intro (λ c, ce_command envelope = c) _ eq_refl) as [c Hc]. rewrite Hc.
  destruct c as [|target| | | |view address size| | | | | | | | |];
    try (apply Hq; [apply unsupported_serves|by rewrite Hc]).
  - by rewrite Hc in Hp.
  - apply Hq; [|by rewrite Hc]. destruct target; try apply unsupported_serves. by apply open_serves.
  - eapply wp_mono; [by apply (read_serves Hi)|..|done].
    intros frames h' [? Ha]. split; [done|]. rewrite Hc. by intros ??? [= <- <- <-].
  - apply Hq; [|by rewrite Hc]. by eapply close_serves.
Qed.

(** ** Exchanges *)

(** A frame that carries a command is no hello. *)
Lemma command_no_hello f e hello :
  decode_command_frame f = Ok e → fh_body (hf_header f) ≠ HelloBody hello.
Proof.
  intros Hd Hb. unfold decode_command_frame, decode_json_frame in Hd. unbind Hd control Hc.
  unbind Hc u1 K1. unbind Hc u2 K2. unbind Hc bytes K3. by rewrite Hb in K3.
Qed.

Lemma acknowledge_spec request h :
  wp (acknowledge request)
    (λ _ h', core h' = core h ∧ ∃ hello, fh_body (hf_header request) = HelloBody hello)
    (λ _ h', core h' = core h) h.
Proof.
  unfold acknowledge. wp_step. apply wp_lift_check; [no_panic|intros _|done]. wp_step. unfold wp at 1.
  destruct (exec_cases (CallAccept (hf_header request)) (oh_handshake h)) as [(o & hs & He & Ha)|[e He]];
    cbn [handshake_exec] in He; rewrite He; cbn [as_protocol].
  2: { by destruct (transport_protocol_err (A := option FrameHeader) (to_string e)) as [e' ->]. }
  apply accept_inner_ok in Ha as (hello & Ha). wp_step. apply wp_lift; [intros ack _|done|calm].
  wp_step. apply wp_lift; [intros f _|done|].
  2: { apply no_panic_as_protocol, no_panic_host_frame. }
  wp_step. split; [done|]. exists hello. unfold from_peer in Ha. tauto.
Qed.

(** What an exchange answers to a command that reads. *)
Definition reads_answered (request : HostFrame) (frames : list HostFrame) : Prop :=
  ∀ e view address size, decode_command_frame request = Ok e →
    ce_command e = DC.ReadMemory view address size →
    read_answered (ce_command_id e) view address size frames.

Lemma exchange_inner_spec (Hi : image_ok image) (Ht : typed_documents) request h :
  host_ok h →
  wp (exchange_inner request) (λ frames h', resting h' ∧ reads_answered request frames)
    (λ _ h', loose h') h.
Proof.
  intros [Hl Hr]. unfold exchange_inner. wp_step. wp_step; [|done].
  assert (resting h) as Hh by (split; [done|by apply Hr]). wp_step.
  apply wp_check; [no_panic|intros _|done]. wp_step. apply wp_read; [intros next _|done|calm].
  do 4 wp_step. match goal with |- wp _ _ _ ?x => set (h1 := x) end.
  assert (resting h1) as Hh1 by exact Hh. destruct (negb _).
  - eapply wp_mono; [apply acknowledge_spec|..].
    + intros frames h' [Hc [hello Hb]]. split; [by apply (core_resting h1)|].
      intros e view address size Hd. by destruct (command_no_hello _ _ hello Hd).
    + intros e h' Hc. by apply (core_loose h1), Hh1.
  - wp_step. apply wp_lift_check; [no_panic|intros _|done]. wp_step.
    apply wp_lift; [|done|apply no_panic_as_protocol, no_panic_decode_command].
    intros e He%as_protocol_ok. eapply wp_mono; [apply (command_serves Hi); [done|by eapply decoded_typed]|..|done].
    intros frames h' [Hr' Ha]. split; [done|]. intros e' view address size He' Hc.
    rewrite He in He'. injection He' as <-. by apply Ha.
Qed.

Lemma abort_ok reason h : loose h → host_ok (offline_abort reason h).
Proof.
  intros Hl. unfold offline_abort. destruct (oh_disconnected h) eqn:Hd; [|by split].
  split; [done|congruence].
Qed.

Lemma abort_stays reason h : host_ok h → host_ok (offline_abort reason h).
Proof. intros [Hl _]. by apply abort_ok. Qed.

Lemma offline_exchange_spec (Hi : image_ok image) (Ht : typed_documents) request limits h :
  host_ok h →
  wp (offline_exchange request limits)
    (λ batch h', host_ok h' ∧ reads_answered request (rb_frames batch)) (λ _ h', host_ok h') h.
Proof.
  intros Hh. pose proof (exchange_inner_spec Hi Ht request h Hh) as Hw. unfold wp, offline_exchange in *.
  destruct (exchange_inner request h) as [[frames|e|p] h']; [|by apply abort_ok|done].
  destruct Hw as [Hr Ha]. destruct (try_from_frames frames limits) as [batch|e|p] eqn:Hb.
  - apply try_from_frames_ok in Hb as [-> _]. split; [|done]. split; [apply Hr|intros _; apply Hr].
  - apply abort_ok, Hr.
  - by destruct (no_panic_try_from_frames _ _ _ Hb).
Qed.

Lemma release_spec session_id h :
  host_ok h → wp (offline_release session_id) (λ _ h', host_ok h') (λ _ h', host_ok h') h.
Proof.
  intros Hh. unfold offline_release. wp_step. apply wp_read; [intros m _|done|unfold machine_ref; calm].
  wp_step. apply wp_lift_check; [no_panic|intros _|done]. wp_step. destruct Hh as [[Hi _] _]. by split.
Qed.

(** The host keeps what a client asks of its transport. *)
Lemma offline_host_quiet :
  image_ok image → typed_documents → quiet_transport (T := OfflineImageDebugHost) host_ok.
Proof.
  intros Hi Ht. split.
  - intros frame limits h Hh. pose proof (offline_exchange_spec Hi Ht frame limits h Hh) as Hw.
    unfold wp in Hw. cbn [exchange offline_host_exchange].
    by destruct (offline_exchange frame limits h) as [[] ?]; [destruct Hw|..].
  - by intros wait limits h Hh.
  - intros sid h Hh. pose proof (release_spec sid h Hh) as Hw. unfold wp in Hw.
    cbn [release_session offline_host_exchange]. by destruct (offline_release sid h) as [[] ?].
  - intros reason h Hh. split; [done|]. by apply abort_stays.
  - intros reason h. apply abort_stays.
Qed.

(** ** Runs of the host *)

Inductive host_call : Type :=
  | HostExchange (request : HostFrame) (limits : HostResponseLimits)
  | HostRelease (session_id : Z)
  | HostShutdown (reason : ControlShutdownReason)
  | HostAbort (reason : ControlShutdownReason)
  | HostDrop.

Definition host_exec (call : host_call) : host_op unit :=
  match call with
  | HostExchange request limits => discarded (offline_exchange request limits)
  | HostRelease session_id => offline_release session_id
  | HostShutdown reason => offline_shutdown reason
  | HostAbort reason => supd (offline_abort reason)
  | HostDrop => supd offline_drop
  end.

Inductive host_reachable : OfflineImageDebugHost → Prop :=
  | host_new host_build controller_build epoch helper instance h :
      OfflineImageDebugHost_new image host_build controller_build epoch helper instance = Ok h →
      host_reachable h
  | host_step h call : host_reachable h → host_reachable (host_exec call h).2.

Lemma new_host_ok host_build controller_build epoch helper instance h :
  OfflineImageDebugHost_new image host_build controller_build epoch helper instance = Ok h → host_ok h.
Proof. unfold OfflineImageDebugHost_new. intros Hn. unbind Hn hs K0. by injection Hn as <-. Qed.

Lemma host_exec_ok (Hi : image_ok image) (Ht : typed_documents) call h :
  host_ok h → wp (host_exec call) (λ _ h', host_ok h') (λ _ h', host_ok h') h.
Proof.
  intros Hh. destruct call; cbn [host_exec].
  - unfold discarded. wp_step. eapply wp_mono; [by apply offline_exchange_spec|..|done].
    intros batch h' [? _]. by wp_step.
  - by apply release_spec.
  - unfold offline_shutdown. wp_step. by apply abort_stays.
  - wp_step. by apply abort_stays.
  - wp_step. unfold offline_drop. destruct (oh_disconnected h); [done|by apply abort_stays].
Qed.

Lemma host_reachable_ok (Hi : image_ok image) (Ht : typed_documents) h : host_reachable h → host_ok h.
Proof.
  induction 1 as [????? h Hn|h call _ IH]; [by eapply new_host_ok|].
  pose proof (host_exec_ok Hi Ht call h IH) as Hw. unfold wp in Hw. by destruct (host_exec call h) as [[] ?].
Qed.

(** C16: the offline host never runs anything.  Whatever frames it is sent and however it is
    called: no call panics, its image never changes, and its session was driven only
    through the reducer's own calls.  While it is connected no command is left in flight
    and the session is idle, open on exactly the host's own image, or closed; nothing was
    launched, attached to or written.  Once disconnected it answers nothing more. *)
Theorem offline_host_never_executes h call :
  image_ok image → typed_documents → host_reachable h →
  host_ok h ∧ no_panic (host_exec call h).1
  ∧ (oh_disconnected h = true →
     ∀ request limits, offline_exchange request limits h = (Err HTE.Disconnected, h)).
Proof.
  intros Hi Ht Hr. pose proof (host_reachable_ok Hi Ht h Hr) as Hh. split; [done|]. split.
  - pose proof (host_exec_ok Hi Ht call h Hh) as Hw. intros p. by eapply wp_no_panic.
  - intros Hd request limits. unfold offline_exchange, exchange_inner, sbind, sread. rewrite Hd.
    cbn [fail_if]. unfold offline_abort. by rewrite Hd.
Qed.

(** ** A client of the host *)

Lemma says_decoded f event e :
  (∀ e, carries (event_document e)) → says f event → decodes f e → ee_event e = event.
Proof.
  intros Hc (sequence & e0 & He & <-) Hd. apply decode_encoded_event in He; [|done].
  unfold decodes in Hd. congruence.
Qed.

(** The events of a receipt whose response is one refusal. *)
Lemma refusal_read id code frames observed events front last outcome :
  (∀ e, carries (event_document e)) → refuses_with id code frames →
  Forall2 decodes frames (observed ++ events) → events = front ++ [last] →
  ee_event last = DE.CommandResult id outcome → ∃ message, outcome = CommandOutcome.Rejected code message.
Proof.
  intros Hc (f & message & -> & Hs) Hf -> Hl. rewrite (assoc_L (++)) in Hf.
  apply Forall2_cons_inv_l in Hf as (e & es & Hd & Hf & Heq). apply Forall2_nil_inv_l in Hf as ->.
  apply (app_inj_tail _ []) in Heq as [_ <-].
  apply (says_decoded _ _ _ Hc Hs) in Hd. rewrite Hd in Hl. injection Hl as <-. eauto.
Qed.

(** The events of a receipt whose response is an event and the success. *)
Lemma success_read id event f1 f2 observed events front last outcome :
  (∀ e, carries (event_document e)) → says f1 event →
  says f2 (DE.CommandResult id CommandOutcome.Succeeded) →
  Forall2 decodes [f1; f2] (observed ++ events) → events = front ++ [last] →
  ee_event last = DE.CommandResult id outcome →
  outcome = CommandOutcome.Succeeded
  ∧ (events = [last] ∨ ∃ e1, events = [e1; last] ∧ ee_event e1 = event).
Proof.
  intros Hc Hs1 Hs2 Hf -> Hl. rewrite (assoc_L (++)) in Hf.
  apply Forall2_cons_inv_l in Hf as (e1 & es & Hd1 & Hf & Heq).
  apply Forall2_cons_inv_l in Hf as (e2 & es' & Hd2 & Hf & ->). apply Forall2_nil_inv_l in Hf as ->.
  apply (says_decoded _ _ _ Hc Hs1) in Hd1. apply (says_decoded _ _ _ Hc Hs2) in Hd2.
  apply (app_inj_tail _ [e1]) in Heq as [Heq <-]. split; [congruence|].
  destruct front as [|e front]; [by left|right]. destruct observed as [|o observed]; simpl in Heq.
  - injection Heq as -> ->. eauto.
  - injection Heq as _ Heq. by destruct observed.
Qed.

(** C15: a client of the offline host reads the image.  When a read submitted over the host
    protocol succeeds, the client has received two events: the bytes read, for the view
    and the address it asked for, and the command result; and these bytes are the bytes of
    the image at every address of the range.  When it is refused because of its range, the
    image has no such bytes. *)
Theorem offline_reads_exact c view address size receipt c' :
  image_ok image → typed_documents → (∀ e, carries (command_document e)) →
  (∀ e, carries (event_document e)) →
  client_reachable (T := OfflineImageDebugHost) host_ok c → 0 ≤ address → 0 ≤ size →
  submit (DC.ReadMemory view address size) c = (Ok receipt, c') →
  match cre_outcome receipt with
  | CommandOutcome.Succeeded =>
      ∃ read result bytes, cre_events receipt = [read; result]
        ∧ ee_event read = DE.MemoryRead view address bytes
        ∧ image_bytes_at image address size bytes
  | CommandOutcome.Rejected code message =>
      code = str "offline-range-unavailable" → ∀ bytes, ¬ image_bytes_at image address size bytes
  end.
Proof.
  intros Hi Ht Hcc Hec Hreach Ha Hs Hsub. pose proof (offline_host_quiet Hi Ht) as Hq.
  pose proof (reachable_ok host_ok Hq c Hreach) as Hok.
  pose proof (submit_spec host_ok Hq (DC.ReadMemory view address size) c Hok I) as Hw. unfold wp in Hw.
  rewrite Hsub in Hw. destruct Hw as [_ (s & s' & _ & _ & Hr & (request & batch & observed & Henc & Hex & Hev & _) & _)].
  pose proof (offline_exchange_spec Hi Ht request DEFAULT_HOST_RESPONSE_LIMITS _ (co_transport _ _ Hok)) as Hx.
  unfold wp in Hx. cbn [exchange offline_host_exchange] in Hex. rewrite Hex in Hx. destruct Hx as [_ Hx].
  apply decode_encoded_command in Henc; [|done]. specialize (Hx _ view address size Henc eq_refl).
  destruct (rk_result _ _ _ _ Hr) as (front & last & Heq & _ & Hlast).
  destruct Hx as [(code & Href & Hblame)|(bytes & f1 & f2 & Hread & Hfr & Hf1 & Hf2)].
  - destruct (refusal_read _ _ _ _ _ _ _ _ Hec Href Hev Heq Hlast) as [message ->].
    intros Hcode bytes Hb. destruct (Hblame Hcode) as [e He].
    apply read_rva_complete in Hb; [congruence|done|done].
  - rewrite Hfr in Hev.
    destruct (success_read _ _ _ _ _ _ _ _ _ Hec Hf1 Hf2 Hev Heq Hlast) as [Hout Hes]. rewrite Hout.
    destruct Hes as [Hes|(e1 & Hes & He1)].
    + destruct (rk_evidence _ _ _ _ Hr Hout MemoryReadSeen eq_refl) as [event Hevent].
      rewrite Hes in Hevent. unfold evidence_of in Hevent.
      rewrite filter_cons_False in Hevent by (by rewrite Hlast). done.
    + exists e1, last, bytes. split; [done|]. split; [done|]. by apply read_rva_sound.
Qed.
End host.
