(* ===== verification/SoftwareBreakpoint.v ===== *)
(** The software-breakpoint planner of [software_breakpoint.rs]: exact one-byte
    compare/replace plans, one pending operation at a time, a table that moves
    only on an exact success report, and cleanup evidence frozen at the first
    mismatch. *)

From stdpp Require Import sorting.
From S2P Require Import Prelude Identity Protocol.
Open Scope Z_scope.

Definition INT3_OPCODE : Z := 204.
Definition MAX_SOFTWARE_BREAKPOINTS : Z := 1024.

(** ** Plans *)

Definition SoftwareBreakpointOperationId_new (value : Z) : result Z unit :=
  if value =? 0 then Err tt else Ok value.

Inductive SoftwareBreakpointAction : Type :=
  | ArmAction | RestoreAction | RearmAction | RemoveAction.
#[global] Instance SoftwareBreakpointAction_eq_dec : EqDecision SoftwareBreakpointAction.
Proof. solve_decision. Defined.

Record SoftwareBreakpointBytePlan : Type := mkBytePlan {
  byp_operation_id : Z;
  byp_session_id : Z;
  byp_stop_token : StopToken;
  byp_breakpoint : BreakpointSpec;
  byp_expected_byte : Z;
  byp_replacement_byte : Z
}.

Module SBP.
Inductive action_plan : Type :=
  | Arm (plan : SoftwareBreakpointBytePlan)
  | Restore (plan : SoftwareBreakpointBytePlan)
  | Rearm (plan : SoftwareBreakpointBytePlan)
  | Remove (plan : SoftwareBreakpointBytePlan).
End SBP.
Abbreviation SoftwareBreakpointActionPlan := SBP.action_plan.

Definition plan_action (p : SoftwareBreakpointActionPlan) : SoftwareBreakpointAction :=
  match p with
  | SBP.Arm _ => ArmAction
  | SBP.Restore _ => RestoreAction
  | SBP.Rearm _ => RearmAction
  | SBP.Remove _ => RemoveAction
  end.

Definition plan_bytes (p : SoftwareBreakpointActionPlan) : SoftwareBreakpointBytePlan :=
  match p with
  | SBP.Arm plan | SBP.Restore plan | SBP.Rearm plan | SBP.Remove plan => plan
  end.

Definition plan_operation_id (p : SoftwareBreakpointActionPlan) : Z :=
  byp_operation_id (plan_bytes p).

Record SoftwareBreakpointActionAcknowledgement : Type := mkActionAck {
  ak_action : SoftwareBreakpointAction;
  ak_operation_id : Z;
  ak_session_id : Z;
  ak_stop_token : StopToken;
  ak_breakpoint : BreakpointSpec;
  ak_expected_byte : Z;
  ak_replacement_byte : Z
}.

Record SoftwareBreakpointSingleStepAcknowledgement : Type := mkSingleStepAck {
  ss_session_id : Z;
  ss_breakpoint_id : Z;
  ss_restore_operation_id : Z;
  ss_hit_stop_token : StopToken;
  ss_stepped_stop_token : StopToken
}.

Inductive SoftwareBreakpointAcknowledgement : Type :=
  | ActionAck (a : SoftwareBreakpointActionAcknowledgement)
  | SingleStepAck (a : SoftwareBreakpointSingleStepAcknowledgement).

(** ** The table *)

Inductive SoftwareBreakpointPhase : Type :=
  | Armed | AwaitingSingleStep | ReadyToRearm.
#[global] Instance SoftwareBreakpointPhase_eq_dec : EqDecision SoftwareBreakpointPhase.
Proof. solve_decision. Defined.

(** [BreakpointEntry]; its public snapshot has the same fields. *)
Record BreakpointEntry : Type := mkBreakpointEntry {
  en_breakpoint : BreakpointSpec;
  en_original_byte : Z;
  en_persistence : BreakpointPersistence;
  en_phase : SoftwareBreakpointPhase;
  en_acknowledged_byte_stop_token : StopToken;
  en_restore_operation_id : option Z;
  en_single_step_stop_token : option StopToken
}.

Record SoftwareBreakpointSnapshot : Type := mkBreakpointSnapshot {
  sn_breakpoint : BreakpointSpec;
  sn_original_byte : Z;
  sn_persistence : BreakpointPersistence;
  sn_phase : SoftwareBreakpointPhase;
  sn_acknowledged_byte_stop_token : StopToken;
  sn_restore_operation_id : option Z;
  sn_single_step_stop_token : option StopToken
}.

Definition snapshot (e : BreakpointEntry) : SoftwareBreakpointSnapshot :=
  mkBreakpointSnapshot (en_breakpoint e) (en_original_byte e) (en_persistence e) (en_phase e)
    (en_acknowledged_byte_stop_token e) (en_restore_operation_id e) (en_single_step_stop_token e).

Module SBT.
Inductive transition : Type :=
  | Armed (breakpoint_id : Z)
  | RestoredForSingleStep (breakpoint_id : Z)
  | TemporaryRemoved (breakpoint_id : Z)
  | Rearmed (breakpoint_id : Z)
  | Removed (breakpoint_id : Z).
End SBT.
Abbreviation SoftwareBreakpointTransition := SBT.transition.

Module SBJ.
Inductive rejection : Type :=
  | Duplicate (operation_id : Z)
  | OutOfOrder (expected : option Z) (actual : Z)
  | WrongSession (expected actual : Z)
  | WrongStopToken (expected actual : StopToken)
  | PayloadMismatch.
End SBJ.
Abbreviation SoftwareBreakpointAcknowledgementRejection := SBJ.rejection.

Record SoftwareBreakpointCleanupEvidence : Type := mkCleanupEvidence {
  cl_session_id : Z;
  cl_acknowledged_breakpoints : list SoftwareBreakpointSnapshot;
  cl_uncertain_operation : option SoftwareBreakpointActionPlan
}.

Record SoftwareBreakpointPoisonEvidence : Type := mkPoisonEvidence {
  pe_rejection : SoftwareBreakpointAcknowledgementRejection;
  pe_received : SoftwareBreakpointAcknowledgement;
  pe_cleanup : SoftwareBreakpointCleanupEvidence
}.

Module SBE.
Inductive breakpoint_error : Type :=
  | InvalidCapacity (requested maximum : Z)
  | OriginalByteIsInt3
  | NotSoftwareBreakpoint
  | InvalidBreakpointSpec (e : ProtocolValidationError)
  | DuplicateBreakpointId (breakpoint_id : Z)
  | DuplicateAddress (address : Z)
  | CapacityExceeded (capacity : Z)
  | OperationPending (operation_id : Z)
  | UnknownBreakpoint (breakpoint_id : Z)
  | InvalidPhase (action : SoftwareBreakpointAction) (breakpoint_id : Z)
      (phase : SoftwareBreakpointPhase)
  | WrongSession (expected actual : Z)
  | StopTokenDidNotAdvance (previous actual : StopToken)
  | OperationIdExhausted
  | AcknowledgementRejected (r : SoftwareBreakpointAcknowledgementRejection)
  | Poisoned.
End SBE.
Abbreviation SoftwareBreakpointError := SBE.breakpoint_error.

Inductive PendingTransition : Type :=
  | PendingArm (entry : BreakpointEntry)
  | PendingRestore (breakpoint_id : Z)
  | PendingRearm (breakpoint_id : Z)
  | PendingRemove (breakpoint_id : Z).

Record PendingOperation : Type := mkPendingOperation {
  pn_plan : SoftwareBreakpointActionPlan;
  pn_transition : PendingTransition
}.

Record SoftwareBreakpointStateMachine : Type := mkBreakpointMachine {
  bm_session_id : Z;
  bm_capacity : Z;
  bm_next_operation_id : option Z;
  bm_last_acknowledged_operation : option Z;
  bm_breakpoints : gmap Z BreakpointEntry;
  bm_pending : option PendingOperation;
  bm_poison_evidence : option SoftwareBreakpointPoisonEvidence
}.

Definition bm_set_next (v : option Z) (m : SoftwareBreakpointStateMachine)
    : SoftwareBreakpointStateMachine :=
  mkBreakpointMachine (bm_session_id m) (bm_capacity m) v (bm_last_acknowledged_operation m)
    (bm_breakpoints m) (bm_pending m) (bm_poison_evidence m).
Definition bm_set_last (v : option Z) (m : SoftwareBreakpointStateMachine)
    : SoftwareBreakpointStateMachine :=
  mkBreakpointMachine (bm_session_id m) (bm_capacity m) (bm_next_operation_id m) v
    (bm_breakpoints m) (bm_pending m) (bm_poison_evidence m).
Definition bm_set_breakpoints (v : gmap Z BreakpointEntry) (m : SoftwareBreakpointStateMachine)
    : SoftwareBreakpointStateMachine :=
  mkBreakpointMachine (bm_session_id m) (bm_capacity m) (bm_next_operation_id m)
    (bm_last_acknowledged_operation m) v (bm_pending m) (bm_poison_evidence m).
Definition bm_set_pending (v : option PendingOperation) (m : SoftwareBreakpointStateMachine)
    : SoftwareBreakpointStateMachine :=
  mkBreakpointMachine (bm_session_id m) (bm_capacity m) (bm_next_operation_id m)
    (bm_last_acknowledged_operation m) (bm_breakpoints m) v (bm_poison_evidence m).
Definition bm_set_poison (v : option SoftwareBreakpointPoisonEvidence)
    (m : SoftwareBreakpointStateMachine) : SoftwareBreakpointStateMachine :=
  mkBreakpointMachine (bm_session_id m) (bm_capacity m) (bm_next_operation_id m)
    (bm_last_acknowledged_operation m) (bm_breakpoints m) (bm_pending m) v.

Abbreviation breakpoint_op A := (smonad SoftwareBreakpointStateMachine SoftwareBreakpointError A).

Definition with_capacity (session_id capacity : Z)
    : result SoftwareBreakpointStateMachine SoftwareBreakpointError :=
  if (capacity =? 0) || (MAX_SOFTWARE_BREAKPOINTS <? capacity)
  then Err (SBE.InvalidCapacity capacity MAX_SOFTWARE_BREAKPOINTS)
  else Ok (mkBreakpointMachine session_id capacity (Some 1) None ∅ None None).

(** [SoftwareBreakpointStateMachine::new]; it panics when the built-in capacity
    is refused. *)
Definition breakpoint_machine_new (session_id : Z)
    : result SoftwareBreakpointStateMachine SoftwareBreakpointError :=
  expect (with_capacity session_id MAX_SOFTWARE_BREAKPOINTS)
    "the built-in software-breakpoint capacity is valid".

(** ** Reading *)

Definition key_le {A} (x y : Z * A) : Prop := x.1 ≤ y.1.
#[global] Instance key_le_dec {A} : RelDecision (@key_le A).
Proof. intros x y. unfold key_le. apply _. Defined.

(** [BTreeMap::values]: the values in ascending key order. *)
Definition btree_values {A} (m : gmap Z A) : list A :=
  snd <$> merge_sort key_le (map_to_list m).

Definition bm_len (m : SoftwareBreakpointStateMachine) : Z := Z.of_nat (size (bm_breakpoints m)).

Definition is_poisoned (m : SoftwareBreakpointStateMachine) : bool :=
  match bm_poison_evidence m with Some _ => true | None => false end.

Definition pending_plan (m : SoftwareBreakpointStateMachine)
    : option SoftwareBreakpointActionPlan := pn_plan <$> bm_pending m.

Definition breakpoint (id : Z) (m : SoftwareBreakpointStateMachine)
    : option SoftwareBreakpointSnapshot := snapshot <$> bm_breakpoints m !! id.

Definition current_cleanup_evidence (m : SoftwareBreakpointStateMachine)
    : SoftwareBreakpointCleanupEvidence :=
  mkCleanupEvidence (bm_session_id m) (snapshot <$> btree_values (bm_breakpoints m))
    (pn_plan <$> bm_pending m).

Definition cleanup_evidence (m : SoftwareBreakpointStateMachine)
    : option SoftwareBreakpointCleanupEvidence := pe_cleanup <$> bm_poison_evidence m.

Definition cleanup_snapshot (m : SoftwareBreakpointStateMachine)
    : SoftwareBreakpointCleanupEvidence :=
  match bm_poison_evidence m with
  | None => current_cleanup_evidence m
  | Some evidence => pe_cleanup evidence
  end.

(** ** Checks *)

Definition require_healthy_and_idle (m : SoftwareBreakpointStateMachine)
    : result unit SoftwareBreakpointError :=
  if is_poisoned m then Err SBE.Poisoned
  else match bm_pending m with
  | Some pending => Err (SBE.OperationPending (plan_operation_id (pn_plan pending)))
  | None => Ok tt
  end.

Definition require_ready (stop_token : StopToken) (m : SoftwareBreakpointStateMachine)
    : result unit SoftwareBreakpointError :=
  do? require_healthy_and_idle m in
  let actual := st_session_id (stop_state stop_token) in
  if negb (actual =? bm_session_id m) then Err (SBE.WrongSession (bm_session_id m) actual)
  else Ok tt.

Definition require_breakpoint (breakpoint_id : Z) (m : SoftwareBreakpointStateMachine)
    : result BreakpointEntry SoftwareBreakpointError :=
  ok_or (bm_breakpoints m !! breakpoint_id) (SBE.UnknownBreakpoint breakpoint_id).

Definition require_phase (entry : BreakpointEntry) (action : SoftwareBreakpointAction)
    (required : SoftwareBreakpointPhase) : result unit SoftwareBreakpointError :=
  if bool_decide (en_phase entry = required) then Ok tt
  else Err (SBE.InvalidPhase action (bp_id (en_breakpoint entry)) (en_phase entry)).

Definition require_advanced_stop (previous actual : StopToken)
    : result unit SoftwareBreakpointError :=
  let generation_advanced :=
    st_generation (stop_state previous) <? st_generation (stop_state actual) in
  let stop_advanced := stop_id previous <? stop_id actual in
  if generation_advanced && stop_advanced then Ok tt
  else Err (SBE.StopTokenDidNotAdvance previous actual).

Definition require_current_or_advanced_stop (previous actual : StopToken)
    : result unit SoftwareBreakpointError :=
  if bool_decide (actual = previous) then Ok tt else require_advanced_stop previous actual.

Definition allocate_operation_id : breakpoint_op Z :=
  let! value := sread (λ m, ok_or (bm_next_operation_id m) SBE.OperationIdExhausted) in
  do! supd (bm_set_next (checked_add u64_max value 1)) in
  sret value.

Definition poison {A} (rejection : SoftwareBreakpointAcknowledgementRejection)
    (received : SoftwareBreakpointAcknowledgement) : breakpoint_op A :=
  let! cleanup := sget current_cleanup_evidence in
  do! supd (bm_set_poison (Some (mkPoisonEvidence rejection received cleanup))) in
  serr (SBE.AcknowledgementRejected rejection).

(** ** Planning *)

Definition plan_arm (stop_token : StopToken) (breakpoint : BreakpointSpec) (original_byte : Z)
    (persistence : BreakpointPersistence) : breakpoint_op SoftwareBreakpointActionPlan :=
  do! sread (require_ready stop_token) in
  do! slift (fail_if (negb (bool_decide (bp_kind breakpoint = Software)))
               SBE.NotSoftwareBreakpoint) in
  do! slift (map_err SBE.InvalidBreakpointSpec (breakpoint_validate breakpoint)) in
  do! slift (fail_if (original_byte =? INT3_OPCODE) SBE.OriginalByteIsInt3) in
  do! sread (λ m, fail_if (bool_decide (is_Some (bm_breakpoints m !! bp_id breakpoint)))
                    (SBE.DuplicateBreakpointId (bp_id breakpoint))) in
  do! sread (λ m, fail_if
                    (existsb (λ entry, bp_address (en_breakpoint entry) =? bp_address breakpoint)
                       (btree_values (bm_breakpoints m)))
                    (SBE.DuplicateAddress (bp_address breakpoint))) in
  do! sread (λ m, fail_if (bm_capacity m <=? bm_len m) (SBE.CapacityExceeded (bm_capacity m))) in
  let! operation_id := allocate_operation_id in
  let! session_id := sget bm_session_id in
  let bytes := mkBytePlan operation_id session_id stop_token breakpoint original_byte INT3_OPCODE in
  let plan := SBP.Arm bytes in
  let entry := mkBreakpointEntry breakpoint original_byte persistence Armed stop_token None None in
  do! supd (bm_set_pending (Some (mkPendingOperation plan (PendingArm entry)))) in
  sret plan.

Definition plan_restore_after_hit (breakpoint_id : Z) (hit_stop_token : StopToken)
    : breakpoint_op SoftwareBreakpointActionPlan :=
  do! sread (require_ready hit_stop_token) in
  let! entry := sread (require_breakpoint breakpoint_id) in
  do! slift (require_phase entry RestoreAction Armed) in
  do! slift (require_advanced_stop (en_acknowledged_byte_stop_token entry) hit_stop_token) in
  let! operation_id := allocate_operation_id in
  let! session_id := sget bm_session_id in
  let plan := SBP.Restore (mkBytePlan operation_id session_id hit_stop_token
                             (en_breakpoint entry) INT3_OPCODE (en_original_byte entry)) in
  do! supd (bm_set_pending (Some (mkPendingOperation plan (PendingRestore breakpoint_id)))) in
  sret plan.

Definition plan_rearm_after_single_step (breakpoint_id : Z)
    : breakpoint_op SoftwareBreakpointActionPlan :=
  do! sread require_healthy_and_idle in
  let! entry := sread (require_breakpoint breakpoint_id) in
  do! slift (require_phase entry RearmAction ReadyToRearm) in
  let! stepped_stop_token := slift (expect_some (en_single_step_stop_token entry)
    "ready-to-rearm state retains its correlated stop token") in
  let! operation_id := allocate_operation_id in
  let! session_id := sget bm_session_id in
  let plan := SBP.Rearm (mkBytePlan operation_id session_id stepped_stop_token
                           (en_breakpoint entry) (en_original_byte entry) INT3_OPCODE) in
  do! supd (bm_set_pending (Some (mkPendingOperation plan (PendingRearm breakpoint_id)))) in
  sret plan.

Definition plan_remove (breakpoint_id : Z) (stop_token : StopToken)
    : breakpoint_op SoftwareBreakpointActionPlan :=
  do! sread (require_ready stop_token) in
  let! entry := sread (require_breakpoint breakpoint_id) in
  do! slift (require_phase entry RemoveAction Armed) in
  do! slift (require_current_or_advanced_stop (en_acknowledged_byte_stop_token entry)
               stop_token) in
  let! operation_id := allocate_operation_id in
  let! session_id := sget bm_session_id in
  let plan := SBP.Remove (mkBytePlan operation_id session_id stop_token
                            (en_breakpoint entry) INT3_OPCODE (en_original_byte entry)) in
  do! supd (bm_set_pending (Some (mkPendingOperation plan (PendingRemove breakpoint_id)))) in
  sret plan.

(** ** Acknowledging *)

(** The later-stop correlation of a persistent breakpoint.  The source only
    looks at the [StopTokenDidNotAdvance] error of [require_advanced_stop],
    the one error it has. *)
Definition acknowledge_single_step (ack : SoftwareBreakpointSingleStepAcknowledgement)
    : breakpoint_op unit :=
  let received := SingleStepAck ack in
  do! sread (λ m, fail_if (is_poisoned m) SBE.Poisoned) in
  let! m := sget id in
  if bool_decide (is_Some (bm_pending m)) then poison SBJ.PayloadMismatch received
  else if negb (ss_session_id ack =? bm_session_id m)
  then poison (SBJ.WrongSession (bm_session_id m) (ss_session_id ack)) received
  else if negb (st_session_id (stop_state (ss_stepped_stop_token ack)) =? bm_session_id m)
  then poison (SBJ.WrongSession (bm_session_id m)
                 (st_session_id (stop_state (ss_stepped_stop_token ack)))) received
  else match bm_breakpoints m !! ss_breakpoint_id ack with
  | None => poison SBJ.PayloadMismatch received
  | Some entry =>
      if bool_decide (en_phase entry = ReadyToRearm)
         && bool_decide (en_restore_operation_id entry = Some (ss_restore_operation_id ack))
         && bool_decide (en_acknowledged_byte_stop_token entry = ss_hit_stop_token ack)
         && bool_decide (en_single_step_stop_token entry = Some (ss_stepped_stop_token ack))
      then poison (SBJ.Duplicate (ss_restore_operation_id ack)) received
      else if negb (bool_decide (en_phase entry = AwaitingSingleStep))
         || negb (bool_decide (en_restore_operation_id entry = Some (ss_restore_operation_id ack)))
      then poison SBJ.PayloadMismatch received
      else if negb (bool_decide (en_acknowledged_byte_stop_token entry = ss_hit_stop_token ack))
      then poison (SBJ.WrongStopToken (en_acknowledged_byte_stop_token entry)
                     (ss_hit_stop_token ack)) received
      else match require_advanced_stop (ss_hit_stop_token ack) (ss_stepped_stop_token ack) with
      | Err (SBE.StopTokenDidNotAdvance _ _) =>
          poison (SBJ.WrongStopToken (ss_hit_stop_token ack) (ss_stepped_stop_token ack)) received
      | _ =>
          let! entry := sread (λ m, expect_some (bm_breakpoints m !! ss_breakpoint_id ack)
            "validated single-step acknowledgement retains its breakpoint") in
          supd (λ m, bm_set_breakpoints
            (<[ss_breakpoint_id ack :=
               mkBreakpointEntry (en_breakpoint entry) (en_original_byte entry)
                 (en_persistence entry) ReadyToRearm (en_acknowledged_byte_stop_token entry)
                 (en_restore_operation_id entry) (Some (ss_stepped_stop_token ack))]>
              (bm_breakpoints m)) m)
      end
  end.

(** [last.is_some_and(|last| operation_id <= last)]. *)
Definition already_passed (last : option Z) (operation_id : Z) : bool :=
  match last with Some last => operation_id <=? last | None => false end.

Definition stale_or_reordered (last expected : option Z) (operation_id : Z)
    : SoftwareBreakpointAcknowledgementRejection :=
  if already_passed last operation_id then SBJ.Duplicate operation_id
  else SBJ.OutOfOrder expected operation_id.

(** The transition of an exactly acknowledged operation. *)
Definition apply_transition (expected : SoftwareBreakpointBytePlan) (t : PendingTransition)
    : breakpoint_op SoftwareBreakpointTransition :=
  match t with
  | PendingArm entry =>
      let id := bp_id (en_breakpoint entry) in
      do! supd (λ m, bm_set_breakpoints (<[id := entry]> (bm_breakpoints m)) m) in
      sret (SBT.Armed id)
  | PendingRestore id =>
      let! entry := sread (λ m, expect_some (bm_breakpoints m !! id)
                                  "pending restore retains its breakpoint") in
      match en_persistence entry with
      | Persistent =>
          do! supd (λ m, bm_set_breakpoints
            (<[id := mkBreakpointEntry (en_breakpoint entry) (en_original_byte entry)
                       (en_persistence entry) AwaitingSingleStep (byp_stop_token expected)
                       (Some (byp_operation_id expected)) None]> (bm_breakpoints m)) m) in
          sret (SBT.RestoredForSingleStep id)
      | Temporary =>
          do! supd (λ m, bm_set_breakpoints (delete id (bm_breakpoints m)) m) in
          sret (SBT.TemporaryRemoved id)
      end
  | PendingRearm id =>
      let! entry := sread (λ m, expect_some (bm_breakpoints m !! id)
                                  "pending rearm retains its breakpoint") in
      do! supd (λ m, bm_set_breakpoints
        (<[id := mkBreakpointEntry (en_breakpoint entry) (en_original_byte entry)
                   (en_persistence entry) Armed (byp_stop_token expected) None None]>
           (bm_breakpoints m)) m) in
      sret (SBT.Rearmed id)
  | PendingRemove id =>
      do! supd (λ m, bm_set_breakpoints (delete id (bm_breakpoints m)) m) in
      sret (SBT.Removed id)
  end.

Definition acknowledge_success (ack : SoftwareBreakpointActionAcknowledgement)
    : breakpoint_op SoftwareBreakpointTransition :=
  let received := ActionAck ack in
  do! sread (λ m, fail_if (is_poisoned m) SBE.Poisoned) in
  let! m := sget id in
  let last := bm_last_acknowledged_operation m in
  match bm_pending m with
  | None => poison (stale_or_reordered last None (ak_operation_id ack)) received
  | Some pending =>
      let expected := plan_bytes (pn_plan pending) in
      if negb (ak_operation_id ack =? byp_operation_id expected)
      then poison (stale_or_reordered last (Some (byp_operation_id expected))
                     (ak_operation_id ack)) received
      else if negb (ak_session_id ack =? byp_session_id expected)
      then poison (SBJ.WrongSession (byp_session_id expected) (ak_session_id ack)) received
      else if negb (bool_decide (ak_stop_token ack = byp_stop_token expected))
      then poison (SBJ.WrongStopToken (byp_stop_token expected) (ak_stop_token ack)) received
      else if negb (bool_decide (ak_action ack = plan_action (pn_plan pending)))
         || negb (bool_decide (ak_breakpoint ack = byp_breakpoint expected))
         || negb (ak_expected_byte ack =? byp_expected_byte expected)
         || negb (ak_replacement_byte ack =? byp_replacement_byte expected)
      then poison SBJ.PayloadMismatch received
      else
        do! supd (bm_set_pending None) in
        do! supd (bm_set_last (Some (byp_operation_id expected))) in
        apply_transition expected (pn_transition pending)
  end.
