(* ===== verification/SoftwareBreakpointTheory.v ===== *)
(** Theorems about the software-breakpoint planner of [SoftwareBreakpoint.v]:
    its table stays well formed and bounded, it moves on exact reports only and
    poisons for good on any other, and what it reports for cleanup always
    restores the bytes of the target. *)

From stdpp Require Import sorting.
From S2P Require Import Prelude Identity Protocol ProtocolTheory SoftwareBreakpoint TargetMemory.
Open Scope Z_scope.

(** ** Calls *)

Inductive breakpoint_call : Type :=
  | PlanArm (stop : StopToken) (spec : BreakpointSpec) (original : Z) (p : BreakpointPersistence)
  | PlanRestore (id : Z) (stop : StopToken)
  | PlanRearm (id : Z)
  | PlanRemove (id : Z) (stop : StopToken)
  | AckSuccess (ack : SoftwareBreakpointActionAcknowledgement)
  | AckSingleStep (ack : SoftwareBreakpointSingleStepAcknowledgement).

Definition discard {S E A} (c : smonad S E A) : smonad S E unit := do! c in sret tt.

Definition breakpoint_exec (c : breakpoint_call) : breakpoint_op unit :=
  match c with
  | PlanArm stop spec original p => discard (plan_arm stop spec original p)
  | PlanRestore id stop => discard (plan_restore_after_hit id stop)
  | PlanRearm id => discard (plan_rearm_after_single_step id)
  | PlanRemove id stop => discard (plan_remove id stop)
  | AckSuccess ack => discard (acknowledge_success ack)
  | AckSingleStep ack => acknowledge_single_step ack
  end.

Definition breakpoint_run (cs : list breakpoint_call) (m : SoftwareBreakpointStateMachine)
    : SoftwareBreakpointStateMachine :=
  foldl (λ m c, (breakpoint_exec c m).2) m cs.

(** The report of a backend that performed exactly the plan. *)
Definition ack_of (p : SoftwareBreakpointActionPlan) : SoftwareBreakpointActionAcknowledgement :=
  let b := plan_bytes p in
  mkActionAck (plan_action p) (byp_operation_id b) (byp_session_id b) (byp_stop_token b)
    (byp_breakpoint b) (byp_expected_byte b) (byp_replacement_byte b).

(** ** Invariant *)

Definition later_stop (a b : StopToken) : Prop :=
  st_generation (stop_state a) < st_generation (stop_state b) ∧ stop_id a < stop_id b.

Definition of_session (sid : Z) (t : StopToken) : Prop := st_session_id (stop_state t) = sid.

Definition entry_phase_ok (sid : Z) (e : BreakpointEntry) : Prop :=
  match en_phase e with
  | Armed => en_restore_operation_id e = None ∧ en_single_step_stop_token e = None
  | AwaitingSingleStep =>
      en_persistence e = Persistent ∧ is_Some (en_restore_operation_id e)
      ∧ en_single_step_stop_token e = None
  | ReadyToRearm =>
      en_persistence e = Persistent ∧ is_Some (en_restore_operation_id e)
      ∧ ∃ t, en_single_step_stop_token e = Some t ∧ of_session sid t
             ∧ later_stop (en_acknowledged_byte_stop_token e) t
  end.

Record entry_ok (sid id : Z) (e : BreakpointEntry) : Prop := {
  eo_id : bp_id (en_breakpoint e) = id;
  eo_kind : bp_kind (en_breakpoint e) = Software;
  eo_valid : breakpoint_validate (en_breakpoint e) = Ok tt;
  eo_original : en_original_byte e ≠ INT3_OPCODE;
  eo_session : of_session sid (en_acknowledged_byte_stop_token e);
  eo_phase : entry_phase_ok sid e
}.

Definition address_of (e : BreakpointEntry) : Z := bp_address (en_breakpoint e).

(** The byte operation on a retained breakpoint that is in phase [ph]. *)
Definition plans_entry (table : gmap Z BreakpointEntry) (b : SoftwareBreakpointBytePlan) (id : Z)
    (ph : SoftwareBreakpointPhase) (old new : BreakpointEntry → Z) : Prop :=
  ∃ e, table !! id = Some e ∧ en_phase e = ph ∧ byp_breakpoint b = en_breakpoint e
       ∧ byp_expected_byte b = old e ∧ byp_replacement_byte b = new e.

Definition int3 (_ : BreakpointEntry) : Z := INT3_OPCODE.

Definition transition_ok (m : SoftwareBreakpointStateMachine) (p : PendingOperation) : Prop :=
  let table := bm_breakpoints m in
  match pn_plan p, pn_transition p with
  | SBP.Arm b, PendingArm e =>
      entry_ok (bm_session_id m) (bp_id (en_breakpoint e)) e ∧ en_phase e = Armed
      ∧ byp_breakpoint b = en_breakpoint e ∧ byp_expected_byte b = en_original_byte e
      ∧ byp_replacement_byte b = INT3_OPCODE
      ∧ table !! bp_id (en_breakpoint e) = None
      ∧ (∀ i e', table !! i = Some e' → address_of e' ≠ address_of e)
      ∧ bm_len m < bm_capacity m
  | SBP.Restore b, PendingRestore id => plans_entry table b id Armed int3 en_original_byte
  | SBP.Rearm b, PendingRearm id => plans_entry table b id ReadyToRearm en_original_byte int3
  | SBP.Remove b, PendingRemove id => plans_entry table b id Armed int3 en_original_byte
  | _, _ => False
  end.

(** Operation identifiers below the next one are spent. *)
Definition spent_id (next : option Z) (id : Z) : Prop :=
  1 ≤ id ≤ u64_max ∧ ∀ n, next = Some n → id < n.

Record operation_ok (m : SoftwareBreakpointStateMachine) (p : PendingOperation) : Prop := {
  op_id : spent_id (bm_next_operation_id m) (plan_operation_id (pn_plan p));
  op_newer : ∀ l, bm_last_acknowledged_operation m = Some l → l < plan_operation_id (pn_plan p);
  op_session : byp_session_id (plan_bytes (pn_plan p)) = bm_session_id m;
  op_token : of_session (bm_session_id m) (byp_stop_token (plan_bytes (pn_plan p)));
  op_transition : transition_ok m p
}.

Record breakpoint_inv (m : SoftwareBreakpointStateMachine) : Prop := {
  bi_capacity : 1 ≤ bm_capacity m ≤ MAX_SOFTWARE_BREAKPOINTS;
  bi_size : bm_len m ≤ bm_capacity m;
  bi_entries : ∀ id e, bm_breakpoints m !! id = Some e → entry_ok (bm_session_id m) id e;
  bi_addresses : ∀ i j e e', bm_breakpoints m !! i = Some e → bm_breakpoints m !! j = Some e' →
                   address_of e = address_of e' → i = j;
  bi_next : ∀ n, bm_next_operation_id m = Some n → 1 ≤ n ≤ u64_max;
  bi_last : ∀ l, bm_last_acknowledged_operation m = Some l → spent_id (bm_next_operation_id m) l;
  bi_pending : ∀ p, bm_pending m = Some p → operation_ok m p;
  bi_poison : ∀ ev, bm_poison_evidence m = Some ev → pe_cleanup ev = current_cleanup_evidence m
}.

(** ** The table as a list *)

Lemma elem_of_btree_values {A} (m : gmap Z A) x : x ∈ btree_values m ↔ ∃ k, m !! k = Some x.
Proof.
  unfold btree_values. rewrite list_elem_of_fmap. setoid_rewrite merge_sort_Permutation.
  split.
  - intros ([k y] & -> & Hx). exists k. by apply elem_of_map_to_list in Hx.
  - intros [k Hx]. exists (k, x). split; [done|]. by apply elem_of_map_to_list.
Qed.

(** ** Invariant preservation *)

Lemma poison_inv m ev :
  breakpoint_inv m → pe_cleanup ev = current_cleanup_evidence m →
  breakpoint_inv (bm_set_poison (Some ev) m).
Proof.
  intros [] Hev. split; try done.
  - intros p Hp. by destruct (bi_pending0 p Hp).
  - by intros ? [= <-].
Qed.

Lemma poison_spec {A} r a m (Q : A → SoftwareBreakpointStateMachine → Prop)
    (QE : SoftwareBreakpointError → SoftwareBreakpointStateMachine → Prop) :
  QE (SBE.AcknowledgementRejected r)
    (bm_set_poison (Some (mkPoisonEvidence r a (current_cleanup_evidence m))) m) →
  wp (poison r a) Q QE m.
Proof. intros HQ. unfold poison. do 5 wp_step. exact HQ. Qed.

Lemma spent_next n id : spent_id (Some n) id → spent_id (checked_add u64_max n 1) id.
Proof.
  unfold spent_id. intros [? Hn]. split; [done|]. intros k Hk. autorewrite with rust in Hk.
  specialize (Hn n eq_refl). lia.
Qed.

Lemma spent_self n : 1 ≤ n ≤ u64_max → spent_id (checked_add u64_max n 1) n.
Proof. unfold spent_id. intros ?. split; [done|]. intros k Hk. autorewrite with rust in Hk. lia. Qed.

(** A machine with the operation [p] planned under the next identifier. *)
Definition planned (n : Z) (p : PendingOperation) (m : SoftwareBreakpointStateMachine)
    : SoftwareBreakpointStateMachine :=
  bm_set_pending (Some p) (bm_set_next (checked_add u64_max n 1) m).

Lemma planned_inv n p m :
  breakpoint_inv m → bm_poison_evidence m = None → bm_next_operation_id m = Some n →
  plan_operation_id (pn_plan p) = n →
  byp_session_id (plan_bytes (pn_plan p)) = bm_session_id m →
  of_session (bm_session_id m) (byp_stop_token (plan_bytes (pn_plan p))) →
  transition_ok m p → breakpoint_inv (planned n p m).
Proof.
  intros [Hc Hs He Ha Hn Hl Hp Hev] Hno Hnext Hid Hsid Htok Htr. split; try done; simpl.
  - intros k Hk. autorewrite with rust in Hk. specialize (Hn n Hnext). lia.
  - intros l Hll. apply spent_next. rewrite <-Hnext. by apply Hl.
  - intros ? [= <-]. split; simpl; [|..|done|done|done].
    + rewrite Hid. by apply spent_self, Hn.
    + intros l Hll. rewrite Hid. by apply (Hl l Hll).
  - rewrite Hno. done.
Qed.

Lemma ready_ok stop m u :
  require_ready stop m = Ok u →
  bm_poison_evidence m = None ∧ bm_pending m = None ∧ of_session (bm_session_id m) stop.
Proof.
  unfold require_ready, require_healthy_and_idle, is_poisoned, of_session. intros H.
  destruct (bm_poison_evidence m); [done|]. destruct (bm_pending m); [done|]. simpl in H.
  destruct (Z.eqb_spec (st_session_id (stop_state stop)) (bm_session_id m)); done.
Qed.

Lemma idle_ok m u :
  require_healthy_and_idle m = Ok u → bm_poison_evidence m = None ∧ bm_pending m = None.
Proof.
  unfold require_healthy_and_idle, is_poisoned. intros H.
  destruct (bm_poison_evidence m); [done|]. by destruct (bm_pending m).
Qed.

Lemma phase_check e a ph u : require_phase e a ph = Ok u ↔ en_phase e = ph.
Proof. unfold require_phase. case_bool_decide; by destruct u. Qed.

Lemma advanced_ok a b u : require_advanced_stop a b = Ok u ↔ later_stop a b.
Proof.
  unfold require_advanced_stop, later_stop. destruct u.
  destruct (Z.ltb_spec (st_generation (stop_state a)) (st_generation (stop_state b))),
    (Z.ltb_spec (stop_id a) (stop_id b)); simpl; naive_solver lia.
Qed.

Lemma no_panic_ready stop m : no_panic (require_ready stop m).
Proof. unfold require_ready, require_healthy_and_idle. no_panic. Qed.
Lemma no_panic_idle m : no_panic (require_healthy_and_idle m).
Proof. unfold require_healthy_and_idle. no_panic. Qed.
Lemma no_panic_phase e a ph : no_panic (require_phase e a ph).
Proof. unfold require_phase. no_panic. Qed.
Lemma no_panic_advanced a b : no_panic (require_advanced_stop a b).
Proof. unfold require_advanced_stop. no_panic. Qed.
Lemma no_panic_current a b : no_panic (require_current_or_advanced_stop a b).
Proof. unfold require_current_or_advanced_stop, require_advanced_stop. no_panic. Qed.
#[export] Hint Resolve no_panic_ready no_panic_idle no_panic_phase no_panic_advanced
  no_panic_current : nopanic.

(** What a planning call guarantees: on success it only reserved an identifier
    and the pending slot, on an error it did nothing. *)
Definition plan_outcome (m : SoftwareBreakpointStateMachine)
    (P : SoftwareBreakpointActionPlan → Prop) (plan : SoftwareBreakpointActionPlan)
    (m' : SoftwareBreakpointStateMachine) : Prop :=
  breakpoint_inv m' ∧ bm_poison_evidence m = None ∧ bm_pending m = None
  ∧ P plan
  ∧ ∃ t, m' = planned (plan_operation_id plan) (mkPendingOperation plan t) m.

(** The common tail of the four planning methods. *)
Definition finish_plan (mk : Z → Z → SoftwareBreakpointActionPlan) (t : PendingTransition)
    : breakpoint_op SoftwareBreakpointActionPlan :=
  let! operation_id := allocate_operation_id in
  let! session_id := sget bm_session_id in
  do! supd (bm_set_pending (Some (mkPendingOperation (mk operation_id session_id) t))) in
  sret (mk operation_id session_id).

Lemma finish_plan_spec mk t P m :
  breakpoint_inv m → bm_poison_evidence m = None → bm_pending m = None →
  (∀ n, let p := mk n (bm_session_id m) in
        P p ∧ plan_operation_id p = n
        ∧ byp_session_id (plan_bytes p) = bm_session_id m
        ∧ of_session (bm_session_id m) (byp_stop_token (plan_bytes p))
        ∧ transition_ok m (mkPendingOperation p t)) →
  wp (finish_plan mk t) (plan_outcome m P) (λ _ m', m' = m) m.
Proof.
  intros Hm Hno Hidle Hmk. unfold finish_plan, allocate_operation_id.
  do 2 wp_step. wp_step; [|done]. do 8 wp_step.
  destruct (Hmk a) as (Hact & Hid & Hsid & Htok & Htr).
  split; [by apply (planned_inv a (mkPendingOperation (mk a (bm_session_id m)) t) m)|].
  split; [done|]. split; [done|]. split; [done|]. exists t. simpl in Hid |- *. by rewrite Hid.
Qed.

(** ** Planning *)

(** What is planned: an arm of [spec] over [original], or a given action on a
    retained breakpoint. *)
Definition arms (spec : BreakpointSpec) (original : Z) (p : SoftwareBreakpointActionPlan) : Prop :=
  ∃ b, p = SBP.Arm b ∧ byp_breakpoint b = spec ∧ byp_expected_byte b = original.

Definition acts (act : SoftwareBreakpointAction) (p : SoftwareBreakpointActionPlan) : Prop :=
  plan_action p = act.

Lemma plan_arm_spec stop spec original pers m :
  breakpoint_inv m →
  wp (plan_arm stop spec original pers) (plan_outcome m (arms spec original))
    (λ _ m', m' = m) m.
Proof.
  intros Hm. unfold plan_arm. do 2 wp_step; [|done].
  match goal with H : require_ready _ _ = _ |- _ => apply ready_ok in H as (Hno & Hidle & Htok) end.
  do 2 wp_step; [|done]. wp_step. apply wp_lift_check; [auto with nopanic|intros Hval|done].
  do 2 wp_step; [|done]. do 2 wp_step; [|done]. do 2 wp_step; [|done]. do 2 wp_step; [|done].
  apply (finish_plan_spec
    (λ n s, SBP.Arm (mkBytePlan n s stop spec original INT3_OPCODE))
    (PendingArm (mkBreakpointEntry spec original pers Armed stop None None))); [done..|].
  intros n. autorewrite with rust in *.
  assert (bm_breakpoints m !! bp_id spec = None) by (by apply eq_None_not_Some).
  split; [by eexists|]. split_and!; try done. unfold transition_ok. simpl. split_and!; try done.
  - split; try done. by rust_ok.
  - intros i e' Hi. match goal with H : Forall _ (btree_values _) |- _ =>
      rewrite list.Forall_forall in H; specialize (H e'); rename H into Hfree end.
    rewrite elem_of_btree_values in Hfree. specialize (Hfree (ex_intro _ i Hi)).
    by autorewrite with rust in Hfree.
  - autorewrite with rust in *. lia.
Qed.

(** Planning over a retained breakpoint in phase [ph]. *)
Lemma plan_entry_spec mk t act id e ph old new stop m :
  breakpoint_inv m → bm_poison_evidence m = None → bm_pending m = None →
  bm_breakpoints m !! id = Some e → en_phase e = ph → of_session (bm_session_id m) stop →
  (∀ b, plan_bytes (mk b) = b ∧ plan_action (mk b) = act
        ∧ (plans_entry (bm_breakpoints m) b id ph old new →
           transition_ok m (mkPendingOperation (mk b) t))) →
  wp (finish_plan (λ n s, mk (mkBytePlan n s stop (en_breakpoint e) (old e) (new e))) t)
    (plan_outcome m (acts act)) (λ _ m', m' = m) m.
Proof.
  intros Hm Hno Hidle He Hph Htok Hmk. apply finish_plan_spec; [done..|].
  intros n p. destruct (Hmk (mkBytePlan n (bm_session_id m) stop (en_breakpoint e) (old e) (new e)))
    as (Hb & Ha & Ht).
  unfold p, plan_operation_id. rewrite Hb. split_and!; try done. apply Ht. by exists e.
Qed.

Lemma plan_restore_spec id stop m :
  breakpoint_inv m →
  wp (plan_restore_after_hit id stop) (plan_outcome m (acts RestoreAction)) (λ _ m', m' = m) m.
Proof.
  intros Hm. unfold plan_restore_after_hit, require_breakpoint. do 2 wp_step; [|done].
  match goal with H : require_ready _ _ = _ |- _ => apply ready_ok in H as (Hno & Hidle & Htok) end.
  do 2 wp_step; [|done]. wp_step. apply wp_lift_check; [auto with nopanic|intros Hph|done].
  wp_step. apply wp_lift_check; [auto with nopanic|intros Hadv|done]. apply phase_check in Hph.
  by apply (plan_entry_spec SBP.Restore _ RestoreAction id a Armed int3 en_original_byte).
Qed.

Lemma plan_remove_spec id stop m :
  breakpoint_inv m →
  wp (plan_remove id stop) (plan_outcome m (acts RemoveAction)) (λ _ m', m' = m) m.
Proof.
  intros Hm. unfold plan_remove, require_breakpoint. do 2 wp_step; [|done].
  match goal with H : require_ready _ _ = _ |- _ => apply ready_ok in H as (Hno & Hidle & Htok) end.
  do 2 wp_step; [|done]. wp_step. apply wp_lift_check; [auto with nopanic|intros Hph|done].
  wp_step. apply wp_lift_check; [auto with nopanic|intros Hadv|done]. apply phase_check in Hph.
  by apply (plan_entry_spec SBP.Remove _ RemoveAction id a Armed int3 en_original_byte).
Qed.

Lemma plan_rearm_spec id m :
  breakpoint_inv m →
  wp (plan_rearm_after_single_step id) (plan_outcome m (acts RearmAction)) (λ _ m', m' = m) m.
Proof.
  intros Hm. unfold plan_rearm_after_single_step, require_breakpoint. do 2 wp_step; [|done].
  match goal with H : require_healthy_and_idle _ = _ |- _ => apply idle_ok in H as (Hno & Hidle) end.
  do 2 wp_step; [|done]. wp_step. apply wp_lift_check; [auto with nopanic|intros Hph|done].
  apply phase_check in Hph.
  pose proof (eo_phase _ _ _ (bi_entries _ Hm id a ltac:(done))) as Hok. unfold entry_phase_ok in Hok.
  rewrite Hph in Hok. destruct Hok as (_ & _ & t & Ht & Htok & _).
  wp_step. rewrite Ht. apply wp_ret.
  by apply (plan_entry_spec SBP.Rearm _ RearmAction id a ReadyToRearm en_original_byte int3).
Qed.

(** ** Acknowledged operations *)

Definition awaiting (b : SoftwareBreakpointBytePlan) (e : BreakpointEntry) : BreakpointEntry :=
  mkBreakpointEntry (en_breakpoint e) (en_original_byte e) (en_persistence e) AwaitingSingleStep
    (byp_stop_token b) (Some (byp_operation_id b)) None.

Definition rearmed (b : SoftwareBreakpointBytePlan) (e : BreakpointEntry) : BreakpointEntry :=
  mkBreakpointEntry (en_breakpoint e) (en_original_byte e) (en_persistence e) Armed
    (byp_stop_token b) None None.

(** The table after the pending operation was acknowledged. *)
Definition acked_table (p : PendingOperation) (table : gmap Z BreakpointEntry)
    : gmap Z BreakpointEntry :=
  let b := plan_bytes (pn_plan p) in
  match pn_transition p with
  | PendingArm e => <[bp_id (en_breakpoint e) := e]> table
  | PendingRestore id =>
      match table !! id with
      | Some e => if bool_decide (en_persistence e = Persistent)
                  then <[id := awaiting b e]> table else delete id table
      | None => table
      end
  | PendingRearm id =>
      match table !! id with Some e => <[id := rearmed b e]> table | None => table end
  | PendingRemove id => delete id table
  end.

Definition acked (p : PendingOperation) (m : SoftwareBreakpointStateMachine)
    : SoftwareBreakpointStateMachine :=
  bm_set_breakpoints (acked_table p (bm_breakpoints m))
    (bm_set_last (Some (plan_operation_id (pn_plan p))) (bm_set_pending None m)).

Record table_ok (sid cap : Z) (table : gmap Z BreakpointEntry) : Prop := {
  to_size : Z.of_nat (size table) ≤ cap;
  to_entries : ∀ id e, table !! id = Some e → entry_ok sid id e;
  to_addresses : ∀ i j e e', table !! i = Some e → table !! j = Some e' →
                   address_of e = address_of e' → i = j
}.

Lemma inv_table m : breakpoint_inv m → table_ok (bm_session_id m) (bm_capacity m) (bm_breakpoints m).
Proof. intros []. by split. Qed.

Section table_ok.
Context (sid cap : Z) (table : gmap Z BreakpointEntry) (Ht : table_ok sid cap table).

Lemma table_ok_insert id e :
  table !! id = None → entry_ok sid id e → Z.of_nat (size table) < cap →
  (∀ i e', table !! i = Some e' → address_of e' ≠ address_of e) →
  table_ok sid cap (<[id := e]> table).
Proof.
  destruct Ht as [Hs He Ha]. intros Hn Hok Hlt Hfree. split.
  - rewrite map_size_insert_None by done. lia.
  - intros i x. rewrite lookup_insert_Some. naive_solver.
  - intros i j x y. rewrite !lookup_insert_Some. naive_solver.
Qed.

Lemma table_ok_update id e e' :
  table !! id = Some e → entry_ok sid id e' → address_of e' = address_of e →
  table_ok sid cap (<[id := e']> table).
Proof.
  destruct Ht as [Hs He Ha]. intros Hn Hok Haddr. split.
  - by rewrite map_size_insert_Some by eauto.
  - intros i x. rewrite lookup_insert_Some. naive_solver.
  - intros i j x y. rewrite !lookup_insert_Some. naive_solver congruence.
Qed.

Lemma table_ok_delete id : table_ok sid cap (delete id table).
Proof.
  destruct Ht as [Hs He Ha]. split.
  - rewrite map_size_delete. destruct (table !! id); simpl; lia.
  - intros i x. rewrite lookup_delete_Some. naive_solver.
  - intros i j x y. rewrite !lookup_delete_Some. naive_solver.
Qed.
End table_ok.

Lemma awaiting_ok sid id b e :
  entry_ok sid id e → en_persistence e = Persistent → of_session sid (byp_stop_token b) →
  entry_ok sid id (awaiting b e).
Proof. intros [] Hp Hs. by split; try done; unfold entry_phase_ok; simpl; eauto. Qed.

Lemma rearmed_ok sid id b e :
  entry_ok sid id e → of_session sid (byp_stop_token b) → entry_ok sid id (rearmed b e).
Proof. intros [] Hs. by split. Qed.

Lemma acked_table_ok m p :
  breakpoint_inv m → operation_ok m p →
  table_ok (bm_session_id m) (bm_capacity m) (acked_table p (bm_breakpoints m)).
Proof.
  intros Hm [_ _ _ Htok Htr]. pose proof (inv_table m Hm) as Ht.
  unfold transition_ok, acked_table, plans_entry, bm_len in *. destruct p as [plan t]. simpl in *.
  destruct plan, t; try done.
  - destruct_and?. by apply table_ok_insert.
  - destruct Htr as (e & He & Hph & _). rewrite He. case_bool_decide.
    + eapply table_ok_update; [done..| |done]. by apply awaiting_ok; [apply Hm|..].
    + by apply table_ok_delete.
  - destruct Htr as (e & He & Hph & _). rewrite He.
    eapply table_ok_update; [done..| |done]. by apply rearmed_ok; [apply Hm|..].
  - by apply table_ok_delete.
Qed.

Lemma acked_inv m p :
  breakpoint_inv m → bm_poison_evidence m = None → bm_pending m = Some p →
  breakpoint_inv (acked p m).
Proof.
  intros Hm Hno Hp. pose proof (bi_pending _ Hm p Hp) as Hok.
  destruct (acked_table_ok m p Hm Hok) as [Hs He Ha]. destruct Hm as [Hc _ _ _ Hn _ _ _].
  split; try done; simpl.
  - intros l [= <-]. apply Hok.
  - by rewrite Hno.
Qed.

(** The transition an acknowledgement of the pending operation reports. *)
Definition transition_of (p : PendingOperation) (table : gmap Z BreakpointEntry)
    : SoftwareBreakpointTransition :=
  match pn_transition p with
  | PendingArm e => SBT.Armed (bp_id (en_breakpoint e))
  | PendingRestore id =>
      if bool_decide (en_persistence <$> table !! id = Some Persistent)
      then SBT.RestoredForSingleStep id else SBT.TemporaryRemoved id
  | PendingRearm id => SBT.Rearmed id
  | PendingRemove id => SBT.Removed id
  end.

Lemma apply_transition_run m p :
  transition_ok m p →
  apply_transition (plan_bytes (pn_plan p)) (pn_transition p)
    (bm_set_last (Some (plan_operation_id (pn_plan p))) (bm_set_pending None m))
  = (Ok (transition_of p (bm_breakpoints m)), acked p m).
Proof.
  unfold transition_ok, plans_entry, apply_transition, transition_of, acked, acked_table, awaiting.
  destruct p as [plan t]. simpl. destruct plan, t; try done.
  - intros (e & He & _). unfold sbind, sread. simpl. rewrite He. simpl.
    by destruct (en_persistence e).
  - intros (e & He & _). unfold sbind, sread. simpl. by rewrite He.
Qed.

Lemma ack_of_iff ack p :
  ack = ack_of p ↔
  ak_operation_id ack = byp_operation_id (plan_bytes p)
  ∧ ak_session_id ack = byp_session_id (plan_bytes p)
  ∧ ak_stop_token ack = byp_stop_token (plan_bytes p)
  ∧ ak_action ack = plan_action p ∧ ak_breakpoint ack = byp_breakpoint (plan_bytes p)
  ∧ ak_expected_byte ack = byp_expected_byte (plan_bytes p)
  ∧ ak_replacement_byte ack = byp_replacement_byte (plan_bytes p).
Proof. destruct ack. unfold ack_of. simpl. naive_solver congruence. Qed.

(** How an acknowledgement that is not the expected one ends. *)
Definition refused (m : SoftwareBreakpointStateMachine) (e : SoftwareBreakpointError)
    (received : SoftwareBreakpointAcknowledgement) (m' : SoftwareBreakpointStateMachine) : Prop :=
  (is_poisoned m = true ∧ e = SBE.Poisoned ∧ m' = m)
  ∨ (is_poisoned m = false ∧ ∃ r, e = SBE.AcknowledgementRejected r
     ∧ m' = bm_set_poison (Some (mkPoisonEvidence r received (current_cleanup_evidence m))) m).

Lemma refused_inv m e a m' : breakpoint_inv m → refused m e a m' → breakpoint_inv m'.
Proof. intros Hm [(_ & _ & ->)|(_ & r & _ & ->)]; [done|]. by apply poison_inv. Qed.

Lemma poison_refuses {A} r a m (P : Prop) (Q : A → SoftwareBreakpointStateMachine → Prop) :
  is_poisoned m = false → P → wp (poison r a) Q (λ e m', P ∧ refused m e a m') m.
Proof. intros Hno HP. apply poison_spec. split; [done|]. right. eauto. Qed.

Lemma acknowledge_success_spec ack m :
  breakpoint_inv m →
  wp (acknowledge_success ack)
    (λ t m', is_poisoned m = false
             ∧ ∃ p, bm_pending m = Some p ∧ ack = ack_of (pn_plan p)
                    ∧ t = transition_of p (bm_breakpoints m) ∧ m' = acked p m)
    (λ e m', (∀ p, is_poisoned m = false → bm_pending m = Some p → ack ≠ ack_of (pn_plan p))
             ∧ refused m e (ActionAck ack) m') m.
Proof.
  intros Hm. unfold acknowledge_success. do 2 wp_step.
  2: { split; [|by left]. congruence. }
  do 2 wp_step. unfold id. destruct (bm_pending m) as [p|] eqn:Hp.
  2: { by apply poison_refuses. }
  pose proof (ack_of_iff ack (pn_plan p)) as Hack.
  assert (ack ≠ ack_of (pn_plan p) → ∀ q, is_poisoned m = false → Some p = Some q →
    ack ≠ ack_of (pn_plan q)) as Hne by naive_solver.
  destruct (Z.eqb_spec (ak_operation_id ack) (byp_operation_id (plan_bytes (pn_plan p))));
    simpl; [|apply poison_refuses; naive_solver].
  destruct (Z.eqb_spec (ak_session_id ack) (byp_session_id (plan_bytes (pn_plan p))));
    simpl; [|apply poison_refuses; naive_solver].
  case_bool_decide; simpl; [|apply poison_refuses; naive_solver].
  destruct (negb _ || _ || _ || _) eqn:Hg; autorewrite with rust in Hg.
  { apply poison_refuses; [done|]. apply Hne. rewrite Hack. naive_solver. }
  assert (ack = ack_of (pn_plan p)) as Heq by naive_solver.
  do 4 wp_step. unfold wp. fold (plan_operation_id (pn_plan p)).
  rewrite (apply_transition_run m p (op_transition _ _ (bi_pending _ Hm p Hp))). eauto 10.
Qed.

(** The later stop a persistent breakpoint waits for. *)
Record step_evidence (m : SoftwareBreakpointStateMachine)
    (ack : SoftwareBreakpointSingleStepAcknowledgement) (e : BreakpointEntry) : Prop := {
  sev_idle : bm_pending m = None;
  sev_session : ss_session_id ack = bm_session_id m;
  sev_stepped : of_session (bm_session_id m) (ss_stepped_stop_token ack);
  sev_entry : bm_breakpoints m !! ss_breakpoint_id ack = Some e;
  sev_phase : en_phase e = AwaitingSingleStep;
  sev_restore : en_restore_operation_id e = Some (ss_restore_operation_id ack);
  sev_hit : en_acknowledged_byte_stop_token e = ss_hit_stop_token ack;
  sev_later : later_stop (ss_hit_stop_token ack) (ss_stepped_stop_token ack)
}.

Definition stepped (t : StopToken) (e : BreakpointEntry) : BreakpointEntry :=
  mkBreakpointEntry (en_breakpoint e) (en_original_byte e) (en_persistence e) ReadyToRearm
    (en_acknowledged_byte_stop_token e) (en_restore_operation_id e) (Some t).

Definition step_acked (ack : SoftwareBreakpointSingleStepAcknowledgement) (e : BreakpointEntry)
    (m : SoftwareBreakpointStateMachine) : SoftwareBreakpointStateMachine :=
  bm_set_breakpoints (<[ss_breakpoint_id ack := stepped (ss_stepped_stop_token ack) e]>
                        (bm_breakpoints m)) m.

Lemma step_acked_inv m ack e :
  breakpoint_inv m → bm_poison_evidence m = None → step_evidence m ack e →
  breakpoint_inv (step_acked ack e m).
Proof.
  intros Hm Hno [Hidle Hs1 Hs2 He Hph Hre Hhit Hlat].
  assert (entry_ok (bm_session_id m) (ss_breakpoint_id ack) (stepped (ss_stepped_stop_token ack) e))
    as Hok.
  { destruct (bi_entries _ Hm _ _ He) as [? ? ? ? ? Hp]. split; try done.
    unfold entry_phase_ok in *. rewrite Hph in Hp. destruct Hp as (? & ? & _). simpl.
    rewrite Hhit. eauto 10. }
  destruct (table_ok_update _ _ _ (inv_table m Hm) _ _ _ He Hok eq_refl) as [Hs Hes Has].
  destruct Hm as [Hc _ _ _ Hn Hl Hp _]. split; try done; simpl; by rewrite ?Hidle, ?Hno.
Qed.

Lemma acknowledge_single_step_spec ack m :
  breakpoint_inv m →
  wp (acknowledge_single_step ack)
    (λ _ m', is_poisoned m = false ∧ ∃ e, step_evidence m ack e ∧ m' = step_acked ack e m)
    (λ e m', (∀ en, is_poisoned m = false → ¬ step_evidence m ack en)
             ∧ refused m e (SingleStepAck ack) m') m.
Proof.
  intros Hm. unfold acknowledge_single_step. do 2 wp_step.
  2: { split; [|by left]. congruence. }
  do 2 wp_step. unfold id.
  case_bool_decide as Hidle; [apply poison_refuses; [done|]; intros ? _ []; destruct Hidle; congruence|].
  destruct (Z.eqb_spec (ss_session_id ack) (bm_session_id m)) as [Hs1|]; simpl;
    [|apply poison_refuses; [done|]; by intros ? _ []].
  destruct (Z.eqb_spec (st_session_id (stop_state (ss_stepped_stop_token ack))) (bm_session_id m))
    as [Hs2|]; simpl; [|apply poison_refuses; [done|]; by intros ? _ []].
  destruct (bm_breakpoints m !! ss_breakpoint_id ack) as [e|] eqn:He;
    [|apply poison_refuses; [done|]; intros ? _ []; congruence].
  assert (∀ en, step_evidence m ack en → en = e) as Hen by (intros en []; congruence).
  destruct (bool_decide (en_phase e = ReadyToRearm) && _ && _ && _) eqn:Hg;
    autorewrite with rust in Hg.
  { apply poison_refuses; [done|]. intros en _ Hev. pose proof (Hen en Hev) as ->. destruct Hev, Hg as [[[? _] _] _]. congruence. }
  clear Hg. destruct (negb _ || negb _) eqn:Hg; autorewrite with rust in Hg.
  { apply poison_refuses; [done|]. intros en _ Hev. pose proof (Hen en Hev) as ->. destruct Hev. naive_solver. }
  case_bool_decide as Hhit; simpl;
    [|apply poison_refuses; [done|]; intros en _ Hev; pose proof (Hen en Hev) as ->; by destruct Hev].
  pose proof (advanced_ok (ss_hit_stop_token ack) (ss_stepped_stop_token ack) tt) as Hadv.
  unfold require_advanced_stop in *. destruct (_ && _).
  - unfold wp, sbind, sread. rewrite He. split; [done|]. exists e. split; [|done].
    destruct Hg as [Hph Hre]. split; try done; [|by apply Hadv].
    apply eq_None_not_Some. done.
  - apply poison_refuses; [done|]. intros en _ []. by apply Hadv in sev_later0.
Qed.

(** ** Every run *)

Lemma wp_discard {S E A} (c : smonad S E A) (Q : S → Prop) QE s :
  wp c (λ _ s', Q s') QE s → wp (discard c) (λ _ s', Q s') QE s.
Proof. intros Hc. unfold discard. wp_step. eapply wp_mono; [exact Hc|done|done]. Qed.

Lemma acknowledge_success_inv ack m :
  breakpoint_inv m →
  wp (acknowledge_success ack) (λ _ m', breakpoint_inv m') (λ _ m', breakpoint_inv m') m.
Proof.
  intros Hm. eapply wp_mono; [by apply acknowledge_success_spec|..].
  - intros t m' (Hno & p & Hp & _ & _ & ->). apply acked_inv; [done| |done].
    unfold is_poisoned in Hno. by destruct (bm_poison_evidence m).
  - intros e m' [_ Hr]. by eapply refused_inv.
Qed.

Lemma breakpoint_exec_inv c m :
  breakpoint_inv m →
  wp (breakpoint_exec c) (λ _ m', breakpoint_inv m') (λ _ m', breakpoint_inv m') m.
Proof.
  intros Hm. assert (∀ P (c : breakpoint_op SoftwareBreakpointActionPlan),
    wp c (plan_outcome m P) (λ _ m', m' = m) m →
    wp c (λ _ m', breakpoint_inv m') (λ _ m', breakpoint_inv m') m) as Hplan.
  { intros P d Hd. eapply wp_mono; [exact Hd|by intros ?? [? _]|by intros ?? ->]. }
  destruct c; simpl; [apply wp_discard..|].
  - by eapply Hplan, plan_arm_spec.
  - by eapply Hplan, plan_restore_spec.
  - by eapply Hplan, plan_rearm_spec.
  - by eapply Hplan, plan_remove_spec.
  - by apply acknowledge_success_inv.
  - eapply wp_mono; [by apply acknowledge_single_step_spec|..].
    + intros _ m' (Hno & e & He & ->). apply step_acked_inv; [done| |done].
      unfold is_poisoned in Hno. by destruct (bm_poison_evidence m).
    + intros e m' [_ Hr]. by eapply refused_inv.
Qed.

Lemma exec_state_inv c m : breakpoint_inv m → breakpoint_inv (breakpoint_exec c m).2.
Proof.
  intros Hm. pose proof (breakpoint_exec_inv c m Hm) as Hw. unfold wp in Hw.
  by destruct (breakpoint_exec c m) as [[]].
Qed.

Lemma breakpoint_run_inv cs m : breakpoint_inv m → breakpoint_inv (breakpoint_run cs m).
Proof. revert m. induction cs as [|c cs IH]; intros m Hm; [done|]. by apply IH, exec_state_inv. Qed.

Lemma with_capacity_inv sid cap m : 0 ≤ cap → with_capacity sid cap = Ok m → breakpoint_inv m.
Proof.
  unfold with_capacity. intros Hc Hm. destruct (_ || _) eqn:Hg; [done|].
  autorewrite with rust in Hg. injection Hm as <-.
  split; try done; [simpl; lia|by intros n [= <-]].
Qed.

Lemma poisoned_refuses c m :
  is_poisoned m = true → breakpoint_exec c m = (Err SBE.Poisoned, m).
Proof.
  intros Hp. destruct c; simpl; unfold discard, plan_arm, plan_restore_after_hit,
    plan_rearm_after_single_step, plan_remove, acknowledge_success, acknowledge_single_step,
    require_ready, require_healthy_and_idle, sbind, sread; by rewrite Hp.
Qed.

(** From its construction on, through any calls with any arguments, the
    planner never panics and keeps its table: at most the configured number of
    software breakpoints (at most 1024), no identity or address twice, no
    original byte that is itself an INT3, a pending plan that fits the table and
    whose identifier is newer than every acknowledged one.  Once it is poisoned
    every call is refused and changes nothing, and the frozen cleanup evidence
    is still the current one. *)
Theorem breakpoint_machine_sound sid cap m0 cs c :
  0 ≤ cap → with_capacity sid cap = Ok m0 →
  let m := breakpoint_run cs m0 in
  breakpoint_inv m ∧ no_panic (breakpoint_exec c m).1
  ∧ (is_poisoned m = true → breakpoint_exec c m = (Err SBE.Poisoned, m)
     ∧ cleanup_snapshot m = current_cleanup_evidence m).
Proof.
  intros Hc H0. pose proof (breakpoint_run_inv cs m0 (with_capacity_inv _ _ _ Hc H0)) as Hm.
  split; [done|]. split; [intros p; by eapply wp_no_panic, breakpoint_exec_inv|].
  intros Hp. split; [by apply poisoned_refuses|]. unfold cleanup_snapshot, is_poisoned in *.
  destruct (bm_poison_evidence _) eqn:He; [|done]. by apply Hm.
Qed.

(** A success report is believed exactly when it is the report of the
    pending plan, field by field.  Then the planned transition is applied and
    nothing is pending; any other report poisons the planner, keeps the table
    and the pending plan as they were, and freezes both as cleanup evidence. *)
Theorem acknowledgement_exact m ack :
  breakpoint_inv m → is_poisoned m = false →
  (∀ p, bm_pending m = Some p → ack = ack_of (pn_plan p) →
     acknowledge_success ack m = (Ok (transition_of p (bm_breakpoints m)), acked p m)
     ∧ bm_pending (acked p m) = None)
  ∧ ((∀ p, bm_pending m = Some p → ack ≠ ack_of (pn_plan p)) →
     ∃ r m', acknowledge_success ack m = (Err (SBE.AcknowledgementRejected r), m')
       ∧ is_poisoned m' = true ∧ bm_breakpoints m' = bm_breakpoints m
       ∧ bm_pending m' = bm_pending m ∧ cleanup_snapshot m' = cleanup_snapshot m).
Proof.
  intros Hm Hno. pose proof (acknowledge_success_spec ack m Hm) as Hw. unfold wp in Hw.
  destruct (acknowledge_success ack m) as [[t|e|q] m']; [| |done].
  - destruct Hw as (_ & p & Hp & -> & -> & ->). split; [|intros Hne; by destruct (Hne p Hp)].
    intros q Hq _. by simplify_eq.
  - destruct Hw as [Hne Hr]. split; [intros p Hp He; by destruct (Hne p Hno Hp)|]. intros _.
    destruct Hr as [(Hb & _)|(_ & r & -> & ->)]; [congruence|]. eexists r, _. split; [done|].
    split_and!; try done. unfold cleanup_snapshot, is_poisoned in *.
    by destruct (bm_poison_evidence m).
Qed.

(** ** The bytes of the target *)

(** A planner, the memory its backend works on, and whether the backend has
    already performed the pending plan. *)
Record debuggee : Type := mkDebuggee {
  dg_machine : SoftwareBreakpointStateMachine;
  dg_memory : memory;
  dg_performed : bool
}.

Definition plan_address (p : SoftwareBreakpointActionPlan) : Z :=
  bp_address (byp_breakpoint (plan_bytes p)).

(** The compare/replace of a plan. *)
Definition perform (p : SoftwareBreakpointActionPlan) (mem : memory) : memory :=
  write_bytes (plan_address p) [byp_replacement_byte (plan_bytes p)] mem.

(** What the planner relies on: an arm is planned with the byte that is there,
    and success is reported for a pending plan only after it was performed.
    Every other call, mistaken reports included, is allowed. *)
Definition honest (c : breakpoint_call) (d : debuggee) : Prop :=
  match c with
  | PlanArm _ spec original _ => original = dg_memory d (bp_address spec)
  | AckSuccess ack =>
      ∀ p, bm_pending (dg_machine d) = Some p → ack = ack_of (pn_plan p) →
           dg_performed d = true
  | _ => True
  end.

Inductive debuggee_step : debuggee → debuggee → Prop :=
  | step_call c d :
      honest c d →
      let m' := (breakpoint_exec c (dg_machine d)).2 in
      debuggee_step d (mkDebuggee m' (dg_memory d)
        (dg_performed d && bool_decide (is_Some (bm_pending m'))))
  | step_perform p m mem :
      bm_pending m = Some p →
      mem (plan_address (pn_plan p)) = byp_expected_byte (plan_bytes (pn_plan p)) →
      debuggee_step (mkDebuggee m mem false) (mkDebuggee m (perform (pn_plan p) mem) true).

(** The memory [mem] is the original memory [mem0] with an INT3 at every armed
    breakpoint of the table. *)
Record mirrors (mem0 mem : memory) (table : gmap Z BreakpointEntry) : Prop := {
  mi_original : ∀ id e, table !! id = Some e → en_original_byte e = mem0 (address_of e);
  mi_armed : ∀ id e, table !! id = Some e → en_phase e = Armed → mem (address_of e) = INT3_OPCODE;
  mi_rest : ∀ x, (∀ id e, table !! id = Some e → en_phase e = Armed → address_of e ≠ x) →
              mem x = mem0 x
}.

(** The byte a plan found before any breakpoint was there. *)
Definition uncertain_original (p : SoftwareBreakpointActionPlan) : Z :=
  match p with
  | SBP.Arm b | SBP.Rearm b => byp_expected_byte b
  | SBP.Restore b | SBP.Remove b => byp_replacement_byte b
  end.

(** Writing back what the cleanup evidence names. *)
Definition cleanup_memory (ev : SoftwareBreakpointCleanupEvidence) (mem : memory) : memory :=
  foldr (λ s, write_bytes (bp_address (sn_breakpoint s)) [sn_original_byte s])
    (match cl_uncertain_operation ev with
     | Some p => write_bytes (plan_address p) [uncertain_original p] mem
     | None => mem
     end) (cl_acknowledged_breakpoints ev).

Section target_bytes.
Context (mem0 : memory).

Lemma mirrors_plain mem table x :
  mirrors mem0 mem table → (∀ id e, table !! id = Some e → address_of e ≠ x) → mem x = mem0 x.
Proof. intros Hm Hx. apply Hm. naive_solver. Qed.

(** The pending plan finds the byte it expects, and knows the original one. *)
Lemma plan_bytes_agree m mem p :
  mirrors mem0 mem (bm_breakpoints m) → transition_ok m p →
  (plan_action (pn_plan p) = ArmAction →
   mem (plan_address (pn_plan p)) = byp_expected_byte (plan_bytes (pn_plan p))) →
  breakpoint_inv m →
  mem (plan_address (pn_plan p)) = byp_expected_byte (plan_bytes (pn_plan p))
  ∧ uncertain_original (pn_plan p) = mem0 (plan_address (pn_plan p)).
Proof.
  intros Hmi Htr Harm Hm. destruct p as [plan t]. unfold transition_ok, plans_entry in Htr.
  unfold plan_address in *. simpl in *. destruct plan as [b|b|b|b], t as [e|id|id|id]; try done; simpl in *.
  - destruct Htr as (_ & _ & Hb & Hx & _ & _ & Hfree & _). rewrite Harm by done. split; [done|].
    rewrite <-Harm by done. apply (mirrors_plain _ _ _ Hmi). intros i e' Hi. rewrite Hb.
    by apply (Hfree i).
  - destruct Htr as (e & He & Hph & -> & -> & ->). split; [by apply (mi_armed _ _ _ Hmi id)|].
    by apply (mi_original _ _ _ Hmi id).
  - destruct Htr as (e & He & Hph & -> & -> & _).
    rewrite (mi_original _ _ _ Hmi id e He). split; [|done]. apply (mi_rest _ _ _ Hmi).
    intros i e' Hi Hph' Ha. assert (i = id) as -> by (by eapply (bi_addresses _ Hm)). congruence.
  - destruct Htr as (e & He & Hph & -> & -> & ->). split; [by apply (mi_armed _ _ _ Hmi id)|].
    by apply (mi_original _ _ _ Hmi id).
Qed.

(** Updates of the mirrored table: an entry becomes armed, stops being armed,
    or changes while it is not armed. *)
Lemma mirrors_arm mem table id e :
  mirrors mem0 mem table → (∀ e0, table !! id = Some e0 → address_of e0 = address_of e) →
  en_phase e = Armed → en_original_byte e = mem0 (address_of e) →
  mirrors mem0 (write_bytes (address_of e) [INT3_OPCODE] mem) (<[id := e]> table).
Proof.
  intros [Ho Ha Hr] Hn Hph He. split.
  - intros i x. rewrite lookup_insert_Some. naive_solver.
  - intros i x Hi Hx. rewrite write_byte. case_match eqn:Hc; [done|]. apply Z.eqb_neq in Hc.
    apply lookup_insert_Some in Hi as [[_ <-]|[_ Hi]]; [done|]. by apply (Ha i).
  - intros x Hx. rewrite write_byte.
    pose proof (Hx id e (lookup_insert_eq _ _ _) Hph) as Hne.
    rewrite (proj2 (Z.eqb_neq _ _)) by done. apply Hr. intros i y Hi Hy.
    destruct (decide (i = id)) as [->|]; [by rewrite (Hn y Hi)|].
    apply (Hx i); [|done]. by rewrite lookup_insert_ne.
Qed.

Lemma mirrors_disarm mem table table' id e :
  mirrors mem0 mem table → table !! id = Some e →
  (∀ i e', table !! i = Some e' → address_of e' = address_of e → i = id) →
  (∀ i, i ≠ id → table' !! i = table !! i) →
  (∀ e', table' !! id = Some e' → en_phase e' ≠ Armed ∧ address_of e' = address_of e
         ∧ en_original_byte e' = en_original_byte e) →
  mirrors mem0 (write_bytes (address_of e) [en_original_byte e] mem) table'.
Proof.
  intros [Ho Ha Hr] He Hu Hsame Hid. split.
  - intros i x Hi. destruct (decide (i = id)) as [->|Hne].
    + destruct (Hid x Hi) as (_ & -> & ->). eauto.
    + rewrite Hsame in Hi by done. eauto.
  - intros i x Hi Hx. destruct (decide (i = id)) as [->|Hne]; [by destruct (Hid x Hi)|].
    rewrite Hsame in Hi by done. rewrite write_byte, (proj2 (Z.eqb_neq _ _)); [eauto|]. naive_solver.
  - intros x Hx. rewrite write_byte. destruct (Z.eqb_spec x (address_of e)) as [->|Hne]; [eauto|].
    apply Hr. intros i y Hi Hy. destruct (decide (i = id)) as [->|]; [naive_solver congruence|].
    apply (Hx i); [|done]. by rewrite Hsame.
Qed.

Lemma mirrors_keep mem table id e e' :
  mirrors mem0 mem table → table !! id = Some e → en_phase e ≠ Armed → en_phase e' ≠ Armed →
  address_of e' = address_of e → en_original_byte e' = en_original_byte e →
  mirrors mem0 mem (<[id := e']> table).
Proof.
  intros [Ho Ha Hr] He Hp Hp' Haddr Horig. split.
  - intros i x. rewrite lookup_insert_Some. intros [[<- <-]|[_ ?]]; [|eauto].
    rewrite Haddr, Horig. eauto.
  - intros i x. rewrite lookup_insert_Some. naive_solver.
  - intros x Hx. apply Hr. intros i y Hi Hy. apply (Hx i); [|done].
    rewrite lookup_insert_ne; [done|congruence].
Qed.

Lemma mirrors_same mem mem' table : same_memory mem mem' → mirrors mem0 mem table → mirrors mem0 mem' table.
Proof.
  intros Hs [Ho Ha Hr]. split; [done|..].
  - intros i e Hi He. rewrite <-(Hs _). eauto.
  - intros x Hx. rewrite <-(Hs x). eauto.
Qed.

(** A performed and acknowledged plan keeps the memory and the table in step. *)
Lemma acked_mirrors m mem p :
  mirrors mem0 mem (bm_breakpoints m) → breakpoint_inv m → transition_ok m p →
  uncertain_original (pn_plan p) = mem0 (plan_address (pn_plan p)) →
  mirrors mem0 (perform (pn_plan p) mem) (acked_table p (bm_breakpoints m)).
Proof.
  intros Hmi Hm Htr Ho. destruct p as [plan t].
  unfold transition_ok, plans_entry, acked_table, perform, plan_address in *. simpl in *.
  destruct plan as [b|b|b|b], t as [e|id|id|id]; try done; simpl in *.
  - destruct Htr as (_ & Hph & Hb & Hx & -> & Hn & _). rewrite Hb, Hx in Ho. rewrite Hb.
    apply mirrors_arm; [done|naive_solver|done..].
  - destruct Htr as (e & He & Hph & -> & _ & ->). rewrite He.
    apply (mirrors_disarm mem (bm_breakpoints m) _ id e); [done|done|..].
    + intros i e' Hi Ha. by eapply (bi_addresses _ Hm).
    + intros i Hi. case_bool_decide; [by rewrite lookup_insert_ne|by rewrite lookup_delete_ne].
    + intros e'. case_bool_decide; [rewrite lookup_insert_eq|rewrite lookup_delete_eq]; [|done].
      by intros [= <-].
  - destruct Htr as (e & He & Hph & -> & _ & ->). rewrite He.
    apply (mirrors_arm mem _ id (rearmed b e)); [done|naive_solver|done|].
    apply (mi_original _ _ _ Hmi id e He).
  - destruct Htr as (e & He & Hph & -> & _ & ->).
    apply (mirrors_disarm mem (bm_breakpoints m) _ id e); [done|done|..].
    + intros i e' Hi Ha. by eapply (bi_addresses _ Hm).
    + intros i Hi. by rewrite lookup_delete_ne.
    + intros e'. by rewrite lookup_delete_eq.
Qed.
End target_bytes.

(** How a call moves the table and the pending plan. *)
Inductive breakpoint_effect (c : breakpoint_call) (m : SoftwareBreakpointStateMachine)
    : SoftwareBreakpointStateMachine → Prop :=
  | effect_none m' :
      bm_breakpoints m' = bm_breakpoints m → bm_pending m' = bm_pending m → breakpoint_effect c m m'
  | effect_plan p m' :
      bm_pending m = None → bm_pending m' = Some p → bm_breakpoints m' = bm_breakpoints m →
      (plan_action (pn_plan p) = ArmAction → ∃ stop spec original pers,
         c = PlanArm stop spec original pers ∧ arms spec original (pn_plan p)) →
      breakpoint_effect c m m'
  | effect_ack p :
      bm_pending m = Some p → c = AckSuccess (ack_of (pn_plan p)) → breakpoint_effect c m (acked p m)
  | effect_step ack e : step_evidence m ack e → breakpoint_effect c m (step_acked ack e m).

Lemma wp_effect {A} (c : breakpoint_call) (d : breakpoint_op A) m :
  breakpoint_exec c = discard d →
  wp d (λ _ m', breakpoint_effect c m m') (λ _ m', breakpoint_effect c m m') m →
  breakpoint_effect c m (breakpoint_exec c m).2.
Proof.
  intros -> Hw. apply (wp_discard _ (breakpoint_effect c m)) in Hw. unfold wp in Hw.
  by destruct (discard d m) as [[]].
Qed.

Lemma plan_effect c (d : breakpoint_op SoftwareBreakpointActionPlan) P m :
  breakpoint_exec c = discard d → wp d (plan_outcome m P) (λ _ m', m' = m) m →
  (∀ p, P p → plan_action p = ArmAction → ∃ stop spec original pers,
     c = PlanArm stop spec original pers ∧ arms spec original p) →
  breakpoint_effect c m (breakpoint_exec c m).2.
Proof.
  intros Hc Hd HP. eapply wp_effect; [done|]. eapply wp_mono; [exact Hd|..].
  - intros p m' (_ & _ & Hidle & Hp & t & ->). apply (effect_plan c m (mkPendingOperation p t)); try done. by apply HP.
  - intros e m' ->. by apply effect_none.
Qed.

Lemma refused_effect c m e a m' : refused m e a m' → breakpoint_effect c m m'.
Proof. intros [(_ & _ & ->)|(_ & r & _ & ->)]; by apply effect_none. Qed.

Lemma exec_effect c m : breakpoint_inv m → breakpoint_effect c m (breakpoint_exec c m).2.
Proof.
  intros Hm. destruct c as [stop spec original pers|id stop|id|id stop|ack|ack].
  - eapply plan_effect; [done|by apply plan_arm_spec|]. eauto 10.
  - eapply plan_effect; [done|by apply plan_restore_spec|]. unfold acts. congruence.
  - eapply plan_effect; [done|by apply plan_rearm_spec|]. unfold acts. congruence.
  - eapply plan_effect; [done|by apply plan_remove_spec|]. unfold acts. congruence.
  - eapply wp_effect; [done|]. eapply wp_mono; [by apply acknowledge_success_spec|..].
    + intros t m' (_ & p & Hp & -> & _ & ->). by apply effect_ack.
    + intros e m' [_ Hr]. by eapply refused_effect.
  - pose proof (acknowledge_single_step_spec ack m Hm) as Hw. unfold wp in Hw. simpl.
    destruct (acknowledge_single_step ack m) as [[u|e|q] m']; [| |done].
    + destruct Hw as (_ & e & He & ->). by eapply effect_step.
    + destruct Hw as [_ Hr]. by eapply refused_effect.
Qed.

Section debuggee.
Context (mem0 : memory).

(** The memory is the original one with an INT3 at the armed breakpoints,
    perhaps with the pending plan already performed on top. *)
Record debuggee_inv (d : debuggee) : Prop := {
  dv_machine : breakpoint_inv (dg_machine d);
  dv_performed : dg_performed d = true → is_Some (bm_pending (dg_machine d));
  dv_memory : ∃ mem, mirrors mem0 mem (bm_breakpoints (dg_machine d))
    ∧ match bm_pending (dg_machine d) with
      | None => same_memory (dg_memory d) mem
      | Some p =>
          mem (plan_address (pn_plan p)) = byp_expected_byte (plan_bytes (pn_plan p))
          ∧ uncertain_original (pn_plan p) = mem0 (plan_address (pn_plan p))
          ∧ same_memory (dg_memory d) (if dg_performed d then perform (pn_plan p) mem else mem)
      end
}.

Lemma perform_same p m m' : same_memory m m' → same_memory (perform p m) (perform p m').
Proof. intros Hm. unfold perform. by rewrite Hm. Qed.

Lemma call_preserves c d :
  debuggee_inv d → honest c d →
  let m' := (breakpoint_exec c (dg_machine d)).2 in
  debuggee_inv (mkDebuggee m' (dg_memory d)
    (dg_performed d && bool_decide (is_Some (bm_pending m')))).
Proof.
  destruct d as [m mem ex]. intros [Hm Hex (memb & Hmi & Hmem)] Hh. simpl in *.
  pose proof (exec_state_inv c m Hm) as Hm'. pose proof (exec_effect c m Hm) as Heff.
  revert Hm'. destruct Heff as [m' Ht Hp|p m' Hidle Hp Ht Harm|p Hp ->|ack e Hev]; intros Hm'.
  - split; simpl; [done|by intros [_ ?%bool_decide_eq_true]%andb_true_iff|].
    exists memb. rewrite Ht, Hp. split; [done|]. destruct (bm_pending m) as [p|]; [|done].
    rewrite bool_decide_eq_true_2 by eauto. by rewrite andb_true_r.
  - assert (ex = false) as -> by (destruct ex; [destruct (Hex eq_refl); congruence|done]).
    rewrite Hidle in Hmem. split; simpl; [done|done|]. exists memb. rewrite Ht, Hp.
    split; [done|].
    assert (mirrors mem0 memb (bm_breakpoints m')) as Hmi' by (by rewrite Ht).
    destruct (plan_bytes_agree mem0 m' memb p) as [H1 H2]; [done| | |done|done].
    + by apply (bi_pending _ Hm').
    + intros Ha. destruct (Harm Ha) as (stop & spec & original & pers & -> & b & -> & Hb & Hx).
      simpl in Hh. unfold plan_address. simpl. rewrite Hb, Hx, Hh. symmetry. apply Hmem.
  - assert (ex = true) as -> by (by eapply Hh). rewrite Hp in Hmem. destruct Hmem as (_ & Ho & Hs).
    split; simpl; [done|done|]. exists (perform (pn_plan p) memb). split; [|done].
    apply acked_mirrors; [done|done|by apply (bi_pending _ Hm)|done].
  - pose proof Hev as [Hidle _ _ He Hph _ _ _]. rewrite Hidle in Hmem.
    split; simpl; [done|by destruct ex; [destruct (Hex eq_refl); congruence|]|]. exists memb. rewrite Hidle.
    split; [|done]. eapply mirrors_keep; [done|done|by rewrite Hph|done..].
Qed.

Lemma debuggee_step_preserves d d' : debuggee_step d d' → debuggee_inv d → debuggee_inv d'.
Proof.
  intros [c e Hh|p m mem Hp Hcmp] Hd; [by apply call_preserves|].
  destruct Hd as [Hm _ (memb & Hmi & Hmem)]. simpl in *. rewrite Hp in Hmem.
  split; simpl; [done|by rewrite Hp|]. exists memb. rewrite Hp. split; [done|].
  destruct Hmem as (? & ? & ?). split_and!; [done..|]. by apply perform_same.
Qed.

Lemma debuggee_start sid cap m0 :
  0 ≤ cap → with_capacity sid cap = Ok m0 → debuggee_inv (mkDebuggee m0 mem0 false).
Proof.
  intros Hc H0. pose proof (with_capacity_inv _ _ _ Hc H0) as Hm.
  unfold with_capacity in H0. destruct (_ || _); [done|]. injection H0 as <-.
  split; [done..|]. exists mem0. split; [by split|done].
Qed.

Lemma debuggee_reaches d d' : rtc debuggee_step d d' → debuggee_inv d → debuggee_inv d'.
Proof. induction 1; eauto using debuggee_step_preserves. Qed.

(** Writing back a list of snapshots whose original bytes are right. *)
Lemma restore_list l mem x :
  (∀ s, s ∈ l → sn_original_byte s = mem0 (bp_address (sn_breakpoint s))) →
  (mem x = mem0 x ∨ ∃ s, s ∈ l ∧ bp_address (sn_breakpoint s) = x) →
  foldr (λ s, write_bytes (bp_address (sn_breakpoint s)) [sn_original_byte s]) mem l x = mem0 x.
Proof.
  intros Hl Hx. induction l as [|s l IH]; simpl; [set_solver|].
  rewrite write_byte. destruct (Z.eqb_spec x (bp_address (sn_breakpoint s))) as [->|Hne].
  - apply Hl. set_solver.
  - apply IH; set_solver.
Qed.

Lemma cleanup_restores m mem ex :
  debuggee_inv (mkDebuggee m mem ex) → same_memory (cleanup_memory (current_cleanup_evidence m) mem) mem0.
Proof.
  intros [Hm Hex (memb & Hmi & Hmem)] x. simpl in *. unfold cleanup_memory. simpl.
  apply restore_list.
  { intros s (e & -> & He)%list_elem_of_fmap. apply elem_of_btree_values in He as [id He].
    by apply (mi_original _ _ _ Hmi id). }
  destruct (decide (Exists (λ e, address_of e = x) (btree_values (bm_breakpoints m)))) as [Hyes|Hno];
    rewrite list.Exists_exists in *.
  { destruct Hyes as (e & He & Hx). right. exists (snapshot e). split; [|done]. by apply list_elem_of_fmap_2. }
  left. assert (memb x = mem0 x) as Hb.
  { apply (mirrors_plain _ _ _ _ Hmi). intros id e He Ha. apply Hno. exists e.
    split; [|done]. apply elem_of_btree_values. eauto. }
  destruct (bm_pending m) as [p|]; simpl; [|by rewrite (Hmem x)].
  destruct Hmem as (Hcmp & Ho & Hs). rewrite write_byte.
  destruct (Z.eqb_spec x (plan_address (pn_plan p))) as [->|Hne]; [done|].
  rewrite (Hs x). destruct ex; [|done]. unfold perform. rewrite write_byte.
  by rewrite (proj2 (Z.eqb_neq _ _)).
Qed.
End debuggee.

(** C12: the planner's cleanup evidence always restores the target.  Take any
    run of calls and of the backend performing pending plans as exact
    compare/replace steps, in which arms are planned over the byte that is
    there and success is reported only for performed plans; reports may
    otherwise be lost, repeated or wrong.  Then at every moment, poisoned or
    not and whether the pending plan was performed or not, writing back the
    original bytes the cleanup snapshot names gives exactly the memory the run
    started with; and while nothing is pending the memory differs from it only
    by an INT3 at each armed breakpoint. *)
Theorem cleanup_restores_target mem0 sid cap m0 d :
  0 ≤ cap → with_capacity sid cap = Ok m0 →
  rtc debuggee_step (mkDebuggee m0 mem0 false) d →
  same_memory (cleanup_memory (cleanup_snapshot (dg_machine d)) (dg_memory d)) mem0
  ∧ (bm_pending (dg_machine d) = None →
     mirrors mem0 (dg_memory d) (bm_breakpoints (dg_machine d)))
  ∧ (∀ p, bm_pending (dg_machine d) = Some p → dg_performed d = false →
     dg_memory d (plan_address (pn_plan p)) = byp_expected_byte (plan_bytes (pn_plan p))).
Proof.
  intros Hc H0 Hr. pose proof (debuggee_reaches _ _ _ Hr (debuggee_start mem0 _ _ _ Hc H0)) as Hd.
  destruct d as [m mem ex]. split; [|split].
  - simpl. pose proof (bi_poison _ (dv_machine _ _ Hd)) as Hp. unfold cleanup_snapshot. simpl in *.
    destruct (bm_poison_evidence m) as [ev|]; [rewrite (Hp ev eq_refl)|];
      by eapply cleanup_restores.
  - simpl. intros Hidle. destruct Hd as [_ _ (memb & Hmi & Hmem)]. simpl in *.
    rewrite Hidle in Hmem. by eapply mirrors_same.
  - simpl. intros p Hp ->. destruct Hd as [_ _ (memb & Hmi & Hmem)]. simpl in *.
    rewrite Hp in Hmem. destruct Hmem as (Hcmp & _ & Hs). by rewrite (Hs _).
Qed.
