(* ===== verification/GdbPacket.v ===== *)
(** The GDB Remote Serial Protocol framing of
    [resymbol-gdb-remote/src/protocol.rs]: packet encoding with escapes and
    checksum, body decoding with run-length expansion under a size limit, the
    incremental packet reader, and the hex helpers. *)

From S2P Require Import Prelude.
Open Scope Z_scope.

Module Rsp.

(** ** Limits *)

Definition DEFAULT_MAX_PACKET_PAYLOAD : Z := 4096.
Definition DEFAULT_MAX_MEMORY_TRANSFER : Z := DEFAULT_MAX_PACKET_PAYLOAD / 2.
Definition DEFAULT_MAX_TARGET_DESCRIPTION : Z := 256 * 1024.

Record ProtocolLimits : Type := mkProtocolLimits {
  max_packet_payload : Z;
  max_memory_transfer : Z;
  max_target_description : Z
}.

Definition ProtocolLimits_default : ProtocolLimits :=
  mkProtocolLimits DEFAULT_MAX_PACKET_PAYLOAD DEFAULT_MAX_MEMORY_TRANSFER
    DEFAULT_MAX_TARGET_DESCRIPTION.

Definition ESCAPE_BYTE : Z := 125.
Definition ESCAPE_MASK : Z := 32.
Definition RLE_MARKER : Z := 42.
Definition RLE_BIAS : Z := 29.

(** [b'$'], [b'#'], [b'+'], [b'-'] and Ctrl-C. *)
Definition DOLLAR : Z := 36.
Definition HASH : Z := 35.
Definition PLUS : Z := 43.
Definition MINUS : Z := 45.
Definition CTRL_C : Z := 3.

(** [u8::wrapping_add]. *)
Definition wrapping_add (a b : Z) : Z := (a + b) mod 256.

(** ** Hex digits *)

Definition hex_digit (nibble : Z) : Z :=
  if in_range 0 9 nibble then 48 + nibble else 97 + (nibble - 10).

Definition hex_byte (byte : Z) : list Z :=
  [hex_digit (Z.shiftr byte 4); hex_digit (Z.land byte 15)].

Definition from_hex_digit (byte : Z) : option Z :=
  if in_range 48 57 byte then Some (byte - 48)
  else if in_range 97 102 byte then Some (byte - 97 + 10)
  else if in_range 65 70 byte then Some (byte - 65 + 10)
  else None.

(** ** Encoding *)

(** One iteration of the encoding loop, on the output and the checksum. *)
Definition encode_byte (acc : list Z * Z) (byte : Z) : list Z * Z :=
  let '(out, checksum) := acc in
  if (byte =? HASH) || (byte =? DOLLAR) || (byte =? ESCAPE_BYTE) || (byte =? RLE_MARKER) then
    let escaped := Z.lxor byte ESCAPE_MASK in
    (out ++ [ESCAPE_BYTE] ++ [escaped],
     wrapping_add (wrapping_add checksum ESCAPE_BYTE) escaped)
  else (out ++ [byte], wrapping_add checksum byte).

Definition encode_packet (payload : list Z) : list Z :=
  let '(out, checksum) := foldl encode_byte ([DOLLAR], 0) payload in
  out ++ [HASH] ++ hex_byte checksum.

(** ** Decoding *)

Fixpoint decode_loop (max_payload : Z) (body out : list Z) : option (list Z) :=
  match body with
  | [] => Some out
  | byte :: rest =>
      if byte =? ESCAPE_BYTE then
        match rest with
        | [] => None
        | escaped :: rest' =>
            if zlen out =? max_payload then None
            else decode_loop max_payload rest' (out ++ [Z.lxor escaped ESCAPE_MASK])
        end
      else if byte =? RLE_MARKER then
        match rest with
        | [] => None
        | count_byte :: rest' =>
            match checked_sub count_byte RLE_BIAS with
            | None => None
            | Some additional =>
                match list.last out with
                | None => None
                | Some previous =>
                    match checked_add usize_max (zlen out) additional with
                    | None => None
                    | Some new_len =>
                        if max_payload <? new_len then None
                        else decode_loop max_payload rest'
                               (out ++ replicate (Z.to_nat additional) previous)
                    end
                end
            end
        end
      else if zlen out =? max_payload then None
      else decode_loop max_payload rest (out ++ [byte])
  end.

Definition decode_body_with_limit (body : list Z) (max_payload : Z) : option (list Z) :=
  decode_loop max_payload body [].

Definition decode_body (body : list Z) : option (list Z) :=
  decode_body_with_limit body DEFAULT_MAX_PACKET_PAYLOAD.

Definition checksum (body : list Z) : Z := foldl wrapping_add 0 body.

(** ** The incremental reader *)

Inductive PacketEvent : Type :=
  | Ack
  | Nack
  | Interrupt
  | Packet (payload : list Z) (checksum_ok : bool).

Inductive State : Type := Idle | Body | Checksum1 | Checksum2.

Record PacketReader : Type := mkPacketReader {
  pr_state : State;
  pr_body : list Z;
  pr_running_checksum : Z;
  pr_expected_checksum : Z;
  pr_max_payload : Z;
  pr_max_transmitted_body : Z;
  pr_body_overflowed : bool
}.

Definition with_max_payload (max_payload : Z) : PacketReader :=
  mkPacketReader Idle [] 0 0 max_payload (Z.min (max_payload * 2) usize_max) false.

Definition PacketReader_new : PacketReader := with_max_payload DEFAULT_MAX_PACKET_PAYLOAD.

Definition pr_set_state (s : State) (r : PacketReader) : PacketReader :=
  mkPacketReader s (pr_body r) (pr_running_checksum r) (pr_expected_checksum r)
    (pr_max_payload r) (pr_max_transmitted_body r) (pr_body_overflowed r).

Definition pr_set_expected (v : Z) (r : PacketReader) : PacketReader :=
  mkPacketReader (pr_state r) (pr_body r) (pr_running_checksum r) v
    (pr_max_payload r) (pr_max_transmitted_body r) (pr_body_overflowed r).

Definition pr_set_frame (body : list Z) (running : Z) (overflowed : bool) (r : PacketReader)
    : PacketReader :=
  mkPacketReader (pr_state r) body running (pr_expected_checksum r)
    (pr_max_payload r) (pr_max_transmitted_body r) overflowed.

Definition bad_packet : option PacketEvent := Some (Packet [] false).

Definition push_idle (byte : Z) (r : PacketReader) : option PacketEvent * PacketReader :=
  if byte =? DOLLAR then (None, pr_set_state Body (pr_set_frame [] 0 false r))
  else if byte =? PLUS then (Some Ack, r)
  else if byte =? MINUS then (Some Nack, r)
  else if byte =? CTRL_C then (Some Interrupt, r)
  else (None, r).

Definition push_body (byte : Z) (r : PacketReader) : option PacketEvent * PacketReader :=
  if byte =? HASH then (None, pr_set_state Checksum1 r)
  else
    let running := wrapping_add (pr_running_checksum r) byte in
    if zlen (pr_body r) <? pr_max_transmitted_body r
    then (None, pr_set_frame (pr_body r ++ [byte]) running (pr_body_overflowed r) r)
    else (None, pr_set_frame (pr_body r) running true r).

Definition push_checksum1 (byte : Z) (r : PacketReader) : option PacketEvent * PacketReader :=
  match from_hex_digit byte with
  | Some value =>
      (None, pr_set_state Checksum2 (pr_set_expected (Z.land (Z.shiftl value 4) 255) r))
  | None => (bad_packet, pr_set_state Idle r)
  end.

Definition push_checksum2 (byte : Z) (r : PacketReader) : option PacketEvent * PacketReader :=
  let r := pr_set_state Idle r in
  match from_hex_digit byte with
  | None => (bad_packet, r)
  | Some low =>
      let r := pr_set_expected (Z.lor (pr_expected_checksum r) low) r in
      if negb (pr_expected_checksum r =? pr_running_checksum r) || pr_body_overflowed r
      then (bad_packet, r)
      else match decode_body_with_limit (pr_body r) (pr_max_payload r) with
      | Some payload => (Some (Packet payload true), r)
      | None => (bad_packet, r)
      end
  end.

Definition push (byte : Z) (r : PacketReader) : option PacketEvent * PacketReader :=
  match pr_state r with
  | Idle => push_idle byte r
  | Body => push_body byte r
  | Checksum1 => push_checksum1 byte r
  | Checksum2 => push_checksum2 byte r
  end.

(** ** Hex strings *)

Definition hex_encode (data : list Z) : list Z := data ≫= hex_byte.

(** [chunks_exact(2)] with the loop's early returns. *)
Fixpoint hex_decode_loop (data : list Z) : option (list Z) :=
  match data with
  | first :: second :: rest =>
      match from_hex_digit first, from_hex_digit second, hex_decode_loop rest with
      | Some hi, Some lo, Some out => Some (Z.lor (Z.land (Z.shiftl hi 4) 255) lo :: out)
      | _, _, _ => None
      end
  | _ => Some []
  end.

Definition hex_decode (data : list Z) : option (list Z) :=
  if negb (zlen data mod 2 =? 0) then None else hex_decode_loop data.

Fixpoint parse_hex_loop (value : Z) (data : list Z) : option Z :=
  match data with
  | [] => Some value
  | byte :: rest =>
      match from_hex_digit byte with
      | None => None
      | Some digit => parse_hex_loop (Z.lor (Z.land (Z.shiftl value 4) u64_max) digit) rest
      end
  end.

Definition parse_hex_u64 (data : list Z) : option Z :=
  if bool_decide (data = []) || (16 <? zlen data) then None else parse_hex_loop 0 data.

End Rsp.
