(* ===== verification/GdbPacketTheory.v ===== *)
(** Theorems about the remote serial protocol framing of [GdbPacket.v]: encoded
    streams read back exactly, a reader accepts complete and correctly summed
    frames only and stays within its limits, body decoding is the token
    grammar of the protocol, and the hex helpers are inverse and exact. *)

From S2P Require Import Prelude GdbPacket.
Import Rsp.
Open Scope Z_scope.

(** ** Escapes *)

Definition special (b : Z) : bool :=
  (b =? HASH) || (b =? DOLLAR) || (b =? ESCAPE_BYTE) || (b =? RLE_MARKER).

Definition escape (b : Z) : list Z :=
  if special b then [ESCAPE_BYTE; Z.lxor b ESCAPE_MASK] else [b].

Definition escaped (payload : list Z) : list Z := payload ≫= escape.

Lemma encode_fold payload out c :
  foldl encode_byte (out, c) payload
  = (out ++ escaped payload, foldl wrapping_add c (escaped payload)).
Proof.
  revert out c. induction payload as [|b payload IH]; intros out c; simpl.
  { by rewrite app_nil_r. }
  unfold escaped in *. simpl. rewrite foldl_app. unfold escape at 1 3, special.
  destruct (_ || _) eqn:Hs; rewrite IH; simpl; f_equal; by rewrite <-!(assoc_L (++)).
Qed.

Lemma encode_packet_eq payload :
  encode_packet payload
  = DOLLAR :: escaped payload ++ HASH :: hex_byte (checksum (escaped payload)).
Proof. unfold encode_packet. by rewrite encode_fold. Qed.

Lemma special_cases b : special b = true → b = 35 ∨ b = 36 ∨ b = 125 ∨ b = 42.
Proof. unfold special. rewrite !orb_true_iff, !Z.eqb_eq. naive_solver. Qed.

Lemma lxor_mask b : Z.lxor (Z.lxor b ESCAPE_MASK) ESCAPE_MASK = b.
Proof. by rewrite Z.lxor_assoc, Z.lxor_nilpotent, Z.lxor_0_r. Qed.

Lemma escape_no_hash b : Forall (.≠ HASH) (escape b).
Proof.
  unfold escape. destruct (special b) eqn:Hs.
  - apply special_cases in Hs. repeat constructor; [done|]. by destruct_or? Hs; subst.
  - constructor; [|done]. intros ->. done.
Qed.

Lemma escaped_no_hash payload : Forall (.≠ HASH) (escaped payload).
Proof.
  induction payload as [|b payload IH]; [constructor|].
  unfold escaped. simpl. apply Forall_app. split; [apply escape_no_hash|done].
Qed.

Lemma escaped_length payload : zlen (escaped payload) ≤ 2 * zlen payload.
Proof.
  unfold zlen, escaped. induction payload as [|b payload IH]; [done|].
  assert (length (escape b) ≤ 2)%nat by (unfold escape; destruct (special b); simpl; lia).
  rewrite bind_cons, length_app, length_cons. lia.
Qed.

Lemma decode_escape max b rest out :
  zlen out < max →
  decode_loop max (escape b ++ rest) out = decode_loop max rest (out ++ [b]).
Proof.
  intros Hm. unfold escape. destruct (special b) eqn:Hs; simpl.
  - rewrite (proj2 (Z.eqb_neq _ _)) by lia. by rewrite lxor_mask.
  - unfold special in Hs. rewrite !orb_false_iff in Hs. destruct Hs as [[[_ _] -> ] ->].
    by rewrite (proj2 (Z.eqb_neq _ _)) by lia.
Qed.

Lemma decode_escaped max payload out :
  zlen out + zlen payload ≤ max → decode_loop max (escaped payload) out = Some (out ++ payload).
Proof.
  revert out. induction payload as [|b payload IH]; intros out Hm; simpl.
  { by rewrite app_nil_r. }
  unfold escaped in *. unfold zlen in *. simpl in Hm |- *.
  rewrite decode_escape by (unfold zlen; lia).
  rewrite IH by (rewrite length_app; simpl; lia). by rewrite <-(assoc_L (++)).
Qed.

(** ** Hex digits *)

Lemma from_hex_digit_range b d : from_hex_digit b = Some d → 0 ≤ d ≤ 15.
Proof.
  unfold from_hex_digit, in_range.
  destruct (Z.leb_spec 48 b), (Z.leb_spec b 57), (Z.leb_spec 97 b), (Z.leb_spec b 102),
    (Z.leb_spec 65 b), (Z.leb_spec b 70); simpl; intros [= <-]; lia.
Qed.

Lemma from_hex_digit_hex n : 0 ≤ n ≤ 15 → from_hex_digit (hex_digit n) = Some n.
Proof.
  intros Hn. unfold hex_digit, from_hex_digit, in_range.
  destruct (Z.leb_spec 0 n), (Z.leb_spec n 9); simpl; [..|lia|lia].
  - destruct (Z.leb_spec 48 (48 + n)), (Z.leb_spec (48 + n) 57); simpl; try lia. f_equal. lia.
  - destruct (Z.leb_spec 48 (97 + (n - 10))), (Z.leb_spec (97 + (n - 10)) 57),
      (Z.leb_spec 97 (97 + (n - 10))), (Z.leb_spec (97 + (n - 10)) 102); simpl; try lia.
    f_equal. lia.
Qed.

(** Shifting in a value that fits the freed bits. *)
Lemma lor_shiftl k a b : 0 ≤ k → 0 ≤ b < 2 ^ k → Z.lor (Z.shiftl a k) b = a * 2 ^ k + b.
Proof.
  intros Hk Hb. rewrite <-Z.shiftl_mul_pow2 by done.
  assert (Z.land (Z.shiftl a k) b = 0) as Hd.
  { apply Z.bits_inj'. intros n Hn. rewrite Z.land_spec, Z.bits_0.
    destruct (Z.lt_ge_cases n k) as [Hlt|Hge]; [by rewrite Z.shiftl_spec_low|].
    rewrite <-(Z.mod_small b (2 ^ k)) by done. rewrite Z.mod_pow2_bits_high by lia.
    apply andb_false_r. }
  rewrite <-Z.lxor_lor by done. by rewrite Z.add_nocarry_lxor.
Qed.

(** A byte put together from two nibbles. *)
Lemma nibbles hi lo :
  0 ≤ hi ≤ 15 → 0 ≤ lo ≤ 15 → Z.lor (Z.land (Z.shiftl hi 4) 255) lo = 16 * hi + lo.
Proof.
  intros Hh Hl. change 255 with (Z.ones 8). rewrite Z.land_ones by lia.
  rewrite Z.mod_small; [|rewrite Z.shiftl_mul_pow2; lia]. rewrite lor_shiftl; lia.
Qed.

Lemma hex_byte_eq b : is_byte b → hex_byte b = [hex_digit (b / 16); hex_digit (b mod 16)].
Proof.
  intros Hb. unfold hex_byte. rewrite Z.shiftr_div_pow2 by lia.
  change 15 with (Z.ones 4). by rewrite Z.land_ones by lia.
Qed.

Lemma byte_nibbles b : is_byte b → 0 ≤ b / 16 ≤ 15 ∧ 0 ≤ b mod 16 ≤ 15 ∧ 16 * (b / 16) + b mod 16 = b.
Proof.
  unfold is_byte. intros Hb. pose proof (Z.div_mod b 16). pose proof (Z.mod_pos_bound b 16).
  lia.
Qed.

Lemma wrapping_add_byte a b : is_byte (wrapping_add a b).
Proof. unfold wrapping_add, is_byte. pose proof (Z.mod_pos_bound (a + b) 256). lia. Qed.

Lemma checksum_fold c body : is_byte c → is_byte (foldl wrapping_add c body).
Proof. revert c. induction body; intros c Hc; simpl; [done|]. apply IHbody, wrapping_add_byte. Qed.

Lemma checksum_byte body : is_byte (checksum body).
Proof. by apply checksum_fold. Qed.

(** The checksum as a sum. *)
Lemma checksum_sum_from c body :
  is_byte c → foldl wrapping_add c body = (c + foldr Z.add 0 body) mod 256.
Proof.
  revert c. induction body as [|b body IH]; intros c Hc; simpl.
  - rewrite Z.add_0_r, Z.mod_small; [done|]. unfold is_byte in Hc. lia.
  - rewrite IH by apply wrapping_add_byte. unfold wrapping_add.
    rewrite Zplus_mod_idemp_l. f_equal. lia.
Qed.

Lemma checksum_sum body : checksum body = foldr Z.add 0 body mod 256.
Proof. unfold checksum. by rewrite checksum_sum_from. Qed.

(** ** Feeding the reader *)

Fixpoint drain (bytes : list Z) (r : PacketReader) : list PacketEvent * PacketReader :=
  match bytes with
  | [] => ([], r)
  | b :: bytes' =>
      let '(e, r') := push b r in
      let '(es, r'') := drain bytes' r' in
      (option_list e ++ es, r'')
  end.

Lemma drain_app xs ys r :
  drain (xs ++ ys) r
  = let '(es, r') := drain xs r in let '(es', r'') := drain ys r' in (es ++ es', r'').
Proof.
  revert r. induction xs as [|x xs IH]; intros r; simpl.
  { by destruct (drain ys r). }
  destruct (push x r) as [e r1]. rewrite IH. destruct (drain xs r1) as [es r2].
  destruct (drain ys r2). by rewrite (assoc_L (++)).
Qed.

(** The body bytes a reader has seen since the last [$]. *)
Record collected (r : PacketReader) (body : list Z) : Prop := {
  co_body : pr_body r = take (Z.to_nat (pr_max_transmitted_body r)) body;
  co_running : pr_running_checksum r = checksum body;
  co_overflowed : pr_body_overflowed r = (pr_max_transmitted_body r <? zlen body)
}.

Lemma checksum_snoc body b : checksum (body ++ [b]) = wrapping_add (checksum body) b.
Proof. unfold checksum. by rewrite foldl_app. Qed.

Lemma push_collects r body b :
  0 ≤ pr_max_transmitted_body r → pr_state r = Body → collected r body → b ≠ HASH →
  ∃ r', push b r = (None, r') ∧ collected r' (body ++ [b]) ∧ pr_state r' = Body
        ∧ pr_max_payload r' = pr_max_payload r
        ∧ pr_max_transmitted_body r' = pr_max_transmitted_body r.
Proof.
  intros Hmax Hs [Hb Hc Ho] Hne. unfold push, push_body. rewrite Hs, (proj2 (Z.eqb_neq _ _)) by done.
  assert (zlen (body ++ [b]) = zlen body + 1) as Hlen by (unfold zlen; rewrite length_app; simpl; lia).
  assert (zlen (pr_body r) = Z.min (pr_max_transmitted_body r) (zlen body)) as Hlb.
  { rewrite Hb. unfold zlen. rewrite length_take. lia. }
  destruct (Z.ltb_spec (zlen (pr_body r)) (pr_max_transmitted_body r)) as [Hlt|Hge];
    eexists; (split; [done|]); (split; [|done]); split; simpl; rewrite ?checksum_snoc, ?Hc; try done.
  - rewrite Hb, (take_ge body), take_ge by (rewrite ?length_app; unfold zlen in *; simpl; lia). done.
  - rewrite Ho, Hlen. apply eq_bool_prop_intro. rewrite !Is_true_true, !Z.ltb_lt. lia.
  - rewrite Hb, take_app_le; [done|]. unfold zlen in *. lia.
  - symmetry. apply Z.ltb_lt. lia.
Qed.

(** What a reader has seen of the bytes fed to it so far. *)
Definition seen (bytes : list Z) (r : PacketReader) : Prop :=
  match pr_state r with
  | Idle => True
  | Body => ∃ pre body, bytes = pre ++ DOLLAR :: body ∧ Forall (.≠ HASH) body ∧ collected r body
  | Checksum1 =>
      ∃ pre body, bytes = pre ++ DOLLAR :: body ++ [HASH] ∧ Forall (.≠ HASH) body
                  ∧ collected r body
  | Checksum2 =>
      ∃ pre body h hi, bytes = pre ++ DOLLAR :: body ++ [HASH; h] ∧ Forall (.≠ HASH) body
                       ∧ collected r body ∧ from_hex_digit h = Some hi
                       ∧ pr_expected_checksum r = Z.land (Z.shiftl hi 4) 255
  end.

(** The limits a reader was built with. *)
Definition limits (max : Z) (r : PacketReader) : Prop :=
  pr_max_payload r = max ∧ pr_max_transmitted_body r = Z.min (max * 2) usize_max.

(** A complete frame: a body without [#] that fits the limit, its checksum in
    two hex digits, and the payload the body decodes to. *)
Record frame (max : Z) (bytes payload : list Z) : Prop := {
  fr_body : ∃ body h l hi lo, bytes = DOLLAR :: body ++ [HASH; h; l]
    ∧ Forall (.≠ HASH) body ∧ zlen body ≤ Z.min (max * 2) usize_max
    ∧ from_hex_digit h = Some hi ∧ from_hex_digit l = Some lo ∧ 16 * hi + lo = checksum body
    ∧ decode_body_with_limit body max = Some payload
}.

(** What the last byte of a frame makes of it. *)
Definition verdict (max : Z) (body : list Z) (sum : Z) : option PacketEvent :=
  if negb (sum =? checksum body) || (Z.min (max * 2) usize_max <? zlen body) then bad_packet
  else match decode_body_with_limit body max with
  | Some payload => Some (Packet payload true)
  | None => bad_packet
  end.

Lemma push_verdict max r body l lo hi :
  limits max r → 0 ≤ max → pr_state r = Checksum2 → collected r body →
  pr_expected_checksum r = Z.land (Z.shiftl hi 4) 255 → 0 ≤ hi ≤ 15 →
  from_hex_digit l = Some lo →
  ∃ r', push l r = (verdict max body (16 * hi + lo), r') ∧ pr_state r' = Idle ∧ limits max r'.
Proof.
  intros [Hm Ht] H0 Hs [Hb Hc Ho] He Hhi Hl. unfold push, push_checksum2. rewrite Hs, Hl. simpl.
  rewrite He, (nibbles hi lo) by eauto using from_hex_digit_range. rewrite Hc, Ho, Ht, Hm, Hb, Ht.
  unfold verdict. destruct (negb _) eqn:Hn; simpl; [by eexists; split; [|split; [|split]]|].
  destruct (Z.ltb_spec (Z.min (max * 2) usize_max) (zlen body)) as [Hlt|Hge];
    [by eexists; split; [|split; [|split]]|].
  rewrite take_ge by (unfold zlen in *; lia).
  destruct (decode_body_with_limit body max); by eexists; split; [|split; [|split]].
Qed.

Lemma usize_max_pos : 0 ≤ usize_max.
Proof. done. Qed.

Lemma collected_start r :
  0 ≤ pr_max_transmitted_body r → collected (pr_set_state Body (pr_set_frame [] 0 false r)) [].
Proof.
  intros Hm. split; simpl; [by rewrite take_nil|done|]. symmetry. by apply Z.ltb_ge.
Qed.

Lemma push_seen max bytes r b e r' :
  0 ≤ max → limits max r → seen bytes r → push b r = (e, r') →
  limits max r' ∧ seen (bytes ++ [b]) r'
  ∧ ∀ p, e = Some (Packet p true) → ∃ pre fr, bytes ++ [b] = pre ++ fr ∧ frame max fr p.
Proof.
  intros H0 Hl Hseen Hp. pose proof usize_max_pos. unfold seen in Hseen.
  destruct (pr_state r) eqn:Hs; unfold push in Hp; rewrite Hs in Hp.
  - unfold push_idle in Hp. unfold seen.
    repeat case_match; simplify_eq/=; rewrite ?Hs in *; simplify_eq; split_and!; try done.
    exists bytes, []. apply Z.eqb_eq in H1 as ->. split_and!; [done..|].
    apply collected_start. destruct Hl as [_ ->]. lia.
  - destruct Hseen as (pre & body & -> & Hno & Hc).
    destruct (decide (b = HASH)) as [->|Hne].
    + unfold push_body in Hp. simpl in Hp. simplify_eq. split; [done|]. split; [|done].
      exists pre, body. rewrite <-(assoc_L (++)). split_and!; [done..|]. by destruct Hc.
    + destruct (push_collects r body b) as (r1 & Hr1 & Hc1 & Hs1 & Hm1 & Ht1); [destruct Hl; lia|done..|].
      unfold push in Hr1. rewrite Hs, Hp in Hr1. simplify_eq. split; [by unfold limits; rewrite Hm1, Ht1|].
      split; [|done]. unfold seen. rewrite Hs1. exists pre, (body ++ [b]).
      rewrite <-(assoc_L (++)). split_and!; [done| |done]. by apply Forall_app_2; [|constructor].
  - destruct Hseen as (pre & body & -> & Hno & Hc). unfold push_checksum1 in Hp.
    destruct (from_hex_digit b) as [hi|] eqn:Hh; simplify_eq; (split; [done|]); (split; [|done]).
    + unfold seen. simpl. exists pre, body, b, hi. rewrite <-!(assoc_L (++)). simpl.
      rewrite <-(assoc_L (++)). split_and!; [done..| |done|done]. by destruct Hc.
    + done.
  - destruct Hseen as (pre & body & h & hi & -> & Hno & Hc & Hh & He).
    destruct (from_hex_digit b) as [lo|] eqn:Hlo.
    2: { unfold push_checksum2 in Hp. rewrite Hlo in Hp. by simplify_eq. }
    destruct (push_verdict max r body b lo hi) as (r1 & Hr1 & Hs1 & Hl1); eauto using from_hex_digit_range.
    unfold push in Hr1. rewrite Hs, Hp in Hr1. simplify_eq. split; [done|].
    split; [unfold seen; by rewrite Hs1|]. intros p Hv. exists pre, (DOLLAR :: body ++ [HASH; h; b]).
    rewrite <-(assoc_L (++)). simpl. rewrite <-(assoc_L (++)). split; [done|]. split.
    exists body, h, b, hi, lo. unfold verdict in Hv.
    destruct (_ || _) eqn:Hg; [done|]. autorewrite with rust in Hg.
    destruct (decode_body_with_limit body max) eqn:Hd; simplify_eq. naive_solver.
Qed.

(** ** The grammar of a body *)

(** A body is a sequence of literal bytes, escaped bytes, and repetitions of
    the byte before them. *)
Inductive token : Type :=
  | Literal (b : Z)
  | Escaped (b : Z)
  | Run (additional : Z).

Definition token_ok (t : token) : Prop :=
  match t with
  | Literal b => b ≠ ESCAPE_BYTE ∧ b ≠ RLE_MARKER
  | Escaped _ => True
  | Run n => 0 ≤ n
  end.

Definition token_bytes (t : token) : list Z :=
  match t with
  | Literal b => [b]
  | Escaped b => [ESCAPE_BYTE; Z.lxor b ESCAPE_MASK]
  | Run n => [RLE_MARKER; RLE_BIAS + n]
  end.

Fixpoint expand (ts : list token) (out : list Z) : option (list Z) :=
  match ts with
  | [] => Some out
  | Literal b :: ts' | Escaped b :: ts' => expand ts' (out ++ [b])
  | Run n :: ts' =>
      match list.last out with
      | Some b => expand ts' (out ++ replicate (Z.to_nat n) b)
      | None => None
      end
  end.

Lemma expand_length ts out res :
  Forall token_ok ts → expand ts out = Some res → zlen out ≤ zlen res.
Proof.
  intros Hok. revert out. induction Hok as [|t ts Ht Hok IH]; intros out He; simpl in He.
  { by simplify_eq. }
  destruct t as [b|b|n].
  - apply IH in He. rewrite zlen_app in He. unfold zlen at 2 in He. simpl in He. lia.
  - apply IH in He. rewrite zlen_app in He. unfold zlen at 2 in He. simpl in He. lia.
  - destruct (list.last out); [|done]. apply IH in He. rewrite zlen_app in He.
    unfold zlen at 2 in He. lia.
Qed.

Lemma decode_token max t rest out :
  max ≤ usize_max → token_ok t →
  (∀ out', expand [t] out = Some out' → zlen out' ≤ max →
     decode_loop max (token_bytes t ++ rest) out = decode_loop max rest out').
Proof.
  intros Hmax Ht out' He Hlen. destruct t as [b|b|n]; simpl in *.
  - destruct Ht as [H1 H2]. injection He as <-. rewrite zlen_app in Hlen. unfold zlen at 2 in Hlen.
    simpl in Hlen. by rewrite !(proj2 (Z.eqb_neq _ _)) by (done || lia).
  - injection He as <-. rewrite zlen_app in Hlen. unfold zlen at 2 in Hlen. simpl in Hlen.
    rewrite (proj2 (Z.eqb_neq _ _)) by lia. by rewrite lxor_mask.
  - destruct (list.last out) as [b|]; [|done]. injection He as <-.
    rewrite zlen_app, zlen_replicate in Hlen by done.
    rewrite (proj2 (checked_sub_some _ _ n)) by lia.
    rewrite (proj2 (checked_add_some _ _ _ (zlen out + n))) by lia.
    by rewrite (proj2 (Z.ltb_ge _ _)) by lia.
Qed.

Lemma decode_expand max ts out res :
  max ≤ usize_max → Forall token_ok ts → expand ts out = Some res → zlen res ≤ max →
  decode_loop max (ts ≫= token_bytes) out = Some res.
Proof.
  intros Hmax Hok. revert out. induction Hok as [|t ts Ht Hok IH]; intros out He Hlen.
  { done. }
  assert (∃ mid, expand [t] out = Some mid ∧ expand ts mid = Some res) as (mid & Hm & He').
  { destruct t; simpl in *; [eauto|eauto|]. destruct (list.last out); [eauto|done]. }
  rewrite bind_cons, (decode_token max t _ out Hmax Ht mid Hm); [by apply IH|].
  apply expand_length in He'; [lia|done].
Qed.

(** One token read off the front of a body. *)
Lemma decode_step max b body out res :
  decode_loop max (b :: body) out = Some res → zlen out ≤ max →
  ∃ t rest mid, token_ok t ∧ b :: body = token_bytes t ++ rest ∧ expand [t] out = Some mid
    ∧ zlen mid ≤ max ∧ decode_loop max rest mid = Some res.
Proof.
  intros Hd Hlen. simpl in Hd. destruct (Z.eqb_spec b ESCAPE_BYTE) as [->|H1].
  { destruct body as [|c body]; [done|]. destruct (Z.eqb_spec (zlen out) max); [done|].
    exists (Escaped (Z.lxor c ESCAPE_MASK)), body, (out ++ [Z.lxor c ESCAPE_MASK]).
    simpl. rewrite lxor_mask, zlen_app. unfold zlen at 2. simpl. split_and!; try done. lia. }
  destruct (Z.eqb_spec b RLE_MARKER) as [->|H2].
  { destruct body as [|c body]; [done|]. destruct (checked_sub c RLE_BIAS) as [n|] eqn:Hn; [|done].
    apply checked_sub_some in Hn as [-> Hc]. destruct (list.last out) as [p|] eqn:Hp; [|done].
    destruct (checked_add _ _ _) as [k|] eqn:Hk; [|done]. apply checked_add_some in Hk as [-> Hk].
    destruct (Z.ltb_spec max (zlen out + (c - RLE_BIAS))); [done|].
    exists (Run (c - RLE_BIAS)), body, (out ++ replicate (Z.to_nat (c - RLE_BIAS)) p).
    simpl. rewrite Hp, zlen_app, zlen_replicate by lia. split_and!; try done; [lia|]. do 2 f_equal. lia. }
  destruct (Z.eqb_spec (zlen out) max); [done|]. exists (Literal b), body, (out ++ [b]).
  simpl. rewrite zlen_app. unfold zlen at 2. simpl. split_and!; try done. lia.
Qed.

Lemma expand_cons t ts out mid :
  expand [t] out = Some mid → expand (t :: ts) out = expand ts mid.
Proof. destruct t; simpl; [by intros [= <-]..|]. destruct (list.last out); [by intros [= <-]|done]. Qed.

Lemma decode_tokens max body out res :
  zlen out ≤ max → decode_loop max body out = Some res →
  ∃ ts, Forall token_ok ts ∧ body = ts ≫= token_bytes ∧ expand ts out = Some res ∧ zlen res ≤ max.
Proof.
  remember (length body) as n eqn:Hn. revert body Hn out.
  induction (lt_wf n) as [n _ IH]; intros body -> out Hlen Hd. destruct body as [|b body].
  { simpl in Hd. simplify_eq. by exists []. }
  destruct (decode_step _ _ _ _ _ Hd Hlen) as (t & rest & mid & Ht & Hb & Hm & Hml & Hd').
  assert (length rest < length (b :: body))%nat as Hlt.
  { rewrite Hb, length_app. destruct t; simpl; lia. }
  destruct (IH _ Hlt rest eq_refl mid Hml Hd') as (ts & Hts & -> & He & Hres).
  exists (t :: ts). split; [by constructor|]. split; [by rewrite Hb|]. split; [|done].
  by rewrite (expand_cons _ _ _ mid).
Qed.

(** Body decoding is exactly the token grammar of the protocol under the
    size limit: a body decodes to some payload precisely when it is a sequence
    of literal bytes, escapes and repetitions of a preceding byte whose
    expansion is that payload, and the payload is within the limit. *)
Theorem decode_body_grammar body max payload :
  0 ≤ max ≤ usize_max →
  decode_body_with_limit body max = Some payload
  ↔ ∃ ts, Forall token_ok ts ∧ body = ts ≫= token_bytes ∧ expand ts [] = Some payload
          ∧ zlen payload ≤ max.
Proof.
  intros Hmax. split.
  - apply decode_tokens. unfold zlen. simpl. lia.
  - intros (ts & Hok & -> & He & Hlen). apply decode_expand; [lia|done..].
Qed.

(** ** Streams *)

Lemma decode_limit body max payload :
  0 ≤ max → decode_body_with_limit body max = Some payload → zlen payload ≤ max.
Proof. intros H0 Hd. apply decode_tokens in Hd as (? & _ & _ & _ & ?); [done|]. unfold zlen. simpl. lia. Qed.

Definition bounded (r : PacketReader) : Prop := zlen (pr_body r) ≤ pr_max_transmitted_body r.

Lemma push_bounded b r :
  0 ≤ pr_max_transmitted_body r → bounded r → bounded (push b r).2.
Proof.
  unfold bounded, push, push_idle, push_body, push_checksum1, push_checksum2. intros H0 Hb.
  repeat (case_match; simplify_eq/=; try done).
  rewrite zlen_app. autorewrite with rust in *. unfold zlen at 2. simpl. lia.
Qed.

Lemma drain_seen max bytes r pre es r' :
  0 ≤ max → limits max r → bounded r → seen pre r → drain bytes r = (es, r') →
  limits max r' ∧ bounded r'
  ∧ ∀ p, Packet p true ∈ es → ∃ a fr b, pre ++ bytes = a ++ fr ++ b ∧ frame max fr p.
Proof.
  intros H0. revert pre r es r'. induction bytes as [|b bytes IH]; intros pre r es r' Hl Hb Hs Hd;
    simpl in Hd.
  { simplify_eq. split_and!; [done..|]. set_solver. }
  destruct (push b r) as [e r1] eqn:Hp. destruct (drain bytes r1) as [es1 r2] eqn:Hd1. simplify_eq.
  destruct (push_seen _ _ _ _ _ _ H0 Hl Hs Hp) as (Hl1 & Hs1 & Hf).
  assert (bounded r1) as Hb1.
  { change r1 with (e, r1).2. rewrite <-Hp. apply push_bounded; [|done].
    destruct Hl as [_ ->]. pose proof usize_max_pos. lia. }
  destruct (IH (pre ++ [b]) r1 _ _ Hl1 Hb1 Hs1 Hd1) as (Hl2 & Hb2 & Hf2). split_and!; [done..|].
  rewrite <-(assoc_L (++)) in Hf2. intros p [Hin|Hin]%elem_of_app; [|by apply Hf2].
  destruct e as [e|]; simpl in Hin; [|set_solver]. apply list_elem_of_singleton in Hin as <-.
  destruct (Hf p eq_refl) as (a & fr & Heq & Hfr). exists a, fr, bytes. split; [|done].
  change (b :: bytes) with ([b] ++ bytes). by rewrite (assoc_L (++)), Heq, <-(assoc_L (++)).
Qed.

(** Whatever bytes arrive, a reader accepts complete frames only.  It
    never retains more than twice the payload limit, and for every packet it
    reports as good the input contains, contiguously, a [$], a body without
    [#] within that limit, a [#] and two hex digits that are the checksum of
    the body, and the reported payload is what the body decodes to, within the
    payload limit. *)
Theorem reader_accepts_only_frames max bytes es r :
  0 ≤ max → drain bytes (with_max_payload max) = (es, r) →
  zlen (pr_body r) ≤ 2 * max
  ∧ ∀ payload, Packet payload true ∈ es →
      zlen payload ≤ max ∧ ∃ a fr b, bytes = a ++ fr ++ b ∧ frame max fr payload.
Proof.
  intros H0 Hd. pose proof usize_max_pos.
  destruct (drain_seen max bytes (with_max_payload max) [] es r) as ([_ Hl] & Hb & Hf); try done.
  { unfold bounded, zlen. simpl. lia. }
  unfold bounded in Hb. split; [lia|]. intros p Hp. destruct (Hf p Hp) as (a & fr & b & Heq & Hfr).
  split; [|by exists a, fr, b]. destruct Hfr as [(body & _ & _ & _ & _ & _ & _ & _ & _ & _ & _ & Hdec)].
  by eapply decode_limit.
Qed.

Lemma drain_body max r pre body :
  0 ≤ max → limits max r → pr_state r = Body → collected r pre → Forall (.≠ HASH) body →
  ∃ r', drain body r = ([], r') ∧ limits max r' ∧ pr_state r' = Body ∧ collected r' (pre ++ body).
Proof.
  intros H0 Hl Hs Hc Hno. pose proof usize_max_pos. revert pre r Hl Hs Hc.
  induction Hno as [|b body Hb Hno IH]; intros pre r Hl Hs Hc.
  { exists r. by rewrite app_nil_r. }
  destruct (push_collects r pre b) as (r1 & Hr1 & Hc1 & Hs1 & Hm1 & Ht1); [destruct Hl; lia|done..|].
  destruct (IH (pre ++ [b]) r1) as (r2 & Hd & Hl2 & Hs2 & Hc2); [|done..|].
  { unfold limits. by rewrite Hm1, Ht1. }
  exists r2. rewrite <-(assoc_L (++)) in Hc2. split; [|done]. simpl. by rewrite Hr1, Hd.
Qed.

(** The bytes make the reader report one event, at their last byte, and leave
    it idle. *)
Definition emits (max : Z) (r : PacketReader) (bytes : list Z) (e : PacketEvent)
    (r' : PacketReader) : Prop :=
  (∃ init b r1, bytes = init ++ [b] ∧ drain init r = ([], r1) ∧ push b r1 = (Some e, r'))
  ∧ limits max r' ∧ pr_state r' = Idle.

Lemma emits_drain max r bytes e r' : emits max r bytes e r' → drain bytes r = ([e], r').
Proof.
  intros [(init & b & r1 & -> & Hd & Hp) _]. rewrite drain_app, Hd. simpl. by rewrite Hp.
Qed.

Lemma verdict_some max body sum : ∃ e, verdict max body sum = Some e.
Proof. unfold verdict, bad_packet. repeat case_match; eauto. Qed.

(** An idle reader judges a whole frame by its body and checksum. *)
Lemma frame_emits max r body h l hi lo e :
  0 ≤ max → limits max r → pr_state r = Idle → Forall (.≠ HASH) body →
  from_hex_digit h = Some hi → from_hex_digit l = Some lo →
  verdict max body (16 * hi + lo) = Some e →
  ∃ r', emits max r (DOLLAR :: body ++ [HASH; h; l]) e r'.
Proof.
  intros H0 Hl Hs Hno Hh Hlo He. pose proof usize_max_pos.
  destruct (drain_body max (pr_set_state Body (pr_set_frame [] 0 false r)) [] body)
    as (r1 & Hd1 & Hl1 & Hs1 & Hc1); [done|done|done| |done|].
  { apply collected_start. destruct Hl as [_ ->]. lia. }
  assert (push DOLLAR r = (None, pr_set_state Body (pr_set_frame [] 0 false r))) as Hp
    by (unfold push, push_idle; by rewrite Hs).
  destruct (push_verdict max
    (pr_set_state Checksum2 (pr_set_expected (Z.land (Z.shiftl hi 4) 255) (pr_set_state Checksum1 r1)))
    body l lo hi) as (r2 & Hr2 & Hs2 & Hl2); eauto using from_hex_digit_range; [by destruct Hc1|].
  exists r2. split; [|done]. exists (DOLLAR :: body ++ [HASH; h]), l. eexists.
  split; [simpl; by rewrite <-(assoc_L (++))|]. split; [|by rewrite Hr2, He].
  simpl. rewrite Hp, drain_app, Hd1. simpl. unfold push at 1, push_body. rewrite Hs1. simpl.
  unfold push at 1, push_checksum1. simpl. by rewrite Hh.
Qed.

Lemma hex_byte_digits b :
  is_byte b → ∃ h l hi lo, hex_byte b = [h; l] ∧ from_hex_digit h = Some hi
                           ∧ from_hex_digit l = Some lo ∧ 16 * hi + lo = b.
Proof.
  intros Hb. rewrite hex_byte_eq by done. destruct (byte_nibbles b Hb) as (H1 & H2 & H3).
  eexists _, _, (b / 16), (b mod 16). split; [done|]. by rewrite !from_hex_digit_hex.
Qed.

(** What a peer sends: acknowledgements, interrupts, and packets. *)
Inductive message : Type :=
  | SendAck
  | SendNack
  | SendInterrupt
  | SendPacket (payload : list Z).

Definition wire (x : message) : list Z :=
  match x with
  | SendAck => [PLUS]
  | SendNack => [MINUS]
  | SendInterrupt => [CTRL_C]
  | SendPacket payload => encode_packet payload
  end.

Definition event (x : message) : PacketEvent :=
  match x with
  | SendAck => Ack
  | SendNack => Nack
  | SendInterrupt => Interrupt
  | SendPacket payload => Packet payload true
  end.

Definition payload_fits (max : Z) (x : message) : Prop :=
  match x with SendPacket payload => zlen payload ≤ max | _ => True end.

Lemma verdict_encoded max payload :
  max * 2 ≤ usize_max → zlen payload ≤ max →
  verdict max (escaped payload) (checksum (escaped payload)) = Some (Packet payload true).
Proof.
  intros Hmax Hlen. unfold verdict. rewrite Z.eqb_refl. simpl.
  pose proof (escaped_length payload). rewrite (proj2 (Z.ltb_ge _ _)) by lia.
  unfold decode_body_with_limit. rewrite decode_escaped; [done|]. unfold zlen in *. simpl. lia.
Qed.

Lemma message_emits max r x :
  0 ≤ max → max * 2 ≤ usize_max → payload_fits max x → limits max r → pr_state r = Idle →
  ∃ r', emits max r (wire x) (event x) r'.
Proof.
  intros H0 Hmax Hx Hl Hs. destruct x as [| | |payload]; simpl.
  1-3: exists r; (split; [|done]); eexists [], _, r; (split; [done|]); (split; [done|]);
       unfold push; by rewrite Hs.
  rewrite encode_packet_eq.
  destruct (hex_byte_digits _ (checksum_byte (escaped payload))) as (h & l & hi & lo & -> & Hh & Hlo & Hsum).
  apply (frame_emits max r (escaped payload) h l hi lo); [done..|apply escaped_no_hash|done|done|].
  by rewrite Hsum, verdict_encoded.
Qed.

Lemma drain_message max r x :
  0 ≤ max → max * 2 ≤ usize_max → payload_fits max x → limits max r → pr_state r = Idle →
  ∃ r', drain (wire x) r = ([event x], r') ∧ limits max r' ∧ pr_state r' = Idle.
Proof.
  intros H0 Hmax Hx Hl Hs. destruct (message_emits max r x) as [r' He]; [done..|].
  exists r'. split; [by eapply emits_drain|apply He].
Qed.

Lemma checksum_damaged body i b b' :
  body !! i = Some b → is_byte b → is_byte b' → b ≠ b' → checksum (<[i := b']> body) ≠ checksum body.
Proof.
  intros Hi Hb Hb' Hne. rewrite !checksum_sum.
  assert (foldr Z.add 0 (<[i := b']> body) = foldr Z.add 0 body + (b' - b)) as ->.
  { revert i Hi. induction body as [|c body IH]; intros [|i] Hi; simplify_eq/=; [lia|].
    rewrite IH by done. lia. }
  unfold is_byte in *. intros Heq. set (s := foldr Z.add 0 body) in *.
  pose proof (Z.div_mod (s + (b' - b)) 256). pose proof (Z.div_mod s 256). lia.
Qed.

(** C21: what one side encodes the other side reads.  Any sequence of
    acknowledgements, interrupts and packets whose payloads are within the
    limit, encoded and sent back to back, is read by a reader with that limit
    as exactly that sequence, whatever bytes the payloads hold; and when one
    byte of the transmitted body of a packet is replaced by another byte that
    does not end the body, the packet is reported as bad. *)
Theorem stream_roundtrip max :
  0 ≤ max → max * 2 ≤ usize_max →
  (∀ xs, Forall (payload_fits max) xs →
     (drain (xs ≫= wire) (with_max_payload max)).1 = event <$> xs)
  ∧ (∀ payload i b b', escaped payload !! i = Some b → is_byte b → is_byte b' → b ≠ b' →
     b' ≠ HASH →
     (drain (DOLLAR :: <[i := b']> (escaped payload)
             ++ HASH :: hex_byte (checksum (escaped payload))) (with_max_payload max)).1
     = [Packet [] false]).
Proof.
  intros H0 Hmax. split.
  - intros xs Hxs. assert (∀ r, limits max r → pr_state r = Idle → (drain (xs ≫= wire) r).1 = event <$> xs) as Hall.
    { induction Hxs as [|x xs Hx Hxs IH]; intros r Hl Hs; [done|].
      destruct (drain_message max r x) as (r1 & Hd & Hl1 & Hs1); [done..|].
      specialize (IH r1 Hl1 Hs1). rewrite bind_cons, drain_app, Hd.
      destruct (drain (xs ≫= wire) r1) as [es r2]. simpl in *. by rewrite IH. }
    by apply Hall.
  - intros payload i b b' Hi Hb Hb' Hne Hhash. destruct (hex_byte_digits _ (checksum_byte (escaped payload))) as (h & l & hi & lo & -> & Hh & Hlo & Hsum).
    destruct (frame_emits max (with_max_payload max) (<[i := b']> (escaped payload)) h l hi lo
      (Packet [] false)) as [r' He]; [done..| |done|done| |].
    { apply Forall_insert; [apply escaped_no_hash|done]. }
    { unfold verdict. rewrite Hsum. pose proof (checksum_damaged _ _ _ _ Hi Hb Hb' Hne).
      by rewrite (proj2 (Z.eqb_neq _ _)) by congruence. }
    by rewrite (emits_drain _ _ _ _ _ He).
Qed.

(** ** Hex strings *)

Lemma hex_decode_encode data :
  Forall is_byte data → hex_decode_loop (hex_encode data) = Some data.
Proof.
  induction 1 as [|b data Hb Hd IH]; [done|].
  unfold hex_encode in *. rewrite bind_cons, hex_byte_eq by done. simpl.
  destruct (byte_nibbles b Hb) as (H1 & H2 & H3).
  by rewrite !from_hex_digit_hex, IH, nibbles, H3 by done.
Qed.

Lemma hex_encode_even data : zlen (hex_encode data) = 2 * zlen data.
Proof.
  unfold zlen, hex_encode. induction data as [|b data IH]; [done|].
  rewrite bind_cons, length_app, length_cons. simpl length. lia.
Qed.

(** The number a string of hex digits denotes. *)
Fixpoint hex_value (value : Z) (data : list Z) : option Z :=
  match data with
  | [] => Some value
  | b :: data' =>
      match from_hex_digit b with Some d => hex_value (16 * value + d) data' | None => None end
  end.

Lemma parse_hex_value data value (k : nat) :
  0 ≤ value < 16 ^ Z.of_nat k → (k + length data ≤ 16)%nat →
  parse_hex_loop value data = hex_value value data
  ∧ ∀ n, hex_value value data = Some n → 0 ≤ n < 16 ^ Z.of_nat (k + length data).
Proof.
  revert value k. induction data as [|b data IH]; intros value k Hv Hk; simpl in *.
  { split; [done|]. intros n [= <-]. by rewrite Nat.add_0_r. }
  destruct (from_hex_digit b) as [d|] eqn:Hd; [|done].
  apply from_hex_digit_range in Hd.
  assert (16 * value + d < 16 ^ Z.of_nat (S k)).
  { rewrite Nat2Z.inj_succ, Z.pow_succ_r by lia. lia. }
  assert (16 ^ Z.of_nat (S k) ≤ 16 ^ 16) by (apply Z.pow_le_mono_r; lia).
  change (16 ^ 16) with (2 ^ 64) in *.
  destruct (IH (16 * value + d) (S k)) as [IH1 IH2]; [lia|lia|].
  replace (k + S (length data))%nat with (S k + length data)%nat by lia. split; [|done].
  rewrite <-IH1. f_equal. change u64_max with (Z.ones 64). rewrite Z.land_ones by lia.
  rewrite Z.mod_small; [|rewrite Z.shiftl_mul_pow2; lia]. rewrite lor_shiftl; lia.
Qed.

(** The hex helpers lose nothing.  Decoding the hex form of any bytes
    gives the bytes back; and a non-empty string of at most sixteen hex digits
    parses to exactly the number it denotes, which fits 64 bits, so no digit is
    shifted out. *)
Theorem hex_exact :
  (∀ data, Forall is_byte data → hex_decode (hex_encode data) = Some data)
  ∧ (∀ digits, digits ≠ [] → (length digits ≤ 16)%nat →
     parse_hex_u64 digits = hex_value 0 digits
     ∧ ∀ n, parse_hex_u64 digits = Some n → in_u64 n).
Proof.
  split.
  - intros data Hd. unfold hex_decode. rewrite hex_encode_even, Z.mul_comm, Z.mod_mul by lia. simpl.
    by apply hex_decode_encode.
  - intros digits Hne Hlen. unfold parse_hex_u64. rewrite bool_decide_eq_false_2 by done.
    rewrite (proj2 (Z.ltb_ge _ _)) by (unfold zlen; lia). simpl.
    destruct (parse_hex_value digits 0 0) as [-> Hb]; [lia|lia|]. split; [done|].
    intros n Hn. specialize (Hb n Hn). unfold in_u64, u64_max.
    assert (16 ^ Z.of_nat (0 + length digits) ≤ 16 ^ 16) by (apply Z.pow_le_mono_r; lia).
    change (16 ^ 16) with (2 ^ 64) in *. lia.
Qed.
