(* ===== verification/GdbTransport.v ===== *)
(** The byte channels of [resymbol-gdb-remote/src/transport.rs]: the interface
    that the remote protocol server and client use, the buffering transport
    over a stream, and the in-process stream. *)

From S2P Require Import Prelude.
Open Scope Z_scope.

Module RspTransport.

(** ** Errors *)

(** The kinds of [std::io::Error] that the crate makes or tests for. *)
Inductive ErrorKind : Type :=
  | UnexpectedEof | InvalidData | InvalidInput | TimedOut | Unsupported | BrokenPipe | Other.
#[global] Instance ErrorKind_eq_dec : EqDecision ErrorKind.
Proof. solve_decision. Defined.

(** An error, with the bytes that its message quotes. *)
Record IoError : Type := mkIoError {
  io_kind : ErrorKind;
  io_message : string;
  io_quoted : list Z
}.

Definition io_error (kind : ErrorKind) (message : string) : IoError := mkIoError kind message [].

Abbreviation io_op T A := (smonad T IoError A).

(** ** The interface *)

Class Transport (Tr : Type) : Type := {
  read_byte : io_op Tr Z;
  write_all : list Z → io_op Tr unit;
  flush : io_op Tr unit;
  set_io_timeout : option Z → io_op Tr unit
}.

(** Write and flush, as every sender does. *)
Definition send_bytes {Tr} `{Transport Tr} (data : list Z) : io_op Tr unit :=
  do! write_all data in flush.

(** What a reliable channel promises.  [linked t i o]: the peer's bytes [i] are
    still to be read from [t], and the bytes [o] were written to it.  The bytes
    of the peer come in order and once, then the end of the input. *)
Class Pipe (Tr : Type) `{Transport Tr} : Type := {
  linked : Tr → list Z → list Z → Prop;
  pipe_read t b i o : linked t (b :: i) o → ∃ t', read_byte t = (Ok b, t') ∧ linked t' i o;
  pipe_eof t o : linked t [] o →
    ∃ e t', read_byte t = (Err e, t') ∧ io_kind e = UnexpectedEof ∧ linked t' [] o;
  pipe_write data t i o : linked t i o →
    ∃ t', write_all data t = (Ok tt, t') ∧ linked t' i (o ++ data);
  pipe_flush t i o : linked t i o → ∃ t', flush t = (Ok tt, t') ∧ linked t' i o;
  pipe_timeout timeout t i o : linked t i o →
    ∃ t', set_io_timeout timeout t = (Ok tt, t') ∧ linked t' i o
}.

(** ** The buffering transport *)

Definition READ_BUFFER_BYTES : Z := 4096.

(** [Read] and [Write]: [stream_read n] returns at most [n] bytes. *)
Class ByteStream (S : Type) : Type := {
  stream_read : Z → io_op S (list Z);
  stream_write_all : list Z → io_op S unit;
  stream_flush : io_op S unit
}.

Record StreamTransport (S : Type) : Type := mkStreamTransport {
  tr_inner : S;
  tr_buffer : list Z;
  tr_position : Z;
  tr_filled : Z;
  tr_timeout_setter : option (S → option Z → result unit IoError)
}.
Arguments mkStreamTransport {S}.
Arguments tr_inner {S}.
Arguments tr_buffer {S}.
Arguments tr_position {S}.
Arguments tr_filled {S}.
Arguments tr_timeout_setter {S}.

Definition StreamTransport_new {S} (inner : S) : StreamTransport S :=
  mkStreamTransport inner (replicate (Z.to_nat READ_BUFFER_BYTES) 0) 0 0 None.

Section stream.
Context {S : Type} `{ByteStream S}.

Abbreviation stream_op A := (smonad (StreamTransport S) IoError A).

Definition on_inner {A} (c : io_op S A) : stream_op A :=
  λ t, let (r, s) := c (tr_inner t) in
       (r, mkStreamTransport s (tr_buffer t) (tr_position t) (tr_filled t)
             (tr_timeout_setter t)).

(** [self.filled = self.inner.read(&mut self.buffer)?; self.position = 0]. *)
Definition refill : stream_op unit :=
  let! room := sget (λ t, zlen (tr_buffer t)) in
  let! bytes := on_inner (stream_read room) in
  supd (λ t, mkStreamTransport (tr_inner t) (bytes ++ drop (length bytes) (tr_buffer t)) 0
               (zlen bytes) (tr_timeout_setter t)).

Definition stream_read_byte : stream_op Z :=
  let! empty := sget (λ t, tr_position t =? tr_filled t) in
  do! (if (empty : bool) then
         do! refill in
         sread (λ t, fail_if (tr_filled t =? 0)
                       (io_error UnexpectedEof "transport closed by peer"))
       else sret tt) in
  let! byte := sread (λ t, expect_some (tr_buffer t !! Z.to_nat (tr_position t))
                             "index out of bounds") in
  do! supd (λ t, mkStreamTransport (tr_inner t) (tr_buffer t) (tr_position t + 1) (tr_filled t)
                   (tr_timeout_setter t)) in
  sret byte.

#[global] Instance StreamTransport_transport : Transport (StreamTransport S) := {|
  read_byte := stream_read_byte;
  write_all data := on_inner (stream_write_all data);
  flush := on_inner stream_flush;
  set_io_timeout timeout :=
    sread (λ t, match tr_timeout_setter t with
                | Some setter => setter (tr_inner t) timeout
                | None => Ok tt
                end)
|}.
End stream.

(** ** The in-process stream

    One end of a pair, with the peer's writes as the non-empty pieces in which
    they become available to successive reads; after the last the peer is
    closed. *)

Record MemoryStream : Type := mkMemoryStream {
  ms_inbound : list (list Z);
  ms_outbound : list Z;
  ms_outbound_closed : bool
}.

Definition MemoryStream_read (room : Z) : io_op MemoryStream (list Z) :=
  λ m, if room =? 0 then (Ok [], m)
       else match ms_inbound m with
       | [] => (Ok [], m)
       | piece :: rest =>
           let count := Z.to_nat (Z.min room (zlen piece)) in
           let left := drop count piece in
           (Ok (take count piece),
            mkMemoryStream (if bool_decide (left = []) then rest else left :: rest)
              (ms_outbound m) (ms_outbound_closed m))
       end.

Definition MemoryStream_write (data : list Z) : io_op MemoryStream unit :=
  λ m, if ms_outbound_closed m
       then (Err (io_error BrokenPipe "memory stream peer closed"), m)
       else (Ok tt, mkMemoryStream (ms_inbound m) (ms_outbound m ++ data) false).

(** [Write::write_all] calls [write] only while bytes are left. *)
#[global] Instance MemoryStream_stream : ByteStream MemoryStream := {|
  stream_read := MemoryStream_read;
  stream_write_all data := if bool_decide (data = []) then sret tt else MemoryStream_write data;
  stream_flush := sret tt
|}.

End RspTransport.
