(* ===== verification/GdbTransportTheory.v ===== *)
(** The buffering transport over the in-process stream is a reliable channel:
    whatever the pieces in which the peer's bytes arrive, they are read in
    order and once. *)

From S2P Require Import Prelude GdbTransport.
Import RspTransport.
Open Scope Z_scope.

(** The unread part of the buffer and the pieces that have not been read. *)
Record buffered (t : StreamTransport MemoryStream) (i o : list Z) : Prop := {
  bf_room : zlen (tr_buffer t) = READ_BUFFER_BYTES;
  bf_range : 0 ≤ tr_position t ≤ tr_filled t ∧ tr_filled t ≤ zlen (tr_buffer t);
  bf_pieces : Forall (.≠ []) (ms_inbound (tr_inner t));
  bf_open : ms_outbound_closed (tr_inner t) = false;
  bf_setter : tr_timeout_setter t = None;
  bf_in : i = drop (Z.to_nat (tr_position t)) (take (Z.to_nat (tr_filled t)) (tr_buffer t))
              ++ mjoin (ms_inbound (tr_inner t));
  bf_out : o = ms_outbound (tr_inner t)
}.

Lemma buffered_new pieces :
  Forall (.≠ []) pieces →
  buffered (StreamTransport_new (mkMemoryStream pieces [] false)) (mjoin pieces) [].
Proof. intros Hp. by split; rewrite ?drop_nil. Qed.

(** One end of a channel whose other end has sent [bytes]. *)
Definition hears (bytes : list Z) : StreamTransport MemoryStream :=
  StreamTransport_new
    (mkMemoryStream (if bool_decide (bytes = []) then [] else [bytes]) [] false).

Lemma hears_buffered bytes : buffered (hears bytes) bytes [].
Proof.
  unfold hears. case_bool_decide as Hb.
  - subst bytes. by apply (buffered_new []).
  - pose proof (buffered_new [bytes] ltac:(by apply Forall_singleton)) as Hn.
    simpl in Hn. by rewrite app_nil_r in Hn.
Qed.

(** Reading from the stream takes a prefix of what is left, and nothing only at
    the end. *)
Lemma memory_read_run m room :
  0 < room → Forall (.≠ []) (ms_inbound m) →
  ∃ bytes m', MemoryStream_read room m = (Ok bytes, m') ∧ zlen bytes ≤ room
    ∧ mjoin (ms_inbound m) = bytes ++ mjoin (ms_inbound m')
    ∧ (bytes = [] → ms_inbound m = [] ∧ ms_inbound m' = [])
    ∧ Forall (.≠ []) (ms_inbound m')
    ∧ ms_outbound m' = ms_outbound m ∧ ms_outbound_closed m' = ms_outbound_closed m.
Proof.
  intros Hr Hp. unfold MemoryStream_read. rewrite (proj2 (Z.eqb_neq _ _)) by lia.
  destruct (ms_inbound m) as [|piece rest] eqn:Hi.
  { exists [], m. rewrite Hi. split_and!; try done. unfold zlen. simpl. lia. }
  apply Forall_cons_iff in Hp as [Hne Hp]. eexists _, _. split; [reflexivity|].
  set (count := Z.to_nat (Z.min room (zlen piece))). simpl.
  assert (0 < zlen piece) as Hl by (destruct piece; [done|rewrite zlen_cons; pose proof (zlen_nonneg piece); lia]).
  assert (take count piece ≠ []) as Hne'.
  { destruct piece; [done|]. assert (count ≠ O) by lia. by destruct count. }
  split_and!; try done.
  - unfold zlen at 1. rewrite length_take. lia.
  - case_bool_decide as Hd; simpl; rewrite <-(take_drop count piece) at 1.
    + by rewrite Hd, app_nil_r.
    + by rewrite <-(assoc_L (++)).
  - case_bool_decide; [done|]. by constructor.
Qed.

Definition popped (t : StreamTransport MemoryStream) : StreamTransport MemoryStream :=
  mkStreamTransport (tr_inner t) (tr_buffer t) (tr_position t + 1) (tr_filled t)
    (tr_timeout_setter t).

Lemma buffered_pop t b i o :
  buffered t (b :: i) o → tr_position t < tr_filled t →
  tr_buffer t !! Z.to_nat (tr_position t) = Some b ∧ buffered (popped t) i o.
Proof.
  intros [Hroom [Hpos Hfill] Hp Hc Hset Hin Hout] Hlt.
  destruct (lookup_lt_is_Some_2 (tr_buffer t) (Z.to_nat (tr_position t))) as [b' Hb];
    [unfold zlen in *; lia|].
  assert (take (Z.to_nat (tr_filled t)) (tr_buffer t) !! Z.to_nat (tr_position t) = Some b') as Hb'
    by (rewrite lookup_take_lt by lia; done).
  rewrite (drop_S _ _ _ Hb') in Hin. simplify_eq/=. split; [done|].
  split; simpl; try done; [lia|]. by replace (Z.to_nat (tr_position t + 1)) with (S (Z.to_nat (tr_position t))) by lia.
Qed.

Lemma refill_run t i o :
  buffered t i o → tr_position t = tr_filled t →
  ∃ t', refill t = (Ok tt, t') ∧ buffered t' i o ∧ tr_position t' = 0
        ∧ (tr_filled t' = 0 → i = []).
Proof.
  intros [Hroom [Hpos Hfill] Hp Hc Hset Hin Hout] Heq.
  destruct (memory_read_run (tr_inner t) (zlen (tr_buffer t)))
    as (bytes & m' & Hr & Hlen & Hj & Hz & Hp' & Ho & Hc'); [by rewrite Hroom|done|].
  unfold refill, sbind, sget, supd, on_inner. simpl. rewrite Hr. simpl. eexists. split; [reflexivity|].
  assert (drop (Z.to_nat (tr_position t)) (take (Z.to_nat (tr_filled t)) (tr_buffer t)) = []) as Hnil.
  { apply drop_ge. rewrite length_take. lia. }
  rewrite Hnil in Hin. simpl in Hin. pose proof (zlen_nonneg bytes).
  split; [|split; [done|]].
  - split; simpl; try done; [|unfold zlen in *; rewrite length_app, length_drop; lia| | |by rewrite Ho].
    + unfold zlen in *. rewrite length_app, length_drop. lia.
    + by rewrite Hc'.
    + rewrite Hin, Hj, drop_0. f_equal. unfold zlen. by rewrite Nat2Z.id, take_app_length.
  - simpl. intros Hf. destruct bytes; [|rewrite zlen_cons in Hf; pose proof (zlen_nonneg bytes); lia].
    destruct (Hz eq_refl) as [Hi _]. by rewrite Hin, Hi.
Qed.

Lemma buffered_read t b i o :
  buffered t (b :: i) o → ∃ t', stream_read_byte t = (Ok b, t') ∧ buffered t' i o.
Proof.
  intros Hb. unfold stream_read_byte, sbind at 1, sget at 1. simpl.
  destruct (Z.eqb_spec (tr_position t) (tr_filled t)) as [He|Hne].
  - destruct (refill_run t _ _ Hb He) as (t1 & Hr & Hb1 & Hp & Hz).
    assert (tr_filled t1 ≠ 0) as Hnz by naive_solver.
    destruct (buffered_pop t1 b i o Hb1) as [Hl Hb']; [rewrite Hp; destruct Hb1; lia|].
    exists (popped t1). unfold sbind, sread, supd, sret. rewrite Hr. simpl.
    rewrite (proj2 (Z.eqb_neq _ _)) by done. simpl. by rewrite Hl.
  - destruct (buffered_pop t b i o Hb) as [Hl Hb']; [destruct Hb; lia|].
    exists (popped t). unfold sbind, sread, supd, sret. simpl. by rewrite Hl.
Qed.

Lemma buffered_drained t o : buffered t [] o → tr_position t = tr_filled t.
Proof.
  intros [Hroom [Hpos Hfill] _ _ _ Hin _]. symmetry in Hin. apply app_eq_nil in Hin as [Hin _].
  apply (f_equal length) in Hin. rewrite length_drop, length_take in Hin. unfold zlen in *.
  simpl in Hin. lia.
Qed.

Lemma buffered_eof t o :
  buffered t [] o →
  ∃ e t', stream_read_byte t = (Err e, t') ∧ io_kind e = UnexpectedEof ∧ buffered t' [] o.
Proof.
  intros Hb. pose proof (buffered_drained t o Hb) as He.
  destruct (refill_run t _ _ Hb He) as (t1 & Hr & Hb1 & Hp & _).
  pose proof (buffered_drained t1 o Hb1) as Hz. rewrite Hp in Hz.
  eexists _, t1. unfold stream_read_byte, sbind, sget, sread. simpl.
  rewrite (proj2 (Z.eqb_eq _ _)) by done. rewrite Hr. simpl. by rewrite <-Hz.
Qed.

#[global] Program Instance memory_pipe : Pipe (StreamTransport MemoryStream) :=
  {| linked := buffered; pipe_read := buffered_read; pipe_eof := buffered_eof |}.
Next Obligation.
  intros data t i o [Hroom Hr Hp Hc Hset Hin Hout]. simpl. unfold on_inner. simpl.
  case_bool_decide as Hd; [rewrite Hd, app_nil_r; eexists; split; [reflexivity|by split]|].
  unfold MemoryStream_write. rewrite Hc. eexists. split; [reflexivity|]. split; simpl; try done.
  by rewrite Hout.
Qed.
Next Obligation.
  intros t i o [Hroom Hr Hp Hc Hset Hin Hout]. simpl. unfold on_inner. simpl.
  eexists. split; [reflexivity|by split].
Qed.
Next Obligation.
  intros timeout t i o Hb. exists t. split; [|done]. simpl. unfold sread. by rewrite (bf_setter _ _ _ Hb).
Qed.
