(* ===== verification/GdbTarget.v ===== *)
(** What the remote serial protocol server asks of a debug target:
    [resymbol-gdb-remote/src/target.rs], with the register layouts of
    [target.rs] (amd64) and of [target_description.rs] (PlayStation 2 EE). *)

From S2P Require Import Prelude.
Open Scope Z_scope.

Module RspTarget.

(** ** Data *)

Inductive StopReply : Type :=
  | Signal (signal : Z)
  | Exited (code : Z)
  | Terminated (signal : Z).

Inductive WatchKind : Type := WriteWatch | ReadWatch | AccessWatch.

Inductive TargetError : Type :=
  | Memory (message : list Z)
  | Register (message : list Z)
  | Execution (message : list Z)
  | Breakpoint (message : list Z)
  | Registers (message : list Z)
  | Unavailable
  | Unsupported (message : list Z).

Definition unsupported (what : string) : TargetError :=
  Unsupported (str what ++ str " is not supported by this target").

Inductive TargetByteOrder : Type := Little | Big.

Record TargetDescription : Type := mkTargetDescription {
  td_name : list Z;
  td_architecture : list Z;
  td_byte_order : TargetByteOrder;
  td_xml : list Z;
  td_register_packet_bytes : Z;
  td_software_breakpoint_kind : Z
}.

(** ** The backend contract

    A backend of type [T]; a [&mut self] method is a computation on it. *)

Abbreviation target_op T A := (smonad T TargetError A).

Class RemoteTarget (T : Type) : Type := {
  target_description : T → option TargetDescription;
  software_breakpoint_kind : T → Z;
  read_registers : target_op T (list Z);
  write_registers : list Z → target_op T unit;
  read_memory : Z → Z → target_op T (list Z);
  write_memory : Z → list Z → target_op T unit;
  cont : target_op T StopReply;
  step : target_op T StopReply;
  set_sw_breakpoint : Z → target_op T unit;
  set_sw_breakpoint_with_kind : Z → Z → target_op T unit;
  remove_sw_breakpoint : Z → target_op T unit;
  remove_sw_breakpoint_with_kind : Z → Z → target_op T unit;
  set_hw_breakpoint : Z → target_op T unit;
  remove_hw_breakpoint : Z → target_op T unit;
  set_watchpoint : Z → Z → WatchKind → target_op T unit;
  remove_watchpoint : Z → Z → WatchKind → target_op T unit;
  stop_reason : T → StopReply * T;
  thread_ids : target_op T (list Z);
  current_thread : target_op T Z;
  set_current_thread : Z → target_op T unit;
  stopped_thread : T → option Z * T
}.

(** The methods the trait requires; the others have default bodies. *)
Record RequiredMethods (T : Type) : Type := mkRequiredMethods {
  rm_description : T → option TargetDescription;
  rm_read_registers : target_op T (list Z);
  rm_write_registers : list Z → target_op T unit;
  rm_read_memory : Z → Z → target_op T (list Z);
  rm_write_memory : Z → list Z → target_op T unit;
  rm_cont : target_op T StopReply;
  rm_step : target_op T StopReply;
  rm_set_sw_breakpoint : Z → target_op T unit;
  rm_remove_sw_breakpoint : Z → target_op T unit;
  rm_stop_reason : T → StopReply * T
}.
Arguments rm_description {T}.
Arguments rm_read_registers {T}.
Arguments rm_write_registers {T}.
Arguments rm_read_memory {T}.
Arguments rm_write_memory {T}.
Arguments rm_cont {T}.
Arguments rm_step {T}.
Arguments rm_set_sw_breakpoint {T}.
Arguments rm_remove_sw_breakpoint {T}.
Arguments rm_stop_reason {T}.

Definition default_breakpoint_kind (d : option TargetDescription) : Z :=
  match d with Some d => td_software_breakpoint_kind d | None => 1 end.

(** The default of both breakpoint methods that take a kind. *)
Definition with_kind {T} (expected_kind : T → Z) (op : Z → target_op T unit) (addr kind : Z)
    : target_op T unit :=
  let! expected := sget expected_kind in
  if negb (kind =? expected)
  then serr (Breakpoint (str "software breakpoint kind " ++ format_d kind
                         ++ str " is invalid; target requires " ++ format_d expected))
  else op addr.

(** A target that overrides only [target_description] and the required methods. *)
Definition with_defaults {T} (m : RequiredMethods T) : RemoteTarget T :=
  let kind t := default_breakpoint_kind (rm_description m t) in
  {| target_description := rm_description m;
     software_breakpoint_kind := kind;
     read_registers := rm_read_registers m;
     write_registers := rm_write_registers m;
     read_memory := rm_read_memory m;
     write_memory := rm_write_memory m;
     cont := rm_cont m;
     step := rm_step m;
     set_sw_breakpoint := rm_set_sw_breakpoint m;
     set_sw_breakpoint_with_kind := with_kind kind (rm_set_sw_breakpoint m);
     remove_sw_breakpoint := rm_remove_sw_breakpoint m;
     remove_sw_breakpoint_with_kind := with_kind kind (rm_remove_sw_breakpoint m);
     set_hw_breakpoint _ := serr (unsupported "hardware breakpoints");
     remove_hw_breakpoint _ := serr (unsupported "hardware breakpoints");
     set_watchpoint _ _ _ := serr (unsupported "hardware watchpoints");
     remove_watchpoint _ _ _ := serr (unsupported "hardware watchpoints");
     stop_reason := rm_stop_reason m;
     thread_ids := sret [1];
     current_thread := sret 1;
     set_current_thread _ := sret tt;
     stopped_thread t := (None, t) |}.

(** ** The amd64 register packet *)

Definition AMD64_GPACKET_BYTES : Z := 17 * 8 + 7 * 4.

Record Amd64CoreRegisters : Type := mkAmd64 {
  r15 : Z; r14 : Z; r13 : Z; r12 : Z; rbp : Z; rbx : Z; r11 : Z; r10 : Z; r9 : Z; r8 : Z;
  rax : Z; rcx : Z; rdx : Z; rsi : Z; rdi : Z; orig_rax : Z; rip : Z; cs : Z; eflags : Z;
  rsp : Z; ss : Z; fs_base : Z; gs_base : Z; ds : Z; es : Z; fs : Z; gs : Z
}.

Definition Amd64CoreRegisters_default : Amd64CoreRegisters :=
  mkAmd64 0 0 0 0 0 0 0 0 0 0 0 0 0 0 0 0 0 0 0 0 0 0 0 0 0 0 0.

(** The low 32 bits of [value] as little-endian bytes. *)
Definition low_u32_le (value : Z) : list Z := le_bytes 4 (Z.land value 4294967295).

(** [debug_assert_eq!] on the length of a buffer. *)
Definition debug_assert_len {E} (out : list Z) (n : Z) : result (list Z) E :=
  if zlen out =? n then Ok out else Panic "assertion failed: left == right".

Definition to_gpacket {E} (r : Amd64CoreRegisters) : result (list Z) E :=
  let out :=
    ([rax r; rbx r; rcx r; rdx r; rsi r; rdi r; rbp r; rsp r; r8 r; r9 r; r10 r; r11 r; r12 r;
      r13 r; r14 r; r15 r; rip r] ≫= le_bytes 8)
    ++ ([eflags r; cs r; ss r; ds r; es r; fs r; gs r] ≫= low_u32_le) in
  debug_assert_len out AMD64_GPACKET_BYTES.

(** A little-endian reader over a packet; a slice out of range panics. *)
Record GpacketCursor : Type := mkGpacketCursor { gc_data : list Z; gc_offset : Z }.

Abbreviation cursor_op A := (smonad GpacketCursor TargetError A).

Definition cursor_take (n : Z) : cursor_op (list Z) :=
  let! bytes := sread (λ c, if gc_offset c + n <=? zlen (gc_data c)
                            then Ok (take (Z.to_nat n) (drop (Z.to_nat (gc_offset c)) (gc_data c)))
                            else Panic "range end index out of range for slice") in
  do! supd (λ c, mkGpacketCursor (gc_data c) (gc_offset c + n)) in
  sret bytes.

Definition next_u64 : cursor_op Z := let! bytes := cursor_take 8 in sret (from_le_bytes bytes).
Definition next_u32 : cursor_op Z := let! bytes := cursor_take 4 in sret (from_le_bytes bytes).

(** The fields of [self] that the packet carries, read in packet order; the
    other three are kept. *)
Definition read_gpacket (self : Amd64CoreRegisters) : cursor_op Amd64CoreRegisters :=
  let! rax := next_u64 in
  let! rbx := next_u64 in
  let! rcx := next_u64 in
  let! rdx := next_u64 in
  let! rsi := next_u64 in
  let! rdi := next_u64 in
  let! rbp := next_u64 in
  let! rsp := next_u64 in
  let! r8 := next_u64 in
  let! r9 := next_u64 in
  let! r10 := next_u64 in
  let! r11 := next_u64 in
  let! r12 := next_u64 in
  let! r13 := next_u64 in
  let! r14 := next_u64 in
  let! r15 := next_u64 in
  let! rip := next_u64 in
  let! eflags := next_u32 in
  let! cs := next_u32 in
  let! ss := next_u32 in
  let! ds := next_u32 in
  let! es := next_u32 in
  let! fs := next_u32 in
  let! gs := next_u32 in
  sret (mkAmd64 r15 r14 r13 r12 rbp rbx r11 r10 r9 r8 rax rcx rdx rsi rdi (orig_rax self) rip cs
          eflags rsp ss (fs_base self) (gs_base self) ds es fs gs).

Definition apply_gpacket (self : Amd64CoreRegisters) (raw : list Z)
    : result Amd64CoreRegisters TargetError :=
  do? fail_if (zlen raw <? AMD64_GPACKET_BYTES)
        (Registers (str "expected at least " ++ format_d AMD64_GPACKET_BYTES ++ str " bytes, got "
                    ++ format_d (zlen raw))) in
  (read_gpacket self (mkGpacketCursor raw 0)).1.

Definition amd64_registers_to_gpacket (registers : Amd64CoreRegisters)
    : result (list Z) TargetError := to_gpacket registers.

Definition amd64_gpacket_to_registers (raw : list Z) : result Amd64CoreRegisters TargetError :=
  apply_gpacket Amd64CoreRegisters_default raw.

(** ** The PlayStation 2 EE register packet *)

Definition PS2_EE_GPACKET_BYTES : Z := 708.

(** The arrays [gpr] and [fpr] have 32 elements. *)
Record Ps2EeCoreRegisters : Type := mkPs2Ee {
  ee_gpr : list Z; ee_lo : Z; ee_hi : Z; ee_pc : Z; ee_status : Z; ee_badvaddr : Z;
  ee_cause : Z; ee_epc : Z; ee_fpr : list Z; ee_fcsr : Z; ee_fir : Z; ee_sa : Z; ee_fpu_acc : Z
}.

Definition Ps2EeCoreRegisters_default : Ps2EeCoreRegisters :=
  mkPs2Ee (replicate 32 0) 0 0 0 0 0 0 0 (replicate 32 0) 0 0 0 0.

(** [value as u64] of a [u128], and its upper half. *)
Definition low_half (value : Z) : Z := Z.land value u64_max.
Definition high_half (value : Z) : Z := Z.shiftr value 64.

Definition ps2_to_gpacket (r : Ps2EeCoreRegisters) : result (list Z) TargetError :=
  let out :=
    (ee_gpr r ≫= λ value, le_bytes 8 (low_half value))
    ++ le_bytes 4 (ee_status r) ++ le_bytes 8 (low_half (ee_lo r))
    ++ le_bytes 8 (low_half (ee_hi r)) ++ le_bytes 4 (ee_badvaddr r)
    ++ le_bytes 4 (ee_cause r) ++ le_bytes 4 (ee_pc r) ++ (ee_fpr r ≫= le_bytes 4)
    ++ le_bytes 4 (ee_fcsr r) ++ le_bytes 4 (ee_fir r) ++ le_bytes 4 (ee_epc r)
    ++ (ee_gpr r ≫= λ value, le_bytes 8 (high_half value))
    ++ le_bytes 8 (high_half (ee_lo r)) ++ le_bytes 8 (high_half (ee_hi r))
    ++ le_bytes 4 (ee_sa r) ++ le_bytes 4 (ee_fpu_acc r) in
  debug_assert_len out PS2_EE_GPACKET_BYTES.

(** One read for every slot of an array. *)
Fixpoint next_each {A} (next : cursor_op Z) (slots : list A) : cursor_op (list Z) :=
  match slots with
  | [] => sret []
  | _ :: slots' =>
      let! value := next in
      let! values := next_each next slots' in
      sret (value :: values)
  end.

(** [u128::from(low) | (u128::from(upper) << 64)]. *)
Definition join_halves (low upper : Z) : Z := Z.lor low (Z.shiftl upper 64).

Definition ps2_read_gpacket (self : Ps2EeCoreRegisters) : cursor_op Ps2EeCoreRegisters :=
  let! low_gpr := next_each next_u64 (replicate 32 0) in
  let! status := next_u32 in
  let! low_lo := next_u64 in
  let! low_hi := next_u64 in
  let! badvaddr := next_u32 in
  let! cause := next_u32 in
  let! pc := next_u32 in
  let! fpr := next_each next_u32 (ee_fpr self) in
  let! fcsr := next_u32 in
  let! fir := next_u32 in
  let! epc := next_u32 in
  let! upper_gpr := next_each next_u64 (ee_gpr self) in
  let! upper_lo := next_u64 in
  let! upper_hi := next_u64 in
  let! sa := next_u32 in
  let! fpu_acc := next_u32 in
  do! sread (λ c, if gc_offset c =? PS2_EE_GPACKET_BYTES then Ok tt
                  else Panic "assertion failed: left == right") in
  sret (mkPs2Ee (zip_with join_halves low_gpr upper_gpr) (join_halves low_lo upper_lo)
          (join_halves low_hi upper_hi) pc status badvaddr cause epc fpr fcsr fir sa fpu_acc).

Definition ps2_apply_gpacket (self : Ps2EeCoreRegisters) (raw : list Z)
    : result Ps2EeCoreRegisters TargetError :=
  do? fail_if (negb (zlen raw =? PS2_EE_GPACKET_BYTES))
        (Registers (str "expected exactly " ++ format_d PS2_EE_GPACKET_BYTES
                    ++ str " EE register bytes, got " ++ format_d (zlen raw))) in
  (ps2_read_gpacket self (mkGpacketCursor raw 0)).1.

Definition ps2_ee_registers_to_gpacket (registers : Ps2EeCoreRegisters)
    : result (list Z) TargetError := ps2_to_gpacket registers.

Definition ps2_ee_gpacket_to_registers (raw : list Z) : result Ps2EeCoreRegisters TargetError :=
  ps2_apply_gpacket Ps2EeCoreRegisters_default raw.

End RspTarget.
