(* ===== verification/GdbTargetLaws.v ===== *)
(** What the remote protocol server relies on from a debug target: the trait of
    [GdbTarget.v] with the values its Rust types allow, no panics, and an
    invariant the target keeps. *)

From S2P Require Import Prelude GdbTarget.
Import RspTarget.
Open Scope Z_scope.

(** From any state of the invariant, [c] does not panic, keeps the invariant and
    returns only values that satisfy [P]. *)
Definition promises {T A} (good : T → Prop) (c : target_op T A) (P : A → Prop) : Prop :=
  ∀ t, good t → wp c (λ a t', P a ∧ good t') (λ _ t', good t') t.

(** A [u8] in a stop reply. *)
Definition stop_typed (r : StopReply) : Prop :=
  match r with Signal n | Exited n | Terminated n => is_byte n end.

Class LawfulTarget (T : Type) `{RemoteTarget T} (good : T → Prop) : Prop := {
  lawful_read addr len : in_u64 addr → 0 ≤ len ≤ isize_max →
    promises good (read_memory addr len) (Forall is_byte);
  lawful_write addr data : in_u64 addr → Forall is_byte data →
    promises good (write_memory addr data) (λ _, True);
  lawful_read_registers : promises good read_registers (Forall is_byte);
  lawful_write_registers raw : Forall is_byte raw → promises good (write_registers raw) (λ _, True);
  lawful_cont : promises good cont stop_typed;
  lawful_step : promises good step stop_typed;
  lawful_set addr kind : promises good (set_sw_breakpoint_with_kind addr kind) (λ _, True);
  lawful_remove addr kind : promises good (remove_sw_breakpoint_with_kind addr kind) (λ _, True);
  lawful_set_hw addr : promises good (set_hw_breakpoint addr) (λ _, True);
  lawful_remove_hw addr : promises good (remove_hw_breakpoint addr) (λ _, True);
  lawful_set_watch addr len kind : promises good (set_watchpoint addr len kind) (λ _, True);
  lawful_remove_watch addr len kind : promises good (remove_watchpoint addr len kind) (λ _, True);
  lawful_threads : promises good thread_ids (Forall in_u64);
  lawful_current : promises good current_thread in_u64;
  lawful_select tid : promises good (set_current_thread tid) (λ _, True);
  lawful_stop_reason t : good t → stop_typed (stop_reason t).1 ∧ good (stop_reason t).2;
  lawful_stopped t : good t →
    (∀ tid, (stopped_thread t).1 = Some tid → in_u64 tid) ∧ good (stopped_thread t).2
}.

#[export] Hint Resolve lawful_read lawful_write lawful_read_registers lawful_write_registers lawful_cont
  lawful_step lawful_set lawful_remove lawful_set_hw lawful_remove_hw lawful_set_watch
  lawful_remove_watch lawful_threads lawful_current lawful_select : rust.

(** The two ways such a call ends. *)
Lemma promises_cases {T A} (good : T → Prop) (c : target_op T A) P t :
  promises good c P → good t →
  (∃ a t', c t = (Ok a, t') ∧ P a ∧ good t') ∨ (∃ e t', c t = (Err e, t') ∧ good t').
Proof.
  intros Hc Ht. specialize (Hc t Ht). unfold wp in Hc.
  destruct (c t) as [[a|e|msg] t']; [left|right|done]; by eexists _, _.
Qed.

(** A target with the trait's defaults is lawful when its own methods are. *)
Section defaults.
Context {T : Type} (m : RequiredMethods T) (good : T → Prop).

Record lawful_methods : Prop := {
  lm_read addr len : in_u64 addr → 0 ≤ len ≤ isize_max →
    promises good (rm_read_memory m addr len) (Forall is_byte);
  lm_write addr data : in_u64 addr → Forall is_byte data →
    promises good (rm_write_memory m addr data) (λ _, True);
  lm_read_registers : promises good (rm_read_registers m) (Forall is_byte);
  lm_write_registers raw : Forall is_byte raw → promises good (rm_write_registers m raw) (λ _, True);
  lm_cont : promises good (rm_cont m) stop_typed;
  lm_step : promises good (rm_step m) stop_typed;
  lm_set addr : promises good (rm_set_sw_breakpoint m addr) (λ _, True);
  lm_remove addr : promises good (rm_remove_sw_breakpoint m addr) (λ _, True);
  lm_stop_reason t : good t → stop_typed (rm_stop_reason m t).1 ∧ good (rm_stop_reason m t).2
}.

Lemma promises_with_kind kind (op : Z → target_op T unit) addr k :
  promises good (op addr) (λ _, True) → promises good (with_kind kind op addr k) (λ _, True).
Proof.
  intros Hop t Ht. apply wp_bind, wp_get. destruct (negb (k =? kind t)); [by apply wp_err|by apply Hop].
Qed.

Lemma lawful_defaults : lawful_methods → @LawfulTarget T (with_defaults m) good.
Proof.
  intros Hm. assert (in_u64 1) by (unfold in_u64, u64_max; lia).
  assert (∀ A (a : A) (P : A → Prop), P a → promises good (sret a) P) as Hret by (by intros ? a P Ha t Ht).
  assert (∀ A e (P : A → Prop), promises good (serr e) P) as Herr by (by intros ? e P t Ht).
  split; cbn; intros; try apply Herr; try (apply Hret; by repeat constructor).
  all: first [apply promises_with_kind; by apply Hm|by apply Hm|done].
Qed.
End defaults.
