(* ===== verification/GdbRegistersTheory.v ===== *)
(** Theorems about the register packets of [GdbTarget.v]: what a packet carries
    and that nothing else is lost on the way through it. *)

From S2P Require Import Prelude GdbPacketTheory GdbTarget.
Import RspTarget.
Open Scope Z_scope.

(** ** The packet cursor *)

(** [m] reads exactly [bytes], wherever they stand, and returns [a]. *)
Definition yields {A} (m : smonad GpacketCursor TargetError A) (bytes : list Z) (a : A) : Prop :=
  ∀ pre rest, m (mkGpacketCursor (pre ++ bytes ++ rest) (zlen pre))
              = (Ok a, mkGpacketCursor (pre ++ bytes ++ rest) (zlen (pre ++ bytes))).

Lemma yields_ret {A} (a : A) : yields (sret a) [] a.
Proof. intros pre rest. unfold sret. by rewrite app_nil_r. Qed.

Lemma yields_bind {A B} (m : smonad GpacketCursor TargetError A)
    (k : A → smonad GpacketCursor TargetError B) bytes1 bytes2 a b :
  yields m bytes1 a → yields (k a) bytes2 b → yields (sbind m k) (bytes1 ++ bytes2) b.
Proof.
  intros Hm Hk pre rest. unfold sbind. rewrite <-(assoc_L (++) bytes1), Hm, (assoc_L (++) pre), Hk.
  by rewrite <-!(assoc_L (++)).
Qed.

Lemma yields_take bytes : yields (cursor_take (zlen bytes)) bytes bytes.
Proof.
  intros pre rest. unfold cursor_take, sbind, sread, supd, sret. cbn [gc_data gc_offset].
  rewrite (proj2 (Z.leb_le _ _)) by (unfold zlen; rewrite !length_app; lia).
  unfold zlen. rewrite !Nat2Z.id, drop_app_length, take_app_length, length_app, Nat2Z.inj_add. done.
Qed.

Lemma yields_word (k : nat) v :
  0 ≤ v < 256 ^ Z.of_nat k →
  yields (let! bytes := cursor_take (Z.of_nat k) in sret (from_le_bytes bytes)) (le_bytes k v) v.
Proof.
  intros Hv. rewrite <-(app_nil_r (le_bytes k v)). eapply yields_bind.
  - replace (Z.of_nat k) with (zlen (le_bytes k v)) by (unfold zlen; by rewrite length_le_bytes).
    apply yields_take.
  - rewrite from_le_bytes_le by done. apply yields_ret.
Qed.

Abbreviation is_u32 v := (0 ≤ v < 2 ^ 32).
Abbreviation is_u64 v := (0 ≤ v < 2 ^ 64).
Abbreviation is_u128 v := (0 ≤ v < 2 ^ 128).

Lemma yields_u64 v : is_u64 v → yields next_u64 (le_bytes 8 v) v.
Proof. apply (yields_word 8). Qed.

Lemma yields_u32 v : is_u32 v → yields next_u32 (le_bytes 4 v) v.
Proof. apply (yields_word 4). Qed.

Lemma yields_each {A} (P : Z → Prop) next (enc : Z → list Z) (slots : list A) values :
  (∀ v, P v → yields next (enc v) v) → Forall P values → length values = length slots →
  yields (next_each next slots) (values ≫= enc) values.
Proof.
  intros Hnext. revert values. induction slots as [|a slots IH]; intros [|v values] Hv Hlen; try done.
  { apply yields_ret. }
  apply Forall_cons_iff in Hv as [Hv Hvs]. injection Hlen as Hlen. rewrite bind_cons. cbn [next_each].
  eapply yields_bind; [by apply Hnext|]. rewrite <-(app_nil_r (values ≫= enc)).
  eapply yields_bind; [by apply IH|apply yields_ret].
Qed.

Lemma land_u32 v : Z.land v 4294967295 = v mod 2 ^ 32.
Proof. change 4294967295 with (Z.ones 32). by rewrite Z.land_ones. Qed.

Lemma yields_low_u32 v : yields next_u32 (low_u32_le v) (v mod 2 ^ 32).
Proof. unfold low_u32_le. rewrite land_u32. apply yields_u32. by apply Z.mod_pos_bound. Qed.

Lemma zlen_chunks (k : nat) (enc : Z → list Z) values :
  (∀ v, length (enc v) = k) → zlen (values ≫= enc) = zlen values * Z.of_nat k.
Proof.
  intros Hk. unfold zlen. induction values as [|v values IH]; [done|].
  rewrite bind_cons, length_app, Hk, length_cons. lia.
Qed.

(** Bytes cut into words. *)
Lemma words_of (k n : nat) bytes :
  Forall is_byte bytes → length bytes = (n * k)%nat →
  ∃ values, length values = n ∧ Forall (λ v, 0 ≤ v < 256 ^ Z.of_nat k) values
            ∧ bytes = values ≫= le_bytes k.
Proof.
  revert bytes. induction n as [|n IH]; intros bytes Hb Hlen.
  { exists []. destruct bytes; [by repeat constructor|done]. }
  destruct (IH (drop k bytes)) as (values & Hn & Hv & Hd).
  { by apply Forall_drop. }
  { rewrite length_drop. lia. }
  pose proof (Forall_take is_byte k bytes Hb) as Ht.
  assert (length (take k bytes) = k) as Hk by (rewrite length_take; lia).
  exists (from_le_bytes (take k bytes) :: values). split_and!; [simpl; lia| |].
  - constructor; [|done]. apply from_le_bytes_bound in Ht. unfold zlen in Ht. by rewrite Hk in Ht.
  - rewrite bind_cons, <-Hd. apply le_bytes_from_le in Ht. rewrite Hk in Ht. by rewrite Ht, take_drop.
Qed.

(** ** amd64 *)

(** Every register is a [u64]. *)
Definition amd64_typed (r : Amd64CoreRegisters) : Prop :=
  Forall (λ v, is_u64 v)
    [rax r; rbx r; rcx r; rdx r; rsi r; rdi r; rbp r; rsp r; r8 r; r9 r; r10 r; r11 r; r12 r; r13 r;
     r14 r; r15 r; rip r; eflags r; cs r; ss r; ds r; es r; fs r; gs r; orig_rax r; fs_base r;
     gs_base r].

(** What a packet of [r] leaves of [r] in registers that were [self]: the flags
    and the segment selectors are cut to 32 bits, and the three registers the
    packet does not carry are those of [self]. *)
Definition carried (r self : Amd64CoreRegisters) : Amd64CoreRegisters :=
  let low v := v mod 2 ^ 32 in
  mkAmd64 (r15 r) (r14 r) (r13 r) (r12 r) (rbp r) (rbx r) (r11 r) (r10 r) (r9 r) (r8 r) (rax r)
    (rcx r) (rdx r) (rsi r) (rdi r) (orig_rax self) (rip r) (low (cs r)) (low (eflags r)) (rsp r)
    (low (ss r)) (fs_base self) (gs_base self) (low (ds r)) (low (es r)) (low (fs r)) (low (gs r)).

Lemma low_u32_le_mod v : low_u32_le (v mod 2 ^ 32) = low_u32_le v.
Proof. unfold low_u32_le. by rewrite !land_u32, Z.mod_mod. Qed.

Definition amd64_bytes (r : Amd64CoreRegisters) : list Z :=
  ([rax r; rbx r; rcx r; rdx r; rsi r; rdi r; rbp r; rsp r; r8 r; r9 r; r10 r; r11 r; r12 r; r13 r;
    r14 r; r15 r; rip r] ≫= le_bytes 8)
  ++ ([eflags r; cs r; ss r; ds r; es r; fs r; gs r] ≫= low_u32_le).

Lemma to_gpacket_run {E} r :
  ∃ raw, @to_gpacket E r = Ok raw ∧ zlen raw = AMD64_GPACKET_BYTES
    ∧ raw = amd64_bytes r.
Proof.
  assert (zlen (amd64_bytes r) = AMD64_GPACKET_BYTES) as Hlen.
  { unfold zlen, amd64_bytes. rewrite length_app, Nat2Z.inj_add. reflexivity. }
  exists (amd64_bytes r). split_and!; [|done..].
  unfold to_gpacket, debug_assert_len. fold (amd64_bytes r). by rewrite Hlen, Z.eqb_refl.
Qed.

Lemma to_gpacket_carried {E} r self : @to_gpacket E (carried r self) = to_gpacket r.
Proof.
  unfold to_gpacket, carried. cbn [rax rbx rcx rdx rsi rdi rbp rsp r8 r9 r10 r11 r12 r13 r14 r15 rip
    eflags cs ss ds es fs gs]. do 2 f_equal. cbn [mbind list_bind]. by rewrite !low_u32_le_mod.
Qed.

Lemma read_gpacket_yields r self :
  amd64_typed r →
  yields (read_gpacket self) (amd64_bytes r) (carried r self).
Proof.
  intros Hw. unfold amd64_typed in Hw. rewrite !Forall_cons_iff in Hw. destruct_and!.
  unfold amd64_bytes. cbn [mbind list_bind]. rewrite <-!(assoc_L (++)). cbn [app]. unfold read_gpacket.
  do 17 (eapply yields_bind; [by apply yields_u64|]).
  do 7 (eapply yields_bind; [apply yields_low_u32|]). apply yields_ret.
Qed.

Lemma apply_gpacket_run {E} r self raw extra :
  amd64_typed r → @to_gpacket E r = Ok raw → apply_gpacket self (raw ++ extra) = Ok (carried r self).
Proof.
  intros Hr Hto. destruct (to_gpacket_run (E:=E) r) as (raw' & Hto' & Hlen & Heq).
  rewrite Hto in Hto'. injection Hto' as <-. unfold apply_gpacket. rewrite (proj2 (Z.ltb_ge _ _)).
  2: { rewrite <-Hlen. unfold zlen. rewrite length_app. lia. }
  cbn [fail_if result_bind]. rewrite Heq.
  pose proof (read_gpacket_yields r self Hr [] extra) as Hy. cbn [app] in Hy.
  change (zlen []) with 0 in Hy. by rewrite Hy.
Qed.

(** Every packet of the right size is the packet of some registers. *)
Lemma to_gpacket_surjective {E} raw :
  Forall is_byte raw → zlen raw = AMD64_GPACKET_BYTES →
  ∃ r, amd64_typed r ∧ @to_gpacket E r = Ok raw.
Proof.
  intros Hb Hlen. assert (length raw = 164%nat) as Hl by (unfold zlen in Hlen; by apply Nat2Z.inj).
  destruct (words_of 8 17 (take 136 raw)) as (ws & Hn & Hw & Hws);
    [by apply Forall_take|rewrite length_take; lia|].
  destruct (words_of 4 7 (drop 136 raw)) as (vs & Hm & Hv & Hvs);
    [by apply Forall_drop|rewrite length_drop; lia|].
  do 17 (destruct ws as [|? ws]; [done|]). destruct ws; [|done].
  do 7 (destruct vs as [|? vs]; [done|]). destruct vs; [|done].
  match type of Hws with _ = [?xax; ?xbx; ?xcx; ?xdx; ?xsi; ?xdi; ?xbp; ?xsp; ?x8; ?x9; ?x10; ?x11;
                              ?x12; ?x13; ?x14; ?x15; ?xip] ≫= _ =>
  match type of Hvs with _ = [?xfl; ?xcs; ?xss; ?xds; ?xes; ?xfs; ?xgs] ≫= _ =>
    set (r := mkAmd64 x15 x14 x13 x12 xbp xbx x11 x10 x9 x8 xax xcx xdx xsi xdi 0 xip xcs xfl xsp xss
                0 0 xds xes xfs xgs)
  end end.
  change (256 ^ Z.of_nat 8) with (2 ^ 64) in Hw. change (256 ^ Z.of_nat 4) with (2 ^ 32) in Hv.
  exists r. rewrite !Forall_cons_iff in Hw. rewrite !Forall_cons_iff in Hv. destruct_and!. split.
  { unfold amd64_typed. rewrite !Forall_cons_iff. subst r. simpl. split_and!; (lia || constructor). }
  destruct (to_gpacket_run (E:=E) r) as (raw' & -> & _ & ->). f_equal. rewrite <-(take_drop 136 raw), Hws, Hvs.
  unfold amd64_bytes. f_equal. subst r. cbn [mbind list_bind eflags cs ss ds es fs gs].
  unfold low_u32_le. rewrite !land_u32, !Z.mod_small by lia. done.
Qed.

(** The amd64 register packet.  The packet of any registers has the declared
    size, and applying it (with anything after it) sets every register it carries,
    the flags and segment selectors to their low 32 bits, and keeps the three it
    does not carry; conversely any bytes of that size, applied and packed again,
    are unchanged; a shorter packet is an error.  Nothing panics. *)
Theorem amd64_packet_exact (self : Amd64CoreRegisters) :
  (∀ r extra, amd64_typed r →
     ∃ raw, amd64_registers_to_gpacket r = Ok raw ∧ zlen raw = AMD64_GPACKET_BYTES
            ∧ apply_gpacket self (raw ++ extra) = Ok (carried r self))
  ∧ (∀ raw, Forall is_byte raw → zlen raw = AMD64_GPACKET_BYTES →
     ∃ r, apply_gpacket self raw = Ok r ∧ amd64_registers_to_gpacket r = Ok raw
          ∧ orig_rax r = orig_rax self ∧ fs_base r = fs_base self ∧ gs_base r = gs_base self)
  ∧ (∀ raw, zlen raw < AMD64_GPACKET_BYTES → ∃ e, apply_gpacket self raw = Err e).
Proof.
  split_and!.
  - intros r extra Hr. destruct (to_gpacket_run (E:=TargetError) r) as (raw & Hto & Hlen & _).
    exists raw. split_and!; [done..|]. by eapply apply_gpacket_run.
  - intros raw Hb Hlen. destruct (to_gpacket_surjective (E:=TargetError) raw Hb Hlen) as (r & Hr & Hto).
    exists (carried r self). split_and!; [|unfold amd64_registers_to_gpacket; by rewrite to_gpacket_carried|done..].
    rewrite <-(app_nil_r raw). by eapply apply_gpacket_run.
  - intros raw Hlen. unfold apply_gpacket. rewrite (proj2 (Z.ltb_lt _ _)) by done. by eexists.
Qed.

(** ** PlayStation 2 EE *)

Record ps2_typed (r : Ps2EeCoreRegisters) : Prop := {
  pt_gprs : length (ee_gpr r) = 32%nat ∧ Forall (λ v, is_u128 v) (ee_gpr r);
  pt_fprs : length (ee_fpr r) = 32%nat ∧ Forall (λ v, is_u32 v) (ee_fpr r);
  pt_wide : is_u128 (ee_lo r) ∧ is_u128 (ee_hi r);
  pt_words : Forall (λ v, is_u32 v)
    [ee_status r; ee_badvaddr r; ee_cause r; ee_pc r; ee_fcsr r; ee_fir r; ee_epc r; ee_sa r;
     ee_fpu_acc r]
}.

Definition ps2_bytes (r : Ps2EeCoreRegisters) : list Z :=
  ((low_half <$> ee_gpr r) ≫= le_bytes 8)
  ++ le_bytes 4 (ee_status r) ++ le_bytes 8 (low_half (ee_lo r)) ++ le_bytes 8 (low_half (ee_hi r))
  ++ le_bytes 4 (ee_badvaddr r) ++ le_bytes 4 (ee_cause r) ++ le_bytes 4 (ee_pc r)
  ++ (ee_fpr r ≫= le_bytes 4)
  ++ le_bytes 4 (ee_fcsr r) ++ le_bytes 4 (ee_fir r) ++ le_bytes 4 (ee_epc r)
  ++ ((high_half <$> ee_gpr r) ≫= le_bytes 8)
  ++ le_bytes 8 (high_half (ee_lo r)) ++ le_bytes 8 (high_half (ee_hi r))
  ++ le_bytes 4 (ee_sa r) ++ le_bytes 4 (ee_fpu_acc r).

Lemma low_half_mod v : low_half v = v mod 2 ^ 64.
Proof. unfold low_half. change u64_max with (Z.ones 64). by rewrite Z.land_ones. Qed.

Lemma high_half_div v : high_half v = v / 2 ^ 64.
Proof. unfold high_half. by rewrite Z.shiftr_div_pow2. Qed.

Lemma join_halves_eq low upper : is_u64 low → join_halves low upper = upper * 2 ^ 64 + low.
Proof. intros Hl. unfold join_halves. rewrite Z.lor_comm. by apply lor_shiftl. Qed.

Lemma join_halves_split v : is_u128 v → join_halves (low_half v) (high_half v) = v.
Proof.
  intros Hv. rewrite low_half_mod, high_half_div, join_halves_eq by (by apply Z.mod_pos_bound).
  pose proof (Z.div_mod v (2 ^ 64)). lia.
Qed.

Lemma low_half_join low upper : is_u64 low → low_half (join_halves low upper) = low.
Proof.
  intros Hl. rewrite low_half_mod, join_halves_eq, Z.add_comm, Z_mod_plus_full by done.
  by apply Z.mod_small.
Qed.

Lemma high_half_join low upper : is_u64 low → high_half (join_halves low upper) = upper.
Proof.
  intros Hl. rewrite high_half_div, join_halves_eq, Z.div_add_l, Z.div_small by done. lia.
Qed.

Lemma join_halves_typed low upper : is_u64 low → is_u64 upper → is_u128 (join_halves low upper).
Proof. intros Hl Hu. rewrite join_halves_eq by done. change (2 ^ 128) with (2 ^ 64 * 2 ^ 64). nia. Qed.

Lemma low_half_typed v : is_u64 (low_half v).
Proof. rewrite low_half_mod. by apply Z.mod_pos_bound. Qed.

Lemma high_half_typed v : is_u128 v → is_u64 (high_half v).
Proof.
  intros Hv. rewrite high_half_div. split; [apply Z.div_pos; lia|]. apply Z.div_lt_upper_bound; lia.
Qed.

Lemma ps2_to_gpacket_eq r :
  length (ee_gpr r) = 32%nat → length (ee_fpr r) = 32%nat →
  ps2_to_gpacket r = Ok (ps2_bytes r) ∧ zlen (ps2_bytes r) = PS2_EE_GPACKET_BYTES.
Proof.
  intros Hg Hf. assert (zlen (ps2_bytes r) = PS2_EE_GPACKET_BYTES) as Hlen.
  { unfold ps2_bytes.
    assert (∀ xs ys : list Z, zlen (xs ++ ys) = zlen xs + zlen ys) as Ha
      by (intros; unfold zlen; rewrite length_app; lia).
    rewrite !Ha. do 2 rewrite (zlen_chunks 8 (le_bytes 8)) by apply length_le_bytes.
    rewrite (zlen_chunks 4) by apply length_le_bytes.
    unfold zlen. rewrite !length_fmap, Hg, Hf, !length_le_bytes. reflexivity. }
  split; [|done]. unfold ps2_to_gpacket, debug_assert_len.
  assert (∀ f (l : list Z), (l ≫= λ v, le_bytes 8 (f v)) = (f <$> l) ≫= le_bytes 8) as Hb.
  { intros f l. induction l as [|v l IH]; [done|]. by rewrite fmap_cons, !bind_cons, IH. }
  rewrite (Hb low_half), (Hb high_half). fold (ps2_bytes r). by rewrite Hlen, Z.eqb_refl.
Qed.

(** [m] reads the last [bytes] of a packet of [total] bytes. *)
Definition finishes {A} (total : Z) (m : smonad GpacketCursor TargetError A) (bytes : list Z) (a : A)
    : Prop :=
  ∀ pre, zlen (pre ++ bytes) = total →
    m (mkGpacketCursor (pre ++ bytes) (zlen pre)) = (Ok a, mkGpacketCursor (pre ++ bytes) total).

Lemma finishes_bind {A B} total (m : smonad GpacketCursor TargetError A)
    (k : A → smonad GpacketCursor TargetError B) bytes1 bytes2 a b :
  yields m bytes1 a → finishes total (k a) bytes2 b → finishes total (sbind m k) (bytes1 ++ bytes2) b.
Proof.
  intros Hm Hk pre Hlen. unfold sbind. rewrite Hm. rewrite (assoc_L (++)) in *. by apply Hk.
Qed.

Lemma ps2_read_finishes r self :
  ps2_typed r → length (ee_gpr self) = 32%nat → length (ee_fpr self) = 32%nat →
  finishes PS2_EE_GPACKET_BYTES (ps2_read_gpacket self) (ps2_bytes r) r.
Proof.
  intros [[Hg Hgt] [Hf Hft] [Hlo Hhi] Hw] Hsg Hsf. rewrite !Forall_cons_iff in Hw. destruct_and!.
  assert (Forall (λ v, is_u64 v) (low_half <$> ee_gpr r)) as Hl.
  { apply Forall_fmap, Forall_true. intros v. apply low_half_typed. }
  assert (Forall (λ v, is_u64 v) (high_half <$> ee_gpr r)) as Hh.
  { apply Forall_fmap. apply (list.Forall_impl _ _ _ Hgt). intros v. apply high_half_typed. }
  assert (zip_with join_halves (low_half <$> ee_gpr r) (high_half <$> ee_gpr r) = ee_gpr r) as Hz.
  { clear -Hgt. induction Hgt as [|v l Hv Hl IH]; [done|]. rewrite !fmap_cons. cbn [zip_with].
    by rewrite IH, join_halves_split. }
  unfold ps2_read_gpacket, ps2_bytes.
  eapply finishes_bind; [apply (yields_each _ _ _ _ _ yields_u64 Hl); by rewrite length_fmap|].
  eapply finishes_bind; [by apply yields_u32|].
  do 2 (eapply finishes_bind; [apply yields_u64, low_half_typed|]).
  do 3 (eapply finishes_bind; [by apply yields_u32|]).
  eapply finishes_bind; [apply (yields_each _ _ _ _ _ yields_u32 Hft); congruence|].
  do 3 (eapply finishes_bind; [by apply yields_u32|]).
  eapply finishes_bind; [apply (yields_each _ _ _ _ _ yields_u64 Hh); rewrite length_fmap; congruence|].
  do 2 (eapply finishes_bind; [by apply yields_u64, high_half_typed|]).
  eapply finishes_bind; [by apply yields_u32|].
  rewrite <-(app_nil_r (le_bytes 4 (ee_fpu_acc r))).
  eapply finishes_bind; [by apply yields_u32|]. intros pre Hlen. rewrite app_nil_r in *.
  unfold sbind, sread, sret. cbn [gc_offset]. rewrite Hlen, Z.eqb_refl, Hz, !join_halves_split by done.
  by destruct r.
Qed.

Lemma ps2_apply_run r self :
  ps2_typed r → length (ee_gpr self) = 32%nat → length (ee_fpr self) = 32%nat →
  ps2_apply_gpacket self (ps2_bytes r) = Ok r.
Proof.
  intros Hr Hg Hf. destruct (ps2_to_gpacket_eq r) as [_ Hlen]; [apply Hr..|].
  unfold ps2_apply_gpacket. rewrite Hlen, Z.eqb_refl. cbn [negb fail_if result_bind].
  pose proof (ps2_read_finishes r self Hr Hg Hf [] Hlen) as Hy. cbn [app] in Hy.
  change (zlen []) with 0 in Hy. by rewrite Hy.
Qed.

(** The first words of a byte string. *)
Lemma peel_words (k n m : nat) bytes :
  Forall is_byte bytes → length bytes = (n * k + m)%nat →
  ∃ values rest, bytes = (values ≫= le_bytes k) ++ rest ∧ length values = n
    ∧ Forall (λ v, 0 ≤ v < 256 ^ Z.of_nat k) values ∧ Forall is_byte rest ∧ length rest = m.
Proof.
  intros Hb Hlen. destruct (words_of k n (take (n * k) bytes)) as (values & Hn & Hv & Hs);
    [by apply Forall_take|rewrite length_take; lia|].
  exists values, (drop (n * k) bytes). rewrite <-Hs, take_drop. split_and!; [done..| |].
  - by apply Forall_drop.
  - rewrite length_drop. lia.
Qed.

Lemma peel_word (k m : nat) bytes :
  Forall is_byte bytes → length bytes = (k + m)%nat →
  ∃ v rest, bytes = le_bytes k v ++ rest ∧ 0 ≤ v < 256 ^ Z.of_nat k ∧ Forall is_byte rest
            ∧ length rest = m.
Proof.
  intros Hb Hlen. destruct (peel_words k 1 m bytes Hb) as (values & rest & -> & Hn & Hv & Hr & Hm); [lia|].
  destruct values as [|v [|]]; try done. apply Forall_cons_iff in Hv as [Hv _].
  exists v, rest. split_and!; [|lia|lia|done..]. cbn [mbind list_bind]. by rewrite app_nil_r.
Qed.

Lemma halves_of_join low upper :
  length low = length upper → Forall (λ v, is_u64 v) low → Forall (λ v, is_u64 v) upper →
  (low_half <$> zip_with join_halves low upper) = low
  ∧ (high_half <$> zip_with join_halves low upper) = upper
  ∧ Forall (λ v, is_u128 v) (zip_with join_halves low upper).
Proof.
  intros Hlen Hl. revert upper Hlen. induction Hl as [|v low Hv Hl IH]; intros [|w upper] Hlen Hu; try done.
  apply Forall_cons_iff in Hu as [Hw Hu]. injection Hlen as Hlen.
  destruct (IH upper Hlen Hu) as (H1 & H2 & H3). cbn [zip_with]. rewrite !fmap_cons, H1, H2.
  rewrite low_half_join, high_half_join by done. split_and!; [done..|].
  constructor; [by apply join_halves_typed|done].
Qed.

Ltac peel bytes v k m :=
  let rest := fresh bytes in
  match goal with
  | Hb : Forall is_byte bytes, Hlen : length bytes = _ |- _ =>
      destruct (peel_word k m bytes Hb Hlen) as (v & rest & -> & ? & ? & ?); clear Hb Hlen;
      rename rest into bytes
  end.

Ltac peels bytes vs k n m :=
  let rest := fresh bytes in
  match goal with
  | Hb : Forall is_byte bytes, Hlen : length bytes = _ |- _ =>
      destruct (peel_words k n m bytes Hb Hlen) as (vs & rest & -> & ? & ? & ? & ?);
      clear Hb Hlen; rename rest into bytes
  end.

Lemma ps2_to_gpacket_surjective raw :
  Forall is_byte raw → zlen raw = PS2_EE_GPACKET_BYTES → ∃ r, ps2_typed r ∧ ps2_bytes r = raw.
Proof.
  intros Hb Hlen. assert (length raw = 708%nat) by (unfold zlen in Hlen; by apply Nat2Z.inj). clear Hlen.
  peels raw low 8%nat 32%nat 452%nat. peel raw status 4%nat 448%nat. peel raw low_lo 8%nat 440%nat.
  peel raw low_hi 8%nat 432%nat. peel raw badvaddr 4%nat 428%nat. peel raw cause 4%nat 424%nat.
  peel raw pc 4%nat 420%nat. peels raw fpr 4%nat 32%nat 292%nat. peel raw fcsr 4%nat 288%nat.
  peel raw fir 4%nat 284%nat. peel raw epc 4%nat 280%nat. peels raw upper 8%nat 32%nat 24%nat.
  peel raw upper_lo 8%nat 16%nat. peel raw upper_hi 8%nat 8%nat. peel raw sa 4%nat 4%nat.
  peel raw acc 4%nat 0%nat. destruct raw; [|done].
  destruct (halves_of_join low upper) as (Hlow & Hup & Hty); [congruence|done..|].
  exists (mkPs2Ee (zip_with join_halves low upper) (join_halves low_lo upper_lo)
            (join_halves low_hi upper_hi) pc status badvaddr cause epc fpr fcsr fir sa acc).
  split.
  - split; simpl.
    + rewrite length_zip_with. split; [lia|done].
    + done.
    + split; by apply join_halves_typed.
    + rewrite !Forall_cons_iff. repeat (split; [done|]). constructor.
  - unfold ps2_bytes. cbn [ee_gpr ee_lo ee_hi ee_pc ee_status ee_badvaddr ee_cause ee_epc ee_fpr
      ee_fcsr ee_fir ee_sa ee_fpu_acc]. rewrite Hlow, Hup.
    rewrite !low_half_join, !high_half_join, app_nil_r by done. done.
Qed.

(** The PlayStation 2 EE register packet loses nothing.  Registers of the
    right widths pack into 708 bytes and unpack to themselves whatever registers
    they are applied to, the 128-bit ones joined from the two halves that lie
    apart in the packet; any 708 bytes unpack and pack again to themselves; a
    packet of another size is an error.  Nothing panics. *)
Theorem ps2_packet_exact (self : Ps2EeCoreRegisters) :
  ps2_typed self →
  (∀ r, ps2_typed r →
     ∃ raw, ps2_ee_registers_to_gpacket r = Ok raw ∧ zlen raw = PS2_EE_GPACKET_BYTES
            ∧ ps2_apply_gpacket self raw = Ok r)
  ∧ (∀ raw, Forall is_byte raw → zlen raw = PS2_EE_GPACKET_BYTES →
     ∃ r, ps2_apply_gpacket self raw = Ok r ∧ ps2_typed r ∧ ps2_ee_registers_to_gpacket r = Ok raw)
  ∧ (∀ raw, zlen raw ≠ PS2_EE_GPACKET_BYTES → ∃ e, ps2_apply_gpacket self raw = Err e).
Proof.
  intros Hself. assert (∀ r, ps2_typed r → ps2_apply_gpacket self (ps2_bytes r) = Ok r) as Happly.
  { intros r Hr. by apply ps2_apply_run; [|apply Hself..]. }
  assert (∀ r, ps2_typed r → ps2_to_gpacket r = Ok (ps2_bytes r)
                             ∧ zlen (ps2_bytes r) = PS2_EE_GPACKET_BYTES) as Hto.
  { intros r Hr. apply ps2_to_gpacket_eq; apply Hr. }
  split_and!.
  - intros r Hr. exists (ps2_bytes r). destruct (Hto r Hr) as [H1 H2]. by split_and!; [..|apply Happly].
  - intros raw Hb Hlen. destruct (ps2_to_gpacket_surjective raw Hb Hlen) as (r & Hr & <-).
    exists r. destruct (Hto r Hr) as [H1 H2]. by split_and!; [apply Happly|..].
  - intros raw Hlen. unfold ps2_apply_gpacket. rewrite (proj2 (Z.eqb_neq _ _)) by done. by eexists.
Qed.
