(* ===== verification/GdbServer.v ===== *)
(** The remote serial protocol server of [resymbol-gdb-remote/src/server.rs]:
    packet dispatch onto a [RemoteTarget], and the acknowledgement handshake
    over a [Transport] ([transport.rs]). *)

From S2P Require Import Prelude GdbPacket GdbTransport GdbTarget.
Import Rsp RspTransport RspTarget.
Open Scope Z_scope.

Module RspServer.

(** ** Replies *)

Inductive Disposition : Type :=
  | Reply (reply : list Z)
  | Detach (reply : list Z)
  | Kill.

Definition MAX_RESENDS : Z := 8.

(** [position] and [rposition] of a byte, and the slices around it. *)
Fixpoint position (b : Z) (l : list Z) : option nat :=
  match l with
  | [] => None
  | x :: l' => if x =? b then Some O else S <$> position b l'
  end.

Definition split_at_first (b : Z) (l : list Z) : option (list Z * list Z) :=
  (λ i, (take i l, drop (S i) l)) <$> position b l.

Definition after_last (b : Z) (l : list Z) : list Z :=
  match position b (reverse l) with
  | Some i => reverse (take i (reverse l))
  | None => l
  end.

Definition strip_prefix (prefix l : list Z) : option (list Z) :=
  if bool_decide (take (length prefix) l = prefix) then Some (drop (length prefix) l) else None.

Definition starts_with (prefix l : list Z) : bool :=
  bool_decide (is_Some (strip_prefix prefix l)).

Definition empty_reply : list Z := [].
Definition error_reply : list Z := str "E01".
Definition ok_reply : list Z := str "OK".

Definition stop_reply_packet (reply : StopReply) : list Z :=
  match reply with
  | Signal signal => str "S" ++ hex_byte signal
  | Exited code => str "W" ++ hex_byte code
  | Terminated signal => str "X" ++ hex_byte signal
  end.

Definition parse_addr_len (bytes : list Z) : option (Z * Z) :=
  match split_at_first 44 bytes with
  | Some (a, l) =>
      match parse_hex_u64 a, parse_hex_u64 l with
      | Some addr, Some len => Some (addr, len)
      | _, _ => None
      end
  | None => None
  end.

Definition parse_thread_id (bytes : list Z) : option Z :=
  let tail := after_last 46 bytes in
  let tail := default tail (strip_prefix (str "p") tail) in
  if bool_decide (tail = str "-1") then None else parse_hex_u64 tail.

(** ** Dispatch *)

Section dispatch.
Context {T : Type} `{RemoteTarget T}.

(** A request drives the target and never fails itself; only a panic of the
    target would go through. *)
Abbreviation request A := (smonad T Empty_set A).

(** The [Result] of a target call, whose error the server does not look at. *)
Definition try {A} (c : target_op T A) : request (option A) :=
  λ t, match c t with
       | (Ok a, t') => (Ok (Some a), t')
       | (Err _, t') => (Ok None, t')
       | (Panic msg, t') => (Panic msg, t')
       end.

Definition ask {A} (f : T → A * T) : request A := λ t, let (a, t') := f t in (Ok a, t').

(** ["OK"] or the error reply. *)
Definition ok_or_error (c : target_op T unit) : request (list Z) :=
  let! r := try c in
  sret (match r with Some _ => ok_reply | None => error_reply end).

Definition stop_reply_for (reply : StopReply) : request (list Z) :=
  match reply with
  | Signal signal =>
      let! thread := ask stopped_thread in
      sret (match thread with
            | Some thread =>
                str "T" ++ hex_byte signal ++ str "thread:" ++ format_x thread ++ str ";"
            | None => stop_reply_packet reply
            end)
  | _ => sret (stop_reply_packet reply)
  end.

(** Resume, and report the stop. *)
Definition resume (c : target_op T StopReply) : request (list Z) :=
  let! r := try c in
  match r with Some reply => stop_reply_for reply | None => sret error_reply end.

Definition register_packet_is_valid (raw : list Z) (limits : ProtocolLimits) (t : T) : bool :=
  if max_packet_payload limits / 2 <? zlen raw then false
  else match target_description t with
       | Some description => zlen raw =? td_register_packet_bytes description
       | None => true
       end.

Definition handle_read_registers (limits : ProtocolLimits) : request (list Z) :=
  let! r := try read_registers in
  match r with
  | Some bytes =>
      let! valid := sget (register_packet_is_valid bytes limits) in
      sret (if (valid : bool) then hex_encode bytes else error_reply)
  | None => sret error_reply
  end.

Definition handle_write_registers (rest : list Z) (limits : ProtocolLimits) : request (list Z) :=
  match hex_decode rest with
  | Some raw =>
      let! valid := sget (register_packet_is_valid raw limits) in
      if (valid : bool) then ok_or_error (write_registers raw) else sret error_reply
  | None => sret error_reply
  end.

Definition handle_read_memory (rest : list Z) (limits : ProtocolLimits) : request (list Z) :=
  match parse_addr_len rest with
  | None => sret error_reply
  | Some (addr, len) =>
      let max_read := Z.min (max_memory_transfer limits) (max_packet_payload limits / 2) in
      if max_read <? len then sret error_reply
      else
        let! r := try (read_memory addr len) in
        sret (match r with
              | Some bytes => if zlen bytes =? len then hex_encode bytes else error_reply
              | None => error_reply
              end)
  end.

Definition handle_write_memory (rest : list Z) (limits : ProtocolLimits) : request (list Z) :=
  match split_at_first 58 rest with
  | None => sret error_reply
  | Some (spec, data) =>
      match parse_addr_len spec, hex_decode data with
      | Some (addr, declared_len), Some bytes =>
          if negb (declared_len =? zlen bytes) || (max_memory_transfer limits <? zlen bytes)
          then sret error_reply
          else ok_or_error (write_memory addr bytes)
      | _, _ => sret error_reply
      end
  end.

(** [type,addr,kind]; anything after a semicolon is ignored. *)
Definition handle_breakpoint (rest : list Z) (set : bool) : request (list Z) :=
  match rest with
  | [] => sret error_reply
  | bptype :: after_type =>
      let fields := default after_type (strip_prefix (str ",") after_type) in
      let fields := match split_at_first 59 fields with
                    | Some (fields, _) => fields
                    | None => fields
                    end in
      let '(addr_bytes, third_bytes) := match split_at_first 44 fields with
                                        | Some (a, third) => (a, Some third)
                                        | None => (fields, None)
                                        end in
      match parse_hex_u64 addr_bytes, third_bytes ≫= parse_hex_u64 with
      | Some addr, Some third =>
          let watch kind :=
            ok_or_error (if set then set_watchpoint addr third kind
                         else remove_watchpoint addr third kind) in
          if bptype =? 48
          then ok_or_error (if set then set_sw_breakpoint_with_kind addr third
                            else remove_sw_breakpoint_with_kind addr third)
          else if bptype =? 49
          then ok_or_error (if set then set_hw_breakpoint addr else remove_hw_breakpoint addr)
          else if bptype =? 50 then watch WriteWatch
          else if bptype =? 51 then watch ReadWatch
          else if bptype =? 52 then watch AccessWatch
          else sret empty_reply
      | _, _ => sret error_reply
      end
  end.

Definition handle_target_description (req : list Z) (limits : ProtocolLimits)
    : request (list Z) :=
  match strip_prefix (str "target.xml:") req with
  | None => sret empty_reply
  | Some spec =>
      match parse_addr_len spec with
      | None => sret error_reply
      | Some (offset, requested) =>
          let! description := sget target_description in
          sret (match description with
                | None => empty_reply
                | Some description =>
                    let xml := td_xml description in
                    if zlen xml <? offset then error_reply
                    else
                      let max_chunk := Z.max 0 (max_packet_payload limits - 1) in
                      let chunk_len := Z.min (Z.min requested max_chunk) (zlen xml - offset) in
                      let end_ := offset + chunk_len in
                      (if end_ <? zlen xml then str "m" else str "l")
                      ++ take (Z.to_nat chunk_len) (drop (Z.to_nat offset) xml)
                end)
      end
  end.

(** The loop that builds the thread list; [None] when it outgrows the packet. *)
Fixpoint thread_list (limit : Z) (first : bool) (out : list Z) (ids : list Z)
    : option (list Z) :=
  match ids with
  | [] => Some out
  | id :: ids' =>
      let encoded := format_x id in
      let separator := if first then [] else str "," in
      if limit <? zlen out + zlen separator + zlen encoded then None
      else thread_list limit false (out ++ separator ++ encoded) ids'
  end.

Definition handle_query (rest : list Z) (limits : ProtocolLimits) : request (list Z) :=
  if starts_with (str "Supported") rest then
    let! description := sget target_description in
    sret (str "PacketSize=" ++ format_x (max_packet_payload limits) ++ str ";swbreak+"
          ++ match description with
             | Some _ => str ";qXfer:features:read+"
             | None => []
             end)
  else match strip_prefix (str "Xfer:features:read:") rest with
  | Some req => handle_target_description req limits
  | None =>
      if starts_with (str "Attached") rest then sret (str "1")
      else if bool_decide (rest = str "C") then
        let! r := try current_thread in
        sret (match r with Some tid => str "QC" ++ format_x tid | None => str "QC01" end)
      else if bool_decide (rest = str "fThreadInfo") then
        let! r := try thread_ids in
        sret (match r with
              | Some (id :: ids) =>
                  default error_reply (thread_list (max_packet_payload limits) true (str "m")
                                         (id :: ids))
              | _ => str "l"
              end)
      else if bool_decide (rest = str "sThreadInfo") then sret (str "l")
      else sret empty_reply
  end.

Definition handle_set_thread (rest : list Z) : request (list Z) :=
  match rest with
  | [] => sret ok_reply
  | _ :: id_bytes =>
      match parse_thread_id id_bytes with
      | None => sret ok_reply
      | Some tid => if tid =? 0 then sret ok_reply else ok_or_error (set_current_thread tid)
      end
  end.

Definition handle_is_thread_alive (rest : list Z) : request (list Z) :=
  match parse_thread_id rest with
  | None => sret error_reply
  | Some tid =>
      let! r := try thread_ids in
      sret (match r with
            | Some ids => if bool_decide (tid ∈ ids) then ok_reply else str "E01"
            | None => str "E01"
            end)
  end.

(** The first action of a [vCont] packet. *)
Definition handle_actions (actions : list Z) : request (list Z) :=
  let first_action := match split_at_first 59 actions with
                      | Some (first_action, _) => first_action
                      | None => actions
                      end in
  let letter := head first_action in
  let thread := match split_at_first 58 first_action with
                | Some (_, suffix) => parse_thread_id suffix
                | None => None
                end in
  do! match thread with
      | Some tid => let! _ := try (set_current_thread tid) in sret tt
      | None => sret tt
      end in
  match letter with
  | Some letter =>
      if (letter =? 99) || (letter =? 67) then resume cont
      else if (letter =? 115) || (letter =? 83) then resume step
      else sret empty_reply
  | None => sret empty_reply
  end.

Definition handle_v_packet (rest : list Z) : request (list Z) :=
  if bool_decide (rest = str "Cont?") then sret (str "vCont;c;s")
  else match strip_prefix (str "Cont;") rest with
       | Some actions => handle_actions actions
       | None => sret empty_reply
       end.

Definition reply_with (c : request (list Z)) : request Disposition :=
  let! reply := c in sret (Reply reply).

Definition dispatch (payload : list Z) (limits : ProtocolLimits) : request Disposition :=
  match payload with
  | [] => sret (Reply empty_reply)
  | first :: rest =>
      if first =? 63 then reply_with (let! reply := ask stop_reason in stop_reply_for reply)
      else if first =? 103 then reply_with (handle_read_registers limits)
      else if first =? 71 then reply_with (handle_write_registers rest limits)
      else if first =? 109 then reply_with (handle_read_memory rest limits)
      else if first =? 77 then reply_with (handle_write_memory rest limits)
      else if first =? 99 then reply_with (resume cont)
      else if first =? 115 then reply_with (resume step)
      else if first =? 90 then reply_with (handle_breakpoint rest true)
      else if first =? 122 then reply_with (handle_breakpoint rest false)
      else if first =? 113 then reply_with (handle_query rest limits)
      else if first =? 72 then reply_with (handle_set_thread rest)
      else if first =? 84 then reply_with (handle_is_thread_alive rest)
      else if first =? 118 then reply_with (handle_v_packet rest)
      else if first =? 68 then sret (Detach ok_reply)
      else if first =? 107 then sret Kill
      else sret (Reply empty_reply)
  end.
End dispatch.

(** ** The server loop

    The loops end when the transport reports the end of its input, so they take
    fuel; running out of it is a panic of the model. *)

Record GdbStubServer (Tr : Type) : Type := mkGdbStubServer {
  gs_transport : Tr;
  gs_reader : PacketReader;
  gs_limits : ProtocolLimits
}.
Arguments mkGdbStubServer {Tr}.
Arguments gs_transport {Tr}.
Arguments gs_reader {Tr}.
Arguments gs_limits {Tr}.

Definition with_limits {Tr} (transport : Tr) (limits : ProtocolLimits) : GdbStubServer Tr :=
  mkGdbStubServer transport (with_max_payload (max_packet_payload limits)) limits.

Definition GdbStubServer_new {Tr} (transport : Tr) : GdbStubServer Tr :=
  with_limits transport ProtocolLimits_default.

Definition out_of_fuel {S E A} : smonad S E A := slift (Panic "the loop does not end").

Section server.
Context {Tr T : Type} `{Transport Tr} `{RemoteTarget T}.

Abbreviation server_op A := (smonad (GdbStubServer Tr) IoError A).

(** A call on [self.transport]. *)
Definition on_transport {A} (c : io_op Tr A) : server_op A :=
  λ s, let (r, t) := c (gs_transport s) in (r, mkGdbStubServer t (gs_reader s) (gs_limits s)).

(** [self.reader.push(byte)]. *)
Definition push_byte (byte : Z) : server_op (option PacketEvent) :=
  λ s, let (event, reader) := push byte (gs_reader s) in
       (Ok event, mkGdbStubServer (gs_transport s) reader (gs_limits s)).

(** [read_byte] with the end of the input told apart. *)
Definition read_or_eof : server_op (option Z) :=
  λ s, match on_transport read_byte s with
       | (Ok byte, s') => (Ok (Some byte), s')
       | (Err e, s') =>
           if bool_decide (io_kind e = UnexpectedEof) then (Ok None, s') else (Err e, s')
       | (Panic msg, s') => (Panic msg, s')
       end.

Fixpoint next_packet (fuel : nat) : server_op (option (list Z)) :=
  match fuel with
  | O => out_of_fuel
  | S fuel' =>
      let! byte := read_or_eof in
      match byte with
      | None => sret None
      | Some byte =>
          let! event := push_byte byte in
          match event with
          | Some (Packet payload true) =>
              do! on_transport (send_bytes (str "+")) in
              sret (Some payload)
          | Some (Packet _ false) =>
              do! on_transport (send_bytes (str "-")) in
              next_packet fuel'
          | _ => next_packet fuel'
          end
      end
  end.

Fixpoint await_ack (fuel : nat) : server_op (option bool) :=
  match fuel with
  | O => out_of_fuel
  | S fuel' =>
      let! byte := read_or_eof in
      match byte with
      | None => sret None
      | Some byte =>
          let! event := push_byte byte in
          match event with
          | Some Ack => sret (Some true)
          | Some Nack => sret (Some false)
          | _ => await_ack fuel'
          end
      end
  end.

(** The resend loop, with [left] of the [MAX_RESENDS] resends left. *)
Fixpoint send_loop (fuel left : nat) (packet : list Z) : server_op unit :=
  do! on_transport (send_bytes packet) in
  let! ack := await_ack fuel in
  match ack, left with
  | Some false, S left' => send_loop fuel left' packet
  | _, _ => sret tt
  end.

Definition send_packet (fuel : nat) (payload : list Z) : server_op unit :=
  do! sread (λ s, fail_if (max_packet_payload (gs_limits s) <? zlen payload)
                    (io_error InvalidData "RSP reply exceeds configured packet limit")) in
  send_loop fuel (Z.to_nat MAX_RESENDS) (encode_packet payload).

(** The server and the target it serves. *)
Abbreviation serving A := (smonad (GdbStubServer Tr * T) IoError A).

Definition on_server {A} (c : server_op A) : serving A :=
  λ w, let (r, s) := c w.1 in (r, (s, w.2)).

Definition on_target {A} (c : smonad T Empty_set A) : serving A :=
  λ w, match c w.2 with
       | (Ok a, t) => (Ok a, (w.1, t))
       | (Err e, _) => match e with end
       | (Panic msg, t) => (Panic msg, (w.1, t))
       end.

Fixpoint serve (fuel : nat) : serving unit :=
  match fuel with
  | O => out_of_fuel
  | S fuel' =>
      let! payload := on_server (next_packet fuel) in
      match payload with
      | None => sret tt
      | Some payload =>
          let! limits := sget (λ w, gs_limits w.1) in
          let! disposition := on_target (dispatch payload limits) in
          match disposition with
          | Reply reply => do! on_server (send_packet fuel reply) in serve fuel'
          | Detach reply => on_server (send_packet fuel reply)
          | Kill => sret tt
          end
      end
  end.

Definition serve_one_with_limits (fuel : nat) (target : T) (transport : Tr)
    (limits : ProtocolLimits) : result unit IoError * (GdbStubServer Tr * T) :=
  serve fuel (with_limits transport limits, target).

Definition serve_one (fuel : nat) (target : T) (transport : Tr)
    : result unit IoError * (GdbStubServer Tr * T) :=
  serve fuel (GdbStubServer_new transport, target).
End server.

End RspServer.
