(* ===== verification/GdbTextTheory.v ===== *)
(** The text of requests and replies: numbers in hex and their parsing, and the
    separators that delimit them ([GdbServer.v], [GdbClient.v]). *)

From S2P Require Import Prelude GdbPacket GdbPacketTheory GdbTransport GdbTarget GdbServer.
Import Rsp RspServer.
Open Scope Z_scope.

(** ** Hex numbers *)

Definition is_hex_text (l : list Z) : Prop := Forall (λ b, is_Some (from_hex_digit b)) l.

Lemma lower_hex_digit_eq n : 0 ≤ n ≤ 15 → lower_hex_digit n = hex_digit n.
Proof.
  intros Hn. unfold lower_hex_digit, hex_digit, in_range.
  destruct (Z.ltb_spec n 10), (Z.leb_spec 0 n), (Z.leb_spec n 9); simpl; lia.
Qed.

Lemma hex_value_snoc v xs b :
  hex_value v (xs ++ [b])
  = match hex_value v xs, from_hex_digit b with
    | Some n, Some d => Some (16 * n + d)
    | _, _ => None
    end.
Proof.
  revert v. induction xs as [|x xs IH]; intros v; simpl; [by destruct (from_hex_digit b)|].
  destruct (from_hex_digit x); [apply IH|done].
Qed.

Lemma format_radix_S radix k n :
  format_radix radix (S k) n
  = (if n <? radix then [] else format_radix radix k (n / radix)) ++ [lower_hex_digit (n mod radix)].
Proof. done. Qed.

Lemma format_radix_hex (k : nat) n :
  0 ≤ n < 16 ^ Z.of_nat (S k) →
  hex_value 0 (format_radix 16 (S k) n) = Some n ∧ is_hex_text (format_radix 16 (S k) n)
  ∧ (0 < length (format_radix 16 (S k) n) ≤ S k)%nat.
Proof.
  revert n. induction k as [|k IH]; intros n Hn.
  all: pose proof (Z.mod_pos_bound n 16); pose proof (Z.div_mod n 16).
  all: rewrite format_radix_S, lower_hex_digit_eq by lia.
  all: assert (from_hex_digit (hex_digit (n mod 16)) = Some (n mod 16)) as Hd
    by (apply from_hex_digit_hex; lia).
  - change (16 ^ Z.of_nat 1) with 16 in Hn. rewrite (proj2 (Z.ltb_lt _ _)) by lia. simpl. rewrite Hd.
    split; [f_equal; rewrite Z.mod_small; lia|]. split; [by repeat constructor|lia].
  - destruct (Z.ltb_spec n 16) as [Hlt|Hge].
    + simpl. rewrite Hd. split; [f_equal; rewrite Z.mod_small; lia|]. split; [by repeat constructor|lia].
    + rewrite (Nat2Z.inj_succ (S k)), Z.pow_succ_r in Hn by lia.
      destruct (IH (n / 16)) as (Hv & Ht & Hl).
      { split; [apply Z.div_pos; lia|apply Z.div_lt_upper_bound; lia]. }
      rewrite hex_value_snoc, Hv, Hd. split; [f_equal; lia|]. split.
      * apply Forall_app. split; [done|by repeat constructor].
      * rewrite length_app. simpl in *. lia.
Qed.

Lemma format_x_spec n :
  in_u64 n → hex_value 0 (format_x n) = Some n ∧ is_hex_text (format_x n)
             ∧ (0 < length (format_x n) ≤ 16)%nat.
Proof. intros Hn. apply (format_radix_hex 15). unfold in_u64, u64_max in Hn. simpl. lia. Qed.

Lemma parse_hex_u64_value digits :
  digits ≠ [] → (length digits ≤ 16)%nat → parse_hex_u64 digits = hex_value 0 digits.
Proof.
  intros Hne Hlen. unfold parse_hex_u64. rewrite bool_decide_eq_false_2 by done.
  rewrite (proj2 (Z.ltb_ge _ _)) by (unfold zlen; lia). by apply (parse_hex_value digits 0 0).
Qed.

Lemma parse_format_x n : in_u64 n → parse_hex_u64 (format_x n) = Some n.
Proof.
  intros Hn. destruct (format_x_spec n Hn) as (Hv & _ & Hl).
  rewrite parse_hex_u64_value; [done| |lia]. intros He. rewrite He in Hl. simpl in Hl. lia.
Qed.

Lemma format_x_length n : in_u64 n → 1 ≤ zlen (format_x n) ≤ 16.
Proof. intros Hn. destruct (format_x_spec n Hn) as (_ & _ & ?). unfold zlen. lia. Qed.

(** ** Separators *)

Lemma position_app b xs ys : b ∉ xs → position b (xs ++ b :: ys) = Some (length xs).
Proof.
  intros Hb. induction xs as [|x xs IH]; simpl; [by rewrite Z.eqb_refl|].
  apply not_elem_of_cons in Hb as [Hne Hb]. rewrite (proj2 (Z.eqb_neq _ _)) by done.
  by rewrite IH.
Qed.

Lemma position_none b xs : b ∉ xs → position b xs = None.
Proof.
  induction xs as [|x xs IH]; simpl; [done|]. intros [Hne Hb]%not_elem_of_cons.
  rewrite (proj2 (Z.eqb_neq _ _)) by done. by rewrite IH.
Qed.

Lemma split_at_first_app b xs ys : b ∉ xs → split_at_first b (xs ++ b :: ys) = Some (xs, ys).
Proof.
  intros Hb. unfold split_at_first. rewrite position_app by done. simpl.
  rewrite take_app_length. f_equal. f_equal.
  replace (S (length xs)) with (length xs + 1)%nat by lia. by rewrite drop_app_add.
Qed.

Lemma split_at_first_none b xs : b ∉ xs → split_at_first b xs = None.
Proof. intros Hb. unfold split_at_first. by rewrite position_none. Qed.

Lemma hex_text_not b l : from_hex_digit b = None → is_hex_text l → b ∉ l.
Proof.
  intros Hb Hl Hin. unfold is_hex_text in Hl. rewrite list.Forall_forall in Hl.
  destruct (Hl b Hin) as [d Hd]. congruence.
Qed.

Lemma format_x_not b n : from_hex_digit b = None → in_u64 n → b ∉ format_x n.
Proof. intros Hb Hn. apply hex_text_not; [done|]. by apply format_x_spec. Qed.

Lemma parse_addr_len_format a l :
  in_u64 a → in_u64 l → parse_addr_len (format_x a ++ str "," ++ format_x l) = Some (a, l).
Proof.
  intros Ha Hl. unfold parse_addr_len. change (str "," ++ format_x l) with (44 :: format_x l).
  rewrite split_at_first_app by (by apply format_x_not). by rewrite !parse_format_x.
Qed.

(** ** Hex bytes *)

Lemma hex_encode_text data : Forall is_byte data → is_hex_text (hex_encode data).
Proof.
  intros Hd. unfold hex_encode, is_hex_text. induction Hd as [|b data Hb Hd IH]; [constructor|].
  rewrite bind_cons. apply Forall_app. split; [|done]. rewrite hex_byte_eq by done.
  destruct (byte_nibbles b Hb) as (H1 & H2 & _).
  repeat constructor; rewrite from_hex_digit_hex by done; eauto.
Qed.

Lemma hex_decode_encode_exact data : Forall is_byte data → hex_decode (hex_encode data) = Some data.
Proof.
  intros Hd. unfold hex_decode. rewrite hex_encode_even, Z.mul_comm, Z_mod_mult.
  simpl. by apply hex_decode_encode.
Qed.

Lemma strip_prefix_app p l : strip_prefix p (p ++ l) = Some l.
Proof.
  unfold strip_prefix. rewrite take_app_length, bool_decide_eq_true_2 by done.
  by rewrite drop_app_length.
Qed.

(** Whatever parses is a [u64]. *)
Lemma parse_hex_u64_typed digits n : parse_hex_u64 digits = Some n → in_u64 n.
Proof.
  unfold parse_hex_u64. case_bool_decide; [done|]. simpl.
  destruct (Z.ltb_spec 16 (zlen digits)) as [|Hlen]; [done|]. unfold zlen in Hlen.
  destruct (parse_hex_value digits 0 0) as [-> Hb]; [lia|lia|]. intros Hn%Hb. unfold in_u64, u64_max.
  assert (16 ^ Z.of_nat (0 + length digits) ≤ 16 ^ 16) by (apply Z.pow_le_mono_r; lia).
  change (16 ^ 16) with (2 ^ 64) in *. lia.
Qed.

Lemma parse_addr_len_typed bytes addr len :
  parse_addr_len bytes = Some (addr, len) → in_u64 addr ∧ in_u64 len.
Proof.
  unfold parse_addr_len. destruct (split_at_first 44 bytes) as [[a l]|]; [|done].
  destruct (parse_hex_u64 a) as [x|] eqn:Hx; [|done]. destruct (parse_hex_u64 l) as [y|] eqn:Hy; [|done].
  intros [= <- <-]. split; by eapply parse_hex_u64_typed.
Qed.

Lemma hex_decode_typed data bytes : hex_decode data = Some bytes → Forall is_byte bytes.
Proof.
  unfold hex_decode. destruct (negb _); [done|]. revert data bytes.
  refine (fix IH data {struct data} := _). intros bytes.
  destruct data as [|a [|b data]]; cbn [hex_decode_loop]; [by intros [= <-]; constructor..|].
  destruct (from_hex_digit a) as [hi|] eqn:Ha; [|done]. destruct (from_hex_digit b) as [lo|] eqn:Hb; [|done].
  destruct (hex_decode_loop data) as [out|] eqn:Ho; [|done]. intros [= <-].
  apply from_hex_digit_range in Ha, Hb. constructor; [|by apply (IH data)].
  rewrite nibbles by done. unfold is_byte. lia.
Qed.
