(* ===== verification/GdbServerTheory.v ===== *)
(** Theorems about the remote protocol server of [GdbServer.v]: over any
    reliable channel its byte-level loops implement the protocol as a machine
    on packet events. *)

From S2P Require Import Prelude GdbPacket GdbPacketTheory GdbTransport GdbTarget GdbServer.
Import Rsp RspTransport RspTarget RspServer.
Open Scope Z_scope.

(** ** Traffic

    What a peer sends, cut into the pieces that each make a reader report one
    event. *)

Definition reads_as (max : Z) (bytes : list Z) (e : PacketEvent) : Prop :=
  ∀ r, limits max r → pr_state r = Idle → ∃ r', emits max r bytes e r'.

Abbreviation traffic := (list (list Z * PacketEvent)).

Definition traffic_ok (max : Z) (tr : traffic) : Prop := Forall (λ x, reads_as max x.1 x.2) tr.
Definition bytes_of (tr : traffic) : list Z := mjoin tr.*1.

Definition sent (x : message) : list Z * PacketEvent := (wire x, event x).

Lemma sent_ok max xs :
  0 ≤ max → max * 2 ≤ usize_max → Forall (payload_fits max) xs → traffic_ok max (sent <$> xs).
Proof.
  intros H0 Hmax Hxs. apply Forall_fmap, (list.Forall_impl _ _ _ Hxs). intros x Hx r Hl Hs.
  by apply message_emits.
Qed.

(** A damaged frame reads as a bad packet. *)
Lemma damaged_reads_as max body h l hi lo :
  0 ≤ max → Forall (.≠ HASH) body → from_hex_digit h = Some hi → from_hex_digit l = Some lo →
  16 * hi + lo ≠ checksum body →
  reads_as max (DOLLAR :: body ++ [HASH; h; l]) (Packet [] false).
Proof.
  intros H0 Hno Hh Hl Hne r Hlim Hs. eapply frame_emits; [done..|]. unfold verdict.
  by rewrite (proj2 (Z.eqb_neq _ _)).
Qed.

(** ** The protocol as a machine on events *)

Inductive mode : Type :=
  | Listening
  | Awaiting (packet : list Z) (left : nat) (serving : bool).

Section protocol.
Context {T : Type} `{RemoteTarget T}.

Abbreviation outcome := (result unit IoError * list Z * T)%type.

Definition emit (out : list Z) (x : outcome) : outcome := (x.1.1, out ++ x.1.2, x.2).

(** After the last event the channel is closed and the server is done. *)
Fixpoint protocol_run (lim : ProtocolLimits) (m : mode) (events : list PacketEvent) (t : T)
    : outcome :=
  match events with
  | [] => (Ok tt, [], t)
  | e :: events' =>
      match m, e with
      | Listening, Packet p true =>
          let answer reply serving t' :=
            if max_packet_payload lim <? zlen reply
            then (Err (io_error InvalidData "RSP reply exceeds configured packet limit"), [], t')
            else emit (encode_packet reply)
                   (protocol_run lim (Awaiting (encode_packet reply) (Z.to_nat MAX_RESENDS) serving)
                      events' t') in
          emit (str "+")
            (match dispatch p lim t with
             | (Ok (Reply reply), t') => answer reply true t'
             | (Ok (Detach reply), t') => answer reply false t'
             | (Ok Kill, t') => (Ok tt, [], t')
             | (Err x, _) => match x with end
             | (Panic msg, t') => (Panic msg, [], t')
             end)
      | Listening, Packet _ false => emit (str "-") (protocol_run lim m events' t)
      | Listening, _ => protocol_run lim m events' t
      | Awaiting packet (S left') serving, Nack =>
          emit packet (protocol_run lim (Awaiting packet left' serving) events' t)
      | Awaiting _ _ true, Ack | Awaiting _ O true, Nack => protocol_run lim Listening events' t
      | Awaiting _ _ false, Ack | Awaiting _ O false, Nack => (Ok tt, [], t)
      | Awaiting _ _ _, _ => protocol_run lim m events' t
      end
  end.
End protocol.

(** ** The loops on traffic *)

(** What [next_packet] takes from the traffic: its answers and the packet. *)
Fixpoint listen (tr : traffic) : list Z * option (list Z * traffic) :=
  match tr with
  | [] => ([], None)
  | (_, Packet p true) :: tr' => (str "+", Some (p, tr'))
  | (_, Packet _ false) :: tr' => let '(out, r) := listen tr' in (str "-" ++ out, r)
  | _ :: tr' => listen tr'
  end.

(** What [await_ack] takes. *)
Fixpoint hear_ack (tr : traffic) : option bool * traffic :=
  match tr with
  | [] => (None, [])
  | (_, Ack) :: tr' => (Some true, tr')
  | (_, Nack) :: tr' => (Some false, tr')
  | _ :: tr' => hear_ack tr'
  end.

(** What the resend loop sends and takes. *)
Fixpoint deliver (left : nat) (packet : list Z) (tr : traffic) : list Z * traffic :=
  match hear_ack tr, left with
  | (Some false, tr'), S left' => let '(out, tr'') := deliver left' packet tr' in (packet ++ out, tr'')
  | (_, tr'), _ => (packet, tr')
  end.

Lemma hear_ack_suffix tr : ∃ pre, tr = pre ++ (hear_ack tr).2.
Proof.
  induction tr as [|[b e] tr [pre IH]]; [by exists []|].
  assert (∃ pre', (b, e) :: tr = pre' ++ (hear_ack tr).2) as Hsk
    by (exists ((b, e) :: pre); simpl; by rewrite <-IH).
  destruct e; simpl; try done; [by exists [(b, Ack)]|by exists [(b, Nack)]].
Qed.

Lemma listen_suffix tr out p rest :
  listen tr = (out, Some (p, rest)) → ∃ pre x, tr = pre ++ x :: rest.
Proof.
  revert out. induction tr as [|[b e] tr IH]; intros out; [done|].
  assert (∀ out, listen tr = (out, Some (p, rest)) → ∃ pre x, (b, e) :: tr = pre ++ x :: rest) as Hsk.
  { intros out' Hl. destruct (IH out' Hl) as (pre & x & ->). by exists ((b, e) :: pre), x. }
  destruct e as [| | |q []]; simpl; try (by apply Hsk).
  - intros [= _ <- <-]. by exists [], (b, Packet q true).
  - destruct (listen tr) as [out' r] eqn:Hl. intros [= _ ->]. by eapply Hsk.
Qed.

Lemma deliver_suffix n packet tr : ∃ pre, tr = pre ++ (deliver n packet tr).2.
Proof.
  revert tr. induction n as [|n IH]; intros tr; simpl; destruct (hear_ack_suffix tr) as [pre Hpre];
    destruct (hear_ack tr) as [[[]|] tr'] eqn:He; simpl in *; try (by exists pre).
  destruct (IH tr') as [pre' Hpre']. destruct (deliver n packet tr') as [out tr'']. simpl in *.
  exists (pre ++ pre'). by rewrite <-(assoc_L (++)), <-Hpre'.
Qed.

Lemma traffic_suffix max pre tr : traffic_ok max (pre ++ tr) → traffic_ok max tr.
Proof. intros Hok. by apply Forall_app in Hok as [_ ?]. Qed.

Lemma bytes_of_app (xs ys : traffic) : bytes_of (xs ++ ys) = bytes_of xs ++ bytes_of ys.
Proof. unfold bytes_of. by rewrite fmap_app, join_app. Qed.

Lemma reads_as_nonempty max bytes e : reads_as max bytes e → bytes ≠ [].
Proof.
  intros Hr. destruct (Hr (with_max_payload max)) as [r' [(init & b & r1 & -> & _) _]]; [done..|].
  by destruct init.
Qed.

Section loops.
Context {Tr T : Type} `{Pipe Tr} `{RemoteTarget T}.

Implicit Types s : GdbStubServer Tr.

(** The server between two events. *)
Record at_rest (lim : ProtocolLimits) s (i o : list Z) : Prop := {
  ar_linked : linked (gs_transport s) i o;
  ar_limits : limits (max_packet_payload lim) (gs_reader s);
  ar_idle : pr_state (gs_reader s) = Idle;
  ar_lim : gs_limits s = lim
}.

Lemma send_bytes_run (t : Tr) data i o :
  linked t i o → ∃ t', send_bytes data t = (Ok tt, t') ∧ linked t' i (o ++ data).
Proof.
  intros Hl. destruct (pipe_write data t i o Hl) as (t1 & Hw & Hl1).
  destruct (pipe_flush t1 _ _ Hl1) as (t2 & Hf & Hl2).
  exists t2. unfold send_bytes, sbind. by rewrite Hw.
Qed.

Lemma on_send_run lim s data i o :
  at_rest lim s i o →
  ∃ s', on_transport (send_bytes data) s = (Ok tt, s') ∧ at_rest lim s' i (o ++ data).
Proof.
  intros [Hl Hr Hi Hlim]. destruct (send_bytes_run _ data _ _ Hl) as (t' & Hw & Hl').
  unfold on_transport. rewrite Hw. eexists. split; [reflexivity|by split].
Qed.

(** A loop that reads a byte, pushes it and looks at the event. *)
Definition event_loop {A} (loop : nat → smonad (GdbStubServer Tr) IoError A)
    (done : smonad (GdbStubServer Tr) IoError A)
    (k : nat → option PacketEvent → smonad (GdbStubServer Tr) IoError A) : Prop :=
  (∀ f, k f None = loop f)
  ∧ ∀ f, loop (S f) = (let! byte := read_or_eof in
                       match byte with
                       | None => done
                       | Some byte => let! event := push_byte byte in k f event
                       end).

Section event_loop.
Context {A : Type} (loop : nat → smonad (GdbStubServer Tr) IoError A).
Context (stop : smonad (GdbStubServer Tr) IoError A).
Context (k : nat → option PacketEvent → smonad (GdbStubServer Tr) IoError A).
Context (Hloop : event_loop loop stop k).

Lemma byte_run s b i o e r' fuel :
  linked (gs_transport s) (b :: i) o → push b (gs_reader s) = (e, r') →
  ∃ t', linked t' i o ∧ loop (S fuel) s = k fuel e (mkGdbStubServer t' r' (gs_limits s)).
Proof.
  intros Hl Hp. destruct (pipe_read _ _ _ _ Hl) as (t' & Hr & Hl').
  exists t'. split; [done|]. rewrite (proj2 Hloop). unfold sbind, read_or_eof, on_transport, push_byte.
  rewrite Hr. simpl. by rewrite Hp.
Qed.

Lemma quiet_run init s i o r1 fuel :
  linked (gs_transport s) (init ++ i) o → drain init (gs_reader s) = ([], r1) →
  ∃ t', linked t' i o ∧ loop (length init + fuel) s = loop fuel (mkGdbStubServer t' r1 (gs_limits s)).
Proof.
  revert s. induction init as [|b init IH]; intros s Hl Hd; simpl in *.
  { simplify_eq. exists (gs_transport s). split; [done|by destruct s]. }
  destruct (push b (gs_reader s)) as [e r'] eqn:Hp. destruct (drain init r') as [es r''] eqn:Hd'.
  destruct e as [e|]; simplify_eq/=.
  destruct (byte_run s b (init ++ i) o None r' (length init + fuel)) as (t' & Hl' & ->); [done..|].
  rewrite (proj1 Hloop). by apply (IH (mkGdbStubServer t' r' (gs_limits s))).
Qed.

Lemma event_run lim s bytes e i o fuel :
  at_rest lim s (bytes ++ i) o → reads_as (max_packet_payload lim) bytes e →
  ∃ s', at_rest lim s' i o ∧ loop (length bytes + fuel) s = k fuel (Some e) s'.
Proof.
  intros [Hl Hr Hi Hlim] He.
  destruct (He (gs_reader s) Hr Hi) as [r' [(init & b & r1 & -> & Hd & Hp) [Hr' Hi']]].
  rewrite <-(assoc_L (++)) in Hl. simpl in Hl.
  destruct (quiet_run init s (b :: i) o r1 (S fuel)) as (t1 & Hl1 & Hq); [done..|].
  destruct (byte_run (mkGdbStubServer t1 r1 (gs_limits s)) b i o (Some e) r' fuel)
    as (t2 & Hl2 & Hb); [done..|].
  eexists. split; [|rewrite length_app; simpl; rewrite <-Nat.add_assoc; simpl; by rewrite Hq, Hb].
  by split.
Qed.

Lemma close_run lim s o fuel :
  at_rest lim s [] o → (0 < fuel)%nat → ∃ s', at_rest lim s' [] o ∧ loop fuel s = stop s'.
Proof.
  intros [Hl Hr Hi Hlim] Hf. destruct (pipe_eof _ _ Hl) as (e & t' & Hread & Hk & Hl').
  destruct fuel as [|fuel]; [lia|]. exists (mkGdbStubServer t' (gs_reader s) (gs_limits s)).
  split; [by split|]. rewrite (proj2 Hloop). unfold sbind, read_or_eof, on_transport.
  by rewrite Hread, bool_decide_eq_true_2.
Qed.
End event_loop.

Lemma next_packet_loop :
  event_loop next_packet (sret None)
    (λ f e, match e with
            | Some (Packet payload true) =>
                do! on_transport (send_bytes (str "+")) in sret (Some payload)
            | Some (Packet _ false) =>
                do! on_transport (send_bytes (str "-")) in next_packet f
            | _ => next_packet f
            end).
Proof. done. Qed.

Lemma await_ack_loop :
  event_loop await_ack (sret None)
    (λ f e, match e with
            | Some Ack => sret (Some true)
            | Some Nack => sret (Some false)
            | _ => await_ack f
            end).
Proof. done. Qed.

Lemma bytes_of_cons x (tr : traffic) : bytes_of (x :: tr) = x.1 ++ bytes_of tr.
Proof. done. Qed.

Lemma next_packet_run lim tr s o fuel :
  traffic_ok (max_packet_payload lim) tr → at_rest lim s (bytes_of tr) o →
  (length (bytes_of tr) < fuel)%nat →
  ∃ s', next_packet fuel s = (Ok (fst <$> (listen tr).2), s')
        ∧ at_rest lim s' (bytes_of (from_option snd [] (listen tr).2)) (o ++ (listen tr).1).
Proof.
  intros Hok. revert s o fuel. induction Hok as [|[bytes e] tr Hx Hok IH]; intros s o fuel Hs Hf.
  { destruct (close_run _ _ _ next_packet_loop lim s o fuel) as (s' & Hs' & ->); [done..|].
    exists s'. simpl. by rewrite app_nil_r. }
  rewrite bytes_of_cons in *. rewrite length_app in Hf. simpl in Hf, Hx.
  replace fuel with (length bytes + (fuel - length bytes))%nat by lia.
  destruct (event_run _ _ _ next_packet_loop lim s bytes e (bytes_of tr) o (fuel - length bytes))
    as (s1 & Hs1 & ->); [done..|].
  destruct e as [| | |p []]; simpl; try (apply IH; [done|lia]).
  - destruct (on_send_run lim s1 (str "+") _ _ Hs1) as (s2 & Hw & Hs2).
    exists s2. unfold sbind. by rewrite Hw.
  - destruct (on_send_run lim s1 (str "-") _ _ Hs1) as (s2 & Hw & Hs2).
    destruct (IH s2 (o ++ str "-") (fuel - length bytes)%nat) as (s3 & Hn & Hs3); [done|lia|].
    exists s3. unfold sbind. rewrite Hw, Hn. destruct (listen tr). simpl in *.
    by rewrite <-(assoc_L (++)) in Hs3.
Qed.

Lemma await_ack_run lim tr s o fuel :
  traffic_ok (max_packet_payload lim) tr → at_rest lim s (bytes_of tr) o →
  (length (bytes_of tr) < fuel)%nat →
  ∃ s', await_ack fuel s = (Ok (hear_ack tr).1, s') ∧ at_rest lim s' (bytes_of (hear_ack tr).2) o.
Proof.
  intros Hok. revert s fuel. induction Hok as [|[bytes e] tr Hx Hok IH]; intros s fuel Hs Hf.
  { destruct (close_run _ _ _ await_ack_loop lim s o fuel) as (s' & Hs' & ->); [done..|].
    by exists s'. }
  rewrite bytes_of_cons in *. rewrite length_app in Hf. simpl in Hf, Hx.
  replace fuel with (length bytes + (fuel - length bytes))%nat by lia.
  destruct (event_run _ _ _ await_ack_loop lim s bytes e (bytes_of tr) o (fuel - length bytes))
    as (s1 & Hs1 & ->); [done..|].
  destruct e as [| | |p ok]; simpl; try (apply IH; [done|lia]); by exists s1.
Qed.

Lemma send_loop_run lim tr s o fuel n packet :
  traffic_ok (max_packet_payload lim) tr → at_rest lim s (bytes_of tr) o →
  (length (bytes_of tr) < fuel)%nat →
  ∃ s', send_loop fuel n packet s = (Ok tt, s')
        ∧ at_rest lim s' (bytes_of (deliver n packet tr).2) (o ++ (deliver n packet tr).1).
Proof.
  revert tr s o. induction n as [|n IH]; intros tr s o Hok Hs Hf; simpl.
  all: destruct (on_send_run lim s packet _ _ Hs) as (s1 & Hw & Hs1).
  all: destruct (await_ack_run lim tr s1 _ fuel Hok Hs1 Hf) as (s2 & Ha & Hs2).
  all: pose proof (hear_ack_suffix tr) as [pre Hpre].
  all: unfold sbind; rewrite Hw, Ha; destruct (hear_ack tr) as [[[]|] tr'] eqn:He; simpl in *;
    try (by exists s2).
  destruct (IH tr' s2 (o ++ packet)) as (s3 & Hr & Hs3); [|done| |].
  { rewrite Hpre in Hok. by eapply traffic_suffix. }
  { rewrite Hpre, bytes_of_app, length_app in Hf. lia. }
  exists s3. destruct (deliver n packet tr') as [out tr'']. simpl in *.
  by rewrite <-(assoc_L (++)) in Hs3.
Qed.

(** What the protocol does once a packet was received. *)
Definition after_packet (lim : ProtocolLimits) (p : list Z) (events : list PacketEvent) (t : T)
    : result unit IoError * list Z * T :=
  let answer reply serving t' :=
    if max_packet_payload lim <? zlen reply
    then (Err (io_error InvalidData "RSP reply exceeds configured packet limit"), [], t')
    else emit (encode_packet reply)
           (protocol_run lim (Awaiting (encode_packet reply) (Z.to_nat MAX_RESENDS) serving)
              events t') in
  match dispatch p lim t with
  | (Ok (Reply reply), t') => answer reply true t'
  | (Ok (Detach reply), t') => answer reply false t'
  | (Ok Kill, t') => (Ok tt, [], t')
  | (Err x, _) => match x with end
  | (Panic msg, t') => (Panic msg, [], t')
  end.

Lemma emit_nil (x : result unit IoError * list Z * T) : emit [] x = x.
Proof. by destruct x as [[]]. Qed.

Lemma emit_emit xs ys (x : result unit IoError * list Z * T) :
  emit xs (emit ys x) = emit (xs ++ ys) x.
Proof. unfold emit. simpl. by rewrite (assoc_L (++)). Qed.

Lemma listen_protocol lim (tr : traffic) (t : T) :
  protocol_run lim Listening tr.*2 t
  = match (listen tr).2 with
    | None => (Ok tt, (listen tr).1, t)
    | Some (p, rest) => emit (listen tr).1 (after_packet lim p rest.*2 t)
    end.
Proof.
  induction tr as [|[b e] tr IH]; [done|]. rewrite fmap_cons.
  destruct e as [| | |p []]; cbn [protocol_run listen snd fst]; try done.
  rewrite IH. destruct (listen tr) as [out [[q rest]|]]; simpl; [by rewrite emit_emit|done].
Qed.

Lemma hear_protocol lim packet n serving (tr : traffic) (t : T) :
  protocol_run lim (Awaiting packet n serving) tr.*2 t
  = let continue tr' := if serving : bool then protocol_run lim Listening tr'.*2 t else (Ok tt, [], t) in
    match hear_ack tr with
    | (Some false, tr') =>
        match n with
        | S n' => emit packet (protocol_run lim (Awaiting packet n' serving) tr'.*2 t)
        | O => continue tr'
        end
    | (_, tr') => continue tr'
    end.
Proof.
  induction tr as [|[b e] tr IH]; [by destruct serving|]. rewrite fmap_cons.
  destruct e as [| | |p ok]; cbn [protocol_run hear_ack snd]; try done; by destruct serving, n.
Qed.

Lemma deliver_protocol lim packet n serving (tr : traffic) (t : T) :
  emit packet (protocol_run lim (Awaiting packet n serving) tr.*2 t)
  = emit (deliver n packet tr).1
      (if serving : bool then protocol_run lim Listening (deliver n packet tr).2.*2 t
       else (Ok tt, [], t)).
Proof.
  revert tr. induction n as [|n IH]; intros tr; rewrite hear_protocol; simpl;
    destruct (hear_ack tr) as [[[]|] tr'] eqn:He; simpl; try done.
  rewrite IH. destruct (deliver n packet tr') as [out tr'']. simpl. by rewrite emit_emit.
Qed.

(** The run of the server ended as the machine says. *)
Definition serves_as (x : result unit IoError * list Z * T) (o : list Z)
    (w : result unit IoError * (GdbStubServer Tr * T)) : Prop :=
  w.1 = x.1.1 ∧ w.2.2 = x.2 ∧ ∃ i', linked (gs_transport w.2.1) i' (o ++ x.1.2).

Lemma serves_emit out x o w : serves_as x (o ++ out) w → serves_as (emit out x) o w.
Proof. intros (Hr & Ht & i' & Hl). split_and!; [done..|]. exists i'. simpl. by rewrite (assoc_L (++)). Qed.

Lemma send_packet_run lim tr s o fuel reply :
  traffic_ok (max_packet_payload lim) tr → at_rest lim s (bytes_of tr) o →
  (length (bytes_of tr) < fuel)%nat → zlen reply ≤ max_packet_payload lim →
  let d := deliver (Z.to_nat MAX_RESENDS) (encode_packet reply) tr in
  ∃ s', send_packet fuel reply s = (Ok tt, s') ∧ at_rest lim s' (bytes_of d.2) (o ++ d.1).
Proof.
  intros Hok Hs Hf Hr d. unfold send_packet, sbind, sread. rewrite (ar_lim _ _ _ _ Hs).
  rewrite (proj2 (Z.ltb_ge _ _)) by done. cbn [fail_if]. by apply send_loop_run.
Qed.

Lemma bind_ret_unit {S E} (c : smonad S E unit) (x : S) : (do! c in sret tt) x = c x.
Proof. unfold sbind. by destruct (c x) as [[[]| |] x']. Qed.

Lemma answer_run lim tr s t o fuel reply serving (k : nat → smonad (GdbStubServer Tr * T) IoError unit) :
  traffic_ok (max_packet_payload lim) tr → at_rest lim s (bytes_of tr) o →
  (length (bytes_of tr) < fuel)%nat →
  (∀ s' tr' o', traffic_ok (max_packet_payload lim) tr' → at_rest lim s' (bytes_of tr') o' →
     (length (bytes_of tr') ≤ length (bytes_of tr))%nat →
     serves_as (if serving : bool then protocol_run lim Listening tr'.*2 t else (Ok tt, [], t)) o'
       (k fuel (s', t))) →
  serves_as
    (if max_packet_payload lim <? zlen reply
     then (Err (io_error InvalidData "RSP reply exceeds configured packet limit"), [], t)
     else emit (encode_packet reply)
            (protocol_run lim (Awaiting (encode_packet reply) (Z.to_nat MAX_RESENDS) serving) tr.*2 t))
    o ((do! on_server (send_packet fuel reply) in k fuel) (s, t)).
Proof.
  intros Hok Hs Hf Hk. unfold sbind, on_server. simpl. destruct (Z.ltb_spec (max_packet_payload lim) (zlen reply)).
  - unfold send_packet, sbind, sread. rewrite (ar_lim _ _ _ _ Hs), (proj2 (Z.ltb_lt _ _)) by done.
    split_and!; [done..|]. exists (bytes_of tr). simpl. rewrite app_nil_r. apply Hs.
  - destruct (send_packet_run lim tr s o fuel reply) as (s' & -> & Hs'); [done..|].
    rewrite deliver_protocol. apply serves_emit.
    destruct (deliver_suffix (Z.to_nat MAX_RESENDS) (encode_packet reply) tr) as [pre Hpre].
    apply Hk; [|done|].
    + rewrite Hpre in Hok. by eapply traffic_suffix.
    + rewrite Hpre at 2. rewrite bytes_of_app, length_app. lia.
Qed.

Lemma serve_run lim fuel tr s t o :
  traffic_ok (max_packet_payload lim) tr → at_rest lim s (bytes_of tr) o →
  (length (bytes_of tr) < fuel)%nat →
  serves_as (protocol_run lim Listening tr.*2 t) o (serve fuel (s, t)).
Proof.
  revert tr s t o. induction fuel as [|fuel IH]; intros tr s t o Hok Hs Hf; [lia|].
  rewrite listen_protocol. cbn [serve]. unfold sbind at 1, on_server at 1. cbn [fst snd].
  destruct (next_packet_run lim tr s o (S fuel) Hok Hs Hf) as (s1 & -> & Hs1).
  destruct (listen tr) as [out [[p rest]|]] eqn:Hli; simpl in *.
  2: { split_and!; [done..|]. exists []. apply Hs1. }
  apply serves_emit. destruct (listen_suffix _ _ _ _ Hli) as (pre & [b e] & Htr).
  assert (traffic_ok (max_packet_payload lim) rest ∧ (length (bytes_of rest) < fuel)%nat) as [Hok' Hf'].
  { rewrite Htr in Hok, Hf. apply traffic_suffix, Forall_cons_iff in Hok as [Hx Hok].
    apply reads_as_nonempty in Hx. split; [done|].
    rewrite bytes_of_app, bytes_of_cons, !length_app in Hf. simpl in *. destruct b; simpl in *; [done|lia]. }
  unfold sbind at 1, sget at 1. cbn [fst snd]. rewrite (ar_lim _ _ _ _ Hs1).
  unfold sbind at 1, on_target at 1. cbn [fst snd]. unfold after_packet.
  destruct (dispatch p lim t) as [[[reply|reply|]|[]|msg] t'].
  - apply (answer_run lim rest s1 t' _ (S fuel) reply true (λ _, serve fuel)); [done|done|lia|].
    intros s' tr' o' Hok1 Hs' Hlen. apply IH; [done|done|lia].
  - rewrite <-(bind_ret_unit (on_server (send_packet (S fuel) reply))).
    apply (answer_run lim rest s1 t' _ (S fuel) reply false (λ _, sret tt)); [done|done|lia|].
    intros s' tr' o' _ Hs' _. split_and!; [done..|]. exists (bytes_of tr'). simpl.
    rewrite app_nil_r. apply Hs'.
  - split_and!; [done..|]. eexists. simpl. rewrite app_nil_r. apply Hs1.
  - split_and!; [done..|]. eexists. simpl. rewrite app_nil_r. apply Hs1.
Qed.
End loops.

(** C22: the byte-level server implements the protocol.  Over any reliable
    channel, on any traffic of well-formed, damaged and stray pieces, the server
    ends (with enough fuel: more than the bytes it is sent), it does to the
    target exactly what the protocol machine does on the events of that
    traffic, and it writes exactly the machine's bytes: an acknowledgement and
    the reply of the dispatcher for each packet, a resend for each of at most
    eight rejections, and a rejection for each damaged frame. *)
Theorem server_refines_protocol {Tr T : Type} `{Pipe Tr} `{RemoteTarget T} (lim : ProtocolLimits)
    (tr : traffic) (transport : Tr) (target : T) (written : list Z) (fuel : nat) :
  traffic_ok (max_packet_payload lim) tr → linked transport (bytes_of tr) written →
  (length (bytes_of tr) < fuel)%nat →
  let x := protocol_run lim Listening tr.*2 target in
  let w := serve_one_with_limits fuel target transport lim in
  w.1 = x.1.1 ∧ w.2.2 = x.2 ∧ ∃ i, linked (gs_transport w.2.1) i (written ++ x.1.2).
Proof.
  intros Hok Hl Hf. apply (serve_run lim fuel tr); [done| |done]. by split.
Qed.
