(* ===== verification/GdbClient.v ===== *)
(** The remote serial protocol client of [resymbol-gdb-remote/src/client.rs]:
    requests and replies with their acknowledgements under one deadline per
    operation, and the typed operations over them.  The XML reader that parses
    a fetched target description is a parameter. *)

From S2P Require Import Prelude Utf8 Identity GdbPacket GdbTransport GdbTarget GdbServer.
Import Rsp RspTransport RspServer.
Open Scope Z_scope.

Module RspClient.

(** ** Reading replies *)

Definition is_error_reply (reply : list Z) : bool :=
  match reply with
  | [a; b; c] => (a =? 69) && is_ascii_hexdigit b && is_ascii_hexdigit c
  | _ => false
  end.

Definition stub_error (reply : list Z) : IoError := mkIoError Other "remote stub error: {}" reply.

Definition decode_hex_reply (reply : list Z) : result (list Z) IoError :=
  do? fail_if (is_error_reply reply) (stub_error reply) in
  ok_or (hex_decode reply) (io_error InvalidData "reply was not valid hex").

Definition decode_register_reply (reply : list Z) : result (list Z) IoError :=
  let? registers := decode_hex_reply reply in
  if bool_decide (registers = [])
  then Err (io_error RspTransport.Unsupported "remote stub did not support the g register packet")
  else Ok registers.

Definition validate_supported_reply (reply : list Z) : result (list Z) IoError :=
  if is_error_reply reply then Err (stub_error reply) else Ok reply.

Definition expect_ok (reply : list Z) : result unit IoError :=
  if bool_decide (reply = str "OK") then Ok tt
  else if is_error_reply reply then Err (stub_error reply)
  else Err (mkIoError InvalidData "expected OK, got {}" reply).

(** The first two bytes as a hex byte. *)
Definition parse_two_hex (bytes : list Z) : option Z :=
  if zlen bytes <? 2 then None else hex_decode (take 2 bytes) ≫= head.

Definition parse_stop_reply (reply : list Z) : result RspTarget.StopReply IoError :=
  match reply with
  | [] => Err (io_error InvalidData "empty stop reply")
  | tag :: rest =>
      let? code := ok_or (parse_two_hex rest)
                     (io_error InvalidData "stop reply missing signal byte") in
      if (tag =? 83) || (tag =? 84) then Ok (RspTarget.Signal code)
      else if tag =? 87 then Ok (RspTarget.Exited code)
      else if tag =? 88 then Ok (RspTarget.Terminated code)
      else Err (mkIoError InvalidData "unexpected stop reply tag {}" [tag])
  end.

(** ** The client *)

(** [Instant::now], and [Instant::checked_add], which may not represent the
    sum. *)
Class Clock (Tr : Type) : Type := {
  instant_now : Tr → Z * Tr;
  instant_add : Z → Z → option Z
}.

Record GdbRemoteClient (Tr : Type) : Type := mkGdbRemoteClient {
  gc_transport : Tr;
  gc_reader : PacketReader;
  gc_limits : ProtocolLimits;
  gc_operation_timeout : Z
}.
Arguments mkGdbRemoteClient {Tr}.
Arguments gc_transport {Tr}.
Arguments gc_reader {Tr}.
Arguments gc_limits {Tr}.
Arguments gc_operation_timeout {Tr}.

(** Thirty seconds, in nanoseconds. *)
Definition DEFAULT_OPERATION_TIMEOUT : Z := 30 * 10 ^ 9.

Definition client_with_limits {Tr} (transport : Tr) (limits : ProtocolLimits)
    : GdbRemoteClient Tr :=
  mkGdbRemoteClient transport (with_max_payload (max_packet_payload limits)) limits
    DEFAULT_OPERATION_TIMEOUT.

Definition GdbRemoteClient_new {Tr} (transport : Tr) : GdbRemoteClient Tr :=
  client_with_limits transport ProtocolLimits_default.

Definition with_operation_timeout {Tr} (timeout : Z) (c : GdbRemoteClient Tr)
    : GdbRemoteClient Tr :=
  mkGdbRemoteClient (gc_transport c) (gc_reader c) (gc_limits c) timeout.

Section client.
Context {Tr : Type} `{Transport Tr} `{Clock Tr}.

Abbreviation client_op A := (smonad (GdbRemoteClient Tr) IoError A).

Definition client_on_transport {A} (c : io_op Tr A) : client_op A :=
  λ s, let (r, t) := c (gc_transport s) in
       (r, mkGdbRemoteClient t (gc_reader s) (gc_limits s) (gc_operation_timeout s)).

Definition client_push (byte : Z) : client_op (option PacketEvent) :=
  λ s, let (event, reader) := push byte (gc_reader s) in
       (Ok event, mkGdbRemoteClient (gc_transport s) reader (gc_limits s)
                    (gc_operation_timeout s)).

Definition now : client_op Z := client_on_transport (λ t, let (n, t') := instant_now t in (Ok n, t')).

Definition operation_timed_out : IoError := io_error TimedOut "RSP operation deadline reached".

Definition ensure_before (deadline : Z) : client_op unit :=
  let! n := now in
  slift (fail_if (deadline <=? n) operation_timed_out).

Definition new_deadline : client_op Z :=
  let! n := now in
  let! timeout := sget gc_operation_timeout in
  slift (ok_or (instant_add n timeout) (io_error InvalidInput "operation deadline overflow")).

(** [checked_duration_since] with the empty duration filtered out. *)
Definition prepare_io (deadline : Z) : client_op unit :=
  let! n := now in
  do! slift (fail_if (deadline <=? n) operation_timed_out) in
  client_on_transport (set_io_timeout (Some (deadline - n))).

Definition finish_deadlined {A} (c : client_op A) : client_op A :=
  λ s, match c s with
       | (Panic msg, s') => (Panic msg, s')
       | (r, s') =>
           let (clear, s'') := client_on_transport (set_io_timeout None) s' in
           match r, clear with
           | Err e, Panic msg => (Panic msg, s'')
           | Err e, _ => (Err e, s'')
           | Ok a, Err e => (Err e, s'')
           | Ok a, Ok _ => (Ok a, s'')
           | Ok a, Panic msg => (Panic msg, s'')
           | Panic msg, _ => (Panic msg, s'')
           end
       end.

(** Write and flush under the deadline. *)
Definition send_until (data : list Z) (deadline : Z) : client_op unit :=
  do! prepare_io deadline in
  do! client_on_transport (send_bytes data) in
  ensure_before deadline.

Definition read_until (deadline : Z) : client_op Z :=
  do! prepare_io deadline in
  let! byte := client_on_transport read_byte in
  do! ensure_before deadline in
  sret byte.

Fixpoint await_ack_until (fuel : nat) (deadline : Z) : client_op bool :=
  match fuel with
  | O => out_of_fuel
  | S fuel' =>
      let! byte := read_until deadline in
      let! event := client_push byte in
      match event with
      | Some Ack => sret true
      | Some Nack => sret false
      | _ => await_ack_until fuel' deadline
      end
  end.

Fixpoint client_send_loop (fuel left : nat) (packet : list Z) (deadline : Z) : client_op unit :=
  do! send_until packet deadline in
  let! ack := await_ack_until fuel deadline in
  if (ack : bool) then sret tt
  else match left with
       | S left' => client_send_loop fuel left' packet deadline
       | O => serr (io_error InvalidData "peer rejected packet after maximum resends")
       end.

Definition send_packet_inner (fuel : nat) (payload : list Z) (deadline : Z) : client_op unit :=
  do! sread (λ s, fail_if (max_packet_payload (gc_limits s) <? zlen payload)
                    (io_error InvalidInput "RSP request exceeds configured packet limit")) in
  client_send_loop fuel (Z.to_nat MAX_RESENDS) (encode_packet payload) deadline.

Definition send_packet_until (fuel : nat) (payload : list Z) (deadline : Z) : client_op unit :=
  finish_deadlined (send_packet_inner fuel payload deadline).

Definition client_send_packet (fuel : nat) (payload : list Z) : client_op unit :=
  let! deadline := new_deadline in
  send_packet_until fuel payload deadline.

Fixpoint recv_packet_inner (fuel : nat) (deadline : Z) : client_op (list Z) :=
  match fuel with
  | O => out_of_fuel
  | S fuel' =>
      let! byte := read_until deadline in
      let! event := client_push byte in
      match event with
      | Some (Packet payload true) =>
          do! send_until (str "+") deadline in
          sret payload
      | Some (Packet _ false) =>
          do! send_until (str "-") deadline in
          recv_packet_inner fuel' deadline
      | _ => recv_packet_inner fuel' deadline
      end
  end.

Definition recv_packet_until (fuel : nat) (deadline : Z) : client_op (list Z) :=
  finish_deadlined (recv_packet_inner fuel deadline).

Definition recv_packet (fuel : nat) : client_op (list Z) :=
  let! deadline := new_deadline in
  recv_packet_until fuel deadline.

Definition transact_until (fuel : nat) (payload : list Z) (deadline : Z) : client_op (list Z) :=
  finish_deadlined
    (do! send_packet_inner fuel payload deadline in recv_packet_inner fuel deadline).

Definition transact (fuel : nat) (payload : list Z) : client_op (list Z) :=
  let! deadline := new_deadline in
  transact_until fuel payload deadline.

(** ** Typed operations *)

Definition client_read_registers (fuel : nat) : client_op (list Z) :=
  let! reply := transact fuel (str "g") in
  slift (decode_register_reply reply).

Definition client_write_registers (fuel : nat) (raw : list Z) : client_op unit :=
  do! sread (λ s, fail_if
        (match checked_mul usize_max (zlen raw) 2 ≫= λ n, checked_add usize_max n 1 with
         | Some encoded => max_packet_payload (gc_limits s) <? encoded
         | None => true
         end) (io_error InvalidInput "register packet exceeds configured packet limit")) in
  let! reply := transact fuel (str "G" ++ hex_encode raw) in
  slift (expect_ok reply).

Definition client_read_memory (fuel : nat) (addr len : Z) : client_op (list Z) :=
  do! sread (λ s, fail_if ((max_memory_transfer (gc_limits s) <? len)
                           || (Z.max 0 (max_packet_payload (gc_limits s) - 1) / 2 <? len))
                    (io_error InvalidInput "memory read exceeds configured transfer limit")) in
  let! reply := transact fuel (str "m" ++ format_x addr ++ str "," ++ format_x len) in
  let! bytes := slift (decode_hex_reply reply) in
  do! slift (fail_if (negb (zlen bytes =? len))
               (io_error InvalidData "remote returned a partial or oversized memory read")) in
  sret bytes.

Definition client_write_memory (fuel : nat) (addr : Z) (data : list Z) : client_op unit :=
  do! sread (λ s, fail_if (max_memory_transfer (gc_limits s) <? zlen data)
                    (io_error InvalidInput "memory write exceeds configured transfer limit")) in
  let request := str "M" ++ format_x addr ++ str "," ++ format_x (zlen data) ++ str ":"
                 ++ hex_encode data in
  do! sread (λ s, fail_if (max_packet_payload (gc_limits s) <? zlen request)
                    (io_error InvalidInput
                       "encoded memory write exceeds configured packet limit")) in
  let! reply := transact fuel request in
  slift (expect_ok reply).

Definition client_cont (fuel : nat) : client_op RspTarget.StopReply :=
  let! reply := transact fuel (str "c") in
  slift (parse_stop_reply reply).

Definition client_step (fuel : nat) : client_op RspTarget.StopReply :=
  let! reply := transact fuel (str "s") in
  slift (parse_stop_reply reply).

Definition set_breakpoint_with_kind (fuel : nat) (addr kind : Z) : client_op unit :=
  let! reply := transact fuel (str "Z0," ++ format_x addr ++ str "," ++ format_x kind) in
  slift (expect_ok reply).

Definition set_breakpoint (fuel : nat) (addr : Z) : client_op unit :=
  set_breakpoint_with_kind fuel addr 1.

Definition remove_breakpoint_with_kind (fuel : nat) (addr kind : Z) : client_op unit :=
  let! reply := transact fuel (str "z0," ++ format_x addr ++ str "," ++ format_x kind) in
  slift (expect_ok reply).

Definition remove_breakpoint (fuel : nat) (addr : Z) : client_op unit :=
  remove_breakpoint_with_kind fuel addr 1.

Definition query_supported (fuel : nat) : client_op (list Z) :=
  let! reply := transact fuel (str "qSupported:multiprocess+;swbreak+;qXfer:features:read+") in
  slift (validate_supported_reply reply).

(** One chunk of the target description: the marker and the bytes. *)
Definition read_chunk (reply : list Z) (chunk_size : Z) : result (bool * list Z) IoError :=
  do? fail_if (is_error_reply reply) (stub_error reply) in
  match reply with
  | [] => Err (io_error InvalidData "empty qXfer reply after target description began")
  | marker :: chunk =>
      do? fail_if (negb ((marker =? 109) || (marker =? 108)) || (chunk_size <? zlen chunk))
            (io_error InvalidData "malformed or oversized qXfer target-description chunk") in
      do? fail_if ((marker =? 109) && bool_decide (chunk = []))
            (io_error InvalidData "non-final qXfer target-description chunk was empty") in
      Ok (marker =? 108, chunk)
  end.

Definition description_request (offset chunk_size : Z) : list Z :=
  str "qXfer:features:read:target.xml:" ++ format_x offset ++ str "," ++ format_x chunk_size.

(** The chunk loop; each chunk but the last is not empty, so the aggregate
    limit bounds it. *)
Fixpoint fetch_chunks (fuel chunks : nat) (chunk_size deadline offset : Z) (xml : list Z)
    : client_op (option (list Z)) :=
  match chunks with
  | O => out_of_fuel
  | S chunks' =>
      let! reply := transact_until fuel (description_request offset chunk_size) deadline in
      if bool_decide (reply = []) && (offset =? 0) then sret None
      else
        let! chunk := slift (read_chunk reply chunk_size) in
        let! new_len := slift (ok_or (checked_add usize_max (zlen xml) (zlen chunk.2))
                                 (io_error InvalidData "target description size overflow")) in
        do! sread (λ s, fail_if (max_target_description (gc_limits s) <? new_len)
                          (io_error InvalidData
                             "target description exceeds configured aggregate limit")) in
        let xml := xml ++ chunk.2 in
        if (chunk.1 : bool) then sret (Some xml)
        else fetch_chunks fuel chunks' chunk_size deadline new_len xml
  end.

(** [RemoteTargetDescription::parse], over a third-party XML reader. *)
Context {D : Type} (parse_target_description : list Z → result D IoError).

Definition read_target_description (fuel chunks : nat) : client_op (option D) :=
  let! deadline := new_deadline in
  let! limits := sget gc_limits in
  let chunk_size := Z.min (Z.max 0 (max_packet_payload limits - 1)) 2048 in
  do! slift (fail_if (chunk_size =? 0)
               (io_error InvalidInput "packet limit leaves no room for qXfer data")) in
  let! xml := fetch_chunks fuel chunks chunk_size deadline 0 [] in
  match xml with
  | None => sret None
  | Some xml =>
      do! slift (fail_if (negb (valid_utf8 xml))
                   (io_error InvalidData "target description was not valid UTF-8")) in
      let! description := slift (parse_target_description xml) in
      sret (Some description)
  end.
End client.

End RspClient.
