(* ===== verification/GdbClientTheory.v ===== *)
(** Theorems about the remote protocol client of [GdbClient.v]: one request and
    its reply over a reliable channel whose clock stays within the operation's
    deadline. *)

From S2P Require Import Prelude GdbPacket GdbPacketTheory GdbTransport GdbTarget GdbServer.
From S2P Require Import GdbServerTheory GdbClient.
Import Rsp RspTransport RspServer RspClient.
Open Scope Z_scope.

(** A channel to a peer that answers: [respond bytes] is all that the peer has sent once
    it was sent [bytes].  [joined t i o]: the bytes [o] were written to [t], and of the
    answer to them [i] is still to be read.  What the peer has sent is read in order and
    once; nothing is known of a read when there is nothing, and nothing arrives that the
    peer has not sent in answer to the bytes written so far. *)
Class Duplex (Tr : Type) `{Transport Tr} (respond : list Z → list Z) : Type := {
  joined : Tr → list Z → list Z → Prop;
  duplex_read t b i o : joined t (b :: i) o → ∃ t', read_byte t = (Ok b, t') ∧ joined t' i o;
  duplex_write data t i o new : joined t i o → respond (o ++ data) = respond o ++ new →
    ∃ t', write_all data t = (Ok tt, t') ∧ joined t' (i ++ new) (o ++ data);
  duplex_flush t i o : joined t i o → ∃ t', flush t = (Ok tt, t') ∧ joined t' i o;
  duplex_timeout timeout t i o : joined t i o →
    ∃ t', set_io_timeout timeout t = (Ok tt, t') ∧ joined t' i o
}.

(** A clock that stays between [start] and [start + budget], and represents
    every instant up to [budget] later. *)
Class Punctual (Tr : Type) `{Transport Tr} {respond : list Z → list Z} `{!Duplex Tr respond}
    `{!Clock Tr} (start budget : Z) : Prop := {
  punctual_now t i o : joined t i o →
    ∃ n t', instant_now t = (n, t') ∧ joined t' i o ∧ start ≤ n < start + budget;
  punctual_add n d : start ≤ n < start + budget → 0 ≤ d ≤ budget → instant_add n d = Some (n + d)
}.

Section client.
Context {Tr : Type} `{Transport Tr} {respond : list Z → list Z} `{!Duplex Tr respond} `{!Clock Tr}.
Context {start budget : Z} `{!Punctual Tr start budget}.

Implicit Types c : GdbRemoteClient Tr.

(** The client between two events. *)
Record client_at (lim : ProtocolLimits) c (i o : list Z) : Prop := {
  ca_joined : joined (gc_transport c) i o;
  ca_limits : limits (max_packet_payload lim) (gc_reader c);
  ca_idle : pr_state (gc_reader c) = Idle;
  ca_lim : gc_limits c = lim;
  ca_timeout : gc_operation_timeout c = budget
}.

Lemma client_at_transport lim c t i o i' o' :
  client_at lim c i o → joined t i' o' →
  client_at lim (mkGdbRemoteClient t (gc_reader c) (gc_limits c) (gc_operation_timeout c)) i' o'.
Proof. intros [_ Hl Hi Hlim Ht] Hl'. by split. Qed.

(** A computation that only uses the channel. *)
Definition on_link {A} (op : smonad (GdbRemoteClient Tr) IoError A) c (i o : list Z) (a : A)
    (i' o' : list Z) : Prop :=
  joined (gc_transport c) i o →
  ∃ t', op c = (Ok a, mkGdbRemoteClient t' (gc_reader c) (gc_limits c) (gc_operation_timeout c))
        ∧ joined t' i' o'.

Lemma on_link_bind {A B} (op : smonad (GdbRemoteClient Tr) IoError A)
    (k : A → smonad (GdbRemoteClient Tr) IoError B) c i o a i1 o1 b i2 o2 :
  on_link op c i o a i1 o1 →
  (∀ t, on_link (k a) (mkGdbRemoteClient t (gc_reader c) (gc_limits c) (gc_operation_timeout c))
          i1 o1 b i2 o2) →
  on_link (sbind op k) c i o b i2 o2.
Proof.
  intros Ha Hk Hl. destruct (Ha Hl) as (t1 & Hop & Hl1). unfold sbind. rewrite Hop.
  by apply (Hk t1).
Qed.

Lemma on_link_ret {A} (a : A) c i o : on_link (sret a) c i o a i o.
Proof. intros Hl. exists (gc_transport c). split; [by destruct c|done]. Qed.

Lemma ensure_before_run c d i o : start + budget ≤ d → on_link (ensure_before d) c i o tt i o.
Proof.
  intros Hd Hl. destruct (punctual_now _ _ _ Hl) as (n & t' & Hn & Hl' & Hb). exists t'.
  split; [|done]. unfold ensure_before, now, client_on_transport, sbind, slift. rewrite Hn. simpl.
  by rewrite (proj2 (Z.leb_gt _ _)) by lia.
Qed.

Lemma prepare_io_run c d i o : start + budget ≤ d → on_link (prepare_io d) c i o tt i o.
Proof.
  intros Hd Hl. destruct (punctual_now _ _ _ Hl) as (n & t1 & Hn & Hl1 & Hb).
  destruct (duplex_timeout (Some (d - n)) _ _ _ Hl1) as (t2 & Ht & Hl2). exists t2. split; [|done].
  unfold prepare_io, now, client_on_transport, sbind, slift. rewrite Hn. simpl.
  rewrite (proj2 (Z.leb_gt _ _)) by lia. simpl. by rewrite Ht.
Qed.

Lemma send_until_run c data d i o new :
  start + budget ≤ d → respond (o ++ data) = respond o ++ new →
  on_link (send_until data d) c i o tt (i ++ new) (o ++ data).
Proof.
  intros Hd Hn. eapply on_link_bind; [by apply prepare_io_run|]. intros t1.
  eapply on_link_bind; [|intros t2; by apply ensure_before_run].
  intros Hl. destruct (duplex_write data _ _ _ new Hl Hn) as (t2 & Hw & Hl2).
  destruct (duplex_flush _ _ _ Hl2) as (t3 & Hf & Hl3). exists t3.
  unfold client_on_transport, send_bytes, sbind. by rewrite Hw, Hf.
Qed.

Lemma read_until_run c b d i o :
  start + budget ≤ d → on_link (read_until d) c (b :: i) o b i o.
Proof.
  intros Hd. eapply on_link_bind; [by apply prepare_io_run|]. intros t1.
  eapply on_link_bind; [|intros t2; eapply on_link_bind; [by apply ensure_before_run|intros t3; apply on_link_ret]].
  intros Hl. destruct (duplex_read _ _ _ _ Hl) as (t' & Hr & Hl'). exists t'.
  unfold client_on_transport. by rewrite Hr.
Qed.

(** ** The event loops *)

Definition client_loop {A} (d : Z) (loop : nat → smonad (GdbRemoteClient Tr) IoError A)
    (k : nat → option PacketEvent → smonad (GdbRemoteClient Tr) IoError A) : Prop :=
  (∀ f, k f None = loop f)
  ∧ ∀ f, loop (S f) = (let! byte := read_until d in let! event := client_push byte in k f event).

Section loop.
Context {A : Type} (d : Z) (Hd : start + budget ≤ d).
Context (loop : nat → smonad (GdbRemoteClient Tr) IoError A).
Context (k : nat → option PacketEvent → smonad (GdbRemoteClient Tr) IoError A).
Context (Hloop : client_loop d loop k).

Lemma client_byte_run c b i o e r' fuel :
  joined (gc_transport c) (b :: i) o → push b (gc_reader c) = (e, r') →
  ∃ t', joined t' i o
        ∧ loop (S fuel) c = k fuel e (mkGdbRemoteClient t' r' (gc_limits c) (gc_operation_timeout c)).
Proof.
  intros Hl Hp. destruct (read_until_run c b d i o Hd Hl) as (t' & Hr & Hl').
  exists t'. split; [done|]. rewrite (proj2 Hloop). unfold sbind, client_push.
  rewrite Hr. simpl. by rewrite Hp.
Qed.

Lemma client_quiet_run init c i o r1 fuel :
  joined (gc_transport c) (init ++ i) o → drain init (gc_reader c) = ([], r1) →
  ∃ t', joined t' i o
        ∧ loop (length init + fuel) c
          = loop fuel (mkGdbRemoteClient t' r1 (gc_limits c) (gc_operation_timeout c)).
Proof.
  revert c. induction init as [|b init IH]; intros c Hl Hdr; simpl in *.
  { simplify_eq. exists (gc_transport c). split; [done|by destruct c]. }
  destruct (push b (gc_reader c)) as [e r'] eqn:Hp. destruct (drain init r') as [es r''] eqn:Hdr'.
  destruct e as [e|]; simplify_eq/=.
  destruct (client_byte_run c b (init ++ i) o None r' (length init + fuel)) as (t' & Hl' & ->); [done..|].
  rewrite (proj1 Hloop).
  by apply (IH (mkGdbRemoteClient t' r' (gc_limits c) (gc_operation_timeout c))).
Qed.

Lemma client_event_run lim c bytes e i o fuel :
  client_at lim c (bytes ++ i) o → reads_as (max_packet_payload lim) bytes e →
  ∃ c', client_at lim c' i o ∧ loop (length bytes + fuel) c = k fuel (Some e) c'.
Proof.
  intros [Hl Hr Hi Hlim Ht] He.
  destruct (He (gc_reader c) Hr Hi) as [r' [(init & b & r1 & -> & Hdr & Hp) [Hr' Hi']]].
  rewrite <-(assoc_L (++)) in Hl. simpl in Hl.
  destruct (client_quiet_run init c (b :: i) o r1 (S fuel)) as (t1 & Hl1 & Hq); [done..|].
  destruct (client_byte_run (mkGdbRemoteClient t1 r1 (gc_limits c) (gc_operation_timeout c))
    b i o (Some e) r' fuel) as (t2 & Hl2 & Hb); [done..|].
  eexists. split; [|rewrite length_app; simpl; rewrite <-Nat.add_assoc; simpl; by rewrite Hq, Hb].
  by split.
Qed.
End loop.

Lemma recv_packet_loop d :
  client_loop d (λ f, recv_packet_inner f d)
    (λ f e, match e with
            | Some (Packet payload true) => do! send_until (str "+") d in sret payload
            | Some (Packet _ false) => do! send_until (str "-") d in recv_packet_inner f d
            | _ => recv_packet_inner f d
            end).
Proof. done. Qed.

Lemma await_ack_until_loop d :
  client_loop d (λ f, await_ack_until f d)
    (λ f e, match e with
            | Some Ack => sret true
            | Some Nack => sret false
            | _ => await_ack_until f d
            end).
Proof. done. Qed.

Lemma client_send_run lim c data d i o new :
  start + budget ≤ d → client_at lim c i o → respond (o ++ data) = respond o ++ new →
  ∃ c', send_until data d c = (Ok tt, c') ∧ client_at lim c' (i ++ new) (o ++ data).
Proof.
  intros Hd Hc Hn. destruct (send_until_run c data d i o new Hd Hn (ca_joined _ _ _ _ Hc)) as (t' & Hs & Hl).
  rewrite Hs. eexists. split; [reflexivity|]. by eapply client_at_transport.
Qed.

Section exchange.
Context (lim : ProtocolLimits) (d : Z) (Hd : start + budget ≤ d).

(** A packet, after other traffic but no damaged packet. *)
Lemma recv_run tr c o fuel p rest new :
  traffic_ok (max_packet_payload lim) tr → client_at lim c (bytes_of tr) o →
  (length (bytes_of tr) < fuel)%nat → listen tr = (str "+", Some (p, rest)) →
  respond (o ++ str "+") = respond o ++ new →
  ∃ c', recv_packet_inner fuel d c = (Ok p, c')
        ∧ client_at lim c' (bytes_of rest ++ new) (o ++ str "+").
Proof.
  intros Hok. revert c o fuel. induction Hok as [|[bytes e] tr Hx Hok IH]; intros c o fuel Hc Hf Hp Hn; [done|].
  rewrite bytes_of_cons in *. rewrite length_app in Hf. simpl in Hf, Hx.
  replace fuel with (length bytes + (fuel - length bytes))%nat by lia.
  destruct (client_event_run d Hd _ _ (recv_packet_loop d) lim c bytes e (bytes_of tr) o
    (fuel - length bytes)) as (c1 & Hc1 & ->); [done..|].
  destruct e as [| | |q []]; simpl in *; try (apply IH; [done|lia|done..]).
  - injection Hp as <- <-. destruct (client_send_run lim c1 (str "+") d _ _ _ Hd Hc1 Hn) as (c2 & Hs & Hc2).
    exists c2. unfold sbind. by rewrite Hs.
  - by destruct (listen tr).
Qed.

Lemma ack_run tr c o fuel b rest :
  traffic_ok (max_packet_payload lim) tr → client_at lim c (bytes_of tr) o →
  (length (bytes_of tr) < fuel)%nat → hear_ack tr = (Some b, rest) →
  ∃ c', await_ack_until fuel d c = (Ok b, c') ∧ client_at lim c' (bytes_of rest) o.
Proof.
  intros Hok. revert c fuel. induction Hok as [|[bytes e] tr Hx Hok IH]; intros c fuel Hc Hf Hh; [done|].
  rewrite bytes_of_cons in *. rewrite length_app in Hf. simpl in Hf, Hx.
  replace fuel with (length bytes + (fuel - length bytes))%nat by lia.
  destruct (client_event_run d Hd _ _ (await_ack_until_loop d) lim c bytes e (bytes_of tr) o
    (fuel - length bytes)) as (c1 & Hc1 & ->); [done..|].
  destruct e as [| | |q ok]; simpl in *; try (apply IH; [done|lia|done]); simplify_eq; by exists c1.
Qed.

(** One request, acknowledged at once, and its reply, all of which the peer has sent in
    answer to the request. *)
Lemma transact_until_run tr c i o fuel payload acked reply rest new1 new2 :
  traffic_ok (max_packet_payload lim) tr → client_at lim c i o →
  respond (o ++ encode_packet payload) = respond o ++ new1 → i ++ new1 = bytes_of tr →
  (length (bytes_of tr) < fuel)%nat → zlen payload ≤ max_packet_payload lim →
  hear_ack tr = (Some true, acked) → listen acked = (str "+", Some (reply, rest)) →
  respond ((o ++ encode_packet payload) ++ str "+") = respond (o ++ encode_packet payload) ++ new2 →
  ∃ c', transact_until fuel payload d c = (Ok reply, c')
        ∧ client_at lim c' (bytes_of rest ++ new2) ((o ++ encode_packet payload) ++ str "+").
Proof.
  intros Hok Hc Hn1 Hi Hf Hp Hh Hl Hn2.
  pose proof (hear_ack_suffix tr) as [pre Hpre]. rewrite Hh in Hpre. simpl in Hpre.
  destruct (client_send_run lim c (encode_packet payload) d _ _ _ Hd Hc Hn1) as (c1 & Hs & Hc1).
  rewrite Hi in Hc1. destruct (ack_run tr c1 _ fuel true acked Hok Hc1 Hf Hh) as (c2 & Ha & Hc2).
  rewrite Hpre in Hok, Hf. rewrite bytes_of_app, length_app in Hf.
  destruct (recv_run acked c2 (o ++ encode_packet payload) fuel reply rest new2) as (c3 & Hr & Hc3);
    [by eapply traffic_suffix|done|lia|done|done|].
  destruct (duplex_timeout None _ _ _ (ca_joined _ _ _ _ Hc3)) as (t' & Ht & Hl').
  unfold transact_until, finish_deadlined, send_packet_inner, sbind, sread.
  rewrite (ca_lim _ _ _ _ Hc), (proj2 (Z.ltb_ge _ _)) by done. cbn [fail_if].
  change (Z.to_nat MAX_RESENDS) with 8%nat. cbn [client_send_loop]. unfold sbind. rewrite Hs, Ha. simpl.
  rewrite Hr. unfold client_on_transport. rewrite Ht. eexists. split; [reflexivity|].
  by eapply client_at_transport.
Qed.
End exchange.

(** A fresh deadline is after every later instant. *)
Lemma new_deadline_run lim c i o :
  0 ≤ budget → client_at lim c i o →
  ∃ d c', new_deadline c = (Ok d, c') ∧ client_at lim c' i o ∧ start + budget ≤ d.
Proof.
  intros Hbu Hc. destruct (punctual_now _ _ _ (ca_joined _ _ _ _ Hc)) as (n & t' & Hn & Hl & Hb).
  exists (n + budget). unfold new_deadline, now, client_on_transport, sbind, sget, slift. rewrite Hn. simpl.
  rewrite (ca_timeout _ _ _ _ Hc), punctual_add by lia. simpl. eexists. split; [reflexivity|].
  split; [by destruct Hc; split|lia].
Qed.
End client.
