(* ===== verification/GdbSessionTheory.v ===== *)
(** A client and a server of the remote protocol together: driving a target
    through the wire is the same as driving it directly. *)

From S2P Require Import Prelude GdbPacket GdbPacketTheory GdbTransport GdbTransportTheory GdbTarget.
From S2P Require Import GdbTargetLaws GdbServer.
From S2P Require Import GdbServerTheory GdbTextTheory GdbClient GdbClientTheory.
Import Rsp RspTransport RspTarget RspServer RspClient.
Open Scope Z_scope.

(** ** Operations *)

Inductive remote_op : Type :=
  | ReadMemory (addr len : Z)
  | WriteMemory (addr : Z) (data : list Z)
  | ReadRegisters
  | WriteRegisters (raw : list Z)
  | Cont
  | Step
  | SetBreakpoint (addr kind : Z)
  | RemoveBreakpoint (addr kind : Z).

Inductive remote_value : Type :=
  | Done
  | Bytes (bytes : list Z)
  | Stopped (reply : StopReply).

(** The arguments the Rust types allow. *)
Definition op_typed (op : remote_op) : Prop :=
  match op with
  | ReadMemory addr len => in_u64 addr ∧ in_u64 len
  | WriteMemory addr data => in_u64 addr ∧ in_u64 (zlen data) ∧ Forall is_byte data
  | WriteRegisters raw => Forall is_byte raw
  | SetBreakpoint addr kind | RemoveBreakpoint addr kind => in_u64 addr ∧ in_u64 kind
  | _ => True
  end.

Definition op_request (op : remote_op) : list Z :=
  match op with
  | ReadMemory addr len => str "m" ++ format_x addr ++ str "," ++ format_x len
  | WriteMemory addr data =>
      str "M" ++ format_x addr ++ str "," ++ format_x (zlen data) ++ str ":" ++ hex_encode data
  | ReadRegisters => str "g"
  | WriteRegisters raw => str "G" ++ hex_encode raw
  | Cont => str "c"
  | Step => str "s"
  | SetBreakpoint addr kind => str "Z0," ++ format_x addr ++ str "," ++ format_x kind
  | RemoveBreakpoint addr kind => str "z0," ++ format_x addr ++ str "," ++ format_x kind
  end.

(** The limits the client checks before it sends anything. *)
Definition op_allowed (lim : ProtocolLimits) (op : remote_op) : bool :=
  match op with
  | ReadMemory _ len =>
      (len <=? max_memory_transfer lim) && (len <=? Z.max 0 (max_packet_payload lim - 1) / 2)
  | WriteMemory _ data =>
      (zlen data <=? max_memory_transfer lim)
      && (zlen (op_request op) <=? max_packet_payload lim)
  | WriteRegisters raw => 2 * zlen raw + 1 <=? max_packet_payload lim
  | _ => true
  end.

(** How the client reads the reply. *)
Definition op_decode (op : remote_op) (reply : list Z) : result remote_value IoError :=
  match op with
  | ReadMemory _ len =>
      let? bytes := decode_hex_reply reply in
      do? fail_if (negb (zlen bytes =? len))
            (io_error InvalidData "remote returned a partial or oversized memory read") in
      Ok (Bytes bytes)
  | ReadRegisters => let? bytes := decode_register_reply reply in Ok (Bytes bytes)
  | Cont | Step => let? stop := parse_stop_reply reply in Ok (Stopped stop)
  | _ => do? expect_ok reply in Ok Done
  end.

Definition ok_value {A E} (r : result A E) : option A :=
  match r with Ok a => Some a | _ => None end.

Lemma op_decode_no_panic op reply : no_panic (op_decode op reply).
Proof.
  intros p. destruct op; simpl;
    unfold decode_register_reply, decode_hex_reply, expect_ok, parse_stop_reply, ok_or, fail_if, result_bind;
    by repeat case_match.
Qed.

(** ** Driving the target directly *)

Section direct.
Context {T : Type} `{RemoteTarget T}.

Definition unit_value (x : result unit TargetError * T) : option remote_value * T :=
  ((λ _, Done) <$> ok_value x.1, x.2).

(** After a signal the server also asks which thread stopped. *)
Definition stop_value (x : result StopReply TargetError * T) : option remote_value * T :=
  (Stopped <$> ok_value x.1,
   match x.1 with Ok (Signal _) => (stopped_thread x.2).2 | _ => x.2 end).

Definition drive (lim : ProtocolLimits) (op : remote_op) (t : T) : option remote_value * T :=
  if negb (op_allowed lim op) then (None, t)
  else match op with
  | ReadMemory addr len =>
      let (r, t') := read_memory addr len t in
      (match r with
       | Ok bytes => if zlen bytes =? len then Some (Bytes bytes) else None
       | _ => None
       end, t')
  | WriteMemory addr data => unit_value (write_memory addr data t)
  | ReadRegisters =>
      let (r, t') := read_registers t in
      (match r with
       | Ok bytes => if register_packet_is_valid bytes lim t' && negb (bool_decide (bytes = []))
                     then Some (Bytes bytes) else None
       | _ => None
       end, t')
  | WriteRegisters raw =>
      if register_packet_is_valid raw lim t then unit_value (write_registers raw t) else (None, t)
  | Cont => stop_value (cont t)
  | Step => stop_value (step t)
  | SetBreakpoint addr kind => unit_value (set_sw_breakpoint_with_kind addr kind t)
  | RemoveBreakpoint addr kind => unit_value (remove_sw_breakpoint_with_kind addr kind t)
  end.

Fixpoint drive_all (lim : ProtocolLimits) (ops : list remote_op) (t : T)
    : list (option remote_value) * T :=
  match ops with
  | [] => ([], t)
  | op :: ops' =>
      let (v, t1) := drive lim op t in
      let (vs, t2) := drive_all lim ops' t1 in
      (v :: vs, t2)
  end.
End direct.

(** ** One operation at the server *)

Section answers.
Context {T : Type} {good : T → Prop} `{LawfulTarget T good}.
Implicit Types t : T.

(** The dispatcher answers [op] with a reply that fits the packet, changes the
    target as [drive] does and lets the client read the value of [drive]. *)
Definition answers (lim : ProtocolLimits) (op : remote_op) t : Prop :=
  ∃ reply t', dispatch (op_request op) lim t = (Ok (Reply reply), t')
    ∧ drive lim op t = (ok_value (op_decode op reply), t')
    ∧ zlen reply ≤ max_packet_payload lim ∧ good t'.

(** From the handler of the packet. *)
Lemma answers_intro lim op t (h : smonad T Empty_set (list Z)) reply t' :
  dispatch (op_request op) lim t = reply_with h t → h t = (Ok reply, t') →
  drive lim op t = (ok_value (op_decode op reply), t') →
  zlen reply ≤ max_packet_payload lim → good t' → answers lim op t.
Proof.
  intros Hd Hh Hv Hr Hg. exists reply, t'. split_and!; [|done..].
  rewrite Hd. unfold reply_with, sbind. by rewrite Hh.
Qed.

(** The short replies. *)
Lemma short_fits lim (reply : list Z) :
  36 ≤ max_packet_payload lim → (length reply ≤ 3)%nat → zlen reply ≤ max_packet_payload lim.
Proof. unfold zlen. lia. Qed.

(** An operation answered by [OK] or an error. *)
Lemma answers_unit lim op t (h : smonad T Empty_set (list Z)) (c : target_op T unit) :
  36 ≤ max_packet_payload lim → good t → promises good c (λ _, True) →
  dispatch (op_request op) lim t = reply_with h t → h t = ok_or_error c t →
  (∀ reply, op_decode op reply = do? expect_ok reply in Ok Done) →
  drive lim op t = unit_value (c t) → answers lim op t.
Proof.
  intros Hmax Ht Hp Hd Hh Hdec Hdr. unfold ok_or_error, sbind, try in Hh. unfold unit_value in Hdr.
  destruct (promises_cases good c _ t Hp Ht) as [([] & t' & Hc & _ & Hg)|(e & t' & Hc & Hg)];
    rewrite Hc in Hh, Hdr;
    (eapply answers_intro; [done|exact Hh|by rewrite Hdr, Hdec|apply short_fits; simpl; lia|done]).
Qed.

Lemma answers_refused lim op t (h : smonad T Empty_set (list Z)) :
  36 ≤ max_packet_payload lim → good t →
  dispatch (op_request op) lim t = reply_with h t → h t = (Ok error_reply, t) →
  (∀ reply, op_decode op reply = do? expect_ok reply in Ok Done) →
  drive lim op t = (None, t) → answers lim op t.
Proof.
  intros Hmax Ht Hd Hh Hdec Hdr.
  eapply answers_intro; [done|exact Hh|by rewrite Hdr, Hdec|apply short_fits; simpl; lia|done].
Qed.

Lemma decode_hex_reply_encode bytes :
  Forall is_byte bytes → decode_hex_reply (hex_encode bytes) = Ok bytes.
Proof.
  intros Hb. unfold decode_hex_reply.
  assert (is_error_reply (hex_encode bytes) = false) as ->.
  { pose proof (hex_encode_even bytes) as He. unfold zlen in He.
    destruct (hex_encode bytes) as [|? [|? [|? []]]]; try done. simpl length in He. lia. }
  simpl. by rewrite hex_decode_encode_exact.
Qed.

Lemma parse_two_hex_byte b l : is_byte b → parse_two_hex (hex_byte b ++ l) = Some b.
Proof.
  intros Hb. unfold parse_two_hex.
  rewrite (proj2 (Z.ltb_ge _ _)) by (unfold zlen; rewrite length_app; simpl; lia).
  change (take 2 (hex_byte b ++ l)) with (hex_encode [b]).
  rewrite hex_decode_encode_exact; [done|]. by apply Forall_singleton.
Qed.

(** ** Each operation *)

Lemma parse_stop_reply_for r t reply t' :
  stop_typed r → stop_reply_for r t = (Ok reply, t') → parse_stop_reply reply = Ok r.
Proof.
  intros Hb Hr.
  assert (∀ tag l n, is_byte n →
    parse_stop_reply (tag :: hex_byte n ++ l)
    = if (tag =? 83) || (tag =? 84) then Ok (Signal n) else if tag =? 87 then Ok (Exited n)
      else if tag =? 88 then Ok (Terminated n)
      else Err (mkIoError InvalidData "unexpected stop reply tag {}" [tag])) as Hp.
  { intros tag l n Hn. unfold parse_stop_reply. by rewrite parse_two_hex_byte. }
  destruct r as [n|n|n]; unfold stop_reply_for, sbind, ask, sret in Hr.
  - destruct (stopped_thread t) as [[tid|] t1]; injection Hr as <- <-.
    + by apply (Hp 84 _ n).
    + by apply (Hp 83 [] n).
  - injection Hr as <- <-. by apply (Hp 87 [] n).
  - injection Hr as <- <-. by apply (Hp 88 [] n).
Qed.

Lemma stop_reply_for_run r t :
  good t →
  ∃ reply, stop_reply_for r t
    = (Ok reply, match r with Signal _ => (stopped_thread t).2 | _ => t end) ∧ zlen reply ≤ 27.
Proof.
  intros Hg. destruct r as [n|n|n]; unfold stop_reply_for, sbind, ask, sret;
    [|eexists; split; [done|unfold zlen; simpl; lia]..].
  destruct (lawful_stopped t Hg) as [Ht _]. destruct (stopped_thread t) as [[tid|] t1]; simpl in *.
  - eexists. split; [done|]. pose proof (format_x_length tid (Ht tid eq_refl)).
    unfold zlen in *. cbn [app str length]. simpl. rewrite length_app. simpl. lia.
  - eexists. split; [done|]. unfold zlen. simpl. lia.
Qed.

(** The state after a stop was reported. *)
Lemma stop_reported r t :
  good t → good (match r with Signal _ => (stopped_thread t).2 | _ => t end).
Proof. intros Hg. destruct r; [apply (lawful_stopped t Hg)|done..]. Qed.

Lemma answers_stop lim op t (c : target_op T StopReply) :
  36 ≤ max_packet_payload lim → good t → promises good c stop_typed →
  dispatch (op_request op) lim t = reply_with (resume c) t →
  (∀ reply, op_decode op reply = let? stop := parse_stop_reply reply in Ok (Stopped stop)) →
  drive lim op t = stop_value (c t) → answers lim op t.
Proof.
  intros Hmax Ht Hp Hd Hdec Hdr. unfold stop_value in Hdr.
  destruct (promises_cases good c _ t Hp Ht) as [(r & t1 & Hc & Hty & Hg)|(e & t1 & Hc & Hg)];
    rewrite Hc in Hdr; simpl in Hdr.
  - destruct (stop_reply_for_run r t1 Hg) as (reply & Hf & Hl).
    eapply answers_intro; [done|unfold resume, sbind, try; by rewrite Hc, Hf| |lia|by apply stop_reported].
    by rewrite Hdr, Hdec, (parse_stop_reply_for r t1 reply _ Hty Hf).
  - eapply answers_intro; [done|unfold resume, sbind, try; by rewrite Hc|by rewrite Hdr, Hdec| |done].
    apply short_fits; simpl; lia.
Qed.

Lemma answers_read_memory lim addr len t :
  36 ≤ max_packet_payload lim → max_packet_payload lim * 2 ≤ usize_max → good t →
  op_typed (ReadMemory addr len) →
  op_allowed lim (ReadMemory addr len) = true → answers lim (ReadMemory addr len) t.
Proof.
  intros Hmax Htop Ht [Ha Hl] Hok. pose proof Hok as [H1 H2]%andb_prop. apply Z.leb_le in H1, H2.
  assert (len * 2 ≤ max_packet_payload lim) as Hfit.
  { pose proof (Z.mul_div_le (Z.max 0 (max_packet_payload lim - 1)) 2). lia. }
  assert (len ≤ max_packet_payload lim / 2) by (apply Z.div_le_lower_bound; lia).
  assert (0 ≤ len ≤ isize_max) as Hlen by (unfold in_u64, usize_max, u64_max, isize_max in *; lia).
  unfold answers. change (dispatch (op_request (ReadMemory addr len)) lim t)
    with (reply_with (handle_read_memory (format_x addr ++ str "," ++ format_x len) lim) t).
  unfold drive. rewrite Hok. unfold reply_with, handle_read_memory, sbind, try.
  rewrite parse_addr_len_format, (proj2 (Z.ltb_ge _ _)) by (done || lia). cbn [negb].
  destruct (promises_cases good _ _ t (lawful_read addr len Ha Hlen) Ht)
    as [(r & t1 & Hc & Hb & Hg)|(e & t1 & Hc & Hg)]; rewrite Hc; eexists _, _; (split; [done|]).
  2: { split_and!; [done|apply short_fits; simpl; lia|done]. }
  destruct (Z.eqb_spec (zlen r) len) as [He|]; [|split_and!; [done|apply short_fits; simpl; lia|done]].
  unfold op_decode. rewrite decode_hex_reply_encode, hex_encode_even by done. simpl.
  rewrite (proj2 (Z.eqb_eq _ _)) by done. split_and!; [done|lia|done].
Qed.

Lemma answers_read_registers lim t :
  36 ≤ max_packet_payload lim → good t → answers lim ReadRegisters t.
Proof.
  intros Hmax Ht. unfold answers. change (dispatch (op_request ReadRegisters) lim t)
    with (reply_with (handle_read_registers lim) t).
  unfold drive. cbn [op_allowed negb]. unfold reply_with, handle_read_registers, sbind, try.
  destruct (promises_cases good _ _ t lawful_read_registers Ht)
    as [(r & t1 & Hc & Hb & Hg)|(e & t1 & Hc & Hg)]; rewrite Hc; eexists _, _; (split; [done|]).
  2: { split_and!; [done|apply short_fits; simpl; lia|done]. }
  destruct (register_packet_is_valid r lim t1) eqn:Hv.
  2: { split_and!; [done|apply short_fits; simpl; lia|done]. }
  unfold op_decode, decode_register_reply. rewrite decode_hex_reply_encode by done. simpl.
  split_and!; [by case_bool_decide| |done]. rewrite hex_encode_even.
  unfold register_packet_is_valid in Hv.
  destruct (Z.ltb_spec (max_packet_payload lim / 2) (zlen r)); [done|].
  pose proof (Z.mul_div_le (max_packet_payload lim) 2). lia.
Qed.

Lemma answers_write_registers lim raw t :
  36 ≤ max_packet_payload lim → good t → op_typed (WriteRegisters raw) →
  op_allowed lim (WriteRegisters raw) = true → answers lim (WriteRegisters raw) t.
Proof.
  intros Hmax Ht Hraw Hok.
  assert (handle_write_registers (hex_encode raw) lim t
    = if register_packet_is_valid raw lim t then ok_or_error (write_registers raw) t
      else (Ok error_reply, t)) as Hh.
  { unfold handle_write_registers. rewrite hex_decode_encode_exact by done. unfold sbind, sget.
    by destruct (register_packet_is_valid raw lim t). }
  assert (drive lim (WriteRegisters raw) t
    = if register_packet_is_valid raw lim t then unit_value (write_registers raw t) else (None, t)) as Hd.
  { unfold drive. by rewrite Hok. }
  destruct (register_packet_is_valid raw lim t).
  - eapply answers_unit; [done|done|by apply lawful_write_registers|reflexivity|done..].
  - eapply answers_refused; [done|done|reflexivity|done..].
Qed.

Lemma answers_write_memory lim addr data t :
  36 ≤ max_packet_payload lim → good t → op_typed (WriteMemory addr data) →
  op_allowed lim (WriteMemory addr data) = true → answers lim (WriteMemory addr data) t.
Proof.
  intros Hmax Ht (Ha & Hl & Hdata) Hok. pose proof Hok as [H1 H2]%andb_prop. apply Z.leb_le in H1.
  eapply answers_unit; [done|done|by apply (lawful_write addr data)|reflexivity| |done|].
  - unfold handle_write_memory. rewrite !(assoc_L (++)). change (str ":") with [58].
    rewrite <-(assoc_L (++) _ [58]). cbn [app]. rewrite split_at_first_app.
    2: { rewrite !elem_of_app. intros [[Hin|Hin]|Hin]; [by eapply format_x_not in Hin| |by eapply format_x_not in Hin].
         apply list_elem_of_singleton in Hin. done. }
    rewrite <-(assoc_L (++)), parse_addr_len_format, hex_decode_encode_exact by done.
    by rewrite Z.eqb_refl, (proj2 (Z.ltb_ge _ _)).
  - unfold drive. by rewrite Hok.
Qed.

Lemma handle_breakpoint_run addr kind set t :
  in_u64 addr → in_u64 kind →
  handle_breakpoint (str "0," ++ format_x addr ++ str "," ++ format_x kind) set t
  = ok_or_error (if set : bool then set_sw_breakpoint_with_kind addr kind
                 else remove_sw_breakpoint_with_kind addr kind) t.
Proof.
  intros Ha Hk. change (str "0,") with (48 :: str ","). cbn [app handle_breakpoint].
  rewrite (strip_prefix_app (str ",") (format_x addr ++ str "," ++ format_x kind)). cbn [from_option id].
  rewrite (split_at_first_none 59).
  2: { rewrite !elem_of_app. intros [Hin|[Hin|Hin]]; [by eapply format_x_not in Hin| |by eapply format_x_not in Hin].
       apply list_elem_of_singleton in Hin. done. }
  change (str "," ++ format_x kind) with (44 :: format_x kind).
  rewrite split_at_first_app by (by apply format_x_not). cbn [mbind option_bind].
  by rewrite !parse_format_x.
Qed.

Lemma op_answers lim op t :
  36 ≤ max_packet_payload lim → max_packet_payload lim * 2 ≤ usize_max → good t →
  op_typed op → op_allowed lim op = true → answers lim op t.
Proof.
  intros Hmax Htop Ht Hty Hok. destruct op as [addr len|addr data| |raw| | |addr kind|addr kind].
  - by apply answers_read_memory.
  - by apply answers_write_memory.
  - by apply answers_read_registers.
  - by apply answers_write_registers.
  - by apply (answers_stop lim Cont t cont); [..|apply lawful_cont| | |].
  - by apply (answers_stop lim Step t step); [..|apply lawful_step| | |].
  - destruct Hty. eapply answers_unit; [done|done|apply (lawful_set addr kind)|reflexivity| |done..].
    by apply (handle_breakpoint_run addr kind true).
  - destruct Hty. eapply answers_unit; [done|done|apply (lawful_remove addr kind)|reflexivity| |done..].
    by apply (handle_breakpoint_run addr kind false).
Qed.
End answers.

(** ** One operation at the client *)

Section client_ops.
Context {Tr : Type} `{Transport Tr} `{!Clock Tr}.
Implicit Types c : GdbRemoteClient Tr.

Definition client_run (fuel : nat) (op : remote_op)
    : smonad (GdbRemoteClient Tr) IoError remote_value :=
  match op with
  | ReadMemory addr len => let! bytes := client_read_memory fuel addr len in sret (Bytes bytes)
  | WriteMemory addr data => do! client_write_memory fuel addr data in sret Done
  | ReadRegisters => let! bytes := client_read_registers fuel in sret (Bytes bytes)
  | WriteRegisters raw => do! client_write_registers fuel raw in sret Done
  | Cont => let! stop := client_cont fuel in sret (Stopped stop)
  | Step => let! stop := client_step fuel in sret (Stopped stop)
  | SetBreakpoint addr kind => do! set_breakpoint_with_kind fuel addr kind in sret Done
  | RemoveBreakpoint addr kind => do! remove_breakpoint_with_kind fuel addr kind in sret Done
  end.

(** A sequence of calls, each of which may fail. *)
Fixpoint client_session (fuel : nat) (ops : list remote_op) c
    : list (result remote_value IoError) * GdbRemoteClient Tr :=
  match ops with
  | [] => ([], c)
  | op :: ops' =>
      let (r, c1) := client_run fuel op c in
      let (rs, c2) := client_session fuel ops' c1 in
      (r :: rs, c2)
  end.

Lemma register_limit lim raw :
  max_packet_payload lim * 2 ≤ usize_max →
  match checked_mul usize_max (zlen raw) 2 ≫= λ n, checked_add usize_max n 1 with
  | Some encoded => max_packet_payload lim <? encoded
  | None => true
  end = negb (op_allowed lim (WriteRegisters raw)).
Proof.
  intros Hmax. unfold op_allowed. rewrite <-Z.ltb_antisym.
  unfold checked_mul, checked_add. pose proof (Nat2Z.is_nonneg (length raw)). unfold zlen.
  destruct (Z.leb_spec (Z.of_nat (length raw) * 2) usize_max); cbn [mbind option_bind];
    [destruct (Z.leb_spec (Z.of_nat (length raw) * 2 + 1) usize_max)|];
    symmetry; rewrite ?Z.ltb_lt; try lia.
Qed.

Ltac guards :=
  repeat match goal with
         | Hg : (_ && _)%bool = true |- _ => apply andb_prop in Hg as [? ?]
         | Hg : (_ <=? _) = true |- _ => apply Z.leb_le in Hg
         end.

(** Splits on the result of the transaction and of the decoder. *)
Ltac reply_cases decode :=
  match goal with
  | |- context [transact ?f ?p ?c] =>
      destruct (transact f p c) as [[reply|e|msg] c']; [destruct (decode reply)|..]
  end; try done.

Lemma client_run_allowed lim fuel op c :
  max_packet_payload lim * 2 ≤ usize_max → gc_limits c = lim → op_allowed lim op = true →
  client_run fuel op c
  = (let! reply := transact fuel (op_request op) in slift (op_decode op reply)) c.
Proof.
  intros Hmax Hc Hok. destruct op as [addr len|addr data| |raw| | |addr kind|addr kind];
    cbn [client_run op_request op_decode].
  - unfold client_read_memory, sbind, sread, slift. rewrite Hc. simpl in Hok. guards.
    rewrite !(proj2 (Z.ltb_ge _ _)) by done. cbn [fail_if orb]. reply_cases decode_hex_reply.
    simpl. by destruct (negb _).
  - unfold client_write_memory, sbind, sread, slift. rewrite Hc. cbn [op_allowed] in Hok. guards.
    rewrite !(proj2 (Z.ltb_ge _ _)) by done. cbn [fail_if]. by reply_cases expect_ok.
  - unfold client_read_registers, sbind, slift. by reply_cases decode_register_reply.
  - unfold client_write_registers, sbind, sread, slift. rewrite Hc, register_limit, Hok by done.
    cbn [fail_if negb]. by reply_cases expect_ok.
  - unfold client_cont, sbind, slift. by reply_cases parse_stop_reply.
  - unfold client_step, sbind, slift. by reply_cases parse_stop_reply.
  - unfold set_breakpoint_with_kind, sbind, slift. by reply_cases expect_ok.
  - unfold remove_breakpoint_with_kind, sbind, slift. by reply_cases expect_ok.
Qed.

Lemma client_run_refused lim fuel op c :
  max_packet_payload lim * 2 ≤ usize_max → gc_limits c = lim → op_allowed lim op = false →
  ∃ e, client_run fuel op c = (Err e, c).
Proof.
  intros Hmax Hc Hok. destruct op as [addr len|addr data| |raw| | |addr kind|addr kind]; try done;
    cbn [client_run op_allowed] in *.
  - unfold client_read_memory, sbind, sread. rewrite Hc, !Z.ltb_antisym, <-negb_andb, Hok. by eexists.
  - unfold client_write_memory, sbind, sread. rewrite Hc, Z.ltb_antisym.
    destruct (zlen data <=? max_memory_transfer lim); [|by eexists]. cbn [negb fail_if andb] in *.
    rewrite Z.ltb_antisym. cbn [op_request] in Hok. rewrite Hok. by eexists.
  - unfold client_write_registers, sbind, sread. rewrite Hc, register_limit by done.
    cbn [op_allowed]. rewrite Hok. by eexists.
Qed.
End client_ops.

(** ** A session *)

Section turns.
Context {T : Type} `{RemoteTarget T}.

(** The requests that reach the wire, each with the reply of the dispatcher. *)
Fixpoint turns (lim : ProtocolLimits) (ops : list remote_op) (t : T) : list (list Z * list Z) :=
  match ops with
  | [] => []
  | op :: ops' =>
      if op_allowed lim op then
        match dispatch (op_request op) lim t with
        | (Ok (Reply reply), t') => (op_request op, reply) :: turns lim ops' t'
        | _ => []
        end
      else turns lim ops' t
  end.
End turns.

(** What each side sends: the client its request and then the acknowledgement of
    the reply, the server the acknowledgement of the request and then the reply. *)
Definition client_half (x : list Z * list Z) : list message := [SendPacket x.1; SendAck].
Definition server_half (x : list Z * list Z) : list message := [SendAck; SendPacket x.2].

Definition half_traffic (half : list Z * list Z → list message) (xs : list (list Z * list Z)) : traffic :=
  sent <$> (xs ≫= half).

Definition turn_fits (max : Z) (x : list Z * list Z) : Prop := zlen x.1 ≤ max ∧ zlen x.2 ≤ max.

Lemma half_traffic_cons half x xs :
  half_traffic half (x :: xs) = (sent <$> half x) ++ half_traffic half xs.
Proof. unfold half_traffic. by rewrite bind_cons, fmap_app. Qed.

Lemma half_bytes_app half xs ys :
  bytes_of (half_traffic half (xs ++ ys))
  = bytes_of (half_traffic half xs) ++ bytes_of (half_traffic half ys).
Proof. unfold half_traffic. by rewrite bind_app, fmap_app, bytes_of_app. Qed.

Lemma half_traffic_ok max half xs :
  0 ≤ max → max * 2 ≤ usize_max → half = client_half ∨ half = server_half →
  Forall (turn_fits max) xs → traffic_ok max (half_traffic half xs).
Proof.
  intros H0 Hmax Hh Hxs. apply sent_ok; [done..|]. apply Forall_bind.
  apply (list.Forall_impl _ _ _ Hxs). intros x [H1 H2]. destruct Hh as [->| ->]; by repeat constructor.
Qed.

(** The dispatcher gives these replies to these requests, and they fit. *)
Inductive answered {T : Type} `{RemoteTarget T} (lim : ProtocolLimits)
    : list (list Z * list Z) → T → T → Prop :=
  | answered_nil t : answered lim [] t t
  | answered_cons request reply xs t t1 t2 :
      dispatch request lim t = (Ok (Reply reply), t1) → zlen reply ≤ max_packet_payload lim →
      answered lim xs t1 t2 → answered lim ((request, reply) :: xs) t t2.

Lemma answered_snoc {T : Type} `{RemoteTarget T} lim xs request reply (t t1 t2 : T) :
  answered lim xs t t1 → dispatch request lim t1 = (Ok (Reply reply), t2) →
  zlen reply ≤ max_packet_payload lim → answered lim (xs ++ [(request, reply)]) t t2.
Proof.
  intros Hxs Hd Hr. induction Hxs as [t|q r xs t t' t1 Hq Hf _ IH].
  - apply answered_cons with t2; [done..|constructor].
  - apply answered_cons with t'; auto.
Qed.

(** The turns, and then whatever else arrives. *)
Lemma answered_protocol {T : Type} `{RemoteTarget T} lim xs (t t' : T) events :
  answered lim xs t t' →
  protocol_run lim Listening ((half_traffic client_half xs).*2 ++ events) t
  = emit (bytes_of (half_traffic server_half xs)) (protocol_run lim Listening events t').
Proof.
  induction 1 as [t|request reply xs t t1 t2 Hd Hr _ IH].
  { by rewrite emit_nil. }
  rewrite !half_traffic_cons, fmap_app, bytes_of_app.
  cbn [client_half server_half sent fmap list_fmap snd fst event wire app protocol_run].
  rewrite Hd, (proj2 (Z.ltb_ge _ _)) by done.
  change (Z.to_nat MAX_RESENDS) with 8%nat. rewrite IH. unfold emit. simpl. by rewrite app_nil_r, <-!(assoc_L (++)).
Qed.

(** ** The server as the peer *)

(** What the server of [target] has written once it has taken [bytes].  A server that
    waits for more has written the same: it writes nothing when its input ends. *)
Definition served {T : Type} `{RemoteTarget T} (lim : ProtocolLimits) (target : T) (bytes : list Z) : list Z :=
  ms_outbound (tr_inner (gs_transport
    (serve_one_with_limits (S (length bytes)) target (hears bytes) lim).2.1)).

Section peer.
Context {T : Type} `{RemoteTarget T} (lim : ProtocolLimits).
Context (Hpos : 0 ≤ max_packet_payload lim) (Hmax : max_packet_payload lim * 2 ≤ usize_max).
Implicit Types t : T.

Lemma served_traffic t tr :
  traffic_ok (max_packet_payload lim) tr →
  served lim t (bytes_of tr) = (protocol_run lim Listening tr.*2 t).1.2.
Proof using.
  intros Hok.
  destruct (serve_run lim (S (length (bytes_of tr))) tr (with_limits (hears (bytes_of tr)) lim) t [])
    as (_ & _ & i & Hl); [done|split; done || apply hears_buffered|lia|].
  symmetry. exact (bf_out _ _ _ Hl).
Qed.

(** After whole turns each side has sent its half. *)
Lemma served_turns xs t t' :
  Forall (turn_fits (max_packet_payload lim)) xs → answered lim xs t t' →
  served lim t (bytes_of (half_traffic client_half xs)) = bytes_of (half_traffic server_half xs).
Proof using Hpos Hmax.
  intros Hfit Hans. rewrite served_traffic by (apply half_traffic_ok; auto).
  rewrite <-(app_nil_r (_.*2)), (answered_protocol lim xs t t') by done. simpl. by rewrite app_nil_r.
Qed.

(** A request is acknowledged and answered before its reply is acknowledged. *)
Lemma served_request xs request reply t t1 t2 :
  Forall (turn_fits (max_packet_payload lim)) (xs ++ [(request, reply)]) →
  answered lim xs t t1 → dispatch request lim t1 = (Ok (Reply reply), t2) →
  served lim t (bytes_of (half_traffic client_half xs) ++ encode_packet request)
  = bytes_of (half_traffic server_half xs) ++ bytes_of (half_traffic server_half [(request, reply)]).
Proof using Hpos Hmax.
  intros [Hfit Hx]%Forall_app Hans Hd. apply Forall_singleton in Hx as [Hq Hr]. simpl in Hq, Hr.
  assert (traffic_ok (max_packet_payload lim) (half_traffic client_half xs ++ [sent (SendPacket request)])) as Hok.
  { apply Forall_app. split; [apply half_traffic_ok; auto|].
    apply (sent_ok _ [SendPacket request]); [done..|]. by repeat constructor. }
  replace (encode_packet request) with (bytes_of [sent (SendPacket request)]) by apply app_nil_r.
  rewrite <-bytes_of_app, served_traffic, fmap_app, (answered_protocol lim xs t t1) by done.
  cbn [emit fst snd sent fmap list_fmap event protocol_run].
  rewrite Hd, (proj2 (Z.ltb_ge _ _)) by done. done.
Qed.
End peer.

Lemma answered_serve {Tr T : Type} `{Pipe Tr} `{RemoteTarget T} lim xs (t t' : T) (far : Tr) fuel :
  0 ≤ max_packet_payload lim → max_packet_payload lim * 2 ≤ usize_max →
  Forall (turn_fits (max_packet_payload lim)) xs → answered lim xs t t' →
  linked far (bytes_of (half_traffic client_half xs)) [] →
  (length (bytes_of (half_traffic client_half xs)) < fuel)%nat →
  let w := serve_one_with_limits fuel t far lim in
  w.1 = Ok tt ∧ w.2.2 = t'
  ∧ ∃ i, linked (gs_transport w.2.1) i (bytes_of (half_traffic server_half xs)).
Proof.
  intros Hpos Hmax Hfit Hans Hl Hf w.
  pose proof (half_traffic_ok _ client_half xs Hpos Hmax ltac:(by left) Hfit) as Hok.
  destruct (serve_run lim fuel (half_traffic client_half xs) (with_limits far lim) t [])
    as (Hr & Ht & Hi); [done|by split|done|].
  rewrite <-(app_nil_r (_.*2)), (answered_protocol lim xs t t' []) in Hr, Ht, Hi by done.
  cbn [emit fst snd protocol_run] in Hr, Ht, Hi. by rewrite app_nil_r in Hi.
Qed.

Section session.
Context {T : Type} {good : T → Prop} `{LawfulTarget T good} (lim : ProtocolLimits).
Context (Hmin : 36 ≤ max_packet_payload lim) (Hmax : max_packet_payload lim * 2 ≤ usize_max).
Implicit Types t : T.

Lemma op_request_fits op :
  op_typed op → op_allowed lim op = true → zlen (op_request op) ≤ max_packet_payload lim.
Proof using Hmin.
  intros Hty Hok. destruct op as [addr len|addr data| |raw| | |addr kind|addr kind];
    cbn [op_typed op_allowed op_request] in *.
  2: { by apply andb_prop in Hok as [_ ?%Z.leb_le]. }
  3: { apply Z.leb_le in Hok. pose proof (hex_encode_even raw). unfold zlen in *.
       rewrite length_app. simpl length. lia. }
  1,5,6: destruct Hty as [Ha Hl]; apply format_x_length in Ha, Hl; unfold zlen in *;
    rewrite !length_app; simpl length; lia.
  all: unfold zlen; simpl; lia.
Qed.

Lemma turns_fit ops t :
  Forall op_typed ops → good t → Forall (turn_fits (max_packet_payload lim)) (turns lim ops t).
Proof using H0 Hmin Hmax.
  intros Hops. revert t. induction Hops as [|op ops Hty Hops IH]; intros t Hg; simpl; [constructor|].
  destruct (op_allowed lim op) eqn:Hok; [|by apply IH].
  destruct (op_answers lim op t) as (reply & t' & -> & _ & Hr & Hg'); [done..|].
  constructor; [|by apply IH]. split; [by apply op_request_fits|done].
Qed.

(** The server's half. *)
Lemma turns_answered ops t :
  Forall op_typed ops → good t → answered lim (turns lim ops t) t (drive_all lim ops t).2.
Proof using H0 Hmin Hmax.
  intros Hops. revert t. induction Hops as [|op ops Hty Hops IH]; intros t Hg; [constructor|].
  cbn [turns drive_all]. destruct (op_allowed lim op) eqn:Hok.
  2: { unfold drive. rewrite Hok. cbn [negb]. specialize (IH t Hg). by destruct (drive_all lim ops t). }
  destruct (op_answers lim op t) as (reply & t' & Hd & Hv & Hr & Hg'); [done..|].
  rewrite Hd, Hv. specialize (IH t' Hg'). destruct (drive_all lim ops t') as [vs t2].
  by apply answered_cons with t'.
Qed.

(** The client's half, after the turns [before] with the server of [t0]. *)
Context {Tr : Type} `{Transport Tr} (t0 : T) `{!Duplex Tr (served lim t0)} `{!Clock Tr}.
Context {start budget : Z} `{!Punctual Tr start budget} (Hbudget : 0 ≤ budget).
Implicit Types c : GdbRemoteClient Tr.

Definition client_after c (before : list (list Z * list Z)) : Prop :=
  client_at (budget:=budget) lim c [] (bytes_of (half_traffic client_half before)).

(** One transaction: the server has answered when the client reads. *)
Lemma turn_client_until d c fuel before request reply t t' :
  start + budget ≤ d → answered lim before t0 t → dispatch request lim t = (Ok (Reply reply), t') →
  Forall (turn_fits (max_packet_payload lim)) (before ++ [(request, reply)]) → client_after c before →
  (length (bytes_of (half_traffic server_half [(request, reply)])) < fuel)%nat →
  ∃ c', transact_until fuel request d c = (Ok reply, c') ∧ client_after c' (before ++ [(request, reply)]).
Proof using Hmin Hmax Punctual0.
  intros Hd Hans Hdis Hfit Hc Hf. pose proof Hfit as [Hfb Hfx]%Forall_app.
  pose proof Hfx as [Hq Hr]%Forall_singleton. simpl in Hq, Hr.
  pose proof (half_traffic_ok (max_packet_payload lim) server_half _ ltac:(lia) Hmax ltac:(by right) Hfx) as Hok.
  pose proof (answered_snoc lim before request reply t0 t t' Hans Hdis Hr) as Hans'.
  destruct (transact_until_run lim d Hd (half_traffic server_half [(request, reply)]) c []
    (bytes_of (half_traffic client_half before)) fuel request [sent (SendPacket reply)] reply []
    (bytes_of (half_traffic server_half [(request, reply)])) []) as (c2 & Ht & Hc2); [done|done| |done..| |].
  - rewrite (served_turns lim ltac:(lia) Hmax before t0 t) by done.
    by apply (served_request lim ltac:(lia) Hmax before request reply t0 t t').
  - rewrite app_nil_r, (served_request lim ltac:(lia) Hmax before request reply t0 t t') by done.
    rewrite <-half_bytes_app, <-(served_turns lim ltac:(lia) Hmax _ t0 t') by done.
    f_equal. rewrite half_bytes_app, <-(assoc_L (++)). done.
  - exists c2. split; [done|]. unfold client_after. rewrite half_bytes_app. by rewrite <-(assoc_L (++)) in Hc2.
Qed.

Lemma turn_client c fuel before request reply t t' :
  answered lim before t0 t → dispatch request lim t = (Ok (Reply reply), t') →
  Forall (turn_fits (max_packet_payload lim)) (before ++ [(request, reply)]) → client_after c before →
  (length (bytes_of (half_traffic server_half [(request, reply)])) < fuel)%nat →
  ∃ c', transact fuel request c = (Ok reply, c') ∧ client_after c' (before ++ [(request, reply)]).
Proof using Hmin Hmax Hbudget Punctual0.
  intros Hans Hdis Hfit Hc Hf. destruct (new_deadline_run lim c _ _ Hbudget Hc) as (d & c1 & Hn & Hc1 & Hd).
  destruct (turn_client_until d c1 fuel before request reply t t') as (c2 & Ht & Hc2); [done..|].
  exists c2. unfold transact, sbind. by rewrite Hn.
Qed.

Lemma session_client ops t c before fuel :
  Forall op_typed ops → good t → answered lim before t0 t →
  Forall (turn_fits (max_packet_payload lim)) before → client_after c before →
  (length (bytes_of (half_traffic server_half (turns lim ops t))) < fuel)%nat →
  ∃ rs c', client_session fuel ops c = (rs, c') ∧ Forall no_panic rs
        ∧ ok_value <$> rs = (drive_all lim ops t).1 ∧ client_after c' (before ++ turns lim ops t).
Proof using H0 Hmin Hmax Hbudget Punctual0.
  intros Hops. revert t c before. induction Hops as [|op ops Hty Hops IH]; intros t c before Hg Hans Hfit Hc Hf.
  { exists [], c. by rewrite app_nil_r. }
  cbn [turns drive_all client_session] in *. destruct (op_allowed lim op) eqn:Hok.
  - rewrite (client_run_allowed lim) by (done || apply Hc).
    destruct (op_answers lim op t) as (reply & t' & Hd & Hv & Hr & Hg'); [done..|].
    rewrite Hd, Hv in *. pose proof (op_request_fits op Hty Hok) as Hq.
    change ((op_request op, reply) :: turns lim ops t')
      with ([(op_request op, reply)] ++ turns lim ops t') in *.
    rewrite half_bytes_app, length_app in Hf. rewrite (assoc_L (++)).
    assert (Forall (turn_fits (max_packet_payload lim)) (before ++ [(op_request op, reply)])) as Hfit'.
    { apply Forall_app. split; [done|]. by apply Forall_singleton. }
    destruct (turn_client c fuel before (op_request op) reply t t') as (c1 & Ht & Hc1); [done..|lia|].
    unfold sbind. rewrite Ht. cbn [slift].
    destruct (IH t' c1 _ Hg' (answered_snoc _ _ _ _ _ _ _ Hans Hd Hr) Hfit' Hc1) as (rs & c2 & Hs & Hn & Hrs & Hc2); [lia|].
    destruct (drive_all lim ops t') as [vs t2]. exists (op_decode op reply :: rs), c2. unfold slift.
    rewrite Hs, fmap_cons, Hrs. split_and!; [done| |done..]. constructor; [apply op_decode_no_panic|done].
  - destruct (client_run_refused lim fuel op c) as [e ->]; [done|apply Hc|done|].
    unfold drive. rewrite Hok. cbn [negb].
    destruct (IH t c before Hg Hans Hfit Hc Hf) as (rs & c2 & -> & Hn & Hrs & Hc2).
    destruct (drive_all lim ops t). exists (Err e :: rs), c2. rewrite fmap_cons, Hrs.
    split_and!; [done| |done..]. by constructor.
Qed.
End session.

