(* ===== verification/GdbReplyTheory.v ===== *)
(** Theorems about the dispatcher of [GdbServer.v] on arbitrary packets: it
    always answers, and every answer fits the packet. *)

From S2P Require Import Prelude GdbPacket GdbPacketTheory GdbTransport GdbTarget GdbTargetLaws GdbServer.
From S2P Require Import GdbServerTheory GdbTextTheory GdbSessionTheory.
Import Rsp RspTransport RspTarget RspServer.
Open Scope Z_scope.

(** The fixed replies need 57 bytes. *)
Definition MIN_PAYLOAD : Z := 57.

Section replies.
Context {T : Type} {good : T → Prop} `{LawfulTarget T good}.
Implicit Types t : T.

(** The handler answers with at most [n] bytes and keeps the invariant. *)
Definition replies (n : Z) (h : smonad T Empty_set (list Z)) : Prop :=
  ∀ t, good t → ∃ reply t', h t = (Ok reply, t') ∧ zlen reply ≤ n ∧ good t'.

Lemma replies_ret n reply : zlen reply ≤ n → replies n (sret reply).
Proof. intros Hr t Ht. by exists reply, t. Qed.

Lemma replies_try n {A} (c : target_op T A) P (k : option A → smonad T Empty_set (list Z)) :
  promises good c P → replies n (k None) → (∀ a, P a → replies n (k (Some a))) →
  replies n (sbind (try c) k).
Proof.
  intros Hp Hn Hs t Ht. unfold sbind, try.
  destruct (promises_cases good c P t Hp Ht) as [(a & t' & -> & Ha & Hg)|(e & t' & -> & Hg)];
    [by apply Hs|by apply Hn].
Qed.

Lemma replies_get n {A} (f : T → A) (k : A → smonad T Empty_set (list Z)) :
  (∀ t, replies n (k (f t))) → replies n (sbind (sget f) k).
Proof. intros Hk t. apply (Hk t t). Qed.

Lemma replies_ok_or_error n (c : target_op T unit) :
  3 ≤ n → promises good c (λ _, True) → replies n (ok_or_error c).
Proof.
  intros Hn Hp. eapply replies_try; [done|..]; intros; apply replies_ret; unfold zlen; simpl; lia.
Qed.

Lemma replies_stop_for n r : 27 ≤ n → replies n (stop_reply_for r).
Proof.
  intros Hn t Ht. destruct (stop_reply_for_run r t Ht) as (reply & -> & Hl). eexists _, _.
  split; [done|]. split; [lia|]. by apply stop_reported.
Qed.

Lemma replies_resume n (c : target_op T StopReply) :
  27 ≤ n → promises good c stop_typed → replies n (resume c).
Proof.
  intros Hn Hp. eapply replies_try; [done|apply replies_ret; unfold zlen; simpl; lia|].
  intros r _. by apply replies_stop_for.
Qed.

Context (lim : ProtocolLimits).
Context (Hmin : MIN_PAYLOAD ≤ max_packet_payload lim) (Htop : max_packet_payload lim ≤ usize_max).
Abbreviation fits := (replies (max_packet_payload lim)).

(** A reply whose length is plain. *)
Ltac fixed := apply replies_ret; unfold zlen, MIN_PAYLOAD in *; simpl; lia.

Lemma registers_fit raw t :
  register_packet_is_valid raw lim t = true → zlen (hex_encode raw) ≤ max_packet_payload lim.
Proof using Type.
  unfold register_packet_is_valid. rewrite hex_encode_even.
  destruct (Z.ltb_spec (max_packet_payload lim / 2) (zlen raw)); [done|]. intros _.
  pose proof (Z.mul_div_le (max_packet_payload lim) 2). lia.
Qed.

Lemma fits_read_registers : fits (handle_read_registers lim).
Proof using H0 Hmin.
  eapply replies_try; [apply lawful_read_registers|fixed|]. intros raw _.
  apply replies_get. intros t'. destruct (register_packet_is_valid raw lim t') eqn:Hv; [|fixed].
  apply replies_ret. by eapply registers_fit.
Qed.

Lemma fits_ok_or_error (c : target_op T unit) : promises good c (λ _, True) → fits (ok_or_error c).
Proof using Hmin. apply replies_ok_or_error. unfold MIN_PAYLOAD in *. lia. Qed.

Lemma fits_resume (c : target_op T StopReply) : promises good c stop_typed → fits (resume c).
Proof using H0 Hmin. apply replies_resume. unfold MIN_PAYLOAD in *. lia. Qed.

Lemma fits_write_registers rest : fits (handle_write_registers rest lim).
Proof using H0 Hmin.
  unfold handle_write_registers. destruct (hex_decode rest) as [raw|] eqn:Hraw; [|fixed].
  apply replies_get. intros t. destruct (register_packet_is_valid raw lim t); [|fixed].
  by apply fits_ok_or_error, lawful_write_registers, (hex_decode_typed rest).
Qed.

Lemma fits_read_memory rest : fits (handle_read_memory rest lim).
Proof using H0 Hmin Htop.
  unfold handle_read_memory. destruct (parse_addr_len rest) as [[addr len]|] eqn:Ha; [|fixed].
  apply parse_addr_len_typed in Ha as [Ha Hl].
  destruct (Z.ltb_spec (Z.min (max_memory_transfer lim) (max_packet_payload lim / 2)) len); [fixed|].
  pose proof (Z.mul_div_le (max_packet_payload lim) 2).
  eapply replies_try; [apply lawful_read; [done|]|fixed|].
  { unfold in_u64, usize_max, u64_max, isize_max in *. lia. }
  intros bytes _. destruct (Z.eqb_spec (zlen bytes) len); [|fixed].
  apply replies_ret. rewrite hex_encode_even. lia.
Qed.

Lemma fits_write_memory rest : fits (handle_write_memory rest lim).
Proof using H0 Hmin.
  unfold handle_write_memory. destruct (split_at_first 58 rest) as [[spec data]|]; [|fixed].
  destruct (parse_addr_len spec) as [[addr len]|] eqn:Ha, (hex_decode data) as [bytes|] eqn:Hb;
    try fixed. destruct (_ || _); [fixed|].
  apply fits_ok_or_error, lawful_write; [by apply parse_addr_len_typed in Ha as []|by eapply hex_decode_typed].
Qed.

Lemma fits_breakpoint rest set : fits (handle_breakpoint rest set).
Proof using H0 Hmin.
  unfold handle_breakpoint. destruct rest as [|bptype after_type]; [fixed|].
  destruct (split_at_first 44 _) as [[a third]|]; simpl.
  2: { destruct (parse_hex_u64 _); fixed. }
  destruct (parse_hex_u64 a) as [addr|]; [|fixed]. destruct (parse_hex_u64 third) as [n|]; [|fixed].
  repeat match goal with |- fits (if ?b then _ else _) => destruct b end; try fixed;
    apply fits_ok_or_error; destruct set; auto with rust.
Qed.

Lemma fits_target_description req : fits (handle_target_description req lim).
Proof using Hmin.
  unfold handle_target_description. destruct (strip_prefix _ req) as [spec|]; [|fixed].
  destruct (parse_addr_len spec) as [[offset requested]|]; [|fixed].
  apply replies_get. intros t. destruct (target_description t) as [d|]; [|fixed].
  destruct (Z.ltb_spec (zlen (td_xml d)) offset); [fixed|]. cbv zeta. apply replies_ret.
  assert (∀ (b : bool) (k : nat) l, Z.of_nat k ≤ Z.max 0 (max_packet_payload lim - 1) →
    zlen ((if b then str "m" else str "l") ++ take k l) ≤ max_packet_payload lim) as Hk.
  { intros b k l Hk. unfold zlen, MIN_PAYLOAD in *. rewrite length_app, length_take.
    destruct b; simpl; lia. }
  apply Hk. lia.
Qed.

Lemma thread_list_fits limit ids first out r :
  zlen out ≤ limit → thread_list limit first out ids = Some r → zlen r ≤ limit.
Proof using Type.
  revert first out. induction ids as [|id ids IH]; intros first out Hout Hr; simpl in Hr; [by simplify_eq|].
  destruct (Z.ltb_spec limit (zlen out + zlen (if first then [] else str ",") + zlen (format_x id)));
    [done|]. eapply IH; [|done]. unfold zlen in *. rewrite !length_app. lia.
Qed.

Lemma fits_query rest : fits (handle_query rest lim).
Proof using H0 Hmin Htop.
  unfold handle_query. destruct (starts_with (str "Supported") rest).
  { apply replies_get. intros t. apply replies_ret. unfold MIN_PAYLOAD in *.
    pose proof (format_x_length (max_packet_payload lim)) as Hx.
    destruct Hx; [unfold in_u64, usize_max in *; lia|].
    unfold zlen in *. rewrite !length_app. destruct (target_description t); simpl length; lia. }
  destruct (strip_prefix _ rest) as [req|]; [apply fits_target_description|].
  destruct (starts_with _ rest); [fixed|]. case_bool_decide.
  { eapply replies_try; [apply lawful_current|fixed|]. intros tid Ht%format_x_length.
    apply replies_ret. unfold zlen, MIN_PAYLOAD in *. rewrite length_app. simpl length. lia. }
  case_bool_decide; [|case_bool_decide; fixed].
  eapply replies_try; [apply lawful_threads|fixed|]. intros [|id ids] _; [fixed|].
  destruct (thread_list _ true (str "m") (id :: ids)) as [r|] eqn:Hr; [|fixed].
  apply replies_ret. eapply thread_list_fits; [|exact Hr]. unfold zlen, MIN_PAYLOAD in *. simpl. lia.
Qed.

Lemma fits_set_thread rest : fits (handle_set_thread rest).
Proof using H0 Hmin.
  unfold handle_set_thread. destruct rest as [|b id]; [fixed|].
  destruct (parse_thread_id id) as [tid|]; [|fixed]. destruct (tid =? 0); [fixed|].
  apply fits_ok_or_error, lawful_select.
Qed.

Lemma fits_is_thread_alive rest : fits (handle_is_thread_alive rest).
Proof using H0 Hmin.
  unfold handle_is_thread_alive. destruct (parse_thread_id rest) as [tid|]; [|fixed].
  eapply replies_try; [apply lawful_threads|fixed|]. intros ids _. case_bool_decide; fixed.
Qed.

Lemma fits_v_packet rest : fits (handle_v_packet rest).
Proof using H0 Hmin.
  unfold handle_v_packet. case_bool_decide; [fixed|].
  destruct (strip_prefix _ rest) as [actions|]; [|fixed]. unfold handle_actions. cbv zeta.
  match goal with |- fits (sbind ?sel ?k) => set (rest' := k); assert (fits (rest' tt)) as Hk end.
  { subst rest'. cbv beta. destruct (head _) as [letter|]; [|fixed].
    destruct (_ || _); [apply fits_resume, lawful_cont|].
    destruct (_ || _); [apply fits_resume, lawful_step|fixed]. }
  destruct (match split_at_first 58 _ with Some _ => _ | None => _ end) as [tid|]; [|apply Hk].
  intros t Ht. unfold sbind, try, sret.
  destruct (promises_cases good _ _ t (lawful_select tid) Ht) as [(u & t' & -> & _ & Hg)|(e & t' & -> & Hg)];
    by apply Hk.
Qed.

(** The disposition of any packet. *)
Definition disposition_fits (d : Disposition) : Prop :=
  match d with
  | Reply reply | Detach reply => zlen reply ≤ max_packet_payload lim
  | Kill => True
  end.

Lemma reply_with_fits h t :
  fits h → good t → ∃ d t', reply_with h t = (Ok d, t') ∧ disposition_fits d ∧ good t'.
Proof using Type.
  intros Hh Ht. destruct (Hh t Ht) as (reply & t' & Hr & Hl & Hg). exists (Reply reply), t'.
  unfold reply_with, sbind. by rewrite Hr.
Qed.

Lemma dispatch_fits payload t :
  good t → ∃ d t', dispatch payload lim t = (Ok d, t') ∧ disposition_fits d ∧ good t'.
Proof using H0 Hmin Htop.
  intros Ht.
  assert (∀ n, n ≤ 3 → n ≤ max_packet_payload lim) as Hs by (unfold MIN_PAYLOAD in *; lia).
  unfold dispatch. destruct payload as [|first rest].
  { eexists _, t. split; [done|]. split; [|done]. apply Hs. unfold zlen. simpl. lia. }
  repeat match goal with |- context [if first =? ?n then _ else _] => destruct (first =? n) end;
    try (apply reply_with_fits; [|done]).
  all: try (eexists _, t; split; [done|]; split; [|done]; first [done|apply Hs; unfold zlen; simpl; lia]).
  - intros t' Ht'. unfold sbind, ask. destruct (lawful_stop_reason t' Ht') as [_ Hg].
    destruct (stop_reason t') as [r t1]. apply replies_stop_for; [unfold MIN_PAYLOAD in *; lia|done].
  - apply fits_read_registers.
  - apply fits_write_registers.
  - apply fits_read_memory.
  - apply fits_write_memory.
  - apply fits_resume, lawful_cont.
  - apply fits_resume, lawful_step.
  - apply fits_breakpoint.
  - apply fits_breakpoint.
  - apply fits_query.
  - apply fits_set_thread.
  - apply fits_is_thread_alive.
  - apply fits_v_packet.
Qed.
End replies.

(** ** The server on arbitrary bytes *)

Section survival.
Context {Tr T : Type} `{Pipe Tr} {good : T → Prop} `{LawfulTarget T good} (lim : ProtocolLimits).
Implicit Types s : GdbStubServer Tr.

(** A server whose channel still delivers [n] bytes. *)
Definition fed (n : nat) s : Prop :=
  gs_limits s = lim ∧ ∃ i o, linked (gs_transport s) i o ∧ length i = n.

Lemma fed_send n s data :
  fed n s → ∃ s', on_transport (send_bytes data) s = (Ok tt, s') ∧ fed n s'.
Proof using Type.
  intros (Hl & i & o & Hlink & Hn). destruct (send_bytes_run _ data _ _ Hlink) as (t' & Hs & Hl').
  unfold on_transport. rewrite Hs. eexists. split; [done|]. split; [done|]. by eexists _, _.
Qed.

Lemma fed_read n s :
  fed n s → ∃ b s', read_or_eof s = (Ok b, s')
    ∧ match b with Some _ => ∃ n', n = S n' ∧ fed n' s' | None => fed n s' end.
Proof using Type.
  intros (Hl & i & o & Hlink & <-). unfold read_or_eof, on_transport. destruct i as [|b i].
  - destruct (pipe_eof _ _ Hlink) as (e & t' & -> & Hk & Hl'). rewrite bool_decide_eq_true_2 by done.
    eexists None, _. split; [done|]. split; [done|]. by eexists _, _.
  - destruct (pipe_read _ _ _ _ Hlink) as (t' & -> & Hl'). eexists (Some b), _. split; [done|].
    eexists. split; [done|]. split; [done|]. by eexists _, _.
Qed.

Lemma fed_push n s b : fed n s → ∃ e s', push_byte b s = (Ok e, s') ∧ fed n s'.
Proof using Type.
  intros Hs. unfold push_byte. destruct (push b (gs_reader s)) as [e r]. by eexists _, _.
Qed.

(** A byte loop ends, on some answer or on the end of the input. *)
Lemma next_packet_ends n s fuel :
  fed n s → (n < fuel)%nat →
  ∃ p s', next_packet fuel s = (Ok p, s')
    ∧ ∃ n', fed n' s' ∧ match p with Some _ => (n' < n)%nat | None => (n' ≤ n)%nat end.
Proof using Type.
  revert n s. induction fuel as [|fuel IH]; intros n s Hs Hf; [lia|]. cbn [next_packet].
  destruct (fed_read n s Hs) as (b & s1 & Hr & Hb). unfold sbind at 1. rewrite Hr.
  destruct b as [b|]; [|eexists _, _; split; [done|]; exists n; split; [done|lia]].
  destruct Hb as (n1 & -> & Hs1). destruct (fed_push n1 s1 b Hs1) as (e & s2 & Hp & Hs2).
  unfold sbind at 1. rewrite Hp.
  assert (∀ s3, fed n1 s3 → ∃ p s', next_packet fuel s3 = (Ok p, s')
    ∧ ∃ n', fed n' s' ∧ match p with Some _ => (n' < S n1)%nat | None => (n' ≤ S n1)%nat end) as Hgo.
  { intros s3 Hs3. destruct (IH n1 s3 Hs3) as (p & s' & -> & n' & Hs' & Hn'); [lia|].
    eexists _, _. split; [done|]. exists n'. split; [done|]. destruct p; lia. }
  destruct e as [[| | |payload []]|]; try (by apply Hgo).
  all: unfold sbind; destruct (fed_send n1 s2 (str "+") Hs2) as (s3 & Hw & Hs3).
  - rewrite Hw. eexists _, _. split; [done|]. exists n1. split; [done|lia].
  - destruct (fed_send n1 s2 (str "-") Hs2) as (s4 & -> & Hs4). by apply Hgo.
Qed.

Lemma await_ack_ends n s fuel :
  fed n s → (n < fuel)%nat →
  ∃ a s', await_ack fuel s = (Ok a, s') ∧ ∃ n', fed n' s' ∧ (n' ≤ n)%nat.
Proof using Type.
  revert n s. induction fuel as [|fuel IH]; intros n s Hs Hf; [lia|]. cbn [await_ack].
  destruct (fed_read n s Hs) as (b & s1 & Hr & Hb). unfold sbind at 1. rewrite Hr.
  destruct b as [b|]; [|eexists _, _; split; [done|]; exists n; split; [done|lia]].
  destruct Hb as (n1 & -> & Hs1). destruct (fed_push n1 s1 b Hs1) as (e & s2 & Hp & Hs2).
  unfold sbind at 1. rewrite Hp.
  assert (∃ a s', await_ack fuel s2 = (Ok a, s') ∧ ∃ n', fed n' s' ∧ (n' ≤ S n1)%nat) as Hgo.
  { destruct (IH n1 s2 Hs2) as (a & s' & -> & n' & Hs' & Hn'); [lia|].
    eexists _, _. split; [done|]. exists n'. split; [done|lia]. }
  destruct e as [[]|]; try done; (eexists _, _; split; [done|]; exists n1; split; [done|lia]).
Qed.

Lemma send_loop_ends n s fuel k packet :
  fed n s → (n < fuel)%nat →
  ∃ s', send_loop fuel k packet s = (Ok tt, s') ∧ ∃ n', fed n' s' ∧ (n' ≤ n)%nat.
Proof using Type.
  revert n s. induction k as [|k IH]; intros n s Hs Hf; cbn [send_loop]; unfold sbind.
  all: destruct (fed_send n s packet Hs) as (s1 & -> & Hs1).
  all: destruct (await_ack_ends n s1 fuel Hs1 Hf) as (a & s2 & -> & n2 & Hs2 & Hn2).
  all: destruct a as [[]|]; try (eexists; split; [done|]; by exists n2).
  destruct (IH n2 s2 Hs2) as (s3 & -> & n3 & Hs3 & Hn3); [lia|]. eexists. split; [done|]. exists n3.
  split; [done|lia].
Qed.

Context (Hmin : MIN_PAYLOAD ≤ max_packet_payload lim) (Htop : max_packet_payload lim ≤ usize_max).

Lemma send_packet_ends n s fuel reply :
  fed n s → (n < fuel)%nat → zlen reply ≤ max_packet_payload lim →
  ∃ s', send_packet fuel reply s = (Ok tt, s') ∧ ∃ n', fed n' s' ∧ (n' ≤ n)%nat.
Proof using Type.
  intros Hs Hf Hr. unfold send_packet, sbind, sread. rewrite (proj1 Hs), (proj2 (Z.ltb_ge _ _)) by done.
  cbn [fail_if]. by apply send_loop_ends.
Qed.

Lemma serve_ends n s (t : T) fuel :
  fed n s → good t → (n < fuel)%nat →
  ∃ w, serve fuel (s, t) = (Ok tt, w) ∧ good w.2.
Proof using H2 Hmin Htop.
  revert n s t. induction fuel as [|fuel IH]; intros n s t Hs Ht Hf; [lia|]. cbn [serve].
  destruct (next_packet_ends n s (S fuel) Hs Hf) as (p & s1 & Hp & n1 & Hs1 & Hn1).
  unfold sbind at 1, on_server at 1. cbn [fst snd]. rewrite Hp. destruct p as [p|]; [|by eexists].
  unfold sbind at 1, sget at 1. cbn [fst snd]. rewrite (proj1 Hs1).
  destruct (dispatch_fits lim Hmin Htop p t Ht) as (d & t' & Hd & Hfit & Hg).
  unfold sbind at 1, on_target at 1. cbn [fst snd]. rewrite Hd.
  destruct d as [reply|reply|]; [| |by eexists]; unfold sbind, on_server; cbn [fst snd];
    (destruct (send_packet_ends n1 s1 (S fuel) reply Hs1) as (s2 & -> & n2 & Hs2 & Hn2); [lia|done|]).
  - apply (IH n2); [done|done|lia].
  - by eexists.
Qed.
End survival.

