(* ===== verification/GdbDescriptionTheory.v ===== *)
(** Theorems about the transfer of a target description: against any stub the
    client's chunk loop is bounded, and against the server of [GdbServer.v] it
    fetches exactly the description. *)

From S2P Require Import Prelude Utf8 GdbPacket GdbPacketTheory GdbTransport GdbTarget GdbServer.
From S2P Require Import GdbServerTheory GdbTextTheory GdbClient GdbClientTheory GdbSessionTheory.
Import Rsp RspTransport RspTarget RspServer RspClient.
Open Scope Z_scope.

(** ** Any stub *)

Section hostile.
Context {Tr : Type} `{Transport Tr} `{!Clock Tr}.

(** The client's configuration is never written. *)
Abbreviation settled := (keeps (@gc_limits Tr)).

Lemma settled_transport {A} (op : io_op Tr A) : settled (client_on_transport op).
Proof. intros c. unfold client_on_transport. by destruct (op (gc_transport c)). Qed.
Lemma settled_push b : settled (client_push b).
Proof. intros c. unfold client_push. by destruct (push b (gc_reader c)). Qed.
Hint Resolve settled_transport settled_push : keeps.

Lemma settled_deadlined {A} (m : smonad (GdbRemoteClient Tr) IoError A) :
  settled m → settled (finish_deadlined m).
Proof.
  intros Hm c. unfold finish_deadlined. specialize (Hm c). destruct (m c) as [r c']. simpl in Hm.
  pose proof (settled_transport (set_io_timeout None) c') as Hc.
  destruct (client_on_transport (set_io_timeout None) c') as [clear c'']. simpl in Hc.
  destruct r, clear; simpl; congruence.
Qed.

Lemma settled_now : settled now.
Proof. apply settled_transport. Qed.
Hint Resolve settled_now : keeps.

Lemma settled_deadline : settled new_deadline.
Proof. unfold new_deadline. keeps. Qed.

Lemma settled_await fuel d : settled (await_ack_until fuel d).
Proof. induction fuel as [|fuel IH]; cbn [await_ack_until]; unfold out_of_fuel, read_until; keeps. Qed.
Hint Resolve settled_await : keeps.

Lemma settled_send_loop fuel k packet d : settled (client_send_loop fuel k packet d).
Proof. induction k as [|k IH]; cbn [client_send_loop]; unfold send_until; keeps. Qed.

Lemma settled_recv fuel d : settled (recv_packet_inner fuel d).
Proof.
  induction fuel as [|fuel IH]; cbn [recv_packet_inner]; unfold out_of_fuel, read_until, send_until; keeps.
Qed.
Hint Resolve settled_send_loop settled_recv : keeps.

Lemma settled_transact fuel payload d : settled (transact_until fuel payload d).
Proof. apply settled_deadlined. unfold send_packet_inner. keeps. Qed.

(** A chunk that asks for another one is not empty. *)
Lemma read_chunk_more reply size chunk :
  read_chunk reply size = Ok (false, chunk) → 1 ≤ zlen chunk.
Proof.
  unfold read_chunk. destruct (is_error_reply reply); [done|]. destruct reply as [|marker body]; [done|].
  cbn [fail_if result_bind].
  destruct (negb ((marker =? 109) || (marker =? 108)) || (size <? zlen body)) eqn:Hg; [done|].
  cbn [fail_if result_bind]. case_bool_decide as Hb.
  { rewrite andb_true_r. destruct (Z.eqb_spec marker 109) as [->|Hm]; [intros [=]|]. simpl.
    apply orb_false_elim in Hg as [Hg _].
    simpl in Hg. apply negb_false_iff in Hg. rewrite Hg. intros [=]. }
  rewrite andb_false_r. simpl. intros [= _ <-]. unfold zlen. destruct body; [done|simpl; lia].
Qed.

(** The part of the loop after the reply. *)
Lemma fetch_chunks_S fuel chunks size d offset xml c :
  fetch_chunks fuel (S chunks) size d offset xml c
  = (let! reply := transact_until fuel (description_request offset size) d in
     if bool_decide (reply = []) && (offset =? 0) then sret None
     else
       let! chunk := slift (read_chunk reply size) in
       let! new_len := slift (ok_or (checked_add usize_max (zlen xml) (zlen chunk.2))
                                (io_error InvalidData "target description size overflow")) in
       do! sread (λ s, fail_if (max_target_description (gc_limits s) <? new_len)
                         (io_error InvalidData
                            "target description exceeds configured aggregate limit")) in
       if (chunk.1 : bool) then sret (Some (xml ++ chunk.2))
       else fetch_chunks fuel chunks size d new_len (xml ++ chunk.2)) c.
Proof. done. Qed.

Ltac finish Heq :=
  eexists _, _; split; [intros n'; rewrite Heq; reflexivity|]; by split.

(** What one round does with its reply: it ends, or it goes on with more bytes
    that are still within the limit. *)
Lemma fetch_round fuel size d offset xml c :
  (∃ r c', (∀ n, fetch_chunks fuel (S n) size d offset xml c = (r, c'))
     ∧ gc_limits c' = gc_limits c
     ∧ ∀ x, r = Ok (Some x) → zlen x ≤ max_target_description (gc_limits c))
  ∨ (∃ xml' c', (∀ n, fetch_chunks fuel (S n) size d offset xml c
                      = fetch_chunks fuel n size d (zlen xml') xml' c')
     ∧ gc_limits c' = gc_limits c
     ∧ zlen xml < zlen xml' ≤ max_target_description (gc_limits c)).
Proof.
  pose proof (settled_transact fuel (description_request offset size) d c) as Hk.
  destruct (transact_until fuel (description_request offset size) d c) as [r c'] eqn:Ht. simpl in Hk.
  pose proof (λ n, fetch_chunks_S fuel n size d offset xml c) as Heq. revert Heq.
  unfold sbind, slift, sread. rewrite Ht.
  destruct r as [reply|e|msg]; [|intros Heq; left; finish Heq..].
  destruct (bool_decide (reply = []) && (offset =? 0)); [intros Heq; left; finish Heq|].
  destruct (read_chunk reply size) as [[last chunk]|e|msg] eqn:Hc;
    [|intros Heq; left; finish Heq..]. cbn [fst snd].
  destruct (checked_add usize_max (zlen xml) (zlen chunk)) as [n|] eqn:Hn;
    [|intros Heq; left; finish Heq].
  apply checked_add_some in Hn as [-> _]. cbn [ok_or]. rewrite Hk.
  assert (zlen (xml ++ chunk) = zlen xml + zlen chunk) as Hlen by (unfold zlen; rewrite length_app; lia).
  rewrite <-Hlen. destruct (Z.ltb_spec (max_target_description (gc_limits c)) (zlen (xml ++ chunk)));
    [intros Heq; left; finish Heq|]. cbn [fail_if]. destruct last; intros Heq.
  - left. eexists _, _. split; [done|]. split; [done|]. intros x [= <-]. done.
  - right. exists (xml ++ chunk), c'. split; [done|]. split; [done|]. apply read_chunk_more in Hc. lia.
Qed.

(** More rounds than the aggregate limit change nothing. *)
Lemma fetch_chunks_bounded fuel size d (n : nat) offset xml c :
  zlen xml ≤ max_target_description (gc_limits c) →
  max_target_description (gc_limits c) - zlen xml < Z.of_nat n →
  (∀ k, fetch_chunks fuel (n + k) size d offset xml c = fetch_chunks fuel n size d offset xml c)
  ∧ (∀ x, (fetch_chunks fuel n size d offset xml c).1 = Ok (Some x) →
     zlen x ≤ max_target_description (gc_limits c)).
Proof.
  revert offset xml c. induction n as [|n IH]; intros offset xml c Hx Hn; [lia|].
  destruct (fetch_round fuel size d offset xml c)
    as [(r & c' & Hr & _ & Hb)|(xml' & c' & Hr & Hc & Hgrow)].
  - split; [intros k; cbn [Nat.add]; by rewrite !Hr|]. intros x. rewrite Hr. apply Hb.
  - destruct (IH (zlen xml') xml' c') as [Hk Hb]; [rewrite Hc; lia..|]. rewrite Hc in Hb.
    split; [intros k; cbn [Nat.add]; by rewrite !Hr|]. intros x. rewrite Hr. apply Hb.
Qed.
End hostile.

(** ** The server *)

(** The reply to a request for [size] bytes at [offset]. *)
Definition chunk_reply (xml : list Z) (size offset : Z) : list Z :=
  let chunk_len := Z.min size (zlen xml - offset) in
  (if offset + chunk_len <? zlen xml then str "m" else str "l")
  ++ take (Z.to_nat chunk_len) (drop (Z.to_nat offset) xml).

(** The exchanges of a transfer from [offset] on. *)
Fixpoint transfer (xml : list Z) (size : Z) (rounds : nat) (offset : Z) : list (list Z * list Z) :=
  match rounds with
  | O => []
  | S rounds' =>
      (description_request offset size, chunk_reply xml size offset)
      :: if offset + size <? zlen xml then transfer xml size rounds' (offset + size) else []
  end.

(** The size the client asks for. *)
Definition chunk_size_of (lim : ProtocolLimits) : Z :=
  Z.min (Z.max 0 (max_packet_payload lim - 1)) 2048.

(** The longest request: its fixed part and two numbers. *)
Definition MIN_REQUEST : Z := 64.

Lemma description_request_fits offset size :
  in_u64 offset → in_u64 size → zlen (description_request offset size) ≤ MIN_REQUEST.
Proof.
  intros Ho Hs. apply format_x_length in Ho, Hs. unfold description_request, zlen, MIN_REQUEST in *.
  rewrite !length_app. simpl length. lia.
Qed.

Lemma chunk_reply_fits xml size offset :
  0 ≤ size → zlen (chunk_reply xml size offset) ≤ size + 1.
Proof.
  intros Hs. unfold chunk_reply, zlen. rewrite length_app, length_take. destruct (_ <? _); simpl; lia.
Qed.

Section replies.
Context {T : Type} `{RemoteTarget T} (lim : ProtocolLimits).
Implicit Types t : T.

Lemma dispatch_request t offset size :
  dispatch (description_request offset size) lim t
  = reply_with (handle_target_description
                  (str "target.xml:" ++ format_x offset ++ str "," ++ format_x size) lim) t.
Proof.
  assert (∀ l, dispatch (str "qXfer:features:read:target.xml:" ++ l) lim t
               = reply_with (handle_target_description (str "target.xml:" ++ l) lim) t) as Hd
    by reflexivity.
  apply Hd.
Qed.

Lemma dispatch_chunk t description offset size :
  target_description t = Some description →
  in_u64 offset → in_u64 size → size ≤ max_packet_payload lim - 1 →
  offset ≤ zlen (td_xml description) →
  dispatch (description_request offset size) lim t
  = (Ok (Reply (chunk_reply (td_xml description) size offset)), t).
Proof.
  intros Ht Ho Hs Hmax Hoff. rewrite dispatch_request. unfold reply_with, handle_target_description.
  rewrite strip_prefix_app, parse_addr_len_format by done. unfold sbind, sget, sret. rewrite Ht.
  rewrite (proj2 (Z.ltb_ge _ _)) by done. unfold chunk_reply, in_u64 in *.
  by replace (Z.min size (Z.max 0 (max_packet_payload lim - 1))) with size by lia.
Qed.

Lemma dispatch_no_description t offset size :
  target_description t = None → in_u64 offset → in_u64 size →
  dispatch (description_request offset size) lim t = (Ok (Reply []), t).
Proof.
  intros Ht Ho Hs. rewrite dispatch_request. unfold reply_with, handle_target_description.
  rewrite strip_prefix_app, parse_addr_len_format by done. unfold sbind, sget, sret. by rewrite Ht.
Qed.

Context (size : Z) (Hsize : 1 ≤ size ≤ max_packet_payload lim - 1).
Context (Hmin : MIN_REQUEST ≤ max_packet_payload lim) (Htop : max_packet_payload lim ≤ usize_max).

Lemma transfer_answered t description rounds offset :
  target_description t = Some description → 0 ≤ offset ≤ zlen (td_xml description) →
  zlen (td_xml description) ≤ usize_max →
  answered lim (transfer (td_xml description) size rounds offset) t t
  ∧ Forall (turn_fits (max_packet_payload lim)) (transfer (td_xml description) size rounds offset).
Proof using Hsize Hmin Htop.
  intros Ht Hoff Hx. revert offset Hoff. induction rounds as [|rounds IH]; intros offset Hoff; cbn [transfer].
  { by split; constructor. }
  pose proof (chunk_reply_fits (td_xml description) size offset).
  assert (in_u64 offset ∧ in_u64 size) as [Ho Hs] by (unfold in_u64, usize_max in *; lia).
  pose proof (description_request_fits offset size Ho Hs).
  assert (answered lim (if offset + size <? zlen (td_xml description)
                        then transfer (td_xml description) size rounds (offset + size) else []) t t
    ∧ Forall (turn_fits (max_packet_payload lim))
        (if offset + size <? zlen (td_xml description)
         then transfer (td_xml description) size rounds (offset + size) else [])) as [IH1 IH2].
  { destruct (Z.ltb_spec (offset + size) (zlen (td_xml description))); [apply IH; lia|].
    by split; constructor. }
  split.
  - apply answered_cons with t; [|lia|done]. apply dispatch_chunk; [done..|lia|lia].
  - constructor; [|done]. split; cbn [fst snd]; lia.
Qed.

(** The turns of a whole transfer, or the one that finds no description. *)
Lemma description_answered t rounds :
  let xml := from_option td_xml [] (target_description t) in
  let turns := match target_description t with
               | Some _ => transfer xml size rounds 0
               | None => [(description_request 0 size, [])]
               end in
  zlen xml ≤ usize_max →
  answered lim turns t t ∧ Forall (turn_fits (max_packet_payload lim)) turns.
Proof using Hsize Hmin Htop.
  intros xml turns Hx. subst turns xml. destruct (target_description t) as [d|] eqn:Hd; simpl in *.
  { apply transfer_answered; unfold zlen in *; done || lia. }
  assert (in_u64 0 ∧ in_u64 size) as [??] by (unfold in_u64, usize_max in *; lia).
  split; [apply answered_cons with t; [by apply dispatch_no_description|unfold zlen; simpl; lia|constructor]|].
  apply Forall_singleton. split; [|unfold zlen; simpl; lia]. simpl.
  pose proof (description_request_fits 0 size). by etrans; [eauto|].
Qed.
End replies.

(** ** Both *)

Section transferred.
Context (lim : ProtocolLimits) (size : Z) (xml : list Z).
Context (Hsize : 1 ≤ size ≤ max_packet_payload lim - 1).
Context (Hmin : MIN_REQUEST ≤ max_packet_payload lim) (Hmax : max_packet_payload lim * 2 ≤ usize_max).
Context (Hxml : zlen xml ≤ max_target_description lim) (Htop : zlen xml ≤ usize_max).

(** The client reads its chunk back. *)
Lemma read_chunk_reply offset :
  0 ≤ offset ≤ zlen xml →
  read_chunk (chunk_reply xml size offset) size
  = Ok (negb (offset + size <? zlen xml), take (Z.to_nat size) (drop (Z.to_nat offset) xml)).
Proof using Hsize.
  intros Hoff. unfold chunk_reply.
  assert (take (Z.to_nat (Z.min size (zlen xml - offset))) (drop (Z.to_nat offset) xml)
          = take (Z.to_nat size) (drop (Z.to_nat offset) xml)) as ->.
  { destruct (Z.le_ge_cases size (zlen xml - offset)); [by rewrite Z.min_l|].
    rewrite Z.min_r by done. unfold zlen in *.
    by rewrite !take_ge by (rewrite length_drop; lia). }
  set (chunk := take (Z.to_nat size) (drop (Z.to_nat offset) xml)).
  assert (zlen chunk = Z.min size (zlen xml - offset)) as Hlen.
  { subst chunk. unfold zlen in *. rewrite length_take, length_drop. lia. }
  assert ((offset + Z.min size (zlen xml - offset) <? zlen xml) = (offset + size <? zlen xml)) as ->.
  { destruct (Z.ltb_spec (offset + size) (zlen xml)); rewrite ?Z.ltb_lt, ?Z.ltb_ge; lia. }
  assert (∀ (marker : Z), marker ≠ 69 → is_error_reply (marker :: chunk) = false) as He.
  { intros marker Hm. unfold is_error_reply. destruct chunk as [|? [|? []]]; try done.
    by rewrite (proj2 (Z.eqb_neq _ _)). }
  unfold read_chunk. destruct (Z.ltb_spec (offset + size) (zlen xml)) as [Hlt|Hge].
  - change (str "m" ++ chunk) with (109 :: chunk). rewrite He by done. cbn [fail_if result_bind].
    rewrite (proj2 (Z.ltb_ge _ _)) by lia. cbn. rewrite bool_decide_eq_false_2; [done|].
    intros Hc. rewrite Hc in Hlen. unfold zlen at 1 in Hlen. simpl in Hlen. lia.
  - change (str "l" ++ chunk) with (108 :: chunk). rewrite He by done. cbn [fail_if result_bind].
    rewrite (proj2 (Z.ltb_ge _ _)) by lia. done.
Qed.

Context {T : Type} `{RemoteTarget T} (target : T) (description : TargetDescription).
Context (Hdesc : target_description target = Some description) (Htext : td_xml description = xml).
Context {Tr : Type} `{Transport Tr} `{!Duplex Tr (served lim target)} `{!Clock Tr}.
Context {start budget : Z} `{!Punctual Tr start budget}.
Implicit Types c : GdbRemoteClient Tr.

(** One chunk, after the turns [before]. *)
Lemma fetch_chunk fuel d offset c before :
  start + budget ≤ d → 0 ≤ offset ≤ zlen xml → answered lim before target target →
  Forall (turn_fits (max_packet_payload lim))
    (before ++ [(description_request offset size, chunk_reply xml size offset)]) →
  client_after (budget:=budget) lim target c before →
  (length (bytes_of (half_traffic server_half
     [(description_request offset size, chunk_reply xml size offset)])) < fuel)%nat →
  answered lim (before ++ [(description_request offset size, chunk_reply xml size offset)]) target target
  ∧ ∃ c', transact_until fuel (description_request offset size) d c = (Ok (chunk_reply xml size offset), c')
      ∧ client_after (budget:=budget) lim target c'
          (before ++ [(description_request offset size, chunk_reply xml size offset)]).
Proof using Hsize Hmin Hmax Htop Hdesc Htext Punctual0.
  intros Hd Hoff Hans Hfit Hc Hf. pose proof (chunk_reply_fits xml size offset).
  assert (dispatch (description_request offset size) lim target
    = (Ok (Reply (chunk_reply xml size offset)), target)) as Hdis.
  { rewrite <-Htext in Htop, Hoff |- *. clear Hxml. apply dispatch_chunk; unfold in_u64, usize_max in *; done || lia. }
  split; [apply (answered_snoc lim before _ _ _ target); done || lia|].
  apply (turn_client_until lim ltac:(unfold MIN_REQUEST in *; lia) Hmax target d c fuel before _ _
    target target); done.
Qed.

Lemma fetch_transfer fuel d rounds offset c before :
  start + budget ≤ d → 0 ≤ offset ≤ zlen xml → zlen xml - offset < Z.of_nat rounds →
  answered lim before target target →
  Forall (turn_fits (max_packet_payload lim)) (before ++ transfer xml size rounds offset) →
  client_after (budget:=budget) lim target c before →
  (length (bytes_of (half_traffic server_half (transfer xml size rounds offset))) < fuel)%nat →
  ∃ c', fetch_chunks fuel rounds size d offset (take (Z.to_nat offset) xml) c = (Ok (Some xml), c')
        ∧ client_after (budget:=budget) lim target c' (before ++ transfer xml size rounds offset).
Proof using Hsize Hmin Hmax Hxml Htop Hdesc Htext Punctual0.
  intros Hd. revert offset c before. induction rounds as [|rounds IH]; intros offset c before Hoff Hr Hans Hfit Hc Hf; [lia|].
  rewrite fetch_chunks_S. cbn [transfer] in *.
  set (more := if offset + size <? zlen xml then transfer xml size rounds (offset + size) else []) in *.
  set (turn := (description_request offset size, chunk_reply xml size offset)) in *.
  change (turn :: more) with ([turn] ++ more) in *. rewrite (assoc_L (++)) in Hfit |- *.
  rewrite half_bytes_app, length_app in Hf. pose proof Hfit as [Hfit1 _]%Forall_app.
  destruct (fetch_chunk fuel d offset c before) as (Hans1 & c1 & Ht & Hc1); [done..|fold turn; lia|].
  fold turn in Hans1, Hc1. unfold sbind. rewrite Ht, bool_decide_eq_false_2.
  2: { unfold chunk_reply. cbv zeta. intros [Hn _]%app_eq_nil.
       by destruct (offset + Z.min size (zlen xml - offset) <? zlen xml). }
  cbn [andb]. unfold slift, sread. rewrite read_chunk_reply by done. cbn [fst snd].
  set (chunk := take (Z.to_nat size) (drop (Z.to_nat offset) xml)).
  assert (zlen (take (Z.to_nat offset) xml) + zlen chunk = Z.min (offset + size) (zlen xml)) as Hlen.
  { subst chunk. unfold zlen in *. rewrite !length_take, length_drop. lia. }
  unfold checked_add. rewrite Hlen, (proj2 (Z.leb_le _ _)) by lia. cbn [ok_or].
  rewrite (ca_lim _ _ _ _ Hc1), (proj2 (Z.ltb_ge _ _)) by lia. cbn [fail_if].
  assert (take (Z.to_nat offset) xml ++ chunk = take (Z.to_nat (offset + size)) xml) as Hx.
  { subst chunk. rewrite Z2Nat.inj_add by lia. by rewrite take_take_drop. }
  rewrite Hx. subst more.
  destruct (Z.ltb_spec (offset + size) (zlen xml)) as [Hlt|Hge]; cbn [negb].
  - rewrite Z.min_l by lia. apply IH; done || lia.
  - rewrite take_ge by (unfold zlen in *; lia). exists c1. by rewrite app_nil_r.
Qed.
End transferred.

(** ** Theorems *)

(** What the client makes of the bytes it fetched. *)
Definition described {D} (parse : list Z → result D IoError) (xml : list Z)
    : result (option D) IoError :=
  do? fail_if (negb (valid_utf8 xml))
        (io_error InvalidData "target description was not valid UTF-8") in
  let? description := parse xml in
  Ok (Some description).

(** The end of [read_target_description], once the chunks are fetched. *)
Lemma read_description_run {Tr D : Type} `{Transport Tr} `{!Clock Tr}
    (parse : list Z → result D IoError) fuel rounds (c c1 : GdbRemoteClient Tr) deadline :
  new_deadline c = (Ok deadline, c1) → 1 ≤ chunk_size_of (gc_limits c1) →
  read_target_description parse fuel rounds c
  = let (r, c2) := fetch_chunks fuel rounds (chunk_size_of (gc_limits c1)) deadline 0 [] c1 in
    match r with
    | Ok None => (Ok None, c2)
    | Ok (Some xml) => (described parse xml, c2)
    | Err e => (Err e, c2)
    | Panic msg => (Panic msg, c2)
    end.
Proof.
  intros Hd Hs. unfold read_target_description, sbind, sget, slift. rewrite Hd.
  fold (chunk_size_of (gc_limits c1)). rewrite (proj2 (Z.eqb_neq _ _)) by lia. cbn [fail_if].
  destruct (fetch_chunks fuel rounds _ deadline 0 [] c1) as [[[xml|]|e|msg] c2]; try done.
  unfold described. destruct (negb (valid_utf8 xml)); [done|]. cbn [fail_if result_bind].
  by destruct (parse xml).
Qed.

(** C38: no stub keeps the client fetching.  Whatever the remote side sends, over
    any transport and clock, the loop that fetches a target description runs at most one
    round more than the configured aggregate limit has bytes: further rounds change
    nothing of its result or of its effects; and a description it returns is the
    parse of well-formed UTF-8 text no longer than that limit. *)
Theorem description_fetch_bounded {Tr D : Type} `{Transport Tr} `{!Clock Tr}
    (parse : list Z → result D IoError) (fuel rounds : nat) (c : GdbRemoteClient Tr) :
  0 ≤ max_target_description (gc_limits c) < Z.of_nat rounds →
  (∀ more, read_target_description parse fuel (rounds + more) c
           = read_target_description parse fuel rounds c)
  ∧ (∀ description, (read_target_description parse fuel rounds c).1 = Ok (Some description) →
     ∃ xml, zlen xml ≤ max_target_description (gc_limits c) ∧ valid_utf8 xml = true
            ∧ parse xml = Ok description).
Proof.
  intros Hn. pose proof (settled_deadline c) as Hk.
  destruct (new_deadline c) as [[d|e|msg] c1] eqn:Hd; simpl in Hk.
  2,3: unfold read_target_description, sbind; rewrite Hd; by split.
  assert (chunk_size_of (gc_limits c1) = 0 ∨ 1 ≤ chunk_size_of (gc_limits c1)) as [Hz|Hs].
  { unfold chunk_size_of. lia. }
  { unfold read_target_description, sbind, sget, slift. rewrite Hd.
    fold (chunk_size_of (gc_limits c1)). rewrite Hz. by split. }
  destruct (fetch_chunks_bounded fuel (chunk_size_of (gc_limits c1)) d rounds 0 [] c1) as [Heq Hb].
  1,2: unfold zlen; simpl; rewrite Hk; lia.
  pose proof (λ n, read_description_run parse fuel n c c1 d Hd Hs) as Hr.
  set (size := chunk_size_of (gc_limits c1)) in *. rewrite Hk in Hb.
  split; [intros more; by rewrite !Hr, Heq|]. intros description. rewrite Hr.
  destruct (fetch_chunks fuel rounds _ d 0 [] c1) as [[[xml|]|e|msg] c2]; try done. simpl in *.
  unfold described. destruct (valid_utf8 xml) eqn:Hu; [|done]. cbn [negb fail_if result_bind].
  destruct (parse xml) eqn:Hp; [|done..]. intros [= <-]. exists xml. by split_and!; [apply Hb|..].
Qed.

(** C37: a target description arrives as it was sent.  A client that is joined to the
    server of a target, so that it can read only what the server has written in answer to
    what it has sent, fetches the description in chunks.  When the target has one within the
    client's limit, the client parses exactly its text (or refuses it for not being UTF-8);
    a target without a description gives [None].  The client never waits for bytes that do
    not come.  The server, given what the client sent over any reliable channel, ends
    normally with the target unchanged, having written what the client was answered.  The
    packet limit is at least 64 bytes, and the client's clock stays within the timeout. *)
Theorem description_transfer_exact {Tr Tr' T D : Type} `{RemoteTarget T}
    (lim : ProtocolLimits) (target : T) `{Transport Tr} `{!Duplex Tr (served lim target)} `{!Clock Tr}
    (start budget : Z) `{!Punctual Tr start budget} `{Pipe Tr'}
    (parse : list Z → result D IoError) (near : Tr) (far : Tr') (rounds fuel : nat) :
  let size := chunk_size_of lim in
  let xml := from_option td_xml [] (target_description target) in
  let turns := match target_description target with
               | Some _ => transfer xml size rounds 0
               | None => [(description_request 0 size, [])]
               end in
  let up := bytes_of (half_traffic client_half turns) in
  MIN_REQUEST ≤ max_packet_payload lim → max_packet_payload lim * 2 ≤ usize_max → 0 ≤ budget →
  zlen xml ≤ max_target_description lim → zlen xml ≤ usize_max → zlen xml < Z.of_nat rounds →
  joined near [] [] → linked far up [] →
  (length up < fuel)%nat → (length (served lim target up) < fuel)%nat →
  let client := with_operation_timeout budget (client_with_limits near lim) in
  let c := read_target_description parse fuel rounds client in
  let w := serve_one_with_limits fuel target far lim in
  c.1 = match target_description target with Some _ => described parse xml | None => Ok None end
  ∧ joined (gc_transport c.2) [] up
  ∧ w.1 = Ok tt ∧ w.2.2 = target ∧ ∃ i, linked (gs_transport w.2.1) i (served lim target up).
Proof.
  intros size xml turns up Hmin Hmax Hbu Hx Hu Hr Hnear Hfar Hfu Hfd client c w.
  assert (1 ≤ size ≤ max_packet_payload lim - 1) as Hs.
  { subst size. unfold chunk_size_of, MIN_REQUEST in *. lia. }
  assert (0 ≤ zlen xml ∧ 0 ≤ max_packet_payload lim ≤ usize_max) as [Hpos Hp].
  { unfold zlen, MIN_REQUEST in *. lia. }
  assert (answered lim turns target target ∧ Forall (turn_fits (max_packet_payload lim)) turns)
    as [Hans Hfit] by (apply description_answered; done || lia).
  unfold up in Hfd |- *. rewrite (served_turns lim (proj1 Hp) Hmax _ target _ Hfit Hans) in Hfd |- *.
  apply and_assoc. split; [|by apply answered_serve; [lia|..]].
  assert (client_at (budget:=budget) lim client [] []) as Hc by (by split).
  destruct (new_deadline_run lim client _ _ Hbu Hc) as (d & c1 & Hnd & Hc1 & Hd).
  pose proof (read_description_run parse fuel rounds client c1 d Hnd) as Hrun.
  rewrite (ca_lim _ _ _ _ Hc1) in Hrun. fold size in Hrun. unfold c. rewrite Hrun by lia. clear Hrun.
  subst turns xml up. destruct (target_description target) as [desc|] eqn:Hdesc; simpl from_option in *.
  - destruct (fetch_transfer lim size (td_xml desc) Hs Hmin Hmax Hx Hu target desc Hdesc eq_refl
      fuel d rounds 0 c1 []) as (c2 & Hf & Hc2); [done|lia|lia|apply answered_nil|done|done|done|].
    rewrite Z2Nat.inj_0, take_0 in Hf. rewrite Hf. split; [done|apply Hc2].
  - destruct (turn_client_until lim ltac:(unfold MIN_REQUEST in *; lia) Hmax target d c1 fuel []
      (description_request 0 size) [] target target) as (c2 & Ht & Hc2);
      [done|apply answered_nil| |done..|].
    { apply dispatch_no_description; unfold in_u64, usize_max in *; done || lia. }
    destruct rounds as [|rounds]; [lia|]. rewrite fetch_chunks_S. unfold sbind. rewrite Ht.
    split; [done|apply Hc2].
Qed.
