(* ===== verification/CoreDump.v ===== *)
(** The post-mortem target of [resymbol-gdb-remote/src/core_dump.rs]: the ELF
    core parser with its bounds, memory reads from the captured segments, and the
    read-only [RemoteTarget] over them. *)

From S2P Require Import Prelude GdbTarget.
Import RspTarget.
Open Scope Z_scope.

Module CoreDump.

Definition ELF_CLASS_32 : Z := 1.
Definition ELF_CLASS_64 : Z := 2.
Definition ELF_DATA_LITTLE_ENDIAN : Z := 1.
Definition ELF_DATA_BIG_ENDIAN : Z := 2.
Definition ELF_VERSION_CURRENT : Z := 1.
Definition ELF_TYPE_CORE : Z := 4.
Definition EM_X86_64 : Z := 62.
Definition ELF64_HEADER_SIZE : Z := 64.
Definition ELF32_HEADER_SIZE : Z := 52.
Definition ELF64_PROGRAM_HEADER_SIZE : Z := 56.
Definition ELF32_PROGRAM_HEADER_SIZE : Z := 32.
Definition PT_LOAD : Z := 1.
Definition PT_NOTE : Z := 4.
Definition NT_PRSTATUS : Z := 1.
Definition PRSTATUS_PR_CURSIG_OFFSET : Z := 12.
Definition PRSTATUS_PR_REG_OFFSET : Z := 112.
Definition USER_REGS_COUNT : Z := 27.
Definition USER_REGS_BYTES : Z := USER_REGS_COUNT * 8.
Definition GDB_SIGSEGV : Z := 11.
Definition MAX_PROGRAM_HEADERS : Z := 65536.
Definition MAX_NOTES : Z := 65536.
Definition MAX_NOTE_NAME_BYTES : Z := 4096.
Definition MAX_NOTE_DESC_BYTES : Z := 64 * 1024 * 1024.

Inductive CoreDumpError : Type :=
  | Truncated (context : string) (offset needed available : Z)
  | BadMagic
  | UnsupportedClass (value : Z)
  | UnsupportedEncoding (value : Z)
  | UnsupportedVersion (version : Z) (context : string)
  | NotCore (elf_type : Z)
  | InvalidField (field : string) (reason : list Z)
  | LimitExceeded (kind : string) (count limit : Z)
  | ArithmeticOverflow (what : string)
  | IntegerConversion (what : string)
  | NoRegisters
  | UnsupportedMachine (machine : Z)
  | UnmappedMemory (addr len : Z).

(** [{:#x}]. *)
Definition format_hash_x (n : Z) : list Z := str "0x" ++ format_x n.

(** The [Display] of an error. *)
Definition display_error (e : CoreDumpError) : list Z :=
  match e with
  | Truncated context offset needed available =>
      str "core dump truncated reading " ++ str context ++ str ": need " ++ format_d needed
      ++ str " bytes at offset " ++ format_d offset ++ str ", " ++ format_d available
      ++ str " available"
  | BadMagic => str "not an ELF file: the magic `\x7fELF` is missing"
  | UnsupportedClass value => str "unsupported ELF class byte " ++ format_hash_x value
  | UnsupportedEncoding value => str "unsupported ELF data encoding byte " ++ format_hash_x value
  | UnsupportedVersion version context =>
      str "unsupported ELF version " ++ format_d version ++ str " in " ++ str context
  | NotCore elf_type =>
      str "expected an ELF core dump (ET_CORE = 4), found e_type " ++ format_d elf_type
  | InvalidField field reason => str "invalid field " ++ str field ++ str ": " ++ reason
  | LimitExceeded kind count limit =>
      str "core dump exceeds the " ++ str kind ++ str " limit: " ++ format_d count ++ str " > "
      ++ format_d limit
  | ArithmeticOverflow what => str "arithmetic overflow computing " ++ str what
  | IntegerConversion what => str "value out of range converting " ++ str what
  | NoRegisters => str "core dump has no NT_PRSTATUS register note"
  | UnsupportedMachine machine =>
      str "register recovery is only supported for x86-64 cores (e_machine " ++ format_d machine
      ++ str ")"
  | UnmappedMemory addr len =>
      str "memory range " ++ format_hash_x addr ++ str "..+" ++ format_d len
      ++ str " is not backed by any core PT_LOAD segment"
  end.

Inductive CoreClass : Type := Elf32 | Elf64.

Definition class_from_ident (value : Z) : option CoreClass :=
  if value =? ELF_CLASS_32 then Some Elf32
  else if value =? ELF_CLASS_64 then Some Elf64
  else None.

Definition is_64 (class : CoreClass) : bool := match class with Elf64 => true | Elf32 => false end.

Definition header_size (class : CoreClass) : Z :=
  match class with Elf32 => ELF32_HEADER_SIZE | Elf64 => ELF64_HEADER_SIZE end.

Definition program_header_size (class : CoreClass) : Z :=
  match class with Elf32 => ELF32_PROGRAM_HEADER_SIZE | Elf64 => ELF64_PROGRAM_HEADER_SIZE end.

Inductive CoreEndian : Type := CoreLittle | CoreBig.

Definition endian_from_ident (value : Z) : option CoreEndian :=
  if value =? ELF_DATA_LITTLE_ENDIAN then Some CoreLittle
  else if value =? ELF_DATA_BIG_ENDIAN then Some CoreBig
  else None.

Record CoreRegion : Type := mkCoreRegion {
  rg_vaddr : Z;
  rg_file_offset : Z;
  rg_file_size : Z;
  rg_mem_size : Z;
  rg_flags : Z
}.

Record CoreDump : Type := mkCoreDump {
  cd_class : CoreClass;
  cd_endian : CoreEndian;
  cd_machine : Z;
  cd_regions : list CoreRegion;
  cd_registers : option Amd64CoreRegisters;
  cd_signal : Z;
  cd_bytes : list Z
}.

Abbreviation core_result A := (result A CoreDumpError).

(** ** Machine arithmetic *)

(** [T::try_from] into a type with maximum [top]. *)
Definition try_from (top n : Z) (what : string) : core_result Z :=
  if n <=? top then Ok n else Err (IntegerConversion what).

(** [from_le_bytes] or [from_be_bytes]. *)
Definition decode_uint (endian : CoreEndian) (bytes : list Z) : Z :=
  match endian with
  | CoreLittle => from_le_bytes bytes
  | CoreBig => from_le_bytes (reverse bytes)
  end.

Definition align4_u64 (value : Z) : core_result Z :=
  let? bumped := ok_or (checked_add u64_max value 3) (ArithmeticOverflow "note alignment") in
  Ok (Z.ldiff bumped 3).

Definition table_entry_offset (offset index entry_size : Z) : core_result Z :=
  let? relative := ok_or (checked_mul u64_max index entry_size)
                     (ArithmeticOverflow "program-header entry offset") in
  let? absolute := ok_or (checked_add u64_max offset relative)
                     (ArithmeticOverflow "program-header entry offset") in
  try_from usize_max absolute "program-header offset".

Definition validate_file_range (offset size file_size : Z) (field : string) : core_result unit :=
  do? fail_if (file_size <? offset)
        (InvalidField field (str "offset " ++ format_hash_x offset ++ str " exceeds file size "
                             ++ format_hash_x file_size)) in
  if size =? 0 then Ok tt
  else
    let? end_ := ok_or (checked_add u64_max offset size) (ArithmeticOverflow "file range") in
    fail_if (file_size <? end_)
      (InvalidField field (str "range " ++ format_hash_x offset ++ str ".." ++ format_hash_x end_
                           ++ str " exceeds file size " ++ format_hash_x file_size)).

Definition enforce_count (kind : string) (count limit : Z) : core_result unit :=
  if limit <? count then Err (LimitExceeded kind count limit) else Ok tt.

(** ** The reader *)

Record CoreReader : Type := mkCoreReader {
  cr_bytes : list Z;
  cr_class : CoreClass;
  cr_endian : CoreEndian
}.

Definition len_u64 (r : CoreReader) : core_result Z :=
  try_from u64_max (zlen (cr_bytes r)) "core input size".

Definition require (r : CoreReader) (offset needed : Z) (context : string) : core_result unit :=
  let? end_ := ok_or (checked_add usize_max offset needed) (ArithmeticOverflow "read range") in
  fail_if (zlen (cr_bytes r) <? end_)
    (Truncated context offset needed (Z.max 0 (zlen (cr_bytes r) - offset))).

Definition reader_bytes (r : CoreReader) (offset size : Z) (context : string)
    : core_result (list Z) :=
  do? require r offset size context in
  let? end_ := plain_add offset size in
  index_range offset end_ (cr_bytes r).

Definition reader_u16 (r : CoreReader) (offset : Z) (context : string) : core_result Z :=
  let? bytes := reader_bytes r offset 2 context in
  Ok (decode_uint (cr_endian r) bytes).

Definition reader_u32 (r : CoreReader) (offset : Z) (context : string) : core_result Z :=
  let? bytes := reader_bytes r offset 4 context in
  Ok (decode_uint (cr_endian r) bytes).

Definition reader_u64 (r : CoreReader) (offset : Z) (context : string) : core_result Z :=
  let? bytes := reader_bytes r offset 8 context in
  Ok (decode_uint (cr_endian r) bytes).

Record ProgramHeader : Type := mkProgramHeader {
  ph_segment_type : Z;
  ph_flags : Z;
  ph_file_offset : Z;
  ph_virtual_address : Z;
  ph_file_size : Z;
  ph_memory_size : Z
}.

(** The read of a field [delta] bytes into an entry. *)
Definition field_u32 (r : CoreReader) (entry_offset delta : Z) (context : string) : core_result Z :=
  let? offset := plain_add entry_offset delta in
  reader_u32 r offset context.

Definition field_u64 (r : CoreReader) (entry_offset delta : Z) (context : string) : core_result Z :=
  let? offset := plain_add entry_offset delta in
  reader_u64 r offset context.

Definition program_header (r : CoreReader) (entry_offset : Z) : core_result ProgramHeader :=
  if is_64 (cr_class r) then
    let? segment_type := reader_u32 r entry_offset "PT segment type" in
    let? flags := field_u32 r entry_offset 4 "PT segment flags" in
    let? file_offset := field_u64 r entry_offset 8 "PT segment file offset" in
    let? virtual_address := field_u64 r entry_offset 16 "PT segment virtual address" in
    let? file_size := field_u64 r entry_offset 32 "PT segment file size" in
    let? memory_size := field_u64 r entry_offset 40 "PT segment memory size" in
    Ok (mkProgramHeader segment_type flags file_offset virtual_address file_size memory_size)
  else
    let? segment_type := reader_u32 r entry_offset "PT segment type" in
    let? file_offset := field_u32 r entry_offset 4 "PT segment file offset" in
    let? virtual_address := field_u32 r entry_offset 8 "PT segment virtual address" in
    let? file_size := field_u32 r entry_offset 16 "PT segment file size" in
    let? memory_size := field_u32 r entry_offset 20 "PT segment memory size" in
    let? flags := field_u32 r entry_offset 24 "PT segment flags" in
    Ok (mkProgramHeader segment_type flags file_offset virtual_address file_size memory_size).

(** ** Notes *)

(** [notes_walked] and [prstatus_descriptor]. *)
Record NoteWalk : Type := mkNoteWalk { nw_walked : Z; nw_prstatus : option (list Z) }.

Abbreviation walk_op A := (smonad NoteWalk CoreDumpError A).

(** The sizes and the type of the note at [header_offset]. *)
Definition note_header (r : CoreReader) (header_offset : Z) : core_result (Z * Z * Z) :=
  let? namesz := reader_u32 r header_offset "note name size" in
  let? descsz := field_u32 r header_offset 4 "note descriptor size" in
  let? note_type := field_u32 r header_offset 8 "note type" in
  do? enforce_count "note name" namesz MAX_NOTE_NAME_BYTES in
  do? enforce_count "note descriptor" descsz MAX_NOTE_DESC_BYTES in
  Ok (namesz, descsz, note_type).

(** Where its descriptor starts and where the next note would, relative to the
    segment. *)
Definition note_extent (cursor namesz descsz : Z) : core_result (Z * Z) :=
  let? name_padded := align4_u64 namesz in
  let? desc_padded := align4_u64 descsz in
  let? name_padded := try_from usize_max name_padded "note name padding" in
  let? desc_padded := try_from usize_max desc_padded "note descriptor padding" in
  let? desc_start_rel :=
    ok_or (checked_add usize_max cursor 12 ≫= λ value, checked_add usize_max value name_padded)
      (ArithmeticOverflow "note descriptor offset") in
  let? next_rel := ok_or (checked_add usize_max desc_start_rel desc_padded)
                     (ArithmeticOverflow "note advance") in
  Ok (desc_start_rel, next_rel).

(** The first [NT_PRSTATUS] descriptor is kept. *)
Definition capture_prstatus (r : CoreReader) (segment_start desc_start_rel descsz note_type : Z)
    : walk_op unit :=
  let! taken := sget (λ w, bool_decide (is_Some (nw_prstatus w))) in
  if (note_type =? NT_PRSTATUS) && negb taken then
    let! desc_len := slift (try_from usize_max descsz "note descriptor size") in
    let! desc_abs := slift (ok_or (checked_add usize_max segment_start desc_start_rel)
                              (ArithmeticOverflow "note descriptor absolute offset")) in
    let! descriptor := slift (reader_bytes r desc_abs desc_len "NT_PRSTATUS descriptor") in
    supd (λ w, mkNoteWalk (nw_walked w) (Some descriptor))
  else sret tt.

Fixpoint walk_loop (fuel : nat) (r : CoreReader) (segment_start segment_len cursor : Z)
    : walk_op unit :=
  match fuel with
  | O => slift (Panic "the note loop does not end")
  | S fuel' =>
      let! first := slift (plain_add cursor 12) in
      if segment_len <? first then sret tt
      else
        let! walked := sread (λ w, plain_add (nw_walked w) 1) in
        do! supd (λ w, mkNoteWalk walked (nw_prstatus w)) in
        do! slift (enforce_count "note" walked MAX_NOTES) in
        let! header_offset := slift (ok_or (checked_add usize_max segment_start cursor)
                                       (ArithmeticOverflow "note header offset")) in
        let! header := slift (note_header r header_offset) in
        let '(namesz, descsz, note_type) := header in
        let! extent := slift (note_extent cursor namesz descsz) in
        if segment_len <? extent.2 then sret tt
        else
          do! capture_prstatus r segment_start extent.1 descsz note_type in
          walk_loop fuel' r segment_start segment_len extent.2
  end.

(** Every note advances the cursor, so one round per byte of the file is
    enough. *)
Definition walk_notes (r : CoreReader) (segment_offset segment_size : Z) : walk_op unit :=
  let! len := slift (len_u64 r) in
  do! slift (validate_file_range segment_offset segment_size len "PT_NOTE segment") in
  let! segment_start := slift (try_from usize_max segment_offset "PT_NOTE offset") in
  let! segment_len := slift (try_from usize_max segment_size "PT_NOTE size") in
  walk_loop (S (length (cr_bytes r))) r segment_start segment_len 0.

(** ** The register note *)

Definition prstatus_register (descriptor : list Z) (endian : CoreEndian) (index : Z)
    : core_result Z :=
  let? relative := ok_or (checked_mul usize_max index 8) (ArithmeticOverflow "pr_reg index") in
  let? offset := ok_or (checked_add usize_max PRSTATUS_PR_REG_OFFSET relative)
                   (ArithmeticOverflow "pr_reg offset") in
  let? end_ := plain_add offset 8 in
  let? array := index_range offset end_ descriptor in
  Ok (decode_uint endian array).

Fixpoint prstatus_loop (descriptor : list Z) (endian : CoreEndian) (slots : nat) (index : Z)
    : core_result (list Z) :=
  match slots with
  | O => Ok []
  | S slots' =>
      let? value := prstatus_register descriptor endian index in
      let? values := prstatus_loop descriptor endian slots' (index + 1) in
      Ok (value :: values)
  end.

(** [user_regs_struct] order. *)
Definition user_regs (regs : list Z) : core_result Amd64CoreRegisters :=
  match regs with
  | [r15; r14; r13; r12; rbp; rbx; r11; r10; r9; r8; rax; rcx; rdx; rsi; rdi; orig_rax; rip; cs;
     eflags; rsp; ss; fs_base; gs_base; ds; es; fs; gs] =>
      Ok (mkAmd64 r15 r14 r13 r12 rbp rbx r11 r10 r9 r8 rax rcx rdx rsi rdi orig_rax rip cs eflags
            rsp ss fs_base gs_base ds es fs gs)
  | _ => Panic "index out of bounds"
  end.

Definition parse_prstatus_registers (descriptor : list Z) (endian : CoreEndian)
    : core_result Amd64CoreRegisters :=
  let? reg_end := ok_or (checked_add usize_max PRSTATUS_PR_REG_OFFSET USER_REGS_BYTES)
                    (ArithmeticOverflow "pr_reg extent") in
  do? fail_if (zlen descriptor <? reg_end)
        (Truncated "NT_PRSTATUS pr_reg" PRSTATUS_PR_REG_OFFSET USER_REGS_BYTES
           (Z.max 0 (zlen descriptor - PRSTATUS_PR_REG_OFFSET))) in
  let? regs := prstatus_loop descriptor endian (Z.to_nat USER_REGS_COUNT) 0 in
  user_regs regs.

(** [i16::from_le_bytes] or [i16::from_be_bytes]. *)
Definition decode_i16 (endian : CoreEndian) (bytes : list Z) : Z :=
  let raw := decode_uint endian bytes in if raw <? 32768 then raw else raw - 65536.

Definition parse_prstatus_signal (descriptor : list Z) (endian : CoreEndian) : Z :=
  match slice_get PRSTATUS_PR_CURSIG_OFFSET (PRSTATUS_PR_CURSIG_OFFSET + 2) descriptor with
  | None => GDB_SIGSEGV
  | Some slice =>
      let raw := decode_i16 endian slice in
      if raw <=? 0 then GDB_SIGSEGV else Z.land raw 255
  end.

(** ** Parsing *)

(** The region of a [PT_LOAD] header; an empty mapping gives none. *)
Definition load_region (r : CoreReader) (index : Z) (header : ProgramHeader)
    : core_result (option CoreRegion) :=
  let? len := len_u64 r in
  do? validate_file_range (ph_file_offset header) (ph_file_size header) len "PT_LOAD segment" in
  do? fail_if (ph_memory_size header <? ph_file_size header)
        (InvalidField "PT_LOAD sizes"
           (str "program header " ++ format_d index ++ str " has file size "
            ++ format_hash_x (ph_file_size header) ++ str " larger than memory size "
            ++ format_hash_x (ph_memory_size header))) in
  Ok (if ph_memory_size header =? 0 then None
      else Some (mkCoreRegion (ph_virtual_address header) (ph_file_offset header)
                   (ph_file_size header) (ph_memory_size header) (ph_flags header))).

(** The loop over the program headers, with [left] of them to go. *)
Fixpoint header_loop (r : CoreReader) (offset entry_size : Z) (left : nat) (index : Z)
    (regions : list CoreRegion) : walk_op (list CoreRegion) :=
  match left with
  | O => sret regions
  | S left' =>
      let! entry_offset := slift (table_entry_offset offset index entry_size) in
      let! header := slift (program_header r entry_offset) in
      if ph_segment_type header =? PT_LOAD then
        let! region := slift (load_region r index header) in
        header_loop r offset entry_size left' (index + 1)
          (regions ++ match region with Some region => [region] | None => [] end)
      else if ph_segment_type header =? PT_NOTE then
        do! walk_notes r (ph_file_offset header) (ph_file_size header) in
        header_loop r offset entry_size left' (index + 1) regions
      else header_loop r offset entry_size left' (index + 1) regions
  end.

(** [sort_by_key] on the address, a stable sort. *)
Fixpoint insert_region (x : CoreRegion) (regions : list CoreRegion) : list CoreRegion :=
  match regions with
  | [] => [x]
  | y :: regions' =>
      if rg_vaddr y <=? rg_vaddr x then y :: insert_region x regions' else x :: y :: regions'
  end.

Definition sort_regions (regions : list CoreRegion) : list CoreRegion :=
  foldl (λ sorted x, insert_region x sorted) [] regions.

(** The identity bytes. *)
Definition check_identity (bytes : list Z) : core_result (CoreClass * CoreEndian) :=
  do? fail_if (zlen bytes <? 16) (Truncated "ELF identity" 0 16 (zlen bytes)) in
  do? fail_if (negb (bool_decide (take 4 bytes = 127 :: str "ELF"))) BadMagic in
  let byte i := nth i bytes 0 in
  let? class := ok_or (class_from_ident (byte 4%nat)) (UnsupportedClass (byte 4%nat)) in
  let? endian := ok_or (endian_from_ident (byte 5%nat)) (UnsupportedEncoding (byte 5%nat)) in
  do? fail_if (negb (byte 6%nat =? ELF_VERSION_CURRENT))
        (UnsupportedVersion (byte 6%nat) "identity") in
  Ok (class, endian).

(** The rest of the header: the machine, and where and how many the program
    headers are. *)
Definition check_header (r : CoreReader) : core_result (Z * Z * Z * Z) :=
  do? require r 0 (header_size (cr_class r)) "ELF header" in
  let? elf_type := reader_u16 r 16 "ELF type" in
  do? fail_if (negb (elf_type =? ELF_TYPE_CORE)) (NotCore elf_type) in
  let? machine := reader_u16 r 18 "ELF machine" in
  let? elf_version := reader_u32 r 20 "ELF version" in
  do? fail_if (negb (elf_version =? ELF_VERSION_CURRENT))
        (UnsupportedVersion elf_version "header") in
  let? offset := if is_64 (cr_class r) then reader_u64 r 32 "ELF program-header offset"
                 else reader_u32 r 28 "ELF program-header offset" in
  let phentsize_offset := if is_64 (cr_class r) then 54 else 42 in
  let? entry_size := reader_u16 r phentsize_offset "ELF program-header entry size" in
  let? count := reader_u16 r (phentsize_offset + 2) "ELF program-header count" in
  do? fail_if (negb (entry_size =? program_header_size (cr_class r)))
        (InvalidField "ELF program-header entry size"
           (str "expected " ++ format_d (program_header_size (cr_class r))
            ++ str " bytes for this class, found " ++ format_d entry_size)) in
  do? fail_if (count =? 0)
        (InvalidField "ELF program-header count"
           (str "a core dump must contain at least one program header")) in
  do? enforce_count "program header" count MAX_PROGRAM_HEADERS in
  Ok (machine, offset, entry_size, count).

(** The registers and the signal of the captured note. *)
Definition recover_thread (prstatus : option (list Z)) (machine : Z) (endian : CoreEndian)
    : core_result (option Amd64CoreRegisters * Z) :=
  match prstatus with
  | Some descriptor =>
      if machine =? EM_X86_64 then
        let? registers := parse_prstatus_registers descriptor endian in
        Ok (Some registers, parse_prstatus_signal descriptor endian)
      else Ok (None, GDB_SIGSEGV)
  | None => Ok (None, GDB_SIGSEGV)
  end.

Definition CoreDump_parse (bytes : list Z) : core_result CoreDump :=
  let? identity := check_identity bytes in
  let '(class, endian) := identity in
  let r := mkCoreReader bytes class endian in
  let? header := check_header r in
  let '(machine, offset, entry_size, count) := header in
  let '(regions, walk) := header_loop r offset entry_size (Z.to_nat count) 0 [] (mkNoteWalk 0 None) in
  let? regions := regions in
  let? thread := recover_thread (nw_prstatus walk) machine endian in
  Ok (mkCoreDump class endian machine (sort_regions regions) thread.1 thread.2 bytes).

(** ** Reading *)

Definition region_file_contains (region : CoreRegion) (addr : Z) : bool :=
  match checked_add u64_max (rg_vaddr region) (rg_file_size region) with
  | None => false
  | Some end_ => (rg_vaddr region <=? addr) && (addr <? end_)
  end.

(** The bytes from [cursor] to [end_] that one region holds, and where they
    end. *)
Definition read_chunk_at (core : CoreDump) (addr len end_ cursor : Z) : core_result (list Z * Z) :=
  let? region := ok_or (find (λ region, region_file_contains region cursor) (cd_regions core))
                   (UnmappedMemory addr len) in
  let? file_backed_end := ok_or (checked_add u64_max (rg_vaddr region) (rg_file_size region))
                            (ArithmeticOverflow "PT_LOAD file extent") in
  let chunk_end := Z.min end_ file_backed_end in
  let? offset_in_region := ok_or (checked_sub cursor (rg_vaddr region))
                             (ArithmeticOverflow "region offset") in
  let? file_position := ok_or (checked_add u64_max (rg_file_offset region) offset_in_region)
                          (ArithmeticOverflow "region file position") in
  let? chunk_len := ok_or (checked_sub chunk_end cursor) (ArithmeticOverflow "region chunk length") in
  let? start := try_from usize_max file_position "region file position" in
  let? count := try_from usize_max chunk_len "region chunk length" in
  let? slice_end := ok_or (checked_add usize_max start count)
                      (ArithmeticOverflow "region slice end") in
  let? slice := ok_or (slice_get start slice_end (cd_bytes core)) (UnmappedMemory addr len) in
  Ok (slice, chunk_end).

Fixpoint read_loop (fuel : nat) (core : CoreDump) (addr len end_ cursor : Z) (out : list Z)
    : core_result (list Z) :=
  if cursor <? end_ then
    match fuel with
    | O => Panic "the read loop does not end"
    | S fuel' =>
        let? chunk := read_chunk_at core addr len end_ cursor in
        read_loop fuel' core addr len end_ chunk.2 (out ++ chunk.1)
    end
  else Ok out.

(** A region is left for good once the cursor passes its end, so one round per
    region and one to fail are enough. *)
Definition CoreDump_read_memory (core : CoreDump) (addr len : Z) : core_result (list Z) :=
  if len =? 0 then Ok []
  else
    let? len_u64 := try_from u64_max len "memory read length" in
    let? end_ := ok_or (checked_add u64_max addr len_u64) (ArithmeticOverflow "memory read range") in
    if isize_max <? len then Panic "capacity overflow"
    else read_loop (S (length (cd_regions core))) core addr len end_ addr [].

Definition gpacket (core : CoreDump) : core_result (list Z) :=
  match cd_registers core with
  | Some registers => to_gpacket registers
  | None =>
      if cd_machine core =? EM_X86_64 then Err NoRegisters
      else Err (UnsupportedMachine (cd_machine core))
  end.

(** ** The target *)

Record CoreDumpTarget : Type := mkCoreDumpTarget { ct_core : CoreDump }.

Definition read_only (operation : string) : TargetError :=
  Execution (str "cannot " ++ str operation
             ++ str ": the target is a read-only core dump (post-mortem snapshot)").

Definition core_methods : RequiredMethods CoreDumpTarget := {|
  rm_description _ := None;
  rm_read_registers := sread (λ t, map_err (λ e, Register (display_error e)) (gpacket (ct_core t)));
  rm_write_registers _ :=
    serr (Register (str "cannot write registers: the target is a read-only core dump"));
  rm_read_memory addr len :=
    sread (λ t, map_err (λ e, Memory (display_error e)) (CoreDump_read_memory (ct_core t) addr len));
  rm_write_memory _ _ :=
    serr (Memory (str "cannot write memory: the target is a read-only core dump"));
  rm_cont := serr (read_only "continue");
  rm_step := serr (read_only "single-step");
  rm_set_sw_breakpoint _ :=
    serr (Breakpoint (str "cannot set a breakpoint: the target is a read-only core dump"));
  rm_remove_sw_breakpoint _ :=
    serr (Breakpoint (str "cannot remove a breakpoint: the target is a read-only core dump"));
  rm_stop_reason t := (Signal (cd_signal (ct_core t)), t)
|}.

#[export] Instance core_target : RemoteTarget CoreDumpTarget := with_defaults core_methods.

End CoreDump.
