(* ===== verification/CoreDumpTheory.v ===== *)
(** Theorems about the core files of [CoreDump.v]: the parser always answers and
    its result is well formed, and a memory read returns exactly the captured
    bytes. *)

From Stdlib Require Import Sorted.
From S2P Require Import Prelude GdbTarget GdbRegistersTheory CoreDump.
Import RspTarget CoreDump.
Open Scope Z_scope.

(** ** The reader *)

Lemma yields_ok_count kind count limit :
  yields_ok (enforce_count kind count limit) (λ _, count ≤ limit).
Proof. unfold enforce_count. by destruct (Z.ltb_spec limit count). Qed.

Lemma yields_ok_try_from top n what : yields_ok (try_from top n what) (λ m, m = n ∧ n ≤ top).
Proof. unfold try_from. by destruct (Z.leb_spec n top). Qed.

(** A bounded unsigned integer. *)
Abbreviation fits_bytes k := (λ v, 0 ≤ v < 256 ^ k).

Lemma decode_uint_bound endian bytes :
  Forall is_byte bytes → fits_bytes (zlen bytes) (decode_uint endian bytes).
Proof.
  intros Hb. destruct endian; simpl; [by apply from_le_bytes_bound|].
  replace (zlen bytes) with (zlen (reverse bytes)) by (unfold zlen; by rewrite length_reverse).
  by apply from_le_bytes_bound, Forall_reverse.
Qed.

Section reader.
Context (r : CoreReader) (Hfile : file_ok (cr_bytes r)).

Lemma require_ok offset needed context :
  yields_ok (require r offset needed context) (λ _, offset + needed ≤ zlen (cr_bytes r)).
Proof using Type.
  via (apply yields_ok_or) as n Hn.
  apply checked_add_some in Hn as [-> _]. eapply yields_ok_mono; [apply yields_ok_fail_if|].
  cbv beta. intros u Hf. by apply Z.ltb_ge in Hf.
Qed.

Lemma reader_bytes_ok offset size context :
  0 ≤ offset → 0 ≤ size →
  yields_ok (reader_bytes r offset size context)
    (λ s, zlen s = size ∧ Forall is_byte s ∧ offset + size ≤ zlen (cr_bytes r)).
Proof using Hfile.
  intros Ho Hs. destruct Hfile as [Hb Hlen]. unfold isize_max in Hlen.
  via (apply require_ok) as u Hr.
  via (apply yields_ok_add; unfold usize_max, u64_max; lia) as end_ ->.
  eapply yields_ok_mono; [apply index_range_slice; [lia..|done]|]. intros s [Hz Hf]. split_and!; [lia|done..].
Qed.

(** An integer of [k] bytes. *)
Lemma reader_uint_ok k offset context :
  0 ≤ offset → 0 ≤ k →
  yields_ok (let? bytes := reader_bytes r offset k context in Ok (decode_uint (cr_endian r) bytes))
    (λ v, fits_bytes k v ∧ offset + k ≤ zlen (cr_bytes r)).
Proof using Hfile.
  intros Ho Hk. via (by apply reader_bytes_ok) as s (Hz & Hb & Hl). simpl.
  split; [|done]. rewrite <-Hz. by apply decode_uint_bound.
Qed.

Lemma field_u32_ok entry delta context :
  0 ≤ entry → 0 ≤ delta ≤ 64 → entry ≤ zlen (cr_bytes r) →
  yields_ok (field_u32 r entry delta context)
    (λ v, fits_bytes 4 v ∧ entry + delta + 4 ≤ zlen (cr_bytes r)).
Proof using Hfile.
  intros He Hd Hl. pose proof (proj2 Hfile) as Hlen. unfold isize_max in Hlen.
  via (apply yields_ok_add; unfold usize_max, u64_max; lia) as n ->. apply (reader_uint_ok 4); lia.
Qed.

Lemma field_u64_ok entry delta context :
  0 ≤ entry → 0 ≤ delta ≤ 64 → entry ≤ zlen (cr_bytes r) →
  yields_ok (field_u64 r entry delta context)
    (λ v, fits_bytes 8 v ∧ entry + delta + 8 ≤ zlen (cr_bytes r)).
Proof using Hfile.
  intros He Hd Hl. pose proof (proj2 Hfile) as Hlen. unfold isize_max in Hlen.
  via (apply yields_ok_add; unfold usize_max, u64_max; lia) as n ->. apply (reader_uint_ok 8); lia.
Qed.

Record header_typed (h : ProgramHeader) : Prop := {
  ht_offset : 0 ≤ ph_file_offset h ≤ u64_max;
  ht_address : 0 ≤ ph_virtual_address h ≤ u64_max;
  ht_file_size : 0 ≤ ph_file_size h ≤ u64_max;
  ht_memory_size : 0 ≤ ph_memory_size h ≤ u64_max
}.

Lemma program_header_ok entry :
  0 ≤ entry → yields_ok (program_header r entry) header_typed.
Proof using Hfile.
  intros He. unfold program_header. destruct (is_64 (cr_class r)).
  - via (by apply (reader_uint_ok 4)) as ty [_ Hl].
    via (apply field_u32_ok; lia) as fl _.
    via (apply field_u64_ok; lia) as off [Ho _].
    via (apply field_u64_ok; lia) as va [Hv _].
    via (apply field_u64_ok; lia) as fs [Hf _].
    via (apply field_u64_ok; lia) as ms [Hm _].
    split; simpl in *; unfold u64_max; lia.
  - via (by apply (reader_uint_ok 4)) as ty [_ Hl].
    via (apply field_u32_ok; lia) as off [Ho _].
    via (apply field_u32_ok; lia) as va [Hv _].
    via (apply field_u32_ok; lia) as fs [Hf _].
    via (apply field_u32_ok; lia) as ms [Hm _].
    via (apply field_u32_ok; lia) as fl _.
    split; simpl in *; unfold u64_max; lia.
Qed.
End reader.

(** ** Notes *)

Lemma wp_yields {S A} (r : core_result A) P (Q : A → S → Prop) s :
  yields_ok r P → (∀ a, P a → Q a s) → wp (slift r) Q (λ _ _, True) s.
Proof. unfold wp, slift. destruct r; simpl; auto. Qed.

(** One step of a walk. *)
Tactic Notation "walk" tactic3(tac) "as" simple_intropattern(x) simple_intropattern(h) :=
  apply wp_bind; eapply wp_yields; [tac|cbv beta; intros x h].

Definition walk_ok (w : NoteWalk) : Prop :=
  0 ≤ nw_walked w ≤ MAX_NOTES ∧ ∀ d, nw_prstatus w = Some d → file_ok d.

Lemma align4_ok v : 0 ≤ v → yields_ok (align4_u64 v) (λ n, v ≤ n).
Proof.
  intros Hv. via (apply yields_ok_or) as n Hn. apply checked_add_some in Hn as [-> _]. simpl.
  pose proof (Z.ldiff_ones_r (v + 3) 2 ltac:(lia)) as He. change (Z.ones 2) with 3 in He. rewrite He.
  rewrite Z.shiftl_mul_pow2, Z.shiftr_div_pow2 by lia. change (2 ^ 2) with 4.
  pose proof (Z.div_mod (v + 3) 4). pose proof (Z.mod_pos_bound (v + 3) 4). lia.
Qed.

Section walk.
Context (r : CoreReader) (Hfile : file_ok (cr_bytes r)).

Lemma note_header_ok offset :
  0 ≤ offset →
  yields_ok (note_header r offset) (λ h, 0 ≤ h.1.1 ∧ 0 ≤ h.1.2).
Proof using Hfile.
  intros Ho. unfold note_header. via (by apply (reader_uint_ok r Hfile 4)) as namesz [Hn Hl].
  via (apply (field_u32_ok r Hfile); lia) as descsz [Hd _].
  via (apply (field_u32_ok r Hfile); lia) as ty _.
  via (apply yields_ok_count) as u1 _. via (apply yields_ok_count) as u2 _. simpl. lia.
Qed.

Lemma note_extent_ok cursor namesz descsz :
  0 ≤ cursor → 0 ≤ namesz → 0 ≤ descsz →
  yields_ok (note_extent cursor namesz descsz) (λ x, cursor + 12 ≤ x.1 ≤ x.2).
Proof using Type.
  intros Hc Hn Hd. unfold note_extent. via (by apply align4_ok) as np Hnp.
  via (by apply align4_ok) as dp Hdp. via (apply yields_ok_try_from) as np' [-> _].
  via (apply yields_ok_try_from) as dp' [-> _]. via (apply yields_ok_or) as start Hs.
  apply bind_Some in Hs as (x & [-> _]%checked_add_some & [-> _]%checked_add_some).
  via (apply yields_ok_or) as next Hx. apply checked_add_some in Hx as [-> _]. simpl. lia.
Qed.

Lemma capture_ok start rel descsz ty w :
  0 ≤ start → 0 ≤ rel → 0 ≤ descsz → walk_ok w →
  wp (capture_prstatus r start rel descsz ty) (λ _ w', walk_ok w') (λ _ _, True) w.
Proof using Hfile.
  intros Hs Hr Hd Hw. unfold capture_prstatus. apply wp_bind, wp_get.
  destruct (_ && _); [|by apply wp_ret].
  walk (apply yields_ok_try_from) as len [-> _]. walk (apply yields_ok_or) as abs Ha.
  apply checked_add_some in Ha as [-> _]. walk (apply (reader_bytes_ok r Hfile); lia) as d (Hz & Hb & Hl).
  apply wp_upd. split; [apply Hw|]. simpl. intros d' [= <-]. split; [done|].
  pose proof (proj2 Hfile). lia.
Qed.

Lemma walk_loop_ok fuel start len cursor w :
  0 ≤ start → start + len ≤ zlen (cr_bytes r) → 0 ≤ cursor ≤ len → len - cursor < Z.of_nat fuel →
  walk_ok w →
  wp (walk_loop fuel r start len cursor) (λ _ w', walk_ok w') (λ _ _, True) w.
Proof using Hfile.
  intros Hs Hl. revert cursor w. induction fuel as [|fuel IH]; intros cursor w Hc Hf Hw; [lia|].
  pose proof (proj2 Hfile) as Hlen. unfold isize_max in Hlen. cbn [walk_loop].
  walk (apply yields_ok_add; unfold usize_max, u64_max; lia) as first ->.
  destruct (Z.ltb_spec len (cursor + 12)); [by apply wp_ret|].
  apply wp_bind. assert (nw_walked w + 1 ≤ usize_max) as Hn.
  { destruct Hw as [Hw _]. unfold MAX_NOTES, usize_max, u64_max in *. lia. }
  unfold wp at 1, sread. unfold plain_add. rewrite (proj2 (Z.leb_le _ _)) by done.
  apply wp_bind, wp_upd. walk (apply yields_ok_count) as u Hmax.
  walk (apply yields_ok_or) as off Ho. apply checked_add_some in Ho as [-> _].
  walk (apply note_header_ok; lia) as [[namesz descsz] ty] [Hns Hds]. simpl in Hns, Hds.
  walk (apply note_extent_ok; lia) as [rel next] Hx. cbn [fst snd] in *.
  destruct (Z.ltb_spec len next).
  { apply wp_ret. split; [|apply Hw]. destruct Hw. simpl. lia. }
  apply wp_bind. eapply wp_mono; [apply capture_ok; [lia..|]| |done].
  { split; [|apply Hw]. destruct Hw. simpl. lia. }
  cbv beta. intros _ w' Hw'. apply IH; [lia|lia|done].
Qed.
End walk.

Lemma validate_range_ok offset size len field :
  0 ≤ offset → 0 ≤ size →
  yields_ok (validate_file_range offset size len field) (λ _, offset + size ≤ len).
Proof.
  intros Ho Hs. via (apply yields_ok_fail_if) as u Hf. apply Z.ltb_ge in Hf.
  destruct (Z.eqb_spec size 0) as [->|Hne]; [simpl; lia|]. via (apply yields_ok_or) as n Hn.
  apply checked_add_some in Hn as [-> _]. eapply yields_ok_mono; [apply yields_ok_fail_if|].
  cbv beta. intros v He. by apply Z.ltb_ge in He.
Qed.

Lemma yields_ok_eq {A} (r : core_result A) P : yields_ok r P → yields_ok r (λ a, P a ∧ r = Ok a).
Proof. by destruct r. Qed.

(** ** Regions *)

(** What the parser guarantees of a region of a file of [len] bytes. *)
Record region_ok (len : Z) (g : CoreRegion) : Prop := {
  ro_address : 0 ≤ rg_vaddr g ≤ u64_max;
  ro_offset : 0 ≤ rg_file_offset g;
  ro_sizes : 0 ≤ rg_file_size g ≤ rg_mem_size g;
  ro_mapped : 0 < rg_mem_size g ≤ u64_max;
  ro_in_file : rg_file_offset g + rg_file_size g ≤ len
}.

(** The region a program header maps. *)
Definition region_of (h : ProgramHeader) : option CoreRegion :=
  if (ph_segment_type h =? PT_LOAD) && negb (ph_memory_size h =? 0)
  then Some (mkCoreRegion (ph_virtual_address h) (ph_file_offset h) (ph_file_size h)
               (ph_memory_size h) (ph_flags h))
  else None.

(** The program header table, decoded from entry [index] on. *)
Fixpoint table_at (r : CoreReader) (offset entry_size index : Z) (headers : list ProgramHeader)
    : Prop :=
  match headers with
  | [] => True
  | h :: headers' =>
      program_header r (offset + index * entry_size) = Ok h
      ∧ table_at r offset entry_size (index + 1) headers'
  end.

Section headers.
Context (r : CoreReader) (Hfile : file_ok (cr_bytes r)).

Lemma len_u64_ok : yields_ok (len_u64 r) (λ n, n = zlen (cr_bytes r)).
Proof using Type. eapply yields_ok_mono; [apply yields_ok_try_from|]. by intros a [-> _]. Qed.

Lemma walk_notes_ok offset size w :
  0 ≤ offset → 0 ≤ size → walk_ok w →
  wp (walk_notes r offset size) (λ _ w', walk_ok w') (λ _ _, True) w.
Proof using Hfile.
  intros Ho Hs Hw. unfold walk_notes. walk (apply len_u64_ok) as n ->.
  walk (by apply validate_range_ok) as u Hr. walk (apply yields_ok_try_from) as start [-> _].
  walk (apply yields_ok_try_from) as len [-> _].
  apply walk_loop_ok; [done|lia|lia|lia| |done]. unfold zlen in Hr. lia.
Qed.

Lemma load_region_ok index h :
  header_typed h → ph_segment_type h = PT_LOAD →
  yields_ok (load_region r index h)
    (λ g, g = region_of h ∧ ∀ x, g = Some x → region_ok (zlen (cr_bytes r)) x).
Proof using Type.
  intros [Ho Ha Hf Hm] Hty. unfold load_region. via (apply len_u64_ok) as n ->.
  via (apply validate_range_ok; lia) as u Hr. via (apply yields_ok_fail_if) as v Hs.
  apply Z.ltb_ge in Hs. simpl. unfold region_of. rewrite Hty, Z.eqb_refl. simpl.
  destruct (Z.eqb_spec (ph_memory_size h) 0); simpl; split; try done.
  intros x [= <-]. split; simpl; lia.
Qed.

(** The loop over [n] headers from [index] on took the regions of the table. *)
Definition loaded (offset entry_size index : Z) (n : nat) (regions regions' : list CoreRegion)
    (w : NoteWalk) : Prop :=
  walk_ok w ∧ ∃ hs, length hs = n ∧ table_at r offset entry_size index hs
    ∧ regions' = regions ++ omap region_of hs
    ∧ Forall (region_ok (zlen (cr_bytes r))) (omap region_of hs).

Lemma loaded_cons offset entry_size index n regions more regions' w h :
  program_header r (offset + index * entry_size) = Ok h → more = option_list (region_of h) →
  Forall (region_ok (zlen (cr_bytes r))) more →
  loaded offset entry_size (index + 1) n (regions ++ more) regions' w →
  loaded offset entry_size index (S n) regions regions' w.
Proof using Type.
  intros Hph Hm Hok (Hw & hs & Hlen & Htab & -> & Hf). split; [done|]. exists (h :: hs).
  assert (omap region_of (h :: hs) = more ++ omap region_of hs) as ->.
  { rewrite Hm. simpl. by destruct (region_of h). }
  split_and!; [simpl; lia|done|by rewrite (assoc_L (++))|by apply Forall_app].
Qed.

Lemma header_loop_ok offset entry_size n index regions w :
  0 ≤ offset → 0 ≤ entry_size → 0 ≤ index → walk_ok w →
  wp (header_loop r offset entry_size n index regions)
    (loaded offset entry_size index n regions) (λ _ _, True) w.
Proof using Hfile.
  intros Ho He. revert index regions w. induction n as [|n IH]; intros index regions w Hi Hw.
  { apply wp_ret. split; [done|]. exists []. split_and!; [done..|by rewrite app_nil_r|constructor]. }
  cbn [header_loop]. unfold table_entry_offset.
  apply wp_bind. eapply (wp_yields _ (λ x, x = offset + index * entry_size)).
  { via (apply yields_ok_or) as a Ha. apply checked_mul_some in Ha as [-> _].
    via (apply yields_ok_or) as b Hb. apply checked_add_some in Hb as [-> _].
    eapply yields_ok_mono; [apply yields_ok_try_from|]. by intros x [-> _]. }
  cbv beta. intros entry ->. walk (apply yields_ok_eq, (program_header_ok r Hfile); nia) as h [Hh Hph].
  destruct (Z.eqb_spec (ph_segment_type h) PT_LOAD) as [Hty|Hty].
  { walk (by apply load_region_ok) as g [-> Hg]. eapply wp_mono; [apply IH; [lia|done]| |done].
    intros regs w'. apply loaded_cons with h; [done|by destruct (region_of h)|].
    destruct (region_of h) as [x|]; [apply Forall_singleton; by apply Hg|constructor]. }
  assert (∀ w', walk_ok w' → wp (header_loop r offset entry_size n (index + 1) regions)
    (loaded offset entry_size index (S n) regions) (λ _ _, True) w') as Hnone.
  { intros w' Hw'. eapply wp_mono; [apply IH; [lia|done]| |done]. intros regs w2 Hl.
    apply loaded_cons with [] h; [done| |constructor|by rewrite app_nil_r].
    unfold region_of. by rewrite (proj2 (Z.eqb_neq _ _)). }
  destruct (Z.eqb_spec (ph_segment_type h) PT_NOTE); [|by apply Hnone].
  apply wp_bind. eapply wp_mono; [apply walk_notes_ok; [apply Hh..|done]| |done].
  cbv beta. intros _ w' Hw'. by apply Hnone.
Qed.
End headers.

(** ** The sort *)

Abbreviation by_address := (StronglySorted (λ x y, rg_vaddr x ≤ rg_vaddr y)).

Lemma insert_region_perm x l : insert_region x l ≡ₚ x :: l.
Proof.
  induction l as [|y l IH]; simpl; [done|]. destruct (_ <=? _); [|done].
  rewrite IH. apply Permutation_swap.
Qed.

Lemma insert_region_sorted x l : by_address l → by_address (insert_region x l).
Proof.
  induction 1 as [|y l Hl IH Hy]; simpl; [repeat constructor|].
  destruct (Z.leb_spec (rg_vaddr y) (rg_vaddr x)).
  - constructor; [done|]. rewrite insert_region_perm. by constructor.
  - constructor; [by constructor|]. constructor; [lia|].
    apply (list.Forall_impl _ _ _ Hy). intros z Hz. lia.
Qed.

(** Regions at one address keep their order. *)
Lemma insert_region_stable a x l :
  by_address l →
  filter (λ g, rg_vaddr g = a) (insert_region x l) = filter (λ g, rg_vaddr g = a) (l ++ [x]).
Proof.
  induction 1 as [|y l Hl IH Hy]; [done|]. cbn [insert_region app].
  destruct (Z.leb_spec (rg_vaddr y) (rg_vaddr x)) as [|Hlt]; [by rewrite !filter_cons, IH|].
  change (y :: l ++ [x]) with ((y :: l) ++ [x]). rewrite list.filter_app, (filter_cons _ x (y :: l)).
  destruct (decide (rg_vaddr x = a)) as [Hx|Hx].
  - assert (filter (λ g, rg_vaddr g = a) (y :: l) = []) as ->; [|by rewrite filter_cons_True].
    assert (Forall (λ g, rg_vaddr g ≠ a) (y :: l)) as Hne.
    { constructor; [lia|]. apply (list.Forall_impl _ _ _ Hy). intros z Hz. lia. }
    clear -Hne. induction Hne; [done|]. by rewrite filter_cons_False.
  - by rewrite (filter_cons_False _ x []), filter_nil, app_nil_r.
Qed.

Lemma sort_regions_spec l :
  sort_regions l ≡ₚ l ∧ by_address (sort_regions l)
  ∧ ∀ a, filter (λ g, rg_vaddr g = a) (sort_regions l) = filter (λ g, rg_vaddr g = a) l.
Proof.
  unfold sort_regions. induction l as [|x l IH] using rev_ind; [by repeat constructor|].
  rewrite foldl_app. simpl. destruct IH as (Hp & Hs & Hf). split_and!.
  - rewrite insert_region_perm, Hp. apply Permutation_cons_append.
  - by apply insert_region_sorted.
  - intros a. by rewrite insert_region_stable, !list.filter_app, Hf.
Qed.

(** ** The register note *)

Lemma prstatus_loop_ok descriptor endian n index :
  Forall is_byte descriptor → 0 ≤ index → zlen descriptor ≤ isize_max →
  PRSTATUS_PR_REG_OFFSET + 8 * (index + Z.of_nat n) ≤ zlen descriptor →
  yields_ok (prstatus_loop descriptor endian n index)
    (λ values, length values = n ∧ Forall (λ v, 0 ≤ v < 2 ^ 64) values).
Proof.
  intros Hb. revert index. induction n as [|n IH]; intros index Hi Hmax Hl; cbn [prstatus_loop].
  { simpl. by repeat constructor. }
  unfold PRSTATUS_PR_REG_OFFSET, isize_max in *.
  eapply (yields_ok_bind _ _ (λ v, 0 ≤ v < 2 ^ 64)).
  - via (apply yields_ok_or) as a Ha. apply checked_mul_some in Ha as [-> _].
    via (apply yields_ok_or) as o Ho. apply checked_add_some in Ho as [-> _].
    via (apply yields_ok_add; unfold PRSTATUS_PR_REG_OFFSET, usize_max, u64_max; lia) as e ->.
    via (apply index_range_slice; [unfold PRSTATUS_PR_REG_OFFSET; lia..|done]) as s [Hz Hs].
    simpl. pose proof (decode_uint_bound endian s Hs) as Hd. rewrite Hz in Hd.
    replace (_ - _) with 8 in Hd by lia. done.
  - intros v Hv. via (apply IH; lia) as vs [Hlen Hf]. simpl. split; [lia|by constructor].
Qed.

Lemma prstatus_registers_ok descriptor endian :
  Forall is_byte descriptor → zlen descriptor ≤ isize_max →
  yields_ok (parse_prstatus_registers descriptor endian) amd64_typed.
Proof.
  intros Hb Hmax. via (apply yields_ok_or) as e He. apply checked_add_some in He as [-> _].
  via (apply yields_ok_fail_if) as u Hl. apply Z.ltb_ge in Hl.
  via (apply prstatus_loop_ok; [done..|unfold USER_REGS_BYTES, USER_REGS_COUNT in *; simpl; lia])
    as regs [Hlen Hf].
  change (Z.to_nat USER_REGS_COUNT) with 27%nat in Hlen.
  do 27 (destruct regs as [|? regs]; [done|]). destruct regs; [|done]. cbn [user_regs yields_ok].
  unfold amd64_typed. rewrite !Forall_cons_iff in Hf. cbn. rewrite !Forall_cons_iff.
  destruct_and!. by split_and!.
Qed.

Lemma prstatus_signal_ok descriptor endian : is_byte (parse_prstatus_signal descriptor endian).
Proof.
  unfold parse_prstatus_signal. assert (is_byte GDB_SIGSEGV) by (unfold is_byte, GDB_SIGSEGV; lia).
  destruct (slice_get _ _ _) as [s|]; [|done]. destruct (_ <=? 0); [done|].
  change 255 with (Z.ones 8). rewrite Z.land_ones by lia. unfold is_byte.
  pose proof (Z.mod_pos_bound (decode_i16 endian s) (2 ^ 8)). lia.
Qed.

(** ** The parser *)

(** What the parser guarantees of a core. *)
Record core_wf (core : CoreDump) : Prop := {
  cw_file : file_ok (cd_bytes core);
  cw_sorted : by_address (cd_regions core);
  cw_regions : Forall (region_ok (zlen (cd_bytes core))) (cd_regions core);
  cw_signal : is_byte (cd_signal core);
  cw_registers : ∀ registers, cd_registers core = Some registers → amd64_typed registers
}.

Lemma check_identity_ok bytes : yields_ok (check_identity bytes) (λ _, True).
Proof.
  via (apply yields_ok_fail_if) as u1 _. via (apply yields_ok_fail_if) as u2 _.
  via (apply yields_ok_or) as class _. via (apply yields_ok_or) as endian _.
  via (apply yields_ok_fail_if) as u3 _. done.
Qed.

Lemma check_header_ok r :
  file_ok (cr_bytes r) →
  yields_ok (check_header r)
    (λ x, 0 ≤ x.1.1.2 ∧ x.1.2 = program_header_size (cr_class r) ∧ 0 ≤ x.2).
Proof.
  intros Hf. unfold check_header. via (apply require_ok) as u _.
  via (by apply (reader_uint_ok r Hf 2)) as ty _. via (apply yields_ok_fail_if) as u1 _.
  via (by apply (reader_uint_ok r Hf 2)) as machine _.
  via (by apply (reader_uint_ok r Hf 4)) as version _. via (apply yields_ok_fail_if) as u2 _.
  eapply (yields_ok_bind _ _ (λ o, 0 ≤ o)).
  { destruct (is_64 (cr_class r)).
    - eapply yields_ok_mono; [by apply (reader_uint_ok r Hf 8)|]. cbv beta. lia.
    - eapply yields_ok_mono; [by apply (reader_uint_ok r Hf 4)|]. cbv beta. lia. }
  intros offset Ho. cbv zeta.
  via (apply (reader_uint_ok r Hf 2); by destruct (is_64 (cr_class r))) as esz _.
  via (apply (reader_uint_ok r Hf 2); by destruct (is_64 (cr_class r))) as count [Hc _].
  via (apply yields_ok_fail_if) as u3 He. apply negb_false_iff, Z.eqb_eq in He.
  via (apply yields_ok_fail_if) as u4 _. via (apply yields_ok_count) as u5 _. simpl. lia.
Qed.

Lemma recover_thread_ok prstatus machine endian :
  (∀ d, prstatus = Some d → file_ok d) →
  yields_ok (recover_thread prstatus machine endian)
    (λ x, is_byte x.2 ∧ ∀ registers, x.1 = Some registers → amd64_typed registers).
Proof.
  intros Hd. unfold recover_thread. assert (is_byte GDB_SIGSEGV) by (unfold is_byte, GDB_SIGSEGV; lia).
  destruct prstatus as [d|]; [|done]. destruct (machine =? EM_X86_64); [|done].
  destruct (Hd d eq_refl) as [Hb Hl]. via (by apply prstatus_registers_ok) as regs Hr. simpl.
  split; [apply prstatus_signal_ok|]. by intros ? [= <-].
Qed.

(** [regions] are the loadable segments of the file, in the order of the sort. *)
Definition regions_of_table (core : CoreDump) : Prop :=
  let r := mkCoreReader (cd_bytes core) (cd_class core) (cd_endian core) in
  ∃ offset entry_size count headers,
    check_header r = Ok (cd_machine core, offset, entry_size, count)
    ∧ zlen headers = count ∧ table_at r offset entry_size 0 headers
    ∧ cd_regions core ≡ₚ omap region_of headers
    ∧ ∀ a, filter (λ g, rg_vaddr g = a) (cd_regions core)
           = filter (λ g, rg_vaddr g = a) (omap region_of headers).

(** C14: the core parser.  On any file that fits in memory the parser returns a
    core or an error, never a panic and never a read out of the file.  A core it
    returns holds the file itself and exactly the non-empty loadable segments of
    its program header table, sorted by address with ties in table order, each
    with its captured bytes inside the file; its registers fit their widths and
    its signal a byte. *)
Theorem core_parse_sound (bytes : list Z) :
  file_ok bytes →
  match CoreDump_parse bytes with
  | Ok core => core_wf core ∧ cd_bytes core = bytes ∧ regions_of_table core
  | Err _ => True
  | Panic _ => False
  end.
Proof.
  intros Hf. fold (yields_ok (CoreDump_parse bytes)
    (λ core, core_wf core ∧ cd_bytes core = bytes ∧ regions_of_table core)).
  unfold CoreDump_parse. via (apply check_identity_ok) as [class endian] _.
  set (r := mkCoreReader bytes class endian).
  via (by apply yields_ok_eq, check_header_ok)
    as [[[machine offset] esz] count] ((Ho & He & Hc) & Hh). simpl in Ho, He, Hc.
  assert (0 ≤ esz) as Hesz by (rewrite He; by destruct class).
  assert (walk_ok (mkNoteWalk 0 None)) as Hw0 by (by split; [unfold MAX_NOTES; simpl; lia|]).
  pose proof (header_loop_ok r Hf offset esz (Z.to_nat count) 0 [] _ Ho Hesz ltac:(lia) Hw0) as Hloop.
  unfold wp in Hloop. destruct (header_loop _ _ _ _ _ _ _) as [[regions|e|msg] w]; [|done..].
  destruct Hloop as ([_ Hw] & hs & Hlen & Htab & -> & Hok). cbn [result_bind app].
  destruct (sort_regions_spec (omap region_of hs)) as (Hp & Hs & Hst).
  via (by apply recover_thread_ok) as [regs signal] [Hsig Hregs]. simpl in *. split; [|split; [done|]].
  - split; simpl; [done..| |done|done]. by rewrite Hp.
  - exists offset, esz, count, hs. split_and!; [done| |done..]. unfold zlen. lia.
Qed.

(** ** Reading memory *)

(** The captured byte at an address: that of the first region that holds it. *)
Definition byte_at (core : CoreDump) (a : Z) : option Z :=
  match find (λ g, region_file_contains g a) (cd_regions core) with
  | Some g => cd_bytes core !! Z.to_nat (rg_file_offset g + (a - rg_vaddr g))
  | None => None
  end.

Lemma contains_spec g a :
  region_file_contains g a = true
  ↔ rg_vaddr g + rg_file_size g ≤ u64_max ∧ rg_vaddr g ≤ a < rg_vaddr g + rg_file_size g.
Proof.
  unfold region_file_contains, checked_add. destruct (Z.leb_spec (rg_vaddr g + rg_file_size g) u64_max).
  - rewrite andb_true_iff, Z.leb_le, Z.ltb_lt. naive_solver.
  - split; [done|lia].
Qed.

(** In a sorted list the region found at an address holds all the addresses up
    to its end. *)
Lemma find_stays core g a b :
  by_address (cd_regions core) →
  find (λ g, region_file_contains g a) (cd_regions core) = Some g →
  a ≤ b < rg_vaddr g + rg_file_size g →
  find (λ g, region_file_contains g b) (cd_regions core) = Some g.
Proof.
  intros Hs Hf Hb. induction Hs as [|x l Hl IH Hx]; [done|]. simpl in *.
  destruct (region_file_contains x a) eqn:Ha.
  - injection Hf as ->. apply contains_spec in Ha as [Hu Ha].
    by rewrite (proj2 (contains_spec g b)) by lia.
  - assert (region_file_contains x b = false) as ->; [|by apply IH].
    apply not_true_iff_false. intros Hxb. apply contains_spec in Hxb as [Hu Hxb].
    apply find_some in Hf as [Hin Hg]. apply contains_spec in Hg as [Hgu Hg].
    rewrite list.Forall_forall in Hx. apply list_elem_of_In in Hin. specialize (Hx g Hin).
    apply not_true_iff_false in Ha. apply Ha, contains_spec. lia.
Qed.

(** The captured bytes at [n] addresses from [a] on, if all of them are. *)
Fixpoint captured (core : CoreDump) (n : nat) (a : Z) : option (list Z) :=
  match n with
  | O => Some []
  | S n' => byte_at core a ≫= λ b, cons b <$> captured core n' (a + 1)
  end.

Lemma captured_app core n m a :
  captured core (n + m) a
  = captured core n a ≫= λ xs, app xs <$> captured core m (a + Z.of_nat n).
Proof.
  revert a. induction n as [|n IH]; intros a; cbn [captured Nat.add].
  { rewrite Z.add_0_r. simpl. by destruct (captured core m a). }
  destruct (byte_at core a) as [b|]; [simpl|done].
  rewrite IH. replace (a + 1 + Z.of_nat n) with (a + Z.of_nat (S n)) by lia.
  destruct (captured core n (a + 1)); [simpl|done]. by destruct (captured core m _).
Qed.

Lemma captured_lookup core n a xs :
  length xs = n → (∀ i, (i < n)%nat → byte_at core (a + Z.of_nat i) = xs !! i) →
  captured core n a = Some xs.
Proof.
  revert a xs. induction n as [|n IH]; intros a xs Hlen Hx; cbn [captured].
  { by destruct xs. }
  destruct xs as [|x xs]; [done|]. pose proof (Hx 0%nat ltac:(lia)) as H0.
  rewrite Z.add_0_r in H0. rewrite H0. simpl. rewrite (IH (a + 1) xs); [done|simpl in Hlen; lia|].
  intros i Hi. replace (a + 1 + Z.of_nat i) with (a + Z.of_nat (S i)) by lia. by apply Hx; lia.
Qed.

Lemma captured_none core n m a :
  byte_at core (a + Z.of_nat n) = None → captured core (n + S m) a = None.
Proof.
  intros Hn. rewrite captured_app. cbn [captured]. rewrite Hn. by destruct (captured core n a).
Qed.

Section reads.
Context (core : CoreDump) (Hcore : core_wf core).

(** What one round does. *)
Lemma read_chunk_at_run addr len end_ cursor :
  0 ≤ cursor < end_ → end_ ≤ u64_max →
  match find (λ g, region_file_contains g cursor) (cd_regions core) with
  | None => read_chunk_at core addr len end_ cursor = Err (UnmappedMemory addr len)
  | Some g =>
      let next := Z.min end_ (rg_vaddr g + rg_file_size g) in
      cursor < next
      ∧ ∃ slice, read_chunk_at core addr len end_ cursor = Ok (slice, next)
                 ∧ captured core (Z.to_nat (next - cursor)) cursor = Some slice
  end.
Proof using Hcore.
  intros Hc He. unfold read_chunk_at.
  destruct (find _ (cd_regions core)) as [g|] eqn:Hf; [|done]. cbn [ok_or result_bind].
  pose proof Hf as [Hin Hg]%find_some. apply contains_spec in Hg as [Hu Hg].
  apply list_elem_of_In in Hin. destruct (cw_file core Hcore) as [Hb Hlen].
  pose proof (cw_regions core Hcore) as Hr. rewrite list.Forall_forall in Hr.
  destruct (Hr g Hin) as [Ha Ho Hs Hm Hfile]. unfold isize_max in Hlen.
  set (next := Z.min end_ (rg_vaddr g + rg_file_size g)). assert (cursor < next) as Hlt by lia.
  split; [done|]. unfold checked_add, checked_sub, try_from, slice_get, usize_max, u64_max in *.
  repeat (rewrite (proj2 (Z.leb_le _ _)) by lia; cbn [ok_or result_bind andb]).
  eexists. split; [done|]. apply captured_lookup.
  - rewrite length_take, length_drop. unfold zlen in *. lia.
  - intros i Hi. unfold byte_at.
    rewrite (find_stays core g cursor _ (cw_sorted core Hcore) Hf) by lia.
    rewrite lookup_take, lookup_drop, decide_True by lia.
    by replace (Z.to_nat (rg_file_offset g + (cursor + Z.of_nat i - rg_vaddr g)))
      with (Z.to_nat (rg_file_offset g + (cursor - rg_vaddr g)) + i)%nat by lia.
Qed.

(** The regions a cursor has not passed. *)
Definition ahead (cursor : Z) : list CoreRegion :=
  filter (λ g, cursor < rg_vaddr g + rg_file_size g) (cd_regions core).

Lemma ahead_shrinks g cursor next :
  g ∈ cd_regions core → cursor < rg_vaddr g + rg_file_size g ≤ next →
  (length (ahead next) < length (ahead cursor))%nat.
Proof using Type.
  intros Hin Hlt. unfold ahead. induction (cd_regions core) as [|x l IH]; [by apply not_elem_of_nil in Hin|].
  assert (length (filter (λ g, (next < rg_vaddr g + rg_file_size g)%Z) l)
          ≤ length (filter (λ g, (cursor < rg_vaddr g + rg_file_size g)%Z) l))%nat as Hle.
  { clear -Hlt. induction l as [|y l IH]; [done|]. rewrite !filter_cons.
    repeat case_decide; simpl; lia. }
  rewrite !filter_cons. apply elem_of_cons in Hin as [->|Hin]; repeat case_decide; simpl; try lia.
  all: specialize (IH Hin); lia.
Qed.

Lemma read_loop_run fuel addr len end_ cursor out :
  0 ≤ cursor ≤ end_ → end_ ≤ u64_max → (length (ahead cursor) < fuel)%nat →
  read_loop fuel core addr len end_ cursor out
  = match captured core (Z.to_nat (end_ - cursor)) cursor with
    | Some bytes => Ok (out ++ bytes)
    | None => Err (UnmappedMemory addr len)
    end.
Proof using Hcore.
  revert cursor out. induction fuel as [|fuel IH]; intros cursor out Hc He Hf; [lia|]. cbn [read_loop].
  destruct (Z.ltb_spec cursor end_) as [Hlt|Hge].
  2: { replace (end_ - cursor) with 0 by lia. simpl. by rewrite app_nil_r. }
  pose proof (read_chunk_at_run addr len end_ cursor ltac:(lia) He) as Hrun.
  destruct (find _ (cd_regions core)) as [g|] eqn:Hg.
  - destruct Hrun as (Hn & slice & -> & Hcap). set (next := Z.min end_ (rg_vaddr g + rg_file_size g)) in *.
    cbn [result_bind fst snd]. replace (Z.to_nat (end_ - cursor))
      with (Z.to_nat (next - cursor) + Z.to_nat (end_ - next))%nat by lia.
    rewrite captured_app, Hcap. replace (cursor + Z.of_nat (Z.to_nat (next - cursor))) with next by lia.
    cbn [mbind option_bind].
    destruct (decide (next = end_)) as [Heq|Hne].
    { rewrite Heq, Z.sub_diag. destruct fuel; cbn [read_loop]; rewrite Z.ltb_irrefl; simpl;
        by rewrite app_nil_r. }
    apply find_some in Hg as [Hin%list_elem_of_In Hg]. apply contains_spec in Hg as [Hu Hg].
    rewrite IH; [|lia|done|].
    + destruct (captured core _ next); simpl; [by rewrite (assoc_L (++))|done].
    + pose proof (ahead_shrinks g cursor next Hin ltac:(lia)). lia.
  - rewrite Hrun. simpl. replace (Z.to_nat (end_ - cursor)) with (0 + S (Z.to_nat (end_ - cursor) - 1))%nat by lia.
    rewrite captured_none; [done|]. rewrite Z.add_0_r. unfold byte_at. by rewrite Hg.
Qed.
End reads.

Lemma read_memory_run core addr len :
  core_wf core → in_u64 addr → 0 ≤ len ≤ isize_max →
  CoreDump_read_memory core addr len
  = if len =? 0 then Ok []
    else if u64_max <? addr + len then Err (ArithmeticOverflow "memory read range")
    else match captured core (Z.to_nat len) addr with
         | Some bytes => Ok bytes
         | None => Err (UnmappedMemory addr len)
         end.
Proof.
  intros Hc Ha Hl. unfold CoreDump_read_memory. destruct (Z.eqb_spec len 0); [done|].
  unfold in_u64, try_from in *. rewrite (proj2 (Z.leb_le len _)) by (unfold isize_max, u64_max in *; lia).
  cbn [result_bind]. unfold checked_add.
  destruct (Z.leb_spec (addr + len) u64_max) as [Hle|Hgt]; cbn [ok_or result_bind].
  2: { by rewrite (proj2 (Z.ltb_lt _ _)). }
  rewrite !(proj2 (Z.ltb_ge _ _)) by lia. rewrite (read_loop_run core Hc) by
    first [lia|unfold ahead; pose proof (length_filter (λ g, addr < rg_vaddr g + rg_file_size g) (cd_regions core)); lia].
  by replace (addr + len - addr) with len by lia.
Qed.

Lemma captured_length core n a xs : captured core n a = Some xs → length xs = n.
Proof.
  revert a xs. induction n as [|n IH]; intros a xs; cbn [captured]; [by intros [= <-]|].
  destruct (byte_at core a); [simpl|done]. destruct (captured core n (a + 1)) as [ys|] eqn:Hy; [simpl|done].
  intros [= <-]. simpl. by rewrite (IH _ _ Hy).
Qed.

Lemma captured_some core n a xs :
  captured core n a = Some xs → ∀ i, (i < n)%nat → xs !! i = byte_at core (a + Z.of_nat i).
Proof.
  revert a xs. induction n as [|n IH]; intros a xs; cbn [captured]; [lia|].
  destruct (byte_at core a) as [b|] eqn:Hb; [simpl|done].
  destruct (captured core n (a + 1)) as [ys|] eqn:Hy; [simpl|done]. intros [= <-] [|i] Hi.
  { by rewrite Z.add_0_r. }
  simpl. rewrite (IH _ _ Hy) by lia. by replace (a + 1 + Z.of_nat i) with (a + Z.of_nat (S i)) by lia.
Qed.

(** A read of more than a buffer can hold: the buffer is reserved before the segments
    are looked at. *)
Lemma core_read_huge core addr len :
  in_u64 addr → isize_max < len ≤ u64_max →
  CoreDump_read_memory core addr len
  = if u64_max <? addr + len then Err (ArithmeticOverflow "memory read range")
    else Panic "capacity overflow".
Proof.
  intros Ha Hl. unfold CoreDump_read_memory, try_from, isize_max in *.
  rewrite (proj2 (Z.eqb_neq _ _)) by lia. rewrite (proj2 (Z.leb_le len _)) by lia. cbn [result_bind].
  unfold checked_add. destruct (Z.ltb_spec u64_max (addr + len)).
  - by rewrite (proj2 (Z.leb_gt _ _)) by lia.
  - rewrite (proj2 (Z.leb_le _ _)) by lia. cbn [ok_or result_bind].
    by rewrite (proj2 (Z.ltb_lt _ _)) by lia.
Qed.

(** A read that a buffer can hold. *)
Lemma core_read_bounded core addr len :
  core_wf core → in_u64 addr → 0 ≤ len ≤ isize_max →
  no_panic (CoreDump_read_memory core addr len)
  ∧ ∀ out, CoreDump_read_memory core addr len = Ok out
    ↔ (len = 0 ∨ addr + len ≤ u64_max) ∧ zlen out = len
      ∧ ∀ i, (i < length out)%nat →
          is_Some (out !! i) ∧ out !! i = byte_at core (addr + Z.of_nat i).
Proof.
  intros Hc Ha Hl. rewrite read_memory_run by done. destruct (Z.eqb_spec len 0) as [->|Hne].
  { split; [done|]. intros out. split; [intros [= <-]; split_and!; [by left|done|simpl; lia]|].
    intros (_ & Hz & _). by destruct out. }
  destruct (Z.ltb_spec u64_max (addr + len)); [split; [done|]; intros out; split; [done|lia]|].
  destruct (captured core (Z.to_nat len) addr) as [xs|] eqn:Hx.
  - split; [done|]. intros out. split.
    + intros [= <-]. pose proof (captured_some _ _ _ _ Hx) as Hi.
      apply captured_length in Hx. split_and!; [by right|unfold zlen; lia|].
      intros i Hlt. split; [by apply lookup_lt_is_Some|]. apply Hi. lia.
    + intros (_ & Hz & Hi). f_equal. rewrite (captured_lookup core _ addr out) in Hx; [by simplify_eq|..].
      * unfold zlen in Hz. lia.
      * intros i Hlt. symmetry. apply Hi. unfold zlen in Hz. lia.
  - split; [done|]. intros out. split; [done|]. intros (_ & Hz & Hi).
    rewrite (captured_lookup core _ addr out) in Hx; [done|unfold zlen in Hz; lia|].
    intros i Hlt. symmetry. apply Hi. unfold zlen in Hz. lia.
Qed.

(** C13: a memory read returns the captured bytes.  On a parsed core, a read returns
    byte for byte what the segments of the file hold at those addresses, the first
    segment winning where segments overlap, exactly when the range fits a buffer
    (at most [isize::MAX] bytes), stays in the address space, and every address of
    it is captured.  In every other case it fails, without a panic unless the range
    is longer than any buffer and still inside the address space.  In particular
    the loop over the segments ends and never reads out of the file. *)
Theorem core_read_exact (core : CoreDump) (addr len : Z) :
  core_wf core → in_u64 addr → in_u64 len →
  (no_panic (CoreDump_read_memory core addr len) ↔ ¬ (isize_max < len ∧ addr + len ≤ u64_max))
  ∧ ∀ out, CoreDump_read_memory core addr len = Ok out
    ↔ len ≤ isize_max ∧ (len = 0 ∨ addr + len ≤ u64_max) ∧ zlen out = len
      ∧ ∀ i, (i < length out)%nat →
          is_Some (out !! i) ∧ out !! i = byte_at core (addr + Z.of_nat i).
Proof.
  intros Hc Ha Hl. destruct (Z.le_gt_cases len isize_max) as [Hle|Hgt].
  - destruct (core_read_bounded core addr len) as [Hn Hr]; [done..|destruct Hl; lia|].
    split; [split; [lia|done]|]. intros out. rewrite Hr. tauto.
  - rewrite core_read_huge by (done || destruct Hl; lia).
    destruct (Z.ltb_spec u64_max (addr + len)); (split; [|intros out; split; [done|lia]]).
    + split; [lia|done].
    + split; [|lia]. intros Hn. by destruct (Hn "capacity overflow"%string).
Qed.
