(* ===== verification/CoreTargetTheory.v ===== *)
(** The core dump target of [CoreDump.v] as a debug target: it keeps the laws of
    [GdbTargetLaws.v], it is never changed, and a debugger on the wire gets
    exactly what the core captured. *)

From S2P Require Import Prelude GdbPacket GdbTransport GdbTarget GdbRegistersTheory GdbTargetLaws.
From S2P Require Import GdbServer GdbServerTheory GdbClient GdbClientTheory GdbSessionTheory.
From S2P Require Import GdbReplyTheory CoreDump CoreDumpTheory.
Import Rsp RspTransport RspTarget RspServer RspClient CoreDump.
Open Scope Z_scope.

(** ** The target *)

Lemma captured_bytes core n a xs : core_wf core → captured core n a = Some xs → Forall is_byte xs.
Proof.
  intros Hc Hx. apply Forall_lookup. intros i b Hb. pose proof (lookup_lt_Some _ _ _ Hb) as Hi.
  rewrite (captured_length _ _ _ _ Hx) in Hi. rewrite (captured_some _ _ _ _ Hx i Hi) in Hb.
  unfold byte_at in Hb. destruct (find _ _); [|done].
  by eapply Forall_lookup_1; [apply (cw_file core Hc)|].
Qed.

Lemma read_memory_spec core addr len :
  core_wf core → in_u64 addr → 0 ≤ len ≤ isize_max →
  yields_ok (CoreDump_read_memory core addr len) (λ bytes, Forall is_byte bytes ∧ zlen bytes = len).
Proof.
  intros Hc Ha Hl. rewrite read_memory_run by done. destruct (Z.eqb_spec len 0) as [->|]; [by split|].
  destruct (_ <? _); [done|]. destruct (captured core _ addr) as [xs|] eqn:Hx; [simpl|done].
  split; [by eapply captured_bytes|]. apply captured_length in Hx. unfold zlen. lia.
Qed.

Lemma le_bytes_bytes n v : Forall is_byte (le_bytes n v).
Proof.
  revert v. induction n as [|n IH]; intros v; simpl; constructor; [|done].
  unfold is_byte. pose proof (Z.mod_pos_bound v 256). lia.
Qed.

Lemma amd64_bytes_bytes r : Forall is_byte (amd64_bytes r).
Proof.
  unfold amd64_bytes. apply Forall_app. split; apply Forall_bind, Forall_true; intros v.
  - apply le_bytes_bytes.
  - apply le_bytes_bytes.
Qed.

(** A core is served as it is. *)
#[export] Instance core_lawful (core : CoreDump) :
  core_wf core → LawfulTarget CoreDumpTarget (λ t, t = mkCoreDumpTarget core).
Proof.
  intros Hc. apply lawful_defaults. split; try (intros; intros t Ht; exact Ht);
    cbn [core_methods rm_read_memory rm_read_registers rm_stop_reason].
  - intros addr len Ha Hl t ->. pose proof (read_memory_spec core addr len Hc Ha Hl) as Hr.
    unfold wp, sread. simpl. by destruct (CoreDump_read_memory core addr len); naive_solver.
  - intros t ->. unfold wp, sread, gpacket. simpl. destruct (cd_registers core) as [regs|].
    + destruct (to_gpacket_run (E:=CoreDumpError) regs) as (raw & -> & _ & ->). simpl.
      split; [apply amd64_bytes_bytes|done].
    + by destruct (_ =? _).
  - intros t ->. simpl. split; [apply (cw_signal core Hc)|done].
Qed.

(** ** A core, debugged over the wire *)

(** What a debugger of a core gets: the captured bytes, the captured registers,
    and an error for everything that would change or run the target. *)
Definition core_answer (lim : ProtocolLimits) (core : CoreDump) (op : remote_op)
    : option remote_value :=
  match op with
  | ReadMemory addr len =>
      if op_allowed lim op && ((len =? 0) || (addr + len <=? u64_max))
      then Bytes <$> captured core (Z.to_nat len) addr else None
  | ReadRegisters =>
      if AMD64_GPACKET_BYTES <=? max_packet_payload lim / 2
      then (λ registers, Bytes (amd64_bytes registers)) <$> cd_registers core else None
  | _ => None
  end.

Section debugged.
Context (lim : ProtocolLimits) (core : CoreDump) (Hcore : core_wf core).
Context (Hmax : max_packet_payload lim * 2 ≤ usize_max).

Lemma core_drive_read addr len :
  op_typed (ReadMemory addr len) →
  drive lim (ReadMemory addr len) (mkCoreDumpTarget core)
  = (core_answer lim core (ReadMemory addr len), mkCoreDumpTarget core).
Proof using Hcore Hmax.
  intros [Ha Hl]. unfold drive, core_answer. destruct (op_allowed lim (ReadMemory addr len)) eqn:Hok; [|done].
  apply andb_prop in Hok as [_ Hok]. apply Z.leb_le in Hok.
  assert (0 ≤ len ≤ isize_max) as Hlen.
  { pose proof (Z.mul_div_le (Z.max 0 (max_packet_payload lim - 1)) 2).
    unfold in_u64, usize_max, u64_max, isize_max in *. lia. }
  change (read_memory addr len (mkCoreDumpTarget core))
    with (map_err (λ e, Memory (display_error e)) (CoreDump_read_memory core addr len), mkCoreDumpTarget core).
  rewrite (read_memory_run core addr len Hcore Ha Hlen). cbn [negb andb].
  destruct (Z.eqb_spec len 0) as [->|Hne]; [done|]. cbn [orb]. rewrite Z.ltb_antisym.
  destruct (addr + len <=? u64_max); cbn [negb]; [|done].
  destruct (captured core (Z.to_nat len) addr) as [xs|] eqn:Hx; [|done]. apply captured_length in Hx.
  simpl. rewrite (proj2 (Z.eqb_eq _ _)); [done|]. unfold zlen. lia.
Qed.

Lemma core_drive op :
  op_typed op →
  drive lim op (mkCoreDumpTarget core) = (core_answer lim core op, mkCoreDumpTarget core).
Proof using Hcore Hmax.
  intros Hty. destruct op as [addr len|addr data| |raw| | |addr kind|addr kind].
  - by apply core_drive_read.
  - unfold drive. by destruct (op_allowed lim _).
  - unfold drive, core_answer. cbn [op_allowed negb].
    change (read_registers (mkCoreDumpTarget core))
      with (map_err (λ e, Register (display_error e)) (gpacket core), mkCoreDumpTarget core).
    unfold gpacket. destruct (cd_registers core) as [regs|].
    2: { destruct (cd_machine core =? EM_X86_64); by destruct (_ <=? _). }
    destruct (to_gpacket_run (E:=CoreDumpError) regs) as (raw & -> & Hlen & Hraw). cbn [map_err].
    unfold register_packet_is_valid. rewrite Hlen, Z.ltb_antisym.
    destruct (AMD64_GPACKET_BYTES <=? max_packet_payload lim / 2); [|done]. subst raw. done.
  - unfold drive. destruct (op_allowed lim _); [|done]. simpl. by destruct (register_packet_is_valid _ _ _).
  - done.
  - done.
  - unfold drive. cbn. unfold with_kind, sbind, sget. by destruct (negb _).
  - unfold drive. cbn. unfold with_kind, sbind, sget. by destruct (negb _).
Qed.

Lemma core_drive_all ops :
  Forall op_typed ops →
  drive_all lim ops (mkCoreDumpTarget core)
  = (core_answer lim core <$> ops, mkCoreDumpTarget core).
Proof using Hcore Hmax.
  induction 1 as [|op ops Hty _ IH]; [done|]. cbn [drive_all]. by rewrite core_drive, IH.
Qed.
End debugged.

(** C24: debugging a core file.  A client that is joined to the server of a parsed core,
    so that it can read only what the server has written in answer to what it has sent, runs
    any sequence of operations.  A read within the client's and the server's limits gives
    exactly the captured bytes or registers, or a failure when the range is not fully
    captured; a read beyond the limits and everything that would write, run or break fail.
    No call panics or waits for bytes that do not come.  The server, given what the client sent over
    any reliable channel, ends normally and the core is unchanged.  The packet limit is at
    least 36 bytes, and the client's clock stays within the timeout of an operation. *)
Theorem core_debugged_remotely {Tr Tr' : Type} (lim : ProtocolLimits) (core : CoreDump)
    `{Transport Tr} `{!Duplex Tr (served lim (mkCoreDumpTarget core))} `{!Clock Tr}
    (start budget : Z) `{!Punctual Tr start budget} `{Pipe Tr'}
    (ops : list remote_op) (near : Tr) (far : Tr') (fuel : nat) :
  let target := mkCoreDumpTarget core in
  let up := bytes_of (half_traffic client_half (turns lim ops target)) in
  core_wf core → 36 ≤ max_packet_payload lim → max_packet_payload lim * 2 ≤ usize_max → 0 ≤ budget →
  Forall op_typed ops →
  joined near [] [] → linked far up [] →
  (length up < fuel)%nat → (length (served lim target up) < fuel)%nat →
  let client := with_operation_timeout budget (client_with_limits near lim) in
  let c := client_session fuel ops client in
  let w := serve_one_with_limits fuel target far lim in
  ok_value <$> c.1 = core_answer lim core <$> ops ∧ Forall no_panic c.1
  ∧ joined (gc_transport c.2) [] up
  ∧ w.1 = Ok tt ∧ w.2.2 = target.
Proof.
  intros target up Hc Hmin Hmax Hbu Hops Hnear Hfar Hfu Hfd client c w.
  pose proof (core_lawful core Hc) as Hlaw.
  pose proof (turns_fit (good:=λ t, t = target) lim Hmin Hmax ops target Hops eq_refl) as Hfit.
  pose proof (turns_answered (good:=λ t, t = target) lim Hmin Hmax ops target Hops eq_refl) as Hans.
  unfold up in Hfd |- *. rewrite (served_turns lim ltac:(lia) Hmax _ target _ Hfit Hans) in Hfd.
  destruct (session_client lim Hmin Hmax target Hbu ops target client [] fuel) as (rs & c' & Hs & Hn & Hrs & Hat);
    [done|done|apply answered_nil|apply Forall_nil_2|by split|done|].
  destruct (answered_serve lim (turns lim ops target) target (drive_all lim ops target).2 far fuel)
    as (Hr & Ht & _); [lia|done..|].
  unfold target in Hrs, Ht. rewrite core_drive_all in Hrs, Ht by done. unfold c. rewrite Hs.
  split_and!; [done|done|apply Hat|done..].
Qed.

(** No input changes a served core.  Whatever bytes arrive, the server of a
    parsed core returns normally when they end and the core is as it was. *)
Corollary core_never_changes {Tr : Type} `{Pipe Tr} (lim : ProtocolLimits) (core : CoreDump)
    (transport : Tr) (bytes written : list Z) (fuel : nat) :
  core_wf core → MIN_PAYLOAD ≤ max_packet_payload lim → max_packet_payload lim ≤ usize_max →
  linked transport bytes written → (length bytes < fuel)%nat →
  let w := serve_one_with_limits fuel (mkCoreDumpTarget core) transport lim in
  w.1 = Ok tt ∧ w.2.2 = mkCoreDumpTarget core.
Proof.
  intros Hc Hmin Htop Hl Hf w. pose proof (core_lawful core Hc) as Hlaw.
  destruct (serve_ends lim Hmin Htop (length bytes) (with_limits transport lim) (mkCoreDumpTarget core) fuel)
    as (w' & Hw & Hg); [|done..|].
  - split; [done|]. by eexists _, _.
  - unfold w, serve_one_with_limits. by rewrite Hw.
Qed.
