(* ===== verification/Msf.v ===== *)
(** The MSF 7.00 container writer of [resymbol-export/src/pdb/msf.rs]: layout
    planning with its limits, the block allocator that steps over the free-page
    maps, and the writer that scatters streams over blocks. *)

From S2P Require Import Prelude.
Open Scope Z_scope.

Module Msf.

Definition BLOCK_SIZE : Z := 4096.
Definition MAX_BLOCKS : Z := BLOCK_SIZE * 8.
Definition MAX_STREAMS : Z := u16_max.
Definition MAX_DIRECTORY_BLOCKS : Z := BLOCK_SIZE / 4.
Definition NIL_STREAM_SIZE : Z := u32_max.

Definition SUPER_BLOCK : Z := 0.
Definition ALTERNATE_FPM_BLOCK : Z := 1.
Definition ACTIVE_FPM_BLOCK : Z := 2.
Definition DIRECTORY_BLOCK_MAP : Z := 3.
Definition FIRST_ALLOCATABLE_BLOCK : Z := 4.

(** [*b"Microsoft C/C++ MSF 7.00\r\n\x1aDS\0\0\0"]. *)
Definition MSF_700_MAGIC : list Z :=
  str "Microsoft C/C++ MSF 7.00" ++ [13; 10; 26] ++ str "DS" ++ [0; 0; 0].

Inductive MsfError : Type :=
  | TooManyStreams (actual maximum : Z)
  | InvalidStreamZero
  | StreamTooLarge (stream bytes maximum : Z)
  | StreamUsesNilSize (stream : Z)
  | DirectoryTooLarge (blocks maximum : Z)
  | FileTooLarge (required_blocks maximum_blocks : Z)
  | IntegerOverflow (context : string)
  | AllocationFailed (context : string)
  | InvalidLayout (context : string).

Record PlannedStream : Type := mkPlannedStream {
  ps_size : Z;
  ps_blocks : list Z
}.

Record MsfLayout : Type := mkMsfLayout {
  ml_streams : list PlannedStream;
  ml_directory_size : Z;
  ml_directory_blocks : list Z;
  ml_num_blocks : Z
}.

(** [u64::div_ceil]. *)
Definition div_ceil (a b : Z) : Z := if a mod b =? 0 then a / b else a / b + 1.

Definition is_fpm_block (block : Z) : bool :=
  let phase := block mod BLOCK_SIZE in
  (phase =? ALTERNATE_FPM_BLOCK) || (phase =? ACTIVE_FPM_BLOCK).

Section writer.

(** Whether the allocator grants [try_reserve_exact] of that many elements for
    the vector named by the error's context. *)
Context (can_reserve : string → Z → bool).

Definition try_reserve_exact (context : string) (n : Z) : result unit MsfError :=
  fail_if (negb (can_reserve context n)) (AllocationFailed context).

(** ** The block allocator *)

(** [BlockAllocator], whose one field is the next block. *)
Abbreviation alloc_op A := (smonad Z MsfError A).

Definition BlockAllocator_new : Z := FIRST_ALLOCATABLE_BLOCK.

Definition advance (context : string) : alloc_op unit :=
  let! next := sread (λ next, ok_or (checked_add u32_max next 1) (IntegerOverflow context)) in
  supd (λ _, next).

(** The [while] loop over reserved blocks.  Only two blocks in a row are
    reserved, so three tests always end it. *)
Fixpoint skip_fpm_blocks (fuel : nat) : alloc_op unit :=
  match fuel with
  | O => slift (Panic "the free-page-map loop does not end")
  | S fuel' =>
      let! next := sget id in
      if is_fpm_block next
      then do! advance "MSF reserved FPM block" in skip_fpm_blocks fuel'
      else sret tt
  end.

Fixpoint allocate_loop (count : nat) (blocks : list Z) : alloc_op (list Z) :=
  match count with
  | O => sret blocks
  | S count' =>
      do! skip_fpm_blocks 3 in
      let! next := sget id in
      if MAX_BLOCKS <=? next then serr (FileTooLarge (next + 1) MAX_BLOCKS)
      else
        do! advance "MSF block allocation" in
        allocate_loop count' (blocks ++ [next])
  end.

Definition allocate (count : Z) : alloc_op (list Z) :=
  do! slift (try_reserve_exact "MSF block list" count) in
  allocate_loop (Z.to_nat count) [].

(** ** Planning *)

(** The encoded size and the block count of one stream. *)
Definition stream_shape (stream : Z) (size : option Z) : result (Z * Z) MsfError :=
  match size with
  | None => Ok (NIL_STREAM_SIZE, 0)
  | Some bytes =>
      do? fail_if (u32_max <? bytes) (StreamTooLarge stream bytes (u32_max - 1)) in
      do? fail_if (bytes =? NIL_STREAM_SIZE) (StreamUsesNilSize stream) in
      let blocks := div_ceil bytes BLOCK_SIZE in
      do? fail_if (u32_max <? blocks) (IntegerOverflow "MSF stream block count") in
      Ok (bytes mod 2 ^ 32, blocks)
  end.

Fixpoint plan_shapes (stream total : Z) (shapes : list (Z * Z)) (sizes : list (option Z))
    : result (list (Z * Z) * Z) MsfError :=
  match sizes with
  | [] => Ok (shapes, total)
  | size :: sizes' =>
      let? shape := stream_shape stream size in
      let? total := ok_or (checked_add u64_max total shape.2)
                      (IntegerOverflow "MSF aggregate stream blocks") in
      plan_shapes (stream + 1) total (shapes ++ [shape]) sizes'
  end.

(** [4 + 4 * streams + 4 * blocks] with every step checked. *)
Definition directory_bytes (streams total : Z) : result Z MsfError :=
  let? table := ok_or (checked_mul u64_max streams 4) (IntegerOverflow "MSF stream-size table") in
  ok_or (match checked_add u64_max 4 table with
         | None => None
         | Some size =>
             match checked_mul u64_max total 4 with
             | None => None
             | Some lists => checked_add u64_max size lists
             end
         end) (IntegerOverflow "MSF stream directory size").

Fixpoint plan_streams (planned : list PlannedStream) (shapes : list (Z * Z))
    : alloc_op (list PlannedStream) :=
  match shapes with
  | [] => sret planned
  | (size, block_count) :: shapes' =>
      let! blocks := allocate block_count in
      plan_streams (planned ++ [mkPlannedStream size blocks]) shapes'
  end.

Definition minimum_blocks (total directory_block_count : Z) : option Z :=
  match checked_add u64_max FIRST_ALLOCATABLE_BLOCK total with
  | None => None
  | Some blocks => checked_add u64_max blocks directory_block_count
  end.

Definition allocate_layout (shapes : list (Z * Z)) (directory_block_count : Z)
    : alloc_op (list PlannedStream * list Z) :=
  do! slift (try_reserve_exact "MSF planned streams" (zlen shapes)) in
  let! planned := plan_streams [] shapes in
  let! directory_blocks := allocate directory_block_count in
  sret (planned, directory_blocks).

Definition plan_layout (sizes : list (option Z)) : result MsfLayout MsfError :=
  do? fail_if (MAX_STREAMS <? zlen sizes) (TooManyStreams (zlen sizes) MAX_STREAMS) in
  do? try_reserve_exact "MSF stream layout" (zlen sizes) in
  let? shaped := plan_shapes 0 0 [] sizes in
  let '(shapes, total) := shaped in
  let? directory_size := directory_bytes (zlen sizes) total in
  do? fail_if (u32_max <? directory_size) (IntegerOverflow "MSF stream directory u32 size") in
  let directory_block_count := div_ceil directory_size BLOCK_SIZE in
  do? fail_if (MAX_DIRECTORY_BLOCKS <? directory_block_count)
        (DirectoryTooLarge directory_block_count MAX_DIRECTORY_BLOCKS) in
  let? minimum := ok_or (minimum_blocks total directory_block_count)
                    (IntegerOverflow "MSF minimum file block count") in
  do? fail_if (MAX_BLOCKS <? minimum) (FileTooLarge minimum MAX_BLOCKS) in
  let '(allocated, next) := allocate_layout shapes directory_block_count BlockAllocator_new in
  let? allocated := allocated in
  do? fail_if ((next =? 0) || (MAX_BLOCKS <? next)) (FileTooLarge next MAX_BLOCKS) in
  Ok (mkMsfLayout allocated.1 directory_size allocated.2 next).

(** ** Writing *)

(** [slice.get_mut(start..end)] with what is written through it. *)
Definition get_range {A} (start end_ : Z) (l : list A) : option (list A) :=
  if (start <=? end_) && (end_ <=? zlen l)
  then Some (take (Z.to_nat (end_ - start)) (drop (Z.to_nat start) l)) else None.

Definition put_range {A} (start : Z) (bs l : list A) : list A :=
  take (Z.to_nat start) l ++ bs ++ drop (Z.to_nat start + length bs) l.

(** [slice[..bytes.len()].copy_from_slice(bytes)], which panics when the slice
    is shorter. *)
Definition copy_prefix (bytes slice : list Z) : result (list Z) MsfError :=
  if zlen bytes <=? zlen slice then Ok (bytes ++ drop (length bytes) slice)
  else Panic "range end index out of range for slice".

Definition put_u32 (slice : list Z) (offset value : Z) : result (list Z) MsfError :=
  let? end_ := ok_or (checked_add usize_max offset 4) (IntegerOverflow "MSF u32 byte range") in
  let? _destination := ok_or (get_range offset end_ slice)
                         (InvalidLayout "u32 field falls outside its destination") in
  Ok (put_range offset (le_bytes 4 value) slice).

Definition push_u32 (output : list Z) (value : Z) : list Z := output ++ le_bytes 4 value.

(** [block_mut], and an update made through the slice it returns. *)
Definition with_block (output : list Z) (block : Z)
    (update : list Z → result (list Z) MsfError) : result (list Z) MsfError :=
  let? start := ok_or (checked_mul usize_max block BLOCK_SIZE)
                  (IntegerOverflow "MSF block byte offset") in
  let? end_ := ok_or (checked_add usize_max start BLOCK_SIZE)
                 (IntegerOverflow "MSF block byte range") in
  let? slice := ok_or (get_range start end_ output)
                  (InvalidLayout "block falls outside the output buffer") in
  let? slice := update slice in
  Ok (put_range start slice output).

Definition superblock (layout : MsfLayout) (slice : list Z) : result (list Z) MsfError :=
  let? slice := copy_prefix MSF_700_MAGIC slice in
  let? slice := put_u32 slice 32 BLOCK_SIZE in
  let? slice := put_u32 slice 36 ACTIVE_FPM_BLOCK in
  let? slice := put_u32 slice 40 (ml_num_blocks layout) in
  let? slice := put_u32 slice 44 (ml_directory_size layout) in
  let? slice := put_u32 slice 48 0 in
  put_u32 slice 52 DIRECTORY_BLOCK_MAP.

Definition write_superblock (output : list Z) (layout : MsfLayout) : result (list Z) MsfError :=
  with_block output SUPER_BLOCK (superblock layout).

(** [bitmap[block / 8] &= !(1 << (block % 8))]. *)
Definition clear_bit (bitmap : list Z) (block : Z) : result (list Z) MsfError :=
  let byte := Z.to_nat (block / 8) in
  match bitmap !! byte with
  | None => Panic "index out of bounds"
  | Some v => Ok (<[byte := Z.land v (255 - Z.shiftl 1 (block mod 8))]> bitmap)
  end.

Fixpoint clear_bits (bitmap : list Z) (blocks : list Z) : result (list Z) MsfError :=
  match blocks with
  | [] => Ok bitmap
  | block :: blocks' =>
      let? bitmap := clear_bit bitmap block in
      clear_bits bitmap blocks'
  end.

(** [copy_from_slice] of a whole block, which panics on different lengths. *)
Definition copy_block (bytes slice : list Z) : result (list Z) MsfError :=
  if zlen bytes =? zlen slice then Ok bytes
  else Panic "source slice length does not match destination slice length".

Definition fill (v : Z) (slice : list Z) : result (list Z) MsfError :=
  Ok (replicate (length slice) v).

Fixpoint fill_interval (output : list Z) (num_blocks interval_start : Z) (phases : list Z)
    : result (list Z) MsfError :=
  match phases with
  | [] => Ok output
  | phase :: phases' =>
      let? block := ok_or (checked_add u32_max interval_start phase)
                      (IntegerOverflow "MSF trailing FPM block") in
      let? output := if block <? num_blocks then with_block output block (fill 255)
                     else Ok output in
      fill_interval output num_blocks interval_start phases'
  end.

(** The [while] loop over the later intervals; [num_blocks] is at most eight
    intervals and the first is done, so eight tests end it. *)
Fixpoint fill_intervals (fuel : nat) (output : list Z) (num_blocks interval_start : Z)
    : result (list Z) MsfError :=
  match fuel with
  | O => Panic "the free-page-map interval loop does not end"
  | S fuel' =>
      if interval_start <? num_blocks then
        let? output := fill_interval output num_blocks interval_start
                         [ALTERNATE_FPM_BLOCK; ACTIVE_FPM_BLOCK] in
        let? interval_start := ok_or (checked_add u32_max interval_start BLOCK_SIZE)
                                 (IntegerOverflow "MSF FPM interval") in
        fill_intervals fuel' output num_blocks interval_start
      else Ok output
  end.

Definition write_free_page_maps (output : list Z) (num_blocks : Z) : result (list Z) MsfError :=
  do? fail_if ((num_blocks =? 0) || (MAX_BLOCKS <? num_blocks))
        (InvalidLayout "FPM block count is outside the supported range") in
  let? bitmap := clear_bits (replicate (Z.to_nat BLOCK_SIZE) 255) (seqZ 0 num_blocks) in
  let? output := with_block output ALTERNATE_FPM_BLOCK (copy_block bitmap) in
  let? output := with_block output ACTIVE_FPM_BLOCK (copy_block bitmap) in
  fill_intervals 8 output num_blocks BLOCK_SIZE.

Definition serialize_directory (layout : MsfLayout) : result (list Z) MsfError :=
  let capacity := ml_directory_size layout in
  do? try_reserve_exact "MSF stream directory" capacity in
  do? fail_if (u32_max <? zlen (ml_streams layout))
        (IntegerOverflow "MSF encoded stream count") in
  let directory := push_u32 [] (zlen (ml_streams layout)) in
  let directory := foldl (λ d stream, push_u32 d (ps_size stream)) directory
                     (ml_streams layout) in
  let directory := foldl (λ d stream, foldl push_u32 d (ps_blocks stream)) directory
                     (ml_streams layout) in
  do? fail_if (negb (zlen directory =? capacity))
        (InvalidLayout "serialized directory length disagrees with its plan") in
  Ok directory.

Fixpoint put_block_map (slice : list Z) (index : Z) (blocks : list Z) : result (list Z) MsfError :=
  match blocks with
  | [] => Ok slice
  | block :: blocks' =>
      let? offset := ok_or (checked_mul usize_max index 4)
                       (IntegerOverflow "MSF directory block-map offset") in
      let? slice := put_u32 slice offset block in
      put_block_map slice (index + 1) blocks'
  end.

Definition write_directory_block_map (output blocks : list Z) : result (list Z) MsfError :=
  do? fail_if (MAX_DIRECTORY_BLOCKS <? zlen blocks)
        (InvalidLayout "directory block map exceeds one block") in
  with_block output DIRECTORY_BLOCK_MAP (λ slice, put_block_map slice 0 blocks).

(** The zip of the blocks with [data.chunks(BLOCK_SIZE)]. *)
Fixpoint scatter (output blocks data : list Z) : result (list Z) MsfError :=
  match blocks with
  | [] => Ok output
  | block :: blocks' =>
      if bool_decide (data = []) then Ok output
      else
        let chunk := take (Z.to_nat BLOCK_SIZE) data in
        let? output := with_block output block (copy_prefix chunk) in
        scatter output blocks' (drop (Z.to_nat BLOCK_SIZE) data)
  end.

Definition write_scattered (output blocks data : list Z) : result (list Z) MsfError :=
  do? fail_if (negb (div_ceil (zlen data) BLOCK_SIZE =? zlen blocks))
        (InvalidLayout "scatter block count does not match data length") in
  scatter output blocks data.

(** The zip of the inputs with the planned streams. *)
Fixpoint write_streams (output : list Z) (streams : list (option (list Z)))
    (planned : list PlannedStream) : result (list Z) MsfError :=
  match streams, planned with
  | input :: streams', plan :: planned' =>
      let? output :=
        match input with
        | None =>
            if ps_size plan =? NIL_STREAM_SIZE then Ok output
            else Err (InvalidLayout "planned stream no longer matches its input")
        | Some bytes =>
            if zlen bytes =? ps_size plan then write_scattered output (ps_blocks plan) bytes
            else Err (InvalidLayout "planned stream no longer matches its input")
        end in
      write_streams output streams' planned'
  | _, _ => Ok output
  end.

Definition write_msf (streams : list (option (list Z))) : result (list Z) MsfError :=
  do? fail_if (MAX_STREAMS <? zlen streams) (TooManyStreams (zlen streams) MAX_STREAMS) in
  do? fail_if (negb (bool_decide (head streams = Some (Some [])))) InvalidStreamZero in
  do? try_reserve_exact "MSF stream-size plan" (zlen streams) in
  let stream_sizes := (λ stream : option (list Z), zlen <$> stream) <$> streams in
  let? layout := plan_layout stream_sizes in
  let? file_size := ok_or (checked_mul usize_max (ml_num_blocks layout) BLOCK_SIZE)
                      (IntegerOverflow "MSF output byte size") in
  do? try_reserve_exact "MSF output" file_size in
  let output := replicate (Z.to_nat file_size) 0 in
  let? output := write_superblock output layout in
  let? output := write_free_page_maps output (ml_num_blocks layout) in
  let? output := write_streams output streams (ml_streams layout) in
  let? directory := serialize_directory layout in
  let? output := write_scattered output (ml_directory_blocks layout) directory in
  write_directory_block_map output (ml_directory_blocks layout).

End writer.
End Msf.
