(* ===== verification/MsfLayoutTheory.v ===== *)
(** Theorems about the planning of an MSF file ([Msf.v]): planning is total and
    within its limits, it refuses exactly what does not fit, and the planned
    blocks are fresh and never a free-page map. *)

From S2P Require Import Prelude Msf.
Import Msf.
Open Scope Z_scope.

(** ** Blocks of a buffer *)

Definition bs : nat := Z.to_nat BLOCK_SIZE.

Lemma bs_eq : Z.of_nat bs = 4096.
Proof. unfold bs, BLOCK_SIZE. lia. Qed.

Lemma bs_def : Z.to_nat BLOCK_SIZE = bs.
Proof. reflexivity. Qed.

#[local] Opaque bs.

(** The byte offset of a block, and the block's bytes. *)
Definition offset (b : Z) : nat := Z.to_nat (b * BLOCK_SIZE).
Definition block_at (out : list Z) (b : Z) : list Z := take bs (drop (offset b) out).

(** A buffer of [n] whole blocks. *)
Definition image (n : Z) (out : list Z) : Prop := zlen out = n * BLOCK_SIZE.

Lemma offset_eq b : 0 ≤ b → Z.of_nat (offset b) = 4096 * b.
Proof. intros. unfold offset, BLOCK_SIZE. lia. Qed.

Lemma image_length n out : image n out → Z.of_nat (length out) = 4096 * n.
Proof. unfold image, zlen, BLOCK_SIZE. lia. Qed.

Lemma length_block_at n out b : image n out → 0 ≤ b < n → length (block_at out b) = bs.
Proof.
  intros Hi Hb. pose proof (offset_eq b). pose proof (image_length n out Hi). pose proof bs_eq.
  unfold block_at. rewrite length_take, length_drop. lia.
Qed.

Lemma lookup_block_at out b j : (j < bs)%nat → block_at out b !! j = out !! (offset b + j)%nat.
Proof. intros Hj. unfold block_at. by rewrite lookup_take_lt, lookup_drop. Qed.

Lemma length_put_range {A} start (new l : list A) :
  0 ≤ start → start + zlen new ≤ zlen l → length (put_range start new l) = length l.
Proof.
  unfold put_range, zlen. intros. rewrite !length_app, length_take, length_drop. lia.
Qed.

Lemma lookup_put_range {A} start (new l : list A) (i : nat) :
  0 ≤ start → start + zlen new ≤ zlen l →
  put_range start new l !! i
  = if decide (Z.to_nat start ≤ i < Z.to_nat start + length new)%nat
    then new !! (i - Z.to_nat start)%nat else l !! i.
Proof.
  unfold put_range, zlen. intros H0 Hl. case_decide as Hd.
  - rewrite lookup_app_r by (rewrite length_take; lia). rewrite length_take.
    rewrite lookup_app_l by lia. f_equal. lia.
  - destruct (decide (i < Z.to_nat start)%nat).
    + rewrite lookup_app_l by (rewrite length_take; lia). by rewrite lookup_take_lt.
    + rewrite lookup_app_r by (rewrite length_take; lia). rewrite length_take.
      rewrite lookup_app_r by lia. rewrite lookup_drop. f_equal. lia.
Qed.

(** What an update of one block does to the buffer. *)
Record block_updated (out : list Z) (b : Z) (new out' : list Z) : Prop := {
  bu_same : block_at out' b = new;
  bu_other : ∀ b', 0 ≤ b' → b' ≠ b → block_at out' b' = block_at out b'
}.

Lemma with_block_run n out b update new :
  image n out → 0 ≤ b < n → n * BLOCK_SIZE ≤ usize_max →
  update (block_at out b) = Ok new → length new = bs →
  ∃ out', with_block out b update = Ok out' ∧ image n out' ∧ block_updated out b new out'.
Proof.
  intros Hi Hb Hn Hu Hnew. pose proof (offset_eq b). pose proof (image_length n out Hi).
  pose proof bs_eq. unfold with_block, checked_mul, checked_add, image, zlen, BLOCK_SIZE in *.
  rewrite (proj2 (Z.leb_le _ _)) by lia. simpl.
  rewrite (proj2 (Z.leb_le _ _)) by lia. simpl. unfold get_range, zlen.
  rewrite (proj2 (Z.leb_le _ _)) by lia. rewrite (proj2 (Z.leb_le _ _)) by lia. simpl.
  replace (take (Z.to_nat (b * 4096 + 4096 - b * 4096)) (drop (Z.to_nat (b * 4096)) out))
    with (block_at out b) by (unfold block_at, offset, BLOCK_SIZE; f_equal; lia).
  rewrite Hu. simpl. eexists. split; [done|].
  assert (0 ≤ b * 4096 ∧ b * 4096 + zlen new ≤ zlen out) as [Hstart Hfit] by (unfold zlen; lia).
  split; [by rewrite length_put_range|]. split.
  - apply list_eq. intros j. destruct (decide (j < bs)%nat).
    + rewrite lookup_block_at, lookup_put_range by done. fold BLOCK_SIZE.
      rewrite decide_True by (unfold offset, BLOCK_SIZE in *; lia). f_equal.
      unfold offset, BLOCK_SIZE. lia.
    + rewrite lookup_ge_None_2 by (unfold block_at; rewrite length_take; lia).
      by rewrite lookup_ge_None_2 by lia.
  - intros b' Hb' Hne. pose proof (offset_eq b'). apply list_eq. intros j.
    destruct (decide (j < bs)%nat).
    + rewrite !lookup_block_at, lookup_put_range by done.
      rewrite decide_False; [done|]. unfold offset, BLOCK_SIZE in *. lia.
    + by rewrite !lookup_ge_None_2 by (unfold block_at; rewrite length_take; lia).
Qed.

(** ** The allocator *)

(** Blocks handed out in order from [lo], none of them a free-page map. *)
Fixpoint ascending (lo : Z) (blocks : list Z) (hi : Z) : Prop :=
  match blocks with
  | [] => lo ≤ hi
  | b :: blocks' => lo ≤ b ∧ is_fpm_block b = false ∧ ascending (b + 1) blocks' hi
  end.

Lemma ascending_le lo l hi : ascending lo l hi → lo ≤ hi.
Proof. revert lo. induction l as [|b l IH]; simpl; intros lo H; [done|]. destruct H as (? & _ & ?%IH). lia. Qed.

Lemma ascending_weaken lo lo' l hi : lo' ≤ lo → ascending lo l hi → ascending lo' l hi.
Proof. destruct l; simpl; [lia|]. intros ? (? & ? & ?). split_and!; [lia|done..]. Qed.

Lemma ascending_app lo l mid l' hi :
  ascending lo l mid → ascending mid l' hi → ascending lo (l ++ l') hi.
Proof.
  revert lo. induction l as [|b l IH]; simpl; intros lo H1 H2.
  - by eapply ascending_weaken.
  - destruct H1 as (? & ? & ?). eauto.
Qed.

Lemma ascending_elem lo l hi b :
  ascending lo l hi → b ∈ l → lo ≤ b < hi ∧ is_fpm_block b = false.
Proof.
  revert lo. induction l as [|c l IH]; simpl; intros lo H Hin; [by apply not_elem_of_nil in Hin|].
  destruct H as (H1 & H2 & H3). apply elem_of_cons in Hin as [->|Hin].
  - apply ascending_le in H3. lia || (split; [lia|done]).
  - destruct (IH _ H3 Hin). split; [lia|done].
Qed.

Lemma ascending_NoDup lo l hi : ascending lo l hi → NoDup l.
Proof.
  revert lo. induction l as [|c l IH]; simpl; intros lo H; [constructor|].
  destruct H as (H1 & H2 & H3). constructor; [|by eapply IH].
  intros Hin. destruct (ascending_elem _ _ _ _ H3 Hin). lia.
Qed.

Lemma fpm_phases b : is_fpm_block b = true ↔ b mod 4096 = 1 ∨ b mod 4096 = 2.
Proof.
  unfold is_fpm_block, BLOCK_SIZE, ALTERNATE_FPM_BLOCK, ACTIVE_FPM_BLOCK.
  rewrite orb_true_iff, !Z.eqb_eq. done.
Qed.

(** The number of blocks below [b] that are not free-page maps. *)
Definition rank (b : Z) : Z := b - 2 * (b / 4096) - Z.max 0 (Z.min 2 (b mod 4096 - 1)).

Lemma div_mod_succ b :
  0 ≤ b → (b mod 4096 = 4095 ∧ (b + 1) / 4096 = b / 4096 + 1 ∧ (b + 1) mod 4096 = 0)
          ∨ (b mod 4096 < 4095 ∧ (b + 1) / 4096 = b / 4096 ∧ (b + 1) mod 4096 = b mod 4096 + 1).
Proof.
  intros Hb. pose proof (Z.mod_pos_bound b 4096). pose proof (Z.mod_pos_bound (b + 1) 4096).
  pose proof (Z.div_mod b 4096). pose proof (Z.div_mod (b + 1) 4096). lia.
Qed.

Lemma rank_succ b : 0 ≤ b → rank (b + 1) = rank b + (if is_fpm_block b then 0 else 1).
Proof.
  intros Hb. pose proof (fpm_phases b) as Hf. unfold rank.
  pose proof (Z.mod_pos_bound b 4096). destruct (div_mod_succ b Hb) as [(H1 & -> & ->)|(H1 & -> & ->)];
    destruct (is_fpm_block b); destruct Hf as [Hf1 Hf2]; lia.
Qed.

Lemma rank_mono b c : 0 ≤ b ≤ c → rank b ≤ rank c.
Proof.
  intros Hbc. replace c with (b + Z.of_nat (Z.to_nat (c - b))) by lia.
  induction (Z.to_nat (c - b)) as [|k IH]; [by rewrite Z.add_0_r|].
  rewrite Nat2Z.inj_succ, <-Z.add_1_r, Z.add_assoc, rank_succ by lia.
  destruct (is_fpm_block _); lia.
Qed.

Lemma advance_spec ctx next :
  0 ≤ next < u32_max → advance ctx next = (Ok tt, next + 1).
Proof.
  intros Hn. unfold advance, sbind, sread, checked_add.
  by rewrite (proj2 (Z.leb_le _ _)) by lia.
Qed.

(** Three tests end the loop over reserved blocks. *)
Lemma skip_fpm_blocks_spec next :
  0 ≤ next ≤ MAX_BLOCKS →
  ∃ next', skip_fpm_blocks 3 next = (Ok tt, next') ∧ next ≤ next' ≤ next + 2
           ∧ is_fpm_block next' = false ∧ rank next' = rank next.
Proof.
  intros Hn. assert (next + 3 < u32_max) by (unfold MAX_BLOCKS, BLOCK_SIZE, u32_max in *; lia).
  unfold skip_fpm_blocks, sbind, sget, id.
  pose proof (rank_succ next) as Hr1. pose proof (rank_succ (next + 1)) as Hr2.
  destruct (is_fpm_block next) eqn:H1; [|exists next; split_and!; lia || done].
  rewrite advance_spec by lia. destruct (is_fpm_block (next + 1)) eqn:H2;
    [|eexists; split_and!; [done|lia..|done|lia]].
  rewrite advance_spec by lia. destruct (is_fpm_block (next + 1 + 1)) eqn:H3;
    [|eexists; split_and!; [done|lia..|done|lia]].
  apply fpm_phases in H1, H2, H3. destruct (div_mod_succ next), (div_mod_succ (next + 1)); lia.
Qed.

(** How a fallible computation ends: it does not panic, and its value or error
    satisfies the given predicate. *)
Definition ends {A E} (r : result A E) (Q : A → Prop) (QE : E → Prop) : Prop :=
  match r with Ok a => Q a | Err e => QE e | Panic _ => False end.

Lemma ends_bind {A B E} (r : result A E) (k : A → result B E) Q QE :
  ends r (λ a, ends (k a) Q QE) QE → ends (result_bind r k) Q QE.
Proof. by destruct r. Qed.

Lemma ends_fail_if {E} b (e : E) (Q : unit → Prop) QE :
  (b = false → Q tt) → (b = true → QE e) → ends (fail_if b e) Q QE.
Proof. destruct b; simpl; auto. Qed.

Lemma ends_ok_or {A E} (o : option A) (e : E) Q QE :
  (∀ a, o = Some a → Q a) → (o = None → QE e) → ends (ok_or o e) Q QE.
Proof. destruct o; simpl; auto. Qed.

Lemma ends_mono {A E} (r : result A E) (Q Q' : A → Prop) (QE QE' : E → Prop) :
  ends r Q QE → (∀ a, Q a → Q' a) → (∀ e, QE e → QE' e) → ends r Q' QE'.
Proof. destruct r; simpl; auto. Qed.

(** The errors a caller can see; the others would be faults of the writer. *)
Definition refusal (e : MsfError) : Prop :=
  match e with
  | InvalidLayout _ => False
  | IntegerOverflow context => context = "MSF stream directory u32 size"
  | _ => True
  end.

(** The blocks a file can hold besides the superblock, the directory block map
    and the free-page maps. *)
Definition capacity : Z := 32750.

Section planning.
Context (can_reserve : string → Z → bool).

(** The allocator denied a reservation. *)
Definition out_of_memory (e : MsfError) : Prop :=
  ∃ context count, e = AllocationFailed context ∧ can_reserve context count = false.

(** A refusal that is not for lack of memory says that [P] fails. *)
Definition refused_for (P : Prop) (e : MsfError) : Prop := refusal e ∧ (out_of_memory e ∨ ¬ P).

Lemma refused_memory P context count :
  can_reserve context count = false → refused_for P (AllocationFailed context).
Proof.
  intros Hd. split; [done|]. left. by exists context, count.
Qed.

Lemma refused_mono (P P' : Prop) e : (P' → P) → refused_for P e → refused_for P' e.
Proof. intros HP [Hr [Ho|Hn]]; (split; [done|]); [by left|right; auto]. Qed.

Lemma try_reserve_ends ctx n (Q : unit → Prop) P :
  Q tt → ends (try_reserve_exact can_reserve ctx n) Q (refused_for P).
Proof.
  intros HQ. apply ends_fail_if; [done|]. intros Hd. autorewrite with rust in Hd.
  by eapply refused_memory.
Qed.

Lemma allocate_loop_spec count blocks next :
  0 ≤ next ≤ MAX_BLOCKS →
  wp (allocate_loop count blocks)
    (λ res next', next' ≤ MAX_BLOCKS ∧ rank next' = rank next + Z.of_nat count
                  ∧ ∃ new, res = blocks ++ new ∧ length new = count ∧ ascending next new next')
    (λ e _, refused_for (rank next + Z.of_nat count ≤ rank MAX_BLOCKS) e) next.
Proof.
  revert blocks next. induction count as [|count IH]; intros blocks next Hn; cbn [allocate_loop].
  { wp_step. split; [lia|]. split; [lia|]. exists []. rewrite app_nil_r. by split_and!; [..|simpl]. }
  destruct (skip_fpm_blocks_spec next Hn) as (next' & Hskip & Hle & Hfree & Hrank).
  apply wp_bind. unfold wp. rewrite Hskip. apply wp_bind. wp_step.
  unfold id. destruct (Z.leb_spec MAX_BLOCKS next') as [Hge|Hlt].
  { apply wp_err. split; [done|]. right.
    assert (next' = MAX_BLOCKS ∨ next' = MAX_BLOCKS + 1 ∨ next' = MAX_BLOCKS + 2) as Hcases by lia.
    destruct_or! Hcases; subst next'; [lia|vm_compute in Hfree; done|vm_compute in Hfree; done]. }
  apply wp_bind. unfold wp at 1.
  rewrite advance_spec by (unfold MAX_BLOCKS, BLOCK_SIZE, u32_max in *; lia).
  pose proof (rank_succ next' ltac:(lia)) as Hr. rewrite Hfree in Hr.
  eapply wp_mono; [apply IH; lia| |intros e ?; apply refused_mono; lia].
  intros res nx (Hmax & Hrk & new & -> & Hlen & Hasc). split; [done|]. split; [lia|].
  exists (next' :: new). split; [by rewrite <-(assoc_L (++))|]. split; [by simpl; f_equal|]. simpl.
  split_and!; [lia|done|done].
Qed.

Lemma allocate_spec count next :
  0 ≤ next ≤ MAX_BLOCKS → 0 ≤ count →
  wp (allocate can_reserve count)
    (λ new next', next' ≤ MAX_BLOCKS ∧ rank next' = rank next + count
                  ∧ zlen new = count ∧ ascending next new next')
    (λ e _, refused_for (rank next + count ≤ rank MAX_BLOCKS) e) next.
Proof.
  intros Hn Hc. unfold allocate, try_reserve_exact. wp_step.
  wp_step; [|by eapply refused_memory].
  eapply wp_mono; [by apply allocate_loop_spec| |intros e ?; apply refused_mono; lia].
  intros res next' (Hmax & Hrk & new & -> & Hlen & Hasc). unfold zlen. simpl.
  split_and!; [done|lia|lia|done].
Qed.

(** How a planned stream answers the size it was planned for. *)
Definition plans (size : option Z) (ps : PlannedStream) : Prop :=
  match size with
  | None => ps_size ps = NIL_STREAM_SIZE ∧ ps_blocks ps = []
  | Some n => n < NIL_STREAM_SIZE ∧ ps_size ps = n ∧ zlen (ps_blocks ps) = div_ceil n BLOCK_SIZE
  end.

Definition shapes_of (size : option Z) (shape : Z * Z) : Prop :=
  match size with
  | None => shape = (NIL_STREAM_SIZE, 0)
  | Some n => n < NIL_STREAM_SIZE ∧ shape = (n, div_ceil n BLOCK_SIZE)
  end.

Definition size_ok (size : option Z) : Prop := ∀ n, size = Some n → 0 ≤ n.
Definition size_small (size : option Z) : Prop := ∀ n, size = Some n → n < NIL_STREAM_SIZE.

(** The blocks the streams need, the directory that lists them, and all blocks
    the file must have room for. *)
Definition blocks_needed (size : option Z) : Z :=
  match size with None => 0 | Some n => div_ceil n BLOCK_SIZE end.
Definition total_needed (sizes : list (option Z)) : Z := foldr (λ s t, blocks_needed s + t) 0 sizes.
Definition directory_needed (sizes : list (option Z)) : Z :=
  4 + 4 * zlen sizes + 4 * total_needed sizes.
Definition demand (sizes : list (option Z)) : Z :=
  total_needed sizes + div_ceil (directory_needed sizes) BLOCK_SIZE.
Definition fits (sizes : list (option Z)) : Prop :=
  zlen sizes ≤ MAX_STREAMS ∧ demand sizes ≤ capacity.

Lemma div_ceil_bounds n : 0 ≤ n → 4096 * div_ceil n BLOCK_SIZE - 4096 < n ≤ 4096 * div_ceil n BLOCK_SIZE.
Proof.
  intros Hn. unfold div_ceil, BLOCK_SIZE. pose proof (Z.div_mod n 4096). pose proof (Z.mod_pos_bound n 4096).
  destruct (Z.eqb_spec (n mod 4096) 0); lia.
Qed.

Lemma blocks_needed_nonneg s : size_ok s → 0 ≤ blocks_needed s.
Proof.
  destruct s as [n|]; intros Hs; simpl; [|done]. pose proof (Hs n eq_refl) as H0.
  pose proof (div_ceil_bounds n H0). lia.
Qed.

Lemma total_needed_nonneg sizes : Forall size_ok sizes → 0 ≤ total_needed sizes.
Proof.
  induction 1 as [|s sizes Hs _ IH]; simpl; [done|]. pose proof (blocks_needed_nonneg s Hs). lia.
Qed.

Lemma total_small sizes :
  Forall size_ok sizes → total_needed sizes ≤ capacity → Forall size_small sizes.
Proof.
  unfold capacity. intros Hok. induction Hok as [|s sizes Hs Hok IH]; simpl; intros Ht; [constructor|].
  pose proof (blocks_needed_nonneg s Hs). pose proof (total_needed_nonneg sizes Hok).
  constructor; [|apply IH; lia]. intros n ->. simpl in *.
  pose proof (div_ceil_bounds n (Hs n eq_refl)). unfold NIL_STREAM_SIZE, u32_max. lia.
Qed.

Lemma total_bound sizes :
  Forall size_ok sizes → Forall size_small sizes → total_needed sizes ≤ 2097152 * zlen sizes.
Proof.
  unfold zlen. intros Hok. induction Hok as [|s sizes Hs Hok IH]; intros Hsm; [done|].
  inversion Hsm as [|? ? H1 H2]; subst. specialize (IH H2). rewrite length_cons, Nat2Z.inj_succ.
  change (total_needed (s :: sizes)) with (blocks_needed s + total_needed sizes).
  assert (blocks_needed s < 2097152); [|lia]. destruct s as [n|]; [|done]. cbn [blocks_needed].
  pose proof (H1 n eq_refl). pose proof (div_ceil_bounds n (Hs n eq_refl)).
  unfold NIL_STREAM_SIZE, u32_max in *. lia.
Qed.

(** A demand within the capacity leaves a small directory. *)
Lemma fits_small sizes :
  Forall size_ok sizes → fits sizes →
  Forall size_small sizes ∧ directory_needed sizes ≤ u32_max
  ∧ div_ceil (directory_needed sizes) BLOCK_SIZE ≤ MAX_DIRECTORY_BLOCKS.
Proof.
  intros Hok [Hc Hd]. pose proof (total_needed_nonneg _ Hok). unfold demand, capacity in Hd.
  assert (0 ≤ directory_needed sizes) as H0 by (unfold directory_needed, zlen; lia).
  pose proof (div_ceil_bounds _ H0) as Hb.
  assert (total_needed sizes ≤ 32750) by lia.
  assert (directory_needed sizes ≤ 400000) by (unfold directory_needed, MAX_STREAMS, u16_max in *; lia).
  split; [by apply total_small|]. unfold u32_max. split; [lia|].
  change MAX_DIRECTORY_BLOCKS with 1024. lia.
Qed.

Lemma stream_shape_ends i size :
  size_ok size →
  ends (stream_shape i size) (λ sh, shapes_of size sh ∧ sh.2 = blocks_needed size)
    (refused_for (size_small size)).
Proof.
  intros Hs. destruct size as [n|]; [|by split]. unfold stream_shape. specialize (Hs n eq_refl).
  apply ends_bind, ends_fail_if; intros H1; autorewrite with rust in H1.
  2: { split; [done|]. right. intros Hn. specialize (Hn n eq_refl). unfold NIL_STREAM_SIZE in Hn. lia. }
  apply ends_bind, ends_fail_if; intros H2; autorewrite with rust in H2.
  2: { split; [done|]. right. intros Hn. specialize (Hn n eq_refl). lia. }
  pose proof (div_ceil_bounds n Hs) as Hb. unfold NIL_STREAM_SIZE, u32_max in *.
  apply ends_bind, ends_fail_if; intros H3; [|apply Z.ltb_lt in H3; lia].
  simpl. rewrite Z.mod_small by lia. split; [|done]. split; [unfold NIL_STREAM_SIZE, u32_max; lia|done].
Qed.

Lemma plan_shapes_ends i total shapes sizes :
  Forall size_ok sizes → 0 ≤ total → total + 2097152 * zlen sizes ≤ u64_max →
  ends (plan_shapes i total shapes sizes)
    (λ r, ∃ new, r.1 = shapes ++ new ∧ Forall2 shapes_of sizes new
                 ∧ r.2 = total + total_needed sizes) (refused_for (Forall size_small sizes)).
Proof.
  intros Hs. revert i total shapes. induction Hs as [|s sizes H Hs IH]; intros i total shapes H0 Hb.
  { simpl. exists []. rewrite app_nil_r. split_and!; [done|constructor|lia]. }
  simpl. assert (zlen (s :: sizes) = zlen sizes + 1) as Hl by (unfold zlen; rewrite length_cons; lia).
  rewrite Hl in Hb. apply ends_bind. eapply ends_mono; [by apply stream_shape_ends| |].
  2: { intros e. apply refused_mono. by inversion 1. }
  intros sh [Hsh Hr]. pose proof (blocks_needed_nonneg s H) as Hnn.
  assert (sh.2 < 2097152) as Hlt.
  { destruct s as [n|]; simpl in Hsh; [|by subst]. destruct Hsh as [Hn ->]. cbn [snd].
    pose proof (div_ceil_bounds n (H n eq_refl)). unfold NIL_STREAM_SIZE, u32_max in *. lia. }
  apply ends_bind, ends_ok_or;
    [intros a [-> _]%checked_add_some|intros Ha%checked_add_none; unfold zlen in *; lia].
  eapply ends_mono; [apply IH; unfold zlen in *; lia| |].
  2: { intros e. apply refused_mono. by inversion 1. }
  intros r (new & Hr1 & Hf & Hr2). exists (sh :: new).
  split_and!; [by rewrite Hr1, <-(assoc_L (++))|by constructor|lia].
Qed.

Lemma plan_streams_spec planned sizes shapes next :
  0 ≤ next ≤ MAX_BLOCKS → Forall size_ok sizes → Forall2 shapes_of sizes shapes →
  wp (plan_streams can_reserve planned shapes)
    (λ res next', next' ≤ MAX_BLOCKS ∧ rank next' = rank next + total_needed sizes
                  ∧ ∃ new, res = planned ++ new ∧ Forall2 plans sizes new
                           ∧ ascending next (new ≫= ps_blocks) next')
    (λ e _, refused_for (rank next + total_needed sizes ≤ rank MAX_BLOCKS) e) next.
Proof.
  intros Hn Hok Hs. revert planned next Hn Hok.
  induction Hs as [|s [size count] sizes shapes Hsh Hs IH]; intros planned next Hn Hok; simpl.
  { wp_step. split; [lia|]. split; [lia|]. exists []. rewrite app_nil_r.
    split_and!; [done|constructor|simpl; lia]. }
  inversion Hok as [|? ? Hs0 Hok']; subst. pose proof (blocks_needed_nonneg s Hs0).
  pose proof (total_needed_nonneg _ Hok').
  assert (count = blocks_needed s ∧ ∀ bl, zlen bl = count → plans s (mkPlannedStream size bl))
    as [-> Hplan].
  { destruct s as [n|]; simpl in *; [destruct Hsh as [? [= -> ->]]; done|].
    injection Hsh as -> ->. split; [done|]. intros bl Hb. split; [done|]. simpl.
    unfold zlen in Hb. apply length_zero_iff_nil. lia. }
  wp_step. eapply wp_mono; [by apply allocate_spec| |intros e ?; apply refused_mono; lia].
  intros blocks next1 (Hmax & Hrk & Hlen & Hasc). pose proof (ascending_le _ _ _ Hasc).
  eapply wp_mono; [apply IH; [lia|done]| |intros e ?; apply refused_mono; lia].
  intros res next2 (Hmax2 & Hrk2 & new & -> & Hf & Hasc2). split; [done|]. split; [lia|].
  exists (mkPlannedStream size blocks :: new). rewrite <-(assoc_L (++)).
  split_and!; [done|by constructor; [apply Hplan|]|]. rewrite bind_cons. simpl.
  by eapply ascending_app.
Qed.

Lemma plans_total sizes new : Forall2 plans sizes new → zlen (new ≫= ps_blocks) = total_needed sizes.
Proof.
  unfold zlen. induction 1 as [|s ps sizes new Hp Hf IH]; [done|].
  rewrite bind_cons, length_app. simpl. destruct s as [n|]; simpl in *.
  - destruct Hp as (_ & _ & Hl). unfold zlen in Hl. lia.
  - destruct Hp as [_ ->]. simpl. lia.
Qed.

(** What a planned layout promises the writer. *)
Record layout_ok (sizes : list (option Z)) (l : MsfLayout) : Prop := {
  lay_fits : fits sizes;
  lay_streams : Forall2 plans sizes (ml_streams l);
  lay_size : ml_directory_size l = directory_needed sizes;
  lay_directory : zlen (ml_directory_blocks l) = div_ceil (ml_directory_size l) BLOCK_SIZE;
  lay_blocks : ascending FIRST_ALLOCATABLE_BLOCK
                 ((ml_streams l ≫= ps_blocks) ++ ml_directory_blocks l) (ml_num_blocks l);
  lay_max : ml_num_blocks l ≤ MAX_BLOCKS
}.

Lemma allocate_layout_spec sizes shapes count :
  Forall size_ok sizes → Forall2 shapes_of sizes shapes → 0 ≤ count →
  wp (allocate_layout can_reserve shapes count)
    (λ r next, next ≤ MAX_BLOCKS ∧ total_needed sizes + count ≤ capacity
               ∧ Forall2 plans sizes r.1 ∧ zlen r.2 = count
               ∧ ascending FIRST_ALLOCATABLE_BLOCK ((r.1 ≫= ps_blocks) ++ r.2) next)
    (λ e _, refused_for (total_needed sizes + count ≤ capacity) e) BlockAllocator_new.
Proof.
  intros Hok Hs Hc. assert (rank MAX_BLOCKS = 32752 ∧ rank BlockAllocator_new = 2) as [Hr1 Hr2] by done.
  unfold capacity. unfold allocate_layout, try_reserve_exact. wp_step.
  wp_step; [|by eapply refused_memory]. wp_step.
  eapply wp_mono; [by apply plan_streams_spec|..|intros e ?; apply refused_mono; lia].
  intros planned next (Hmax & Hrk & new & -> & Hf & Hasc).
  pose proof (ascending_le _ _ _ Hasc) as Hle. change BlockAllocator_new with 4 in Hle.
  wp_step. eapply wp_mono; [apply allocate_spec; lia|..|intros e ?; apply refused_mono; lia].
  intros dir next2 (Hmax2 & Hrk2 & Hlen & Hasc2). wp_step. simpl.
  split_and!; [done| |done|done|by eapply ascending_app].
  pose proof (ascending_le _ _ _ Hasc2). pose proof (rank_mono next2 MAX_BLOCKS). lia.
Qed.

Lemma directory_bytes_run streams total :
  0 ≤ streams ≤ MAX_STREAMS → 0 ≤ total ≤ 2 ^ 40 →
  directory_bytes streams total = Ok (4 + 4 * streams + 4 * total).
Proof.
  intros Hs Ht. unfold directory_bytes, MAX_STREAMS, u16_max, u64_max in *.
  rewrite (proj2 (checked_mul_some _ _ _ (streams * 4))) by lia. simpl.
  rewrite (proj2 (checked_add_some _ _ _ (4 + streams * 4))) by lia.
  rewrite (proj2 (checked_mul_some _ _ _ (total * 4))) by lia.
  rewrite (proj2 (checked_add_some _ _ _ (4 + 4 * streams + 4 * total))) by lia. done.
Qed.

Lemma minimum_blocks_run total dir :
  0 ≤ total ≤ 2 ^ 40 → 0 ≤ dir ≤ 2 ^ 40 → minimum_blocks total dir = Some (4 + total + dir).
Proof.
  intros Ht Hd. unfold minimum_blocks, FIRST_ALLOCATABLE_BLOCK, u64_max.
  rewrite (proj2 (checked_add_some _ _ _ (4 + total))) by lia.
  by rewrite (proj2 (checked_add_some _ _ _ (4 + total + dir))) by lia.
Qed.

Lemma plan_layout_ends sizes :
  Forall size_ok sizes →
  ends (plan_layout can_reserve sizes) (layout_ok sizes) (refused_for (fits sizes)).
Proof.
  intros Hok. pose proof (fits_small sizes Hok) as Hsmall. pose proof (total_needed_nonneg _ Hok) as Hnn.
  unfold plan_layout. apply ends_bind, ends_fail_if; intros Hcount; autorewrite with rust in Hcount.
  2: { split; [done|]. right. intros [? _]. lia. }
  apply ends_bind, try_reserve_ends. apply ends_bind.
  eapply ends_mono; [apply plan_shapes_ends; [done|done|unfold MAX_STREAMS, u16_max, u64_max in *; lia]| |].
  2: { intros e. apply refused_mono. naive_solver. }
  intros [shapes total] (new & Hnew & Hf & Htot). simpl in Hnew, Htot.
  rewrite Z.add_0_l in Htot. subst shapes total.
  assert (total_needed sizes ≤ 2 ^ 40) as Hbig.
  { assert (Forall size_small sizes) as Hsm.
    { clear -Hf. induction Hf as [|s sh sizes new Hs Hf IH]; constructor; [|done].
      intros n ->. by destruct Hs. }
    pose proof (total_bound _ Hok Hsm). unfold MAX_STREAMS, u16_max in *. lia. }
  assert (0 ≤ zlen sizes) by (unfold zlen; lia).
  apply ends_bind. rewrite directory_bytes_run by lia. cbn [ends]. fold (directory_needed sizes).
  assert (0 ≤ directory_needed sizes) as Hd0 by (unfold directory_needed; lia).
  pose proof (div_ceil_bounds _ Hd0) as Hceil.
  apply ends_bind, ends_fail_if; intros H1; autorewrite with rust in H1.
  2: { split; [done|]. right. intros ?%Hsmall. lia. }
  apply ends_bind, ends_fail_if; intros H2; autorewrite with rust in H2.
  2: { split; [done|]. right. intros ?%Hsmall. lia. }
  apply ends_bind. rewrite minimum_blocks_run by (unfold u32_max in *; lia). cbn [ok_or ends].
  apply ends_bind, ends_fail_if; intros H3; autorewrite with rust in H3.
  2: { split; [done|]. right. intros [_ Hd]. unfold demand, capacity in Hd.
       unfold MAX_BLOCKS, BLOCK_SIZE in *. lia. }
  pose proof (allocate_layout_spec sizes new (div_ceil (directory_needed sizes) BLOCK_SIZE)
    Hok Hf ltac:(lia)) as Hal. unfold wp in Hal.
  destruct (allocate_layout can_reserve new _ BlockAllocator_new) as [[[planned dir]|e|p] next]; [| |done].
  2: { simpl. eapply refused_mono; [|done]. by intros [_ ?]. }
  destruct Hal as (Hmax & Hcap & Hpl & Hlen & Hasc). simpl in Hpl, Hlen, Hasc. cbn [result_bind].
  pose proof (ascending_le _ _ _ Hasc) as Hle. change FIRST_ALLOCATABLE_BLOCK with 4 in Hle.
  apply ends_bind, ends_fail_if; [intros _|rewrite orb_true_iff, Z.eqb_eq, Z.ltb_lt; lia].
  by split.
Qed.
End planning.
