(* ===== verification/MsfTheory.v ===== *)
(** Theorems about the bytes of an MSF file ([Msf.v]): the superblock, the
    free-page maps, the directory and the streams that the writer produces, a
    reader of the format, and that what is written reads back. *)

From S2P Require Import Prelude Msf MsfLayoutTheory.
Import Msf.
Open Scope Z_scope.

#[local] Opaque bs.

(** ** Scattered data *)

Definition zeros : list Z := replicate bs 0.

(** The blocks hold the data, padded with zeros to whole blocks. *)
Definition holds (out : list Z) (blocks data : list Z) : Prop :=
  mjoin (block_at out <$> blocks) = data ++ replicate (length blocks * bs - length data) 0.

(** Two buffers agree outside some blocks. *)
Definition agree_off (n : Z) (touched out out' : list Z) : Prop :=
  ∀ b, 0 ≤ b < n → b ∉ touched → block_at out' b = block_at out b.

Lemma holds_ext out out' blocks data :
  (∀ b, b ∈ blocks → block_at out' b = block_at out b) → holds out blocks data → holds out' blocks data.
Proof.
  unfold holds. intros Hb <-. rewrite (list_fmap_ext _ (block_at out) blocks); [done|]. intros i b Hi. apply Hb.
  by eapply list_elem_of_lookup_2.
Qed.

Section writing.
Context (n : Z) (Hn : 0 ≤ n) (Hfit : n * BLOCK_SIZE ≤ usize_max).

Definition in_file (b : Z) : Prop := 0 ≤ b < n.

Lemma copy_prefix_zeros chunk :
  (length chunk ≤ bs)%nat →
  copy_prefix chunk zeros = Ok (chunk ++ replicate (bs - length chunk) 0).
Proof.
  intros Hc. unfold copy_prefix, zeros, zlen. rewrite length_replicate.
  rewrite (proj2 (Z.leb_le _ _)) by lia. by rewrite drop_replicate.
Qed.

Lemma div_ceil_nil {A} (data : list A) : div_ceil (zlen data) BLOCK_SIZE = 0 → data = [].
Proof.
  intros H. pose proof (div_ceil_bounds (zlen data)). unfold zlen in *.
  apply length_zero_iff_nil. lia.
Qed.

Lemma div_ceil_chunk (data : list Z) k :
  div_ceil (zlen data) BLOCK_SIZE = k + 1 → 0 ≤ k →
  data ≠ [] ∧ div_ceil (zlen (drop bs data)) BLOCK_SIZE = k
  ∧ (k = 0 ∨ length (take bs data) = bs).
Proof.
  intros Hd Hk. pose proof bs_eq. pose proof (div_ceil_bounds (zlen data) ltac:(unfold zlen; lia)) as H1.
  pose proof (div_ceil_bounds (zlen (drop bs data)) ltac:(unfold zlen; lia)) as H2.
  unfold zlen in *. rewrite length_drop in *. rewrite length_take.
  split; [intros ->; simpl in *; lia|]. split; lia.
Qed.

Lemma scatter_run out blocks data :
  image n out → Forall in_file blocks → NoDup blocks →
  (∀ b, b ∈ blocks → block_at out b = zeros) →
  div_ceil (zlen data) BLOCK_SIZE = zlen blocks →
  ∃ out', scatter out blocks data = Ok out' ∧ image n out' ∧ agree_off n blocks out out'
          ∧ holds out' blocks data.
Proof.
  intros Hi Hin. revert out data Hi. induction Hin as [|b blocks Hb Hin IH]; intros out data Hi Hnd Hz Hlen.
  { apply div_ceil_nil in Hlen as ->. exists out. by split_and!. }
  apply list.NoDup_cons in Hnd as [Hnb Hnd].
  assert (zlen (b :: blocks) = zlen blocks + 1) as Hl by (unfold zlen; rewrite length_cons; lia).
  rewrite Hl in Hlen. apply div_ceil_chunk in Hlen as (Hne & Hrest & Hfull); [|unfold zlen; lia].
  cbn [scatter]. rewrite bool_decide_eq_false_2, bs_def by done.
  assert (length (take bs data) ≤ bs)%nat as Hc by (rewrite length_take; lia).
  destruct (with_block_run n out b (copy_prefix (take bs data))
    (take bs data ++ replicate (bs - length (take bs data)) 0)) as (out1 & Hrun & Hi1 & [Hsame Hoth]);
    [done|done|done| | |].
  { rewrite Hz by set_solver. by apply copy_prefix_zeros. }
  { rewrite length_app, length_replicate. lia. }
  rewrite Hrun. cbn [result_bind].
  destruct (IH out1 (drop bs data)) as (out' & Hs & Hi' & Hag & Hh); [done|done| |done|].
  { intros c Hc'. rewrite Hoth; [apply Hz; set_solver| |set_solver].
    rewrite list.Forall_forall in Hin. by apply Hin. }
  exists out'. split; [done|]. split; [done|]. split.
  { intros c Hc' Hnc. rewrite (Hag c) by set_solver. apply Hoth; [lia|set_solver]. }
  unfold holds in *. rewrite fmap_cons. simpl mjoin. rewrite Hh, (Hag b), Hsame by done.
  rewrite length_cons. destruct Hfull as [H0|Hfull].
  - assert (blocks = []) as -> by (apply length_zero_iff_nil; unfold zlen in H0; lia).
    apply div_ceil_nil in Hrest. rewrite Hrest, !app_nil_r. simpl. rewrite !Nat.add_0_r.
    rewrite <-(take_drop bs data) at 3 4. by rewrite Hrest, app_nil_r.
  - rewrite Hfull, Nat.sub_diag. simpl. rewrite app_nil_r, (assoc_L (++)), take_drop.
    f_equal. f_equal. rewrite length_drop, length_take in *. lia.
Qed.

Lemma write_scattered_run out blocks data :
  image n out → Forall in_file blocks → NoDup blocks →
  (∀ b, b ∈ blocks → block_at out b = zeros) →
  div_ceil (zlen data) BLOCK_SIZE = zlen blocks →
  ∃ out', write_scattered out blocks data = Ok out' ∧ image n out' ∧ agree_off n blocks out out'
          ∧ holds out' blocks data.
Proof.
  intros ???? Hlen. unfold write_scattered. rewrite Hlen, Z.eqb_refl. simpl. by apply scatter_run.
Qed.

(** A stream found in the file. *)
Definition stored (out : list Z) (stream : option (list Z)) (ps : PlannedStream) : Prop :=
  match stream with Some data => holds out (ps_blocks ps) data | None => True end.

Lemma write_streams_run out streams planned :
  image n out → Forall2 plans ((λ s : option (list Z), zlen <$> s) <$> streams) planned →
  Forall in_file (planned ≫= ps_blocks) → NoDup (planned ≫= ps_blocks) →
  (∀ b, b ∈ planned ≫= ps_blocks → block_at out b = zeros) →
  ∃ out', write_streams out streams planned = Ok out' ∧ image n out'
          ∧ agree_off n (planned ≫= ps_blocks) out out' ∧ Forall2 (stored out') streams planned.
Proof.
  revert out planned. induction streams as [|s streams IH]; intros out planned Hi Hpl Hin Hnd Hz.
  { inversion Hpl; subst. exists out. by split_and!. }
  rewrite fmap_cons in Hpl. apply Forall2_cons_inv_l in Hpl as (ps & planned' & Hp & Hpl & ->).
  rewrite bind_cons in *. apply list.Forall_app in Hin as [Hin1 Hin2].
  apply list.NoDup_app in Hnd as (Hnd1 & Hdis & Hnd2).
  assert (∃ out1, (match s with
    | None => if ps_size ps =? NIL_STREAM_SIZE then Ok out
              else Err (InvalidLayout "planned stream no longer matches its input")
    | Some bytes => if zlen bytes =? ps_size ps then write_scattered out (ps_blocks ps) bytes
                    else Err (InvalidLayout "planned stream no longer matches its input")
    end) = Ok out1 ∧ image n out1 ∧ agree_off n (ps_blocks ps) out out1 ∧ stored out1 s ps)
    as (out1 & Hrun & Hi1 & Hag1 & Hst1).
  { destruct s as [data|]; simpl in Hp.
    - destruct Hp as (_ & -> & Hl). rewrite Z.eqb_refl.
      apply write_scattered_run; [done..|set_solver|done].
    - destruct Hp as [-> ->]. exists out. by split_and!. }
  destruct (IH out1 planned') as (out' & Hw & Hi' & Hag & Hst); [done..| |].
  { intros b Hb. rewrite (Hag1 b); [set_solver| |set_solver].
    rewrite list.Forall_forall in Hin2. by apply Hin2. }
  exists out'. simpl. rewrite Hrun. simpl. split; [done|]. split; [done|]. split.
  - intros b Hb Hnb. rewrite (Hag b), (Hag1 b) by set_solver. done.
  - constructor; [|done]. destruct s as [data|]; [|done]. simpl in *. eapply holds_ext; [|done].
    intros b Hb. apply Hag; [|set_solver]. rewrite list.Forall_forall in Hin1. by apply Hin1.
Qed.
End writing.

(** ** Fixed fields *)

#[local] Arguments le_bytes : simpl never.

Lemma put_range_app {A} start (xs ys l : list A) :
  0 ≤ start → start + zlen xs + zlen ys ≤ zlen l →
  put_range (start + zlen xs) ys (put_range start xs l) = put_range start (xs ++ ys) l.
Proof.
  intros H0 Hl. unfold put_range, zlen in *. rewrite (assoc_L (++) (take _ l) xs).
  rewrite take_app_length', drop_app_ge, drop_drop; [|rewrite ?length_app, ?length_take; lia..].
  rewrite !length_app, length_take, <-!(assoc_L (++)). do 4 f_equal. lia.
Qed.

Lemma put_u32_run slice offset value :
  0 ≤ offset → offset + 4 ≤ zlen slice → zlen slice ≤ usize_max →
  put_u32 slice offset value = Ok (put_range offset (le_bytes 4 value) slice).
Proof.
  intros H0 Hl Hm. unfold put_u32. rewrite (proj2 (checked_add_some _ _ _ (offset + 4))) by lia.
  simpl. unfold get_range. rewrite (proj2 (Z.leb_le _ _)) by lia.
  by rewrite (proj2 (Z.leb_le _ _)) by lia.
Qed.

Lemma zlen_le4 v : zlen (le_bytes 4 v) = 4.
Proof. unfold zlen. by rewrite length_le_bytes. Qed.

(** Values written one after the other from a given offset. *)
Definition le4s (vs : list Z) : list Z := vs ≫= le_bytes 4.

Lemma zlen_le4s vs : zlen (le4s vs) = 4 * zlen vs.
Proof.
  unfold zlen, le4s. induction vs as [|v vs IH]; [done|].
  rewrite bind_cons, length_app, length_le_bytes, length_cons. lia.
Qed.

Lemma zlen_put_range {A} start (new l : list A) :
  0 ≤ start → start + zlen new ≤ zlen l → zlen (put_range start new l) = zlen l.
Proof. intros. unfold zlen. by rewrite length_put_range. Qed.

(** One more value after the bytes already put. *)
Lemma put_u32_after slice start bytes value :
  0 ≤ start → start + zlen bytes + 4 ≤ zlen slice → zlen slice ≤ usize_max →
  put_u32 (put_range start bytes slice) (start + zlen bytes) value
  = Ok (put_range start (bytes ++ le_bytes 4 value) slice).
Proof.
  intros H0 Hl Hm. assert (0 ≤ zlen bytes) by (unfold zlen; lia).
  rewrite put_u32_run; [|lia|rewrite zlen_put_range; lia..]. f_equal.
  apply put_range_app; [lia|rewrite zlen_le4; lia].
Qed.

Lemma put_block_map_run slice bytes index blocks :
  zlen bytes = 4 * index → 0 ≤ index → 4 * index + 4 * zlen blocks ≤ zlen slice →
  zlen slice ≤ usize_max →
  put_block_map (put_range 0 bytes slice) index blocks
  = Ok (put_range 0 (bytes ++ le4s blocks) slice).
Proof.
  revert bytes index. induction blocks as [|b blocks IH]; intros bytes index Hb H0 Hl Hm; simpl.
  { by rewrite app_nil_r. }
  rewrite zlen_cons in Hl. pose proof (zlen_nonneg blocks).
  unfold checked_mul. rewrite (proj2 (Z.leb_le _ _)) by lia. simpl.
  replace (index * 4) with (0 + zlen bytes) by lia. rewrite put_u32_after by lia. simpl.
  rewrite IH; [|rewrite zlen_app, zlen_le4; lia|lia..].
  by rewrite <-(assoc_L (++)).
Qed.

Lemma put_range_nil {A} (l : list A) : put_range 0 [] l = l.
Proof. unfold put_range. by rewrite take_0, drop_0. Qed.

(** The first bytes of the superblock. *)
Definition header (layout : MsfLayout) : list Z :=
  MSF_700_MAGIC ++ le4s [BLOCK_SIZE; ACTIVE_FPM_BLOCK; ml_num_blocks layout;
                         ml_directory_size layout; 0; DIRECTORY_BLOCK_MAP].

Lemma superblock_run layout slice :
  zlen slice = BLOCK_SIZE → superblock layout slice = Ok (put_range 0 (header layout) slice).
Proof.
  intros Hl. change BLOCK_SIZE with 4096 in Hl.
  assert (4096 ≤ usize_max) as Hm by done. assert (zlen MSF_700_MAGIC = 32) as Hmagic by done.
  unfold superblock, copy_prefix. rewrite (proj2 (Z.leb_le _ _)) by lia. cbn [result_bind].
  change (MSF_700_MAGIC ++ drop (length MSF_700_MAGIC) slice) with (put_range 0 MSF_700_MAGIC slice).
  assert (∀ bytes off v, off = zlen bytes → off + 4 ≤ 4096 →
    put_u32 (put_range 0 bytes slice) off v = Ok (put_range 0 (bytes ++ le_bytes 4 v) slice)) as Hput.
  { intros bytes off v -> Hoff. rewrite <-(Z.add_0_l (zlen bytes)) at 1. apply put_u32_after; lia. }
  do 6 (rewrite Hput; [cbn [result_bind]|rewrite ?zlen_app, ?zlen_le4, Hmagic; lia|lia]).
  unfold header, le4s. by rewrite !bind_cons, <-!(assoc_L (++)).
Qed.

(** ** The free-page map *)

(** Bit [k] of a bitmap; a set bit is a free block. *)
Definition bit (bitmap : list Z) (k : Z) : bool :=
  Z.testbit (default 0 (bitmap !! Z.to_nat (k / 8))) (k mod 8).

Lemma mask_bit i j :
  0 ≤ i < 8 → 0 ≤ j < 8 → Z.testbit (255 - Z.shiftl 1 j) i = negb (i =? j).
Proof.
  intros Hi Hj.
  assert (i = 0 ∨ i = 1 ∨ i = 2 ∨ i = 3 ∨ i = 4 ∨ i = 5 ∨ i = 6 ∨ i = 7) as Hi' by lia.
  assert (j = 0 ∨ j = 1 ∨ j = 2 ∨ j = 3 ∨ j = 4 ∨ j = 5 ∨ j = 6 ∨ j = 7) as Hj' by lia.
  by destruct_or! Hi'; destruct_or! Hj'; subst.
Qed.

Lemma clear_bit_run bitmap b :
  length bitmap = bs → 0 ≤ b < MAX_BLOCKS →
  ∃ bitmap', clear_bit bitmap b = Ok bitmap' ∧ length bitmap' = bs
             ∧ ∀ k, 0 ≤ k → bit bitmap' k = bit bitmap k && negb (k =? b).
Proof.
  intros Hl Hb. pose proof bs_eq. unfold MAX_BLOCKS, BLOCK_SIZE in Hb.
  pose proof (Z.div_mod b 8). pose proof (Z.mod_pos_bound b 8).
  unfold clear_bit. destruct (lookup_lt_is_Some_2 bitmap (Z.to_nat (b / 8))) as [v Hv]; [lia|].
  rewrite Hv. eexists. split; [done|]. split; [by rewrite length_insert|].
  intros k Hk. unfold bit. pose proof (Z.div_mod k 8). pose proof (Z.mod_pos_bound k 8).
  pose proof (Z.div_pos k 8). pose proof (Z.div_pos b 8).
  destruct (decide (k / 8 = b / 8)) as [He|Hne].
  - rewrite He, list_lookup_insert_eq, Hv by (by eapply lookup_lt_Some). simpl.
    rewrite Z.land_spec, mask_bit by lia. f_equal. f_equal.
    apply eq_bool_prop_intro. rewrite !Is_true_true, !Z.eqb_eq. lia.
  - rewrite list_lookup_insert_ne by lia. rewrite (proj2 (Z.eqb_neq k b)) by congruence.
    by rewrite andb_true_r.
Qed.

Lemma clear_bits_run bitmap blocks :
  length bitmap = bs → Forall (λ b, 0 ≤ b < MAX_BLOCKS) blocks →
  ∃ bitmap', clear_bits bitmap blocks = Ok bitmap' ∧ length bitmap' = bs
             ∧ ∀ k, 0 ≤ k → bit bitmap' k = bit bitmap k && negb (bool_decide (k ∈ blocks)).
Proof.
  intros Hl Hb. revert bitmap Hl. induction Hb as [|b blocks Hb Hbs IH]; intros bitmap Hl; simpl.
  { exists bitmap. split_and!; [done..|]. intros k _.
    by rewrite andb_true_r. }
  destruct (clear_bit_run bitmap b Hl Hb) as (b1 & -> & Hl1 & Hk1). simpl.
  destruct (IH b1 Hl1) as (b2 & -> & Hl2 & Hk2). exists b2. split_and!; [done..|].
  intros k Hk. rewrite Hk2, Hk1, <-andb_assoc by done. f_equal.
  apply eq_bool_prop_intro. rewrite !Is_true_true, andb_true_iff, !negb_true_iff, !bool_decide_eq_false.
  rewrite Z.eqb_neq. set_solver.
Qed.

(** The bitmap of a file of [n] blocks: blocks of the file are taken, all
    others are free. *)
Definition free_page_map (n : Z) (bitmap : list Z) : Prop :=
  ∀ k, 0 ≤ k < MAX_BLOCKS → bit bitmap k = (n <=? k).

Lemma bitmap_run n :
  0 ≤ n ≤ MAX_BLOCKS →
  ∃ bitmap, clear_bits (replicate (Z.to_nat BLOCK_SIZE) 255) (seqZ 0 n) = Ok bitmap
            ∧ length bitmap = bs ∧ free_page_map n bitmap.
Proof.
  intros Hn. rewrite bs_def. pose proof bs_eq.
  destruct (clear_bits_run (replicate bs 255) (seqZ 0 n)) as (bm & -> & Hl & Hk).
  { by rewrite length_replicate. }
  { apply list.Forall_forall. intros b Hb%elem_of_seqZ. lia. }
  exists bm. split_and!; [done..|]. intros k Hk'. rewrite Hk by lia. unfold bit.
  pose proof (Z.div_mod k 8). pose proof (Z.mod_pos_bound k 8).
  unfold MAX_BLOCKS, BLOCK_SIZE in Hk'.
  rewrite lookup_replicate_2 by lia. simpl. change 255 with (Z.ones 8).
  rewrite Z.ones_spec_low by lia. simpl. apply eq_bool_prop_intro.
  rewrite !Is_true_true, negb_true_iff, bool_decide_eq_false, Z.leb_le, elem_of_seqZ. lia.
Qed.

Section maps.
Context (n : Z) (Hn : 4 ≤ n ≤ MAX_BLOCKS).

Lemma file_fits : n * BLOCK_SIZE ≤ usize_max.
Proof. unfold MAX_BLOCKS, BLOCK_SIZE, usize_max, u64_max in *. lia. Qed.

(** Two buffers agree on all blocks that are not later free-page maps. *)
Definition agree_data (out out' : list Z) : Prop :=
  ∀ b, 0 ≤ b < n → is_fpm_block b = false ∨ b < BLOCK_SIZE → block_at out' b = block_at out b.

Lemma fill_block_run out b :
  image n out → 0 ≤ b < n →
  ∃ out', with_block out b (fill 255) = Ok out' ∧ image n out'
          ∧ ∀ b', 0 ≤ b' → b' ≠ b → block_at out' b' = block_at out b'.
Proof.
  intros Hi Hb. destruct (with_block_run n out b (fill 255) (replicate bs 255))
    as (out' & Hr & Hi' & [_ Ho]); [done|done|apply file_fits| |by rewrite length_replicate|eauto].
  unfold fill. by rewrite (length_block_at n).
Qed.

Lemma fill_interval_run out start phases :
  image n out → BLOCK_SIZE ≤ start ≤ MAX_BLOCKS →
  Forall (λ p, 0 ≤ p ≤ 2 ∧ is_fpm_block (start + p) = true) phases →
  ∃ out', fill_interval out n start phases = Ok out' ∧ image n out' ∧ agree_data out out'.
Proof.
  intros Hi Hs Hp. revert out Hi. induction Hp as [|p phases [Hp Hf] Hps IH]; intros out Hi; simpl.
  { exists out. by split_and!. }
  rewrite (proj2 (checked_add_some _ _ _ (start + p)))
    by (unfold MAX_BLOCKS, BLOCK_SIZE, u32_max in *; lia). simpl.
  destruct (Z.ltb_spec (start + p) n) as [Hlt|Hge]; simpl; [|by apply IH].
  destruct (fill_block_run out (start + p) Hi) as (out1 & -> & Hi1 & Ho1).
  { unfold BLOCK_SIZE in *. lia. }
  simpl. destruct (IH out1 Hi1) as (out2 & Hr & Hi2 & Ha). exists out2. split_and!; [done..|].
  intros b Hb Hd. rewrite (Ha b Hb Hd). apply Ho1; [lia|]. intros ->.
  destruct Hd as [Hd|Hd]; [congruence|lia].
Qed.

Lemma fill_intervals_run fuel out j :
  image n out → 1 ≤ j → n ≤ BLOCK_SIZE * (j + Z.of_nat fuel - 1) → (0 < fuel)%nat →
  ∃ out', fill_intervals fuel out n (BLOCK_SIZE * j) = Ok out' ∧ image n out' ∧ agree_data out out'.
Proof.
  revert out j. induction fuel as [|fuel IH]; intros out j Hi Hj Hfuel Hpos; [lia|]. cbn [fill_intervals].
  destruct (Z.ltb_spec (BLOCK_SIZE * j) n) as [Hlt|Hge]; [|exists out; by split_and!].
  unfold BLOCK_SIZE in *. pose proof Hn as Hn'. unfold MAX_BLOCKS, BLOCK_SIZE in Hn'.
  destruct (fill_interval_run out (4096 * j) [1; 2]) as (out1 & Hr & Hi1 & Ha1); [done|..].
  { unfold MAX_BLOCKS, BLOCK_SIZE. lia. }
  { assert (∀ p, 0 ≤ p < 4096 → (4096 * j + p) mod 4096 = p) as Hmod.
    { intros p Hp. rewrite Z.add_comm, Z.mul_comm, Z.mod_add by lia. by apply Z.mod_small. }
    repeat constructor; try lia; apply fpm_phases; rewrite Hmod by lia; auto. }
  change [ALTERNATE_FPM_BLOCK; ACTIVE_FPM_BLOCK] with [1; 2]. rewrite Hr. cbn [result_bind].
  rewrite (proj2 (checked_add_some _ _ _ (4096 * (j + 1)))) by (unfold u32_max; lia).
  cbn [ok_or result_bind].
  destruct (IH out1 (j + 1)) as (out2 & Hr2 & Hi2 & Ha2); [done|lia|lia|lia|].
  exists out2. split_and!; [done..|]. intros b Hb Hd. by rewrite (Ha2 b Hb Hd), (Ha1 b Hb Hd).
Qed.

Lemma copy_block_run bitmap slice : length bitmap = length slice → copy_block bitmap slice = Ok bitmap.
Proof. intros Hl. unfold copy_block, zlen. by rewrite Hl, Z.eqb_refl. Qed.

Lemma write_free_page_maps_run out :
  image n out →
  ∃ out' bitmap, write_free_page_maps out n = Ok out' ∧ image n out' ∧ free_page_map n bitmap
    ∧ block_at out' ALTERNATE_FPM_BLOCK = bitmap ∧ block_at out' ACTIVE_FPM_BLOCK = bitmap
    ∧ ∀ b, 0 ≤ b < n → is_fpm_block b = false → block_at out' b = block_at out b.
Proof.
  intros Hi. pose proof file_fits as Hfit.
  unfold write_free_page_maps. rewrite (proj2 (Z.eqb_neq _ _)), (proj2 (Z.ltb_ge _ _)) by lia.
  cbn [orb fail_if result_bind]. destruct (bitmap_run n) as (bm & -> & Hl & Hbm); [lia|].
  cbn [result_bind].
  destruct (with_block_run n out 1 (copy_block bm) bm) as (out1 & Hr1 & Hi1 & [Hs1 Ho1]);
    [done|lia|done|by apply copy_block_run; rewrite (length_block_at n); [..|lia]|done|].
  change ALTERNATE_FPM_BLOCK with 1 in *. change ACTIVE_FPM_BLOCK with 2 in *.
  rewrite Hr1. cbn [result_bind].
  destruct (with_block_run n out1 2 (copy_block bm) bm) as (out2 & Hr2 & Hi2 & [Hs2 Ho2]);
    [done|lia|done|by apply copy_block_run; rewrite (length_block_at n); [..|lia]|done|].
  rewrite Hr2. cbn [result_bind].
  destruct (fill_intervals_run 8 out2 1) as (out3 & Hr3 & Hi3 & Ha3); [done|lia| |lia|].
  { unfold MAX_BLOCKS, BLOCK_SIZE in *. lia. }
  rewrite Z.mul_1_r in Hr3. exists out3, bm. rewrite Hr3. unfold BLOCK_SIZE in *.
  split_and!; [done|done|done|..].
  - rewrite (Ha3 1) by (unfold BLOCK_SIZE; lia). by rewrite Ho2 by lia.
  - by rewrite (Ha3 2) by (unfold BLOCK_SIZE; lia).
  - intros b Hb Hf. rewrite (Ha3 b) by auto. rewrite Ho2, Ho1; [done|lia| |lia|]; by intros ->.
Qed.
End maps.

(** ** The directory *)

Lemma push_u32s d vs : foldl push_u32 d vs = d ++ le4s vs.
Proof.
  unfold le4s. revert d. induction vs as [|v vs IH]; intros d; simpl; [by rewrite app_nil_r|].
  rewrite IH. unfold push_u32. by rewrite <-(assoc_L (++)).
Qed.

Lemma le4s_app xs ys : le4s (xs ++ ys) = le4s xs ++ le4s ys.
Proof. unfold le4s. apply bind_app. Qed.

Definition directory (streams : list PlannedStream) : list Z :=
  le4s (zlen streams :: (ps_size <$> streams) ++ (streams ≫= ps_blocks)).

Lemma push_sizes d (streams : list PlannedStream) :
  foldl (λ d stream, push_u32 d (ps_size stream)) d streams = d ++ le4s (ps_size <$> streams).
Proof.
  rewrite <-push_u32s. revert d. induction streams as [|ps streams IH]; intros d; [done|].
  rewrite fmap_cons. apply IH.
Qed.

Lemma push_lists d (streams : list PlannedStream) :
  foldl (λ d stream, foldl push_u32 d (ps_blocks stream)) d streams
  = d ++ le4s (streams ≫= ps_blocks).
Proof.
  revert d. induction streams as [|ps streams IH]; intros d; [by rewrite app_nil_r|].
  cbn [foldl]. by rewrite push_u32s, IH, bind_cons, le4s_app, (assoc_L (++)).
Qed.

Lemma directory_pushed streams :
  foldl (λ d stream, foldl push_u32 d (ps_blocks stream))
    (foldl (λ d stream, push_u32 d (ps_size stream)) (push_u32 [] (zlen streams)) streams) streams
  = directory streams.
Proof.
  rewrite push_lists, push_sizes. unfold directory, push_u32. rewrite app_nil_l.
  change (zlen streams :: ?l) with ([zlen streams] ++ l). rewrite !le4s_app, (assoc_L (++)).
  done.
Qed.

Lemma zlen_directory sizes layout :
  layout_ok sizes layout → zlen (directory (ml_streams layout)) = ml_directory_size layout.
Proof.
  intros [_ Hpl Hsz _ _ _]. unfold directory. rewrite zlen_le4s, zlen_cons, zlen_app, Hsz.
  rewrite (plans_total _ _ Hpl). unfold directory_needed, zlen.
  rewrite length_fmap, (Forall2_length Hpl). lia.
Qed.

Lemma serialize_directory_run can_reserve sizes layout :
  layout_ok sizes layout →
  ends (serialize_directory can_reserve layout)
    (λ d, d = directory (ml_streams layout) ∧ zlen d = ml_directory_size layout)
    (out_of_memory can_reserve).
Proof.
  intros Hl. pose proof Hl as [[Hc _] Hpl _ _ _ _]. unfold serialize_directory.
  apply ends_bind, ends_fail_if; [intros _|].
  2: { intros Hd. exists "MSF stream directory", (ml_directory_size layout). split; [done|].
       by destruct (can_reserve _ _). }
  apply ends_bind, ends_fail_if; intros H1; autorewrite with rust in H1.
  2: { unfold zlen in H1. rewrite <-(Forall2_length Hpl) in H1.
       unfold zlen, MAX_STREAMS, u16_max, u32_max in *. lia. }
  rewrite directory_pushed, (zlen_directory _ _ Hl), Z.eqb_refl. cbn [negb fail_if result_bind ends].
  split; [done|by apply (zlen_directory sizes)].
Qed.

(** ** Reading a container *)

(** A reader of the MSF 7.00 format, written from the format's description:
    the superblock names the directory block map, the map the directory
    blocks, and the directory the sizes and blocks of the streams. *)
Definition read_u32 (l : list Z) : Z := from_le_bytes (take 4 l).

Fixpoint read_u32s (count : nat) (l : list Z) : option (list Z * list Z) :=
  match count with
  | O => Some ([], l)
  | S count' =>
      if (length l <? 4)%nat then None
      else match read_u32s count' (drop 4 l) with
      | Some (vs, rest) => Some (read_u32 l :: vs, rest)
      | None => None
      end
  end.

(** The bytes stored in a list of blocks. *)
Definition read_blocks (file : list Z) (size : Z) (blocks : list Z) : list Z :=
  take (Z.to_nat size) (mjoin (block_at file <$> blocks)).

Fixpoint read_streams (file sizes l : list Z) : option (list (option (list Z))) :=
  match sizes with
  | [] => Some []
  | size :: sizes' =>
      let count := if size =? NIL_STREAM_SIZE then 0 else div_ceil size BLOCK_SIZE in
      match read_u32s (Z.to_nat count) l with
      | Some (blocks, rest) =>
          match read_streams file sizes' rest with
          | Some streams =>
              Some ((if size =? NIL_STREAM_SIZE then None
                     else Some (read_blocks file size blocks)) :: streams)
          | None => None
          end
      | None => None
      end
  end.

Definition read_directory (file dir : list Z) : option (list (option (list Z))) :=
  match read_u32s 1 dir with
  | Some ([count], rest) =>
      match read_u32s (Z.to_nat count) rest with
      | Some (sizes, rest) => read_streams file sizes rest
      | None => None
      end
  | _ => None
  end.

Definition read_msf (file : list Z) : option (list (option (list Z))) :=
  if negb (bool_decide (take 32 file = MSF_700_MAGIC)) then None
  else match read_u32s 6 (drop 32 file) with
  | Some ([block_size; _; num_blocks; directory_size; _; block_map], _) =>
      if (block_size =? BLOCK_SIZE) && (num_blocks * BLOCK_SIZE =? zlen file) then
        match read_u32s (Z.to_nat (div_ceil directory_size BLOCK_SIZE)) (block_at file block_map) with
        | Some (blocks, _) => read_directory file (read_blocks file directory_size blocks)
        | None => None
        end
      else None
  | _ => None
  end.

Lemma read_u32s_run vs rest :
  Forall in_u32 vs → read_u32s (length vs) (le4s vs ++ rest) = Some (vs, rest).
Proof.
  induction 1 as [|v vs Hv Hvs IH]; [done|]. unfold le4s in *. rewrite bind_cons, <-(assoc_L (++)).
  cbn [length read_u32s]. rewrite length_app, length_le_bytes.
  rewrite (proj2 (Nat.ltb_ge _ _)) by lia.
  rewrite drop_app_length' by (by rewrite length_le_bytes). rewrite IH. unfold read_u32.
  rewrite take_app_length' by (by rewrite length_le_bytes). rewrite from_le_bytes_le; [done|].
  unfold in_u32, u32_max in Hv. change (256 ^ Z.of_nat 4) with (2 ^ 32). lia.
Qed.

Lemma read_blocks_holds out blocks data :
  holds out blocks data → read_blocks out (zlen data) blocks = data.
Proof.
  unfold holds, read_blocks, zlen. intros ->. rewrite Nat2Z.id. by apply take_app_length'.
Qed.

Lemma read_streams_run out streams planned rest :
  Forall2 plans ((λ s : option (list Z), zlen <$> s) <$> streams) planned →
  Forall2 (stored out) streams planned → Forall in_u32 (planned ≫= ps_blocks) →
  read_streams out (ps_size <$> planned) (le4s (planned ≫= ps_blocks) ++ rest) = Some streams.
Proof.
  revert planned. induction streams as [|s streams IH]; intros planned Hp Hs Hb.
  { by inversion Hp. }
  apply Forall2_cons_inv_l in Hs as (ps & planned' & Hs & Hss & ->).
  rewrite fmap_cons in Hp. apply Forall2_cons_1 in Hp as [Hp Hpp].
  rewrite bind_cons in *. apply list.Forall_app in Hb as [Hb1 Hb2].
  rewrite le4s_app, <-(assoc_L (++)). rewrite fmap_cons. cbn [read_streams].
  assert (Z.to_nat (if ps_size ps =? NIL_STREAM_SIZE then 0 else div_ceil (ps_size ps) BLOCK_SIZE)
    = length (ps_blocks ps)) as ->.
  { destruct s as [data|]; simpl in Hp.
    - destruct Hp as (Hlt & -> & Hl). rewrite (proj2 (Z.eqb_neq _ _)) by lia. unfold zlen in *. lia.
    - destruct Hp as [-> ->]. by rewrite Z.eqb_refl. }
  rewrite read_u32s_run by done. rewrite IH by done. do 2 f_equal.
  destruct s as [data|]; simpl in Hp, Hs.
  - destruct Hp as (Hlt & -> & Hl). rewrite (proj2 (Z.eqb_neq _ _)) by lia.
    by rewrite read_blocks_holds.
  - destruct Hp as [-> ->]. by rewrite Z.eqb_refl.
Qed.

Lemma take_put_range start (new l : list Z) (k : nat) :
  start = 0 → (k ≤ length new)%nat → take k (put_range start new l) = take k new.
Proof. intros -> Hk. unfold put_range. simpl. by rewrite take_app_le. Qed.

(** ** The whole file *)

Lemma blank_image n :
  0 ≤ n → image n (replicate (Z.to_nat (n * BLOCK_SIZE)) 0)
  ∧ ∀ b, 0 ≤ b < n → block_at (replicate (Z.to_nat (n * BLOCK_SIZE)) 0) b = zeros.
Proof.
  intros Hn. pose proof bs_eq. split; [unfold image; by rewrite zlen_replicate by (unfold BLOCK_SIZE; lia)|].
  intros b Hb. pose proof (offset_eq b). unfold block_at, zeros.
  rewrite drop_replicate, take_replicate. f_equal. unfold BLOCK_SIZE in *. lia.
Qed.

Lemma layout_blocks sizes l :
  Forall size_ok sizes → layout_ok sizes l →
  4 ≤ ml_num_blocks l ≤ MAX_BLOCKS
  ∧ NoDup ((ml_streams l ≫= ps_blocks) ++ ml_directory_blocks l)
  ∧ ∀ b, b ∈ (ml_streams l ≫= ps_blocks) ++ ml_directory_blocks l →
      4 ≤ b < ml_num_blocks l ∧ is_fpm_block b = false.
Proof.
  intros Hok [_ _ _ _ Hasc Hmax]. pose proof (ascending_le _ _ _ Hasc) as Hle.
  change FIRST_ALLOCATABLE_BLOCK with 4 in *.
  split; [done|]. split; [by eapply ascending_NoDup|]. intros b Hb. by eapply ascending_elem.
Qed.

(** The file after its superblock and free-page maps. *)
Record prologue (l : MsfLayout) (bitmap out : list Z) : Prop := {
  plg_image : image (ml_num_blocks l) out;
  plg_super : block_at out 0 = put_range 0 (header l) zeros;
  plg_map : free_page_map (ml_num_blocks l) bitmap;
  plg_alternate : block_at out ALTERNATE_FPM_BLOCK = bitmap;
  plg_active : block_at out ACTIVE_FPM_BLOCK = bitmap;
  plg_blank : ∀ b, 0 < b < ml_num_blocks l → is_fpm_block b = false → block_at out b = zeros
}.

Lemma zlen_zeros : zlen zeros = BLOCK_SIZE.
Proof. unfold zlen, zeros. rewrite length_replicate, bs_eq. done. Qed.

Lemma zlen_header l : zlen (header l) = 56.
Proof. unfold header. by rewrite zlen_app, zlen_le4s. Qed.

Lemma prologue_run l :
  4 ≤ ml_num_blocks l ≤ MAX_BLOCKS →
  ∃ out1 out2 bitmap,
    write_superblock (replicate (Z.to_nat (ml_num_blocks l * BLOCK_SIZE)) 0) l = Ok out1
    ∧ write_free_page_maps out1 (ml_num_blocks l) = Ok out2 ∧ prologue l bitmap out2.
Proof.
  intros Hn. destruct (blank_image (ml_num_blocks l)) as [Hi Hz]; [lia|].
  destruct (with_block_run (ml_num_blocks l) _ SUPER_BLOCK (superblock l)
    (put_range 0 (header l) zeros) Hi) as (out1 & Hr1 & Hi1 & [Hs1 Ho1]).
  { unfold SUPER_BLOCK. lia. }
  { by apply file_fits. }
  { rewrite Hz by (unfold SUPER_BLOCK; lia). apply superblock_run, zlen_zeros. }
  { rewrite length_put_range; [by unfold zeros; rewrite length_replicate|lia|].
    rewrite zlen_header, zlen_zeros. unfold BLOCK_SIZE. lia. }
  destruct (write_free_page_maps_run (ml_num_blocks l) Hn out1 Hi1)
    as (out2 & bm & Hr2 & Hi2 & Hbm & Ha & Hb & Ho2).
  exists out1, out2, bm. split_and!; [done..|]. change SUPER_BLOCK with 0 in *. split; try assumption.
  - rewrite (Ho2 0); [done|lia|done].
  - intros b Hb' Hf. rewrite Ho2, Ho1, Hz by (lia || done). done.
Qed.

(** The finished file. *)
Record finished (l : MsfLayout) (streams : list (option (list Z))) (bitmap out : list Z) : Prop := {
  fin_image : image (ml_num_blocks l) out;
  fin_super : block_at out 0 = put_range 0 (header l) zeros;
  fin_block_map : block_at out DIRECTORY_BLOCK_MAP
                  = put_range 0 (le4s (ml_directory_blocks l)) zeros;
  fin_map : free_page_map (ml_num_blocks l) bitmap;
  fin_alternate : block_at out ALTERNATE_FPM_BLOCK = bitmap;
  fin_active : block_at out ACTIVE_FPM_BLOCK = bitmap;
  fin_streams : Forall2 (stored out) streams (ml_streams l);
  fin_directory : holds out (ml_directory_blocks l) (directory (ml_streams l))
}.

Lemma stored_ext out out' streams planned :
  (∀ b, b ∈ planned ≫= ps_blocks → block_at out' b = block_at out b) →
  Forall2 (stored out) streams planned → Forall2 (stored out') streams planned.
Proof.
  intros Hb Hs. induction Hs as [|s ps streams planned Hs Hss IH]; constructor.
  - destruct s as [data|]; [|done]. eapply holds_ext; [|exact Hs]. intros b Hin. apply Hb.
    rewrite bind_cons. set_solver.
  - apply IH. intros b Hin. apply Hb. rewrite bind_cons. set_solver.
Qed.

Lemma map_block_run n out blocks :
  4 ≤ n ≤ MAX_BLOCKS → image n out → block_at out DIRECTORY_BLOCK_MAP = zeros →
  zlen blocks ≤ MAX_DIRECTORY_BLOCKS →
  ∃ out', write_directory_block_map out blocks = Ok out' ∧ image n out'
          ∧ block_updated out DIRECTORY_BLOCK_MAP (put_range 0 (le4s blocks) zeros) out'.
Proof.
  intros Hn Hi Hz Hl. unfold write_directory_block_map.
  change MAX_DIRECTORY_BLOCKS with 1024 in *. rewrite (proj2 (Z.ltb_ge _ _)) by lia.
  cbn [fail_if result_bind]. pose proof zlen_zeros as Hzl. unfold BLOCK_SIZE in Hzl.
  pose proof (zlen_nonneg blocks). apply with_block_run; [done| |by apply file_fits| |].
  - change DIRECTORY_BLOCK_MAP with 3. lia.
  - rewrite Hz. rewrite <-(put_range_nil zeros) at 1.
    rewrite put_block_map_run; [done|done|done|lia|by rewrite Hzl].
  - rewrite length_put_range; [by unfold zeros; rewrite length_replicate|lia|].
    rewrite zlen_le4s. lia.
Qed.

Lemma body_run can_reserve sizes l streams bitmap out :
  sizes = ((λ s : option (list Z), zlen <$> s) <$> streams) →
  Forall size_ok sizes → layout_ok sizes l → prologue l bitmap out →
  ends (let? out := write_streams out streams (ml_streams l) in
        let? dir := serialize_directory can_reserve l in
        let? out := write_scattered out (ml_directory_blocks l) dir in
        write_directory_block_map out (ml_directory_blocks l))
    (finished l streams bitmap) (out_of_memory can_reserve).
Proof.
  intros -> Hok Hl [Hi Hsup Hmap Halt Hact Hblank].
  destruct (layout_blocks _ _ Hok Hl) as (Hn & Hnd & Hb).
  pose proof (file_fits _ Hn) as Hfit. assert (0 ≤ ml_num_blocks l) as Hn0 by lia.
  apply list.NoDup_app in Hnd as (Hnd1 & Hdis & Hnd2).
  setoid_rewrite elem_of_app in Hb.
  destruct (write_streams_run (ml_num_blocks l) Hn0 Hfit out streams (ml_streams l))
    as (out1 & -> & Hi1 & Hag1 & Hst); [done|apply Hl| |done| |].
  { apply list.Forall_forall. intros b Hin. destruct (Hb b) as [? _]; [by left|]. unfold in_file. lia. }
  { intros b Hin. destruct (Hb b) as [? ?]; [by left|]. apply Hblank; [lia|done]. }
  cbn [result_bind]. apply ends_bind.
  eapply ends_mono; [by eapply serialize_directory_run| |done]. intros dir [-> Hdlen].
  destruct (write_scattered_run (ml_num_blocks l) Hn0 Hfit out1 (ml_directory_blocks l)
    (directory (ml_streams l))) as (out2 & -> & Hi2 & Hag2 & Hdir); [done| |done| | |].
  { apply list.Forall_forall. intros b Hin. destruct (Hb b) as [? _]; [by right|]. unfold in_file. lia. }
  { intros b Hin. destruct (Hb b) as [? ?]; [by right|]. rewrite (Hag1 b); [|lia|intros Hin'; exact (Hdis b Hin' Hin)].
    apply Hblank; [lia|done]. }
  { rewrite Hdlen. symmetry. apply Hl. }
  cbn [result_bind].
  assert (∀ b, 0 ≤ b < 4 → block_at out2 b = block_at out b) as Hlow.
  { intros b Hb4. rewrite (Hag2 b), (Hag1 b); [done|lia| |lia|]; intros Hin;
      (destruct (Hb b) as [? _]; [auto|lia]). }
  destruct (map_block_run (ml_num_blocks l) out2 (ml_directory_blocks l))
    as (out3 & -> & Hi3 & [Hs3 Ho3]); [done|done| | |].
  { rewrite Hlow by done. apply Hblank; [change DIRECTORY_BLOCK_MAP with 3; lia|done]. }
  { rewrite (lay_directory _ _ Hl), (lay_size _ _ Hl). by apply fits_small; [|apply Hl]. }
  change DIRECTORY_BLOCK_MAP with 3 in *. cbn [ends]. split; [exact Hi3| |exact Hs3|exact Hmap|..].
  - by rewrite Ho3, Hlow by lia.
  - rewrite Ho3, Hlow by done. exact Halt.
  - rewrite Ho3, Hlow by done. exact Hact.
  - eapply stored_ext; [|exact Hst]. intros b Hin. destruct (Hb b) as [? _]; [by left|].
    rewrite Ho3 by lia. apply Hag2; [lia|exact (Hdis b Hin)].
  - eapply holds_ext; [|exact Hdir]. intros b Hin. destruct (Hb b) as [? _]; [by right|].
    by rewrite Ho3 by lia.
Qed.

Lemma put_range_0 (new l : list Z) : put_range 0 new l = new ++ drop (length new) l.
Proof. done. Qed.

Lemma file_head out : out = block_at out 0 ++ drop bs out.
Proof. unfold block_at, offset. simpl. by rewrite drop_0, take_drop. Qed.

(** The fields at the start of the file. *)
Lemma head_fields l out :
  block_at out 0 = put_range 0 (header l) zeros →
  take 32 out = MSF_700_MAGIC
  ∧ ∃ rest, drop 32 out = le4s [BLOCK_SIZE; ACTIVE_FPM_BLOCK; ml_num_blocks l;
                                ml_directory_size l; 0; DIRECTORY_BLOCK_MAP] ++ rest.
Proof.
  intros Hsup. rewrite (file_head out), Hsup, put_range_0. unfold header. rewrite <-!(assoc_L (++)).
  split; [by rewrite take_app_length'|]. rewrite drop_app_length' by done. by eexists.
Qed.

Lemma read_directory_run out l streams :
  Forall2 plans ((λ s : option (list Z), zlen <$> s) <$> streams) (ml_streams l) →
  Forall2 (stored out) streams (ml_streams l) → Forall in_u32 (ml_streams l ≫= ps_blocks) →
  zlen streams ≤ MAX_STREAMS → read_directory out (directory (ml_streams l)) = Some streams.
Proof.
  intros Hpl Hst Hb Hc. assert (zlen (ml_streams l) = zlen streams) as Hlen.
  { unfold zlen. by rewrite (Forall2_length Hst). }
  assert (Forall in_u32 (ps_size <$> ml_streams l)) as Hsizes.
  { clear -Hpl. revert Hpl. generalize (ml_streams l). intros planned Hpl.
    remember ((λ s : option (list Z), zlen <$> s) <$> streams) as sizes eqn:Hs. revert streams Hs.
    induction Hpl as [|s ps sizes planned Hp Hpl IH]; intros streams Hs; [constructor|].
    destruct streams as [|st streams]; simplify_eq/=. constructor; [|by eapply IH].
    unfold in_u32. destruct st as [data|]; simpl in Hp.
    - destruct Hp as (? & -> & _). unfold zlen, NIL_STREAM_SIZE in *. lia.
    - destruct Hp as [-> _]. done. }
  unfold read_directory, directory. change (zlen (ml_streams l) :: ?x) with ([zlen (ml_streams l)] ++ x).
  rewrite !le4s_app. change 1%nat with (length [zlen (ml_streams l)]).
  rewrite read_u32s_run.
  2: { constructor; [|done]. unfold in_u32, MAX_STREAMS, u16_max, u32_max, zlen in *. lia. }
  replace (Z.to_nat (zlen (ml_streams l))) with (length (ps_size <$> ml_streams l))
    by (rewrite length_fmap; unfold zlen; lia).
  rewrite read_u32s_run by done. rewrite <-(app_nil_r (le4s (ml_streams l ≫= ps_blocks))).
  by apply read_streams_run.
Qed.

Lemma read_finished sizes l streams bitmap out :
  sizes = ((λ s : option (list Z), zlen <$> s) <$> streams) →
  Forall size_ok sizes → layout_ok sizes l → finished l streams bitmap out →
  read_msf out = Some streams.
Proof.
  intros -> Hok Hl [Hi Hsup Hmap _ _ _ Hst Hdir].
  destruct (layout_blocks _ _ Hok Hl) as (Hn & _ & Hb). pose proof Hl as [Hfits Hpl Hsz Hdb _ _].
  destruct (fits_small _ Hok Hfits) as (_ & Hsmall & _). destruct Hfits as [Hc _].
  assert (Forall in_u32 ((ml_streams l ≫= ps_blocks) ++ ml_directory_blocks l)) as Hbl.
  { apply list.Forall_forall. intros b Hin. destruct (Hb b Hin) as [? _].
    unfold in_u32, MAX_BLOCKS, BLOCK_SIZE, u32_max in *. lia. }
  apply list.Forall_app in Hbl as [Hbl1 Hbl2].
  assert (ml_directory_size l = zlen (directory (ml_streams l))) as Hdl.
  { unfold directory. rewrite zlen_le4s, zlen_cons, zlen_app, Hsz, (plans_total _ _ Hpl).
    unfold directory_needed, zlen. rewrite !length_fmap, (Forall2_length Hst). lia. }
  destruct (head_fields l out Hsup) as [Hmagic [rest Hfields]].
  unfold read_msf. rewrite Hmagic, bool_decide_eq_true_2 by done. cbn [negb]. rewrite Hfields.
  match goal with |- context [le4s ?vs] => change 6%nat with (length vs) end.
  rewrite read_u32s_run.
  2: { pose proof (zlen_nonneg (directory (ml_streams l))).
       repeat constructor; unfold MAX_BLOCKS, BLOCK_SIZE, u32_max in *; done || lia. }
  rewrite Z.eqb_refl, (proj2 (Z.eqb_eq _ _)) by (unfold image in Hi; lia). cbn [andb].
  rewrite Hmap, put_range_0, <-Hdb. unfold zlen at 1. rewrite Nat2Z.id, read_u32s_run by done.
  rewrite Hdl, read_blocks_holds by done. apply read_directory_run; [done..|].
  unfold zlen in *. by rewrite length_fmap in Hc.
Qed.

(** The streams a container can hold: stream zero is present and empty, there
    are at most 65535 streams, and the streams and their directory need at most
    the 32750 blocks that a file of 32768 blocks has left. *)
Definition acceptable (streams : list (option (list Z))) : Prop :=
  head streams = Some (Some []) ∧ fits ((λ s : option (list Z), zlen <$> s) <$> streams).

Lemma write_msf_ends can_reserve streams :
  ends (write_msf can_reserve streams)
    (λ out, acceptable streams ∧ read_msf out = Some streams
            ∧ ∃ n bitmap, image n out ∧ n ≤ MAX_BLOCKS ∧ free_page_map n bitmap
                ∧ block_at out ALTERNATE_FPM_BLOCK = bitmap
                ∧ block_at out ACTIVE_FPM_BLOCK = bitmap)
    (refused_for can_reserve (acceptable streams)).
Proof.
  assert (Forall size_ok ((λ s : option (list Z), zlen <$> s) <$> streams)) as Hok.
  { apply list.Forall_fmap, list.Forall_forall. intros [data|] _ n; simpl; [|done].
    intros [= <-]. apply zlen_nonneg. }
  unfold write_msf. apply ends_bind, ends_fail_if; intros H1; autorewrite with rust in H1.
  2: { split; [done|]. right. intros [_ [Hc _]]. unfold zlen in *. rewrite length_fmap in Hc. lia. }
  apply ends_bind, ends_fail_if; intros H2; autorewrite with rust in H2.
  2: { split; [done|]. right. by intros [? _]. }
  apply ends_bind, try_reserve_ends. apply ends_bind.
  eapply ends_mono; [by apply plan_layout_ends| |intros e; apply refused_mono; by intros [_ ?]].
  intros l Hl. destruct (layout_blocks _ _ Hok Hl) as (Hn & _ & _).
  apply ends_bind. rewrite (proj2 (checked_mul_some _ _ _ (ml_num_blocks l * BLOCK_SIZE)))
    by (split; [done|by apply file_fits]). cbn [ok_or ends].
  apply ends_bind, try_reserve_ends.
  destruct (prologue_run l Hn) as (out1 & out2 & bm & -> & Hfpm & Hpro). cbn [result_bind].
  rewrite Hfpm. cbn [result_bind].
  eapply ends_mono; [by eapply body_run|..].
  - intros out Hfin. split; [split; [done|apply Hl]|]. split; [by eapply read_finished|].
    exists (ml_num_blocks l), bm. destruct Hfin as [? _ _ ? ? ? _ _]. split_and!; [assumption|lia|assumption..].
  - intros e He. split; [by destruct He as (ctx & count & -> & _)|by left].
Qed.

(** C20: what the MSF writer writes is what a reader of the format reads.  The
    file that [write_msf] returns, read from its superblock through the
    directory block map and the stream directory, gives back exactly the
    streams that were written, nil streams and empty streams told apart; the
    file is a whole number of blocks, at most 32768; and its two free-page maps
    are equal and mark exactly the blocks of the file as taken. *)
Theorem msf_roundtrip can_reserve streams out :
  write_msf can_reserve streams = Ok out →
  read_msf out = Some streams
  ∧ ∃ n bitmap, image n out ∧ n ≤ MAX_BLOCKS ∧ free_page_map n bitmap
      ∧ block_at out ALTERNATE_FPM_BLOCK = bitmap ∧ block_at out ACTIVE_FPM_BLOCK = bitmap.
Proof.
  intros Hw. pose proof (write_msf_ends can_reserve streams) as He. rewrite Hw in He. apply He.
Qed.

(** C35: the MSF writer accepts exactly what fits.  Whatever memory is
    available it returns, with a file or with a refusal, and never panics, runs
    out of loop steps or reports a fault of its own layout.  It writes only what
    is acceptable (stream zero present and empty, at most 65535 streams, at
    most 32750 blocks for the streams and their directory), and an acceptable
    container is refused only when the allocator denied a reservation. *)
Theorem msf_accepts_exactly can_reserve streams :
  (∃ out, write_msf can_reserve streams = Ok out ∧ acceptable streams)
  ∨ (∃ e, write_msf can_reserve streams = Err e ∧ refusal e
          ∧ (out_of_memory can_reserve e ∨ ¬ acceptable streams)).
Proof.
  pose proof (write_msf_ends can_reserve streams) as He.
  destruct (write_msf can_reserve streams) as [out|e|]; [|right|done].
  - left. exists out. split; [done|apply He].
  - exists e. destruct He as [? ?]. done.
Qed.
