(* ===== verification/Scenarios.v ===== *)
(** Concrete sessions in which the hypotheses of the theorems hold: a
    sandboxed launch from its [Open] to its close, the same launch abandoned
    before its target was created, and a host attach with a live memory write.

    Each session is a list of calls evaluated by the definitions of the
    development.  The hash parameter is instantiated by a function with the
    documented output format; nothing here depends on its collisions. *)

From S2P Require Import Prelude Identity Sandbox SandboxPolicyTheory SandboxLifecycle Protocol.
From S2P Require Import ProtocolTheory Authorization SessionMachine SessionInvariant.
From S2P Require Import SessionCommands SessionWorlds SessionTheorems SessionEvidence.
From S2P Require Import AuthorizationTheory.
Open Scope Z_scope.

(** ** A concrete hash *)

#[global] Instance sample_sha256 : Sha256 :=
  λ m, take 32 (((λ b, b mod 256) <$> reverse m) ++ replicate 32 0).

#[global] Instance sample_sha256_spec : Sha256Spec.
Proof.
  intros m. unfold sha256, sample_sha256. split.
  - rewrite length_take, length_app, length_replicate. lia.
  - apply Forall_take, Forall_app. split.
    + apply Forall_fmap, Forall_true. intros b. unfold is_byte. simpl.
      pose proof (Z.mod_pos_bound b 256). lia.
    + apply Forall_replicate. unfold is_byte. lia.
Qed.

(** ** Runs of calls *)

Definition run_calls (w : World) (l : list session_call) : World := foldl world_step w l.

Fixpoint all_admissible (w : World) (l : list session_call) : Prop :=
  match l with
  | [] => True
  | c :: l' => admissible w c ∧ all_admissible (world_step w c) l'
  end.

Lemma run_calls_reachable w l :
  reachable w → all_admissible w l → reachable (run_calls w l).
Proof.
  revert w. induction l as [|c l IH]; intros w Hw; simpl; [done|].
  intros [Ha Hl]. apply IH; [by apply reach_step|done].
Qed.

(** ** The sandboxed launch *)

Definition hex64_of (c : string) : list Z := mjoin (replicate 64 (str c)).

Definition sample_sid : Z := 7.
Definition sample_epoch : list Z := hex64_of "e".
Definition sample_helper : list Z := str "helper-1.0".
Definition sample_binary : list Z := hex64_of "b".

Definition sample_policy : SandboxPolicy :=
  {| sp_session_id := sample_sid;
     sp_policy_approval := mkSandboxPolicyApprovalId sample_sid (str "approval-1");
     sp_provider := LocalAppContainer;
     sp_required_boundary := UserMode;
     sp_required_guarantees :=
       list_to_set [FileSystemRedirection; RegistryRedirection; RollbackOnClose; NetworkDisabled;
                    ResourceLimits; ChildProcessControl; ProcessMitigations;
                    JobAssignmentAtCreation];
     sp_network := Disabled;
     sp_resources := mkSandboxResourceLimits (512 * MIB) (1 * GIB) 4 5000 60000;
     sp_process_mitigations := StrictV1;
     sp_child_processes := Deny;
     sp_dynamic_code := Prohibit;
     sp_win32k := Disable;
     sp_rollback_on_close := true;
     sp_vm_identity := None |}.

Definition sample_digest : list Z :=
  match policy_digest sample_policy sample_binary with Ok d => d | _ => [] end.

Definition sample_expected : ExpectedSandboxAttestation :=
  match from_policy sample_binary sample_policy sample_helper sample_epoch with
  | Ok ex => ex
  | _ => mkExpectedSandboxAttestation [] 0 [] [] LocalAppContainer UserMode ∅ false [] None
  end.

Definition sample_process : ProcessIdentity := mkProcessIdentity 4242 99 sample_binary.

Definition sample_launch : LaunchTarget :=
  {| lt_binary_id := sample_binary;
     lt_executable := str "/opt/game/run";
     lt_arguments := [str "--windowed"];
     lt_working_directory := Some (str "/opt/game");
     lt_environment := Sandboxed sample_policy;
     lt_stop_before_entry := true |}.

Definition sample_receipt : SandboxCleanupReceipt :=
  {| rc_receipt_id := str "receipt-1";
     rc_session_id := sample_sid;
     rc_provisioning_epoch := sample_epoch;
     rc_provider := LocalAppContainer;
     rc_policy_digest := sample_digest;
     rc_process := Some sample_process;
     rc_outcome := Complete;
     rc_process_tree_terminated_and_reaped := true;
     rc_handles_closed := true;
     rc_file_system_rolled_back := true;
     rc_registry_rolled_back := true;
     rc_network_torn_down := true;
     rc_owned_paths_deleted := true;
     rc_appcontainer_profile_deleted := Some true;
     rc_differencing_disk_discarded := None;
     rc_control_channel_closed := None;
     rc_terminated_processes := 1;
     rc_residuals := [] |}.

(** A command envelope that expects generation [gen] of the sample session. *)
Definition envelope_at (cid gen : Z) (c : DebugCommand) : CommandEnvelope :=
  mkCommandEnvelope ProtocolVersion_current cid (Some sample_sid)
    (Some (mkStateToken sample_sid gen)) c.

Definition stop_at (gen id : Z) : StopToken := mkStopToken (mkStateToken sample_sid gen) id.

Definition fresh_world : World :=
  match SessionMachine_new 1000 sample_sid sample_epoch sample_helper with
  | Ok m => mkWorld m []
  | _ => mkWorld (mkSessionMachine 0 0 [] [] (SS.Idle (mkStateToken 0 0)) None None 0 0
                    NotApplicable None None ∅ ∅ None) []
  end.

Definition sample_open : CommandEnvelope := envelope_at 1 1 (DC.Open (DTR.Launch sample_launch)).

(** From the fresh session to the first continue. *)
Definition launch_calls : list session_call :=
  [AcceptCommand sample_open;
   TargetCreated sample_process;
   AcceptAttestation (attestation_for sample_expected sample_process);
   MarkStopped StopReason.Initial 11;
   AcceptCommand (envelope_at 2 5 (DC.Continue (stop_at 5 1)))].

(** From running to closed. *)
Definition close_calls : list session_call :=
  [MarkExited 0;
   AcceptCommand (envelope_at 3 7 (DC.Close (mkStateToken sample_sid 7)))].

Definition running_world : World := run_calls fresh_world launch_calls.
Definition closing_world : World := run_calls running_world close_calls.
Definition closed_world : World := world_step closing_world (CompleteClose (Some sample_receipt)).

(** ** The abandoned launch *)

(** A close accepted before the backend reported a target. *)
Definition abandoned_world : World :=
  run_calls fresh_world
    [AcceptCommand sample_open;
     AcceptCommand (envelope_at 2 2 (DC.Close (mkStateToken sample_sid 2)))].

(** ** The host attach with a live write *)

Definition sample_attach : AttachTarget :=
  {| att_scope := HostScope sample_process (hex64_of "a"); att_mode := Debug |}.

Definition sample_verifier : HostRiskVerifier :=
  mkHostRiskVerifier (hex64_of "a") sample_sid sample_epoch (HRO.Attach sample_process Debug).

Definition attach_open : CommandEnvelope := envelope_at 1 1 (DC.Open (DTR.Attach sample_attach)).

Definition registered_world : World := world_step fresh_world (RegisterHost sample_verifier).

Definition attach_calls : list session_call :=
  [AcceptCommand attach_open; MarkStopped StopReason.Initial 11].

Definition attached_world : World := run_calls registered_world attach_calls.

Definition sample_binding : LiveTargetBinding :=
  mkLiveTargetBinding sample_process sample_binary 5368709120 65536.

Lemma sample_binding_valid : valid_binding sample_binding.
Proof. split; first [reflexivity|vm_compute; discriminate]. Qed.

Definition write_command : CommandEnvelope :=
  envelope_at 2 3 (DC.WriteMemory (stop_at 3 1) 5368713216 [144; 144] [235; 254]).

Definition begun_write
    : result (RemoteCommandCheckpoint * ValidatedLiveMemoryWrite
              * LocalLiveMemoryWriteReceiptIdentity) SessionMachineError * SessionMachine :=
  begin_live_memory_write 5000 write_command sample_binding (w_machine attached_world).

Definition begun_remote : result RemoteCommandCheckpoint SessionMachineError * SessionMachine :=
  begin_remote_command write_command (w_machine attached_world).

(** ** The sessions are reachable *)

Lemma sample_policy_typed : typed_policy sample_policy.
Proof.
  split; [vm_compute; split; discriminate| |exact I|exact I].
  split; [discriminate|]. split; [vm_compute; discriminate|].
  repeat (apply List.Forall_cons; [reflexivity|]). apply List.Forall_nil.
Qed.

Lemma sample_binary_hex : valid_hex64 sample_binary.
Proof.
  split; [reflexivity|]. repeat (apply List.Forall_cons; [reflexivity|]). apply List.Forall_nil.
Qed.

Lemma sample_launch_typed : typed_target (DTR.Launch sample_launch).
Proof. exact (conj sample_policy_typed sample_binary_hex). Qed.

Lemma fresh_reachable : reachable fresh_world.
Proof. exact (reach_new 1000 sample_sid sample_epoch sample_helper _ eq_refl). Qed.

Ltac admissible_calls :=
  repeat (split; [first [exact I | exact sample_launch_typed]|]); exact I.

Lemma running_reachable : reachable running_world.
Proof. apply run_calls_reachable; [exact fresh_reachable|admissible_calls]. Qed.

Lemma closing_reachable : reachable closing_world.
Proof. apply run_calls_reachable; [exact running_reachable|admissible_calls]. Qed.

Lemma closed_reachable : reachable closed_world.
Proof. apply reach_step; [exact closing_reachable|exact I]. Qed.

Lemma abandoned_reachable : reachable abandoned_world.
Proof. apply run_calls_reachable; [exact fresh_reachable|admissible_calls]. Qed.

Lemma registered_reachable : reachable registered_world.
Proof. apply reach_step; [exact fresh_reachable|exact I]. Qed.

Lemma attached_reachable : reachable attached_world.
Proof. apply run_calls_reachable; [exact registered_reachable|admissible_calls]. Qed.

Lemma abandoned_launch : abandoned (w_machine abandoned_world).
Proof.
  split; [vm_compute; reflexivity|vm_compute; reflexivity|].
  exists (mkSandboxMachine sample_expected SLS.Cleanup None None).
  split; [vm_compute; reflexivity|]. split; reflexivity.
Qed.
