(* ===== verification/Witnesses.v ===== *)
(** Each theorem with hypotheses applied to one of the sessions of
    [Scenarios.v], or to a concrete value, where all of its hypotheses hold. *)

From S2P Require Import Prelude Identity Sandbox SandboxPolicyTheory SandboxLifecycle Protocol.
From S2P Require Import ProtocolTheory Authorization SessionMachine SessionInvariant.
From S2P Require Import SessionCommands SessionWorlds SessionTheorems SessionEvidence.
From S2P Require Import AuthorizationTheory Scenarios.
Open Scope Z_scope.

(** ** Sandbox policy and lifecycle *)

Lemma policy_digest_binds_witness :
  (sample_policy = sample_policy ∧ sample_binary = sample_binary)
  ∨ ((cd_policy sample_policy sample_binary []).2 ≠ (cd_policy sample_policy sample_binary []).2
     ∧ sha256 (cd_policy sample_policy sample_binary []).2
       = sha256 (cd_policy sample_policy sample_binary []).2).
Proof.
  apply (policy_digest_binds sample_policy sample_policy sample_binary sample_binary
           sample_digest).
  1, 2: exact sample_policy_typed.
  1, 2: exact sample_binary_hex.
  1, 2: vm_compute; reflexivity.
Defined.

Lemma valid_policy_admits_machine_witness :
  SandboxMachine_new sample_expected
  = Ok (mkSandboxMachine sample_expected SLS.Requested None None).
Proof.
  apply (valid_policy_admits_machine sample_policy sample_binary sample_helper sample_epoch).
  vm_compute. reflexivity.
Defined.

Definition sample_requested : SandboxMachine :=
  mkSandboxMachine sample_expected SLS.Requested None None.

Definition sample_lifecycle : list sandbox_call :=
  [CallBeginProvisioning; CallTargetCreated sample_process;
   CallAcceptAttestation (attestation_for sample_expected sample_process); CallMarkRunning].

Lemma sandbox_runs_only_attested_witness :
  ∃ p, created_process (sandbox_calls sample_requested sample_lifecycle) = Some p
  ∧ process_binary_id p = ex_binary_id sample_expected
  ∧ sm_accepted_attestation (sandbox_calls sample_requested sample_lifecycle)
    = Some (attestation_for sample_expected p).
Proof.
  apply sandbox_runs_only_attested; [vm_compute; reflexivity|left; vm_compute; reflexivity].
Defined.

Lemma sandbox_closes_only_clean_witness :
  let m := sandbox_calls sample_requested (sample_lifecycle ++ [CallBeginCleanup]) in
  ∃ r o, CallClose sample_receipt = CallClose r ∧ sm_state m = SLS.Cleanup
  ∧ sm_target_creation m = Some o ∧ receipt_bound r (sm_expected m) (outcome_process o)
  ∧ fully_clean r (ex_boundary (sm_expected m)).
Proof. apply sandbox_closes_only_clean; [vm_compute; discriminate|vm_compute; reflexivity]. Defined.

(** ** Wire protocol *)

Lemma image_address_roundtrip_witness :
  (address_for_rva_span sample_binding 4096 16 = Ok 5368713216
   ↔ rva_for_address_span sample_binding 5368713216 16 = Ok 4096)
  ∧ (address_for_rva_span sample_binding 4096 16 = Ok 5368713216
     ↔ 5368713216 = 5368709120 + 4096 ∧ 1 ≤ 16 ∧ 4096 + 16 ≤ 65536).
Proof.
  apply (image_address_roundtrip sample_process sample_binary);
    [vm_compute; split; discriminate..|vm_compute; reflexivity].
Defined.

Lemma command_single_generation_witness :
  validate_against sample_open
    (SS.Opening (mkStateToken sample_sid 2) (DTR.Launch sample_launch)) = Err PVE.StaleStateToken.
Proof.
  apply (command_single_generation sample_open (SS.Idle (mkStateToken sample_sid 1)));
    vm_compute; reflexivity.
Defined.

Lemma state_history_sound_witness :
  NoDup (state_token <$> [SS.Idle (mkStateToken 7 1); SS.Closing (mkStateToken 7 2);
                          SS.Closed (mkStateToken 7 3)])
  ∧ (SSK.Closed = SSK.Closed →
     [] = @nil SessionState
     ∧ ∃ p, [SS.Idle (mkStateToken 7 1); SS.Closing (mkStateToken 7 2)] !! 1%nat = Some p
            ∧ state_kind p = SSK.Closing).
Proof.
  apply (state_history_sound (SS.Idle (mkStateToken 7 1))
           [SS.Closing (mkStateToken 7 2); SS.Closed (mkStateToken 7 3)]
           [SS.Closing (mkStateToken 7 2)] [] (SS.Closed (mkStateToken 7 3))); [|reflexivity].
  split; [vm_compute; reflexivity|]. split; [vm_compute; reflexivity|exact I].
Defined.

(** ** Session *)

Lemma session_worlds_coherent_witness : world_inv running_world.
Proof. apply session_worlds_coherent. exact running_reachable. Defined.

Lemma session_call_refines_witness :
  let (r, m') := session_exec (CompleteClose (Some sample_receipt)) (w_machine closing_world) in
  match r with
  | Ok _ => visible_step closing_world m'
  | Err _ =>
      visible m' = visible (w_machine closing_world)
      ∧ m_pending_remote_command m' = m_pending_remote_command (w_machine closing_world)
      ∧ no_new_grants (m_host_risk_leases (w_machine closing_world)) (m_host_risk_leases m')
      ∧ no_new_grants (m_sandbox_ownership_leases (w_machine closing_world))
          (m_sandbox_ownership_leases m')
  | Panic _ => False
  end.
Proof. apply session_call_refines; [exact closing_reachable|exact I]. Defined.

Lemma sandboxed_execution_attested_witness :
  ∃ sb ex p, m_sandbox (w_machine running_world) = Some sb
  ∧ from_policy (lt_binary_id sample_launch) sample_policy
      (m_helper_build (w_machine running_world))
      (m_provisioning_epoch (w_machine running_world)) = Ok ex
  ∧ created_process sb = Some p ∧ process_binary_id p = lt_binary_id sample_launch
  ∧ sm_accepted_attestation sb = Some (attestation_for ex p).
Proof.
  apply sandboxed_execution_attested;
    [exact running_reachable|vm_compute; reflexivity|reflexivity|].
  apply (bool_decide_unpack _). vm_compute. exact I.
Defined.

Lemma session_closes_on_evidence_witness :
  ∃ r, CompleteClose (Some sample_receipt) = CompleteClose r
  ∧ state_kind (m_state (w_machine closing_world)) = SSK.Closing
  ∧ close_evidence (w_machine closing_world) r.
Proof.
  apply session_closes_on_evidence;
    [exact closing_reachable|exact I|vm_compute; discriminate|vm_compute; reflexivity].
Defined.

Lemma remote_reject_rolls_back_witness :
  ∃ c m1, begin_remote_command write_command (w_machine attached_world) = (Ok c, m1)
  ∧ (∀ e', accept_command e' m1
           = (Err (SE.RemoteCommandPending (ce_command_id write_command)), m1))
  ∧ ∃ m2, reject_remote_command c (ce_command_id write_command) m1
          = (Ok (m_state (w_machine attached_world)), m2)
    ∧ visible m2 = visible (w_machine attached_world)
    ∧ m_pending_remote_command m2 = None
    ∧ m_last_command_id m2 = Some (ce_command_id write_command)
    ∧ m_last_stop_id m2 = m_last_stop_id m1 ∧ m_last_run_id m2 = m_last_run_id m1
    ∧ m_host_risk_leases m2 = m_host_risk_leases m1
    ∧ m_sandbox_ownership_leases m2 = m_sandbox_ownership_leases m1.
Proof.
  destruct (begin_remote_command write_command (w_machine attached_world)) as [[c|e|p] m1] eqn:Hb;
    [|vm_compute in Hb; discriminate..].
  exists c, m1. split; [reflexivity|].
  apply remote_reject_rolls_back; [exact attached_reachable|exact I|exact Hb].
Defined.


Lemma open_requires_authority_witness :
  let r := accept_command attach_open (w_machine registered_world) in
  let t := DTR.Attach sample_attach in
  open_authorized (w_machine registered_world) t r.2 ∧ m_target r.2 = Some t
  ∧ m_host_risk_leases r.2 = ∅ ∧ m_sandbox_ownership_leases r.2 = ∅
  ∧ state_kind (m_state (w_machine registered_world)) = SSK.Idle
  ∧ state_kind (SS.Opening (mkStateToken sample_sid 2) t) = SSK.Opening.
Proof.
  apply (open_requires_authority registered_world attach_open);
    [exact registered_reachable|reflexivity|exact I|vm_compute; reflexivity].
Defined.

(** A batch of one exit observed while the target runs. *)
Lemma unsolicited_batch_atomic_witness :
  let l := [SS.Exited (mkStateToken sample_sid 7) 0] in
  let (r, m') := apply_unsolicited_observations l (w_machine running_world) in
  match r with
  | Ok _ =>
      ∃ states, state_chain (m_state (w_machine running_world)) states
      ∧ Forall2 (λ s o, SessionState_eqb s o = true) states l
      ∧ m_state m' = List.last states (m_state (w_machine running_world))
  | Err _ => m' = w_machine running_world
  | Panic _ => False
  end.
Proof.
  apply unsolicited_batch_atomic; [exact running_reachable|].
  apply List.Forall_cons; [vm_compute; auto|apply List.Forall_nil].
Defined.

Lemma sandbox_ownership_exact_witness :
  requires_cleanup_receipt (w_machine running_world)
  = sandboxed_target (m_target (w_machine running_world))
  ∧ (m_sandbox (w_machine running_world) = None
     ∨ m_inherited_sandbox (w_machine running_world) = None)
  ∧ (state_kind (m_state (w_machine running_world)) = SSK.Detached →
     requires_cleanup_receipt (w_machine running_world) = false).
Proof. apply sandbox_ownership_exact. exact running_reachable. Defined.

Lemma closed_is_final_witness :
  m_state (w_machine (world_step closed_world (MarkFailed (str "late failure"))))
  = m_state (w_machine closed_world).
Proof.
  apply closed_is_final; [exact closed_reachable|exact I|vm_compute; reflexivity].
Defined.

(** Recording that no target was created comes too late after the close. *)
Lemma abandoned_never_closes_witness :
  abandoned (w_machine (world_step abandoned_world RecordNotCreated)).
Proof.
  apply (abandoned_never_closes abandoned_world);
    [exact abandoned_reachable|exact abandoned_launch|].
  apply later_step; [apply later_refl|exact I].
Defined.

Lemma live_write_resolves_witness :
  ∃ c t r m1,
    begin_live_memory_write 5000 write_command sample_binding (w_machine attached_world)
      = (Ok (c, t, r), m1)
  ∧ (∃ a rva, m_target (w_machine attached_world) = Some (DTR.Attach a) ∧ att_mode a = Debug
     ∧ scope_process (att_scope a) = lb_process sample_binding
     ∧ rva_for_address_span sample_binding (lw_address (vw_write t))
         (zlen (lw_expected (vw_write t))) = Ok rva)
  ∧ (∃ reason th new m2,
     m_state (w_machine attached_world) = SS.Stopped (lw_stop (vw_write t)) reason th
     ∧ resolve_live_memory_write_success c r m1
       = (Ok {| pr_write := vw_write t; pr_resolution := Committed new |}, m2)
     ∧ m_state m2 = SS.Stopped new reason th ∧ stop_id (lw_stop (vw_write t)) < stop_id new
     ∧ m_pending_remote_command m2 = None)
  ∧ (∃ m2, resolve_live_memory_write_no_effect c r m1
       = (Ok {| pr_write := vw_write t; pr_resolution := RejectedNoEffect |}, m2)
     ∧ visible m2 = visible (w_machine attached_world) ∧ m_pending_remote_command m2 = None)
  ∧ ∀ r', lw_address_of (ri_write r') ≠ 5000 →
     (∃ er, resolve_live_memory_write_success c r' m1 = (Err er, m1))
     ∧ ∃ er, resolve_live_memory_write_no_effect c r' m1 = (Err er, m1).
Proof.
  destruct (begin_live_memory_write 5000 write_command sample_binding (w_machine attached_world))
    as [[[[c t] r]|e|p] m1] eqn:Hb; [|vm_compute in Hb; discriminate..].
  exists c, t, r, m1. split; [reflexivity|].
  apply (live_write_resolves attached_world 5000 write_command);
    [exact attached_reachable| |exact Hb].
  split; first [reflexivity|vm_compute; split; discriminate|vm_compute; discriminate].
Defined.

(** ** Authorization *)

Definition sample_sequence : LeaseIdSequence := mkLeaseIdSequence (replicate 32 17) 0.

Definition sample_ownership : SandboxOwnershipBinding :=
  mkSandboxOwnershipBinding sample_sid sample_process Debug LocalAppContainer sample_digest
    sample_epoch.

Lemma issuance_total_witness :
  ∃ hid oid, valid_hex64 hid ∧ valid_hex64 oid
  ∧ host_risk_issue sample_sid sample_epoch (HRO.Attach sample_process Debug) sample_sequence
    = (Ok (mkHostRiskLease (mkHostRiskVerifier hid sample_sid sample_epoch
                              (HRO.Attach sample_process Debug)),
           mkHostRiskVerifier hid sample_sid sample_epoch (HRO.Attach sample_process Debug)),
       lease_next sample_sequence)
  ∧ ownership_issue sample_ownership sample_sequence
    = (Ok (mkSandboxOwnershipLease oid sample_ownership,
           ownership_into_verifier (mkSandboxOwnershipLease oid sample_ownership)),
       lease_next sample_sequence).
Proof.
  apply (issuance_total sample_sequence sample_sid sample_epoch (HRO.Attach sample_process Debug)
           sample_ownership).
  vm_compute. split; discriminate.
Defined.

Lemma lease_ids_unique_witness :
  ∃ ids, (lease_issues HOST_RISK_LEASE_DOMAIN 3 sample_sequence).1 = Ok ids
  ∧ (NoDup ids ∨ counter_collision HOST_RISK_LEASE_DOMAIN (replicate 32 17) 0 (0 + 3)).
Proof.
  destruct (lease_issues HOST_RISK_LEASE_DOMAIN 3 sample_sequence) as [[ids|e|p] s'] eqn:Hi;
    [|vm_compute in Hi; discriminate..].
  exists ids. split; [reflexivity|].
  apply (lease_ids_unique HOST_RISK_LEASE_DOMAIN 3 sample_sequence ids s');
    [vm_compute; split; discriminate|exact Hi].
Defined.

Definition sample_intent : HostLaunchIntent :=
  mkHostLaunchIntent sample_binary (str "/opt/game/run") [str "--windowed"]
    (Some (str "/opt/game")) true.

Lemma issued_launch_opens_witness :
  ∃ target lease verifier s' m1 m2,
    issue_launch sample_sid sample_epoch sample_intent sample_sequence
      = (Ok (target, lease, verifier), s')
  ∧ register_host_risk_lease lease (w_machine fresh_world) = (Ok tt, m1)
  ∧ accept_command (open_launch 1 sample_sid target) m1
    = (Ok (SS.Opening (mkStateToken sample_sid 2) (DTR.Launch target)), m2)
  ∧ m_execution_gate m2 = HostRiskAccepted ∧ m_host_risk_leases m2 = ∅.
Proof.
  destruct (issue_launch sample_sid sample_epoch sample_intent sample_sequence)
    as [[[[target lease] verifier]|e|p] s'] eqn:Hi; [|vm_compute in Hi; discriminate..].
  destruct (issued_launch_opens 1000 sample_sid sample_epoch sample_helper (w_machine fresh_world)
              sample_intent sample_sequence target lease verifier s' 1) as (m1 & m2 & H);
    [reflexivity|exact Hi|vm_compute in Hi; injection Hi as <- <- <- <-; vm_compute; reflexivity|].
  exists target, lease, verifier, s', m1, m2. exact (conj eq_refl H).
Defined.

(** A session that holds a lease for the sample launch. *)
Definition launch_registered : SessionMachine :=
  set_host_risk_leases
    {[ hex64_of "a" := Some (mkHostRiskVerifier (hex64_of "a") sample_sid sample_epoch
                               (HRO.Launch sample_intent)) ]} (w_machine fresh_world).

Lemma lease_ignores_path_spelling_witness :
  (∀ x cwd,
     is_ok (consume_host_risk_lease (hex64_of "a") (HRO.Launch (respelled sample_intent x cwd))
              launch_registered).1 = true
     ↔ path_eqb (hli_executable sample_intent) x = true
       ∧ option_eqb path_eqb (hli_working_directory sample_intent) cwd = true)
  ∧ is_ok (consume_host_risk_lease (hex64_of "a")
             (HRO.Launch (respelled sample_intent (hli_executable sample_intent ++ str "/")
                (hli_working_directory sample_intent))) launch_registered).1 = true.
Proof.
  apply lease_ignores_path_spelling.
  - eexists. split; [vm_compute; reflexivity|]. split; [|split]; vm_compute; reflexivity.
  - intros v Hv. vm_compute in Hv. injection Hv as <-. reflexivity.
  - discriminate.
Defined.
