(* ===== verification/LivePatchWitnesses.v ===== *)
(** Instances of the theorems about the live patch history ([LivePatchTheory.v])
    on the host attach of [Scenarios.v]: a two-byte patch is reserved,
    dispatched, and resolved by the receipts the session reducer gives out. *)

From S2P Require Import Prelude Identity TargetMemory Sandbox Protocol ProtocolTheory SessionMachine.
From S2P Require Import LivePatchHistory SessionInvariant SessionCommands SessionWorlds SessionTheorems.
From S2P Require Import SessionEvidence LivePatchTheory LivePatchTarget Scenarios.
Open Scope Z_scope.

(** The patch of [write_command], reserved and dispatched. *)
Definition patch_calls : list history_call :=
  [BeginForward sample_sid sample_binding (stop_at 3 1) 5368713216 [144; 144] [235; 254];
   MarkForDispatch].

Definition new_history : LivePatchHistory := LivePatchHistory_new sample_sid sample_binding.
Definition dispatched_history : LivePatchHistory := history_calls new_history patch_calls.

Definition dispatched_patch : PendingLivePatchOperation :=
  mkPendingLivePatchOperation ForwardWrite Dispatched (stop_at 3 1) 5368713216
    [144; 144] [235; 254].

(** The write the reducer begins for [write_command], in the allocation 5000. *)
Definition sample_write : LocalLiveMemoryWriteAllocation :=
  mkLocalWrite 5000 2 (stop_at 3 1) sample_binding 5368713216 [144; 144] [235; 254].

(** Its receipts: committed at the stop that follows, or without effect. *)
Definition committed_receipt : ValidatedLocalLivePatchReceipt :=
  mkPatchReceipt sample_write (Committed (stop_at 4 2)).

Definition rejected_receipt : ValidatedLocalLivePatchReceipt :=
  mkPatchReceipt sample_write RejectedNoEffect.

Definition committed_entry : LivePatchEntry :=
  mkLivePatchEntry 5368713216 [144; 144] [235; 254] (stop_at 3 1) (stop_at 4 2) 2.

(** The same write acknowledged by a remote host. *)
Definition remote_event (sequence generation : Z) (e : DebugEvent) : EventEnvelope :=
  mkEventEnvelope ProtocolVersion_current sequence (Some sample_sid)
    (Some (mkStateToken sample_sid generation)) (Some 2) e.

Definition remote_receipt : CommandReceipt :=
  mkCommandReceipt 2 CommandOutcome.Succeeded
    [remote_event 10 3 (DE.MemoryWritten (stop_at 3 1) 5368713216 [144; 144] [235; 254]);
     remote_event 11 4 (DE.StateChanged (SS.Stopped (stop_at 4 2) StopReason.Initial 11));
     remote_event 12 4 (DE.CommandResult 2 CommandOutcome.Succeeded)].

(** The history after the commit, and after a rejection and a second attempt. *)
Definition committed_history : LivePatchHistory :=
  history_calls new_history (patch_calls ++ [ResolveLocalReceipt committed_receipt]).

Definition retry_calls : list history_call :=
  patch_calls ++ [ResolveLocalReceipt rejected_receipt] ++ patch_calls.

Definition retried_history : LivePatchHistory := history_calls new_history retry_calls.

Definition retry_command : CommandEnvelope :=
  envelope_at 3 3 (DC.WriteMemory (stop_at 3 1) 5368713216 [144; 144] [235; 254]).

Definition sample_memory : memory := λ _, 144.
Definition patched_memory : memory := write_bytes 5368713216 [235; 254] sample_memory.

Lemma dispatched_current :
  dispatches (w_machine attached_world) write_command sample_binding dispatched_history
    dispatched_patch.
Proof.
  split; [apply history_calls_inv, sample_binding_valid| |vm_compute; reflexivity].
  split; first [vm_compute; reflexivity|by intros ? [=]].
Qed.

(** The patch reserved, dispatched, written and committed. *)
Definition patch_command : DebugCommand :=
  DC.WriteMemory (stop_at 3 1) 5368713216 [144; 144] [235; 254].

Lemma committed_run :
  rtc patch_step (mkPatchWorld new_history sample_memory HostIdle)
    (mkPatchWorld committed_history patched_memory HostIdle).
Proof.
  eapply rtc_l.
  { apply (step_reserve
      (BeginForward sample_sid sample_binding (stop_at 3 1) 5368713216 [144; 144] [235; 254])
      _ _ _ None (history_calls new_history (take 1 patch_calls))); vm_compute; reflexivity. }
  eapply rtc_l.
  { apply (step_dispatch _ _ _ patch_command dispatched_history). vm_compute. reflexivity. }
  eapply rtc_l; [by apply step_write|]. apply rtc_once.
  apply (step_resolve (ResolveLocalReceipt committed_receipt) _ _ _
    (LPR.ForwardCommitted committed_entry)); [by eexists|vm_compute; reflexivity].
Qed.

Lemma patch_history_sound_witness :
  history_inv committed_history
  ∧ ∃ e h', history_exec (BeginUndo sample_sid sample_binding (stop_at 4 2)) committed_history
            = (Ok e, h') ∧ call_outcome committed_history e h'.
Proof.
  pose proof (patch_history_sound sample_sid sample_binding
    (patch_calls ++ [ResolveLocalReceipt committed_receipt])
    (BeginUndo sample_sid sample_binding (stop_at 4 2)) sample_binding_valid) as [Hi Hc].
  split; [exact Hi|]. fold new_history in Hc. fold committed_history in Hc.
  destruct (history_exec (BeginUndo sample_sid sample_binding (stop_at 4 2)) committed_history)
    as [[e|e|p] h'] eqn:He; [|vm_compute in He; discriminate..].
  exists e, h'. split; [reflexivity|exact Hc].
Defined.

Lemma frozen_history_final_witness :
  ∃ f, lh_freeze_evidence (history_calls dispatched_history [MarkOutcomeUnknown]) = Some f
  ∧ history_calls (history_calls dispatched_history [MarkOutcomeUnknown]) retry_calls
    = history_calls dispatched_history [MarkOutcomeUnknown].
Proof.
  eexists. split; [vm_compute; reflexivity|].
  eapply (frozen_history_final _ _ retry_calls CancelBeforeDispatch). vm_compute. reflexivity.
Defined.

Lemma undo_restores_memory_witness :
  lh_entries committed_history = [committed_entry]
  ∧ patched_memory 5368713217 = 254
  ∧ same_memory (rewind (lh_entries committed_history) patched_memory) sample_memory.
Proof.
  destruct (undo_restores_memory sample_sid sample_binding sample_memory
    (mkPatchWorld committed_history patched_memory HostIdle)) as [(Hr & _) _].
  - exact sample_binding_valid.
  - exact committed_run.
  - vm_compute. reflexivity.
  - split; [vm_compute; reflexivity|]. split; [vm_compute; reflexivity|exact Hr].
Defined.

Lemma commit_needs_exact_evidence_witness :
  (∃ p tok, receipt_current dispatched_history p 2 sample_sid sample_binding
     ∧ CommandOutcome.Succeeded = CommandOutcome.Succeeded
     ∧ is_exact_successor_stop (po_stop p) tok = true
     ∧ success_events sample_sid p remote_receipt tok false [] (cre_events remote_receipt))
  ∧ ∃ p tok, receipt_current dispatched_history p 2 sample_sid sample_binding
     ∧ local_evidence p sample_write ∧ Committed (stop_at 4 2) = Committed tok
     ∧ is_exact_successor_stop (po_stop p) tok = true.
Proof.
  destruct (commit_needs_exact_evidence dispatched_history sample_sid sample_binding
    remote_receipt committed_receipt) as [Hr Hl];
    [apply history_calls_inv, sample_binding_valid|].
  split; [apply Hr; vm_compute; reflexivity|apply Hl; vm_compute; reflexivity].
Defined.

Lemma write_receipts_reach_history_witness :
  ∃ c t r m1 lr m2,
    begin_live_memory_write 5000 write_command sample_binding (w_machine attached_world)
      = (Ok (c, t, r), m1)
    ∧ resolve_live_memory_write_success c r m1 = (Ok lr, m2)
    ∧ commits (resolve_local_receipt lr dispatched_history).1 = true.
Proof.
  destruct (begin_live_memory_write 5000 write_command sample_binding (w_machine attached_world))
    as [[[[c t] r]|e|p] m1] eqn:Hb; [|vm_compute in Hb; discriminate..].
  destruct (write_receipts_reach_history attached_world 5000 write_command sample_binding
    c t r m1 dispatched_history dispatched_patch attached_reachable sample_binding_valid Hb
    dispatched_current) as [(lr & m2 & Hr & Hc) _].
  exists c, t, r, m1, lr, m2. split; [reflexivity|]. split; [exact Hr|].
  apply Hc. vm_compute. reflexivity.
Defined.

Lemma retry_after_rejection_freezes_witness :
  ∃ c t r m1 lr m2 c' t' r' m3 new h',
    begin_live_memory_write 5000 write_command sample_binding (w_machine attached_world)
      = (Ok (c, t, r), m1)
    ∧ resolve_live_memory_write_no_effect c r m1 = (Ok lr, m2)
    ∧ begin_live_memory_write 5001 retry_command sample_binding m2 = (Ok (c', t', r'), m3)
    ∧ resolve_local_receipt (mkPatchReceipt (vw_write t') (Committed new)) retried_history
      = (Ok LPR.Frozen, h').
Proof.
  destruct (begin_live_memory_write 5000 write_command sample_binding (w_machine attached_world))
    as [[[[c t] r]|e|p] m1] eqn:Hb; [|vm_compute in Hb; discriminate..].
  destruct (resolve_live_memory_write_no_effect c r m1) as [[lr|e|p] m2] eqn:Hn;
    [|vm_compute in Hb; simplify_eq; vm_compute in Hn; discriminate..].
  destruct (begin_live_memory_write 5001 retry_command sample_binding m2)
    as [[[[c' t'] r']|e|p] m3] eqn:Hb';
    [|vm_compute in Hb; simplify_eq; vm_compute in Hn; simplify_eq; vm_compute in Hb'; discriminate..].
  edestruct (retry_after_rejection_freezes attached_world 5000 write_command sample_binding
    c t r m1 lr m2 5001 retry_command c' t' r' m3 retried_history dispatched_patch)
    as (new & m4 & h' & _ & _ & Hf & _);
    [exact attached_reachable|exact sample_binding_valid|exact Hb|exact Hn|exact Hb'| |].
  - split; [apply history_calls_inv, sample_binding_valid| |vm_compute; reflexivity].
    split; [vm_compute; reflexivity|reflexivity| |vm_compute; reflexivity|].
    + vm_compute in Hb. simplify_eq. vm_compute in Hn. simplify_eq. reflexivity.
    + vm_compute. intros last [=]. by subst.
  - exists c, t, r, m1, lr, m2, c', t', r', m3, new, h'. repeat split; assumption.
Defined.
