(* ===== verification/ComponentWitnesses.v ===== *)
(** Instances of the theorems about software breakpoints, the remote serial
    protocol and the MSF writer on concrete inputs. *)

From S2P Require Import Prelude Identity TargetMemory Sandbox Protocol.
From S2P Require Import SoftwareBreakpoint SoftwareBreakpointTheory GdbPacket GdbPacketTheory.
From S2P Require Import Msf MsfLayoutTheory MsfTheory.
Open Scope Z_scope.

(** ** A breakpoint that is armed over a [push] *)

Definition stop_one : StopToken := mkStopToken (mkStateToken 7 3) 1.

Definition entry_breakpoint : BreakpointSpec :=
  mkBreakpointSpec 1 5368713216 Software ProcessScope.

Definition planner : SoftwareBreakpointStateMachine :=
  mkBreakpointMachine 7 4 (Some 1) None ∅ None None.

Lemma planner_new : with_capacity 7 4 = Ok planner.
Proof. reflexivity. Qed.

Definition arm_call : breakpoint_call := PlanArm stop_one entry_breakpoint 85 Persistent.

Definition arm_plan : SoftwareBreakpointActionPlan :=
  SBP.Arm (mkBytePlan 1 7 stop_one entry_breakpoint 85 INT3_OPCODE).

Definition planned_arm : SoftwareBreakpointStateMachine := breakpoint_run [arm_call] planner.
Definition arm_pending : PendingOperation :=
  mkPendingOperation arm_plan
    (PendingArm (mkBreakpointEntry entry_breakpoint 85 Persistent Armed stop_one None None)).

Definition armed : SoftwareBreakpointStateMachine :=
  breakpoint_run [arm_call; AckSuccess (ack_of arm_plan)] planner.

(** A second success report for the same plan. *)
Definition confused : SoftwareBreakpointStateMachine :=
  breakpoint_run [arm_call; AckSuccess (ack_of arm_plan); AckSuccess (ack_of arm_plan)] planner.

Definition code : memory := λ _, 85.
Definition armed_code : memory := perform arm_plan code.

Lemma breakpoint_machine_sound_witness :
  is_poisoned confused = true
  ∧ breakpoint_exec arm_call confused = (Err SBE.Poisoned, confused)
  ∧ breakpoint_inv confused.
Proof.
  split; [vm_compute; reflexivity|].
  destruct (breakpoint_machine_sound 7 4 planner
    [arm_call; AckSuccess (ack_of arm_plan); AckSuccess (ack_of arm_plan)] arm_call)
    as (Hi & _ & Hp); [lia|exact planner_new|].
  split; [apply Hp; vm_compute; reflexivity|exact Hi].
Defined.

Lemma acknowledgement_exact_witness :
  ∃ p, bm_pending planned_arm = Some p
  ∧ acknowledge_success (ack_of arm_plan) planned_arm
    = (Ok (transition_of p (bm_breakpoints planned_arm)), acked p planned_arm).
Proof.
  eexists. split; [vm_compute; reflexivity|].
  apply (acknowledgement_exact planned_arm (ack_of arm_plan)).
  - apply breakpoint_run_inv, (with_capacity_inv 7 4); [lia|exact planner_new].
  - vm_compute. reflexivity.
  - vm_compute. reflexivity.
  - vm_compute. reflexivity.
Defined.

Lemma armed_reached :
  rtc debuggee_step (mkDebuggee planner code false) (mkDebuggee armed armed_code false).
Proof.
  eapply rtc_l; [apply (step_call arm_call (mkDebuggee planner code false)); vm_compute; reflexivity|].
  eapply rtc_l; [by apply (step_perform arm_pending planned_arm code)|].
  eapply rtc_l; [apply (step_call (AckSuccess (ack_of arm_plan))); by intros ? _ _|].
  apply rtc_refl.
Qed.

Lemma cleanup_restores_target_witness :
  armed_code 5368713216 = INT3_OPCODE
  ∧ same_memory (cleanup_memory (cleanup_snapshot armed) armed_code) code.
Proof.
  split; [vm_compute; reflexivity|].
  apply (cleanup_restores_target code 7 4 planner (mkDebuggee armed armed_code false));
    [lia|exact planner_new|exact armed_reached].
Defined.

(** ** A packet with every escaped byte, and a repetition *)

Import Rsp.

Definition payload : list Z := [109; 36; 35; 125; 42].

Lemma stream_roundtrip_witness :
  (drain ([SendAck; SendPacket payload; SendInterrupt] ≫= wire) (with_max_payload 64)).1
  = [Ack; Packet payload true; Interrupt].
Proof.
  apply (stream_roundtrip 64); [lia|vm_compute; discriminate|].
  repeat constructor. vm_compute. discriminate.
Defined.

Lemma reader_accepts_only_frames_witness :
  ∃ es r, drain (HASH :: encode_packet payload) (with_max_payload 64) = (es, r)
  ∧ Packet payload true ∈ es
  ∧ ∃ a fr b, HASH :: encode_packet payload = a ++ fr ++ b ∧ frame 64 fr payload.
Proof.
  destruct (drain (HASH :: encode_packet payload) (with_max_payload 64)) as [es r] eqn:Hd.
  destruct (reader_accepts_only_frames 64 _ _ _ ltac:(lia) Hd) as [_ Hf].
  assert (Packet payload true ∈ es) as Hin.
  { vm_compute in Hd. injection Hd as <- _. apply list_elem_of_here. }
  exists es, r. split; [reflexivity|]. split; [exact Hin|]. apply Hf, Hin.
Defined.

Lemma decode_body_grammar_witness :
  ∃ ts, Forall token_ok ts ∧ [48; 42; 32; 125; 3] = ts ≫= token_bytes
  ∧ expand ts [] = Some [48; 48; 48; 48; 35] ∧ zlen [48; 48; 48; 48; 35] ≤ 64.
Proof.
  apply (decode_body_grammar [48; 42; 32; 125; 3] 64); [vm_compute; split; discriminate|].
  vm_compute. reflexivity.
Defined.

(** ** A container with an empty, a nil and a small stream *)

Definition small_streams : list (option (list Z)) := [Some []; None; Some [1; 2; 3]].

Lemma msf_roundtrip_witness :
  ∃ out, Msf.write_msf (λ _ _, true) small_streams = Ok out ∧ read_msf out = Some small_streams.
Proof.
  destruct (Msf.write_msf (λ _ _, true) small_streams) as [out|e|p] eqn:Hw;
    [|vm_compute in Hw; discriminate..].
  exists out. split; [reflexivity|].
  apply (msf_roundtrip (λ _ _, true) small_streams out Hw).
Defined.
