(* ===== verification/GdbWitnesses.v ===== *)
(** Instances of the theorems about the remote protocol and core files on
    concrete inputs: a small writable target, a core file, and in-memory
    channels. *)

From S2P Require Import Prelude GdbPacket GdbPacketTheory GdbTransport GdbTransportTheory GdbTarget.
From S2P Require Import GdbTargetLaws GdbRegistersTheory GdbServer GdbServerTheory GdbClient.
From S2P Require Import GdbClientTheory GdbSessionTheory GdbReplyTheory GdbDescriptionTheory.
From S2P Require Import CoreDump CoreDumpTheory CoreTargetTheory.
Import Rsp RspTransport RspTarget RspServer RspClient CoreDump.
Open Scope Z_scope.

(** ** Channels *)

Abbreviation wire_end := (StreamTransport MemoryStream).

Lemma hears_linked bytes : linked (hears bytes) bytes [].
Proof. exact (hears_buffered bytes). Qed.

(** A channel to a peer: what was sent to it, and how much of its answer was read.  A read
    of more than it has answered fails. *)
Record loopback (respond : list Z → list Z) : Type := mkLoopback {
  lb_sent : list Z;
  lb_read : nat
}.
Arguments mkLoopback {respond} _ _.
Arguments lb_sent {respond} _.
Arguments lb_read {respond} _.

#[export] Instance loopback_transport respond : Transport (loopback respond) := {|
  read_byte t :=
    match respond (lb_sent t) !! lb_read t with
    | Some b => (Ok b, mkLoopback (lb_sent t) (S (lb_read t)))
    | None => (Err (io_error TimedOut "nothing was sent"), t)
    end;
  write_all data t := (Ok tt, mkLoopback (lb_sent t ++ data) (lb_read t));
  flush t := (Ok tt, t);
  set_io_timeout _ t := (Ok tt, t)
|}.

#[export] Program Instance loopback_duplex respond : Duplex (loopback respond) respond := {|
  joined t i o := lb_sent t = o ∧ (lb_read t ≤ length (respond o))%nat ∧ drop (lb_read t) (respond o) = i
|}.
Next Obligation.
  intros respond t b i o (Ho & _ & Hi). simpl. rewrite Ho.
  assert (respond o !! lb_read t = Some b) as Hb by (by rewrite <-(Nat.add_0_r (lb_read t)), <-lookup_drop, Hi).
  rewrite Hb. eexists. split; [reflexivity|]. simpl. split_and!; [done| |].
  - apply lookup_lt_Some in Hb. lia.
  - erewrite drop_S in Hi by done. congruence.
Qed.
Next Obligation.
  intros respond data t i o new (Ho & Hn & Hi) Hr. eexists. split; [reflexivity|]. simpl.
  rewrite Ho, Hr, length_app, drop_app_le by lia. split_and!; [done|lia|by rewrite Hi].
Qed.
Next Obligation. intros respond t i o Hj. by exists t. Qed.
Next Obligation. intros respond timeout t i o Hj. by exists t. Qed.

(** A clock that stands still. *)
#[export] Instance stopped_clock Tr : Clock Tr :=
  {| instant_now t := (0, t); instant_add n d := Some (n + d) |}.

#[export] Instance stopped_punctual respond : Punctual (loopback respond) 0 1000.
Proof.
  split.
  - intros t i o Hl. exists 0, t. split_and!; [done|done|lia..].
  - done.
Qed.

(** The client's end of a channel to the server of [target]. *)
Definition joined_to {T : Type} `{RemoteTarget T} (lim : ProtocolLimits) (target : T)
    : loopback (served lim target) := mkLoopback [] 0.

Lemma joined_to_new {T : Type} `{RemoteTarget T} lim (target : T) : joined (joined_to lim target) [] [].
Proof.
  split_and!; [done|simpl; lia|]. cbn [lb_read joined_to]. rewrite drop_0.
  by apply (served_traffic lim target []), Forall_nil_2.
Qed.

Definition limits_64 : ProtocolLimits := mkProtocolLimits 512 64 4096.

(** ** A target of four bytes of memory *)

Record cell : Type := mkCell { cell_memory : list Z; cell_steps : Z }.

Definition cell_description : TargetDescription :=
  mkTargetDescription (str "cell") (str "none") Little (str "<target/>") 2 1.

Definition in_cell (addr len : Z) : bool := (0 <=? addr) && (0 <=? len) && (addr + len <=? 4).

Definition cell_stop : target_op cell StopReply :=
  λ t, (Ok (Signal 5), mkCell (cell_memory t) (cell_steps t + 1)).

Definition cell_methods : RequiredMethods cell := {|
  rm_description _ := Some cell_description;
  rm_read_registers := sret [7; 8];
  rm_write_registers _ := sret tt;
  rm_read_memory addr len :=
    sread (λ t, if in_cell addr len
                then Ok (take (Z.to_nat len) (drop (Z.to_nat addr) (cell_memory t)))
                else Err (Memory (str "out of range")));
  rm_write_memory addr data :=
    λ t, if in_cell addr (zlen data)
         then (Ok tt, mkCell (take (Z.to_nat addr) (cell_memory t)
                              ++ data ++ drop (Z.to_nat addr + length data) (cell_memory t))
                        (cell_steps t))
         else (Err (Memory (str "out of range")), t);
  rm_cont := cell_stop;
  rm_step := cell_stop;
  rm_set_sw_breakpoint _ := sret tt;
  rm_remove_sw_breakpoint _ := sret tt;
  rm_stop_reason t := (Signal 5, t)
|}.

#[export] Instance cell_target : RemoteTarget cell := with_defaults cell_methods.

Definition bytes_cell (t : cell) : Prop := Forall is_byte (cell_memory t).

#[export] Instance cell_lawful : LawfulTarget cell bytes_cell.
Proof.
  apply lawful_defaults. assert (is_byte 5) by (unfold is_byte; lia). split; try (by intros; intros t Ht).
  - intros addr len _ _ t Ht. unfold wp. cbn. unfold sread. destruct (in_cell addr len); [|done].
    split; [by apply Forall_take, Forall_drop|done].
  - intros addr data _ Hd t Ht. unfold wp. cbn. destruct (in_cell addr (zlen data)); [|done].
    split; [done|]. unfold bytes_cell. cbn [cell_memory].
    apply Forall_app. split; [by apply Forall_take|]. apply Forall_app. by split; [|apply Forall_drop].
  - intros t Ht. split; [|done]. apply (bool_decide_unpack _). by vm_compute.
  - intros t Ht. by split.
Qed.

Definition fresh_cell : cell := mkCell [1; 2; 3; 4] 0.

Lemma fresh_cell_bytes : bytes_cell fresh_cell.
Proof. apply (bool_decide_unpack _). by vm_compute. Qed.

(** ** A debugging session *)

(** Reads, a write and a read of what it wrote, a refused read, a step, and
    breakpoints of the right and of the wrong kind. *)
Definition session_ops : list remote_op :=
  [ReadMemory 0 4; WriteMemory 1 [35; 125]; ReadMemory 0 4; ReadMemory 3 2; ReadMemory 0 65;
   ReadRegisters; Step; SetBreakpoint 2 1; SetBreakpoint 2 4].

Definition session_up : list Z :=
  bytes_of (half_traffic client_half (turns limits_64 session_ops fresh_cell)).

Lemma session_ops_typed : Forall op_typed session_ops.
Proof.
  unfold session_ops. rewrite !Forall_cons_iff. cbn [op_typed]. unfold in_u64, u64_max.
  split_and!; try lia; try done; try constructor; apply (bool_decide_unpack _); by vm_compute.
Qed.


(** ** Traffic with line noise, a damaged frame and a lost acknowledgement *)

Definition noisy : traffic :=
  [([43], Ack); (str "$m0,2#00", Packet [] false); sent (SendPacket (str "m0,2")); sent SendNack;
   sent SendAck; sent (SendPacket (str "D")); sent SendAck].

Lemma noisy_ok : traffic_ok 512 noisy.
Proof.
  unfold traffic_ok, noisy. rewrite !Forall_cons_iff.
  assert (traffic_ok 512 (sent <$> [SendAck; SendPacket (str "m0,2"); SendNack; SendPacket (str "D")])) as Hs.
  { apply sent_ok; [lia|vm_compute; discriminate|]. repeat constructor; vm_compute; discriminate. }
  unfold traffic_ok in Hs. rewrite !fmap_cons, !Forall_cons_iff in Hs. destruct_and!.
  split_and!; try done; try constructor. cbn [fst snd].
  change (str "$m0,2#00") with (DOLLAR :: str "m0,2" ++ [HASH; 48; 48]).
  by apply (damaged_reads_as 512 (str "m0,2") 48 48 0 0);
    [lia|apply (bool_decide_unpack _); vm_compute| | |vm_compute].
Qed.

Lemma server_refines_protocol_witness :
  (serve_one_with_limits 1000 fresh_cell (hears (bytes_of noisy)) limits_64).1 = Ok tt
  ∧ (protocol_run limits_64 Listening noisy.*2 fresh_cell).1.2
    = str "-+$0102#c3$0102#c3+$OK#9a"
  ∧ ∃ i, linked (gs_transport (serve_one_with_limits 1000 fresh_cell (hears (bytes_of noisy)) limits_64).2.1)
           i (str "-+$0102#c3$0102#c3+$OK#9a").
Proof.
  destruct (server_refines_protocol limits_64 noisy (hears (bytes_of noisy)) fresh_cell [] 1000)
    as (Hr & _ & Hi).
  - exact noisy_ok.
  - apply hears_linked.
  - apply (bool_decide_unpack _). vm_compute. reflexivity.
  - split; [exact Hr|]. split; [vm_compute; reflexivity|]. exact Hi.
Defined.

(** A frame that never closes, an oversized count and a request that is not one. *)
Definition garbage : list Z :=
  [255; 0; 36] ++ str "mffffffffffffffffff,zz#00$vCont;q:p-1.-1#77$Z9,,#00$" ++ [125].


(** ** Registers *)

Lemma ps2_default_typed : ps2_typed Ps2EeCoreRegisters_default.
Proof.
  split; cbn [Ps2EeCoreRegisters_default ee_gpr ee_fpr ee_lo ee_hi].
  - split; [done|]. by apply Forall_replicate.
  - split; [done|]. by apply Forall_replicate.
  - done.
  - by apply (Forall_replicate _ 9).
Qed.

Lemma ps2_packet_exact_witness :
  ∃ raw, ps2_ee_registers_to_gpacket Ps2EeCoreRegisters_default = Ok raw
         ∧ zlen raw = PS2_EE_GPACKET_BYTES
         ∧ ps2_apply_gpacket Ps2EeCoreRegisters_default raw = Ok Ps2EeCoreRegisters_default.
Proof.
  apply (ps2_packet_exact Ps2EeCoreRegisters_default ps2_default_typed). exact ps2_default_typed.
Defined.

(** ** The description of the cell *)

(** A parser that keeps the text. *)
Definition keep_text (xml : list Z) : result (list Z) IoError := Ok xml.

Definition description_turns : list (list Z * list Z) :=
  transfer (str "<target/>") (chunk_size_of limits_64) 10 0.

Lemma description_transfer_exact_witness :
  (read_target_description keep_text 1000 10
     (with_operation_timeout 1000
        (client_with_limits (joined_to limits_64 fresh_cell) limits_64))).1
  = Ok (Some (str "<target/>")).
Proof.
  destruct (description_transfer_exact limits_64 fresh_cell 0 1000 keep_text
    (joined_to limits_64 fresh_cell)
    (hears (bytes_of (half_traffic client_half description_turns))) 10 1000) as (Hc & _).
  - vm_compute. discriminate.
  - vm_compute. discriminate.
  - lia.
  - vm_compute. discriminate.
  - vm_compute. discriminate.
  - vm_compute. reflexivity.
  - apply joined_to_new.
  - apply hears_linked.
  - apply (bool_decide_unpack _). vm_compute. reflexivity.
  - apply (bool_decide_unpack _). vm_compute. reflexivity.
  - exact Hc.
Defined.

(** A stub that repeats one chunk that is never the last. *)
Definition small_limits : ProtocolLimits := mkProtocolLimits 64 64 3.

Definition stubborn : GdbRemoteClient wire_end :=
  client_with_limits (hears (mjoin (replicate 8 (str "+$maa#2f")))) small_limits.

Lemma description_fetch_bounded_witness :
  read_target_description keep_text 200 (4 + 50) stubborn
  = read_target_description keep_text 200 4 stubborn
  ∧ (read_target_description keep_text 200 4 stubborn).1
    = Err (io_error InvalidData "target description exceeds configured aggregate limit").
Proof.
  destruct (description_fetch_bounded keep_text 200 4 stubborn) as [Hm _].
  - vm_compute. split; [discriminate|reflexivity].
  - split; [exact (Hm 50%nat)|vm_compute; reflexivity].
Defined.

(** ** A core file: one note with the registers, one segment of eight bytes *)

Definition core_header : list Z :=
  127 :: str "ELF" ++ [2; 1; 1] ++ replicate 9 0 ++ le_bytes 2 4 ++ le_bytes 2 62 ++ le_bytes 4 1
  ++ le_bytes 8 0 ++ le_bytes 8 64 ++ le_bytes 8 0 ++ le_bytes 4 0 ++ le_bytes 2 64 ++ le_bytes 2 56
  ++ le_bytes 2 2 ++ replicate 6 0.

Definition core_program_header (ty offset address file_size memory_size : Z) : list Z :=
  le_bytes 4 ty ++ le_bytes 4 5 ++ le_bytes 8 offset ++ le_bytes 8 address ++ le_bytes 8 address
  ++ le_bytes 8 file_size ++ le_bytes 8 memory_size ++ le_bytes 8 4.

(** Signal 6, and register [i] holding [i + 1]. *)
Definition core_note : list Z :=
  le_bytes 4 5 ++ le_bytes 4 336 ++ le_bytes 4 NT_PRSTATUS ++ str "CORE" ++ [0; 0; 0; 0]
  ++ replicate 12 0 ++ le_bytes 2 6 ++ replicate 98 0
  ++ (seqZ 1 27 ≫= le_bytes 8) ++ replicate 8 0.

Definition core_file : list Z :=
  core_header ++ core_program_header PT_NOTE 176 0 356 0 ++ core_program_header PT_LOAD 532 4194304 8 4096
  ++ core_note ++ [222; 173; 190; 239; 1; 2; 3; 4].

Definition parsed_core : CoreDump :=
  match CoreDump_parse core_file with
  | Ok core => core
  | _ => mkCoreDump Elf32 CoreBig 0 [] None 0 []
  end.

Lemma core_file_ok : file_ok core_file.
Proof. split; [apply (bool_decide_unpack _); by vm_compute|vm_compute; discriminate]. Qed.

Lemma core_parse_sound_witness :
  CoreDump_parse core_file = Ok parsed_core
  ∧ cd_regions parsed_core = [mkCoreRegion 4194304 532 8 4096 5]
  ∧ rip <$> cd_registers parsed_core = Some 17 ∧ cd_signal parsed_core = 6
  ∧ core_wf parsed_core ∧ regions_of_table parsed_core.
Proof.
  pose proof (core_parse_sound core_file core_file_ok) as Hs.
  assert (CoreDump_parse core_file = Ok parsed_core) as Hp by (vm_compute; reflexivity).
  rewrite Hp in Hs. destruct Hs as (Hwf & _ & Hr).
  split; [exact Hp|]. split; [vm_compute; reflexivity|]. split; [vm_compute; reflexivity|].
  split; [vm_compute; reflexivity|]. split; [exact Hwf|exact Hr].
Defined.

Lemma parsed_core_wf : core_wf parsed_core.
Proof.
  assert (parsed_core = mkCoreDump Elf64 CoreLittle 62 [mkCoreRegion 4194304 532 8 4096 5]
    (cd_registers parsed_core) 6 core_file) as -> by (vm_compute; reflexivity).
  split; cbn [cd_bytes cd_regions cd_signal cd_registers].
  - exact core_file_ok.
  - repeat constructor.
  - apply Forall_singleton. split; vm_compute; intuition discriminate.
  - vm_compute. intuition discriminate.
  - intros regs Hr. vm_compute in Hr. injection Hr as <-. unfold amd64_typed. cbn.
    rewrite !Forall_cons_iff. split_and!; (lia || constructor).
Qed.

Lemma core_read_exact_witness :
  CoreDump_read_memory parsed_core 4194305 3 = Ok [173; 190; 239]
  ∧ byte_at parsed_core 4194306 = Some 190.
Proof.
  destruct (core_read_exact parsed_core 4194305 3) as [_ Hr].
  - exact parsed_core_wf.
  - vm_compute. split; discriminate.
  - vm_compute. split; discriminate.
  - assert (CoreDump_read_memory parsed_core 4194305 3 = Ok [173; 190; 239]) as Hread
      by (vm_compute; reflexivity).
    split; [exact Hread|]. apply Hr in Hread as (_ & _ & _ & Hb). symmetry.
    exact (proj2 (Hb 1%nat ltac:(vm_compute; lia))).
Defined.

Definition core_ops : list remote_op :=
  [ReadMemory 4194304 8; ReadMemory 4194308 8; ReadRegisters; WriteMemory 4194304 [0]; Cont].

Definition core_up : list Z :=
  bytes_of (half_traffic client_half (turns limits_64 core_ops (mkCoreDumpTarget parsed_core))).

Lemma core_ops_typed : Forall op_typed core_ops.
Proof.
  unfold core_ops. rewrite !Forall_cons_iff. cbn [op_typed]. unfold in_u64, u64_max.
  split_and!; try lia; try done; try constructor; apply (bool_decide_unpack _); by vm_compute.
Qed.

Lemma core_debugged_remotely_witness :
  ok_value <$> (client_session 2000 core_ops
     (with_operation_timeout 1000 (client_with_limits (joined_to limits_64 (mkCoreDumpTarget parsed_core)) limits_64))).1
  = [Some (Bytes [222; 173; 190; 239; 1; 2; 3; 4]); None;
     (λ registers, Bytes (amd64_bytes registers)) <$> cd_registers parsed_core; None; None].
Proof.
  destruct (core_debugged_remotely limits_64 parsed_core 0 1000 core_ops
    (joined_to limits_64 (mkCoreDumpTarget parsed_core)) (hears core_up) 2000)
    as (Hc & _).
  - exact parsed_core_wf.
  - vm_compute. discriminate.
  - vm_compute. discriminate.
  - lia.
  - exact core_ops_typed.
  - apply joined_to_new.
  - apply hears_linked.
  - apply (bool_decide_unpack _). vm_compute. reflexivity.
  - apply (bool_decide_unpack _). vm_compute. reflexivity.
  - rewrite Hc. vm_compute. reflexivity.
Defined.
