(* ===== verification/HostWitnesses.v ===== *)
(** Concrete frames, handshakes and batches in which the hypotheses of the host
    channel theorems hold. *)

From S2P Require Import Prelude Utf8 Identity Sandbox Protocol HostWire HostWireTheory.
From S2P Require Import HostChannelTheory HostHandshakeTheory HostCodec HostCodecTheory HostResponse.
Open Scope Z_scope.

(** ** Frames *)

Definition sample_nonce : list Z := [1; 2; 3; 4; 5; 6; 7; 8; 9; 10; 11; 12; 13; 14; 15; 16].
Definition sample_controller_build : list Z := str "controller-1.0".
Definition sample_host_build : list Z := str "host-1.0".

Definition sample_initiator : result BuildClaimHandshake HandshakeError :=
  initiator ControllerRole sample_nonce sample_controller_build sample_host_build.
Definition sample_responder : result BuildClaimHandshake HandshakeError :=
  responder HostRole sample_host_build sample_controller_build.

Definition no_endpoint : BuildClaimHandshake :=
  mkHandshake HostRole [] [] WireProtocolVersion_current None None HS.Failed.
Definition endpoint_of (r : result BuildClaimHandshake HandshakeError) : BuildClaimHandshake :=
  match r with Ok h => h | _ => no_endpoint end.

Definition sample_frame : FrameHeader :=
  mkFrameHeader WireProtocolVersion_current 1 MK.Command 0 None (BytesBody (str "{}")).
Definition sample_stream : list Z :=
  match encode_control sample_frame with Ok bytes => bytes | _ => [] end.

(** The stream of one frame, cut inside its length prefix and again inside its
    header. *)
Lemma header_decoder_exact_witness :
  let chunks := [take 3 sample_stream; take 20 (drop 3 sample_stream); drop 23 sample_stream] in
  let r := push_all chunks 0 HeaderDecoder_default in
  r.1 = Ok (Some (sample_frame, zlen sample_stream)) ∧ decoder_finish r.2 = Ok tt.
Proof.
  intros chunks r.
  assert (Forall is_byte (concat chunks)) as Hb by (vm_compute; repeat constructor; discriminate).
  destruct (header_decoder_exact chunks Hb) as (Hr & _ & _ & Hf).
  assert (r.1 = Ok (Some (sample_frame, zlen sample_stream))) as Hh by (unfold r; rewrite Hr; vm_compute; reflexivity).
  split; [done|]. apply Hf. by exists (sample_frame, zlen sample_stream).
Defined.

(** ** The handshake *)

Ltac chars l :=
  let v := eval vm_compute in l in
  change l with v; repeat constructor; unfold is_char; lia.

Lemma handshake_authentic_witness :
  transcript (endpoint_of sample_initiator) (endpoint_of sample_initiator) [].
Proof.
  assert (fresh (endpoint_of sample_initiator)) as Hf.
  { apply (fresh_initiator ControllerRole sample_nonce sample_controller_build sample_host_build
             WireProtocolVersion_current). vm_compute. reflexivity. }
  exact (proj1 (handshake_authentic (endpoint_of sample_initiator) [] (CallBegin 1) Hf)).
Defined.

Lemma handshake_completes_witness :
  ∃ hello i1, handshake_begin 1 (endpoint_of sample_initiator) = (Ok hello, i1) ∧ delivered hello.
Proof.
  destruct (handshake_completes ControllerRole sample_nonce sample_controller_build sample_host_build
              (endpoint_of sample_initiator) (endpoint_of sample_responder))
    as (hello & ack & i1 & i2 & r1 & Hb & Hd & _).
  - reflexivity.
  - vm_compute. repeat constructor; discriminate.
  - chars sample_controller_build.
  - chars sample_host_build.
  - vm_compute. reflexivity.
  - vm_compute. reflexivity.
  - exists hello, i1. split; [exact Hb|exact Hd].
Defined.

(** ** A command *)

Definition sample_write_command : CommandEnvelope :=
  mkCommandEnvelope ProtocolVersion_current 1 (Some 7) (Some (mkStateToken 7 1))
    (DC.WriteMemory (mkStopToken (mkStateToken 7 1) 1) 4096 [1; 2] [3; 4]).

(** A JSON library that knows one document. *)
Definition sample_json : Json CommandControl :=
  {| json_to_vec := λ _, inl (str "{}");
     json_from_slice := λ bytes,
       if bool_decide (bytes = str "{}") then inl (command_document sample_write_command)
       else inr (str "unknown document") |}.

Lemma command_codec_exact_witness :
  is_ok (@encode_command_frame sample_json 2 sample_write_command) = true
  ∧ ∀ f, @encode_command_frame sample_json 2 sample_write_command = Ok f →
         @decode_command_frame sample_json f = Ok sample_write_command.
Proof.
  assert (@carries _ sample_json (command_document sample_write_command)) as Hc.
  { intros bytes [= <-]. split; [vm_compute; repeat constructor; discriminate|reflexivity]. }
  destruct (@command_codec_exact sample_json 2 sample_write_command) as (_ & Hok & Hd & _);
    [vm_compute; split; [reflexivity|discriminate]|exact Hc|].
  split.
  - apply Hok. split; [vm_compute; reflexivity|]. exists (str "{}"). split; [reflexivity|].
    vm_compute. discriminate.
  - intros f Hf. apply (Hd f Hf).
Defined.

(** ** A batch *)

Definition sample_host_frame : HostFrame := mkHostFrame sample_frame [].

Definition sample_builder : HostResponseBatchBuilder :=
  mkBuilder DEFAULT_HOST_RESPONSE_LIMITS 1 [] 0.

Lemma response_budget_kept_witness :
  within DEFAULT_HOST_RESPONSE_LIMITS 1 (builder_run [CallPush sample_host_frame] sample_builder).
Proof.
  apply (response_budget_kept DEFAULT_HOST_RESPONSE_LIMITS 1 sample_builder [CallPush sample_host_frame]).
  - vm_compute. reflexivity.
  - repeat constructor. vm_compute. discriminate.
Defined.
