(* ===== verification/HostClientWitnesses.v ===== *)
(** A debugger host that plays a script, a client that opens an offline image on it and
    closes it again, and the theorems about the client applied to that run. *)

From S2P Require Import Prelude Identity Sandbox SandboxPolicyTheory SandboxLifecycle Protocol.
From S2P Require Import ProtocolTheory Authorization SessionMachine SessionInvariant.
From S2P Require Import SessionCommands SessionWorlds AuthorizationTheory Scenarios.
From S2P Require Import LivePatchHistory HostWire HostWireTheory HostHandshakeTheory HostCodec.
From S2P Require Import HostCodecTheory HostResponse HostWitnesses HostEvidence HostEvidenceTheory.
From S2P Require Import HostReading HostSettling HostExchangeTheory HostClient HostClientTheory.
Open Scope Z_scope.

(** ** The scripted host *)

Definition Script : Type := list HostResponseBatch.

#[global] Instance scripted_host : HostFrameExchange Script :=
  {| exchange := λ _ _ script,
       match script with
       | batch :: rest => (Ok batch, rest)
       | [] => (Err HTE.Disconnected, [])
       end;
     poll_inbound := λ _ _, sret None;
     release_session := λ _, sret tt;
     shutdown_control := λ _, sret tt;
     abort_control := λ _ _, [] |}.

Definition any_script (t : Script) : Prop := True.

Lemma scripted_host_quiet : quiet_transport any_script.
Proof. split; intros; try done. intros t _. by destruct t. Qed.

(** ** Its documents *)

Definition sample_state (generation : Z) : StateToken := mkStateToken sample_sid generation.
Definition sample_offline : OfflineTarget := mkOfflineTarget (str "C:\image.exe").
Definition sample_offline_open : DebugCommand := DC.Open (DTR.Offline sample_offline).
Definition sample_read : DebugCommand :=
  DC.ReadMemory (ReadViewToken.Offline (sample_state 3)) 4096 2.
Definition sample_close : DebugCommand := DC.Close (sample_state 3).

Definition sample_event (sequence generation command_id : Z) (event : DebugEvent) : EventEnvelope :=
  mkEventEnvelope ProtocolVersion_current sequence (Some sample_sid) (Some (sample_state generation))
    (Some command_id) event.

Definition sample_events : list EventEnvelope :=
  [ sample_event 1 2 1 (DE.StateChanged (SS.Opening (sample_state 2) (DTR.Offline sample_offline)));
    sample_event 2 3 1 (DE.StateChanged (SS.Offline (sample_state 3)));
    sample_event 3 3 1 (DE.CommandResult 1 CommandOutcome.Succeeded);
    sample_event 4 3 2 (DE.MemoryRead (ReadViewToken.Offline (sample_state 3)) 4096 []);
    sample_event 5 3 2 (DE.CommandResult 2 CommandOutcome.Succeeded);
    sample_event 6 4 3 (DE.StateChanged (SS.Closing (sample_state 4)));
    sample_event 7 5 3 (DE.StateChanged (SS.Closed (sample_state 5)));
    sample_event 8 5 3 (DE.CommandResult 3 CommandOutcome.Succeeded) ].

(** JSON libraries: a document is the number of an event. *)
#[global] Instance sample_event_json : Json EventControl :=
  {| json_to_vec := λ _, inl [0];
     json_from_slice := λ bytes,
       match bytes with
       | [n] => match sample_events !! Z.to_nat n with
                | Some e => inl (mkEventControl e (match ee_event e with
                                                   | DE.MemoryRead _ _ _ => EventRawMemoryRead
                                                   | _ => EventRawNone
                                                   end))
                | None => inr (str "unknown document")
                end
       | _ => inr (str "unknown document")
       end |}.
#[global] Instance sample_command_json : Json CommandControl :=
  {| json_to_vec := λ _, inl (str "{}"); json_from_slice := λ _, inr (str "unknown document") |}.

(** ** Its frames *)

Definition batch_of (frames : list HostFrame) : HostResponseBatch :=
  match try_from_frames frames DEFAULT_HOST_RESPONSE_LIMITS with
  | Ok batch => batch
  | _ => mkResponseBatch 0 [] 0
  end.

Definition scripted_frame (n : Z) (address : option Z) (raw : list Z) : HostFrame :=
  mkHostFrame (mkFrameHeader WireProtocolVersion_current (n + 2) MK.Event (zlen raw) address
                 (BytesBody [n])) raw.

Definition sample_acknowledgement : HostFrame :=
  mkHostFrame (mkFrameHeader WireProtocolVersion_current 1 MK.HelloAck 0 None
                 (HelloBody (mkHelloIdentity sample_nonce HostRole (outbound_direction HostRole)
                               sample_host_build))) [].

Definition sample_script : Script :=
  [ batch_of [sample_acknowledgement];
    batch_of [scripted_frame 0 None []; scripted_frame 1 None []; scripted_frame 2 None []];
    batch_of [scripted_frame 3 (Some 4096) [77; 90]; scripted_frame 4 None []];
    batch_of [scripted_frame 5 None []; scripted_frame 6 None []; scripted_frame 7 None []] ].

(** ** The run *)

Definition no_client : DebugHostClient Script :=
  mkClient [] CCS.Failed (mkInbound WireProtocolVersion_current ProtocolVersion_current 2 None)
    None 1 2 [] true.
Definition sample_connection : DebugHostClient Script :=
  match (connect sample_nonce sample_controller_build sample_host_build sample_script).1 with
  | Ok c => c
  | _ => no_client
  end.
Definition sample_calls : list client_call :=
  [ CallBeginSession 1 sample_sid sample_epoch sample_helper; CallSubmit sample_offline_open;
    CallSubmit sample_read; CallSubmit sample_close; CallRelease; CallDisconnect ].
Definition client_after (n : nat) : DebugHostClient Script :=
  foldl (λ c call, (client_exec call c).2) sample_connection (take n sample_calls).

Lemma calls_reachable l (c : DebugHostClient Script) :
  client_reachable any_script c → Forall typed_call l →
  client_reachable any_script (foldl (λ c call, (client_exec call c).2) c l).
Proof.
  intros Hc Hl. revert c Hc. induction Hl as [|call l Ht Hl IH]; intros c Hc; cbn; [done|].
  by apply IH, reach_call.
Qed.

Lemma sample_reachable n : client_reachable any_script (client_after n).
Proof.
  apply calls_reachable.
  - apply (reach_connect any_script sample_nonce sample_controller_build sample_host_build sample_script
             _ (dc_transport sample_connection) I). vm_compute. reflexivity.
  - apply Forall_take. repeat constructor.
Qed.

Lemma connect_authentic_witness :
  is_ok (connect sample_nonce sample_controller_build sample_host_build sample_script).1 = true
  ∧ acknowledged sample_nonce sample_host_build (batch_of [sample_acknowledgement]).
Proof.
  split; [vm_compute; reflexivity|].
  pose proof (connect_authentic any_script sample_nonce sample_controller_build sample_host_build
                sample_script scripted_host_quiet I) as Hc.
  replace (connect sample_nonce sample_controller_build sample_host_build sample_script)
    with (@Ok _ DebugHostClientError sample_connection, dc_transport sample_connection) in Hc
    by (vm_compute; reflexivity).
  destruct Hc as (_ & _ & _ & request & batch & _ & He & Ha). injection He as <-. exact Ha.
Defined.

Lemma client_runs_sound_witness :
  client_ok any_script (client_after 2) ∧ no_panic (client_exec (CallSubmit sample_read) (client_after 2)).1.
Proof.
  exact (client_runs_sound any_script (client_after 2) (CallSubmit sample_read) scripted_host_quiet
           (sample_reachable 2) I).
Defined.

(** The bytes of the image arrive. *)
Lemma submit_receipt_exact_witness :
  ∃ receipt, (submit sample_read (client_after 2)).1 = Ok receipt
    ∧ (λ e, ee_event e) <$> evidence_of MemoryReadSeen (cre_events receipt)
      = [DE.MemoryRead (ReadViewToken.Offline (sample_state 3)) 4096 [77; 90]]
    ∧ receipt_given sample_read (client_after 2) receipt (client_after 3).
Proof.
  destruct (submit sample_read (client_after 2)) as [[receipt|e|p] c'] eqn:Hr;
    [|exfalso; revert Hr; vm_compute; discriminate..].
  exists receipt. split; [reflexivity|]. split.
  - revert Hr. vm_compute. intros [= <- _]. reflexivity.
  - assert (client_after 3 = c') as ->.
    { transitivity (submit sample_read (client_after 2)).2; [vm_compute; reflexivity|].
      rewrite Hr. reflexivity. }
    exact (submit_receipt_exact any_script (client_after 2) sample_read receipt c' scripted_host_quiet
             (sample_reachable 2) I Hr).
Defined.

Lemma closed_session_released_witness :
  ∃ c, release_closed_session (client_after 4) = (Ok tt, c) ∧ dc_connection_state c = CCS.Connected.
Proof.
  destruct (dc_session (client_after 4)) as [s|] eqn:Hs; [|exfalso; revert Hs; vm_compute; discriminate].
  assert (state_kind (cs_verified_state s) = SSK.Closed) as Hk.
  { revert Hs. vm_compute. intros [= <-]. reflexivity. }
  pose proof (closed_session_released any_script (client_after 4) s scripted_host_quiet (sample_reachable 4)
                ltac:(vm_compute; reflexivity) Hs Hk) as Hr.
  eexists. split; [exact Hr|reflexivity].
Defined.

Lemma ended_client_inert_witness :
  ∃ e, client_exec CallProbe (client_after 6) = (Err e, client_after 6).
Proof.
  apply (ended_client_inert any_script (client_after 6) CallProbe scripted_host_quiet (sample_reachable 6));
    [left; vm_compute; reflexivity|reflexivity].
Defined.
