(* ===== verification/ImageWitnesses.v ===== *)
(** A small ELF image and a small PE image, the offline host that serves the first, and
    the theorems about images and the host applied to them. *)

From S2P Require Import Prelude Identity Sandbox SandboxPolicyTheory SandboxLifecycle Protocol.
From S2P Require Import ProtocolTheory Authorization SessionMachine SessionInvariant.
From S2P Require Import SessionCommands SessionWorlds AuthorizationTheory Scenarios.
From S2P Require Import LivePatchHistory HostWire HostWireTheory HostHandshakeTheory HostCodec.
From S2P Require Import HostCodecTheory HostResponse HostWitnesses HostEvidence HostEvidenceTheory.
From S2P Require Import HostReading HostSettling HostExchangeTheory HostClient HostClientTheory.
From S2P Require Import SymbolGraph ElfAnalysis ElfTheory ElfDeclared AddressSpace AddressSpaceTheory ElfLayoutTheory.
From S2P Require Import OfflineImage OfflineHost OfflineHostTheory.
Open Scope Z_scope.

(** ** Images *)

(** An executable of one segment, whose last four bytes are [DE AD BE EF]; it occupies
    four more bytes in memory than in the file. *)
Definition sample_elf : list Z :=
  [127; 69; 76; 70; 2; 1; 1; 0; 0; 0; 0; 0; 0; 0; 0; 0]
  ++ le_bytes 2 2 ++ le_bytes 2 62 ++ le_bytes 4 1 ++ le_bytes 8 4194424 ++ le_bytes 8 64
  ++ le_bytes 8 0 ++ le_bytes 4 0 ++ le_bytes 2 64 ++ le_bytes 2 56 ++ le_bytes 2 1
  ++ le_bytes 2 0 ++ le_bytes 2 0 ++ le_bytes 2 0
  ++ le_bytes 4 1 ++ le_bytes 4 5 ++ le_bytes 8 0 ++ le_bytes 8 4194304 ++ le_bytes 8 4194304
  ++ le_bytes 8 124 ++ le_bytes 8 128 ++ le_bytes 8 4096
  ++ [222; 173; 190; 239].

Definition sample_analysis : ElfAnalysis :=
  match analyze_elf sample_elf with
  | Ok a => a
  | _ => mkElfAnalysis (mkBinaryIdentity [] 0 ElfFormat [] 0) Elf32 ElfLittle 0 0 0 0 0 0 0 0 0 0 0
           [] 0 0 0 [] [] 0 [] false graph_default
  end.
Definition sample_space : StaticAddressSpace :=
  match from_elf sample_analysis with
  | Ok space => space
  | _ => mkStaticAddressSpace [] 0 0 ElfLayout None []
  end.
Definition sample_image : VerifiedOfflineImage :=
  mkOfflineImage (str "/images/sample") (elf_identity sample_analysis) sample_elf
    (ElfBinary sample_analysis) sample_space.

Lemma sample_elf_file : file_ok sample_elf.
Proof. split; [apply (bool_decide_unpack _); by vm_compute|vm_compute; discriminate]. Qed.

Lemma ok_inj {A E} (a b : A) : @Ok A E a = Ok b → a = b.
Proof. by intros [= ->]. Qed.

Lemma sample_analyzed : analyze_elf sample_elf = Ok sample_analysis.
Proof. vm_cast_no_check (@eq_refl (elf_result ElfAnalysis) (Ok sample_analysis)). Qed.
Lemma sample_laid_out : from_elf sample_analysis = Ok sample_space.
Proof. vm_cast_no_check (@eq_refl (layout_result StaticAddressSpace) (Ok sample_space)). Qed.
Lemma sample_offsets :
  file_offset_at sample_space 120 = Some 120 ∧ file_offset_at sample_space 124 = None.
Proof. split; vm_compute; reflexivity. Qed.

(** A program header gives the last bytes of the file their address, and none gives an
    address to a byte behind them. *)
Lemma elf_analysis_exact_witness :
  declares sample_elf (120 + as_preferred_image_base sample_space) 120
  ∧ (∀ off, ¬ declares sample_elf (124 + as_preferred_image_base sample_space) off)
  ∧ lowest_address sample_elf (as_preferred_image_base sample_space).
Proof.
  destruct (elf_analysis_exact sample_elf sample_elf_file) as (_ & _ & Hex).
  destruct (Hex sample_analysis sample_analyzed) as (space & Hsp & _ & Hlow & Hoff).
  assert (sample_space = space) as <- by exact (ok_inj _ _ (eq_trans (eq_sym sample_laid_out) Hsp)).
  destruct sample_offsets as [H120 H124]. split; [|split].
  - exact (proj1 (proj1 (Hoff 120 120)) H120).
  - intros off Hd. pose proof (proj2 (proj1 (Hoff 124 off)) Hd) as He. rewrite H124 in He. discriminate.
  - exact Hlow.
Defined.

(** The last four bytes are read; a range that runs out of the file is not. *)
Lemma image_read_exact_witness :
  read_rva sample_image 120 4 = Ok [222; 173; 190; 239]
  ∧ image_bytes_at sample_image 120 4 [222; 173; 190; 239]
  ∧ ∀ bytes, ¬ image_bytes_at sample_image 122 4 bytes.
Proof.
  assert (image_ok sample_image) as Hi
    by exact (elf_image_ok _ _ _ _ sample_elf_file sample_analyzed sample_laid_out).
  assert (read_rva sample_image 120 4 = Ok [222; 173; 190; 239]) as Hr by (vm_compute; reflexivity).
  split; [exact Hr|]. split.
  - apply (image_read_exact sample_image 120 4 Hi ltac:(lia) ltac:(lia)). exact Hr.
  - intros bytes Hb. apply (image_read_exact sample_image 122 4 Hi ltac:(lia) ltac:(lia)) in Hb.
    revert Hb. vm_compute. discriminate.
Defined.

(** A PE image with headers and a section of code, which is longer in memory than in the
    file. *)
Definition sample_code : PeSection := mkPeSection (str ".text") [] 4096 1024 512 512 0x60000020.
Definition sample_pe : PeAnalysis :=
  mkPeAnalysis (mkBinaryIdentity [] 1024 PeFormat [] 0x140000000) 4096 8192 512 4096 512 [sample_code].
Definition sample_pe_space : StaticAddressSpace :=
  match from_validated_pe sample_pe with
  | Ok space => space
  | _ => mkStaticAddressSpace [] 0 0 ElfLayout None []
  end.

Lemma pe_layout_exact_witness :
  (∃ r, region_at sample_pe_space 8191 = Some r ∧ range_contains (sr_range r) 8191 = true)
  ∧ section_maps sample_code 4097 513 ∧ file_offset_at sample_pe_space 4608 = None.
Proof.
  assert (pe_typed sample_pe) as Ht
    by (split; [split; vm_compute; discriminate..|]; repeat constructor; vm_compute; discriminate).
  destruct (pe_layout_exact sample_pe Ht) as [_ Hl].
  destruct (Hl sample_pe_space) as (_ & Hr & _ & Hm); [vm_compute; reflexivity|].
  split; [|split].
  - destruct (Hr 8191) as (r & Hat & Hc & _); [vm_compute; split; [discriminate|reflexivity]|].
    exists r. split; [exact Hat|exact Hc].
  - destruct (proj1 (Hm 4097 513)) as [[Hh _]|(s & Hs & Hsm)]; [vm_compute; reflexivity|..].
    + exfalso. cbn in Hh. lia.
    + apply list_elem_of_singleton in Hs. rewrite Hs in Hsm. exact Hsm.
  - vm_compute. reflexivity.
Defined.

(** ** A symbol graph *)

Definition sample_binary : BinaryIdentity := mkBinaryIdentity (str "abcd") 124 ElfFormat (str "x86_64") 0.
Definition sample_claim (binary : list Z) : SymbolClaim :=
  mkClaim (FunctionSubject binary 120 (Some 4)) (SA.Name (str "start")) f64_one
    [mkEvidence METADATA (str "symbol table") None ∅]
    (mkProvenance (ClaimProducer.Core (str "elf") (str "1.0")) (str "symbols") None).
Definition sample_graph : SymbolGraph :=
  (submit_claim (sample_claim (str "abcd")) (insert_binary sample_binary graph_default).2).2.

(** A claim about a registered binary is kept; the graph refuses one about another. *)
Lemma symbol_graph_sound_witness :
  length (sg_claims sample_graph) = 1%nat ∧ graph_validate sample_graph = Ok tt
  ∧ is_ok (submit_claim (sample_claim (str "ffff")) sample_graph).1 = false
  ∧ (submit_claim (sample_claim (str "ffff")) sample_graph).2 = sample_graph.
Proof.
  destruct (symbol_graph_sound sample_graph) as (Hv & _ & Hc).
  - eapply rtc_l; [apply (step_binary graph_default sample_binary)|].
    eapply rtc_l; [apply (step_claim _ (sample_claim (str "abcd")))|]. apply rtc_refl.
  - assert (is_ok (submit_claim (sample_claim (str "ffff")) sample_graph).1 = false) as Hf
      by (vm_compute; reflexivity).
    destruct (Hc (sample_claim (str "ffff"))) as (_ & _ & Hg). rewrite Hf in Hg.
    split; [vm_compute; reflexivity|]. split; [exact Hv|]. split; [exact Hf|exact Hg].
Defined.
