(* ===== verification/OfflineWitnesses.v ===== *)
(** A client that opens a small ELF image on the offline host, reads from it and closes
    it, and the theorems about the host applied to that run. *)

From S2P Require Import Prelude Identity Sandbox SandboxPolicyTheory SandboxLifecycle Protocol.
From S2P Require Import ProtocolTheory Authorization SessionMachine SessionInvariant.
From S2P Require Import SessionCommands SessionWorlds AuthorizationTheory Scenarios.
From S2P Require Import LivePatchHistory HostWire HostWireTheory HostHandshakeTheory HostCodec.
From S2P Require Import HostCodecTheory HostResponse HostWitnesses HostEvidence HostEvidenceTheory.
From S2P Require Import HostReading HostSettling HostExchangeTheory HostClient HostClientTheory.
From S2P Require Import SymbolGraph ElfAnalysis AddressSpace AddressSpaceTheory.
From S2P Require Import OfflineImage OfflineHost OfflineHostTheory ImageWitnesses.
Open Scope Z_scope.

(** ** Documents *)

Definition sample_token (generation : Z) : StateToken := mkStateToken sample_sid generation.
Definition octet (n : Z) : bool := (0 <=? n) && (n <=? 255).

(** JSON libraries for the documents of the run: a document is the list of its numbers. *)
Definition event_numbers (layout : EventRawLayout) (event : DebugEvent) : option (list Z) :=
  match layout, event with
  | EventRawNone, DE.CommandResult id CommandOutcome.Succeeded => Some [0; id]
  | EventRawNone, DE.StateChanged (SS.Opening (mkStateToken s g) (DTR.Offline t)) =>
      if decide (s = sample_sid ∧ offline_path t = oi_origin_path sample_image) then Some [1; g] else None
  | EventRawNone, DE.StateChanged (SS.Offline (mkStateToken s g)) =>
      if decide (s = sample_sid) then Some [2; g] else None
  | EventRawNone, DE.StateChanged (SS.Closing (mkStateToken s g)) =>
      if decide (s = sample_sid) then Some [3; g] else None
  | EventRawNone, DE.StateChanged (SS.Closed (mkStateToken s g)) =>
      if decide (s = sample_sid) then Some [4; g] else None
  | EventRawMemoryRead, DE.MemoryRead (ReadViewToken.Offline (mkStateToken s g)) address [] =>
      if decide (s = sample_sid) then Some [5; g; address] else None
  | _, _ => None
  end.

Definition event_of_numbers (numbers : list Z) : option (EventRawLayout * DebugEvent) :=
  match numbers with
  | [0; id] => Some (EventRawNone, DE.CommandResult id CommandOutcome.Succeeded)
  | [1; g] => Some (EventRawNone,
                    DE.StateChanged (SS.Opening (sample_token g) (DTR.Offline (image_target sample_image))))
  | [2; g] => Some (EventRawNone, DE.StateChanged (SS.Offline (sample_token g)))
  | [3; g] => Some (EventRawNone, DE.StateChanged (SS.Closing (sample_token g)))
  | [4; g] => Some (EventRawNone, DE.StateChanged (SS.Closed (sample_token g)))
  | [5; g; address] => Some (EventRawMemoryRead, DE.MemoryRead (ReadViewToken.Offline (sample_token g)) address [])
  | _ => None
  end.

Definition command_numbers (command : DebugCommand) : option (list Z) :=
  match command with
  | DC.Open (DTR.Offline t) => if decide (offline_path t = oi_origin_path sample_image) then Some [0] else None
  | DC.ReadMemory (ReadViewToken.Offline (mkStateToken s g)) address size =>
      if decide (s = sample_sid) then Some [1; g; address; size] else None
  | DC.Close (mkStateToken s g) => if decide (s = sample_sid) then Some [2; g] else None
  | _ => None
  end.

Definition command_of_numbers (numbers : list Z) : option DebugCommand :=
  match numbers with
  | [0] => Some (DC.Open (DTR.Offline (image_target sample_image)))
  | [1; g; address; size] => Some (DC.ReadMemory (ReadViewToken.Offline (sample_token g)) address size)
  | [2; g] => Some (DC.Close (sample_token g))
  | _ => None
  end.

Lemma same_target t i : offline_path t = oi_origin_path i → t = image_target i.
Proof. destruct t. cbn. by intros ->. Qed.

Ltac restore :=
  try done; repeat match goal with H : left _ = left _ |- _ => clear H end; destruct_and?;
  repeat match goal with H : offline_path _ = _ |- _ => apply same_target in H end; by subst.

Lemma event_numbers_back layout event numbers :
  event_numbers layout event = Some numbers → event_of_numbers numbers = Some (layout, event).
Proof.
  intros He. unfold event_numbers in He.
  repeat (case_match; try discriminate He); try case_decide; try discriminate He;
    injection He as <-; cbn; restore.
Qed.

Lemma command_numbers_back command numbers :
  command_numbers command = Some numbers → command_of_numbers numbers = Some command.
Proof.
  intros He. unfold command_numbers in He.
  repeat (case_match; try discriminate He); try case_decide; try discriminate He;
    injection He as <-; cbn; restore.
Qed.

Definition unknown {A} : A + list Z := inr (str "unknown document").

#[local] Instance event_json : Json EventControl :=
  {| json_to_vec := λ c,
       match ec_envelope c with
       | mkEventEnvelope version sequence (Some sid) (Some (mkStateToken s g)) (Some cause) event =>
           match event_numbers (ec_raw_layout c) event with
           | Some numbers =>
               if decide (version = ProtocolVersion_current ∧ sid = sample_sid ∧ s = sample_sid
                          ∧ forallb octet (sequence :: g :: cause :: numbers) = true)
               then inl (sequence :: g :: cause :: numbers) else unknown
           | None => unknown
           end
       | _ => unknown
       end;
     json_from_slice := λ bytes,
       match bytes with
       | sequence :: g :: cause :: numbers =>
           match event_of_numbers numbers with
           | Some (layout, event) =>
               inl (mkEventControl (mkEventEnvelope ProtocolVersion_current sequence (Some sample_sid)
                                      (Some (sample_token g)) (Some cause) event) layout)
           | None => unknown
           end
       | _ => unknown
       end |}.

#[local] Instance command_json : Json CommandControl :=
  {| json_to_vec := λ c,
       match c with
       | mkCommandControl
           (mkCommandEnvelope version id (Some sid) (Some (mkStateToken s g)) command) CommandRawNone =>
           match command_numbers command with
           | Some numbers =>
               if decide (version = ProtocolVersion_current ∧ sid = sample_sid ∧ s = sample_sid
                          ∧ forallb octet (id :: g :: numbers) = true)
               then inl (id :: g :: numbers) else unknown
           | None => unknown
           end
       | _ => unknown
       end;
     json_from_slice := λ bytes,
       match bytes with
       | id :: g :: numbers =>
           match command_of_numbers numbers with
           | Some command =>
               inl (mkCommandControl (mkCommandEnvelope ProtocolVersion_current id (Some sample_sid)
                                        (Some (sample_token g)) command) CommandRawNone)
           | None => unknown
           end
       | _ => unknown
       end |}.

Lemma octets numbers : forallb octet numbers = true → Forall is_byte numbers.
Proof.
  intros Hf. apply forallb_Forall in Hf. eapply list.Forall_impl; [exact Hf|]. intros n Hn.
  unfold octet in Hn. apply andb_true_iff in Hn as [?%Z.leb_le ?%Z.leb_le]. unfold is_byte. lia.
Qed.

Lemma events_carried e : carries (event_document e).
Proof.
  generalize (event_document e).
  intros [[version sequence [sid|] [[s g]|] [cause|] event] layout] bytes; cbn; try discriminate.
  destruct (event_numbers layout event) as [numbers|] eqn:Hn; [|discriminate].
  case_decide as Hd; [|discriminate]. intros [= <-]. destruct Hd as (-> & -> & -> & Ho).
  split; [by apply octets|]. by apply event_numbers_back in Hn as ->.
Qed.

Lemma commands_carried e : carries (command_document e).
Proof.
  generalize (command_document e).
  intros [[version id [sid|] [[s g]|] command] []] bytes; cbn; try discriminate.
  destruct (command_numbers command) as [numbers|] eqn:Hn; [|discriminate].
  case_decide as Hd; [|discriminate]. intros [= <-]. destruct Hd as (-> & -> & -> & Ho).
  split; [by apply octets|]. by apply command_numbers_back in Hn as ->.
Qed.

Lemma documents_typed : typed_documents.
Proof.
  intros bytes c. cbn. destruct bytes as [|id [|g numbers]]; try discriminate.
  destruct (command_of_numbers numbers) as [command|] eqn:Hn; [|discriminate]. intros [= <-]. cbn.
  unfold command_of_numbers in Hn. repeat case_match; try discriminate; by injection Hn as <-.
Qed.

(** ** The run *)

#[local] Instance any_text {E} : Display E := λ _, str "error".

Definition sample_host : OfflineImageDebugHost :=
  mkOfflineHost sample_image
    (mkHandshake HostRole sample_host_build sample_controller_build WireProtocolVersion_current None None
       HS.AwaitingHello)
    sample_epoch sample_helper None None 1 2 1 false None 100.

Lemma sample_host_new :
  OfflineImageDebugHost_new sample_image sample_host_build sample_controller_build sample_epoch
    sample_helper 100 = Ok sample_host.
Proof. vm_cast_no_check (@eq_refl (result OfflineImageDebugHost HandshakeError) (Ok sample_host)). Qed.

Lemma sample_image_ok : image_ok sample_image.
Proof. exact (elf_image_ok _ _ _ _ sample_elf_file sample_analyzed sample_laid_out). Qed.

(** A frame out of order ends the connection, and nothing is answered after it. *)
Definition stray_frame : HostFrame :=
  mkHostFrame (mkFrameHeader WireProtocolVersion_current 9 MK.Command 0 None (BytesBody [])) [].
Definition stray_call : host_call := HostExchange stray_frame DEFAULT_HOST_RESPONSE_LIMITS.

Lemma offline_host_never_executes_witness :
  host_ok sample_image (host_exec stray_call sample_host).2
  ∧ (offline_exchange stray_frame DEFAULT_HOST_RESPONSE_LIMITS (host_exec stray_call sample_host).2).1
    = Err HTE.Disconnected.
Proof.
  destruct (offline_host_never_executes sample_image (host_exec stray_call sample_host).2 stray_call
              sample_image_ok documents_typed) as (Hh & _ & Hd).
  - apply host_step. exact (host_new sample_image _ _ _ _ _ _ sample_host_new).
  - split; [exact Hh|]. rewrite Hd by (vm_compute; reflexivity). reflexivity.
Defined.

Definition offline_calls : list client_call :=
  [ CallBeginSession 1 sample_sid sample_epoch sample_helper;
    CallSubmit (DC.Open (DTR.Offline (image_target sample_image))) ].
Definition connected : DebugHostClient OfflineImageDebugHost * bool :=
  match (connect sample_nonce sample_controller_build sample_host_build sample_host).1 with
  | Ok c => (c, true)
  | _ => (mkClient sample_host CCS.Failed
            (mkInbound WireProtocolVersion_current ProtocolVersion_current 2 None) None 1 2 [] true, false)
  end.
Definition opened_client : DebugHostClient OfflineImageDebugHost :=
  foldl (λ c call, (client_exec call c).2) connected.1 offline_calls.

Lemma opened_reachable : client_reachable (host_ok sample_image) opened_client.
Proof.
  assert (client_reachable (host_ok sample_image) connected.1) as Hc.
  { apply (reach_connect (host_ok sample_image) sample_nonce sample_controller_build sample_host_build
             sample_host _ (dc_transport connected.1)).
    - exact (new_host_ok sample_image _ _ _ _ _ _ sample_host_new).
    - vm_cast_no_check (@eq_refl (result (DebugHostClient OfflineImageDebugHost) DebugHostClientError
                                    * OfflineImageDebugHost)
                          (Ok connected.1, dc_transport connected.1)). }
  apply reach_call; [apply reach_call; [exact Hc|exact I]|exact I].
Qed.

Definition read_view : ReadViewToken := ReadViewToken.Offline (sample_token 3).
Lemma read_succeeds :
  match (submit (DC.ReadMemory read_view 120 4) opened_client).1 with
  | Ok receipt => bool_decide (cre_outcome receipt = CommandOutcome.Succeeded)
  | _ => false
  end = true.
Proof. vm_cast_no_check (@eq_refl bool true). Qed.
Lemma read_receipt :
  ∃ receipt c', submit (DC.ReadMemory read_view 120 4) opened_client = (Ok receipt, c')
                ∧ cre_outcome receipt = CommandOutcome.Succeeded.
Proof.
  pose proof read_succeeds as Hout. revert Hout.
  destruct (submit _ _) as [[receipt|e|p] c']; cbn [fst]; intros Hout; [|discriminate Hout..].
  exists receipt, c'. split; [reflexivity|]. exact (bool_decide_eq_true_1 _ Hout).
Qed.

(** The bytes of the image arrive at the client. *)
Lemma offline_reads_exact_witness :
  ∃ receipt bytes, (submit (DC.ReadMemory read_view 120 4) opened_client).1 = Ok receipt
    ∧ cre_outcome receipt = CommandOutcome.Succeeded
    ∧ ee_event <$> head (cre_events receipt) = Some (DE.MemoryRead read_view 120 bytes)
    ∧ image_bytes_at sample_image 120 4 bytes.
Proof.
  destruct read_receipt as (receipt & c' & Hr & Hout).
  assert (0 ≤ 120) as H120 by done. assert (0 ≤ 4) as H4 by done.
  pose proof (offline_reads_exact sample_image opened_client read_view 120 4 receipt c' sample_image_ok
                documents_typed commands_carried events_carried opened_reachable H120 H4 Hr) as Hx.
  rewrite Hout in Hx. destruct Hx as (read & result & bytes & He & Hread & Hb).
  exists receipt, bytes. split; [exact (f_equal fst Hr)|]. split; [exact Hout|]. split; [|exact Hb].
  rewrite He. cbn. rewrite Hread. reflexivity.
Defined.
